(* ===== verification/_CoqProject ===== *)
-Q . S2P
Prelude.v
Bits.v
Cutils.v
Bytes.v
Sha256.v
Sha256Ok.v
Hmac.v
AesTables.v
Aes.v
AesOk.v
AesKey.v
AesFile.v
AesFileOk.v
IoMem.v
Plic.v
Pci.v
PciOk.v
PciBus.v
PciIntx.v
PciMsi.v
Virtio.v
VirtioWalk.v
VirtioCopy.v
VirtioOk.v
VirtioRam.v
I8259.v
IoApic.v
Aplic.v
AplicOk.v
AplicSim.v
Lapic.v
LapicOk.v
Clint.v
Resource.v
Fdt.v
FdtOk.v
RvAlu.v
RvState.v
RvMem.v
RvWalk.v
RvCsr.v
RvTrap.v
RvTlb.v
RvFence.v
Softfp.v
SoftfpSpec.v
SoftfpRound.v
SoftfpArith.v
SoftfpSqrt.v
SoftfpFma.v
SoftfpCmp.v
SoftfpIeee.v
SoftfpConv.v
RvFp.v
RvInsn.v
RvAmo.v
RvInterp.v
RvWf.v
RvRvc.v
RvSbi.v
