(* ===== verification/Prelude.v ===== *)
(** TinyEMU, verified in Rocq: a shallow embedding of the parts of the emulator
    that decide what a guest observes, with the theorems that make them correct.

    * The program

    TinyEMU emulates RISC-V (32, 64 and 128 bits) and x86 machines.  A machine
    ([src/machine]) puts processors ([src/cpu]), buses ([src/bus]) and devices
    ([src/device]) on a physical memory map ([src/core/iomem.cpp]).  Processors
    reach RAM through TLBs of host pointers and devices through the map, which
    fits an access to the widths a device was registered for.  Devices raise
    lines of an interrupt controller (PLIC, APLIC, 8259, I/O APIC) or, on PCI, send
    messages; the controller drives the processors, which look at their
    interrupts between blocks of instructions.  A guest that starts in S mode is
    served by the emulator's own SBI.  Virtio devices share rings of descriptors
    with the guest's driver.  Libraries under [lib] provide floating point,
    AES and SHA-256; [src/platform] is the host's side.

    * Conventions

    A C integer of width w is a [Z] in [0, 2^w) with its wrap-around written out
    ([uw w]); a signed one is the integer it stands for, [sw] being the cast.
    Arrays are lists read and written by [arr_get] and [arr_set].  A class is a
    record of its fields, a method is a function from the record to the record
    and its result; a failure is [None], a sum or an enumeration with the code's
    constructors.  Calls to other objects are an interface (a record of virtual
    methods, or a class) or, when the callee answers nothing, what it was last
    told (a line's level) or the list of what it was sent (messages, events).
    A component's history is [foldl step init ops] over an inductive type of its
    operations, so that a theorem on every such state is about any sequence of
    calls.  What other threads do between two steps is an argument ([others] in
    RvState.v): a theorem for every value of it holds in every interleaving.

    * Files

    Shared:
    - Prelude.v: words, arrays, loops, record updates, tactics, hints.
    - Bits.v, Cutils.v, Bytes.v: [src/core/bits.h], [cutils.h], [cutils.cpp].

    Libraries:
    - Sha256.v, Sha256Ok.v: [lib/crypto/sha256.cpp] and FIPS 180-4.  A message
      fed in any pieces has the standard's digest.
    - Hmac.v: the key derivation of [src/platform/curl/fs_wget.cpp], and
      RFC 2104 and 8018.
    - AesTables.v, Aes.v, AesOk.v, AesKey.v: [lib/crypto/aes.cpp].  The tables,
      key schedules and rounds compute FIPS 197's cipher.
    - AesFile.v, AesFileOk.v: CBC and the decryption of downloaded files, which
      undoes the standards' encryption for any pieces of a transfer.
    - Softfp.v: [lib/softfp].  SoftfpSpec.v states IEEE 754 rounding over exact
      values; SoftfpRound.v, SoftfpArith.v, SoftfpSqrt.v, SoftfpFma.v,
      SoftfpCmp.v, SoftfpConv.v and SoftfpIeee.v prove each operation rounds the
      exact result once, with its flags, in every format and rounding mode.

    Core:
    - IoMem.v: [src/core/iomem.cpp], the memory map.  The fitting of accesses is
      legal for the device and invisible over plain storage.
    - Resource.v: [src/core/resource.cpp], the allocator of addresses and lines.
    - Fdt.v, FdtOk.v: [src/core/fdt.cpp].  A reader written from the Devicetree
      Specification recovers what the builder wrote.

    RISC-V harts ([src/cpu/riscv]):
    - RvAlu.v: arithmetic helpers.  RvState.v: the hart and what it shares.
      RvMem.v: translation, TLBs, accesses.  RvCsr.v: CSRs, inbox, IMSIC files.
      RvTrap.v: traps, returns, interrupts.  RvFp.v, RvInsn.v: instructions.
      RvInterp.v: the loop.
    - RvWalk.v: the page walk is the architecture's, other harts writing
      meanwhile.  RvTlb.v: what changes translation flushes.  RvAmo.v: AMOs are
      one step of memory, SC stores just when its reservation holds.  RvWf.v:
      the hart's invariant, kept by every turn of the interpreter, which ends.
      RvRvc.v: compressed instructions are their expansions.
    - RvSbi.v: the SBI as an instance of the [Platform] the hart is modelled
      over.  RvFence.v: remote fences of several harts as a transition system;
      no fence returns early and none waits for ever.

    Interrupts and timers ([src/device/intc], [src/device/timer]):
    - Plic.v, I8259.v, IoApic.v, Lapic.v with LapicOk.v, Clint.v: each
      controller, what an acknowledge or claim returns by priority, and that the
      lines or messages always agree with the registers.
    - Aplic.v: the APLIC with both domains and delivery modes.  AplicOk.v: the
      interrupt sources of the architecture as a reference, and each operation
      on one source.  AplicSim.v: the controller simulates the reference, lines,
      claims and messages included.

    PCI ([src/bus/pci/pci.cpp]):
    - Pci.v: configuration space, base address registers, bridges, capabilities,
      MSI-X.  PciOk.v, PciBus.v: every region is decoded where its registers and
      the bridges' windows say.  PciIntx.v: the INTx lines of a hierarchy are
      the swizzled or of the asserted pins.  PciMsi.v: MSI, and MSI-X loses no
      interrupt.

    Virtio ([src/bus/virtio/virtio.cpp]):
    - Virtio.v: rings, descriptor walks, negotiation, both register layouts, a
      device type as the record of its virtual methods.  VirtioWalk.v: a walk
      ends on any guest memory and accepts exactly the chains of the
      specification.  VirtioCopy.v: copies move exactly the buffers' bytes.
      VirtioOk.v: the registers stay well formed.  VirtioRam.v: the transports'
      guest memory over IoMem.v, as instances of the interface the copies are
      proved against.

    * Bounds and fuel

    A [for] loop with a known count is [for_each]; other loops are [while_fuel],
    which takes its fuel in binary and gives nothing when it runs out.  Each has
    a lemma that the fuel is enough: the Newton iteration of [sqrt_sf] by its
    decreasing iterates, the descriptor walk by its own step counter, the
    copies by the bytes left, the inner loop of the interpreter by the cycle
    budget of a turn, a remote fence by the turns the harts are given.  Bounds
    in the statements are the code's: widths of registers and table sizes.

    * Departures

    Host memory is a function of 64-bit addresses and the host is little endian.
    Memory fences are left out: an interleaving is a sequence of atomic steps.
    Allocation does not fail.  Output for a person (messages, dumps) is left
    out.  Both sides of a build option that changes the code taken
    ([LTC_SMALL_CODE], [HAVE_INT128]) are modelled.

    Where the code departs from the standard it implements, a theorem has the
    hypothesis that excludes the departure and the departure itself is shown on
    a concrete input (among others [mulh_halves_off], [permits_but_sum_fetch],
    [mprv_trap_keeps_tlb], [interrupt_order_off], [msix_stranded]).

    * Not modelled

    - The x86 processor ([src/cpu/x86]), the other buses, the devices behind
      them and the machines' construction: they are further state machines of
      the same kinds, not modelled yet; nothing here assumes anything of them
      but what an interface states.
    - Of the modelled parts: writing FDT and ACPI descriptions of a device, the
      attaching of devices to buses, debug output.
    - [src/platform] and [src/main] call the host's system and libraries
      (threads, windows, sound, sockets, libcurl, hypervisors); only the key
      derivation and decryption of [src/platform/curl] are computation.
    - [lib/slirp], an imported TCP/IP stack, runs on the host's sockets. *)

From stdpp Require Import base numbers list gmap.
From Stdlib Require Import Btauto.
Local Open Scope Z_scope.

(** * Record update

    The C++ code mutates one field of a struct at a time.  [s <| f := v |>]
    is that assignment as a function; the instances are computed from the
    [Eta] expansion each record declares. *)

Class Eta (R : Type) := eta : R -> R.
Class Setter {R T : Type} (proj : R -> T) := set_with : (T -> T) -> R -> R.
#[export] Hint Mode Setter - - ! : typeclass_instances.
Arguments set_with {R T} proj {_} _ _.

Ltac solve_setter :=
  match goal with
  | |- @Setter ?R ?T ?proj =>
    refine (fun (f : T -> T) (r : R) =>
      ltac:(
        let e := eval hnf in (@eta R _ r) in
        let e' := eval pattern (proj r) in e in
        lazymatch e' with
        | ?g _ => let b := eval cbv beta in (g (f (proj r))) in exact b
        end))
  end.
#[export] Hint Extern 1 (Setter _) => solve_setter : typeclass_instances.

Declare Scope emu_scope.
Delimit Scope emu_scope with emu.
Notation "s <| p := v |>" := (set_with p (fun _ => v) s)
  (at level 1, left associativity, p at level 9, v at level 200) : emu_scope.
Open Scope emu_scope.

(** * Machine integers

    A w-bit unsigned value is a [Z] in [0, 2^w); [uw] is the conversion to
    such a type, [sw] the value its bits have as a two's complement
    number. *)

Definition uw (w x : Z) : Z := x mod 2 ^ w.
Definition sw (w x : Z) : Z :=
  if uw w x <? 2 ^ (w - 1) then uw w x else uw w x - 2 ^ w.
Definition inw (w x : Z) : Prop := 0 <= x < 2 ^ w.
Definition insw (w x : Z) : Prop := - 2 ^ (w - 1) <= x < 2 ^ (w - 1).

Definition u8 := uw 8.
Definition u16 := uw 16.
Definition u32 := uw 32.
Definition u64 := uw 64.

Definition Z_of_bool (b : bool) : Z := if b then 1 else 0.

(** [C] truth of an integer. *)
Definition nz (x : Z) : bool := negb (x =? 0).

#[global] Arguments Z.testbit : simpl never.
#[global] Arguments Z.land : simpl never.
#[global] Arguments Z.lor : simpl never.
#[global] Arguments Z.lxor : simpl never.
#[global] Arguments Z.ldiff : simpl never.
#[global] Arguments Z.shiftl : simpl never.
#[global] Arguments Z.shiftr : simpl never.
#[global] Arguments Z.pow : simpl never.
#[global] Arguments uw : simpl never.
#[global] Arguments sw : simpl never.

(** ** Bits of integers *)

Lemma pow2_pos n : 0 <= n -> 0 < 2 ^ n.
Proof. intros. apply Z.pow_pos_nonneg; lia. Qed.

Lemma testbit_b2z_0 (b : bool) i : 0 <= i ->
  Z.testbit (Z_of_bool b) i = b && (i =? 0).
Proof.
  intros Hi. destruct b; simpl; [|by rewrite Z.bits_0].
  destruct (Z.eqb_spec i 0) as [->|]; [done|].
  change 1 with (2 ^ 0). by rewrite Z.pow2_bits_false by lia.
Qed.

Lemma uw_testbit w x i : 0 <= w -> 
  Z.testbit (uw w x) i = (i <? w) && Z.testbit x i.
Proof. intros. by apply Z.testbit_mod_pow2. Qed.

Lemma inw_uw w x : 0 <= w -> inw w (uw w x).
Proof. intros. apply Z.mod_pos_bound, pow2_pos; lia. Qed.

Lemma uw_small w x : inw w x -> uw w x = x.
Proof. apply Z.mod_small. Qed.

Lemma inw_high w x i : inw w x -> w <= i -> Z.testbit x i = false.
Proof.
  intros Hx Hi. destruct (decide (0 <= w)).
  - rewrite <- (uw_small w x) by done. rewrite uw_testbit by lia.
    by destruct (Z.ltb_spec i w); [lia|].
  - unfold inw in Hx. rewrite Z.pow_neg_r in Hx by lia. lia.
Qed.

(** ** Signed values *)

Lemma pow2_half w : 0 < w -> 2 ^ w = 2 * 2 ^ (w - 1).
Proof. intros. rewrite <- Z.pow_succ_r by lia. f_equal. lia. Qed.

Lemma sw_range w x : 0 < w -> insw w (sw w x).
Proof.
  intros Hw. unfold insw. pose proof (inw_uw w x ltac:(lia)) as [? ?]. pose proof (pow2_half w Hw).
  unfold sw. destruct (Z.ltb_spec (uw w x) (2 ^ (w - 1))); lia.
Qed.

Lemma uw_sw w x : 0 < w -> uw w (sw w x) = uw w x.
Proof.
  intros Hw. pose proof (pow2_pos w ltac:(lia)). unfold sw. case_match.
  - unfold uw. by rewrite Z.mod_mod by lia.
  - unfold uw. replace (x mod 2 ^ w - 2 ^ w) with (x mod 2 ^ w + (-1) * 2 ^ w) by lia.
    rewrite Z_mod_plus_full, Z.mod_mod by lia. done.
Qed.

Lemma sw_uw w x : 0 <= w -> sw w (uw w x) = sw w x.
Proof.
  intros Hw. pose proof (pow2_pos w Hw). unfold sw.
  assert (uw w (uw w x) = uw w x) as -> by (apply uw_small, inw_uw; lia). done.
Qed.

Lemma uw_add_mul w x k : 0 <= w -> uw w (x + k * 2 ^ w) = uw w x.
Proof. intros. apply Z_mod_plus_full. Qed.

Lemma uw_sub_l w x y : uw w (uw w x - y) = uw w (x - y).
Proof. apply Zminus_mod_idemp_l. Qed.

Lemma uw_add_l w x y : uw w (uw w x + y) = uw w (x + y).
Proof. apply Zplus_mod_idemp_l. Qed.

Lemma sw_small w x : 0 < w -> insw w x -> sw w x = x.
Proof.
  unfold insw. intros Hw Hx. pose proof (pow2_half w Hw). unfold sw.
  destruct (decide (0 <= x)).
  - rewrite uw_small by (unfold inw; lia). destruct (Z.ltb_spec x (2 ^ (w - 1))); lia.
  - assert (uw w x = x + 2 ^ w) as ->.
    { rewrite <- (uw_add_mul w x 1) by lia. rewrite uw_small; unfold inw; lia. }
    destruct (Z.ltb_spec (x + 2 ^ w) (2 ^ (w - 1))); lia.
Qed.

(** The unsigned value of a signed one. *)
Lemma uw_signed w x : 0 < w -> insw w x -> uw w x = if x <? 0 then x + 2 ^ w else x.
Proof.
  unfold insw. intros Hw Hx. pose proof (pow2_half w Hw). destruct (Z.ltb_spec x 0).
  - rewrite <- (uw_add_mul w x 1) by lia. rewrite uw_small; unfold inw; lia.
  - apply uw_small. unfold inw. lia.
Qed.

Lemma nz_lor a b : nz (Z.lor a b) = nz a || nz b.
Proof.
  unfold nz. rewrite <- negb_andb. f_equal. apply Bool.eq_iff_eq_true.
  rewrite andb_true_iff, !Z.eqb_eq. apply Z.lor_eq_0_iff.
Qed.

(** Being a w-bit value, by bits. *)
Lemma inw_bits w x : 0 <= w -> 
  (0 <= x /\ forall i, w <= i -> Z.testbit x i = false) -> inw w x.
Proof.
  intros Hw [Hx Hb]. split; [done|].
  rewrite <- (uw_small w x); [by apply inw_uw|]. 
  enough (x mod 2 ^ w = x) as <- by (apply Z.mod_pos_bound, pow2_pos; lia).
  apply Z.bits_inj'. intros i Hi. rewrite Z.testbit_mod_pow2 by lia.
  destruct (Z.ltb_spec i w); [done|]. by rewrite Hb.
Qed.

Lemma inw_mono w w' x : w <= w' -> inw w x -> inw w' x.
Proof.
  unfold inw. intros Hw [Hx Hlt]. split; [done|].
  destruct (decide (0 <= w)).
  - pose proof (Z.pow_le_mono_r 2 w w'). lia.
  - rewrite Z.pow_neg_r in Hlt by lia. lia.
Qed.

Lemma inw_nonneg w x : inw w x -> 0 <= x.
Proof. unfold inw. lia. Qed.

Lemma inw_0 w : 0 <= w -> inw w 0.
Proof. intros. split; [lia|]. by apply pow2_pos. Qed.

Lemma inw_land_l w a b : 0 <= w -> inw w a -> inw w (Z.land a b).
Proof.
  intros Hw Ha. apply inw_bits; [done|split].
  - apply Z.land_nonneg. left. by eapply inw_nonneg.
  - intros i Hi. rewrite Z.land_spec, (inw_high w a) by done. done.
Qed.

Lemma inw_land_r w a b : 0 <= w -> inw w b -> inw w (Z.land a b).
Proof. intros. rewrite Z.land_comm. by apply inw_land_l. Qed.

Lemma inw_ldiff w a b : 0 <= w -> inw w a -> inw w (Z.ldiff a b).
Proof.
  intros Hw Ha. apply inw_bits; [done|split].
  - apply Z.ldiff_nonneg. left. by eapply inw_nonneg.
  - intros i Hi. rewrite Z.ldiff_spec, (inw_high w a) by done. done.
Qed.

Lemma inw_lor w a b : 0 <= w -> inw w a -> inw w b -> inw w (Z.lor a b).
Proof.
  intros Hw Ha Hb. apply inw_bits; [done|split].
  - apply Z.lor_nonneg. split; by eapply inw_nonneg.
  - intros i Hi. by rewrite Z.lor_spec, (inw_high w a), (inw_high w b).
Qed.

Lemma inw_lxor w a b : 0 <= w -> inw w a -> inw w b -> inw w (Z.lxor a b).
Proof.
  intros Hw Ha Hb. apply inw_bits; [done|split].
  - apply Z.lxor_nonneg. split; intros; by eapply inw_nonneg.
  - intros i Hi. by rewrite Z.lxor_spec, (inw_high w a), (inw_high w b).
Qed.

Lemma inw_shiftr w a n : 0 <= w -> 0 <= n -> inw w a -> inw w (Z.shiftr a n).
Proof.
  intros Hw Hn Ha. apply inw_bits; [done|split].
  - apply Z.shiftr_nonneg. by eapply inw_nonneg.
  - intros i Hi. rewrite Z.shiftr_spec by lia. 
    apply (inw_high w); [done|lia].
Qed.

Lemma inw_bool w b : 0 < w -> inw w (Z_of_bool b).
Proof.
  intros. apply (inw_mono 1); [lia|]. destruct b; unfold inw; simpl; lia.
Qed.

Create HintDb inw discriminated.
#[export] Hint Constants Opaque : inw.
#[export] Hint Resolve inw_uw inw_0 inw_land_l inw_ldiff inw_lor inw_lxor
  inw_shiftr inw_bool : inw.
#[export] Hint Extern 1 (inw (Zpos _) (Zpos _)) =>
  (split; vm_compute; congruence) : inw.
#[export] Hint Extern 1 (_ <= _) => lia : inw.
#[export] Hint Extern 1 (_ < _) => lia : inw.

(** Equality of integers bit by bit: rewrite [Z.testbit] through the
    operators, decide the positions' comparisons, and finish as booleans. *)
Create Rewrite HintDb bits.
#[export] Hint Rewrite Z.land_spec Z.lor_spec Z.lxor_spec Z.ldiff_spec
  Z.bits_0 : bits.
#[export] Hint Rewrite Z.shiftr_spec Z.shiftl_spec Z.lnot_spec uw_testbit
  testbit_b2z_0 Z.testbit_ones_nonneg using lia : bits.

Ltac case_cmp :=
  match goal with
  | |- context [?a <? ?b] => destruct (Z.ltb_spec a b)
  | |- context [?a <=? ?b] => destruct (Z.leb_spec a b)
  | |- context [?a =? ?b] => destruct (Z.eqb_spec a b)
  end.

(** [a <= x < b] for literals. *)
Ltac in_range := split; vm_compute; congruence.

Ltac bits_at i Hi :=
  apply Z.bits_inj'; intros i Hi.

Ltac bits_simpl :=
  autorewrite with bits;
  repeat (case_cmp; try lia; simpl; autorewrite with bits).

Lemma testbit_neg i x : i < 0 -> Z.testbit x i = false.
Proof. apply Z.testbit_neg_r. Qed.

Lemma testbit_pow2 n i : 0 <= n -> Z.testbit (2 ^ n) i = (i =? n).
Proof.
  intros Hn. destruct (Z.eqb_spec i n) as [->|].
  - by apply Z.pow2_bits_true.
  - apply Z.pow2_bits_false. lia.
Qed.

(** A nonzero non-negative integer has a bit set. *)
Lemma nonzero_bit w x : inw w x -> x <> 0 ->
  exists i, 0 <= i < w /\ Z.testbit x i = true.
Proof.
  intros Hx Hnz. exists (Z.log2 x). unfold inw in Hx. split.
  - split; [apply Z.log2_nonneg|]. apply Z.log2_lt_pow2; lia.
  - apply Z.bit_log2. lia.
Qed.

Lemma bit_nonzero x i : Z.testbit x i = true -> x <> 0.
Proof. intros H ->. by rewrite Z.bits_0 in H. Qed.

(** [(x << h) | y] for a [y] of [h] bits *)
Lemma lor_mul_pow2 h x y : 0 <= h -> inw h y -> Z.lor (x * 2 ^ h) y = x * 2 ^ h + y.
Proof.
  intros Hh Hy. rewrite <- Z.shiftl_mul_pow2 by done.
  assert (Z.land (Z.shiftl x h) y = 0).
  { bits_at i Hi. rewrite Z.land_spec, Z.shiftl_spec, Z.bits_0 by done.
    destruct (decide (i < h)).
    - by rewrite testbit_neg by lia.
    - rewrite (inw_high h y), andb_false_r by (done || lia). done. }
  by rewrite Z.add_nocarry_lxor, Z.lxor_lor.
Qed.

(** ** Lists used as C arrays *)

Section Arrays.
Context {A : Type} (d : A).

(** [a[i]], with the default the callers never reach *)
Definition arr_get (l : list A) (i : Z) : A := nth (Z.to_nat i) l d.
(** [a[i] = v] *)
Definition arr_set (l : list A) (i : Z) (v : A) : list A :=
  <[Z.to_nat i := v]> l.

Lemma length_arr_set l i v : length (arr_set l i v) = length l.
Proof. apply length_insert. Qed.

Lemma arr_get_set l i j v :
  0 <= i < Z.of_nat (length l) -> 0 <= j ->
  arr_get (arr_set l i v) j = if j =? i then v else arr_get l j.
Proof.
  intros Hi Hj. unfold arr_get, arr_set.
  rewrite !nth_lookup. destruct (Z.eqb_spec j i) as [->|Hne].
  - rewrite list_lookup_insert_eq by lia. done.
  - rewrite list_lookup_insert_ne by lia. done.
Qed.

Lemma arr_get_set_ne l i j v : 0 <= i -> 0 <= j -> j <> i ->
  arr_get (arr_set l i v) j = arr_get l j.
Proof.
  intros Hi Hj Hne. unfold arr_get, arr_set. rewrite !nth_lookup.
  rewrite list_lookup_insert_ne by lia. done.
Qed.

Lemma arr_set_ge l i v : Z.of_nat (length l) <= i -> arr_set l i v = l.
Proof. intros. apply list_insert_ge. lia. Qed.

Lemma Forall_arr_get (P : A -> Prop) l i :
  Forall P l -> P d -> P (arr_get l i).
Proof.
  intros Hl Hd. unfold arr_get. rewrite nth_lookup.
  destruct (l !! Z.to_nat i) as [x|] eqn:E; simpl; [|done].
  by eapply Forall_lookup_1.
Qed.

Lemma Forall_arr_get_lt (P : A -> Prop) l i :
  Forall P l -> 0 <= i < Z.of_nat (length l) -> P (arr_get l i).
Proof. intros Hl Hi. rewrite Forall_nth in Hl. apply Hl. lia. Qed.

Lemma Forall_arr_set (P : A -> Prop) l i v :
  Forall P l -> P v -> Forall P (arr_set l i v).
Proof. apply Forall_insert. Qed.
End Arrays.

(** * Loops *)

(** [while], for at most [n] turns: [f] makes a turn, or ends the loop with a
    result.  The fuel is binary, so that a bound like 2^64 costs nothing. *)
Fixpoint while_fuel {S R : Type} (n : positive) (f : S -> S + R) (s : S) : S + R :=
  match n with
  | xH => f s
  | xO n =>
    match while_fuel n f s with inl s => while_fuel n f s | inr r => inr r end
  | xI n =>
    match f s with
    | inl s =>
      match while_fuel n f s with inl s => while_fuel n f s | inr r => inr r end
    | inr r => inr r
    end
  end.

Lemma while_fuel_inv {S R : Type} (P : S -> Prop) (Q : R -> Prop) f :
  (forall s, P s -> match f s with inl s' => P s' | inr r => Q r end) ->
  forall n s, P s -> match while_fuel n f s with inl s' => P s' | inr r => Q r end.
Proof.
  intros Hf n. induction n as [n IH|n IH|]; intros s Hs; cbn [while_fuel]; [| |by apply Hf].
  - pose proof (Hf s Hs) as H1. destruct (f s) as [s1|]; [|done].
    pose proof (IH s1 H1) as H2. destruct (while_fuel n f s1); [by apply IH|done].
  - pose proof (IH s Hs) as H2. destruct (while_fuel n f s); [by apply IH|done].
Qed.

(** A loop whose measure goes down ends within it, in a state its invariant
    allows. *)
Lemma while_fuel_ind {S R : Type} (P : S -> Prop) (Q : R -> Prop) (m : S -> Z) f :
  (forall s, P s -> match f s with inl s' => P s' /\ 0 <= m s' < m s | inr r => Q r end) ->
  forall n s, P s ->
  match while_fuel n f s with inl s' => P s' /\ 0 <= m s' <= m s - Zpos n | inr r => Q r end.
Proof.
  intros Hf n. induction n as [n IH|n IH|]; intros s Hs; cbn [while_fuel].
  - specialize (Hf s Hs). destruct (f s) as [s1|]; [|done]. destruct Hf as [H1 M1].
    pose proof (IH s1 H1) as I1. destruct (while_fuel n f s1) as [s2|]; [|done]. destruct I1 as [H2 M2].
    pose proof (IH s2 H2) as I2. destruct (while_fuel n f s2) as [s3|]; [|done].
    destruct I2. split; [done|lia].
  - pose proof (IH s Hs) as I1. destruct (while_fuel n f s) as [s2|]; [|done]. destruct I1 as [H2 M2].
    pose proof (IH s2 H2) as I2. destruct (while_fuel n f s2) as [s3|]; [|done].
    destruct I2. split; [done|lia].
  - specialize (Hf s Hs). destruct (f s); [|done]. destruct Hf. split; [done|lia].
Qed.

Lemma while_fuel_ends {S R : Type} (P : S -> Prop) (Q : R -> Prop) (m : S -> Z) f n s :
  (forall s, P s -> match f s with inl s' => P s' /\ 0 <= m s' < m s | inr r => Q r end) ->
  P s -> m s < Zpos n -> exists r, while_fuel n f s = inr r /\ Q r.
Proof.
  intros Hf Hs Hn. pose proof (while_fuel_ind P Q m f Hf n s Hs) as Hw.
  destruct (while_fuel n f s) as [s'|r]; [lia|eauto].
Qed.

(** [for (j = i; j < i + n; j++) if (p(j)) return j;] *)
Fixpoint for_first (n : nat) (i : Z) (p : Z -> bool) : option Z :=
  match n with
  | O => None
  | S n => if p i then Some i else for_first n (i + 1) p
  end.

Lemma for_first_Some n i p j :
  for_first n i p = Some j ->
  i <= j < i + Z.of_nat n /\ p j = true /\ forall k, i <= k < j -> p k = false.
Proof.
  revert i. induction n as [|n IH]; intros i; simpl; [done|].
  destruct (p i) eqn:E.
  - intros [= <-]. split; [lia|]. split; [done|]. intros; lia.
  - intros (? & ? & Hlt)%IH. split; [lia|]. split; [done|].
    intros k Hk. destruct (decide (k = i)) as [->|]; [done|]. apply Hlt. lia.
Qed.

Lemma for_first_None n i p :
  for_first n i p = None -> forall k, i <= k < i + Z.of_nat n -> p k = false.
Proof.
  revert i. induction n as [|n IH]; intros i; simpl; [lia|].
  destruct (p i) eqn:E; [done|]. intros H k Hk.
  destruct (decide (k = i)) as [->|]; [done|]. apply (IH _ H). lia.
Qed.

Lemma for_first_min n i p j :
  i <= j < i + Z.of_nat n -> p j = true -> (forall k, i <= k < j -> p k = false) ->
  for_first n i p = Some j.
Proof.
  intros Hj Hp Hlt. destruct (for_first n i p) as [k|] eqn:E.
  - apply for_first_Some in E as (? & Hk & Hmin). f_equal.
    destruct (Z.lt_trichotomy j k) as [?|[?|?]]; [|done|].
    + rewrite (Hmin j) in Hp by lia. done.
    + rewrite (Hlt k) in Hk by lia. done.
  - rewrite (for_first_None _ _ _ E j) in Hp by lia. done.
Qed.

(** [for (j = i; j < i + n; j++) s = f(j, s);] *)
Fixpoint for_each {S : Type} (n : nat) (i : Z) (f : Z -> S -> S) (s : S) : S :=
  match n with
  | O => s
  | S n => for_each n (i + 1) f (f i s)
  end.

(** Loop rule: an invariant indexed by the counter. *)
Lemma for_each_ind {S : Type} (P : Z -> S -> Prop) n i f (s : S) :
  (forall j t, i <= j < i + Z.of_nat n -> P j t -> P (j + 1) (f j t)) ->
  P i s -> P (i + Z.of_nat n) (for_each n i f s).
Proof.
  revert i s. induction n as [|n IH]; intros i s Hstep Hi.
  - by rewrite Z.add_0_r.
  - simpl. replace (i + Z.of_nat (Datatypes.S n)) with ((i + 1) + Z.of_nat n) by lia.
    apply IH; [intros; apply Hstep; [lia|done]|]. apply Hstep; [lia|done].
Qed.

(** ** The lowest bit set *)

Definition lowest_bit (m c : Z) : Prop :=
  0 <= c /\ Z.testbit m c = true /\ forall k, 0 <= k < c -> Z.testbit m k = false.

(** [m & (m - 1)] clears the lowest bit. *)
Lemma clear_lowest m c : 0 <= m -> lowest_bit m c ->
  Z.land m (m - 1) = Z.ldiff m (2 ^ c).
Proof.
  intros Hm (Hc & Hbit & Hlow).
  assert (Hsub : m - 2 ^ c = Z.ldiff m (2 ^ c)).
  { apply Z.sub_nocarry_ldiff. bits_at i Hi.
    rewrite Z.ldiff_spec, testbit_pow2, Z.bits_0 by lia.
    destruct (Z.eqb_spec i c) as [->|]; [by rewrite Hbit|done]. }
  assert (Hadd : m - 1 = Z.lxor (Z.ldiff m (2 ^ c)) (Z.ones c)).
  { rewrite <- Z.add_nocarry_lxor; [rewrite <- Hsub, Z.ones_equiv; lia|].
    bits_at i Hi. autorewrite with bits. rewrite testbit_pow2 by lia.
    destruct (Z.ltb_spec i c); [rewrite (Hlow i) by lia; done|].
    by rewrite andb_false_r. }
  rewrite Hadd. bits_at i Hi. autorewrite with bits. rewrite testbit_pow2 by lia.
  destruct (Z.ltb_spec i c); [rewrite (Hlow i) by lia; done|].
  rewrite xorb_false_r, andb_assoc, andb_diag. done.
Qed.
