(* ===== verification/Bits.v ===== *)
(** Bit fields of integers: [src/core/bits.h].

    Every template is a function of the width [w] of the unsigned type it is
    instantiated at (the promoted type of its operand: 32 for a [uint8_t],
    [uint16_t], [int] or [uint32_t], 64 for a [uint64_t]).  The second half
    gives each operation's bits, which is what the components' proofs use. *)

From stdpp Require Import base numbers list.
From S2P Require Import Prelude.
Local Open Scope Z_scope.

(** The low [len] bits, up to the whole width. *)
Definition bit_mask (w len : Z) : Z :=
  if w <=? len then uw w (-1) else uw w (uw w (Z.shiftl 1 len) - 1).

Definition bit_at (w pos : Z) : Z := uw w (Z.shiftl 1 pos).

(** [len] bits at [pos]. *)
Definition field_mask (w pos len : Z) : Z :=
  uw w (Z.shiftl (bit_mask w len) pos).

Definition get_bits (w val pos len : Z) : Z :=
  Z.land (Z.shiftr (uw w val) pos) (bit_mask w len).

Definition get_bit (w val pos : Z) : bool :=
  nz (Z.land (Z.shiftr (uw w val) pos) 1).

(** [val] with the [len] bits at [pos] taken from the low bits of [field]. *)
Definition set_bits (w val pos len field : Z) : Z :=
  let mask := field_mask w pos len in
  Z.lor (Z.land (uw w val) (uw w (Z.lnot mask)))
        (Z.land (uw w (Z.shiftl (uw w field) pos)) mask).

Definition set_bit (w val pos : Z) (on : bool) : Z :=
  set_bits w val pos 1 (Z_of_bool on).

(** [high] placed above the low [low_len] bits of [low]. *)
Definition concat_bits (w high low low_len : Z) : Z :=
  Z.lor (uw w (Z.shiftl (uw w high) low_len)) (get_bits w low 0 low_len).

(** The low [len] bits of [val] as a signed value of the value's width. *)
Definition sign_extend (w val len : Z) : Z :=
  let shift := w - len in
  Z.shiftr (sw w (uw w (Z.shiftl (uw w val) shift))) shift.

(** * What the operations do, bit by bit *)

Lemma bit_mask_ones w len : 0 <= w -> 0 <= len ->
  bit_mask w len = Z.ones (Z.min w len).
Proof.
  intros Hw Hlen. unfold bit_mask. destruct (Z.leb_spec w len).
  - rewrite Z.min_l by lia. bits_at i Hi. rewrite uw_testbit by lia.
    rewrite Z.bits_m1 by lia. rewrite Z.testbit_ones_nonneg by lia.
    apply andb_true_r.
  - rewrite Z.min_r by lia. rewrite Z.ones_equiv, Z.shiftl_1_l.
    assert (2 ^ len < 2 ^ w) by (apply Z.pow_lt_mono_r; lia).
    pose proof (pow2_pos len Hlen).
    rewrite (uw_small w (2 ^ len)) by (unfold inw; lia).
    apply uw_small. unfold inw. lia.
Qed.

Lemma bit_mask_testbit w len i : 0 <= w -> 0 <= len -> 0 <= i ->
  Z.testbit (bit_mask w len) i = (i <? w) && (i <? len).
Proof.
  intros. rewrite bit_mask_ones by done.
  rewrite Z.testbit_ones_nonneg by lia. 
  repeat case_cmp; simpl; lia.
Qed.

Lemma bit_at_testbit w pos i : 0 <= w -> 0 <= pos -> 0 <= i ->
  Z.testbit (bit_at w pos) i = (i <? w) && (i =? pos).
Proof.
  intros. unfold bit_at. rewrite uw_testbit, Z.shiftl_1_l by lia.
  by rewrite testbit_pow2 by lia.
Qed.

Lemma field_mask_testbit w pos len i : 0 <= w -> 0 <= pos -> 0 <= len -> 0 <= i ->
  Z.testbit (field_mask w pos len) i = (i <? w) && (pos <=? i) && (i <? pos + len).
Proof.
  intros. unfold field_mask. rewrite uw_testbit, Z.shiftl_spec by lia.
  destruct (Z.leb_spec pos i).
  - rewrite bit_mask_testbit by lia. repeat case_cmp; simpl; lia.
  - rewrite testbit_neg by lia. by rewrite !andb_false_r.
Qed.

Lemma get_bits_testbit w v pos len i : 0 <= w -> 0 <= pos -> 0 <= len -> 0 <= i ->
  Z.testbit (get_bits w v pos len) i =
  (i <? len) && (pos + i <? w) && Z.testbit v (pos + i).
Proof.
  intros. unfold get_bits.
  rewrite Z.land_spec, Z.shiftr_spec, uw_testbit, bit_mask_testbit by lia.
  rewrite (Z.add_comm i pos).
  repeat case_cmp; simpl; rewrite ?andb_true_r, ?andb_false_r; try done; lia.
Qed.

Lemma get_bit_testbit w v pos : 0 <= pos < w -> get_bit w v pos = Z.testbit v pos.
Proof.
  intros H. unfold get_bit, nz. change 1 with (Z.ones 1).
  rewrite Z.land_ones, Z.shiftr_div_pow2 by lia. change (2 ^ 1) with 2.
  rewrite <- Z.testbit_spec' by lia. rewrite uw_testbit by lia.
  destruct (Z.ltb_spec pos w); [|lia]. by destruct (Z.testbit v pos).
Qed.

Lemma set_bits_testbit w v pos len f i :
  0 <= w -> 0 <= pos -> 0 <= len -> 0 <= i ->
  Z.testbit (set_bits w v pos len f) i =
  (i <? w) && (if (pos <=? i) && (i <? pos + len) then Z.testbit f (i - pos)
               else Z.testbit v i).
Proof.
  intros. unfold set_bits.
  rewrite Z.lor_spec, !Z.land_spec, !uw_testbit, Z.lnot_spec, Z.shiftl_spec by lia.
  rewrite !field_mask_testbit by lia.
  destruct (Z.ltb_spec i w); simpl; [|done].
  destruct (Z.leb_spec pos i); simpl.
  - rewrite uw_testbit by lia. destruct (Z.ltb_spec (i - pos) w); [|lia].
    destruct (Z.ltb_spec i (pos + len)); simpl;
      by rewrite ?andb_true_r, ?andb_false_r, ?orb_false_r.
  - by rewrite !andb_true_r, andb_false_r, orb_false_r.
Qed.

Lemma set_bit_testbit w v pos on i : 0 <= w -> 0 <= pos -> 0 <= i ->
  Z.testbit (set_bit w v pos on) i =
  (i <? w) && (if i =? pos then on else Z.testbit v i).
Proof.
  intros. unfold set_bit. rewrite set_bits_testbit by lia.
  repeat (case_cmp; simpl; try lia); try done.
  subst. rewrite Z.sub_diag. by destruct on.
Qed.

Lemma get_bits_nonneg w v pos len : 0 <= get_bits w v pos len \/ w < 0.
Proof.
  destruct (decide (0 <= w)); [left|lia]. unfold get_bits.
  apply Z.land_nonneg. left. apply Z.shiftr_nonneg. 
  by pose proof (inw_uw w v) as [? _].
Qed.

(** A field of [len] bits is a [len]-bit value. *)
Lemma inw_get_bits w v pos len w' : 0 <= w -> 0 <= pos -> 0 <= len <= w' ->
  inw w' (get_bits w v pos len).
Proof.
  intros. apply (inw_mono len); [lia|]. apply inw_bits; [lia|split].
  - destruct (get_bits_nonneg w v pos len); lia.
  - intros i Hi. rewrite get_bits_testbit by lia.
    by destruct (Z.ltb_spec i len); [lia|].
Qed.

Lemma inw_bit_mask w len : 0 <= w -> inw w (bit_mask w len).
Proof. intros. unfold bit_mask. case_match; by apply inw_uw. Qed.

Lemma inw_bit_at w pos : 0 <= w -> inw w (bit_at w pos).
Proof. intros. by apply inw_uw. Qed.

Lemma inw_field_mask w pos len : 0 <= w -> inw w (field_mask w pos len).
Proof. intros. by apply inw_uw. Qed.

Lemma inw_set_bits w v pos len f : 0 <= w -> inw w (set_bits w v pos len f).
Proof.
  intros. apply inw_lor; [done| |].
  - apply inw_land_l; [done|]. by apply inw_uw.
  - apply inw_land_l; [done|]. by apply inw_uw.
Qed.

Lemma inw_set_bit w v pos on : 0 <= w -> inw w (set_bit w v pos on).
Proof. apply inw_set_bits. Qed.

#[export] Hint Resolve inw_get_bits inw_bit_mask inw_bit_at inw_field_mask
  inw_set_bits inw_set_bit : inw.
#[export] Hint Rewrite bit_mask_testbit bit_at_testbit field_mask_testbit
  get_bits_testbit set_bits_testbit set_bit_testbit using lia : bits.

(** A field read back is the one written. *)
Lemma get_set_bits w v pos len f :
  0 <= pos -> 0 <= len -> pos + len <= w -> 
  get_bits w (set_bits w v pos len f) pos len = uw len f.
Proof.
  intros. bits_at i Hi. autorewrite with bits.
  replace (pos + i - pos) with i by lia.
  repeat (case_cmp; simpl; try lia); done.
Qed.

Lemma get_set_bits_other w v pos len f pos' len' :
  0 <= pos -> 0 <= len -> 0 <= pos' -> 0 <= len' -> 0 <= w ->
  pos' + len' <= pos \/ pos + len <= pos' ->
  get_bits w (set_bits w v pos len f) pos' len' = get_bits w v pos' len'.
Proof.
  intros. bits_at i Hi. autorewrite with bits.
  repeat (case_cmp; simpl; try lia); done.
Qed.

Lemma get_set_bit w v pos on : 0 <= pos < w -> get_bit w (set_bit w v pos on) pos = on.
Proof.
  intros. rewrite get_bit_testbit, set_bit_testbit by lia.
  repeat (case_cmp; try lia). done.
Qed.

Lemma get_set_bit_other w v pos on pos' : 0 <= pos < w -> 0 <= pos' < w -> pos' <> pos ->
  get_bit w (set_bit w v pos on) pos' = get_bit w v pos'.
Proof.
  intros. rewrite !get_bit_testbit, set_bit_testbit by lia.
  repeat (case_cmp; try lia). done.
Qed.

Lemma get_bits_mod w v pos len : 0 <= pos -> 0 <= len -> pos + len <= w ->
  get_bits w v pos len = v / 2 ^ pos mod 2 ^ len.
Proof.
  intros. rewrite <- Z.shiftr_div_pow2 by lia. bits_at i Hi.
  autorewrite with bits. rewrite Z.testbit_mod_pow2, Z.shiftr_spec by lia.
  rewrite (Z.add_comm i pos). repeat (case_cmp; simpl; try lia); done.
Qed.

Lemma get_bits_0 w v len : 0 <= len <= w -> get_bits w v 0 len = uw len v.
Proof. intros. rewrite get_bits_mod by lia. by rewrite Z.div_1_r. Qed.

(** The value [sign_extend] gives. *)
Lemma sign_extend_sw w v len : 0 < len <= w -> sign_extend w v len = sw len v.
Proof.
  intros. unfold sign_extend, sw.
  assert (Hp : 2 ^ w = 2 ^ len * 2 ^ (w - len)).
  { rewrite <- Z.pow_add_r by lia. f_equal. lia. }
  assert (Hh : 2 ^ (w - 1) = 2 ^ (len - 1) * 2 ^ (w - len)).
  { rewrite <- Z.pow_add_r by lia. f_equal. lia. }
  pose proof (pow2_pos (w - len)). pose proof (pow2_pos len).
  assert (Hu : uw w (uw w (Z.shiftl (uw w v) (w - len))) = uw len v * 2 ^ (w - len)).
  { bits_at i Hi. rewrite Z.mul_pow2_bits by lia. autorewrite with bits.
    destruct (decide (i < w - len)).
    - rewrite !(testbit_neg (i - (w - len))) by lia. by rewrite !andb_false_r.
    - autorewrite with bits. repeat (case_cmp; simpl; try lia); done. }
  rewrite Hu, Hh. 
  assert ((uw len v * 2 ^ (w - len) <? 2 ^ (len - 1) * 2 ^ (w - len)) =
          (uw len v <? 2 ^ (len - 1))) as ->.
  { destruct (Z.ltb_spec (uw len v) (2 ^ (len - 1))); 
      [apply Z.ltb_lt|apply Z.ltb_ge]; nia. }
  case_match.
  - rewrite Z.shiftr_div_pow2 by lia. by rewrite Z.div_mul by lia.
  - rewrite Hp, <- Z.mul_sub_distr_r, Z.shiftr_div_pow2 by lia.
    by rewrite Z.div_mul by lia.
Qed.

Lemma concat_bits_testbit w high low n i : 0 <= w -> 0 <= n <= w -> 0 <= i ->
  Z.testbit (concat_bits w high low n) i =
  (i <? w) && (if i <? n then Z.testbit low i else Z.testbit high (i - n)).
Proof.
  intros. unfold concat_bits. autorewrite with bits.
  rewrite Z.add_0_l.
  destruct (decide (i < n)).
  - rewrite !(testbit_neg (i - n)) by lia.
    repeat (case_cmp; simpl; try lia); done.
  - repeat (case_cmp; simpl; try lia); by rewrite ?orb_false_r.
Qed.
#[export] Hint Rewrite concat_bits_testbit using lia : bits.

Lemma get_bits_agree w a b pos len : 0 <= w -> 0 <= pos -> 0 <= len ->
  (forall i, pos <= i < pos + len -> i < w -> Z.testbit a i = Z.testbit b i) ->
  get_bits w a pos len = get_bits w b pos len.
Proof.
  intros Hw Hp Hl Hab. apply Z.bits_inj'. intros i Hi.
  rewrite !get_bits_testbit by lia. repeat (case_cmp; cbn [andb]; try done).
  apply Hab; lia.
Qed.

(** [val & bit_at(p)] as a condition. *)
Lemma nz_bit_at w x p : 0 <= p < w -> nz (Z.land x (bit_at w p)) = Z.testbit x p.
Proof.
  intros Hp. unfold nz. destruct (Z.testbit x p) eqn:E.
  - apply negb_true_iff, Z.eqb_neq, (bit_nonzero _ p).
    rewrite Z.land_spec, bit_at_testbit, E by lia. repeat case_cmp; done || lia.
  - apply negb_false_iff, Z.eqb_eq. bits_at i Hi.
    rewrite Z.land_spec, bit_at_testbit, Z.testbit_0_l by lia.
    repeat case_cmp; cbn [andb]; rewrite ?andb_false_r; try done. subst. by rewrite E.
Qed.
