(* ===== verification/Cutils.v ===== *)
(** Helpers of [src/core/cutils.h]: the count of trailing zeros and the
    little endian accessors. *)

From stdpp Require Import base numbers list.
From S2P Require Import Prelude.
Local Open Scope Z_scope.

Definition ctz32 (a : Z) : Z :=
  if a =? 0 then 32
  else match for_first 32 0 (fun i => nz (Z.land (Z.shiftr a i) 1)) with
       | Some i => i
       | None => 32
       end.

Definition get_le16 (b : list Z) : Z :=
  Z.lor (arr_get 0 b 0) (Z.shiftl (arr_get 0 b 1) 8).
Definition get_le32 (b : list Z) : Z :=
  Z.lor (Z.lor (Z.lor (arr_get 0 b 0) (Z.shiftl (arr_get 0 b 1) 8))
               (Z.shiftl (arr_get 0 b 2) 16))
        (u32 (Z.shiftl (arr_get 0 b 3) 24)).
Definition get_le64 (b : list Z) : Z :=
  Z.lor (get_le32 b) (Z.shiftl (get_le32 (drop 4 b)) 32).

Definition put_le16 (v : Z) : list Z := [u8 v; u8 (Z.shiftr v 8)].
Definition put_le32 (v : Z) : list Z :=
  [u8 v; u8 (Z.shiftr v 8); u8 (Z.shiftr v 16); u8 (Z.shiftr v 24)].
Definition put_le64 (v : Z) : list Z :=
  put_le32 (u32 v) ++ put_le32 (u32 (Z.shiftr v 32)).

Lemma shiftr_land_1 a i : 0 <= i -> nz (Z.land (Z.shiftr a i) 1) = Z.testbit a i.
Proof.
  intros. unfold nz. change 1 with (Z.ones 1).
  rewrite Z.land_ones, Z.shiftr_div_pow2 by lia. change (2 ^ 1) with 2.
  rewrite <- Z.testbit_spec' by lia. by destruct (Z.testbit a i).
Qed.

Lemma ctz32_lowest a : inw 32 a -> a <> 0 -> lowest_bit a (ctz32 a) /\ ctz32 a < 32.
Proof.
  intros Ha Hnz. unfold ctz32. destruct (Z.eqb_spec a 0); [done|].
  destruct (for_first _ _ _) as [c|] eqn:E.
  - apply for_first_Some in E as (? & Hc & Hmin). rewrite shiftr_land_1 in Hc by lia.
    repeat split; try lia; [done|]. intros k Hk.
    rewrite <- shiftr_land_1 by lia. apply Hmin. lia.
  - destruct (nonzero_bit 32 a) as (k & ? & Hk); [done..|].
    pose proof (for_first_None _ _ _ E k ltac:(lia)) as Hk'. simpl in Hk'.
    rewrite shiftr_land_1 in Hk' by lia. congruence.
Qed.

Lemma get_put_le32 v : inw 32 v -> get_le32 (put_le32 v) = v.
Proof.
  intros Hv. unfold get_le32, put_le32, arr_get, u8, u32. simpl.
  bits_at i Hi. destruct (decide (32 <= i)) as [Hhi|].
  - rewrite (inw_high 32 v) by done. autorewrite with bits.
    repeat (case_cmp; simpl; try lia); done.
  - destruct (decide (i < 8)); [|destruct (decide (i < 16));
      [|destruct (decide (i < 24))]];
    autorewrite with bits; repeat (case_cmp; simpl; try lia);
    rewrite ?(testbit_neg (i - _)) by lia;
    rewrite ?Z.shiftr_spec by lia; rewrite ?orb_false_r; try done; f_equal; lia.
Qed.

(** * The compiler's bit counting builtins, on values of [w] bits *)

Definition builtin_ctz (w : nat) (a : Z) : Z :=
  default (Z.of_nat w) (for_first w 0 (Z.testbit a)).
Definition builtin_clz (w a : Z) : Z := w - 1 - Z.log2 a.
Definition builtin_popcount (w : nat) (a : Z) : Z :=
  for_each w 0 (fun i n => n + Z_of_bool (Z.testbit a i)) 0.
(** [n] bytes in the opposite order *)
Definition builtin_bswap (n : nat) (a : Z) : Z :=
  for_each n 0 (fun i r => Z.lor (Z.shiftl r 8) (uw 8 (Z.shiftr a (8 * i)))) 0.

Lemma builtin_ctz_lowest w a : inw (Z.of_nat w) a -> a <> 0 ->
  lowest_bit a (builtin_ctz w a) /\ builtin_ctz w a < Z.of_nat w.
Proof.
  intros Ha Hnz. unfold builtin_ctz. destruct (for_first _ _ _) as [c|] eqn:E; simpl.
  - apply for_first_Some in E as (? & Hc & Hmin). repeat split; try lia; [done|].
    intros k Hk. apply Hmin. lia.
  - destruct (nonzero_bit (Z.of_nat w) a) as (k & ? & Hk); [done..|].
    by rewrite (for_first_None _ _ _ E k ltac:(lia)) in Hk.
Qed.

Lemma builtin_bswap_testbit n a i : 0 <= i ->
  Z.testbit (builtin_bswap n a) i =
  (i <? 8 * Z.of_nat n) && Z.testbit a (8 * (Z.of_nat n - 1 - i / 8) + i mod 8).
Proof.
  unfold builtin_bswap. revert i.
  pose (P j r := forall i, 0 <= i -> Z.testbit r i =
    (i <? 8 * j) && Z.testbit a (8 * (j - 1 - i / 8) + i mod 8)).
  enough (P (0 + Z.of_nat n) (for_each n 0 (fun i r =>
    Z.lor (Z.shiftl r 8) (uw 8 (Z.shiftr a (8 * i)))) 0)) as Hn by exact Hn.
  apply for_each_ind; unfold P.
  - intros j t Hj Hr i Hi.
    rewrite Z.lor_spec, Z.shiftl_spec, uw_testbit, Z.shiftr_spec by lia.
    destruct (decide (i < 8)).
    + rewrite testbit_neg, Z.div_small, Z.mod_small by lia.
      repeat (case_cmp; try lia). simpl. f_equal. lia.
    + rewrite Hr by lia. destruct (Z.ltb_spec i 8); [lia|]. simpl. rewrite orb_false_r.
      assert (i / 8 = (i - 8) / 8 + 1 /\ i mod 8 = (i - 8) mod 8) as [-> ->]
        by (Z.div_mod_to_equations; lia).
      repeat (case_cmp; try lia); simpl; try done. f_equal. lia.
  - intros i Hi. rewrite Z.bits_0. by repeat (case_cmp; try lia).
Qed.
