(* ===== verification/Bytes.v ===== *)
(** The rest of [src/core/cutils.h] and [cutils.cpp]: integer helpers, the big
    endian accessors, C strings and the growing buffer. *)

From stdpp Require Import base numbers list.
From S2P Require Import Prelude Cutils.
Local Open Scope Z_scope.

(** * Integers and big endian memory *)

(** The arguments and the result are [int]s. *)
Definition max_int (a b : Z) : Z := if b <? a then a else b.
Definition min_int (a b : Z) : Z := if a <? b then a else b.

Definition bswap_32 (v : Z) : Z := builtin_bswap 4 v.
Definition bswap_64 (v : Z) : Z := builtin_bswap 8 v.

Definition get_be16 (d : list Z) : Z := Z.lor (Z.shiftl (arr_get 0 d 0) 8) (arr_get 0 d 1).
Definition put_be16 (v : Z) : list Z := [u8 (Z.shiftr v 8); u8 v].
Definition get_be32 (d : list Z) : Z :=
  Z.lor (Z.lor (Z.lor (u32 (Z.shiftl (arr_get 0 d 0) 24)) (Z.shiftl (arr_get 0 d 1) 16))
               (Z.shiftl (arr_get 0 d 2) 8)) (arr_get 0 d 3).
Definition put_be32 (v : Z) : list Z :=
  [u8 (Z.shiftr v 24); u8 (Z.shiftr v 16); u8 (Z.shiftr v 8); u8 v].
Definition put_be64 (v : Z) : list Z := put_be32 (u32 (Z.shiftr v 32)) ++ put_be32 (u32 v).

(** On a little endian host. *)
Definition cpu_to_be32 (v : Z) : Z := bswap_32 v.
Definition cpu_to_be64 (v : Z) : Z := bswap_64 v.

Definition from_hex (c : Z) : Z :=
  if (48 <=? c) && (c <=? 57) then c - 48
  else if (65 <=? c) && (c <=? 70) then c - 65 + 10
  else if (97 <=? c) && (c <=? 102) then c - 97 + 10
  else -1.

(** * C strings: the bytes before the terminator *)

(** [*q = c] from [q] on, until the string or the room ends. *)
Fixpoint pstrcpy_loop (str buf : list Z) (q buf_size : Z) : list Z :=
  match str with
  | [] => arr_set buf q 0
  | c :: str =>
    if buf_size - 1 <=? q then arr_set buf q 0
    else pstrcpy_loop str (arr_set buf q c) (q + 1) buf_size
  end.

Definition pstrcpy (buf : list Z) (buf_size : Z) (str : list Z) : list Z :=
  if buf_size <=? 0 then buf else pstrcpy_loop str buf 0 buf_size.

(** The string a buffer holds. *)
Fixpoint c_string (buf : list Z) : list Z :=
  match buf with
  | [] => []
  | c :: buf => if c =? 0 then [] else c :: c_string buf
  end.
Definition strlen (buf : list Z) : Z := Z.of_nat (length (c_string buf)).

Definition pstrcat (buf : list Z) (buf_size : Z) (s : list Z) : list Z :=
  let len := strlen buf in
  if len <? buf_size
  then take (Z.to_nat len) buf ++ pstrcpy (drop (Z.to_nat len) buf) (buf_size - len) s
  else buf.

(** What follows [val] in [str]. *)
Fixpoint strstart (str val : list Z) : option (list Z) :=
  match val with
  | [] => Some str
  | q :: val =>
    match str with
    | [] => None
    | p :: str => if p =? q then strstart str val else None
    end
  end.

(** * The growing buffer *)

(** [dbuf_data] is what [s->buf] points to, [allocated_size] bytes. *)
#[projections(primitive)]
Record DynBuf := mkDynBuf { dbuf_data : list Z; dbuf_size : Z; allocated_size : Z }.

Section DynBuf.
(** What fresh memory holds. *)
Context (junk : Z).

Definition dbuf_init : DynBuf := mkDynBuf [] 0 0.

(** [realloc]: the old bytes that fit, then fresh ones *)
Definition realloc (data : list Z) (size : Z) : list Z :=
  let kept := take (Z.to_nat size) data in
  kept ++ replicate (Z.to_nat size - length kept)%nat junk.

(** [None]: bytes are written outside the allocation. *)
Definition memcpy (dst : list Z) (offset : Z) (data : list Z) : option (list Z) :=
  if offset + Z.of_nat (length data) <=? Z.of_nat (length dst)
  then Some (take (Z.to_nat offset) dst ++ data ++ drop (Z.to_nat offset + length data)%nat dst)
  else None.

Definition dbuf_write (s : DynBuf) (offset : Z) (data : list Z) : option DynBuf :=
  let end_ := u64 (offset + Z.of_nat (length data)) in
  let s :=
    if allocated_size s <? end_ then
      let new_size := u64 (max_int (sw 32 end_) (sw 32 (u64 (allocated_size s * 3) / 2))) in
      mkDynBuf (realloc (dbuf_data s) new_size) (dbuf_size s) new_size
    else s in
  match memcpy (dbuf_data s) offset data with
  | None => None
  | Some d => Some (mkDynBuf d (if dbuf_size s <? end_ then end_ else dbuf_size s) (allocated_size s))
  end.

Definition dbuf_putc (s : DynBuf) (c : Z) : option DynBuf := dbuf_write s (dbuf_size s) [u8 c].
Definition dbuf_putstr (s : DynBuf) (str : list Z) : option DynBuf := dbuf_write s (dbuf_size s) str.
Definition dbuf_free (s : DynBuf) : DynBuf := mkDynBuf [] 0 0.
End DynBuf.

(** * Lemmas *)

Lemma inw_8 x : inw 8 x -> 0 <= x < 256.
Proof. done. Qed.

Lemma shiftl_byte_lor a n y : 0 <= n -> inw n y -> Z.lor (Z.shiftl a n) y = a * 2 ^ n + y.
Proof. intros Hn Hy. rewrite Z.shiftl_mul_pow2, lor_mul_pow2 by done. done. Qed.

Lemma get_be32_value a b c d : inw 8 a -> inw 8 b -> inw 8 c -> inw 8 d ->
  get_be32 [a; b; c; d] = ((a * 256 + b) * 256 + c) * 256 + d.
Proof.
  intros Ha%inw_8 Hb%inw_8 Hc%inw_8 Hd%inw_8. 
  change (get_be32 [a; b; c; d]) with (Z.lor (Z.lor (Z.lor (uw 32 (Z.shiftl a 24)) (Z.shiftl b 16)) (Z.shiftl c 8)) d).
  rewrite (uw_small 32 (Z.shiftl a 24)) by (rewrite Z.shiftl_mul_pow2 by lia; unfold inw; lia).
  rewrite <- !Z.lor_assoc. rewrite (shiftl_byte_lor c 8 d), (shiftl_byte_lor b 16), (shiftl_byte_lor a 24)
    by (lia || unfold inw; lia). lia.
Qed.

Lemma put_be32_value v : inw 32 v -> put_be32 v = [v / 2 ^ 24; v / 2 ^ 16 mod 256; v / 2 ^ 8 mod 256; v mod 256].
Proof.
  intros Hv. unfold put_be32, u8, uw. rewrite !Z.shiftr_div_pow2 by lia. f_equal.
  apply Z.mod_small. unfold inw in Hv. split; [apply Z.div_pos; lia|apply Z.div_lt_upper_bound; lia].
Qed.

Lemma put_be32_bytes v : Forall (inw 8) (put_be32 v).
Proof. repeat constructor; apply inw_uw; lia. Qed.

Lemma get_put_be32 v : inw 32 v -> get_be32 (put_be32 v) = v.
Proof.
  intros Hv. pose proof (put_be32_bytes v) as Hb. unfold put_be32 in *. rewrite !Forall_cons in Hb.
  rewrite get_be32_value by apply Hb.
  unfold u8, uw. rewrite !Z.shiftr_div_pow2 by lia. unfold inw in Hv. Z.div_mod_to_equations. lia.
Qed.

(** ** Strings *)

Lemma c_string_app s l : Forall (fun c => c <> 0) s -> c_string (s ++ 0 :: l) = s.
Proof.
  induction 1 as [|c s Hc Hs IH]; [done|]. cbn [c_string app]. by rewrite (proj2 (Z.eqb_neq c 0)), IH.
Qed.

(** The bytes written, with the terminator, over what was there. *)
Lemma pstrcpy_loop_spec str n q pre post : Z.of_nat (length pre) = q -> q < n -> n <= q + Z.of_nat (length post) ->
  exists k, pstrcpy_loop str (pre ++ post) q n =
    pre ++ take k str ++ 0 :: drop (S k) post /\ Z.of_nat k = Z.min (Z.of_nat (length str)) (n - 1 - q).
Proof.
  revert q pre post. induction str as [|c str IH]; intros q pre post Hq Hn Hp; cbn [pstrcpy_loop].
  - exists 0%nat. split; [|cbn [length]; lia]. destruct post as [|x post]; [cbn [length] in Hp; lia|].
    unfold arr_set. rewrite insert_app_r_alt by lia. replace (Z.to_nat q - length pre)%nat with 0%nat by lia. done.
  - destruct post as [|x post]; [cbn [length] in Hp; lia|]. destruct (Z.leb_spec (n - 1) q).
    + exists 0%nat. split; [|cbn [length]; lia]. unfold arr_set. rewrite insert_app_r_alt by lia.
      replace (Z.to_nat q - length pre)%nat with 0%nat by lia. done.
    + destruct (IH (q + 1) (pre ++ [c]) post) as (k & E & Hk); [rewrite length_app; cbn [length]; lia|lia|cbn [length] in Hp; lia|].
      exists (S k). split; [|cbn [length]; lia]. unfold arr_set. rewrite insert_app_r_alt by lia.
      replace (Z.to_nat q - length pre)%nat with 0%nat by lia. cbn [insert list_insert alter].
      rewrite <- app_assoc in E. cbn [app] in E. rewrite E, <- app_assoc. done.
Qed.

(** [pstrcpy] keeps the size of the buffer and leaves in it as much of the
    string as fits with its terminator. *)
Lemma pstrcpy_string buf n str : 0 < n <= Z.of_nat (length buf) -> Forall (fun c => c <> 0) str ->
  c_string (pstrcpy buf n str) = take (Z.to_nat (n - 1)) str /\ length (pstrcpy buf n str) = length buf /\
  drop (Z.to_nat n) (pstrcpy buf n str) = drop (Z.to_nat n) buf.
Proof.
  intros Hn Hs. unfold pstrcpy. rewrite (proj2 (Z.leb_gt n 0)) by lia.
  destruct (pstrcpy_loop_spec str n 0 [] buf) as (k & E & Hk); [done|lia|cbn [length]; lia|]. cbn [app] in E. rewrite E. clear E.
  assert (Ht : take k str = take (Z.to_nat (n - 1)) str).
  { destruct (Z.le_gt_cases (Z.of_nat (length str)) (n - 1)); [rewrite !take_ge by lia; done|f_equal; lia]. }
  split_and!.
  - by rewrite c_string_app, Ht by by apply Forall_take.
  - rewrite length_app, length_take. cbn [length]. rewrite length_drop. lia.
  - rewrite drop_app_ge, length_take by (rewrite length_take; lia).
    replace (Z.to_nat n - k `min` length str)%nat with (S (Z.to_nat n - S k)) by lia. cbn [drop].
    rewrite drop_drop. f_equal. lia.
Qed.

Lemma strstart_spec str val rest : strstart str val = Some rest <-> str = val ++ rest.
Proof.
  revert str. induction val as [|q val IH]; intros [|p str]; cbn [strstart app]; try (split; congruence).
  destruct (Z.eqb_spec p q) as [-> |]; [rewrite IH|]; split; congruence.
Qed.

(** ** The growing buffer *)

Definition dbuf_ok (s : DynBuf) : Prop :=
  Z.of_nat (length (dbuf_data s)) = allocated_size s /\ 0 <= dbuf_size s <= allocated_size s.

Lemma length_realloc junk data n : 0 <= n -> Z.of_nat (length (realloc junk data n)) = n.
Proof. intros. unfold realloc. rewrite length_app, length_replicate, length_take. lia. Qed.

Lemma realloc_prefix junk data n : Z.of_nat (length data) <= n -> take (length data) (realloc junk data n) = data.
Proof. intros. unfold realloc. rewrite (take_ge data (Z.to_nat n)), take_app_le by lia. by apply take_ge. Qed.

(** A write that ends below 2 GB of a buffer that has not outgrown it succeeds,
    whatever the room was before: the bytes are there and those around them
    are kept. *)
Lemma dbuf_write_ok junk s offset data : dbuf_ok s -> 0 <= offset <= dbuf_size s ->
  let e := offset + Z.of_nat (length data) in
  e < 2 ^ 31 -> allocated_size s * 3 < 2 ^ 32 ->
  exists s', dbuf_write junk s offset data = Some s' /\ dbuf_ok s' /\ dbuf_size s' = Z.max e (dbuf_size s) /\
    take (Z.to_nat (dbuf_size s')) (dbuf_data s') =
    take (Z.to_nat offset) (dbuf_data s) ++ data ++ drop (Z.to_nat e) (take (Z.to_nat (dbuf_size s)) (dbuf_data s)).
Proof.
  intros [Hl Hs] Ho e He Ha. unfold dbuf_write, u64. fold e. rewrite (uw_small 64 e) by (unfold inw; lia).
  set (s1 := if allocated_size s <? e then _ else s).
  assert (H1 : dbuf_ok s1 /\ dbuf_size s1 = dbuf_size s /\ e <= allocated_size s1 /\
    take (length (dbuf_data s)) (dbuf_data s1) = dbuf_data s).
  { unfold s1. destruct (Z.ltb_spec (allocated_size s) e) as [Hlt | Hge].
    - rewrite (sw_small 32 e) by (unfold insw; lia). rewrite (uw_small 64 (_ * 3)) by (unfold inw; lia).
      rewrite sw_small by (unfold insw; Z.div_mod_to_equations; lia).
      set (n := max_int e _). assert (Hn : e <= n < 2 ^ 31).
      { unfold n, max_int. destruct (Z.ltb_spec (allocated_size s * 3 / 2) e); Z.div_mod_to_equations; lia. }
      rewrite uw_small by (unfold inw; lia). split_and!; [split; cbn [dbuf_data dbuf_size allocated_size]; [apply length_realloc; lia|lia]|done|cbn; lia|].
      cbn [dbuf_data]. apply realloc_prefix. lia.
    - split_and!; [done|done|lia|by apply take_ge]. }
  destruct H1 as ([Hl1 Hs1] & Hsz & Hroom & Hpre). clearbody s1. rewrite Hsz. unfold memcpy.
  rewrite (proj2 (Z.leb_le _ _)) by (unfold e in Hroom; lia). eexists. split; [done|].
  cbn [dbuf_data dbuf_size allocated_size]. assert (Hm : (if dbuf_size s <? e then e else dbuf_size s) = Z.max e (dbuf_size s))
    by (destruct (Z.ltb_spec (dbuf_size s) e); lia). rewrite Hm. split_and!; cbn [dbuf_data dbuf_size allocated_size].
  - split; cbn [dbuf_data dbuf_size allocated_size]; [|unfold e in *; lia].
    rewrite !length_app, length_take, length_drop. unfold e in *. lia.
  - done.
  - rewrite app_assoc. rewrite take_app_ge by (rewrite length_app, length_take; unfold e in *; lia).
    rewrite <- app_assoc. f_equal; [|f_equal].
    + rewrite <- Hpre, take_take. f_equal. lia.
    + rewrite length_app, length_take, <- Hpre, take_take, take_drop_commute.
      replace (Z.to_nat offset + length data)%nat with (Z.to_nat e) by (unfold e; lia).
      destruct (Z.le_gt_cases (dbuf_size s) e); [rewrite !drop_ge; [done|..]; rewrite !length_take; unfold e in *; lia|].
      do 2 f_equal. unfold e in *. lia.
Qed.
