(* ===== verification/Sha256.v ===== *)
(** SHA-256: [src/lib/crypto/sha256.cpp] and [sha256.h].

    Memory is lists of bytes.  [small] is [LTC_SMALL_CODE]: the loop over the
    table [K] and the unrolled rounds are both modelled.  A context that makes
    the code call [abort], and a copy outside the buffer, are [None]. *)

From stdpp Require Import base numbers list.
From S2P Require Import Prelude Cutils Bytes.
Local Open Scope Z_scope.

#[projections(primitive)]
Record SHA256_CTX := mkSHA256_CTX { sha_length : Z; sha_state : list Z; curlen : Z; sha_buf : list Z }.

Definition RORc (x y : Z) : Z :=
  u32 (Z.lor (Z.shiftr (u32 x) (Z.land y 31)) (u32 (Z.shiftl x (32 - Z.land y 31)))).

(** Row by row. *)
Definition K : list Z := concat
  [[0x428a2f98; 0x71374491; 0xb5c0fbcf; 0xe9b5dba5; 0x3956c25b];
   [0x59f111f1; 0x923f82a4; 0xab1c5ed5; 0xd807aa98; 0x12835b01];
   [0x243185be; 0x550c7dc3; 0x72be5d74; 0x80deb1fe; 0x9bdc06a7];
   [0xc19bf174; 0xe49b69c1; 0xefbe4786; 0x0fc19dc6; 0x240ca1cc];
   [0x2de92c6f; 0x4a7484aa; 0x5cb0a9dc; 0x76f988da; 0x983e5152];
   [0xa831c66d; 0xb00327c8; 0xbf597fc7; 0xc6e00bf3; 0xd5a79147];
   [0x06ca6351; 0x14292967; 0x27b70a85; 0x2e1b2138; 0x4d2c6dfc];
   [0x53380d13; 0x650a7354; 0x766a0abb; 0x81c2c92e; 0x92722c85];
   [0xa2bfe8a1; 0xa81a664b; 0xc24b8b70; 0xc76c51a3; 0xd192e819];
   [0xd6990624; 0xf40e3585; 0x106aa070; 0x19a4c116; 0x1e376c08];
   [0x2748774c; 0x34b0bcb5; 0x391c0cb3; 0x4ed8aa4a; 0x5b9cca4f];
   [0x682e6ff3; 0x748f82ee; 0x78a5636f; 0x84c87814; 0x8cc70208];
   [0x90befffa; 0xa4506ceb; 0xbef9a3f7; 0xc67178f2]].

(** * Various logical functions *)

Definition Ch (x y z : Z) : Z := Z.lxor z (Z.land x (Z.lxor y z)).
Definition Maj (x y z : Z) : Z := Z.lor (Z.land (Z.lor x y) z) (Z.land x y).
(** The macros [S] and [R] *)
Definition S_ (x n : Z) : Z := RORc x n.
Definition R_ (x n : Z) : Z := Z.shiftr (u32 x) n.
Definition Sigma0 (x : Z) : Z := Z.lxor (Z.lxor (S_ x 2) (S_ x 13)) (S_ x 22).
Definition Sigma1 (x : Z) : Z := Z.lxor (Z.lxor (S_ x 6) (S_ x 11)) (S_ x 25).
Definition Gamma0 (x : Z) : Z := Z.lxor (Z.lxor (S_ x 7) (S_ x 18)) (R_ x 3).
Definition Gamma1 (x : Z) : Z := Z.lxor (Z.lxor (S_ x 17) (S_ x 19)) (R_ x 10).

(** * compress 512-bits *)

Definition load_words (buf : list Z) (W : list Z) : list Z :=
  for_each 16 0 (fun i W => arr_set W i (get_be32 (drop (Z.to_nat (4 * i)) buf))) W.
Definition fill_words (W : list Z) : list Z :=
  for_each 48 16 (fun i W =>
    arr_set W i (u32 (Gamma1 (arr_get 0 W (i - 2)) + arr_get 0 W (i - 7) +
                      Gamma0 (arr_get 0 W (i - 15)) + arr_get 0 W (i - 16)))) W.

(** [RND(S[a], S[b], ..., S[h], i, ki)]: the indices of [S] follow [a] in a
    circle in every use. *)
Definition RND (W : list Z) (a i ki : Z) (S : list Z) : list Z :=
  let at_ k := (a + k) mod 8 in
  let get k := arr_get 0 S (at_ k) in
  let t0 := u32 (get 7 + Sigma1 (get 4) + Ch (get 4) (get 5) (get 6) + ki + arr_get 0 W i) in
  let t1 := u32 (Sigma0 (get 0) + Maj (get 0) (get 1) (get 2)) in
  let S := arr_set S (at_ 3) (u32 (get 3 + t0)) in
  arr_set S (at_ 7) (u32 (t0 + t1)).

(** [t = S[7]; S[7] = S[6]; ...; S[0] = t] *)
Definition shift_down (S : list Z) : list Z :=
  let t := arr_get 0 S 7 in
  let move k S := arr_set S k (arr_get 0 S (k - 1)) in
  arr_set (move 1 (move 2 (move 3 (move 4 (move 5 (move 6 (move 7 S))))))) 0 t.

Definition rounds_small (W S : list Z) : list Z :=
  for_each 64 0 (fun i S => shift_down (RND W 0 i (arr_get 0 K i) S)) S.

(** The unrolled rounds: the first index of [S], [i] and [ki]. *)
Definition unrolled : list (Z * Z * Z) :=
  [(0, 0, 0x428a2f98); (7, 1, 0x71374491); (6, 2, 0xb5c0fbcf); (5, 3, 0xe9b5dba5);
   (4, 4, 0x3956c25b); (3, 5, 0x59f111f1); (2, 6, 0x923f82a4); (1, 7, 0xab1c5ed5);
   (0, 8, 0xd807aa98); (7, 9, 0x12835b01); (6, 10, 0x243185be); (5, 11, 0x550c7dc3);
   (4, 12, 0x72be5d74); (3, 13, 0x80deb1fe); (2, 14, 0x9bdc06a7); (1, 15, 0xc19bf174);
   (0, 16, 0xe49b69c1); (7, 17, 0xefbe4786); (6, 18, 0x0fc19dc6); (5, 19, 0x240ca1cc);
   (4, 20, 0x2de92c6f); (3, 21, 0x4a7484aa); (2, 22, 0x5cb0a9dc); (1, 23, 0x76f988da);
   (0, 24, 0x983e5152); (7, 25, 0xa831c66d); (6, 26, 0xb00327c8); (5, 27, 0xbf597fc7);
   (4, 28, 0xc6e00bf3); (3, 29, 0xd5a79147); (2, 30, 0x06ca6351); (1, 31, 0x14292967);
   (0, 32, 0x27b70a85); (7, 33, 0x2e1b2138); (6, 34, 0x4d2c6dfc); (5, 35, 0x53380d13);
   (4, 36, 0x650a7354); (3, 37, 0x766a0abb); (2, 38, 0x81c2c92e); (1, 39, 0x92722c85);
   (0, 40, 0xa2bfe8a1); (7, 41, 0xa81a664b); (6, 42, 0xc24b8b70); (5, 43, 0xc76c51a3);
   (4, 44, 0xd192e819); (3, 45, 0xd6990624); (2, 46, 0xf40e3585); (1, 47, 0x106aa070);
   (0, 48, 0x19a4c116); (7, 49, 0x1e376c08); (6, 50, 0x2748774c); (5, 51, 0x34b0bcb5);
   (4, 52, 0x391c0cb3); (3, 53, 0x4ed8aa4a); (2, 54, 0x5b9cca4f); (1, 55, 0x682e6ff3);
   (0, 56, 0x748f82ee); (7, 57, 0x78a5636f); (6, 58, 0x84c87814); (5, 59, 0x8cc70208);
   (4, 60, 0x90befffa); (3, 61, 0xa4506ceb); (2, 62, 0xbef9a3f7); (1, 63, 0xc67178f2)].

Definition rounds_unrolled (W S : list Z) : list Z :=
  foldl (fun S '(a, i, ki) => RND W a i ki S) S unrolled.

Definition sha256_compress (small : bool) (state buf : list Z) : list Z :=
  let W := fill_words (load_words buf (replicate 64 0)) in
  let S := (if small then rounds_small else rounds_unrolled) W state in
  for_each 8 0 (fun i st => arr_set st i (u32 (arr_get 0 st i + arr_get 0 S i))) state.

(** * The context *)

(** [buf] is not initialised: [buf0]. *)
Definition SHA256_Init (buf0 : list Z) : SHA256_CTX :=
  mkSHA256_CTX 0 [0x6A09E667; 0xBB67AE85; 0x3C6EF372; 0xA54FF53A;
                  0x510E527F; 0x9B05688C; 0x1F83D9AB; 0x5BE0CD19] 0 buf0.

Section Code.
Context (small : bool).

(** One turn of the loop of [SHA256_Update]; [inlen] is the length of [in_]. *)
Definition update_step (s : SHA256_CTX) (in_ : list Z) : option (SHA256_CTX * list Z) :=
  let inlen := Z.of_nat (length in_) in
  if (curlen s =? 0) && (64 <=? inlen) then
    Some (mkSHA256_CTX (u64 (sha_length s + 64 * 8)) (sha256_compress small (sha_state s) (take 64 in_))
            (curlen s) (sha_buf s), drop 64 in_)
  else
    let n := u64 (min_int (sw 32 inlen) (sw 32 (u32 (64 - curlen s)))) in
    match memcpy (sha_buf s) (curlen s) (take (Z.to_nat n) in_) with
    | Some b =>
      if inlen <? n then None
      else
        let cl := u32 (curlen s + n) in
        Some (if cl =? 64
              then mkSHA256_CTX (u64 (sha_length s + 8 * 64)) (sha256_compress small (sha_state s) b) 0 b
              else mkSHA256_CTX (sha_length s) (sha_state s) cl b,
              drop (Z.to_nat n) in_)
    | None => None
    end.

Fixpoint update_loop (fuel : nat) (s : SHA256_CTX) (in_ : list Z) : option SHA256_CTX :=
  match in_ with
  | [] => Some s
  | _ =>
    match fuel with
    | O => None
    | S fuel =>
      match update_step s in_ with
      | Some (s, in_) => update_loop fuel s in_
      | None => None
      end
    end
  end.

Definition SHA256_Update (s : SHA256_CTX) (in_ : list Z) : option SHA256_CTX :=
  let inlen := Z.of_nat (length in_) in
  if 64 <? curlen s then None
  else if u64 (sha_length s + inlen) <? sha_length s then None
  else update_loop (S (length in_)) s in_.

(** [while (curlen < to) buf[curlen++] = 0;] *)
Definition zero_to (to from : Z) (b : list Z) : list Z :=
  for_each (Z.to_nat (to - from)) from (fun i b => arr_set b i 0) b.

Definition SHA256_Final (s : SHA256_CTX) : option (list Z) :=
  if 64 <=? curlen s then None
  else
    let len := u64 (sha_length s + u32 (curlen s * 8)) in
    let b := arr_set (sha_buf s) (curlen s) 0x80 in
    let cl := curlen s + 1 in
    let '(st, b, cl) :=
      if 56 <? cl then
        let b := zero_to 64 cl b in
        (sha256_compress small (sha_state s) b, b, 0)
      else (sha_state s, b, cl) in
    let b := zero_to 56 cl b in
    let b := take 56 b ++ put_be64 len in
    let st := sha256_compress small st b in
    Some (concat (map put_be32 st)).

(** [buf_len] is the length of [buf]; the fresh context's buffer is [buf0]. *)
Definition SHA256 (buf0 buf : list Z) : option (list Z) :=
  match SHA256_Update (SHA256_Init buf0) buf with
  | Some s => SHA256_Final s
  | None => None
  end.
End Code.
