(* ===== verification/Sha256Ok.v ===== *)
(** SHA-256 against FIPS 180-4: the standard as a function on whole messages,
    and the code of [Sha256], fed in any pieces, computes it. *)

From stdpp Require Import base numbers list.
From S2P Require Import Prelude Cutils Bytes Sha256.
Local Open Scope Z_scope.

(** * The standard *)

Module Fips.
(** The constants: fractions of the square and cube roots of the first
    primes. *)
Definition is_prime (n : Z) : bool := forallb (fun d => nz (n mod d)) (seqZ 2 (n - 2)).
Definition primes : list Z := filter (fun n => is_prime n = true) (seqZ 2 310).
(** The integer [k]-th root, from its top bit down. *)
Definition iroot (k n : Z) : Z :=
  foldl (fun r b => if (r + 2 ^ b) ^ k <=? n then r + 2 ^ b else r) 0 (reverse (seqZ 0 48)).
Definition root_fraction (k p : Z) : Z := iroot k (p * 2 ^ (32 * k)) mod 2 ^ 32.
Definition K : list Z := map (root_fraction 3) primes.
Definition H0 : list Z := map (root_fraction 2) (take 8 primes).

Definition rotr (n x : Z) : Z := (x / 2 ^ n + x * 2 ^ (32 - n)) mod 2 ^ 32.
Definition shr (n x : Z) : Z := x / 2 ^ n.
Definition ch (x y z : Z) : Z := Z.lxor (Z.land x y) (Z.land (Z.lnot x) z).
Definition maj (x y z : Z) : Z := Z.lxor (Z.lxor (Z.land x y) (Z.land x z)) (Z.land y z).
Definition Sum0 (x : Z) : Z := Z.lxor (Z.lxor (rotr 2 x) (rotr 13 x)) (rotr 22 x).
Definition Sum1 (x : Z) : Z := Z.lxor (Z.lxor (rotr 6 x) (rotr 11 x)) (rotr 25 x).
Definition sigma0 (x : Z) : Z := Z.lxor (Z.lxor (rotr 7 x) (rotr 18 x)) (shr 3 x).
Definition sigma1 (x : Z) : Z := Z.lxor (Z.lxor (rotr 17 x) (rotr 19 x)) (shr 10 x).

Fixpoint words (bytes : list Z) : list Z :=
  match bytes with
  | a :: b :: c :: d :: bytes => ((a * 256 + b) * 256 + c) * 256 + d :: words bytes
  | _ => []
  end.

(** The next word of the schedule. *)
Definition extend (W : list Z) : list Z :=
  let w k := nth (length W - k) W 0 in
  W ++ [(sigma1 (w 2%nat) + w 7%nat + sigma0 (w 15%nat) + w 16%nat) mod 2 ^ 32].
Definition schedule (block : list Z) : list Z := Nat.iter 48 extend (words block).

Definition round (st : list Z) (kw : Z * Z) : list Z :=
  match st with
  | [a; b; c; d; e; f; g; h] =>
    let T1 := h + Sum1 e + ch e f g + kw.1 + kw.2 in
    let T2 := Sum0 a + maj a b c in
    [(T1 + T2) mod 2 ^ 32; a; b; c; (d + T1) mod 2 ^ 32; e; f; g]
  | _ => st
  end.

Definition compress (H block : list Z) : list Z :=
  zip_with (fun x y => (x + y) mod 2 ^ 32) H (foldl round H (zip K (schedule block))).

Fixpoint split_blocks (n : nat) (l : list Z) : list (list Z) :=
  match n with
  | O => []
  | S n => take 64 l :: split_blocks n (drop 64 l)
  end.
Definition blocks (l : list Z) : list (list Z) := split_blocks (length l / 64) l.

Fixpoint be_bytes (n : nat) (v : Z) : list Z :=
  match n with
  | O => []
  | S n => (v / 256 ^ Z.of_nat n) mod 256 :: be_bytes n v
  end.

(** A one bit, zeros up to eight bytes short of a block, the length in bits. *)
Definition pad (msg : list Z) : list Z :=
  let l := Z.of_nat (length msg) in
  msg ++ [0x80] ++ replicate (Z.to_nat ((55 - l) mod 64)) 0 ++ be_bytes 8 (8 * l).

Definition hash (msg : list Z) : list Z := concat (map (be_bytes 4) (foldl compress H0 (blocks (pad msg)))).
End Fips.

(** * The functions on words *)

Lemma ch_eq x y z : Ch x y z = Fips.ch x y z.
Proof.
  unfold Ch, Fips.ch. bits_at i Hi. rewrite !Z.lxor_spec, !Z.land_spec, Z.lxor_spec, Z.lnot_spec by done.
  by destruct (Z.testbit x i), (Z.testbit y i), (Z.testbit z i).
Qed.

Lemma maj_eq x y z : Maj x y z = Fips.maj x y z.
Proof.
  unfold Maj, Fips.maj. bits_at i Hi. rewrite !Z.lxor_spec, !Z.lor_spec, !Z.land_spec, !Z.lor_spec.
  by destruct (Z.testbit x i), (Z.testbit y i), (Z.testbit z i).
Qed.

Lemma rotr_eq x n : inw 32 x -> 0 < n < 32 -> RORc x n = Fips.rotr n x.
Proof.
  intros Hx Hn. unfold RORc, Fips.rotr, u32. rewrite (uw_small 32 x) by done.
  change 31 with (Z.ones 5). rewrite Z.land_ones, Z.mod_small by lia.
  rewrite Z.shiftr_div_pow2, Z.shiftl_mul_pow2 by lia. unfold inw in Hx.
  assert (P : 2 ^ 32 = 2 ^ n * 2 ^ (32 - n)) by (rewrite <- Z.pow_add_r by lia; f_equal; lia).
  pose proof (pow2_pos n ltac:(lia)). pose proof (pow2_pos (32 - n) ltac:(lia)).
  assert (Hlow : 0 <= x / 2 ^ n < 2 ^ (32 - n)) by (split; [apply Z.div_pos; lia|apply Z.div_lt_upper_bound; lia]).
  assert (E : uw 32 (x * 2 ^ (32 - n)) = (x mod 2 ^ n) * 2 ^ (32 - n)).
  { unfold uw. by rewrite P, Z.mul_mod_distr_r by lia. }
  rewrite E, Z.lor_comm, lor_mul_pow2 by (done || lia). unfold uw. rewrite <- (Zplus_mod_idemp_r (x * _)).
  change ((x * 2 ^ (32 - n)) mod 2 ^ 32) with (uw 32 (x * 2 ^ (32 - n))). rewrite E. f_equal. lia.
Qed.

Lemma sums_eq x : inw 32 x -> Sigma0 x = Fips.Sum0 x /\ Sigma1 x = Fips.Sum1 x /\ Gamma0 x = Fips.sigma0 x /\ Gamma1 x = Fips.sigma1 x.
Proof.
  intros Hx. unfold Sigma0, Sigma1, Gamma0, Gamma1, S_, R_, u32. rewrite !rotr_eq, (uw_small 32 x), !Z.shiftr_div_pow2 by (done || lia).
  done.
Qed.

(** * The rounds *)

Lemma K_fips : K = Fips.K.
Proof. vm_compute. reflexivity. Qed.

(** The working variables [a] to [h], when [a] is at [S[r]]. *)
Definition from_at (r : Z) (S : list Z) : list Z := map (fun k => arr_get 0 S ((r + k) mod 8)) (seqZ 0 8).

Lemma length_8 (S : list Z) : length S = 8%nat -> exists a b c d e f g h, S = [a; b; c; d; e; f; g; h].
Proof. intros H. do 8 (destruct S as [|? S]; [done|]). destruct S; [|done]. by do 8 eexists. Qed.

Lemma seqZ_8 : seqZ 0 8 = [0; 1; 2; 3; 4; 5; 6; 7].
Proof. reflexivity. Qed.

Ltac index8 := repeat match goal with
  | |- context [(?p + ?q) mod 8] => let v := eval vm_compute in ((p + q) mod 8) in change ((p + q) mod 8) with v
  end.

Ltac small_nat := change (Z.to_nat 0) with 0%nat; change (Z.to_nat 1) with 1%nat; change (Z.to_nat 2) with 2%nat;
  change (Z.to_nat 3) with 3%nat; change (Z.to_nat 4) with 4%nat; change (Z.to_nat 5) with 5%nat;
  change (Z.to_nat 6) with 6%nat; change (Z.to_nat 7) with 7%nat.

Lemma u32_sum x y : u32 (u32 x + u32 y) = (x + y) mod 2 ^ 32.
Proof. unfold u32, uw. by rewrite <- Zplus_mod. Qed.

Lemma u32_sum_r x y : u32 (x + u32 y) = (x + y) mod 2 ^ 32.
Proof. unfold u32, uw. apply Zplus_mod_idemp_r. Qed.

Lemma inw_u32 x : inw 32 (u32 x).
Proof. apply inw_uw. lia. Qed.

Lemma RND_words W r i ki S : length S = 8%nat -> Forall (inw 32) S ->
  length (RND W r i ki S) = 8%nat /\ Forall (inw 32) (RND W r i ki S).
Proof.
  intros Hl HS. unfold RND. cbv zeta. rewrite !length_arr_set. split; [done|].
  do 2 (apply Forall_arr_set; [|apply inw_u32]). done.
Qed.

Lemma RND_round W r i ki S : length S = 8%nat -> Forall (inw 32) S -> 0 <= r < 8 ->
  from_at ((r - 1) mod 8) (RND W r i ki S) = Fips.round (from_at r S) (ki, arr_get 0 W i).
Proof.
  intros (a & b & c & d & e & f & g & h & ->)%length_8 HS Hr.
  set (w := arr_get 0 W i). unfold from_at, RND. fold w. rewrite seqZ_8. cbv zeta. cbn [map]. rewrite !Forall_cons in HS.
  assert (Hs0 : forall x, inw 32 x -> Sigma0 x = Fips.Sum0 x) by (intros; by apply sums_eq).
  assert (Hs1 : forall x, inw 32 x -> Sigma1 x = Fips.Sum1 x) by (intros; by apply sums_eq).
  assert (r = 0 \/ r = 1 \/ r = 2 \/ r = 3 \/ r = 4 \/ r = 5 \/ r = 6 \/ r = 7) as Hcase by lia.
  destruct Hcase as [-> | [-> | [-> | [-> | [-> | [-> | [-> | ->]]]]]]].
  all: match goal with |- context [(?p - 1) mod 8] => let v := eval vm_compute in ((p - 1) mod 8) in change ((p - 1) mod 8) with v end.
  all: index8; unfold arr_get, arr_set; small_nat; cbn [nth insert list_insert Fips.round].
  all: rewrite Hs0, Hs1, ch_eq, maj_eq, u32_sum, u32_sum_r by apply HS; reflexivity.
Qed.

Lemma for_each_foldl {S} n i (f : Z -> S -> S) (s : S) : for_each n i f s = foldl (fun s j => f j s) s (seqZ i (Z.of_nat n)).
Proof.
  revert i s. induction n as [|n IH]; intros i s; [done|]. cbn [for_each].
  rewrite IH, (seqZ_cons i) by lia. cbn [foldl]. do 2 f_equal; lia.
Qed.

Lemma arr_get_lookup (l : list Z) i x : l !! i = Some x -> arr_get 0 l (Z.of_nat i) = x.
Proof. intros H. unfold arr_get. by rewrite Nat2Z.id, nth_lookup, H. Qed.

Lemma zip_index (l k : list Z) : length l = length k ->
  zip l k = map (fun i => (arr_get 0 l i, arr_get 0 k i)) (seqZ 0 (Z.of_nat (length l))).
Proof.
  intros Hl. apply list_eq. intros i. rewrite list_lookup_fmap, lookup_zip_with.
  destruct (l !! i) as [x|] eqn:Ex.
  - assert (i < length l)%nat by (apply lookup_lt_is_Some; eauto).
    destruct (lookup_lt_is_Some_2 k i) as [y Ey]; [lia|]. rewrite Ey, lookup_seqZ_lt by lia. cbn [mbind option_bind fmap option_fmap option_map].
    by rewrite Z.add_0_l, (arr_get_lookup l i x), (arr_get_lookup k i y).
  - apply lookup_ge_None in Ex. by rewrite lookup_seqZ_ge by lia.
Qed.

(** The rounds of the standard, by their number. *)
Definition nth_round (W : list Z) (st : list Z) (i : Z) : list Z := Fips.round st (arr_get 0 K i, arr_get 0 W i).

Lemma fips_rounds W st : length W = 64%nat -> foldl Fips.round st (zip Fips.K W) = foldl (nth_round W) st (seqZ 0 64).
Proof.
  intros HW. rewrite <- K_fips, zip_index by by rewrite HW. change (Z.of_nat (length K)) with 64.
  generalize (seqZ 0 64). intros l. revert st. induction l as [|i l IH]; intros st; [done|]. apply IH.
Qed.

Lemma from_at_0 S : length S = 8%nat -> from_at 0 S = S.
Proof. intros (a & b & c & d & e & f & g & h & ->)%length_8. reflexivity. Qed.

Lemma shift_down_from S : length S = 8%nat -> shift_down S = from_at 7 S.
Proof. intros (a & b & c & d & e & f & g & h & ->)%length_8. reflexivity. Qed.

Lemma from_at_words r S : length S = 8%nat -> Forall (inw 32) S -> length (from_at r S) = 8%nat /\ Forall (inw 32) (from_at r S).
Proof.
  intros Hl HS. unfold from_at. split; [done|]. apply Forall_fmap, Forall_forall. intros k _.
  cbn [compose]. apply Forall_arr_get_lt; [done|]. rewrite Hl. apply Z.mod_pos_bound. lia.
Qed.

Lemma rounds_small_fips W st : length st = 8%nat -> Forall (inw 32) st -> rounds_small W st = foldl (nth_round W) st (seqZ 0 64).
Proof.
  intros Hl Hw. unfold rounds_small. rewrite for_each_foldl. change (Z.of_nat 64) with 64. generalize (seqZ 0 64). intros l.
  revert st Hl Hw. induction l as [|i l IH]; intros st Hl Hw; [done|]. cbn [foldl].
  destruct (RND_words W 0 i (arr_get 0 K i) st Hl Hw) as [Hl' Hw'].
  pose proof (RND_round W 0 i (arr_get 0 K i) st Hl Hw ltac:(lia)) as Hr. change ((0 - 1) mod 8) with 7 in Hr.
  rewrite from_at_0 in Hr by done. rewrite shift_down_from by done. unfold nth_round at 2. rewrite <- Hr.
  apply IH; by apply from_at_words.
Qed.

(** The unrolled rounds go round [S] downwards. *)
Lemma unrolled_rows : unrolled = map (fun i => ((- i) mod 8, i, arr_get 0 K i)) (seqZ 0 64).
Proof. vm_compute. reflexivity. Qed.

Lemma rounds_unrolled_fips W st : length st = 8%nat -> Forall (inw 32) st -> rounds_unrolled W st = foldl (nth_round W) st (seqZ 0 64).
Proof.
  intros Hl Hw. unfold rounds_unrolled. rewrite unrolled_rows.
  assert (Hgen : forall n i S, length S = 8%nat -> Forall (inw 32) S ->
    from_at ((- (i + Z.of_nat n)) mod 8) (foldl (fun S '(a, i, ki) => RND W a i ki S) S
      (map (fun i => ((- i) mod 8, i, arr_get 0 K i)) (seqZ i (Z.of_nat n)))) =
    foldl (nth_round W) (from_at ((- i) mod 8) S) (seqZ i (Z.of_nat n)) /\
    length (foldl (fun S '(a, i, ki) => RND W a i ki S) S
      (map (fun i => ((- i) mod 8, i, arr_get 0 K i)) (seqZ i (Z.of_nat n)))) = 8%nat).
  { induction n as [|n IH]; intros i S Hl' Hw'; [cbn; rewrite Z.add_0_r; done|].
    rewrite (seqZ_cons i) by lia. cbn [map foldl]. replace (Z.pred (Z.of_nat (Datatypes.S n))) with (Z.of_nat n) by lia.
    destruct (RND_words W ((- i) mod 8) i (arr_get 0 K i) S Hl' Hw') as [Hl2 Hw2].
    destruct (IH (Z.succ i) _ Hl2 Hw2) as [E1 E2]. replace (i + Z.of_nat (Datatypes.S n)) with (Z.succ i + Z.of_nat n) by lia.
    split; [|done]. rewrite E1. unfold nth_round at 3. rewrite <- RND_round by (done || apply Z.mod_pos_bound; lia).
    do 2 f_equal. rewrite Zminus_mod_idemp_l. f_equal. lia. }
  destruct (Hgen 64%nat 0 st Hl Hw) as [E1 E2]. change (Z.of_nat 64) with 64 in *. change ((- (0 + 64)) mod 8) with 0 in E1.
  change ((- 0) mod 8) with 0 in E1. rewrite from_at_0 in E1 by done. rewrite E1, from_at_0 by done. done.
Qed.

(** * The schedule *)

Lemma take_set (W : list Z) i v : 0 <= i < Z.of_nat (length W) ->
  take (Z.to_nat (i + 1)) (arr_set W i v) = take (Z.to_nat i) W ++ [v].
Proof.
  intros Hi. replace (Z.to_nat (i + 1)) with (S (Z.to_nat i)) by lia. unfold arr_set.
  rewrite (take_S_r _ _ v) by (apply list_lookup_insert_eq; lia). by rewrite take_insert_ge by lia.
Qed.

Lemma arr_get_take (W : list Z) i n : 0 <= i < Z.of_nat n -> arr_get 0 W i = nth (Z.to_nat i) (take n W) 0.
Proof. intros Hi. unfold arr_get. rewrite !nth_lookup, lookup_take_lt by lia. done. Qed.

Lemma words_be32 n l : length l = (4 * n)%nat -> Forall (inw 8) l ->
  Fips.words l = map (fun i => get_be32 (drop (Z.to_nat (4 * i)) l)) (seqZ 0 (Z.of_nat n)).
Proof.
  revert l. induction n as [|n IH]; intros l Hl Hb; [by destruct l|].
  do 4 (destruct l as [|? l]; [cbn [length] in Hl; lia|]). rewrite !Forall_cons in Hb. destruct Hb as (H0 & H1 & H2 & H3 & Hb).
  cbn [Fips.words]. rewrite (seqZ_cons 0) by lia. cbn [map]. f_equal.
  - change (drop (Z.to_nat (4 * 0)) ?l) with l. by rewrite <- get_be32_value.
  - rewrite (IH l) by (done || cbn [length] in Hl; lia). replace (Z.pred (Z.of_nat (S n))) with (Z.of_nat n) by lia.
    change (Z.succ 0) with (1 + 0). rewrite <- (fmap_add_seqZ 1 0).
    change (Z.add 1 <$> ?l) with (map (Z.add 1) l). rewrite map_map.
    apply map_ext_in. intros i Hi. apply list_elem_of_In, elem_of_seqZ in Hi.
    replace (Z.to_nat (4 * (1 + i))) with (4 + Z.to_nat (4 * i))%nat by lia. done.
Qed.

Lemma words_range n l : length l = (4 * n)%nat -> Forall (inw 8) l -> length (Fips.words l) = n /\ Forall (inw 32) (Fips.words l).
Proof.
  revert l. induction n as [|n IH]; intros l Hl Hb; [by destruct l|].
  do 4 (destruct l as [|? l]; [cbn [length] in Hl; lia|]). rewrite !Forall_cons in Hb. destruct Hb as (H0 & H1 & H2 & H3 & Hb).
  cbn [Fips.words length]. destruct (IH l) as [-> Hw]; [cbn [length] in Hl; lia|done|]. split; [done|].
  constructor; [|done]. unfold inw in *. lia.
Qed.

Lemma load_words_ok b W : length W = 64%nat -> length b = 64%nat -> Forall (inw 8) b ->
  take 16 (load_words b W) = Fips.words b /\ length (load_words b W) = 64%nat.
Proof.
  intros HW Hb Hbytes. rewrite (words_be32 16) by done.
  pose proof (for_each_ind (fun i W => length W = 64%nat /\
    take (Z.to_nat i) W = map (fun i => get_be32 (drop (Z.to_nat (4 * i)) b)) (seqZ 0 i)) 16 0
    (fun i W => arr_set W i (get_be32 (drop (Z.to_nat (4 * i)) b))) W) as Hind.
  destruct Hind as [H1 H2]; [|done|by split].
  intros i t Hi [Hl Ht]. rewrite length_arr_set. split; [done|]. rewrite take_set, Ht by lia.
  rewrite (seqZ_app 0 i 1), map_app by lia. done.
Qed.

Lemma extend_words n M : length M = 16%nat -> Forall (inw 32) M ->
  length (Nat.iter n Fips.extend M) = (16 + n)%nat /\ Forall (inw 32) (Nat.iter n Fips.extend M).
Proof.
  intros Hl Hw. induction n as [|n [IH1 IH2]]; [done|]. cbn [Nat.iter nat_rect]. fold (Nat.iter n Fips.extend M).
  unfold Fips.extend at 1 3. rewrite length_app. cbn [length]. split; [lia|]. apply Forall_app. split; [done|].
  constructor; [|done]. apply Z.mod_pos_bound. lia.
Qed.

Lemma fill_words_ok M W : length W = 64%nat -> length M = 16%nat -> Forall (inw 32) M -> take 16 W = M ->
  fill_words W = Nat.iter 48 Fips.extend M.
Proof.
  intros HW HM Hw HT. pose proof (for_each_ind (fun i W => length W = 64%nat /\ take (Z.to_nat i) W = Nat.iter (Z.to_nat (i - 16)) Fips.extend M)
    48 16 (fun i W => arr_set W i (u32 (Gamma1 (arr_get 0 W (i - 2)) + arr_get 0 W (i - 7) +
                      Gamma0 (arr_get 0 W (i - 15)) + arr_get 0 W (i - 16)))) W) as Hind.
  destruct Hind as [H1 H2]; [|by split|].
  - intros i t Hi [Hl Ht]. rewrite length_arr_set. split; [done|]. rewrite take_set, Ht by lia.
    replace (Z.to_nat (i + 1 - 16)) with (S (Z.to_nat (i - 16))) by lia. cbn [Nat.iter nat_rect].
    destruct (extend_words (Z.to_nat (i - 16)) M HM Hw) as [HL HF]. set (X := Nat.iter (Z.to_nat (i - 16)) Fips.extend M) in *.
    fold (Nat.iter (Z.to_nat (i - 16)) Fips.extend M). fold X. unfold Fips.extend.
    assert (Hg : forall z k, z = Z.of_nat k -> (0 < k <= 16)%nat -> arr_get 0 t (i - z) = nth (length X - k) X 0).
    { intros z k -> Hk. rewrite (arr_get_take t _ (Z.to_nat i)), Ht by lia. f_equal. lia. }
    rewrite (Hg 2 2%nat), (Hg 7 7%nat), (Hg 15 15%nat), (Hg 16 16%nat) by lia.
    assert (Hin : forall k, (0 < k <= 16)%nat -> inw 32 (nth (length X - k) X 0)) by (intros; apply Forall_nth; [done|lia]).
    pose proof (sums_eq _ (Hin 2%nat ltac:(lia))) as (_ & _ & _ & ->). pose proof (sums_eq _ (Hin 15%nat ltac:(lia))) as (_ & _ & -> & _).
    done.
  - unfold fill_words. change (Z.to_nat (16 + Z.of_nat 48)) with 64%nat in H2. by rewrite take_ge in H2 by lia.
Qed.

(** * Blocks *)

Definition digest (st : list Z) : Prop := length st = 8%nat /\ Forall (inw 32) st.
Definition bytes (l : list Z) : Prop := Forall (inw 8) l.

Lemma round_length st kw : length st = 8%nat -> length (Fips.round st kw) = 8%nat.
Proof. by intros (a & b & c & d & e & f & g & h & ->)%length_8. Qed.

Lemma compress_ok small st b : digest st -> length b = 64%nat -> bytes b ->
  sha256_compress small st b = Fips.compress st b /\ digest (Fips.compress st b).
Proof.
  intros [Hl Hw] Hb Hby. destruct (words_range 16 b Hb Hby) as [HM HMw].
  destruct (load_words_ok b (replicate 64 0)) as [Ht Hlw]; [done..|].
  unfold sha256_compress, Fips.compress, Fips.schedule. rewrite (fill_words_ok (Fips.words b)) by done.
  pose proof (proj1 (extend_words 48 _ HM HMw)) as HS. generalize dependent (Nat.iter 48 Fips.extend (Fips.words b)). intros W HS.
  rewrite fips_rounds by done.
  assert ((if small then rounds_small else rounds_unrolled) W st = foldl (nth_round W) st (seqZ 0 64)) as ->.
  { destruct small; [by apply rounds_small_fips|by apply rounds_unrolled_fips]. }
  set (S := foldl _ _ _). assert (HSl : length S = 8%nat).
  { unfold S. generalize (seqZ 0 64). intros l. clear S. revert st Hl Hw. induction l as [|i l IH] using rev_ind; intros st Hl Hw; [done|].
    rewrite foldl_app. by apply round_length, IH. }
  clearbody S. apply length_8 in Hl as (a & b0 & c & d & e & f & g & h & ->). apply length_8 in HSl as (a' & b' & c' & d' & e' & f' & g' & h' & ->).
  split; [done|]. split; [done|]. cbn [zip_with]. repeat constructor; apply Z.mod_pos_bound; lia.
Qed.

Lemma blocks_app a b k : length a = (64 * k)%nat -> Fips.blocks (a ++ b) = Fips.blocks a ++ Fips.blocks b.
Proof.
  unfold Fips.blocks. intros Ha. rewrite length_app, Ha. rewrite (Nat.mul_comm 64), Nat.div_add_l, Nat.div_mul by lia.
  revert a Ha. induction k as [|k IH]; intros a Ha; [by destruct a|]. cbn [Nat.add Fips.split_blocks app].
  rewrite take_app_le, drop_app_le by lia. f_equal. apply IH. rewrite length_drop. lia.
Qed.

Lemma blocks_one b : length b = 64%nat -> Fips.blocks b = [b].
Proof. intros Hb. unfold Fips.blocks. rewrite Hb. cbn. by rewrite take_ge by lia. Qed.

Lemma H0_value : Fips.H0 = sha_state (SHA256_Init []).
Proof. vm_compute. reflexivity. Qed.

(** The state after whole blocks. *)
Definition run (l : list Z) : list Z := foldl Fips.compress Fips.H0 (Fips.blocks l).

Lemma run_app l b k : length l = (64 * k)%nat -> length b = 64%nat -> run (l ++ b) = Fips.compress (run l) b.
Proof. intros Hl Hb. unfold run. by rewrite (blocks_app l b k), (blocks_one b), foldl_app by done. Qed.

Lemma run_digest l k : length l = (64 * k)%nat -> bytes l -> digest (run l).
Proof.
  revert l. induction k as [|k IH]; intros l Hl Hb.
  - destruct l; [|done]. change (run []) with Fips.H0. rewrite H0_value. split; [done|]. cbn [sha_state SHA256_Init]. repeat constructor; unfold inw; lia.
  - rewrite <- (take_drop (64 * k) l). rewrite (run_app _ _ k) by (rewrite ?length_take, ?length_drop; lia).
    apply (compress_ok true); [apply IH; [rewrite length_take; lia|by apply Forall_take]|rewrite length_drop; lia|by apply Forall_drop].
Qed.

(** * The context and the message it has taken in *)

Definition absorbed (s : SHA256_CTX) (msg : list Z) : Prop :=
  exists k r, length msg = (64 * k + r)%nat /\ (r < 64)%nat /\ curlen s = Z.of_nat r /\ length (sha_buf s) = 64%nat /\
    take r (sha_buf s) = drop (64 * k) msg /\ sha_state s = run (take (64 * k) msg) /\
    sha_length s = 512 * Z.of_nat k /\ bytes msg.

Lemma absorbed_init buf0 : length buf0 = 64%nat -> absorbed (SHA256_Init buf0) [].
Proof.
  intros Hb. exists 0%nat, 0%nat. split_and!; try done; try lia. by constructor.
Qed.

(** A copy into the buffer. *)
Lemma memcpy_ok dst k data : (k + length data <= length dst)%nat ->
  memcpy dst (Z.of_nat k) data = Some (take k dst ++ data ++ drop (k + length data) dst).
Proof. intros H. unfold memcpy. rewrite (proj2 (Z.leb_le _ _)), Nat2Z.id by lia. done. Qed.

Lemma absorb_block s msg b small : absorbed s msg -> curlen s = 0 -> length b = 64%nat -> bytes b ->
  Z.of_nat (length msg) * 8 + 512 < 2 ^ 64 ->
  absorbed (mkSHA256_CTX (u64 (sha_length s + 64 * 8)) (sha256_compress small (sha_state s) b) (curlen s) (sha_buf s)) (msg ++ b).
Proof.
  intros (k & r & Hl & Hr & Hc & Hbl & Hbuf & Hst & Hlen & Hby) H0 Hb Hbb Hmax.
  assert (r = 0%nat) as -> by lia. rewrite Nat.add_0_r in Hl. rewrite take_ge in Hst by lia.
  destruct (compress_ok small (sha_state s) b) as [E _]; [rewrite Hst; by apply (run_digest _ k)|done|done|].
  exists (S k), 0%nat. cbn [curlen sha_buf sha_state sha_length]. rewrite length_app. split_and!; try done; try lia.
  - rewrite drop_ge by (rewrite length_app; lia). done.
  - rewrite take_ge by (rewrite length_app; lia). by rewrite E, Hst, (run_app _ _ k).
  - unfold u64. rewrite uw_small by (unfold inw; lia). lia.
  - by apply Forall_app.
Qed.

Lemma absorb_tail s msg d small : absorbed s msg -> bytes d -> Z.of_nat (length msg) * 8 + 512 < 2 ^ 64 ->
  (Z.to_nat (curlen s) + length d <= 64)%nat ->
  exists b, memcpy (sha_buf s) (curlen s) d = Some b /\
    absorbed (if u32 (curlen s + Z.of_nat (length d)) =? 64
              then mkSHA256_CTX (u64 (sha_length s + 8 * 64)) (sha256_compress small (sha_state s) b) 0 b
              else mkSHA256_CTX (sha_length s) (sha_state s) (u32 (curlen s + Z.of_nat (length d))) b) (msg ++ d).
Proof.
  intros (k & r & Hl & Hr & Hc & Hbl & Hbuf & Hst & Hlen & Hby) Hd Hmax Hroom. rewrite Hc in *. rewrite Nat2Z.id in Hroom.
  rewrite memcpy_ok by lia. eexists. split; [done|]. unfold u32. rewrite uw_small by (unfold inw; lia).
  set (b := take r (sha_buf s) ++ d ++ drop (r + length d) (sha_buf s)).
  assert (Hb : length b = 64%nat) by (unfold b; rewrite !length_app, length_take, length_drop; lia).
  assert (Hpre : take (r + length d) b = drop (64 * k) (msg ++ d)).
  { unfold b. rewrite Hbuf, app_assoc, take_app_le, take_ge by (rewrite !length_app, length_drop; lia). by rewrite drop_app_le by lia. }
  destruct (Z.eqb_spec (Z.of_nat r + Z.of_nat (length d)) 64) as [E | E].
  - assert (Hfull : b = drop (64 * k) (msg ++ d)) by (rewrite <- Hpre, take_ge by lia; done).
    assert (Hbb : bytes b) by (rewrite Hfull; by apply Forall_drop, Forall_app).
    destruct (compress_ok small (sha_state s) b) as [Ec _]; [|done|done|].
    { rewrite Hst. apply (run_digest _ k); [rewrite length_take; lia|by apply Forall_take]. }
    exists (S k), 0%nat. cbn [curlen sha_buf sha_state sha_length]. rewrite length_app. split_and!; try done; try lia.
    + rewrite drop_ge by (rewrite length_app; lia). done.
    + rewrite Ec, Hst, <- (run_app _ _ k) by (rewrite ?length_take; lia). f_equal.
      rewrite (take_ge (msg ++ d)) by (rewrite length_app; lia). rewrite Hfull.
      rewrite <- (take_app_le msg d) by lia. by rewrite take_drop.
    + unfold u64. rewrite uw_small by (unfold inw; lia). lia.
    + by apply Forall_app.
  - exists k, (r + length d)%nat. cbn [curlen sha_buf sha_state sha_length]. rewrite length_app. split_and!; try done; try lia.
    + by rewrite take_app_le by lia.
    + by apply Forall_app.
Qed.

Lemma update_step_ok small s msg in_ : absorbed s msg -> bytes in_ -> in_ <> [] -> Z.of_nat (length in_) < 2 ^ 31 ->
  (Z.of_nat (length msg) + Z.of_nat (length in_)) * 8 + 512 < 2 ^ 64 ->
  exists s' n, update_step small s in_ = Some (s', drop n in_) /\ (0 < n <= length in_)%nat /\ absorbed s' (msg ++ take n in_).
Proof.
  intros Habs Hby Hne Hsm Hmax. pose proof Habs as (k & r & Hl & Hr & Hc & _). assert (0 < length in_)%nat by (destruct in_; [done|cbn; lia]).
  unfold update_step. destruct ((curlen s =? 0) && (64 <=? Z.of_nat (length in_))) eqn:E.
  - apply andb_prop in E as [E1%Z.eqb_eq E2%Z.leb_le]. eexists _, 64%nat. split; [done|]. split; [lia|].
    apply absorb_block; [done|done|rewrite length_take; lia|by apply Forall_take|lia].
  - set (m := Nat.min (length in_) (64 - r)). assert (Hn : u64 (min_int (sw 32 (Z.of_nat (length in_))) (sw 32 (u32 (64 - curlen s)))) = Z.of_nat m).
    { unfold u32, u64. rewrite (uw_small 32) by (unfold inw; lia). rewrite !sw_small by (lia || unfold insw; lia).
      unfold min_int. destruct (Z.ltb_spec (Z.of_nat (length in_)) (64 - curlen s)); rewrite uw_small by (unfold inw; lia); lia. }
    rewrite Hn, Nat2Z.id. assert (Hm : (0 < m <= length in_)%nat) by (unfold m; lia).
    assert (Hlt : length (take m in_) = m) by (rewrite length_take; lia).
    destruct (absorb_tail s msg (take m in_) small Habs) as (b & -> & Hab); [by apply Forall_take|lia|unfold m in *; lia|].
    rewrite (proj2 (Z.ltb_ge _ _)) by lia. rewrite Hlt in Hab. eexists _, m. done.
Qed.

Lemma update_ok small s msg in_ : absorbed s msg -> bytes in_ -> Z.of_nat (length in_) < 2 ^ 31 ->
  (Z.of_nat (length msg) + Z.of_nat (length in_)) * 8 + 512 < 2 ^ 64 ->
  exists s', SHA256_Update small s in_ = Some s' /\ absorbed s' (msg ++ in_).
Proof.
  intros Habs Hby Hsm Hmax. pose proof Habs as (k & r & Hl & Hr & Hc & _ & _ & _ & Hlen & _). unfold SHA256_Update, u64.
  rewrite (proj2 (Z.ltb_ge 64 _)) by lia. rewrite uw_small by (unfold inw; lia). rewrite (proj2 (Z.ltb_ge _ _)) by lia.
  clear k r Hl Hr Hc Hlen. assert (Hf : (length in_ <= S (length in_))%nat) by lia. revert Hf. generalize (S (length in_)). intros fuel.
  revert s msg in_ Habs Hby Hsm Hmax. induction fuel as [|fuel IH]; intros s msg in_ Habs Hby Hsm Hmax Hf.
  - destruct in_; [|cbn in Hf; lia]. exists s. by rewrite app_nil_r.
  - destruct in_ as [|x in_]; [exists s; by rewrite app_nil_r|]. set (l := x :: in_) in *.
    destruct (update_step_ok small s msg l) as (s' & n & Es & Hn & Ha); [done|done|done|done|done|].
    change (update_loop small (S fuel) s l) with (match update_step small s l with Some (s, i) => update_loop small fuel s i | None => None end).
    rewrite Es. destruct (IH s' (msg ++ take n l) (drop n l)) as (s'' & E & Ha'); try done.
    + by apply Forall_drop.
    + rewrite length_drop. lia.
    + rewrite length_app, length_take, length_drop. lia.
    + rewrite length_drop. lia.
    + exists s''. split; [done|]. by rewrite <- app_assoc, take_drop in Ha'.
Qed.

(** ** Padding *)

Lemma zero_to_ok to from b : 0 <= from <= to -> to <= Z.of_nat (length b) ->
  take (Z.to_nat to) (zero_to to from b) = take (Z.to_nat from) b ++ replicate (Z.to_nat (to - from)) 0 /\
  length (zero_to to from b) = length b.
Proof.
  intros Hf Ht. pose proof (for_each_ind (fun i c => length c = length b /\
    take (Z.to_nat i) c = take (Z.to_nat from) b ++ replicate (Z.to_nat (i - from)) 0) (Z.to_nat (to - from)) from
    (fun i b => arr_set b i 0) b) as Hind.
  rewrite Z2Nat.id, Zplus_minus in Hind by lia. destruct Hind as [H1 H2]; [| |by split].
  - intros i c Hi [Hl Hc]. rewrite length_arr_set. split; [done|]. rewrite take_set, Hc by lia.
    rewrite <- app_assoc. f_equal. replace (Z.to_nat (i + 1 - from)) with (Z.to_nat (i - from) + 1)%nat by lia.
    by rewrite replicate_add.
  - by rewrite Z.sub_diag, app_nil_r.
Qed.

Lemma be_bytes_4 v : inw 32 v -> put_be32 v = Fips.be_bytes 4 v.
Proof.
  intros Hv. rewrite put_be32_value by done. cbn [Fips.be_bytes Z.of_nat Pos.of_succ_nat Pos.succ].
  rewrite Z.div_1_r. f_equal. symmetry. apply Z.mod_small. unfold inw in Hv. split; [apply Z.div_pos; lia|apply Z.div_lt_upper_bound; lia].
Qed.

Lemma digit_low x k : 0 <= k <= 24 -> ((x mod 2 ^ 32) / 2 ^ k) mod 2 ^ 8 = (x / 2 ^ k) mod 2 ^ 8.
Proof.
  intros Hk. bits_at i Hi. rewrite !Z.testbit_mod_pow2 by lia. destruct (Z.ltb_spec i 8); [|done]. cbn [andb].
  rewrite !Z.div_pow2_bits, Z.testbit_mod_pow2 by lia. by rewrite (proj2 (Z.ltb_lt _ _)) by lia.
Qed.

Lemma be_bytes_8 v : inw 64 v -> put_be64 v = Fips.be_bytes 8 v.
Proof.
  intros Hv. unfold put_be64, u32. rewrite !be_bytes_4 by apply inw_u32. unfold uw. rewrite Z.shiftr_div_pow2 by lia.
  cbn [Fips.be_bytes Z.of_nat Pos.of_succ_nat Pos.succ app].
  change 256 with (2 ^ 8). rewrite <- !Z.pow_mul_r by lia. rewrite !digit_low by lia. rewrite !Z.div_div, <- !Z.pow_add_r by lia. done.
Qed.

Lemma bytes_be n v : bytes (Fips.be_bytes n v) /\ length (Fips.be_bytes n v) = n.
Proof.
  induction n as [|n [IH1 IH2]]; [split; [by constructor|done]|]. cbn [Fips.be_bytes length]. split; [|by rewrite IH2].
  constructor; [apply Z.mod_pos_bound; lia|done].
Qed.

Lemma bytes_zeros n : bytes (replicate n 0).
Proof. apply Forall_replicate. apply inw_0. lia. Qed.

(** The tail of the message with its one bit, padded with zeros to [to]. *)
Lemma padded_tail b r d to : take r b = d -> length b = 64%nat -> (r < 64)%nat -> Z.of_nat r + 1 <= to <= 64 ->
  take (Z.to_nat to) (zero_to to (Z.of_nat r + 1) (arr_set b (Z.of_nat r) 0x80)) =
    d ++ [0x80] ++ replicate (Z.to_nat (to - (Z.of_nat r + 1))) 0 /\
  length (zero_to to (Z.of_nat r + 1) (arr_set b (Z.of_nat r) 0x80)) = 64%nat.
Proof.
  intros Hd Hb Hr Ht. destruct (zero_to_ok to (Z.of_nat r + 1) (arr_set b (Z.of_nat r) 0x80)) as [E1 E2]; [lia|rewrite length_arr_set; lia|].
  rewrite E1, E2, length_arr_set. split; [|done]. by rewrite take_set, Nat2Z.id, Hd, <- app_assoc by lia.
Qed.

(** The blocks the padding makes of the last bytes. *)
Lemma pad_blocks rest len : (length rest < 64)%nat -> length len = 8%nat -> bytes rest -> bytes len ->
  let z := (55 - Z.of_nat (length rest)) mod 64 in
  rest ++ [0x80] ++ replicate (Z.to_nat z) 0 ++ len =
  if 56 <? Z.of_nat (length rest) + 1
  then (rest ++ [0x80] ++ replicate (Z.to_nat (64 - (Z.of_nat (length rest) + 1))) 0) ++ replicate 56 0 ++ len
  else (rest ++ [0x80] ++ replicate (Z.to_nat (56 - (Z.of_nat (length rest) + 1))) 0) ++ len.
Proof.
  intros Hr Hl Hb Hlb z. destruct (Z.ltb_spec 56 (Z.of_nat (length rest) + 1)).
  - assert (z = 64 - (Z.of_nat (length rest) + 1) + 56) as -> by (unfold z; symmetry; apply (Z.mod_unique_pos _ _ (-1)); lia).
    rewrite Z2Nat.inj_add, replicate_add by lia. by rewrite <- !app_assoc.
  - assert (z = 56 - (Z.of_nat (length rest) + 1)) as -> by (unfold z; symmetry; apply (Z.mod_unique_pos _ _ 0); lia).
    by rewrite <- !app_assoc.
Qed.

(** The two ways [SHA256_Final] ends. *)
Lemma final_blocks small st b r rest len whole k : length whole = (64 * k)%nat -> bytes whole -> st = run whole ->
  take r b = rest -> length b = 64%nat -> length rest = r -> (r < 64)%nat -> bytes rest -> length len = 8%nat -> bytes len ->
  let b0 := arr_set b (Z.of_nat r) 0x80 in
  let '(st', b', cl) := if 56 <? Z.of_nat r + 1
    then (sha256_compress small st (zero_to 64 (Z.of_nat r + 1) b0), zero_to 64 (Z.of_nat r + 1) b0, 0)
    else (st, b0, Z.of_nat r + 1) in
  let res := sha256_compress small st' (take 56 (zero_to 56 cl b') ++ len) in
  res = run (whole ++ rest ++ [0x80] ++ replicate (Z.to_nat ((55 - Z.of_nat r) mod 64)) 0 ++ len) /\ digest res.
Proof.
  intros Hw Hwb -> Hrest Hb Hlr Hr Hrb Hll Hlb b0. pose proof (run_digest whole k Hw Hwb) as Hdig.
  pose proof (pad_blocks rest len ltac:(lia) Hll Hrb Hlb) as Hpad. rewrite Hlr in Hpad. cbv zeta in Hpad. rewrite Hpad.
  assert (B80 : bytes [0x80]) by (constructor; [unfold inw; lia|constructor]).
  destruct (Z.ltb_spec 56 (Z.of_nat r + 1)) as [H56 | H56].
  - destruct (padded_tail b r rest 64 Hrest Hb Hr ltac:(lia)) as [E1 L1]. fold b0 in E1, L1. rewrite take_ge in E1 by lia.
    set (b2 := zero_to 64 _ b0) in *. destruct (zero_to_ok 56 0 b2) as [E2 _]; [lia|lia|]. change (Z.to_nat 56) with 56%nat in E2. rewrite E2.
    change (take (Z.to_nat 0) b2 ++ replicate (Z.to_nat (56 - 0)) 0) with (replicate 56 0).
    assert (Bb2 : bytes b2) by (rewrite E1; repeat apply Forall_app_2; done || apply bytes_zeros).
    destruct (compress_ok small (run whole) b2 Hdig L1 Bb2) as [-> D1].
    destruct (compress_ok small (Fips.compress (run whole) b2) (replicate 56 0 ++ len) D1) as [-> D2];
      [rewrite length_app, length_replicate; lia|apply Forall_app_2; [apply bytes_zeros|done]|].
    split; [|done]. rewrite <- E1, app_assoc, (run_app _ _ (S k)), (run_app _ _ k); try done.
    + rewrite length_app. lia.
    + rewrite length_app, length_replicate. lia.
  - destruct (padded_tail b r rest 56 Hrest Hb Hr ltac:(lia)) as [E1 L1]. fold b0 in E1, L1. change (Z.to_nat 56) with 56%nat in E1. rewrite E1.
    set (x := rest ++ [0x80] ++ _). assert (Lx : length x = 56%nat) by (unfold x; rewrite !length_app, length_replicate; cbn [length]; lia).
    assert (Bx : bytes x) by (unfold x; repeat apply Forall_app_2; done || apply bytes_zeros).
    destruct (compress_ok small (run whole) (x ++ len) Hdig) as [-> D1]; [rewrite length_app; lia|by apply Forall_app_2|].
    split; [|done]. symmetry. apply (run_app _ _ k); [done|rewrite length_app; lia].
Qed.

Lemma final_ok small s msg : absorbed s msg -> Z.of_nat (length msg) * 8 < 2 ^ 64 ->
  SHA256_Final small s = Some (Fips.hash msg).
Proof.
  intros (k & r & Hl & Hr & Hc & Hbl & Hbuf & Hst & Hlen & Hby) Hmax. unfold SHA256_Final, Fips.hash, Fips.pad. rewrite Hc.
  rewrite (proj2 (Z.leb_gt 64 _)) by lia.
  assert (u64 (sha_length s + u32 (Z.of_nat r * 8)) = 8 * Z.of_nat (length msg)) as ->.
  { unfold u64, u32. rewrite (uw_small 32) by (unfold inw; lia). rewrite uw_small by (unfold inw; lia). lia. }
  rewrite be_bytes_8 by (unfold inw; lia). destruct (bytes_be 8 (8 * Z.of_nat (length msg))) as [Bl Ll].
  assert (Em : msg = take (64 * k) msg ++ drop (64 * k) msg) by (symmetry; apply take_drop).
  assert (Lw : length (take (64 * k) msg) = (64 * k)%nat) by (rewrite length_take; lia).
  assert (Lr : length (drop (64 * k) msg) = r) by (rewrite length_drop; lia).
  pose proof (final_blocks small (sha_state s) (sha_buf s) r _ _ _ k Lw (Forall_take _ (64 * k) _ Hby)
    Hst Hbuf Hbl Lr Hr (Forall_drop _ (64 * k) _ Hby) Ll Bl) as Hf. cbv zeta in Hf.
  destruct (if 56 <? Z.of_nat r + 1 then _ else _) as [[st' b'] cl]. destruct Hf as [Hrun [_ Hd]].
  rewrite Hrun in *. rewrite app_assoc, <- Em in *.
  replace ((55 - Z.of_nat (length msg)) mod 64) with ((55 - Z.of_nat r) mod 64)
    by (replace (55 - Z.of_nat (length msg)) with (55 - Z.of_nat r + (- Z.of_nat k) * 64) by lia; by rewrite Z.mod_add by lia).
  fold (run (msg ++ [0x80] ++ replicate (Z.to_nat ((55 - Z.of_nat r) mod 64)) 0 ++ Fips.be_bytes 8 (8 * Z.of_nat (length msg)))).
  do 2 f_equal. apply map_ext_in. intros v Hv. apply be_bytes_4. rewrite Forall_forall in Hd. apply Hd. by apply list_elem_of_In.
Qed.

(** * Whole messages *)

Lemma sha256_ok small buf0 msg : length buf0 = 64%nat -> bytes msg -> Z.of_nat (length msg) < 2 ^ 31 ->
  SHA256 small buf0 msg = Some (Fips.hash msg).
Proof.
  intros Hb Hm Hl. destruct (update_ok small (SHA256_Init buf0) [] msg) as (s & Es & Ha); [by apply absorbed_init|done|done|cbn [length]; lia|].
  unfold SHA256. rewrite Es. apply final_ok; [done|lia].
Qed.

(** [SHA256_Init], [SHA256_Update] for every piece, [SHA256_Final] *)
Definition sha256_pieces (small : bool) (buf0 : list Z) (pieces : list (list Z)) : option (list Z) :=
  foldl (fun o p => match o with Some s => SHA256_Update small s p | None => None end) (Some (SHA256_Init buf0)) pieces
    ≫= SHA256_Final small.

(** C20: fed to the context in any pieces, each below 2 GB, a message of less than
    2^64 bits hashes to what FIPS 180-4 defines, whether the rounds are the
    loop or the unrolled ones and whatever the buffer held before; in
    particular no path of the code aborts and no copy leaves the buffer. *)
Theorem sha256_stream_exact small buf0 pieces : length buf0 = 64%nat ->
  Forall (fun p => Forall (inw 8) p /\ Z.of_nat (length p) < 2 ^ 31) pieces ->
  Z.of_nat (length (concat pieces)) * 8 + 512 < 2 ^ 64 ->
  sha256_pieces small buf0 pieces = Some (Fips.hash (concat pieces)).
Proof.
  intros Hb Hp Hmax. unfold sha256_pieces.
  assert (Hloop : exists s, foldl (fun o p => match o with Some s => SHA256_Update small s p | None => None end)
    (Some (SHA256_Init buf0)) pieces = Some s /\ absorbed s (concat pieces)).
  { clear -Hb Hp Hmax. induction pieces as [|p ps IH] using rev_ind; [exists (SHA256_Init buf0); split; [done|by apply absorbed_init]|].
    apply Forall_app in Hp as [Hps Hp]. apply Forall_cons_1 in Hp as [[Hpb Hpl] _].
    rewrite concat_app, length_app in Hmax. cbn [concat] in *. rewrite app_nil_r in *.
    destruct IH as (s & Es & Ha); [done|lia|]. rewrite foldl_app, Es. cbn [foldl].
    destruct (update_ok small s (concat ps) p) as (s' & Es' & Ha'); [done|done|done|lia|]. exists s'. split; [done|].
    rewrite concat_app. cbn [concat]. by rewrite app_nil_r. }
  destruct Hloop as (s & -> & Ha). apply final_ok; [done|lia].
Qed.

Lemma sha256_stream_exact_witness :
  sha256_pieces false (replicate 64 0xff) [[97]; []; [98; 99]] = Some (Fips.hash [97; 98; 99]).
Proof.
  apply (sha256_stream_exact false (replicate 64 0xff) [[97]; []; [98; 99]]); [done| |by vm_compute].
  repeat constructor; try lia; vm_compute; congruence.
Defined.
