(* ===== verification/Hmac.v ===== *)
(** HMAC-SHA256 and PBKDF2, as [src/platform/curl/fs_wget.cpp] computes them
    with the built-in hash, against RFC 2104 and RFC 8018.

    [small] is the variant of the hash, [stack] what a fresh hash context's
    buffer holds and [K0] what a fresh key buffer holds. *)

From stdpp Require Import base numbers list.
From S2P Require Import Prelude Cutils Bytes Sha256 Sha256Ok.
Local Open Scope Z_scope.

Definition HMAC_BLOCK_SIZE : Z := 64.
Definition SHA256_DIGEST_LENGTH : Z := 32.
Definition SALT_LEN_MAX : Z := 32.

#[projections(primitive)]
Record HMAC_SHA256_CTX := mkHMAC { hmac_ctx : SHA256_CTX; hmac_K : list Z }.

(** [memset(d + offset, c, n)] *)
Definition memset (d : list Z) (offset c n : Z) : option (list Z) :=
  memcpy d offset (replicate (Z.to_nat n) c).
(** [for(i = 0; i < n; i++) d[i] ^= c;] *)
Definition xor_all (n : nat) (c : Z) (d : list Z) : list Z :=
  for_each n 0 (fun i d => arr_set d i (Z.lxor (arr_get 0 d i) c)) d.
(** [for(j = 0; j < n; j++) d[j] ^= e[j];] *)
Definition xor_with (n : nat) (d e : list Z) : list Z :=
  for_each n 0 (fun j d => arr_set d j (Z.lxor (arr_get 0 d j) (arr_get 0 e j))) d.

Section Hmac.
Context (small : bool) (stack K0 : list Z).

Definition hmac_sha256_init (key : list Z) : option HMAC_SHA256_CTX :=
  let key_len := Z.of_nat (length key) in
  '(K, l) ← (if HMAC_BLOCK_SIZE <? key_len then
               h ← SHA256 small stack key; K ← memcpy K0 0 h; Some (K, SHA256_DIGEST_LENGTH)
             else K ← memcpy K0 0 key; Some (K, key_len));
  K ← memset K l 0 (HMAC_BLOCK_SIZE - l);
  let K := xor_all 64 0x36 K in
  s ← SHA256_Update small (SHA256_Init stack) (take 64 K);
  Some (mkHMAC s K).

Definition hmac_sha256_update (s : HMAC_SHA256_CTX) (buf : list Z) : option HMAC_SHA256_CTX :=
  c ← SHA256_Update small (hmac_ctx s) buf; Some (mkHMAC c (hmac_K s)).

Definition hmac_sha256_final (s : HMAC_SHA256_CTX) : option (list Z) :=
  h ← SHA256_Final small (hmac_ctx s);
  K ← memcpy (hmac_K s) HMAC_BLOCK_SIZE h;
  let K := xor_all 64 (Z.lxor 0x36 0x5c) K in
  SHA256 small stack (take 96 K).

(** The inner loop: [U] is the array, of which [U_len] bytes are used. *)
Fixpoint pbkdf2_iter (n : nat) (pwd F U : list Z) (U_len : Z) : option (list Z * list Z) :=
  match n with
  | O => Some (F, U)
  | S n =>
    ctx ← hmac_sha256_init pwd;
    ctx ← hmac_sha256_update ctx (take (Z.to_nat U_len) U);
    h ← hmac_sha256_final ctx;
    U ← memcpy U 0 h;
    pbkdf2_iter n pwd (xor_with 32 F U) U SHA256_DIGEST_LENGTH
  end.

(** Every turn makes up to 32 bytes of the key.  [U0] is the uninitialised array
    [U], 36 bytes. *)
Fixpoint pbkdf2_loop (fuel : nat) (pwd salt U : list Z) (iter key_len i : Z) : option (list Z) :=
  if key_len <=? 0 then Some []
  else match fuel with
  | O => None
  | S fuel =>
    let salt_len := Z.of_nat (length salt) in
    U ← memcpy U 0 salt;
    U ← memcpy U salt_len [u8 (Z.shiftr i 24); u8 (Z.shiftr i 16); u8 (Z.shiftr i 8); u8 i];
    '(F, U) ← pbkdf2_iter (Z.to_nat iter) pwd (replicate 32 0) U (salt_len + 4);
    let l := min_int key_len SHA256_DIGEST_LENGTH in
    rest ← pbkdf2_loop fuel pwd salt U iter (key_len - l) (u32 (i + 1));
    Some (take (Z.to_nat l) F ++ rest)
  end.

Definition pbkdf2_hmac_sha256 (U0 pwd salt : list Z) (iter key_len : Z) : option (list Z) :=
  if SALT_LEN_MAX <? Z.of_nat (length salt) then None
  else pbkdf2_loop (Z.to_nat key_len) pwd salt U0 iter key_len 1.
End Hmac.

(** * The standards *)

Module Rfc.
(** RFC 2104 *)
Definition key_block (key : list Z) : list Z :=
  let k := if (64 <? length key)%nat then Fips.hash key else key in k ++ replicate (64 - length k) 0.
Definition hmac (key m : list Z) : list Z :=
  let k := key_block key in
  Fips.hash (map (Z.lxor 0x5c) k ++ Fips.hash (map (Z.lxor 0x36) k ++ m)).

(** RFC 8018: the exclusive or of [U_1], ..., [U_c] *)
Fixpoint xor_chain (c : nat) (P m acc : list Z) : list Z :=
  match c with
  | O => acc
  | S c => let U := hmac P m in xor_chain c P U (zip_with Z.lxor acc U)
  end.
Definition T (P S : list Z) (c : nat) (i : Z) : list Z := xor_chain c P (S ++ Fips.be_bytes 4 i) (replicate 32 0).
Definition pbkdf2 (P S : list Z) (c dkLen : nat) : list Z :=
  take dkLen (concat (map (T P S c) (seqZ 1 (Z.of_nat ((dkLen + 31) / 32))))).
End Rfc.

(** * Loops over arrays *)

Lemma map_loop (f : Z -> Z -> Z) n d : (n <= length d)%nat ->
  for_each n 0 (fun i d => arr_set d i (f i (arr_get 0 d i))) d =
  map (fun i => f i (arr_get 0 d i)) (seqZ 0 (Z.of_nat n)) ++ drop n d.
Proof.
  intros Hn. pose proof (for_each_ind (fun i c => c = map (fun i => f i (arr_get 0 d i)) (seqZ 0 i) ++ drop (Z.to_nat i) d) n 0
    (fun i d => arr_set d i (f i (arr_get 0 d i))) d) as Hind. rewrite Z.add_0_l, Nat2Z.id in Hind. apply Hind; [|done].
  intros i c Hi ->. rewrite (seqZ_app 0 i 1), map_app by lia.
  assert (Hl : length (map (fun i => f i (arr_get 0 d i)) (seqZ 0 i)) = Z.to_nat i) by (rewrite length_map, length_seqZ; done).
  destruct (drop (Z.to_nat i) d) as [|x l] eqn:E; [apply (f_equal length) in E; rewrite length_drop in E; cbn in E; lia|].
  assert (Hx : arr_get 0 d i = x).
  { unfold arr_get. rewrite nth_lookup. replace (Z.to_nat i) with (Z.to_nat i + 0)%nat by lia. by rewrite <- lookup_drop, E. }
  replace (Z.to_nat (i + 1)) with (Z.to_nat i + 1)%nat by lia. rewrite <- drop_drop, E. cbn [drop].
  set (pre := map _ (seqZ 0 i)) in *. assert (Hg : arr_get 0 (pre ++ x :: l) i = x).
  { unfold arr_get. rewrite app_nth2 by lia. by rewrite Hl, Nat.sub_diag. }
  rewrite Hg. unfold arr_set. rewrite insert_app_r_alt, Hl, Nat.sub_diag by lia.
  rewrite <- app_assoc. f_equal. rewrite Z.add_0_l, (seqZ_cons i 1) by lia.
  cbn [map app insert list_insert]. by rewrite Hx.
Qed.

Lemma index_take d n : (n <= length d)%nat -> map (arr_get 0 d) (seqZ 0 (Z.of_nat n)) = take n d.
Proof.
  intros Hn. apply list_eq. intros i. rewrite list_lookup_fmap. destruct (decide (i < n)%nat).
  - rewrite lookup_seqZ_lt, lookup_take_lt by lia. destruct (lookup_lt_is_Some_2 d i) as [x Ex]; [lia|]. rewrite Ex.
    cbn [fmap option_fmap option_map]. by rewrite Z.add_0_l, (arr_get_lookup d i x).
  - rewrite lookup_seqZ_ge, lookup_take_ge by lia. done.
Qed.

Lemma xor_all_ok n c d : (n <= length d)%nat -> xor_all n c d = map (Z.lxor c) (take n d) ++ drop n d.
Proof.
  intros Hn. unfold xor_all. rewrite (map_loop (fun _ x => Z.lxor x c)), <- index_take, map_map by done. f_equal.
  apply map_ext. intros. apply Z.lxor_comm.
Qed.

Lemma xor_with_ok n d e : (n <= length d)%nat -> (n <= length e)%nat ->
  xor_with n d e = zip_with Z.lxor (take n d) (take n e) ++ drop n d.
Proof.
  intros Hd He. unfold xor_with. rewrite (map_loop (fun j x => Z.lxor x (arr_get 0 e j))), <- !index_take by done. f_equal.
  generalize (seqZ 0 (Z.of_nat n)). intros l. induction l as [|i l IH]; [done|]. cbn [map zip_with]. by rewrite IH.
Qed.

(** Copies to the start and to an offset. *)
Lemma memcpy_0 d data : (length data <= length d)%nat -> memcpy d 0 data = Some (data ++ drop (length data) d).
Proof. intros. change 0 with (Z.of_nat 0). by rewrite memcpy_ok by lia. Qed.

Lemma memcpy_at a b data k : length a = k -> (length data <= length b)%nat ->
  memcpy (a ++ b) (Z.of_nat k) data = Some (a ++ data ++ drop (length data) b).
Proof.
  intros Ha Hd. rewrite memcpy_ok by (rewrite length_app; lia). rewrite take_app_le, take_ge, drop_app_ge by lia.
  do 3 f_equal. f_equal. lia.
Qed.

(** * Correctness *)

Lemma pad_length m : exists k, length (Fips.pad m) = (64 * k)%nat.
Proof.
  exists (Z.to_nat (Z.of_nat (length (Fips.pad m)) / 64)). unfold Fips.pad.
  rewrite !length_app, length_replicate, (proj2 (bytes_be 8 _)). cbn [length]. Z.div_mod_to_equations. lia.
Qed.

Lemma bytes_words l : bytes (concat (map (Fips.be_bytes 4) l)) /\ length (concat (map (Fips.be_bytes 4) l)) = (4 * length l)%nat.
Proof.
  induction l as [|x l [IH1 IH2]]; [split; [by constructor|done]|]. cbn [map concat].
  rewrite length_app, IH2, (proj2 (bytes_be 4 x)). unfold bytes. rewrite Forall_app. split; [split; [apply bytes_be|done]|cbn [length]; lia].
Qed.

Lemma hash_ok m : bytes m -> bytes (Fips.hash m) /\ length (Fips.hash m) = 32%nat.
Proof.
  intros Hm. destruct (pad_length m) as [k Hk].
  assert (Hp : bytes (Fips.pad m)).
  { unfold Fips.pad, bytes. rewrite !Forall_app. split_and!; [done| |apply bytes_zeros|apply bytes_be].
    constructor; [unfold inw; lia|by constructor]. }
  destruct (run_digest _ k Hk Hp) as [Hl _]. destruct (bytes_words (run (Fips.pad m))) as [H1 H2]. rewrite Hl in H2. done.
Qed.

Lemma key_block_ok key : bytes key -> bytes (Rfc.key_block key) /\ length (Rfc.key_block key) = 64%nat.
Proof.
  intros Hk. unfold Rfc.key_block. destruct (hash_ok key Hk) as [H1 H2]. rewrite length_app, length_replicate. unfold bytes. rewrite Forall_app.
  destruct (Nat.ltb_spec 64 (length key)); (split; [split; [done|apply bytes_zeros]|lia]).
Qed.

Lemma bytes_lxor c l : inw 8 c -> bytes l -> bytes (map (Z.lxor c) l).
Proof. intros Hc Hl. apply Forall_map. eapply Forall_impl; [exact Hl|]. intros x Hx. by apply inw_lxor. Qed.

Section HmacOk.
Context (small : bool) (stack K0 : list Z).
Context (stack_size : length stack = 64%nat) (K_size : length K0 = 96%nat).

(** The context after [m] under [key]. *)
Definition hmac_fed (key m : list Z) (s : HMAC_SHA256_CTX) : Prop :=
  let ipad := map (Z.lxor 0x36) (Rfc.key_block key) in
  absorbed (hmac_ctx s) (ipad ++ m) /\ length (hmac_K s) = 96%nat /\ take 64 (hmac_K s) = ipad.

Lemma key_copied key : bytes key -> Z.of_nat (length key) < 2 ^ 31 ->
  exists K, ('(K, l) ← (if HMAC_BLOCK_SIZE <? Z.of_nat (length key) then
               h ← SHA256 small stack key; K ← memcpy K0 0 h; Some (K, SHA256_DIGEST_LENGTH)
             else K ← memcpy K0 0 key; Some (K, Z.of_nat (length key)));
             memset K l 0 (HMAC_BLOCK_SIZE - l)) = Some K /\
    length K = 96%nat /\ take 64 K = Rfc.key_block key.
Proof using K_size stack_size.
  intros Hb Hl. destruct (hash_ok key Hb) as [_ Hh].
  assert (Hcopy : forall k, (length k <= 64)%nat -> exists K, (K ← memcpy K0 0 k; memset K (Z.of_nat (length k)) 0 (64 - Z.of_nat (length k))) = Some K /\
    length K = 96%nat /\ take 64 K = k ++ replicate (64 - length k) 0).
  { intros k Hk. rewrite memcpy_0 by lia. cbn [mbind option_bind]. unfold memset.
    replace (Z.to_nat (64 - Z.of_nat (length k))) with (64 - length k)%nat by lia.
    rewrite (memcpy_at k _ _ (length k)), length_replicate by (rewrite ?length_replicate, ?length_drop; lia).
    eexists. split; [done|]. rewrite !length_app, length_replicate, !length_drop. split; [lia|].
    rewrite app_assoc, take_app_le, take_ge by (rewrite length_app, length_replicate; lia). done. }
  unfold Rfc.key_block, HMAC_BLOCK_SIZE, SHA256_DIGEST_LENGTH. destruct (Z.ltb_spec 64 (Z.of_nat (length key))) as [Hlt|Hge].
  - rewrite (proj2 (Nat.ltb_lt 64 (length key))), sha256_ok by (done || lia). destruct (Hcopy (Fips.hash key)) as (K & EK & HK); [lia|].
    exists K. rewrite Hh in *. split; [|exact HK]. cbn [mbind option_bind]. rewrite <- EK. by destruct (memcpy K0 0 (Fips.hash key)).
  - rewrite (proj2 (Nat.ltb_ge 64 (length key))) by lia. destruct (Hcopy key) as (K & EK & HK); [lia|].
    exists K. split; [|exact HK]. rewrite <- EK. by destruct (memcpy K0 0 key).
Qed.

Lemma hmac_init_ok key : bytes key -> Z.of_nat (length key) < 2 ^ 31 ->
  exists s, hmac_sha256_init small stack K0 key = Some s /\ hmac_fed key [] s.
Proof using K_size stack_size.
  intros Hb Hl. destruct (key_copied key Hb Hl) as (K & EK & HK & Ht). destruct (key_block_ok key Hb) as [Hkb Hkl].
  set (ipad := map (Z.lxor 0x36) (Rfc.key_block key)). assert (Hx : xor_all 64 0x36 K = ipad ++ drop 64 K) by (by rewrite xor_all_ok, Ht by lia).
  assert (Hi : take 64 (ipad ++ drop 64 K) = ipad). { rewrite take_app_le, take_ge; unfold ipad; rewrite ?length_map; (done || lia). }
  destruct (update_ok small (SHA256_Init stack) [] ipad) as (s & Es & Ha); [by apply absorbed_init|
    apply bytes_lxor; [unfold inw; lia|done]|unfold ipad; rewrite length_map; lia|unfold ipad; rewrite length_map; cbn [length]; lia|].
  exists (mkHMAC s (ipad ++ drop 64 K)). unfold hmac_sha256_init. split.
  - revert EK. cbv zeta. generalize (SHA256_Init stack) Es. intros s0 Es'.
    destruct (if HMAC_BLOCK_SIZE <? _ then _ else _) as [[K1 l]|]; [|done]. intros EK. cbn [mbind option_bind] in EK |- *. rewrite EK.
    cbn [mbind option_bind]. by rewrite Hx, Hi, Es'.
  - unfold hmac_fed. cbv zeta. fold ipad. rewrite app_nil_r. split_and!; [done| |exact Hi]. cbn [hmac_K].
    rewrite length_app, length_drop. unfold ipad. rewrite length_map. lia.
Qed.

Lemma hmac_update_ok key m buf s : hmac_fed key m s -> bytes key -> bytes buf -> Z.of_nat (length buf) < 2 ^ 31 ->
  (Z.of_nat (length m) + Z.of_nat (length buf)) * 8 + 1024 < 2 ^ 64 ->
  exists s', hmac_sha256_update small s buf = Some s' /\ hmac_fed key (m ++ buf) s'.
Proof using small.
  clear stack_size K_size stack K0.
  intros (Ha & HK & Ht) Hk Hb Hl Hmax. destruct (key_block_ok key Hk) as [_ Hkl].
  destruct (update_ok small (hmac_ctx s) _ buf Ha Hb Hl) as (c & Ec & Hc). { rewrite length_app, length_map. lia. }
  exists (mkHMAC c (hmac_K s)). unfold hmac_sha256_update. rewrite Ec. split; [done|]. split; [by rewrite app_assoc|done].
Qed.

Lemma hmac_final_ok key m s : hmac_fed key m s -> bytes key -> bytes m ->
  Z.of_nat (length m) * 8 + 1024 < 2 ^ 64 -> hmac_sha256_final small stack s = Some (Rfc.hmac key m).
Proof using stack_size.
  clear K_size K0. intros (Ha & HK & Ht) Hk Hm Hmax. destruct (key_block_ok key Hk) as [Hkb Hkl]. unfold hmac_sha256_final, Rfc.hmac.
  rewrite (final_ok small _ _ Ha) by (rewrite length_app, length_map; lia). cbn [mbind option_bind].
  set (h := Fips.hash (map (Z.lxor 0x36) (Rfc.key_block key) ++ m)).
  assert (Hh : bytes h /\ length h = 32%nat). { apply hash_ok. apply Forall_app. split; [apply bytes_lxor; [unfold inw; lia|done]|done]. }
  destruct Hh as [Hhb Hhl]. rewrite <- (take_drop 64 (hmac_K s)), Ht. change HMAC_BLOCK_SIZE with (Z.of_nat 64).
  rewrite memcpy_at by (rewrite ?length_map, ?length_drop; lia). cbn [mbind option_bind].
  rewrite xor_all_ok by (rewrite length_app, length_map; lia).
  rewrite (take_app_length' (map _ (Rfc.key_block key))), drop_app_length' by (rewrite length_map; done).
  rewrite (drop_ge (drop 64 (hmac_K s))), app_nil_r, map_map by (rewrite length_drop; lia).
  rewrite (map_ext _ (Z.lxor 0x5c)) by (intros x; rewrite <- Z.lxor_assoc; done).
  rewrite take_ge by (rewrite length_app, length_map; lia). apply sha256_ok; [done| |].
  - apply Forall_app. split; [apply bytes_lxor; [unfold inw; lia|done]|done].
  - rewrite length_app, length_map. lia.
Qed.
Lemma hmac_ok key m : bytes key -> bytes m -> Z.of_nat (length key) < 2 ^ 31 -> Z.of_nat (length m) < 2 ^ 31 ->
  (s ← hmac_sha256_init small stack K0 key; s ← hmac_sha256_update small s m; hmac_sha256_final small stack s) = Some (Rfc.hmac key m).
Proof using K_size stack_size.
  intros Hk Hm Hkl Hml. destruct (hmac_init_ok key Hk Hkl) as (s & -> & Hs). cbn [mbind option_bind].
  destruct (hmac_update_ok key [] m s Hs Hk Hm Hml) as (s' & -> & Hs'); [cbn [length]; lia|]. cbn [mbind option_bind].
  apply hmac_final_ok; [done..|lia].
Qed.

Lemma rfc_hmac_ok key m : bytes key -> bytes m -> bytes (Rfc.hmac key m) /\ length (Rfc.hmac key m) = 32%nat.
Proof using.
  clear stack_size K_size stack K0 small. intros Hk Hm. destruct (key_block_ok key Hk) as [Hb _]. apply hash_ok.
  assert (Hin : bytes (map (Z.lxor 54) (Rfc.key_block key) ++ m)). { apply Forall_app. split; [apply bytes_lxor; [unfold inw; lia|done]|done]. }
  apply Forall_app. split; [apply bytes_lxor; [unfold inw; lia|done]|by apply hash_ok].
Qed.

(** The inner loop makes the exclusive or of the chain, for any tail of [U]. *)
Lemma pbkdf2_iter_ok n pwd F m rest : bytes pwd -> Z.of_nat (length pwd) < 2 ^ 31 -> length F = 32%nat -> bytes m ->
  (length m <= 36)%nat -> length (m ++ rest) = 36%nat ->
  exists U, pbkdf2_iter small stack K0 n pwd F (m ++ rest) (Z.of_nat (length m)) = Some (Rfc.xor_chain n pwd m F, U) /\ length U = 36%nat.
Proof using K_size stack_size.
  intros Hp Hpl. revert F m rest. induction n as [|n IH]; intros F m rest HF Hm Hml HU; [by exists (m ++ rest)|].
  cbn [pbkdf2_iter Rfc.xor_chain]. rewrite Nat2Z.id, take_app_length.
  pose proof (hmac_ok pwd m Hp Hm Hpl ltac:(lia)) as Hh. destruct (rfc_hmac_ok pwd m Hp Hm) as [Hb Hl].
  destruct (hmac_sha256_init small stack K0 pwd) as [s|]; [|done]. cbn [mbind option_bind] in Hh |- *.
  destruct (hmac_sha256_update small s m) as [s'|]; [|done]. cbn [mbind option_bind] in Hh |- *. rewrite Hh. cbn [mbind option_bind].
  rewrite memcpy_0 by lia. cbn [mbind option_bind]. set (U := Rfc.hmac pwd m) in *.
  rewrite xor_with_ok by (rewrite ?length_app; lia). rewrite take_app_length', take_ge, drop_ge, app_nil_r by lia.
  replace SHA256_DIGEST_LENGTH with (Z.of_nat (length U)) by (by rewrite Hl).
  apply IH; [rewrite length_zip_with; lia|done|lia|rewrite length_app, length_drop; lia].
Qed.
Lemma T_ok P S c i : bytes P -> bytes S -> length (Rfc.T P S c i) = 32%nat.
Proof using.
  clear stack_size K_size stack K0 small. intros HP HS. unfold Rfc.T.
  assert (Hm : bytes (S ++ Fips.be_bytes 4 i)) by (apply Forall_app; split; [done|apply bytes_be]).
  assert (Hl : length (replicate 32 0) = 32%nat) by apply length_replicate. revert Hm Hl. generalize (S ++ Fips.be_bytes 4 i) (replicate 32 0).
  induction c as [|c IH]; intros m acc Hm Hl; [done|]. cbn [Rfc.xor_chain]. destruct (rfc_hmac_ok P m HP Hm).
  apply IH; [done|]. rewrite length_zip_with. lia.
Qed.

(** The remaining blocks of the key, from block [i]. *)
Lemma pbkdf2_loop_ok fuel pwd salt U iter key_len i : bytes pwd -> bytes salt -> Z.of_nat (length pwd) < 2 ^ 31 ->
  (length salt <= 32)%nat -> length U = 36%nat -> key_len <= Z.of_nat fuel -> 0 <= i -> i + key_len < 2 ^ 32 -> 
  pbkdf2_loop small stack K0 fuel pwd salt U iter key_len i =
  Some (take (Z.to_nat key_len) (concat (map (Rfc.T pwd salt (Z.to_nat iter)) (seqZ i (Z.of_nat ((Z.to_nat key_len + 31) / 32)))))).
Proof using K_size stack_size.
  intros Hp Hs Hpl Hsl. revert U key_len i. induction fuel as [|fuel IH]; intros U key_len i HU Hf Hi Hmax; cbn [pbkdf2_loop].
  { rewrite (proj2 (Z.leb_le _ _)) by lia. replace (Z.to_nat key_len) with 0%nat by lia. done. }
  destruct (Z.leb_spec key_len 0) as [|Hk]; [replace (Z.to_nat key_len) with 0%nat by lia; done|].
  rewrite memcpy_0 by lia. cbn [mbind option_bind]. fold (put_be32 i).
  rewrite be_bytes_4 by (unfold inw; lia). destruct (bytes_be 4 i) as [Hb Hbl].
  rewrite (memcpy_at salt _ _ (length salt)) by (rewrite ?length_drop; lia). cbn [mbind option_bind]. rewrite Hbl, drop_drop, app_assoc.
  destruct (pbkdf2_iter_ok (Z.to_nat iter) pwd (replicate 32 0) (salt ++ Fips.be_bytes 4 i) (drop (length salt + 4) U)) as (U' & EU & HU'); try done.
  { apply Forall_app. done. } { rewrite length_app. lia. } { rewrite !length_app, length_drop. lia. }
  rewrite length_app, Nat2Z.inj_add, Hbl in EU. change (Z.of_nat 4) with 4 in EU. rewrite EU. cbn [mbind option_bind]. change (Rfc.xor_chain _ _ _ _) with (Rfc.T pwd salt (Z.to_nat iter) i).
  pose proof (T_ok pwd salt (Z.to_nat iter) i Hp Hs) as HT.
  unfold u32, uw. rewrite (Z.mod_small (i + 1)) by lia. set (l := min_int key_len SHA256_DIGEST_LENGTH).
  assert (Hl : l = Z.min key_len 32) by (unfold l, min_int, SHA256_DIGEST_LENGTH; case_match; lia). clearbody l.
  rewrite IH by (done || lia). cbn [mbind option_bind]. f_equal. symmetry.
  rewrite (seqZ_cons i) by (rewrite Nat2Z.inj_div; Z.div_mod_to_equations; lia). cbn [map concat]. rewrite take_app, HT.
  replace (Z.pred (Z.of_nat ((Z.to_nat key_len + 31) / 32))) with (Z.of_nat ((Z.to_nat (key_len - l) + 31) / 32)) by
    (rewrite !Nat2Z.inj_div, !Nat2Z.inj_add, !Z2Nat.id by lia; Z.div_mod_to_equations; lia).
  rewrite Z.add_1_r. f_equal; [|f_equal; lia]. destruct (Z.leb_spec key_len 32); [f_equal; lia|]. by rewrite !take_ge by lia.
Qed.
End HmacOk.

(** C21: the key [pbkdf2_hmac_sha256] derives is PBKDF2's of RFC 8018 with
    HMAC-SHA-256 (RFC 2104, FIPS 180-4) for every password, every salt of at most
    32 bytes, every iteration count and every key length, whatever the
    uninitialised arrays hold and in both variants of the hash; a longer salt is
    refused by its assertion. *)
Theorem pbkdf2_exact small stack K0 U0 pwd salt iter key_len :
  length stack = 64%nat -> length K0 = 96%nat -> length U0 = 36%nat ->
  Forall (inw 8) pwd -> Forall (inw 8) salt -> Z.of_nat (length pwd) < 2 ^ 31 -> key_len < 2 ^ 31 ->
  pbkdf2_hmac_sha256 small stack K0 U0 pwd salt iter key_len =
    if Z.of_nat (length salt) <=? 32 then Some (Rfc.pbkdf2 pwd salt (Z.to_nat iter) (Z.to_nat key_len)) else None.
Proof.
  intros Hst HK HU Hp Hs Hpl Hkl. unfold pbkdf2_hmac_sha256, SALT_LEN_MAX.
  destruct (Z.leb_spec (Z.of_nat (length salt)) 32); [rewrite (proj2 (Z.ltb_ge _ _)) by lia|by rewrite (proj2 (Z.ltb_lt _ _)) by lia].
  apply pbkdf2_loop_ok; (done || lia).
Qed.

Lemma pbkdf2_exact_witness :
  pbkdf2_hmac_sha256 true (replicate 64 1) (replicate 96 2) (replicate 36 3) [112; 119] [115; 97; 108; 116] 2 40 =
    Some (Rfc.pbkdf2 [112; 119] [115; 97; 108; 116] 2 40).
Proof.
  apply (pbkdf2_exact true (replicate 64 1) (replicate 96 2) (replicate 36 3) [112; 119] [115; 97; 108; 116] 2 40);
    try done; repeat constructor; unfold inw; lia.
Defined.
