(* ===== verification/Aes.v ===== *)
(** The AES block cipher of [lib/crypto/aes.cpp]: the key schedules, the table
    driven rounds (the loops, as [FULL_UNROLL] is undefined) and CBC.

    A pointer [rk] into the schedule is an offset into [rd_key]; [rd0] is what
    the key structure holds before the schedule is written. *)

From stdpp Require Import base numbers list.
From S2P Require Import Prelude Bytes AesTables.
Local Open Scope Z_scope.

Definition AES_BLOCK_SIZE : Z := 16.

#[projections(primitive)]
Record AES_KEY := mkAES_KEY { rd_key : list Z; rounds : Z }.

Definition GETU32 (pt : list Z) (k : Z) : Z :=
  Z.lxor (Z.lxor (Z.lxor (Z.shiftl (arr_get 0 pt k) 24) (Z.shiftl (arr_get 0 pt (k + 1)) 16))
    (Z.shiftl (arr_get 0 pt (k + 2)) 8)) (arr_get 0 pt (k + 3)).
Definition PUTU32 (st : Z) : list Z := [u8 (Z.shiftr st 24); u8 (Z.shiftr st 16); u8 (Z.shiftr st 8); u8 st].

(** The four bytes of a word, as the code takes them. *)
Definition byte3 (x : Z) : Z := Z.shiftr x 24.
Definition byte2 (x : Z) : Z := Z.land (Z.shiftr x 16) 0xff.
Definition byte1 (x : Z) : Z := Z.land (Z.shiftr x 8) 0xff.
Definition byte0 (x : Z) : Z := Z.land x 0xff.

(** * Key schedules *)

(** [temp] turned by a byte and substituted; and substituted only. *)
Definition rot_sub (temp : Z) : Z :=
  Z.lxor (Z.lxor (Z.lxor (Z.land (arr_get 0 Te4 (byte2 temp)) 0xff000000) (Z.land (arr_get 0 Te4 (byte1 temp)) 0x00ff0000))
    (Z.land (arr_get 0 Te4 (byte0 temp)) 0x0000ff00)) (Z.land (arr_get 0 Te4 (byte3 temp)) 0x000000ff).
Definition sub_only (temp : Z) : Z :=
  Z.lxor (Z.lxor (Z.lxor (Z.land (arr_get 0 Te4 (byte3 temp)) 0xff000000) (Z.land (arr_get 0 Te4 (byte2 temp)) 0x00ff0000))
    (Z.land (arr_get 0 Te4 (byte1 temp)) 0x0000ff00)) (Z.land (arr_get 0 Te4 (byte0 temp)) 0x000000ff).

(** [rk[d] = rk[a] ^ v;] and [rk[d] = rk[a] ^ rk[b];] *)
Definition set_xor (rk d a v : Z) (rd : list Z) : list Z := arr_set rd (rk + d) (Z.lxor (arr_get 0 rd (rk + a)) v).
Definition set_xor2 (rk d a b : Z) (rd : list Z) : list Z := set_xor rk d a (arr_get 0 rd (rk + b)) rd.

Fixpoint expand128 (fuel : nat) (rk i : Z) (rd : list Z) : list Z :=
  match fuel with
  | O => rd
  | S fuel =>
    let temp := arr_get 0 rd (rk + 3) in
    let rd := set_xor rk 4 0 (Z.lxor (rot_sub temp) (arr_get 0 rcon i)) rd in
    let rd := set_xor2 rk 5 1 4 rd in
    let rd := set_xor2 rk 6 2 5 rd in
    let rd := set_xor2 rk 7 3 6 rd in
    if i + 1 =? 10 then rd else expand128 fuel (rk + 4) (i + 1) rd
  end.

Fixpoint expand192 (fuel : nat) (rk i : Z) (rd : list Z) : list Z :=
  match fuel with
  | O => rd
  | S fuel =>
    let temp := arr_get 0 rd (rk + 5) in
    let rd := set_xor rk 6 0 (Z.lxor (rot_sub temp) (arr_get 0 rcon i)) rd in
    let rd := set_xor2 rk 7 1 6 rd in
    let rd := set_xor2 rk 8 2 7 rd in
    let rd := set_xor2 rk 9 3 8 rd in
    if i + 1 =? 8 then rd
    else let rd := set_xor2 rk 10 4 9 rd in
         let rd := set_xor2 rk 11 5 10 rd in
         expand192 fuel (rk + 6) (i + 1) rd
  end.

Fixpoint expand256 (fuel : nat) (rk i : Z) (rd : list Z) : list Z :=
  match fuel with
  | O => rd
  | S fuel =>
    let temp := arr_get 0 rd (rk + 7) in
    let rd := set_xor rk 8 0 (Z.lxor (rot_sub temp) (arr_get 0 rcon i)) rd in
    let rd := set_xor2 rk 9 1 8 rd in
    let rd := set_xor2 rk 10 2 9 rd in
    let rd := set_xor2 rk 11 3 10 rd in
    if i + 1 =? 7 then rd
    else let temp := arr_get 0 rd (rk + 11) in
         let rd := set_xor rk 12 4 (sub_only temp) rd in
         let rd := set_xor2 rk 13 5 12 rd in
         let rd := set_xor2 rk 14 6 13 rd in
         let rd := set_xor2 rk 15 7 14 rd in
         expand256 fuel (rk + 8) (i + 1) rd
  end.

(** [rk[from .. to) = GETU32(userKey + 4 * ...)] *)
Definition load_key (userKey : list Z) (from n : nat) (rd : list Z) : list Z :=
  for_each n (Z.of_nat from) (fun i rd => arr_set rd i (GETU32 userKey (4 * i))) rd.

Definition AES_set_encrypt_key (userKey : list Z) (bits : Z) (key : AES_KEY) : Z * AES_KEY :=
  if negb (bits =? 128) && negb (bits =? 192) && negb (bits =? 256) then (-2, key)
  else
    let nr := if bits =? 128 then 10 else if bits =? 192 then 12 else 14 in
    let rd := load_key userKey 0 4 (rd_key key) in
    if bits =? 128 then (0, mkAES_KEY (expand128 10 0 0 rd) nr)
    else
      let rd := load_key userKey 4 2 rd in
      if bits =? 192 then (0, mkAES_KEY (expand192 8 0 0 rd) nr)
      else
        let rd := load_key userKey 6 2 rd in
        if bits =? 256 then (0, mkAES_KEY (expand256 7 0 0 rd) nr)
        else (0, mkAES_KEY rd nr).

(** [temp = rk[i]; rk[i] = rk[j]; rk[j] = temp;] *)
Definition swap (i j : Z) (rd : list Z) : list Z :=
  let temp := arr_get 0 rd i in arr_set (arr_set rd i (arr_get 0 rd j)) j temp.

Fixpoint invert_order (fuel : nat) (i j : Z) (rd : list Z) : list Z :=
  if i <? j then
    match fuel with
    | O => rd
    | S fuel =>
      let rd := swap i j rd in
      let rd := swap (i + 1) (j + 1) rd in
      let rd := swap (i + 2) (j + 2) rd in
      let rd := swap (i + 3) (j + 3) rd in
      invert_order fuel (i + 4) (j - 4) rd
    end
  else rd.

Definition inv_mix_word (w : Z) : Z :=
  Z.lxor (Z.lxor (Z.lxor (arr_get 0 Td0 (Z.land (arr_get 0 Te4 (byte3 w)) 0xff)) (arr_get 0 Td1 (Z.land (arr_get 0 Te4 (byte2 w)) 0xff)))
    (arr_get 0 Td2 (Z.land (arr_get 0 Te4 (byte1 w)) 0xff))) (arr_get 0 Td3 (Z.land (arr_get 0 Te4 (byte0 w)) 0xff)).

(** The schedule, from the word [rk + 4] of round 1. *)
Definition inv_mix_keys (nr : Z) (rd : list Z) : list Z :=
  for_each (Z.to_nat (nr - 1)) 1 (fun i rd =>
    for_each 4 0 (fun k rd => arr_set rd (4 * i + k) (inv_mix_word (arr_get 0 rd (4 * i + k)))) rd) rd.

Definition AES_set_decrypt_key (userKey : list Z) (bits : Z) (key : AES_KEY) : Z * AES_KEY :=
  let '(status, key) := AES_set_encrypt_key userKey bits key in
  if status <? 0 then (status, key)
  else
    let rd := invert_order (Z.to_nat (rounds key)) 0 (4 * rounds key) (rd_key key) in
    (0, mkAES_KEY (inv_mix_keys (rounds key) rd) (rounds key)).

(** * Rounds *)

(** The state: [s0], ..., [s3]. *)
Definition quad : Type := Z * Z * Z * Z.

Definition load_block (in_ rd : list Z) : quad :=
  (Z.lxor (GETU32 in_ 0) (arr_get 0 rd 0), Z.lxor (GETU32 in_ 4) (arr_get 0 rd 1),
   Z.lxor (GETU32 in_ 8) (arr_get 0 rd 2), Z.lxor (GETU32 in_ 12) (arr_get 0 rd 3)).

Definition te_word (a b c d k : Z) : Z :=
  Z.lxor (Z.lxor (Z.lxor (Z.lxor (arr_get 0 Te0 (byte3 a)) (arr_get 0 Te1 (byte2 b))) (arr_get 0 Te2 (byte1 c)))
    (arr_get 0 Te3 (byte0 d))) k.
Definition te_round (rd : list Z) (rk : Z) (s : quad) : quad :=
  let '(s0, s1, s2, s3) := s in
  (te_word s0 s1 s2 s3 (arr_get 0 rd rk), te_word s1 s2 s3 s0 (arr_get 0 rd (rk + 1)),
   te_word s2 s3 s0 s1 (arr_get 0 rd (rk + 2)), te_word s3 s0 s1 s2 (arr_get 0 rd (rk + 3))).

Definition te4_word (a b c d k : Z) : Z :=
  Z.lxor (Z.lxor (Z.lxor (Z.lxor (Z.land (arr_get 0 Te4 (byte3 a)) 0xff000000) (Z.land (arr_get 0 Te4 (byte2 b)) 0x00ff0000))
    (Z.land (arr_get 0 Te4 (byte1 c)) 0x0000ff00)) (Z.land (arr_get 0 Te4 (byte0 d)) 0x000000ff)) k.
Definition te4_round (rd : list Z) (rk : Z) (t : quad) : quad :=
  let '(t0, t1, t2, t3) := t in
  (te4_word t0 t1 t2 t3 (arr_get 0 rd rk), te4_word t1 t2 t3 t0 (arr_get 0 rd (rk + 1)),
   te4_word t2 t3 t0 t1 (arr_get 0 rd (rk + 2)), te4_word t3 t0 t1 t2 (arr_get 0 rd (rk + 3))).

Definition td_word (a b c d k : Z) : Z :=
  Z.lxor (Z.lxor (Z.lxor (Z.lxor (arr_get 0 Td0 (byte3 a)) (arr_get 0 Td1 (byte2 b))) (arr_get 0 Td2 (byte1 c)))
    (arr_get 0 Td3 (byte0 d))) k.
Definition td_round (rd : list Z) (rk : Z) (s : quad) : quad :=
  let '(s0, s1, s2, s3) := s in
  (td_word s0 s3 s2 s1 (arr_get 0 rd rk), td_word s1 s0 s3 s2 (arr_get 0 rd (rk + 1)),
   td_word s2 s1 s0 s3 (arr_get 0 rd (rk + 2)), td_word s3 s2 s1 s0 (arr_get 0 rd (rk + 3))).

Definition td4_word (a b c d k : Z) : Z :=
  Z.lxor (Z.lxor (Z.lxor (Z.lxor (Z.land (arr_get 0 Td4 (byte3 a)) 0xff000000) (Z.land (arr_get 0 Td4 (byte2 b)) 0x00ff0000))
    (Z.land (arr_get 0 Td4 (byte1 c)) 0x0000ff00)) (Z.land (arr_get 0 Td4 (byte0 d)) 0x000000ff)) k.
Definition td4_round (rd : list Z) (rk : Z) (t : quad) : quad :=
  let '(t0, t1, t2, t3) := t in
  (td4_word t0 t3 t2 t1 (arr_get 0 rd rk), td4_word t1 t0 t3 t2 (arr_get 0 rd (rk + 1)),
   td4_word t2 t1 t0 t3 (arr_get 0 rd (rk + 2)), td4_word t3 t2 t1 t0 (arr_get 0 rd (rk + 3))).

(** The loop over pairs of rounds: the state [t] and the offset [rk] it ends with. *)
Fixpoint round_loop (round : list Z -> Z -> quad -> quad) (fuel : nat) (rd : list Z) (rk r : Z) (s : quad) : quad * Z :=
  let t := round rd (rk + 4) s in
  let rk := rk + 8 in
  if r - 1 =? 0 then (t, rk)
  else match fuel with
  | O => (t, rk)
  | S fuel => round_loop round fuel rd rk (r - 1) (round rd rk t)
  end.

Definition store_block (s : quad) : list Z :=
  let '(s0, s1, s2, s3) := s in PUTU32 s0 ++ PUTU32 s1 ++ PUTU32 s2 ++ PUTU32 s3.

Definition AES_encrypt (in_ : list Z) (key : AES_KEY) : list Z :=
  let r := Z.shiftr (rounds key) 1 in
  let '(t, rk) := round_loop te_round (Z.to_nat r) (rd_key key) 0 r (load_block in_ (rd_key key)) in
  store_block (te4_round (rd_key key) rk t).

Definition AES_decrypt (in_ : list Z) (key : AES_KEY) : list Z :=
  let r := Z.shiftr (rounds key) 1 in
  let '(t, rk) := round_loop td_round (Z.to_nat r) (rd_key key) 0 r (load_block in_ (rd_key key)) in
  store_block (td4_round (rd_key key) rk t).
