(* ===== verification/AesOk.v ===== *)
(** The cipher of [lib/crypto/aes.cpp] computes FIPS 197's: the standard, from
    the field GF(2^8) up; the tables against it; the key schedules; the rounds. *)

From stdpp Require Import base numbers list.
From S2P Require Import Prelude Bytes Sha256Ok AesTables Aes.
Local Open Scope Z_scope.

(** * The standard *)

Module Fips197.
(** Multiplication by [x], and of [a] by [c], modulo [x^8 + x^4 + x^3 + x + 1]. *)
Definition xtime (a : Z) : Z := Z.lxor (Z.shiftl (Z.land a 0x7f) 1) (if Z.testbit a 7 then 0x1b else 0).
Definition mul (c a : Z) : Z :=
  foldr Z.lxor 0 (map (fun i => if Z.testbit c (Z.of_nat i) then Nat.iter i xtime a else 0) (seq 0 8)).

(** The inverse of a byte (zero has itself), the affine transformation and its
    inverse. *)
Definition inv (a : Z) : Z := default 0 (list_find (fun b => mul a b = 1) (seqZ 0 256) ≫= fun p => Some p.2).
Definition rotl8 (k b : Z) : Z := (b * 2 ^ k + b / 2 ^ (8 - k)) mod 256.
Definition affine (b : Z) : Z := foldr Z.lxor 0x63 (map (fun k => rotl8 k b) [0; 1; 2; 3; 4]).
Definition inv_affine (b : Z) : Z := foldr Z.lxor 0x05 (map (fun k => rotl8 k b) [1; 3; 6]).
Definition sbox (a : Z) : Z := affine (inv a).
Definition inv_sbox (y : Z) : Z := inv (inv_affine y).

(** The state: its columns. *)
Definition state : Type := list (list Z).
Definition at_ (st : state) (r c : nat) : Z := nth r (nth (c mod 4) st []) 0.
Definition SubBytes : state -> state := map (map sbox).
Definition InvSubBytes : state -> state := map (map inv_sbox).
Definition ShiftRows (st : state) : state := map (fun c => map (fun r => at_ st r (c + r)) (seq 0 4)) (seq 0 4).
Definition InvShiftRows (st : state) : state := map (fun c => map (fun r => at_ st r (c + 4 - r)) (seq 0 4)) (seq 0 4).
(** The product of a column by the circulant matrix of first row [m]. *)
Definition circulant (m col : list Z) : list Z :=
  map (fun r => foldr Z.lxor 0 (map (fun j => mul (nth ((j + 4 - r) mod 4) m 0) (nth j col 0)) (seq 0 4))) (seq 0 4).
Definition MixColumns : state -> state := map (circulant [2; 3; 1; 1]).
Definition InvMixColumns : state -> state := map (circulant [14; 11; 13; 9]).
Definition AddRoundKey (k st : state) : state := zip_with (zip_with Z.lxor) st k.

(** The key schedule: the next word after [w], for a key of [Nk] words. *)
Definition RotWord (w : list Z) : list Z := drop 1 w ++ take 1 w.
Definition SubWord (w : list Z) : list Z := map sbox w.
Definition Rcon (i : nat) : list Z := [Nat.iter (i - 1) xtime 1; 0; 0; 0].
Definition next_word (Nk : nat) (w : list (list Z)) : list Z :=
  let i := length w in
  let temp := nth (i - 1) w [] in
  let temp := if (i mod Nk =? 0)%nat then zip_with Z.lxor (SubWord (RotWord temp)) (Rcon (i / Nk))
              else if (6 <? Nk)%nat && (i mod Nk =? 4)%nat then SubWord temp else temp in
  zip_with Z.lxor (nth (i - Nk) w []) temp.
Fixpoint columns (n : nat) (l : list Z) : list (list Z) :=
  match n with O => [] | S n => take 4 l :: columns n (drop 4 l) end.
Definition KeyExpansion (Nk Nr : nat) (key : list Z) : list (list Z) :=
  Nat.iter (4 * (Nr + 1) - Nk) (fun w => w ++ [next_word Nk w]) (columns Nk key).
Definition round_key (w : list (list Z)) (r : nat) : state := take 4 (drop (4 * r) w).

Definition Cipher (Nr : nat) (w : list (list Z)) (in_ : list Z) : list Z :=
  let st := AddRoundKey (round_key w 0) (columns 4 in_) in
  let st := foldl (fun st r => AddRoundKey (round_key w r) (MixColumns (ShiftRows (SubBytes st)))) st (seq 1 (Nr - 1)) in
  concat (AddRoundKey (round_key w Nr) (ShiftRows (SubBytes st))).
Definition InvCipher (Nr : nat) (w : list (list Z)) (in_ : list Z) : list Z :=
  let st := AddRoundKey (round_key w Nr) (columns 4 in_) in
  let st := foldl (fun st r => InvMixColumns (AddRoundKey (round_key w r) (InvSubBytes (InvShiftRows st)))) st (reverse (seq 1 (Nr - 1))) in
  concat (AddRoundKey (round_key w 0) (InvSubBytes (InvShiftRows st))).
End Fips197.

(** * The field *)

Lemma byte_forall (P : Z -> bool) : forallb P (seqZ 0 256) = true -> forall x, inw 8 x -> P x = true.
Proof. intros H x Hx. rewrite forallb_forall in H. apply H, list_elem_of_In, elem_of_seqZ. unfold inw in Hx. lia. Qed.

Lemma xtime_lxor a b : Fips197.xtime (Z.lxor a b) = Z.lxor (Fips197.xtime a) (Fips197.xtime b).
Proof.
  unfold Fips197.xtime. rewrite Z.lxor_spec. replace (Z.land (Z.lxor a b) 0x7f) with (Z.lxor (Z.land a 0x7f) (Z.land b 0x7f)).
  2:{ bits_at i Hi. rewrite !Z.lxor_spec, !Z.land_spec, Z.lxor_spec. by destruct (Z.testbit a i), (Z.testbit b i), (Z.testbit 0x7f i). }
  rewrite Z.shiftl_lxor. bits_at i Hi. rewrite !Z.lxor_spec.
  destruct (Z.testbit a 7), (Z.testbit b 7); cbn [xorb];
    destruct (Z.testbit (Z.shiftl (Z.land a 0x7f) 1) i), (Z.testbit (Z.shiftl (Z.land b 0x7f) 1) i), (Z.testbit 0x1b i); by rewrite ?Z.bits_0.
Qed.

Lemma lxor_swap a b c d : Z.lxor (Z.lxor a b) (Z.lxor c d) = Z.lxor (Z.lxor a c) (Z.lxor b d).
Proof. rewrite !Z.lxor_assoc. f_equal. rewrite <- !Z.lxor_assoc. f_equal. apply Z.lxor_comm. Qed.

Lemma sum_lxor {A} (f g : A -> Z) l :
  foldr Z.lxor 0 (map (fun i => Z.lxor (f i) (g i)) l) = Z.lxor (foldr Z.lxor 0 (map f l)) (foldr Z.lxor 0 (map g l)).
Proof. induction l as [|x l IH]; [done|]. cbn [map foldr]. rewrite IH. apply lxor_swap. Qed.

Lemma mul_lxor c a b : Fips197.mul c (Z.lxor a b) = Z.lxor (Fips197.mul c a) (Fips197.mul c b).
Proof.
  unfold Fips197.mul. rewrite <- sum_lxor. f_equal. apply map_ext. intros i. destruct (Z.testbit c (Z.of_nat i)); [|done].
  induction i as [|i IH]; [done|]. rewrite !Nat.iter_succ, IH. apply xtime_lxor.
Qed.

Lemma zip_map {A} (f g : A -> Z) l : zip_with Z.lxor (map f l) (map g l) = map (fun i => Z.lxor (f i) (g i)) l.
Proof. induction l as [|x l IH]; [done|]. cbn [map zip_with]. by rewrite IH. Qed.

Lemma nth_zip u v j : length u = length v -> nth j (zip_with Z.lxor u v) 0 = Z.lxor (nth j u 0) (nth j v 0).
Proof. revert v j. induction u as [|x u IH]; intros [|y v] [|j]; try done. cbn. intros [= H]. by apply IH. Qed.

Lemma circulant_lxor m u v : length u = length v ->
  Fips197.circulant m (zip_with Z.lxor u v) = zip_with Z.lxor (Fips197.circulant m u) (Fips197.circulant m v).
Proof.
  intros H. unfold Fips197.circulant. rewrite zip_map. apply map_ext. intros r. rewrite <- sum_lxor. f_equal.
  apply map_ext. intros j. by rewrite nth_zip, mul_lxor.
Qed.

Lemma inw_xtime a : inw 8 a -> inw 8 (Fips197.xtime a).
Proof. intros Ha. apply inw_lxor; [done| |by destruct (Z.testbit a 7); auto with inw].
  change 0x7f with (Z.ones 7). rewrite Z.land_ones, Z.shiftl_mul_pow2 by lia. unfold inw. pose proof (Z.mod_pos_bound a (2 ^ 7)). lia.
Qed.

Lemma inw_mul c a : inw 8 a -> inw 8 (Fips197.mul c a).
Proof.
  intros Ha. unfold Fips197.mul. generalize (seq 0 8). intros l. induction l as [|i l IH]; [by apply inw_0|]. cbn [map foldr].
  apply inw_lxor; [done| |done]. destruct (Z.testbit c (Z.of_nat i)); [|by apply inw_0].
  induction i as [|i IHi]; [done|]. rewrite Nat.iter_succ. by apply inw_xtime.
Qed.

(** * Words and their bytes *)

(** A column: four bytes. *)
Definition col (c : list Z) : Prop := length c = 4%nat /\ bytes c.
Definition word (c : list Z) : Z := GETU32 c 0.
Definition unit (i : nat) (x : Z) : list Z := <[i := x]> (replicate 4 0).

Ltac columns :=
  repeat match goal with
  | H : col ?c |- _ => is_var c; let Hl := fresh in let Hb := fresh in destruct H as [Hl Hb];
      destruct c as [|? [|? [|? [|? [|]]]]]; try done; clear Hl; unfold bytes in Hb; rewrite !Forall_cons in Hb; destruct_and! Hb
  end.

Lemma word_eq a b c d : word [a; b; c; d] = Z.lxor (Z.lxor (Z.lxor (Z.shiftl a 24) (Z.shiftl b 16)) (Z.shiftl c 8)) d.
Proof. done. Qed.

Lemma word_lxor u v : length u = 4%nat -> length v = 4%nat -> Z.lxor (word u) (word v) = word (zip_with Z.lxor u v).
Proof.
  intros Hu Hv. destruct u as [|u0 [|u1 [|u2 [|u3 [|]]]]], v as [|v0 [|v1 [|v2 [|v3 [|]]]]]; try done.
  cbn [zip_with]. rewrite !word_eq, !Z.shiftl_lxor. by rewrite lxor_swap, (lxor_swap (Z.lxor (Z.shiftl u0 24) (Z.shiftl u1 16))), (lxor_swap (Z.shiftl u0 24)).
Qed.

Lemma lxor_disjoint a b n : 0 <= n -> 0 <= b < 2 ^ n -> Z.lxor (Z.shiftl a n) b = a * 2 ^ n + b.
Proof.
  intros Hn Hb. rewrite <- Z.add_nocarry_lxor, Z.shiftl_mul_pow2; [done..|]. bits_at i Hi. rewrite Z.land_spec, Z.bits_0.
  destruct (Z.ltb_spec i n); [rewrite Z.shiftl_spec_low by done; done|].
  rewrite (inw_high n b), andb_false_r by (unfold inw; lia). done.
Qed.

Lemma word_value c : col c -> word c = nth 0 c 0 * 2 ^ 24 + (nth 1 c 0 * 2 ^ 16 + (nth 2 c 0 * 2 ^ 8 + nth 3 c 0)).
Proof.
  intros Hc. columns. rewrite word_eq. cbn [nth]. unfold inw in *. rewrite !Z.lxor_assoc.
  repeat match goal with |- context [Z.lxor (Z.shiftl ?a ?n) ?b] => rewrite (lxor_disjoint a b n) by lia end. done.
Qed.

Lemma word_bytes c : col c ->
  byte3 (word c) = nth 0 c 0 /\ byte2 (word c) = nth 1 c 0 /\ byte1 (word c) = nth 2 c 0 /\ byte0 (word c) = nth 3 c 0.
Proof.
  intros Hc. rewrite word_value by done. columns. unfold byte3, byte2, byte1, byte0, inw in *. cbn [nth].
  change 0xff with (Z.ones 8). rewrite !Z.land_ones, !Z.shiftr_div_pow2 by lia. split_and!; Z.div_mod_to_equations; lia.
Qed.

(** * The tables *)

Lemma sbox_table x : inw 8 x -> Fips197.sbox x = Z.land (arr_get 0 Te4 x) 0xff.
Proof. rewrite <- Z.eqb_eq. revert x. apply byte_forall. by vm_compute. Qed.

Lemma inv_sbox_table x : inw 8 x -> Fips197.inv_sbox x = Z.land (arr_get 0 Td4 x) 0xff.
Proof. rewrite <- Z.eqb_eq. revert x. apply byte_forall. by vm_compute. Qed.

Lemma Te_spec x : inw 8 x ->
  arr_get 0 Te0 x = word (Fips197.circulant [2; 3; 1; 1] (unit 0 (Fips197.sbox x))) /\
  arr_get 0 Te1 x = word (Fips197.circulant [2; 3; 1; 1] (unit 1 (Fips197.sbox x))) /\
  arr_get 0 Te2 x = word (Fips197.circulant [2; 3; 1; 1] (unit 2 (Fips197.sbox x))) /\
  arr_get 0 Te3 x = word (Fips197.circulant [2; 3; 1; 1] (unit 3 (Fips197.sbox x))).
Proof. intros Hx. rewrite sbox_table by done. rewrite <- !Z.eqb_eq, <- !andb_true_iff. revert x Hx. apply byte_forall. by vm_compute. Qed.

Lemma Td_spec x : inw 8 x ->
  arr_get 0 Td0 x = word (Fips197.circulant [14; 11; 13; 9] (unit 0 (Fips197.inv_sbox x))) /\
  arr_get 0 Td1 x = word (Fips197.circulant [14; 11; 13; 9] (unit 1 (Fips197.inv_sbox x))) /\
  arr_get 0 Td2 x = word (Fips197.circulant [14; 11; 13; 9] (unit 2 (Fips197.inv_sbox x))) /\
  arr_get 0 Td3 x = word (Fips197.circulant [14; 11; 13; 9] (unit 3 (Fips197.inv_sbox x))).
Proof. intros Hx. rewrite inv_sbox_table by done. rewrite <- !Z.eqb_eq, <- !andb_true_iff. revert x Hx. apply byte_forall. by vm_compute. Qed.

Lemma Te4_spec x : inw 8 x ->
  Z.land (arr_get 0 Te4 x) 0xff000000 = word (unit 0 (Fips197.sbox x)) /\
  Z.land (arr_get 0 Te4 x) 0x00ff0000 = word (unit 1 (Fips197.sbox x)) /\
  Z.land (arr_get 0 Te4 x) 0x0000ff00 = word (unit 2 (Fips197.sbox x)) /\
  Z.land (arr_get 0 Te4 x) 0x000000ff = word (unit 3 (Fips197.sbox x)).
Proof. intros Hx. rewrite sbox_table by done. rewrite <- !Z.eqb_eq, <- !andb_true_iff. revert x Hx. apply byte_forall. by vm_compute. Qed.

Lemma Td4_spec x : inw 8 x ->
  Z.land (arr_get 0 Td4 x) 0xff000000 = word (unit 0 (Fips197.inv_sbox x)) /\
  Z.land (arr_get 0 Td4 x) 0x00ff0000 = word (unit 1 (Fips197.inv_sbox x)) /\
  Z.land (arr_get 0 Td4 x) 0x0000ff00 = word (unit 2 (Fips197.inv_sbox x)) /\
  Z.land (arr_get 0 Td4 x) 0x000000ff = word (unit 3 (Fips197.inv_sbox x)).
Proof. intros Hx. rewrite inv_sbox_table by done. rewrite <- !Z.eqb_eq, <- !andb_true_iff. revert x Hx. apply byte_forall. by vm_compute. Qed.

Lemma sbox_spec x : inw 8 x -> inw 8 (Fips197.sbox x) /\ inw 8 (Fips197.inv_sbox x) /\
  Fips197.inv_sbox (Fips197.sbox x) = x.
Proof.
  intros Hx. assert (Hb : forall y, inw 8 (Z.land y 0xff)) by (intros; change 0xff with (Z.ones 8); rewrite Z.land_ones by lia; apply Z.mod_pos_bound; lia).
  rewrite sbox_table, (inv_sbox_table x), inv_sbox_table by done. split_and!; [done..|].
  rewrite <- Z.eqb_eq. revert x Hx. apply byte_forall. by vm_compute.
Qed.

Lemma mds_units x : inw 8 x -> forall i, (i < 4)%nat -> Fips197.circulant [14; 11; 13; 9] (Fips197.circulant [2; 3; 1; 1] (unit i x)) = unit i x.
Proof.
  intros Hx. assert (Hall : forallb (fun i => bool_decide (Fips197.circulant [14; 11; 13; 9] (Fips197.circulant [2; 3; 1; 1] (unit i x)) = unit i x)) (seq 0 4) = true).
  { revert x Hx. apply (byte_forall (fun x => forallb _ (seq 0 4))). by vm_compute. }
  intros i Hi. rewrite forallb_forall in Hall. eapply bool_decide_eq_true_1, Hall, in_seq. lia.
Qed.

(** * Rounds *)

Create HintDb aes.
Opaque Fips197.sbox Fips197.inv_sbox Fips197.mul.

Lemma circulant_length m c : length (Fips197.circulant m c) = 4%nat.
Proof. done. Qed.
Lemma unit_length i x : length (unit i x) = 4%nat.
Proof. unfold unit. by rewrite length_insert. Qed.

Lemma units a b c d : zip_with Z.lxor (zip_with Z.lxor (zip_with Z.lxor (unit 0 a) (unit 1 b)) (unit 2 c)) (unit 3 d) = [a; b; c; d].
Proof. cbn. by rewrite !Z.lxor_0_r. Qed.

(** The bytes a row of lookups takes: the diagonal, through [f]. *)
Definition diagonal (f : Z -> Z) (A B C D : list Z) : list Z := [f (nth 0 A 0); f (nth 1 B 0); f (nth 2 C 0); f (nth 3 D 0)].

Lemma nth_byte c i : col c -> inw 8 (nth i c 0).
Proof.
  intros [_ Hb]. destruct (Nat.lt_ge_cases i (length c)); [|rewrite nth_overflow by done; by apply inw_0].
  eapply Forall_forall in Hb; [exact Hb|]. apply list_elem_of_In. by apply nth_In.
Qed.

(** A row of lookups whose tables are the columns of a linear [g] after [f]. *)
Section Lookups.
Context (f : Z -> Z) (g : list Z -> list Z) (t0 t1 t2 t3 : Z -> Z).
Context (table : forall x, inw 8 x ->
  t0 x = word (g (unit 0 (f x))) /\ t1 x = word (g (unit 1 (f x))) /\ t2 x = word (g (unit 2 (f x))) /\ t3 x = word (g (unit 3 (f x)))).
Context (g_lxor : forall u v, length u = 4%nat -> length v = 4%nat -> g (zip_with Z.lxor u v) = zip_with Z.lxor (g u) (g v)).
Context (g_length : forall u, length u = 4%nat -> length (g u) = 4%nat).

Lemma lookups A B C D : col A -> col B -> col C -> col D ->
  Z.lxor (Z.lxor (Z.lxor (t0 (byte3 (word A))) (t1 (byte2 (word B)))) (t2 (byte1 (word C)))) (t3 (byte0 (word D))) =
  word (g (diagonal f A B C D)).
Proof using table g_lxor g_length.
  intros HA HB HC HD. rewrite (proj1 (word_bytes A HA)), (proj1 (proj2 (word_bytes B HB))),
    (proj1 (proj2 (proj2 (word_bytes C HC)))), (proj2 (proj2 (proj2 (word_bytes D HD)))).
  rewrite (proj1 (table _ (nth_byte A 0 HA))), (proj1 (proj2 (table _ (nth_byte B 1 HB)))),
    (proj1 (proj2 (proj2 (table _ (nth_byte C 2 HC))))), (proj2 (proj2 (proj2 (table _ (nth_byte D 3 HD))))).
  rewrite !word_lxor, <- !g_lxor, units; rewrite ?length_zip_with, ?g_length, ?unit_length; auto.
Qed.

Lemma lookups_key A B C D K : col A -> col B -> col C -> col D -> col K ->
  Z.lxor (Z.lxor (Z.lxor (Z.lxor (t0 (byte3 (word A))) (t1 (byte2 (word B)))) (t2 (byte1 (word C)))) (t3 (byte0 (word D)))) (word K) =
  word (zip_with Z.lxor (g (diagonal f A B C D)) K).
Proof using table g_lxor g_length. intros. rewrite lookups, word_lxor by (done || by apply g_length || apply H3). done. Qed.
End Lookups.

Definition mix : list Z -> list Z := Fips197.circulant [2; 3; 1; 1].
Definition inv_mix : list Z -> list Z := Fips197.circulant [14; 11; 13; 9].

Lemma mix_lxor u v : length u = 4%nat -> length v = 4%nat -> mix (zip_with Z.lxor u v) = zip_with Z.lxor (mix u) (mix v).
Proof. intros. apply circulant_lxor. lia. Qed.
Lemma inv_mix_lxor u v : length u = 4%nat -> length v = 4%nat -> inv_mix (zip_with Z.lxor u v) = zip_with Z.lxor (inv_mix u) (inv_mix v).
Proof. intros. apply circulant_lxor. lia. Qed.

Section Words.
Context (A B C D K : list Z) (HA : col A) (HB : col B) (HC : col C) (HD : col D) (HK : col K).

Lemma te_word_ok : te_word (word A) (word B) (word C) (word D) (word K) = word (zip_with Z.lxor (mix (diagonal Fips197.sbox A B C D)) K).
Proof using HA HB HC HD HK. apply (lookups_key _ mix (arr_get 0 Te0) (arr_get 0 Te1) (arr_get 0 Te2) (arr_get 0 Te3)); auto using Te_spec, mix_lxor. Qed.

Lemma td_word_ok : td_word (word A) (word B) (word C) (word D) (word K) = word (zip_with Z.lxor (inv_mix (diagonal Fips197.inv_sbox A B C D)) K).
Proof using HA HB HC HD HK. apply (lookups_key _ inv_mix (arr_get 0 Td0) (arr_get 0 Td1) (arr_get 0 Td2) (arr_get 0 Td3)); auto using Td_spec, inv_mix_lxor. Qed.

Lemma te4_word_ok : te4_word (word A) (word B) (word C) (word D) (word K) = word (zip_with Z.lxor (diagonal Fips197.sbox A B C D) K).
Proof using HA HB HC HD HK.
  apply (lookups_key _ id (fun x => Z.land (arr_get 0 Te4 x) 0xff000000) (fun x => Z.land (arr_get 0 Te4 x) 0x00ff0000)
    (fun x => Z.land (arr_get 0 Te4 x) 0x0000ff00) (fun x => Z.land (arr_get 0 Te4 x) 0x000000ff)); auto using Te4_spec.
Qed.

Lemma td4_word_ok : td4_word (word A) (word B) (word C) (word D) (word K) = word (zip_with Z.lxor (diagonal Fips197.inv_sbox A B C D) K).
Proof using HA HB HC HD HK.
  apply (lookups_key _ id (fun x => Z.land (arr_get 0 Td4 x) 0xff000000) (fun x => Z.land (arr_get 0 Td4 x) 0x00ff0000)
    (fun x => Z.land (arr_get 0 Td4 x) 0x0000ff00) (fun x => Z.land (arr_get 0 Td4 x) 0x000000ff)); auto using Td4_spec.
Qed.
End Words.

(** The words of the key schedules. *)
Lemma diagonal_same f A : col A -> diagonal f A A A A = map f A.
Proof. intros HA. by columns. Qed.

Lemma sub_only_ok A : col A -> sub_only (word A) = word (Fips197.SubWord A).
Proof.
  intros HA. unfold sub_only, Fips197.SubWord. rewrite <- diagonal_same by done.
  apply (lookups Fips197.sbox id (fun x => Z.land (arr_get 0 Te4 x) 0xff000000) (fun x => Z.land (arr_get 0 Te4 x) 0x00ff0000)
    (fun x => Z.land (arr_get 0 Te4 x) 0x0000ff00) (fun x => Z.land (arr_get 0 Te4 x) 0x000000ff)); auto using Te4_spec.
Qed.

Lemma col_rot A : col A -> col (Fips197.RotWord A).
Proof. intros HA. columns. by split; [done|repeat apply Forall_cons_2]. Qed.

Lemma rot_sub_ok A : col A -> rot_sub (word A) = word (Fips197.SubWord (Fips197.RotWord A)).
Proof.
  intros HA. pose proof (col_rot A HA) as HR. rewrite <- sub_only_ok by done. unfold rot_sub, sub_only.
  destruct (word_bytes A HA) as (-> & -> & -> & ->), (word_bytes _ HR) as (-> & -> & -> & ->). by columns.
Qed.

Lemma inv_mix_word_ok A : col A -> inv_mix_word (word A) = word (inv_mix A).
Proof.
  intros HA. unfold inv_mix_word. rewrite <- (map_id A) at 5. rewrite <- (diagonal_same (fun x => x)) by done.
  apply (lookups (fun x => x) inv_mix (fun x => arr_get 0 Td0 (Z.land (arr_get 0 Te4 x) 0xff)) (fun x => arr_get 0 Td1 (Z.land (arr_get 0 Te4 x) 0xff))
    (fun x => arr_get 0 Td2 (Z.land (arr_get 0 Te4 x) 0xff)) (fun x => arr_get 0 Td3 (Z.land (arr_get 0 Te4 x) 0xff))); auto using inv_mix_lxor.
  intros x Hx. rewrite <- sbox_table by done. destruct (sbox_spec x Hx) as (Hs & _ & Hi). pose proof (Td_spec _ Hs) as Ht. by rewrite Hi in Ht.
Qed.

(** Columns through the steps. *)
Lemma col_circulant m c : col c -> col (Fips197.circulant m c).
Proof.
  intros Hc. split; [done|]. apply Forall_map, Forall_forall. intros r _. generalize (seq 0 4). intros l.
  induction l as [|j l IH]; [by apply inw_0|]. cbn [map foldr]. apply inw_lxor; [done| |done]. apply inw_mul. by apply nth_byte.
Qed.

Lemma col_zip u v : col u -> col v -> col (zip_with Z.lxor u v).
Proof. intros Hu Hv. columns. split; [done|]. repeat apply Forall_cons_2; try done; by apply inw_lxor. Qed.

Lemma col_map f c : (forall x, inw 8 x -> inw 8 (f x)) -> col c -> col (map f c).
Proof. intros Hf Hc. columns. split; [done|]. cbn [map]. repeat apply Forall_cons_2; auto. Qed.

#[export] Hint Resolve col_circulant col_zip nth_byte col_rot inw_mul : aes.

Lemma byte_sbox x : inw 8 x -> inw 8 (Fips197.sbox x).
Proof. apply sbox_spec. Qed.
Lemma byte_inv_sbox x : inw 8 x -> inw 8 (Fips197.inv_sbox x).
Proof. apply sbox_spec. Qed.

Definition wf_state (st : Fips197.state) : Prop := length st = 4%nat /\ Forall col st.
Definition quad_of (st : Fips197.state) : quad := (word (nth 0 st []), word (nth 1 st []), word (nth 2 st []), word (nth 3 st [])).

Ltac states :=
  repeat match goal with
  | H : wf_state ?st |- _ => is_var st; let Hl := fresh in let Hb := fresh in destruct H as [Hl Hb];
      destruct st as [|? [|? [|? [|? [|]]]]]; try done; clear Hl; rewrite !Forall_cons in Hb; destruct_and! Hb
  end.

Lemma col_diagonal f A B C D : (forall x, inw 8 x -> inw 8 (f x)) -> col A -> col B -> col C -> col D -> col (diagonal f A B C D).
Proof. intros Hf HA HB HC HD. split; [done|]. repeat apply Forall_cons_2; try done; apply Hf; by apply nth_byte. Qed.

Lemma shift_sub f A B C D : col A -> col B -> col C -> col D ->
  Fips197.ShiftRows (map (map f) [A; B; C; D]) = [diagonal f A B C D; diagonal f B C D A; diagonal f C D A B; diagonal f D A B C].
Proof. intros. by columns. Qed.

Lemma inv_shift_sub f A B C D : col A -> col B -> col C -> col D ->
  map (map f) (Fips197.InvShiftRows [A; B; C; D]) = [diagonal f A D C B; diagonal f B A D C; diagonal f C B A D; diagonal f D C B A].
Proof. intros. by columns. Qed.

(** The words of the round key [k] at [rk]. *)
Definition key_at (rd : list Z) (rk : Z) (k : Fips197.state) : Prop :=
  arr_get 0 rd rk = word (nth 0 k []) /\ arr_get 0 rd (rk + 1) = word (nth 1 k []) /\
  arr_get 0 rd (rk + 2) = word (nth 2 k []) /\ arr_get 0 rd (rk + 3) = word (nth 3 k []).

Section Rounds.
Context (rd : list Z) (rk : Z) (k st : Fips197.state) (Hk : wf_state k) (Hst : wf_state st) (Hw : key_at rd rk k).

Lemma te_round_ok : te_round rd rk (quad_of st) = quad_of (Fips197.AddRoundKey k (Fips197.MixColumns (Fips197.ShiftRows (Fips197.SubBytes st)))).
Proof using Hw Hk Hst.
  revert Hw. unfold key_at. states. cbn [nth]. intros (E0 & E1 & E2 & E3). unfold te_round, quad_of.
  cbn [nth]. rewrite E0, E1, E2, E3, !te_word_ok by done. unfold Fips197.SubBytes. rewrite shift_sub by done. done.
Qed.

Lemma te4_round_ok : te4_round rd rk (quad_of st) = quad_of (Fips197.AddRoundKey k (Fips197.ShiftRows (Fips197.SubBytes st))).
Proof using Hw Hk Hst.
  revert Hw. unfold key_at. states. cbn [nth]. intros (E0 & E1 & E2 & E3). unfold te4_round, quad_of.
  cbn [nth]. rewrite E0, E1, E2, E3, !te4_word_ok by done. unfold Fips197.SubBytes. rewrite shift_sub by done. done.
Qed.

Lemma td_round_ok : td_round rd rk (quad_of st) = quad_of (Fips197.AddRoundKey k (Fips197.InvMixColumns (Fips197.InvSubBytes (Fips197.InvShiftRows st)))).
Proof using Hw Hk Hst.
  revert Hw. unfold key_at. states. cbn [nth]. intros (E0 & E1 & E2 & E3). unfold td_round, quad_of.
  cbn [nth]. rewrite E0, E1, E2, E3, !td_word_ok by done. unfold Fips197.InvSubBytes. rewrite inv_shift_sub by done. done.
Qed.

Lemma td4_round_ok : td4_round rd rk (quad_of st) = quad_of (Fips197.AddRoundKey k (Fips197.InvSubBytes (Fips197.InvShiftRows st))).
Proof using Hw Hk Hst.
  revert Hw. unfold key_at. states. cbn [nth]. intros (E0 & E1 & E2 & E3). unfold td4_round, quad_of.
  cbn [nth]. rewrite E0, E1, E2, E3, !td4_word_ok by done. unfold Fips197.InvSubBytes. rewrite inv_shift_sub by done. done.
Qed.
End Rounds.

Lemma wf_map g st : (forall c, col c -> col (g c)) -> wf_state st -> wf_state (map g st).
Proof. intros Hg Hst. states. split; [done|]. cbn [map]. repeat apply Forall_cons_2; auto. Qed.
Lemma map_map_id (st : Fips197.state) : map (map (fun x => x)) st = st.
Proof. rewrite (map_ext _ (fun c => c)) by apply map_id. apply map_id. Qed.
Lemma wf_sub st : wf_state st -> wf_state (Fips197.SubBytes st).
Proof. apply wf_map. intros. apply col_map; [apply byte_sbox|done]. Qed.
Lemma wf_inv_sub st : wf_state st -> wf_state (Fips197.InvSubBytes st).
Proof. apply wf_map. intros. apply col_map; [apply byte_inv_sbox|done]. Qed.
Lemma wf_mix st : wf_state st -> wf_state (Fips197.MixColumns st).
Proof. apply wf_map. apply col_circulant. Qed.
Lemma wf_inv_mix st : wf_state st -> wf_state (Fips197.InvMixColumns st).
Proof. apply wf_map. apply col_circulant. Qed.
Lemma wf_add k st : wf_state k -> wf_state st -> wf_state (Fips197.AddRoundKey k st).
Proof. intros Hk Hst. states. split; [done|]. repeat apply Forall_cons_2; try done; by apply col_zip. Qed.
Lemma wf_shift st : wf_state st -> wf_state (Fips197.ShiftRows st).
Proof.
  intros Hst. states. rewrite <- (map_map_id [_; _; _; _]), shift_sub by done. split; [done|]. repeat apply Forall_cons_2; try done; by apply col_diagonal.
Qed.
Lemma wf_inv_shift st : wf_state st -> wf_state (Fips197.InvShiftRows st).
Proof.
  intros Hst. states. rewrite <- (map_map_id (Fips197.InvShiftRows _)), inv_shift_sub by done. split; [done|].
  repeat apply Forall_cons_2; try done; by apply col_diagonal.
Qed.
#[export] Hint Resolve wf_sub wf_inv_sub wf_mix wf_inv_mix wf_add wf_shift wf_inv_shift : aes.

(** * Blocks *)

Lemma put_word c : col c -> PUTU32 (word c) = c.
Proof.
  intros Hc. pose proof (word_value c Hc) as Hv. columns. cbn [nth] in Hv. unfold PUTU32. rewrite Hv. clear Hv. unfold u8, uw, inw in *.
  rewrite !Z.shiftr_div_pow2 by lia. repeat f_equal; Z.div_mod_to_equations; lia.
Qed.

Lemma store_ok st : wf_state st -> store_block (quad_of st) = concat st.
Proof. intros Hst. states. unfold store_block, quad_of. cbn [nth]. rewrite !put_word by done. cbn [concat]. by rewrite app_nil_r. Qed.

Lemma block_columns b : length b = 16%nat -> bytes b -> wf_state (Fips197.columns 4 b).
Proof.
  intros Hl Hb. do 17 (destruct b as [|? b]; try done). unfold bytes in Hb. rewrite !Forall_cons in Hb. destruct_and! Hb.
  split; [done|]. repeat (apply Forall_cons_2; [split; [done|]; by repeat apply Forall_cons_2|]). done.
Qed.

Lemma add_columns k0 k1 k2 k3 b : Fips197.AddRoundKey [k0; k1; k2; k3] (Fips197.columns 4 b) =
  [zip_with Z.lxor (take 4 b) k0; zip_with Z.lxor (take 4 (drop 4 b)) k1; zip_with Z.lxor (take 4 (drop 4 (drop 4 b))) k2;
   zip_with Z.lxor (take 4 (drop 4 (drop 4 (drop 4 b)))) k3].
Proof. done. Qed.

Lemma load_ok b rd k : length b = 16%nat -> bytes b -> wf_state k -> key_at rd 0 k ->
  load_block b rd = quad_of (Fips197.AddRoundKey k (Fips197.columns 4 b)).
Proof.
  intros Hl Hb Hk (E0 & E1 & E2 & E3). unfold load_block. change (arr_get 0 rd 1) with (arr_get 0 rd (0 + 1)).
  change (arr_get 0 rd 2) with (arr_get 0 rd (0 + 2)). change (arr_get 0 rd 3) with (arr_get 0 rd (0 + 3)). rewrite E0, E1, E2, E3.
  pose proof (block_columns b Hl Hb) as Hc. clear Hb. do 17 (destruct b as [|? b]; try done). clear Hl E0 E1 E2 E3.
  destruct Hk as [Hkl Hk], Hc as [_ Hc]. destruct k as [|k0 [|k1 [|k2 [|k3 [|]]]]]; try done. rewrite !Forall_cons in Hk. destruct Hk as ([? _] & [? _] & [? _] & [? _] & _).
  rewrite add_columns. unfold quad_of. cbn [nth]. rewrite <- !word_lxor by done. done.
Qed.

(** The loop over pairs of rounds makes the rounds [q + 1], ..., [q + 2 n - 1]. *)
Lemma round_loop_ok round (F : nat -> Fips197.state -> Fips197.state) rd fuel : forall n q st,
  (forall i st, (q < i < q + 2 * n)%nat -> wf_state st -> round rd (4 * Z.of_nat i) (quad_of st) = quad_of (F i st) /\ wf_state (F i st)) ->
  wf_state st -> (1 <= n <= S fuel)%nat ->
  round_loop round fuel rd (4 * Z.of_nat q) (Z.of_nat n) (quad_of st) =
    (quad_of (foldl (fun st i => F i st) st (seq (q + 1) (2 * n - 1))), 4 * Z.of_nat (q + 2 * n)).
Proof.
  induction fuel as [|fuel IH]; intros n q st HF Hst Hn.
  - assert (n = 1%nat) as -> by lia. cbn [round_loop]. destruct (HF (q + 1)%nat st ltac:(lia) Hst) as [E _].
    replace (4 * Z.of_nat q + 4) with (4 * Z.of_nat (q + 1)) by lia. rewrite E. cbn. f_equal. lia.
  - destruct (HF (q + 1)%nat st ltac:(lia) Hst) as [E Hw]. cbn [round_loop]. replace (4 * Z.of_nat q + 4) with (4 * Z.of_nat (q + 1)) by lia.
    rewrite E. destruct (Z.eqb_spec (Z.of_nat n - 1) 0) as [|Hn1]; [assert (n = 1%nat) as -> by lia; cbn; f_equal; lia|].
    destruct (HF (q + 2)%nat _ ltac:(lia) Hw) as [E' Hw']. replace (4 * Z.of_nat q + 8) with (4 * Z.of_nat (q + 2)) by lia. rewrite E'.
    replace (Z.of_nat n - 1) with (Z.of_nat (n - 1)) by lia. rewrite (IH (n - 1)%nat (q + 2)%nat); [|intros i s ?; apply HF; lia|done|lia].
    replace (2 * n - 1)%nat with (2 + (2 * (n - 1) - 1))%nat by lia. rewrite seq_app, foldl_app. cbn [seq foldl].
    replace (S (q + 1)) with (q + 2)%nat by lia. replace (q + 1 + 2)%nat with (q + 2 + 1)%nat by lia. f_equal. lia.
Qed.
