(* ===== verification/AesKey.v ===== *)
(** The key schedules of [lib/crypto/aes.cpp] are FIPS 197's, and its cipher is
    the standard's for the three key sizes. *)

From stdpp Require Import base numbers list.
From S2P Require Import Prelude Bytes Sha256Ok AesTables Aes AesOk.
Local Open Scope Z_scope.

(** * Schedules *)

(** [rd] starts with the words [w]. *)
Definition sched (rd : list Z) (w : list (list Z)) : Prop :=
  Forall col w /\ (length w <= length rd)%nat /\ forall j, (j < length w)%nat -> arr_get 0 rd (Z.of_nat j) = word (nth j w []).

Definition ext (Nk : nat) (w : list (list Z)) : list (list Z) := w ++ [Fips197.next_word Nk w].

Lemma nth_col w j : Forall col w -> (j < length w)%nat -> col (nth j w []).
Proof. intros H Hj. eapply Forall_forall in H; [exact H|]. apply list_elem_of_In. by apply nth_In. Qed.

Lemma sched_snoc rd w x : sched rd w -> (length w < length rd)%nat -> col x -> sched (arr_set rd (Z.of_nat (length w)) (word x)) (w ++ [x]).
Proof.
  intros (Hc & Hl & Hw) Hlt Hx. split_and!.
  - apply Forall_app. split; [done|by apply Forall_cons_2].
  - unfold arr_set. rewrite length_app, length_insert. cbn. lia.
  - intros j Hj. rewrite length_app in Hj. cbn in Hj. destruct (decide (j = length w)) as [->|].
    + rewrite arr_get_set, Z.eqb_refl, nth_middle by lia. done.
    + rewrite arr_get_set_ne, app_nth1 by lia. apply Hw. lia.
Qed.

Lemma rcon_spec i : (i < 10)%nat -> arr_get 0 rcon (Z.of_nat i) = word (Fips197.Rcon (i + 1)) /\ col (Fips197.Rcon (i + 1)).
Proof. intros Hi. do 10 (destruct i as [|i]; [split; [done|]; split; [done|]; repeat (apply Forall_cons_2; [in_range|]); done|]). lia. Qed.

(** One word of the schedule, [v] being the transformed previous word. *)
Lemma write_next Nk rd w rk d a temp : sched rd w -> (length w < length rd)%nat -> (0 < Nk <= length w)%nat ->
  rk + d = Z.of_nat (length w) -> d - a = Z.of_nat Nk -> col temp ->
  Fips197.next_word Nk w = zip_with Z.lxor (nth (length w - Nk) w []) temp ->
  sched (set_xor rk d a (word temp) rd) (ext Nk w).
Proof.
  intros Hs Hlt HN Hd Ha Ht Hn. pose proof Hs as (Hc & _ & Hw). unfold set_xor, ext. rewrite Hd.
  replace (rk + a) with (Z.of_nat (length w - Nk)) by lia. rewrite Hw by lia.
  pose proof (nth_col w (length w - Nk) Hc ltac:(lia)) as Hcol. rewrite word_lxor by (apply Hcol || apply Ht). rewrite <- Hn.
  apply sched_snoc; [done..|]. rewrite Hn. by apply col_zip.
Qed.

Section Writes.
Context (Nk : nat) (rd : list Z) (w : list (list Z)) (rk : Z).
Context (Hs : sched rd w) (Hlt : (length w < length rd)%nat) (HN : (0 < Nk <= length w)%nat).

Lemma prev_word d : rk + d = Z.of_nat (length w) -> arr_get 0 rd (rk + (d - 1)) = word (nth (length w - 1) w []) /\ col (nth (length w - 1) w []).
Proof using Hs HN. clear Hlt.
  intros Hd. destruct Hs as (Hc & _ & Hw). replace (rk + (d - 1)) with (Z.of_nat (length w - 1)) by lia. split; [apply Hw; lia|apply nth_col; [done|lia]].
Qed.

Lemma write_first i : (i < 10)%nat -> length w = (Nk * (i + 1))%nat -> rk + Z.of_nat Nk = Z.of_nat (length w) ->
  sched (set_xor rk (Z.of_nat Nk) 0 (Z.lxor (rot_sub (arr_get 0 rd (rk + (Z.of_nat Nk - 1)))) (arr_get 0 rcon (Z.of_nat i))) rd) (ext Nk w).
Proof using Hs Hlt HN.
  intros Hi Hl Hr. destruct (prev_word _ Hr) as [-> Hp], (rcon_spec i Hi) as [-> Hrc]. set (p := nth (length w - 1) w []) in *.
  assert (Hsub : col (Fips197.SubWord (Fips197.RotWord p))) by (apply col_map; [apply byte_sbox|by apply col_rot]).
  rewrite rot_sub_ok, word_lxor by (done || apply Hsub || apply Hrc).
  apply (write_next Nk); try done; [lia|by apply col_zip|]. unfold Fips197.next_word. fold p. rewrite Hl, Nat.mul_comm, Nat.Div0.mod_mul, Nat.div_mul by lia. done.
Qed.

Lemma write_plain d a b : rk + d = Z.of_nat (length w) -> d - a = Z.of_nat Nk -> b = d - 1 -> (length w mod Nk <> 0)%nat ->
  ~ (6 < Nk /\ length w mod Nk = 4)%nat -> sched (set_xor2 rk d a b rd) (ext Nk w).
Proof using Hs Hlt HN.
  intros Hd Ha -> Hm Hm'. unfold set_xor2. destruct (prev_word d Hd) as [-> Hp]. apply (write_next Nk); try done.
  unfold Fips197.next_word. rewrite (proj2 (Nat.eqb_neq _ _)) by done.
  destruct (Nat.ltb_spec 6 Nk), (Nat.eqb_spec (length w mod Nk) 4); cbn [andb]; done || lia.
Qed.

Lemma write_sub d a : rk + d = Z.of_nat (length w) -> d - a = Z.of_nat Nk -> (6 < Nk)%nat -> (length w mod Nk = 4)%nat ->
  sched (set_xor rk d a (sub_only (arr_get 0 rd (rk + (d - 1)))) rd) (ext Nk w).
Proof using Hs Hlt HN.
  intros Hd Ha HNk Hm. destruct (prev_word d Hd) as [-> Hp]. rewrite sub_only_ok by done.
  apply (write_next Nk); try done; [apply col_map; [apply byte_sbox|done]|]. unfold Fips197.next_word.
  by rewrite Hm, (proj2 (Nat.ltb_lt _ _)) by lia.
Qed.
End Writes.

(** The structure's sixty words, the first [n] written. *)
Definition filled (rd : list Z) (w : list (list Z)) (n : nat) : Prop := sched rd w /\ length rd = 60%nat /\ length w = n.

Lemma filled_ext Nk rd w n rk d a v : (n < 60)%nat -> filled rd w n -> sched (set_xor rk d a v rd) (ext Nk w) -> filled (set_xor rk d a v rd) (ext Nk w) (S n).
Proof.
  intros Hn (_ & Hl & Hw) Hs. split_and!; [done|unfold set_xor, arr_set; by rewrite length_insert|]. unfold ext. rewrite length_app. cbn. lia.
Qed.

Section Steps.
Context (n : nat) (rd : list Z) (w : list (list Z)) (Hf : filled rd w n) (Hn : (n < 60)%nat).

Lemma step_first Nk i rk d e : (0 < Nk)%nat -> (i < 10)%nat -> n = (Nk * (i + 1))%nat -> rk = Z.of_nat (Nk * i) -> d = Z.of_nat Nk -> e = d - 1 ->
  filled (set_xor rk d 0 (Z.lxor (rot_sub (arr_get 0 rd (rk + e))) (arr_get 0 rcon (Z.of_nat i))) rd) (ext Nk w) (S n).
Proof using Hf Hn.
  intros HN Hi -> -> -> ->. pose proof Hf as (Hs & Hl & Hw). apply filled_ext; [done..|]. apply write_first; (done || lia).
Qed.

Lemma step_plain Nk q j rk d a b : n = (Nk * (q + 1) + j)%nat -> (0 < j < Nk)%nat -> ~ (6 < Nk /\ j = 4)%nat ->
  rk = Z.of_nat (Nk * q) -> d = Z.of_nat (Nk + j) -> a = Z.of_nat j -> b = d - 1 -> filled (set_xor2 rk d a b rd) (ext Nk w) (S n).
Proof using Hf Hn.
  intros En Hj Hj' -> -> -> ->. pose proof Hf as (Hs & Hl & Hw). apply filled_ext; [done..|].
  assert (Hm : (length w mod Nk = j)%nat) by (rewrite Hw, En, Nat.add_comm, Nat.mul_comm, Nat.Div0.mod_add; by apply Nat.mod_small; lia).
  apply write_plain; (done || lia).
Qed.

Lemma step_sub q rk : n = (8 * (q + 1) + 4)%nat -> rk = Z.of_nat (8 * q) ->
  filled (set_xor rk 12 4 (sub_only (arr_get 0 rd (rk + 11))) rd) (ext 8 w) (S n).
Proof using Hf Hn.
  intros En ->. pose proof Hf as (Hs & Hl & Hw). apply filled_ext; [done..|].
  assert (Hm : (length w mod 8 = 4)%nat) by (rewrite Hw, En, Nat.add_comm, Nat.mul_comm, Nat.Div0.mod_add; done).
  apply (write_sub 8 rd w _ Hs ltac:(lia) ltac:(lia) 12 4); lia || done.
Qed.
End Steps.

Ltac replacing Hf t := let H := fresh in pose proof t as H; clear Hf; rename H into Hf.
Ltac first_at Nk i d e Hf :=
  replacing Hf (step_first _ _ _ Hf ltac:(lia) Nk i (Z.of_nat (Nk * i)) d e ltac:(lia) ltac:(lia) ltac:(lia) ltac:(lia) ltac:(lia) ltac:(lia)).
Ltac plain_at Nk q j d a b Hf :=
  replacing Hf (step_plain _ _ _ Hf ltac:(lia) Nk q j (Z.of_nat (Nk * q)) d a b ltac:(lia) ltac:(lia) ltac:(lia) ltac:(lia) ltac:(lia) ltac:(lia) ltac:(lia)).
Ltac sub_at q Hf := replacing Hf (step_sub _ _ _ Hf ltac:(lia) q (Z.of_nat (8 * q)) ltac:(lia) ltac:(lia)).

Lemma expand128_ok n : forall i rd w, (n + i = 10)%nat -> (1 <= n)%nat -> filled rd w (4 * (i + 1)) ->
  filled (expand128 n (Z.of_nat (4 * i)) (Z.of_nat i) rd) (Nat.iter (4 * n) (ext 4) w) 44.
Proof.
  induction n as [|n IH]; intros i rd w Hi Hn Hf; [lia|]. cbn [expand128].
  first_at 4%nat i 4 3 Hf. plain_at 4%nat i 1%nat 5 1 4 Hf. plain_at 4%nat i 2%nat 6 2 5 Hf. plain_at 4%nat i 3%nat 7 3 6 Hf.
  replace (4 * S n)%nat with (4 * n + 4)%nat by lia. rewrite Nat.iter_add. change (Nat.iter 4 (ext 4) w) with (ext 4 (ext 4 (ext 4 (ext 4 w)))).
  revert Hf. generalize (ext 4 (ext 4 (ext 4 (ext 4 w)))). intros w'. generalize (set_xor2 (Z.of_nat (4 * i)) 7 3 6). intros f. set (rd' := f _).
  clearbody rd'. intros Hf. destruct (Z.eqb_spec (Z.of_nat i + 1) 10).
  - assert (n = 0%nat) as -> by lia. by replace 44%nat with (S (S (S (S (4 * (i + 1)))))) by lia.
  - replace (Z.of_nat (4 * i) + 4) with (Z.of_nat (4 * (i + 1))) by lia. replace (Z.of_nat i + 1) with (Z.of_nat (i + 1)) by lia.
    apply IH; [lia..|]. by replace (4 * (i + 1 + 1))%nat with (S (S (S (S (4 * (i + 1)))))) by lia.
Qed.

Lemma expand192_ok n : forall i rd w, (n + i = 8)%nat -> (1 <= n)%nat -> filled rd w (6 * (i + 1)) ->
  filled (expand192 n (Z.of_nat (6 * i)) (Z.of_nat i) rd) (Nat.iter (6 * n - 2) (ext 6) w) 52.
Proof.
  induction n as [|n IH]; intros i rd w Hi Hn Hf; [lia|]. cbn [expand192].
  first_at 6%nat i 6 5 Hf. plain_at 6%nat i 1%nat 7 1 6 Hf. plain_at 6%nat i 2%nat 8 2 7 Hf. plain_at 6%nat i 3%nat 9 3 8 Hf.
  replace (6 * S n - 2)%nat with (6 * n + 4)%nat by lia. rewrite Nat.iter_add. change (Nat.iter 4 (ext 6) w) with (ext 6 (ext 6 (ext 6 (ext 6 w)))).
  revert Hf. generalize (ext 6 (ext 6 (ext 6 (ext 6 w)))). intros w'. generalize (set_xor2 (Z.of_nat (6 * i)) 9 3 8). intros f. set (rd' := f _).
  clearbody rd'. intros Hf. destruct (Z.eqb_spec (Z.of_nat i + 1) 8).
  - assert (n = 0%nat) as -> by lia. by replace 52%nat with (S (S (S (S (6 * (i + 1)))))) by lia.
  - plain_at 6%nat i 4%nat 10 4 9 Hf. plain_at 6%nat i 5%nat 11 5 10 Hf. replace (6 * n)%nat with (6 * n - 2 + 2)%nat by lia. rewrite Nat.iter_add.
    replace (Z.of_nat (6 * i) + 6) with (Z.of_nat (6 * (i + 1))) by lia. replace (Z.of_nat i + 1) with (Z.of_nat (i + 1)) by lia.
    apply IH; [lia..|]. by replace (6 * (i + 1 + 1))%nat with (S (S (S (S (S (S (6 * (i + 1)))))))) by lia.
Qed.

Lemma expand256_ok n : forall i rd w, (n + i = 7)%nat -> (1 <= n)%nat -> filled rd w (8 * (i + 1)) ->
  filled (expand256 n (Z.of_nat (8 * i)) (Z.of_nat i) rd) (Nat.iter (8 * n - 4) (ext 8) w) 60.
Proof.
  induction n as [|n IH]; intros i rd w Hi Hn Hf; [lia|]. cbn [expand256].
  first_at 8%nat i 8 7 Hf. plain_at 8%nat i 1%nat 9 1 8 Hf. plain_at 8%nat i 2%nat 10 2 9 Hf. plain_at 8%nat i 3%nat 11 3 10 Hf.
  replace (8 * S n - 4)%nat with (8 * n + 4)%nat by lia. rewrite Nat.iter_add. change (Nat.iter 4 (ext 8) w) with (ext 8 (ext 8 (ext 8 (ext 8 w)))).
  revert Hf. generalize (ext 8 (ext 8 (ext 8 (ext 8 w)))). intros w'. generalize (set_xor2 (Z.of_nat (8 * i)) 11 3 10). intros f. set (rd' := f _).
  clearbody rd'. intros Hf. destruct (Z.eqb_spec (Z.of_nat i + 1) 7).
  - assert (n = 0%nat) as -> by lia. by replace 60%nat with (S (S (S (S (8 * (i + 1)))))) by lia.
  - sub_at i Hf. plain_at 8%nat i 5%nat 13 5 12 Hf. plain_at 8%nat i 6%nat 14 6 13 Hf. plain_at 8%nat i 7%nat 15 7 14 Hf.
    replace (8 * n)%nat with (8 * n - 4 + 4)%nat by lia. rewrite Nat.iter_add.
    replace (Z.of_nat (8 * i) + 8) with (Z.of_nat (8 * (i + 1))) by lia. replace (Z.of_nat i + 1) with (Z.of_nat (i + 1)) by lia.
    apply IH; [lia..|]. by replace (8 * (i + 1 + 1))%nat with (S (S (S (S (S (S (S (S (8 * (i + 1)))))))))) by lia.
Qed.

(** * The key structure *)

Lemma columns_snoc n l : Fips197.columns (S n) l = Fips197.columns n l ++ [take 4 (drop (4 * n) l)].
Proof.
  revert l. induction n as [|n IH]; intros l; [done|]. change (Fips197.columns (S (S n)) l) with (take 4 l :: Fips197.columns (S n) (drop 4 l)).
  rewrite IH. cbn [Fips197.columns app]. do 3 f_equal. rewrite drop_drop. repeat f_equal. lia.
Qed.

Lemma columns_length n l : length (Fips197.columns n l) = n.
Proof. revert l. induction n as [|n IH]; intros l; [done|]. cbn. by rewrite IH. Qed.

Lemma get_word l i : (4 * i + 4 <= length l)%nat -> GETU32 l (4 * Z.of_nat i) = word (take 4 (drop (4 * i) l)).
Proof.
  intros Hl. assert (Hg : forall k, (k < 4)%nat -> arr_get 0 l (Z.of_nat (4 * i + k)) = arr_get 0 (take 4 (drop (4 * i) l)) (Z.of_nat k)).
  { intros k Hk. unfold arr_get. rewrite !Nat2Z.id, !nth_lookup, lookup_take_lt, lookup_drop by done. done. }
  unfold word, GETU32. pose proof (Hg 0%nat ltac:(lia)) as E0. pose proof (Hg 1%nat ltac:(lia)) as E1. pose proof (Hg 2%nat ltac:(lia)) as E2.
  pose proof (Hg 3%nat ltac:(lia)) as E3. replace (Z.of_nat (4 * i + 0)) with (4 * Z.of_nat i) in E0 by lia. replace (Z.of_nat (4 * i + 1)) with (4 * Z.of_nat i + 1) in E1 by lia.
  replace (Z.of_nat (4 * i + 2)) with (4 * Z.of_nat i + 2) in E2 by lia. replace (Z.of_nat (4 * i + 3)) with (4 * Z.of_nat i + 3) in E3 by lia.
  rewrite E0, E1, E2, E3. done.
Qed.

Lemma col_take l i : (4 * i + 4 <= length l)%nat -> bytes l -> col (take 4 (drop (4 * i) l)).
Proof. intros Hl Hb. split; [rewrite length_take, length_drop; lia|]. by apply Forall_take, Forall_drop. Qed.

Lemma load_key_ok key from n rd : bytes key -> (4 * (from + n) <= length key)%nat -> (from + n <= 60)%nat ->
  filled rd (Fips197.columns from key) from -> filled (load_key key from n rd) (Fips197.columns (from + n) key) (from + n).
Proof.
  intros Hb Hl Hn Hf. pose proof (for_each_ind (fun i rd => filled rd (Fips197.columns (Z.to_nat i) key) (Z.to_nat i)) n (Z.of_nat from)
    (fun i rd => arr_set rd i (GETU32 key (4 * i))) rd) as Hind. cbv beta in Hind. replace (Z.to_nat (Z.of_nat from + Z.of_nat n)) with (from + n)%nat in Hind by lia.
  rewrite Nat2Z.id in Hind. apply Hind; [|done]. clear Hind Hf rd. intros i rd Hi (Hs & Hlr & Hlw).
  replace (Z.to_nat (i + 1)) with (S (Z.to_nat i)) by lia. rewrite columns_snoc. rewrite <- (Z2Nat.id i) at 1 2 by lia. rewrite get_word by lia.
  rewrite <- (columns_length (Z.to_nat i) key) at 1. split_and!.
  - apply sched_snoc; [done|lia|apply col_take; [lia|done]].
  - unfold arr_set. by rewrite length_insert.
  - rewrite length_app, columns_length. cbn. lia.
Qed.

Definition Nk_of (bits : Z) : nat := Z.to_nat (bits / 32).
Definition Nr_of (bits : Z) : nat := (Nk_of bits + 6)%nat.

Lemma set_encrypt_ok userKey bits key : bits = 128 \/ bits = 192 \/ bits = 256 -> Z.of_nat (length userKey) = bits / 8 -> bytes userKey -> length (rd_key key) = 60%nat ->
  exists rd, AES_set_encrypt_key userKey bits key = (0, mkAES_KEY rd (Z.of_nat (Nr_of bits))) /\
    filled rd (Fips197.KeyExpansion (Nk_of bits) (Nr_of bits) userKey) (4 * (Nr_of bits + 1)).
Proof.
  intros Hbits Hl Hb Hrd. assert (H0 : filled (rd_key key) (Fips197.columns 0 userKey) 0) by (split_and!; [split_and!; [done|cbn; lia|cbn; lia]|done|done]).
  unfold AES_set_encrypt_key. destruct Hbits as [->|[->| ->]]; cbn [Z.eqb Pos.eqb negb andb]; change (_ / 8) with (Z.of_nat 16) in Hl || change (_ / 8) with (Z.of_nat 24) in Hl || change (_ / 8) with (Z.of_nat 32) in Hl;
    (pose proof (load_key_ok userKey 0 4 _ Hb ltac:(lia) ltac:(lia) H0) as H1).
  - eexists. split; [done|]. exact (expand128_ok 10 0 _ _ eq_refl ltac:(lia) H1).
  - pose proof (load_key_ok userKey 4 2 _ Hb ltac:(lia) ltac:(lia) H1) as H2. eexists. split; [done|]. exact (expand192_ok 8 0 _ _ eq_refl ltac:(lia) H2).
  - pose proof (load_key_ok userKey 4 2 _ Hb ltac:(lia) ltac:(lia) H1) as H2. pose proof (load_key_ok userKey 6 2 _ Hb ltac:(lia) ltac:(lia) H2) as H3.
    eexists. split; [done|]. exact (expand256_ok 7 0 _ _ eq_refl ltac:(lia) H3).
Qed.

(** * The decryption schedule *)

Lemma swap_get i j p rd : 0 <= i < Z.of_nat (length rd) -> 0 <= j < Z.of_nat (length rd) -> 0 <= p ->
  arr_get 0 (swap i j rd) p = if p =? j then arr_get 0 rd i else if p =? i then arr_get 0 rd j else arr_get 0 rd p.
Proof. intros. unfold swap. rewrite !arr_get_set by (rewrite ?length_arr_set; lia). done. Qed.

Lemma swap_length i j rd : length (swap i j rd) = length rd.
Proof. unfold swap, arr_set. by rewrite !length_insert. Qed.

(** The blocks of four words at [i] and [j], exchanged. *)
Definition swap4 (i j : Z) (rd : list Z) : list Z := swap (i + 3) (j + 3) (swap (i + 2) (j + 2) (swap (i + 1) (j + 1) (swap i j rd))).

Lemma swap4_get m l b k rd : 0 <= m -> m < l -> 4 * l + 4 <= Z.of_nat (length rd) -> 0 <= b -> 0 <= k < 4 ->
  arr_get 0 (swap4 (4 * m) (4 * l) rd) (4 * b + k) =
    arr_get 0 rd (4 * (if b =? l then m else if b =? m then l else b) + k).
Proof.
  intros Hm Hl Hr Hb Hk. unfold swap4. rewrite !swap_get by (rewrite ?swap_length; lia).
  destruct (Z.eqb_spec b l), (Z.eqb_spec b m); try lia; subst.
  all: repeat match goal with |- context [?x =? ?y] => destruct (Z.eqb_spec x y); try lia end; try done; f_equal; lia.
Qed.

Lemma swap4_length i j rd : length (swap4 i j rd) = length rd.
Proof. unfold swap4. by rewrite !swap_length. Qed.

Lemma invert_ok rd0 N fuel : forall m rd, 0 <= m -> N - 2 * m <= 2 * Z.of_nat fuel -> 4 * N + 4 <= Z.of_nat (length rd) ->
  (forall b k, 0 <= b <= N -> 0 <= k < 4 -> arr_get 0 rd (4 * b + k) = arr_get 0 rd0 (4 * (if (b <? m) || (N - m <? b) then N - b else b) + k)) ->
  length (invert_order fuel (4 * m) (4 * (N - m)) rd) = length rd /\
  forall b k, 0 <= b <= N -> 0 <= k < 4 -> arr_get 0 (invert_order fuel (4 * m) (4 * (N - m)) rd) (4 * b + k) = arr_get 0 rd0 (4 * (N - b) + k).
Proof.
  induction fuel as [|fuel IH]; intros m rd Hm Hf Hl Hg.
  - cbn [invert_order]. rewrite (proj2 (Z.ltb_ge _ _)) by lia. split; [done|]. intros b k Hb Hk. rewrite Hg by done.
    do 2 f_equal. f_equal. destruct (Z.ltb_spec b m), (Z.ltb_spec (N - m) b); cbn [orb]; lia.
  - cbn [invert_order]. destruct (Z.ltb_spec (4 * m) (4 * (N - m))) as [Hlt|Hge].
    2:{ split; [done|]. intros b k Hb Hk. rewrite Hg by done. do 2 f_equal. f_equal. destruct (Z.ltb_spec b m), (Z.ltb_spec (N - m) b); cbn [orb]; lia. }
    fold (swap4 (4 * m) (4 * (N - m)) rd). replace (4 * m + 4) with (4 * (m + 1)) by lia. replace (4 * (N - m) - 4) with (4 * (N - (m + 1))) by lia.
    rewrite <- (swap4_length (4 * m) (4 * (N - m)) rd). apply IH; [lia|lia|by rewrite swap4_length|]. intros b k Hb Hk. rewrite swap4_get by lia.
    rewrite Hg by (try done; destruct (Z.eqb_spec b (N - m)), (Z.eqb_spec b m); lia). do 2 f_equal. f_equal.
    destruct (Z.eqb_spec b (N - m)), (Z.eqb_spec b m);
      repeat match goal with |- context [?x <? ?y] => destruct (Z.ltb_spec x y); cbn [orb] end; lia.
Qed.

(** The inner loop at round [i], and the whole of it. *)
Lemma inv_mix_round i rd : 0 <= i -> 4 * i + 4 <= Z.of_nat (length rd) ->
  let rd' := for_each 4 0 (fun k rd => arr_set rd (4 * i + k) (inv_mix_word (arr_get 0 rd (4 * i + k)))) rd in
  length rd' = length rd /\ forall b k, 0 <= b -> 0 <= k < 4 ->
    arr_get 0 rd' (4 * b + k) = if b =? i then inv_mix_word (arr_get 0 rd (4 * b + k)) else arr_get 0 rd (4 * b + k).
Proof.
  intros Hi Hl. cbv zeta. cbn [for_each]. split; [by rewrite !length_arr_set|]. intros b k Hb Hk.
  rewrite !arr_get_set by (rewrite ?length_arr_set; lia). destruct (Z.eqb_spec b i); subst;
    repeat match goal with |- context [?x =? ?y] => destruct (Z.eqb_spec x y); try lia end; try done; do 3 f_equal; lia.
Qed.

Lemma inv_mix_keys_ok nr rd : 1 <= nr -> 4 * nr + 4 <= Z.of_nat (length rd) ->
  forall b k, 0 <= b <= nr -> 0 <= k < 4 -> arr_get 0 (inv_mix_keys nr rd) (4 * b + k) =
    if (1 <=? b) && (b <? nr) then inv_mix_word (arr_get 0 rd (4 * b + k)) else arr_get 0 rd (4 * b + k).
Proof.
  intros Hn Hl. unfold inv_mix_keys.
  pose proof (for_each_ind (fun i r => length r = length rd /\ forall b k, 0 <= b <= nr -> 0 <= k < 4 -> arr_get 0 r (4 * b + k) =
    if (1 <=? b) && (b <? i) then inv_mix_word (arr_get 0 rd (4 * b + k)) else arr_get 0 rd (4 * b + k)) (Z.to_nat (nr - 1)) 1
    (fun i rd => for_each 4 0 (fun k rd => arr_set rd (4 * i + k) (inv_mix_word (arr_get 0 rd (4 * i + k)))) rd) rd) as Hind.
  cbv beta in Hind. replace (1 + Z.of_nat (Z.to_nat (nr - 1))) with nr in Hind by lia. apply Hind; clear Hind.
  - intros i r Hi [Hlr Hr]. destruct (inv_mix_round i r ltac:(lia) ltac:(lia)) as [Hl' Hr']. split; [by rewrite Hl'|]. intros b k Hb Hk.
    rewrite Hr', Hr by lia. destruct (Z.eqb_spec b i), (Z.leb_spec 1 b), (Z.ltb_spec b i), (Z.ltb_spec b (i + 1)); cbn [andb]; done || lia.
  - split; [done|]. intros b k Hb Hk. by destruct (Z.leb_spec 1 b), (Z.ltb_spec b 1); cbn [andb]; try lia.
Qed.

(** * Round keys in place *)

Lemma key_at_intro rd rk k : (forall j, 0 <= j < 4 -> arr_get 0 rd (rk + j) = word (nth (Z.to_nat j) k [])) -> key_at rd rk k.
Proof. intros H. split_and!; [rewrite <- (Z.add_0_r rk)| | |]; rewrite H by lia; done. Qed.

Lemma round_key_nth w r j : (j < 4)%nat -> nth j (Fips197.round_key w r) [] = nth (4 * r + j) w [].
Proof. intros Hj. unfold Fips197.round_key. by rewrite !nth_lookup, lookup_take_lt, lookup_drop. Qed.

(** A load, a loop of rounds and a last round. *)
Lemma cipher_shape round last rd n F L st Nr : 
  (forall i st, (0 < i < 2 * n)%nat -> wf_state st -> round rd (4 * Z.of_nat i) (quad_of st) = quad_of (F i st) /\ wf_state (F i st)) ->
  (forall st, wf_state st -> last rd (4 * Z.of_nat (2 * n)) (quad_of st) = quad_of (L st) /\ wf_state (L st)) ->
  wf_state st -> Nr = (2 * n)%nat -> (1 <= n)%nat ->
  (let '(t, rk) := round_loop round (Z.to_nat (Z.of_nat n)) rd 0 (Z.of_nat n) (quad_of st) in store_block (last rd rk t)) =
  concat (L (foldl (fun st i => F i st) st (seq 1 (Nr - 1)))).
Proof.
  intros HF HL Hst -> Hn. change 0 with (4 * Z.of_nat 0). rewrite Nat2Z.id, (round_loop_ok round F) by (done || lia).
  assert (Hw : forall l st, (forall i, i ∈ l -> (0 < i < 2 * n)%nat) -> wf_state st -> wf_state (foldl (fun st i => F i st) st l)).
  { intros l. induction l as [|i l IH]; intros s Hl Hs; [done|]. cbn [foldl]. apply IH; [intros; apply Hl; by right|]. apply HF; [apply Hl; by left|done]. }
  destruct (HL (foldl (fun st i => F i st) st (seq 1 (2 * n - 1)))) as [E Hwf]; [apply Hw; [intros i Hi; apply elem_of_seq in Hi; lia|done]|].
  cbn [Nat.add]. rewrite E. by apply store_ok.
Qed.

Lemma half_rounds n : Z.shiftr (Z.of_nat (2 * n)) 1 = Z.of_nat n.
Proof. rewrite Z.shiftr_div_pow2 by lia. Z.div_mod_to_equations; lia. Qed.

Lemma reverse_seq m : reverse (seq 1 m) = map (fun i => (m + 1 - i)%nat) (seq 1 m).
Proof.
  apply list_eq. intros i. rewrite list_lookup_fmap. destruct (decide (i < m)%nat).
  - rewrite reverse_lookup by (rewrite length_seq; lia). rewrite length_seq, !lookup_seq_lt by lia. cbn. f_equal. lia.
  - rewrite !lookup_ge_None_2 by (rewrite ?length_reverse, ?length_seq; lia). done.
Qed.

Lemma foldl_through {A B C} (f : A -> B -> A) (g : C -> B) a l : foldl f a (map g l) = foldl (fun a x => f a (g x)) a l.
Proof. revert a. induction l as [|x l IH]; intros a; [done|]. apply IH. Qed.

Section Keys.
Context (rd : list Z) (w : list (list Z)) (Nr : nat) (Hf : filled rd w (4 * (Nr + 1))).

Lemma round_key_wf r : (r <= Nr)%nat -> wf_state (Fips197.round_key w r).
Proof using Hf.
  intros Hr. destruct Hf as ((Hc & _) & _ & Hl). split; [unfold Fips197.round_key; rewrite length_take, length_drop; lia|].
  by apply Forall_take, Forall_drop.
Qed.

Lemma enc_key_at r : (r <= Nr)%nat -> key_at rd (4 * Z.of_nat r) (Fips197.round_key w r).
Proof using Hf.
  intros Hr. destruct Hf as ((_ & _ & Hw) & _ & Hl). apply key_at_intro. intros j Hj. rewrite round_key_nth by lia.
  replace (4 * Z.of_nat r + j) with (Z.of_nat (4 * r + Z.to_nat j)) by lia. apply Hw. lia.
Qed.

Definition dec_key (r : nat) : Fips197.state :=
  if (1 <=? r)%nat && (r <? Nr)%nat then Fips197.InvMixColumns (Fips197.round_key w (Nr - r)) else Fips197.round_key w (Nr - r).

Lemma dec_key_wf r : (r <= Nr)%nat -> wf_state (dec_key r).
Proof using Hf. intros Hr. unfold dec_key. pose proof (round_key_wf (Nr - r) ltac:(lia)). case_match; auto with aes. Qed.

Lemma dec_key_at r : (1 <= Nr)%nat -> (r <= Nr)%nat ->
  key_at (inv_mix_keys (Z.of_nat Nr) (invert_order Nr 0 (4 * Z.of_nat Nr) rd)) (4 * Z.of_nat r) (dec_key r).
Proof using Hf.
  intros HN Hr. pose proof Hf as ((_ & Hlw & _) & Hl & Hw).
  destruct (invert_ok rd (Z.of_nat Nr) Nr 0 rd ltac:(lia) ltac:(lia) ltac:(lia)) as [Hli Hi].
  { intros b k Hb Hk. destruct (Z.ltb_spec b 0), (Z.ltb_spec (Z.of_nat Nr - 0) b); cbn [orb]; done || lia. }
  rewrite Z.mul_0_r, Z.sub_0_r in Hli, Hi. apply key_at_intro. intros j Hj. rewrite inv_mix_keys_ok, Hi by lia.
  pose proof (enc_key_at (Nr - r) ltac:(lia)) as Hk. pose proof (round_key_wf (Nr - r) ltac:(lia)) as [Hkl Hkc].
  assert (E : arr_get 0 rd (4 * (Z.of_nat Nr - Z.of_nat r) + j) = word (nth (Z.to_nat j) (Fips197.round_key w (Nr - r)) [])).
  { replace (Z.of_nat Nr - Z.of_nat r) with (Z.of_nat (Nr - r)) by lia. destruct Hk as (E0 & E1 & E2 & E3).
    assert (j = 0 \/ j = 1 \/ j = 2 \/ j = 3) as [->|[->|[->| ->]]] by lia; [by rewrite Z.add_0_r|done..]. }
  rewrite E. unfold dec_key. destruct (Z.leb_spec 1 (Z.of_nat r)), (Z.ltb_spec (Z.of_nat r) (Z.of_nat Nr)), (Nat.leb_spec 1 r), (Nat.ltb_spec r Nr); try lia; try done.
  cbn [andb]. rewrite inv_mix_word_ok by (apply nth_col; [done|lia]). unfold Fips197.InvMixColumns.
  rewrite (nth_indep (map _ _) [] (inv_mix [])) by (rewrite length_map; lia). by rewrite (map_nth inv_mix).
Qed.

(** * The cipher *)

Lemma encrypt_ok n b : Nr = (2 * n)%nat -> (1 <= n)%nat -> length b = 16%nat -> bytes b ->
  AES_encrypt b (mkAES_KEY rd (Z.of_nat Nr)) = Fips197.Cipher Nr w b.
Proof using Hf.
  intros HN Hn Hl Hb. unfold AES_encrypt, Fips197.Cipher. cbn [rd_key rounds].
  pose proof (block_columns b Hl Hb) as Hc. pose proof (round_key_wf 0 ltac:(lia)) as H0. pose proof (round_key_wf Nr ltac:(lia)) as HNr.
  rewrite (load_ok b rd (Fips197.round_key w 0)) by (done || apply (enc_key_at 0); lia). rewrite HN at 1 2. rewrite half_rounds.
  apply (cipher_shape te_round te4_round rd n (fun r st => Fips197.AddRoundKey (Fips197.round_key w r) (Fips197.MixColumns (Fips197.ShiftRows (Fips197.SubBytes st))))
    (fun st => Fips197.AddRoundKey (Fips197.round_key w Nr) (Fips197.ShiftRows (Fips197.SubBytes st)))); [| |by apply wf_add|done|lia].
  - intros i st Hi Hst. pose proof (round_key_wf i ltac:(lia)). split; [apply te_round_ok; try done; apply enc_key_at; lia|auto 10 with aes].
  - intros st Hst. rewrite <- HN. split; [apply te4_round_ok; try done; by apply enc_key_at|auto 10 with aes].
Qed.

(** Adding a mixed key is mixing after adding the key. *)
Lemma inv_mix_add k st : wf_state k -> wf_state st ->
  Fips197.AddRoundKey (Fips197.InvMixColumns k) (Fips197.InvMixColumns st) = Fips197.InvMixColumns (Fips197.AddRoundKey k st).
Proof using.
  clear Hf rd w Nr. intros Hk Hst. states. cbn [Fips197.AddRoundKey Fips197.InvMixColumns map zip_with].
  rewrite !circulant_lxor; [done|..]; match goal with H : col ?a, H' : col ?b |- length ?b = length ?a => by rewrite (proj1 H), (proj1 H') end.
Qed.

Lemma decrypt_ok n b : Nr = (2 * n)%nat -> (1 <= n)%nat -> length b = 16%nat -> bytes b ->
  AES_decrypt b (mkAES_KEY (inv_mix_keys (Z.of_nat Nr) (invert_order Nr 0 (4 * Z.of_nat Nr) rd)) (Z.of_nat Nr)) = Fips197.InvCipher Nr w b.
Proof using Hf.
  intros HN Hn Hl Hb. unfold AES_decrypt, Fips197.InvCipher. cbn [rd_key rounds]. pose proof (fun r => dec_key_at r ltac:(lia)) as Hat.
  set (rd' := inv_mix_keys _ _) in *. clearbody rd'.
  pose proof (block_columns b Hl Hb) as Hc. pose proof (dec_key_wf 0 ltac:(lia)) as H0. pose proof (round_key_wf Nr ltac:(lia)) as HNr.
  rewrite (load_ok b rd' (dec_key 0)) by (done || apply (Hat 0%nat); lia). rewrite HN at 1 2. rewrite half_rounds.
  rewrite (cipher_shape td_round td4_round rd' n (fun r st => Fips197.InvMixColumns (Fips197.AddRoundKey (Fips197.round_key w (Nr - r)) (Fips197.InvSubBytes (Fips197.InvShiftRows st))))
    (fun st => Fips197.AddRoundKey (Fips197.round_key w 0) (Fips197.InvSubBytes (Fips197.InvShiftRows st))) _ Nr); [| | |by apply wf_add|done|lia].
  - rewrite reverse_seq, foldl_through. replace (dec_key 0) with (Fips197.round_key w Nr) by (unfold dec_key; cbn; by rewrite Nat.sub_0_r).
    replace (Nr - 1 + 1)%nat with Nr by lia. done.
  - intros i st Hi Hst. pose proof (round_key_wf (Nr - i) ltac:(lia)) as Hk. split; [|auto 10 with aes].
    rewrite (td_round_ok rd' _ (dec_key i)); [|by apply dec_key_wf; lia|done|apply Hat; lia]. unfold dec_key.
    rewrite (proj2 (Nat.leb_le 1 i)), (proj2 (Nat.ltb_lt i Nr)) by lia. cbn [andb]. by rewrite inv_mix_add by auto with aes.
  - intros st Hst. rewrite <- HN. pose proof (round_key_wf 0 ltac:(lia)) as Hk. split; [|auto 10 with aes].
    rewrite (td4_round_ok rd' _ (dec_key Nr)); [|by apply dec_key_wf|done|by apply Hat]. unfold dec_key.
    by rewrite Nat.ltb_irrefl, andb_false_r, Nat.sub_diag.
Qed.
End Keys.

Definition valid_bits (bits : Z) : Prop := bits = 128 \/ bits = 192 \/ bits = 256.

Lemma set_decrypt_ok userKey bits key rd : AES_set_encrypt_key userKey bits key = (0, mkAES_KEY rd (Z.of_nat (Nr_of bits))) ->
  AES_set_decrypt_key userKey bits key =
    (0, mkAES_KEY (inv_mix_keys (Z.of_nat (Nr_of bits)) (invert_order (Nr_of bits) 0 (4 * Z.of_nat (Nr_of bits)) rd)) (Z.of_nat (Nr_of bits))).
Proof. intros E. unfold AES_set_decrypt_key. rewrite E. cbn [rd_key rounds]. rewrite Nat2Z.id. done. Qed.

Lemma even_rounds bits : valid_bits bits -> exists n, Nr_of bits = (2 * n)%nat /\ (1 <= n)%nat.
Proof. intros [->|[->| ->]]; [exists 5%nat|exists 6%nat|exists 7%nat]; (split; [done|lia]). Qed.

(** C19: for the three key sizes, whatever the key structure held, the schedules
    are set up without error and [AES_encrypt] and [AES_decrypt] on any block
    compute FIPS 197's [Cipher] and [InvCipher] under the standard's key
    expansion; any other size is refused with -2 and the structure untouched. *)
Theorem aes_exact userKey bits key b : length (rd_key key) = 60%nat ->
  Forall (inw 8) userKey -> Z.of_nat (length userKey) = bits / 8 -> length b = 16%nat -> Forall (inw 8) b ->
  let w := Fips197.KeyExpansion (Nk_of bits) (Nr_of bits) userKey in
  let '(es, ek) := AES_set_encrypt_key userKey bits key in
  let '(ds, dk) := AES_set_decrypt_key userKey bits key in
  (valid_bits bits /\ es = 0 /\ ds = 0 /\ AES_encrypt b ek = Fips197.Cipher (Nr_of bits) w b /\ AES_decrypt b dk = Fips197.InvCipher (Nr_of bits) w b) \/
  (~ valid_bits bits /\ es = -2 /\ ds = -2 /\ ek = key /\ dk = key).
Proof.
  intros Hrd Hb Hl Hbl Hbb. destruct (decide (bits = 128 \/ bits = 192 \/ bits = 256)) as [Hv|Hv].
  - destruct (set_encrypt_ok userKey bits key Hv Hl Hb Hrd) as (rd & E & Hf). destruct (even_rounds bits Hv) as (n & Hn & H1).
    rewrite (set_decrypt_ok _ _ _ _ E), E. left. split_and!; [done..|by eapply encrypt_ok|by eapply decrypt_ok].
  - assert (E : AES_set_encrypt_key userKey bits key = (-2, key)).
    { unfold AES_set_encrypt_key. destruct (Z.eqb_spec bits 128), (Z.eqb_spec bits 192), (Z.eqb_spec bits 256); try done; exfalso; lia. }
    unfold AES_set_decrypt_key. rewrite E. cbv beta iota zeta. change (-2 <? 0) with true. by right.
Qed.

Lemma aes_exact_witness :
  let ek := snd (AES_set_encrypt_key (seqZ 0 16) 128 (mkAES_KEY (replicate 60 7) 0)) in
  AES_encrypt (map (Z.mul 0x11) (seqZ 0 16)) ek =
    Fips197.Cipher 10 (Fips197.KeyExpansion 4 10 (seqZ 0 16)) (map (Z.mul 0x11) (seqZ 0 16)).
Proof.
  assert (Hb : forall l, forallb (fun x => (0 <=? x) && (x <? 256)) l = true -> Forall (inw 8) l).
  { intros l Hl. apply Forall_forall. intros x Hx. rewrite forallb_forall in Hl. apply list_elem_of_In, Hl in Hx. unfold inw. lia. }
  pose proof (aes_exact (seqZ 0 16) 128 (mkAES_KEY (replicate 60 7) 0) (map (Z.mul 0x11) (seqZ 0 16)) eq_refl
    (Hb (seqZ 0 16) eq_refl) eq_refl eq_refl (Hb (map (Z.mul 0x11) (seqZ 0 16)) eq_refl)) as H.
  cbv zeta in H |- *. destruct (AES_set_encrypt_key _ _ _) as [es ek], (AES_set_decrypt_key _ _ _) as [ds dk].
  destruct H as [(_ & _ & _ & E & _)|(Hv & _)]; [exact E|]. exfalso. apply Hv. by left.
Defined.
