(* ===== verification/AesFile.v ===== *)
(** CBC ([lib/crypto/aes.cpp], [AES_cbc_encrypt]) and the decryption of
    downloaded files ([src/platform/curl/fs_wget.cpp]).

    An input is the bytes from its pointer on.  A file's plaintext goes to a
    handler [DecryptWrite], a parameter: its state, and its return value.  [None]
    is a call of [abort] or a copy outside the buffer. *)

From stdpp Require Import base numbers list.
From S2P Require Import Prelude Bytes Aes.
Local Open Scope Z_scope.

Definition xor_block (a b : list Z) : list Z := zip_with Z.lxor a b.

(** The bytes written and the vector left. *)
Fixpoint cbc_enc (fuel : nat) (key : AES_KEY) (in_ : list Z) (len : Z) (ivec : list Z) : list Z * list Z :=
  if AES_BLOCK_SIZE <=? len then
    match fuel with
    | O => ([], ivec)
    | S fuel =>
      let out := AES_encrypt (xor_block (take 16 in_) ivec) key in
      let '(rest, iv) := cbc_enc fuel key (drop 16 in_) (len - AES_BLOCK_SIZE) out in (out ++ rest, iv)
    end
  else if nz len then
    let n := Z.to_nat len in
    let out := AES_encrypt (xor_block (take n in_) (take n ivec) ++ drop n ivec) key in (out, out)
  else ([], ivec).

Fixpoint cbc_dec (fuel : nat) (key : AES_KEY) (in_ : list Z) (len : Z) (ivec : list Z) : list Z * list Z :=
  if AES_BLOCK_SIZE <=? len then
    match fuel with
    | O => ([], ivec)
    | S fuel =>
      let tmp := take 16 in_ in
      let out := xor_block (AES_decrypt tmp key) ivec in
      let '(rest, iv) := cbc_dec fuel key (drop 16 in_) (len - AES_BLOCK_SIZE) tmp in (out ++ rest, iv)
    end
  else if nz len then
    let n := Z.to_nat len in
    let tmp := AES_decrypt (take 16 in_) key in
    (xor_block (take n tmp) (take n ivec), tmp)
  else ([], ivec).

Definition AES_cbc_encrypt (in_ : list Z) (length : Z) (key : AES_KEY) (ivec : list Z) (enc : bool) : list Z * list Z :=
  let fuel := Z.to_nat (length / AES_BLOCK_SIZE) in
  if enc then cbc_enc fuel key in_ length ivec else cbc_dec fuel key in_ length ivec.

(** * Files *)

Definition ENCRYPTED_FILE_HEADER_SIZE : Z := 4 + AES_BLOCK_SIZE.
Definition DEC_BUF_SIZE : Z := 256 * AES_BLOCK_SIZE.

#[projections(primitive)]
Record DecryptFileState := mkDec { dec_state : Z; dec_buf_pos : Z; aes_state : AES_KEY; iv : list Z; dec_buf : list Z }.

Definition decrypt_file_init (key : AES_KEY) : DecryptFileState := mkDec 0 0 key (replicate 16 0) (replicate 4096 0).

Definition encrypted_file_magic : list Z := [0xfb; 0xa2; 0xe9; 0x01].

Section Handler.
Context {W : Type} (DecryptWrite : W -> list Z -> Z * W).

(** One turn of the loop: [inl] the bytes taken, [inr] an error returned. *)
Definition decrypt_step (s : DecryptFileState) (h : W) (data : list Z) : option (DecryptFileState * W * (Z + Z)) :=
  let size := Z.of_nat (length data) in
  if dec_state s =? 0 then
    let l := min_int (sw 32 size) (ENCRYPTED_FILE_HEADER_SIZE - dec_buf_pos s) in
    buf ← (if l <? 0 then None else memcpy (dec_buf s) (dec_buf_pos s) (take (Z.to_nat l) data));
    let s := mkDec (dec_state s) (dec_buf_pos s + l) (aes_state s) (iv s) buf in
    if ENCRYPTED_FILE_HEADER_SIZE <=? dec_buf_pos s then
      if bool_decide (take 4 (dec_buf s) = encrypted_file_magic)
      then Some (mkDec 1 0 (aes_state s) (take 16 (drop 4 (dec_buf s))) (dec_buf s), h, inl l)
      else Some (s, h, inr (-1))
    else Some (s, h, inl l)
  else if dec_state s =? 1 then
    let l := min_int (sw 32 size) (DEC_BUF_SIZE - dec_buf_pos s) in
    buf ← (if l <? 0 then None else memcpy (dec_buf s) (dec_buf_pos s) (take (Z.to_nat l) data));
    let s := mkDec (dec_state s) (dec_buf_pos s + l) (aes_state s) (iv s) buf in
    if DEC_BUF_SIZE <=? dec_buf_pos s then
      let len := dec_buf_pos s - AES_BLOCK_SIZE in
      let '(out, iv') := AES_cbc_encrypt (dec_buf s) len (aes_state s) (iv s) false in
      buf ← memcpy (dec_buf s) 0 out;
      let s := mkDec (dec_state s) (dec_buf_pos s) (aes_state s) iv' buf in
      let '(ret, h) := DecryptWrite h (take (Z.to_nat len) (dec_buf s)) in
      if ret <? 0 then Some (s, h, inr ret)
      else
        buf ← memcpy (dec_buf s) 0 (take 16 (drop (Z.to_nat (dec_buf_pos s - AES_BLOCK_SIZE)) (dec_buf s)));
        Some (mkDec (dec_state s) AES_BLOCK_SIZE (aes_state s) (iv s) buf, h, inl l)
    else Some (s, h, inl l)
  else None.

Fixpoint decrypt_loop (fuel : nat) (s : DecryptFileState) (h : W) (data : list Z) : option (DecryptFileState * W * Z) :=
  match data with
  | [] => Some (s, h, 0)
  | _ =>
    match fuel with
    | O => None
    | S fuel =>
      '(s, h, r) ← decrypt_step s h data;
      match r with
      | inr ret => Some (s, h, ret)
      | inl l => decrypt_loop fuel s h (drop (Z.to_nat l) data)
      end
    end
  end.

Definition decrypt_file (s : DecryptFileState) (h : W) (data : list Z) : option (DecryptFileState * W * Z) :=
  decrypt_loop (length data) s h data.

Definition decrypt_file_flush (s : DecryptFileState) (h : W) : option (DecryptFileState * W * Z) :=
  if negb (dec_state s =? 1) then Some (s, h, -1)
  else
    let len := dec_buf_pos s in
    if (len =? 0) || negb (Z.rem len AES_BLOCK_SIZE =? 0) then Some (s, h, -1)
    else
      let '(out, iv') := AES_cbc_encrypt (dec_buf s) len (aes_state s) (iv s) false in
      buf ← memcpy (dec_buf s) 0 out;
      let s := mkDec (dec_state s) (dec_buf_pos s) (aes_state s) iv' buf in
      let pad_len := arr_get 0 (dec_buf s) (dec_buf_pos s - 1) in
      if (pad_len <? 1) || (AES_BLOCK_SIZE <? pad_len) then Some (s, h, -1)
      else
        let len := len - pad_len in
        if nz len then
          let '(ret, h) := DecryptWrite h (take (Z.to_nat len) (dec_buf s)) in
          if ret <? 0 then Some (s, h, ret) else Some (s, h, 0)
        else Some (s, h, 0).

(** A transfer in pieces, the last one followed by the flush. *)
Fixpoint decrypt_transfer (s : DecryptFileState) (h : W) (pieces : list (list Z)) : option (DecryptFileState * W * Z) :=
  match pieces with
  | [] => decrypt_file_flush s h
  | data :: pieces =>
    '(s, h, ret) ← decrypt_file s h data;
    if ret <? 0 then Some (s, h, ret) else decrypt_transfer s h pieces
  end.
End Handler.
