(* ===== verification/AesFileOk.v ===== *)
(** Decryption undoes encryption: blocks (FIPS 197), chains (SP 800-38A, CBC)
    and whole files received in any pieces. *)

From stdpp Require Import base numbers list.
From S2P Require Import Prelude Bytes Sha256Ok Hmac AesTables Aes AesOk AesKey AesFile.
Local Open Scope Z_scope.

(** * Blocks *)

Lemma inv_mix_mix c : col c -> inv_mix (mix c) = c.
Proof.
  intros Hc. assert (Hx : forall i, inw 8 (nth i c 0)) by (intros; by apply nth_byte). destruct Hc as [Hl _].
  destruct c as [|c0 [|c1 [|c2 [|c3 [|]]]]]; try done. rewrite <- (units c0 c1 c2 c3) at 1.
  pose proof (Hx 0%nat) as B0. pose proof (Hx 1%nat) as B1. pose proof (Hx 2%nat) as B2. pose proof (Hx 3%nat) as B3. cbn [nth] in *. clear Hx Hl.
  unfold mix, inv_mix. rewrite !circulant_lxor by (rewrite ?length_zip_with, ?unit_length, ?circulant_length; done).
  rewrite !mds_units by (done || lia). apply units.
Qed.

Lemma inv_mix_columns st : wf_state st -> Fips197.InvMixColumns (Fips197.MixColumns st) = st.
Proof. intros Hst. states. cbn [Fips197.InvMixColumns Fips197.MixColumns map]. fold mix inv_mix. by rewrite !inv_mix_mix. Qed.

Lemma unshift f g st : (forall x, inw 8 x -> g (f x) = x) -> wf_state st -> map (map g) (Fips197.InvShiftRows (Fips197.ShiftRows (map (map f) st))) = st.
Proof. intros Hfg Hst. states. columns. cbn. by rewrite !Hfg. Qed.

Lemma inv_sub_shift st : wf_state st -> Fips197.InvSubBytes (Fips197.InvShiftRows (Fips197.ShiftRows (Fips197.SubBytes st))) = st.
Proof. apply unshift. intros x Hx. apply (sbox_spec x Hx). Qed.

Lemma add_twice k st : wf_state k -> wf_state st -> Fips197.AddRoundKey k (Fips197.AddRoundKey k st) = st.
Proof. intros Hk Hst. states. columns. cbn. by rewrite !Z.lxor_assoc, !Z.lxor_nilpotent, !Z.lxor_0_r. Qed.

Lemma columns_concat st : wf_state st -> Fips197.columns 4 (concat st) = st.
Proof. intros Hst. states. by columns. Qed.

Lemma concat_columns b : length b = 16%nat -> concat (Fips197.columns 4 b) = b.
Proof. intros Hl. do 17 (destruct b as [|? b]; try done). Qed.

Section Inverse.
Context (w : list (list Z)) (Nr : nat) (Hk : forall r, (r <= Nr)%nat -> wf_state (Fips197.round_key w r)).

Notation enc_round := (fun st r => Fips197.AddRoundKey (Fips197.round_key w r) (Fips197.MixColumns (Fips197.ShiftRows (Fips197.SubBytes st)))).
Notation dec_round := (fun st r => Fips197.InvMixColumns (Fips197.AddRoundKey (Fips197.round_key w r) (Fips197.InvSubBytes (Fips197.InvShiftRows st)))).

Lemma rounds_wf m st : (m <= Nr)%nat -> wf_state st -> wf_state (foldl enc_round st (seq 1 m)).
Proof using Hk.
  intros Hm Hst. induction m as [|m IH]; [done|]. rewrite seq_S, foldl_app. cbn [foldl]. pose proof (Hk (1 + m)%nat ltac:(lia)).
  pose proof (IH ltac:(lia)). auto 10 with aes.
Qed.

Lemma rounds_undone m st : (m <= Nr)%nat -> wf_state st ->
  foldl dec_round (Fips197.ShiftRows (Fips197.SubBytes (foldl enc_round st (seq 1 m)))) (reverse (seq 1 m)) = Fips197.ShiftRows (Fips197.SubBytes st).
Proof using Hk.
  intros Hm Hst. induction m as [|m IH]; [done|]. rewrite seq_S, foldl_app, reverse_snoc. cbn [foldl].
  pose proof (Hk (1 + m)%nat ltac:(lia)). pose proof (rounds_wf m st ltac:(lia) Hst) as Hw. set (t := foldl enc_round st (seq 1 m)) in *.
  rewrite inv_sub_shift, add_twice, inv_mix_columns by auto 10 with aes. apply IH. lia.
Qed.

Lemma inv_cipher b : (1 <= Nr)%nat -> length b = 16%nat -> bytes b -> Fips197.InvCipher Nr w (Fips197.Cipher Nr w b) = b.
Proof using Hk.
  intros HN Hl Hb. unfold Fips197.Cipher, Fips197.InvCipher. pose proof (block_columns b Hl Hb) as Hc. pose proof (Hk 0 ltac:(lia)). pose proof (Hk Nr ltac:(lia)).
  set (s0 := Fips197.AddRoundKey (Fips197.round_key w 0) (Fips197.columns 4 b)). assert (Hs0 : wf_state s0) by (unfold s0; auto with aes).
  pose proof (rounds_wf (Nr - 1) s0 ltac:(lia) Hs0) as Hw. rewrite columns_concat by auto 10 with aes.
  rewrite add_twice by auto 10 with aes. rewrite rounds_undone by (done || lia). rewrite inv_sub_shift by done. unfold s0. rewrite add_twice by done.
  by apply concat_columns.
Qed.

Lemma cipher_block b : (1 <= Nr)%nat -> length b = 16%nat -> bytes b -> length (Fips197.Cipher Nr w b) = 16%nat /\ bytes (Fips197.Cipher Nr w b).
Proof using Hk.
  intros HN Hl Hb. unfold Fips197.Cipher. pose proof (block_columns b Hl Hb) as Hc. pose proof (Hk 0 ltac:(lia)). pose proof (Hk Nr ltac:(lia)).
  pose proof (rounds_wf (Nr - 1) (Fips197.AddRoundKey (Fips197.round_key w 0) (Fips197.columns 4 b)) ltac:(lia) ltac:(auto with aes)) as Hw.
  set (t := foldl _ _ _) in *. clearbody t. set (r := Fips197.AddRoundKey _ _). assert (Hr : wf_state r) by (unfold r; auto 10 with aes). clearbody r.
  destruct Hr as [Hr Hrc]. destruct r as [|r0 [|r1 [|r2 [|r3 [|]]]]]; try done. rewrite !Forall_cons in Hrc. destruct Hrc as ([L0 B0] & [L1 B1] & [L2 B2] & [L3 B3] & _).
  cbn [concat]. unfold bytes. rewrite !length_app, !Forall_app. split; [cbn [length]; lia|done].
Qed.
End Inverse.

(** * Chains *)

Module Sp800_38a.
(** Cipher block chaining of [n] blocks under the cipher [E]. *)
Fixpoint cbc (E : list Z -> list Z) (n : nat) (iv p : list Z) : list Z :=
  match n with
  | O => []
  | S n => let c := E (zip_with Z.lxor (take 16 p) iv) in c ++ cbc E n c (drop 16 p)
  end.
(** Padding to whole blocks (RFC 5652). *)
Definition pad (m : list Z) : list Z := let p := (16 - length m mod 16)%nat in m ++ replicate p (Z.of_nat p).
End Sp800_38a.

Definition block (b : list Z) : Prop := length b = 16%nat /\ bytes b.

Lemma block_xor a b : block a -> block b -> block (zip_with Z.lxor a b).
Proof.
  intros [Ha Hab] [Hb Hbb]. split; [rewrite length_zip_with; lia|]. clear Ha Hb. revert b Hbb. induction Hab as [|x a Hx Hab IH]; intros b Hbb; [constructor|].
  destruct Hbb as [|y b Hy Hbb]; [constructor|]. cbn [zip_with]. apply Forall_cons_2; [by apply inw_lxor|by apply IH].
Qed.

Lemma xor_twice a b : length a = length b -> zip_with Z.lxor (zip_with Z.lxor a b) b = a.
Proof.
  revert b. induction a as [|x a IH]; intros [|y b] H; try done. cbn [zip_with]. rewrite IH by (by injection H).
  by rewrite Z.lxor_assoc, Z.lxor_nilpotent, Z.lxor_0_r.
Qed.

Section Chain.
Context (D : list Z -> list Z) (D_length : forall b, length (D b) = 16%nat).

(** What decrypting [n] blocks of [c] gives, and the vector it leaves. *)
Fixpoint dchain (n : nat) (iv c : list Z) : list Z :=
  match n with O => [] | S n => zip_with Z.lxor (D (take 16 c)) iv ++ dchain n (take 16 c) (drop 16 c) end.
Fixpoint last_iv (n : nat) (iv c : list Z) : list Z :=
  match n with O => iv | S n => last_iv n (take 16 c) (drop 16 c) end.

Lemma last_iv_length n iv c : length iv = 16%nat -> (16 * n <= length c)%nat -> length (last_iv n iv c) = 16%nat.
Proof using. clear D_length D.
  revert iv c. induction n as [|n IH]; intros iv c Hi Hc; [done|]. cbn [last_iv]. apply IH; [rewrite length_take; lia|rewrite length_drop; lia].
Qed.

Lemma dchain_length n iv c : length iv = 16%nat -> (16 * n <= length c)%nat -> length (dchain n iv c) = (16 * n)%nat.
Proof using D_length.
  revert iv c. induction n as [|n IH]; intros iv c Hi Hc; [done|]. cbn [dchain].
  rewrite length_app, length_zip_with, D_length, IH by (rewrite ?length_take, ?length_drop; lia). lia.
Qed.

Lemma dchain_app_r n iv c t : (16 * n <= length c)%nat -> dchain n iv (c ++ t) = dchain n iv c /\ last_iv n iv (c ++ t) = last_iv n iv c.
Proof using. clear D_length.
  revert iv c. induction n as [|n IH]; intros iv c Hc; [done|]. cbn [dchain last_iv]. rewrite take_app_le, drop_app_le by lia.
  destruct (IH (take 16 c) (drop 16 c) ltac:(rewrite length_drop; lia)) as [-> ->]. done.
Qed.

Lemma dchain_split n m iv c : dchain (n + m) iv c = dchain n iv c ++ dchain m (last_iv n iv c) (drop (16 * n) c) /\
  last_iv (n + m) iv c = last_iv m (last_iv n iv c) (drop (16 * n) c).
Proof using. clear D_length.
  revert iv c. induction n as [|n IH]; intros iv c; [done|]. cbn [dchain last_iv Nat.add]. destruct (IH (take 16 c) (drop 16 c)) as [-> ->].
  rewrite drop_drop, <- app_assoc. replace (16 + 16 * n)%nat with (16 * S n)%nat by lia. done.
Qed.

Lemma dchain_cbc E n iv p : (forall b, block b -> D (E b) = b /\ block (E b)) -> block iv -> bytes p -> length p = (16 * n)%nat ->
  dchain n iv (Sp800_38a.cbc E n iv p) = p /\ length (Sp800_38a.cbc E n iv p) = (16 * n)%nat /\ bytes (Sp800_38a.cbc E n iv p).
Proof using. clear D_length.
  intros HE. revert iv p. induction n as [|n IH]; intros iv p Hiv Hp Hl; [destruct p; [|done]; split_and!; done|].
  cbn [Sp800_38a.cbc dchain]. assert (Hb : block (take 16 p)) by (split; [rewrite length_take; lia|by apply Forall_take]).
  destruct (HE _ (block_xor _ _ Hb Hiv)) as [HD Hc]. set (c := E (zip_with Z.lxor (take 16 p) iv)) in *.
  destruct (IH c (drop 16 p) Hc ltac:(by apply Forall_drop) ltac:(rewrite length_drop; lia)) as (H1 & H2 & H3).
  rewrite take_app_length', drop_app_length' by (symmetry; apply Hc). rewrite HD, H1, xor_twice by (rewrite (proj1 Hb); symmetry; apply Hiv).
  split_and!; [apply take_drop|rewrite length_app, H2, (proj1 Hc); lia|]. apply Forall_app. split; [apply Hc|done].
Qed.
End Chain.

Lemma store_length s : length (store_block s) = 16%nat.
Proof. by destruct s as [[[? ?] ?] ?]. Qed.

Lemma decrypt_length b key : length (AES_decrypt b key) = 16%nat.
Proof. unfold AES_decrypt. destruct (round_loop _ _ _ _ _ _). apply store_length. Qed.

Lemma cbc_dec_ok key n c iv :
  AES_cbc_encrypt c (Z.of_nat (16 * n)) key iv false = (dchain (fun b => AES_decrypt b key) n iv c, last_iv n iv c).
Proof.
  unfold AES_cbc_encrypt, AES_BLOCK_SIZE. replace (Z.to_nat (Z.of_nat (16 * n) / 16)) with n by (Z.div_mod_to_equations; lia).
  revert c iv. induction n as [|n IH]; intros c iv; [done|]. cbn [cbc_dec]. unfold AES_BLOCK_SIZE.
  rewrite (proj2 (Z.leb_le _ _)) by lia. replace (Z.of_nat (16 * S n) - 16) with (Z.of_nat (16 * n)) by lia. by rewrite IH.
Qed.

(** Encryption of whole blocks is the mode of the standard. *)
Lemma cbc_enc_ok key n p iv : fst (AES_cbc_encrypt p (Z.of_nat (16 * n)) key iv true) = Sp800_38a.cbc (fun b => AES_encrypt b key) n iv p.
Proof.
  unfold AES_cbc_encrypt, AES_BLOCK_SIZE. replace (Z.to_nat (Z.of_nat (16 * n) / 16)) with n by (Z.div_mod_to_equations; lia).
  revert p iv. induction n as [|n IH]; intros p iv; [done|]. cbn [cbc_enc Sp800_38a.cbc]. unfold AES_BLOCK_SIZE, xor_block.
  rewrite (proj2 (Z.leb_le _ _)) by lia. replace (Z.of_nat (16 * S n) - 16) with (Z.of_nat (16 * n)) by lia.
  rewrite <- IH. by destruct (cbc_enc _ _ _ _ _).
Qed.

(** * Files *)

(** The last byte of a padded text split before its last block. *)
Lemma unpad m a out : a ++ out = Sp800_38a.pad m -> (16 <= length out)%nat ->
  exists p, (1 <= p <= 16)%nat /\ nth (length out - 1) out 0 = Z.of_nat p /\ length m = (length a + (length out - p))%nat /\ m = a ++ take (length out - p) out.
Proof.
  intros E Ho. unfold Sp800_38a.pad in E. set (p := (16 - length m mod 16)%nat) in *. exists p.
  pose proof (Nat.mod_upper_bound (length m) 16 ltac:(lia)) as Hm. pose proof (f_equal length E) as El. rewrite !length_app, length_replicate in El.
  assert (Hp : (1 <= p <= 16)%nat) by (unfold p; lia). clearbody p. split_and!; [lia..| |lia|].
  - transitivity (nth (length a + (length out - 1)) (a ++ out) 0); [rewrite app_nth2 by lia; f_equal; lia|].
    rewrite E, app_nth2 by lia. rewrite nth_lookup, lookup_replicate_2 by lia. done.
  - pose proof (f_equal (take (length m)) E) as Et. rewrite take_app_length, take_app in Et. rewrite take_ge in Et by lia.
    rewrite <- Et at 1. do 2 f_equal. lia.
Qed.

Section File.
Context {W : Type} (DecryptWrite : W -> list Z -> Z * W) (accepts : forall h c, 0 <= fst (DecryptWrite h c)).
Context (key : AES_KEY) (h0 : W).
Let D (b : list Z) : list Z := AES_decrypt b key.

(** The handler after being given [out], in some chunks. *)
Definition given (h : W) (out : list Z) : Prop :=
  exists chunks, concat chunks = out /\ h = foldl (fun h c => snd (DecryptWrite h c)) h0 chunks.

Lemma given_more h out c : given h out -> given (snd (DecryptWrite h c)) (out ++ c).
Proof using.
  intros (l & Hl & ->). exists (l ++ [c]). rewrite concat_app, foldl_app. cbn. by rewrite Hl, app_nil_r.
Qed.

Definition holds (s : DecryptFileState) (l : list Z) : Prop :=
  aes_state s = key /\ dec_buf_pos s = Z.of_nat (length l) /\ take (length l) (dec_buf s) = l /\ length (dec_buf s) = 4096%nat.

(** In the header, [pre] received; in the body, [b] received after the vector
    [iv0], of which [d] blocks are decrypted and handed over. *)
Definition in_header (s : DecryptFileState) (h : W) (pre : list Z) : Prop :=
  dec_state s = 0 /\ holds s pre /\ (length pre < 20)%nat /\ h = h0.
Definition in_body (s : DecryptFileState) (h : W) (iv0 b : list Z) : Prop :=
  exists d rest, dec_state s = 1 /\ length iv0 = 16%nat /\ drop (16 * d) b = rest /\ (16 * d <= length b)%nat /\ holds s rest /\ (length rest < 4096)%nat /\
    iv s = last_iv d iv0 b /\ given h (dchain D d iv0 b) /\ (d = 0 \/ 16 <= length rest)%nat.

(** A copy of the next bytes behind those held. *)
Lemma copy_more s l data n : holds s l -> (length l + length (take n data) <= 4096)%nat ->
  exists buf, memcpy (dec_buf s) (dec_buf_pos s) (take n data) = Some buf /\
    holds (mkDec (dec_state s) (dec_buf_pos s + Z.of_nat (length (take n data))) (aes_state s) (iv s) buf) (l ++ take n data).
Proof using.
  intros (Hk & Hp & Ht & Hl) Hn. rewrite Hp, memcpy_ok by lia. eexists. split; [done|]. unfold holds. cbn [aes_state dec_buf_pos dec_buf].
  rewrite Ht. split_and!; [done|rewrite length_app; lia| |rewrite !length_app, length_drop; lia].
  by rewrite app_assoc, take_app_length.
Qed.

Lemma take_min (data : list Z) m : 0 < Z.of_nat (length data) < 2 ^ 31 -> 0 < m < 2 ^ 31 ->
  exists n, min_int (sw 32 (Z.of_nat (length data))) m = Z.of_nat n /\ length (take n data) = n /\ (0 < n)%nat /\ Z.of_nat n <= m /\
    (Z.of_nat n = m \/ take n data = data).
Proof using.
  intros Hd Hm. rewrite sw_small by (unfold insw; lia). unfold min_int. destruct (Z.ltb_spec (Z.of_nat (length data)) m).
  - exists (length data). split_and!; try done; try lia; [by rewrite take_ge by lia|]. right. by apply take_ge.
  - exists (Z.to_nat m). rewrite length_take. split_and!; lia.
Qed.

Lemma header_step s h pre data : in_header s h pre -> 0 < Z.of_nat (length data) < 2 ^ 31 ->
  exists n s', (0 < n)%nat /\ length (take n data) = n /\ let pre' := pre ++ take n data in
    ((length pre' < 20)%nat /\ decrypt_step DecryptWrite s h data = Some (s', h, inl (Z.of_nat n)) /\ in_header s' h pre') \/
    (length pre' = 20%nat /\ take 4 pre' = encrypted_file_magic /\ decrypt_step DecryptWrite s h data = Some (s', h, inl (Z.of_nat n)) /\
      in_body s' h (take 16 (drop 4 pre')) []) \/
    (length pre' = 20%nat /\ take 4 pre' <> encrypted_file_magic /\ decrypt_step DecryptWrite s h data = Some (s', h, inr (-1))).
Proof using.
  intros (Hst & Hh & Hl & ->) Hd. pose proof Hh as (_ & Hp & _). unfold ENCRYPTED_FILE_HEADER_SIZE, AES_BLOCK_SIZE in *.
  destruct (take_min data (20 - dec_buf_pos s) Hd ltac:(lia)) as (n & En & Hn & H0 & Hm & _). exists n.
  destruct (copy_more s pre data n Hh ltac:(lia)) as (buf & Ebuf & Hh'). rewrite Hn in Hh'. set (pre' := pre ++ take n data) in *.
  assert (Hl' : length pre' = (length pre + n)%nat) by (unfold pre'; rewrite length_app; lia).
  unfold decrypt_step. rewrite Hst. cbn [Z.eqb]. unfold ENCRYPTED_FILE_HEADER_SIZE, AES_BLOCK_SIZE. change (4 + 16) with 20. rewrite En, (proj2 (Z.ltb_ge _ 0)), Nat2Z.id, Ebuf by lia.
  cbn [mbind option_bind dec_state dec_buf_pos aes_state iv dec_buf]. destruct Hh' as (Hk & Hp' & Ht & Hb). cbn [dec_state dec_buf_pos aes_state iv dec_buf] in *.
  rewrite Hp'. destruct (Z.leb_spec 20 (Z.of_nat (length pre'))) as [Hge|Hlt].
  - assert (E20 : length pre' = 20%nat) by lia. assert (Ebuf4 : take 4 buf = take 4 pre') by (rewrite <- Ht, take_take; do 2 f_equal; lia).
    rewrite Ebuf4. case_bool_decide as Hmag; eexists; (split_and!; [done..|right]); [left|by right]. split_and!; [done..|].
    assert (Eiv : take 16 (drop 4 buf) = take 16 (drop 4 pre')).
    { rewrite <- Ht, E20, <- (take_drop 20 buf) at 1. rewrite drop_app_le, take_app_le by (rewrite ?length_drop, ?length_take; lia). done. }
    exists 0%nat, []. unfold holds. cbn [dec_state dec_buf_pos aes_state iv dec_buf]. rewrite Eiv. split_and!; try done; try (cbn; lia).
    + rewrite length_take, length_drop. lia.
    + by exists [].
  - eexists. split_and!; [done..|]. left. split_and!; [lia|done|]. split_and!; [done|by split_and!|lia|done].
Qed.

Lemma body_step s h iv0 b data : in_body s h iv0 b -> 0 < Z.of_nat (length data) < 2 ^ 31 ->
  exists n s' h', (0 < n)%nat /\ length (take n data) = n /\ decrypt_step DecryptWrite s h data = Some (s', h', inl (Z.of_nat n)) /\
    in_body s' h' iv0 (b ++ take n data).
Proof using accepts.
  intros (d & rest & Hst & Hiv0 & Hr & Hd & Hh & Hlr & Hiv & Hg & Hor) Hdata. pose proof Hh as (_ & Hp & _).
  destruct (take_min data (4096 - dec_buf_pos s) Hdata ltac:(lia)) as (n & En & Hn & H0 & Hm & _). exists n.
  destruct (copy_more s rest data n Hh ltac:(lia)) as (buf & Ebuf & Hh'). rewrite Hn in Hh'. set (rest' := rest ++ take n data) in *.
  assert (Hl' : length rest' = (length rest + n)%nat) by (unfold rest'; rewrite length_app; lia).
  assert (Hr' : drop (16 * d) (b ++ take n data) = rest') by (by rewrite drop_app_le, Hr by done).
  destruct (dchain_app_r D d iv0 b (take n data) Hd) as [Edc Eiv]. unfold decrypt_step. rewrite Hst. cbn [Z.eqb Pos.eqb].
  change DEC_BUF_SIZE with 4096. rewrite En, (proj2 (Z.ltb_ge _ 0)), Nat2Z.id, Ebuf by lia.
  cbn [mbind option_bind dec_state dec_buf_pos aes_state iv dec_buf]. destruct Hh' as (Hk & Hp' & Ht & Hb). cbn [dec_state dec_buf_pos aes_state iv dec_buf] in *.
  rewrite Hp'. destruct (Z.leb_spec 4096 (Z.of_nat (length rest'))) as [Hge|Hlt].
  2:{ eexists _, h. split_and!; [done..|]. exists d, rest'. assert (Hx : holds (mkDec 1 (Z.of_nat (length rest')) (aes_state s) (iv s) buf) rest') by (by split_and!).
    rewrite Eiv, Edc, length_app. split_and!; (done || lia). }
  assert (E4096 : length rest' = 4096%nat) by lia. rewrite E4096, take_ge in Ht by lia. subst buf.
  replace (Z.of_nat (length rest') - AES_BLOCK_SIZE) with (Z.of_nat (16 * 255)) by (rewrite E4096; done). rewrite Hk, cbc_dec_ok. fold D.
  assert (Hliv : length (iv s) = 16%nat) by (rewrite Hiv; apply last_iv_length; done).
  pose proof (dchain_length D (fun b => decrypt_length b key) 255 (iv s) rest' Hliv ltac:(lia)) as Hdl.
  change (fun b => AES_decrypt b key) with D. set (out := dchain D 255 (iv s) rest') in *.
  rewrite memcpy_0 by lia. cbn [mbind option_bind dec_state dec_buf_pos aes_state iv dec_buf]. rewrite Nat2Z.id.
  rewrite take_app_length' by done. pose proof (accepts h out) as Hacc. pose proof (given_more h _ out Hg) as Hg'.
  destruct (DecryptWrite h out) as [ret h']. cbn [fst snd] in *. rewrite (proj2 (Z.ltb_ge _ _)) by done.
  rewrite Hdl, drop_app_length' by done.
  assert (Hl16 : length (drop (16 * 255) rest') = 16%nat) by (rewrite length_drop; lia). rewrite (take_ge (drop _ _)) by lia.
  rewrite memcpy_0 by (rewrite length_app; lia). cbn [mbind option_bind]. eexists _, h'. split_and!; [done..|].
  exists (d + 255)%nat, (drop (16 * 255) rest'). cbn [dec_state dec_buf_pos aes_state iv dec_buf].
  destruct (dchain_split D d 255 iv0 (b ++ take n data)) as [-> ->]. rewrite Hr', Eiv, Edc, <- Hiv.
  pose proof (f_equal length Hr') as Hlen. rewrite length_drop, E4096 in Hlen. split_and!; try done; try lia.
  - rewrite <- Hr', drop_drop. f_equal. lia.
  - unfold holds. cbn [aes_state dec_buf_pos dec_buf]. split_and!; [done|by rewrite Hl16|by rewrite take_app_length|].
    rewrite length_app, (length_drop _ (length _)), length_app, Hl16, Hdl. lia.
Qed.

(** What has arrived of the file. *)
Definition received (s : DecryptFileState) (h : W) (f : list Z) : Prop :=
  in_header s h f \/ ((20 <= length f)%nat /\ take 4 f = encrypted_file_magic /\ in_body s h (take 16 (drop 4 f)) (drop 20 f)).

Lemma received_init : received (decrypt_file_init key) h0 [].
Proof using. left. split_and!; try done. cbn; lia. Qed.

Lemma received_step s h f data : received s h f -> 0 < Z.of_nat (length data) < 2 ^ 31 ->
  exists n s' h', (0 < n <= length data)%nat /\
    ((decrypt_step DecryptWrite s h data = Some (s', h', inl (Z.of_nat n)) /\ received s' h' (f ++ take n data)) \/
     (decrypt_step DecryptWrite s h data = Some (s', h', inr (-1)) /\ h' = h0 /\ (20 <= length (f ++ take n data))%nat /\ take 4 (f ++ take n data) <> encrypted_file_magic)).
Proof using accepts.
  intros [Hh|(Hl & Hm & Hb)] Hd.
  - destruct (header_step s h f data Hh Hd) as (n & s' & H0 & Hn & Hc). rewrite length_take in Hn. exists n, s', h. split; [lia|].
    destruct Hc as [(Hlt & E & Hi)|[(E20 & Hm & E & Hi)|(E20 & Hm & E)]].
    + left. split; [done|by left].
    + left. split; [done|right]. split_and!; [lia|done|]. by rewrite (drop_ge _ 20) by lia.
    + right. destruct Hh as (_ & _ & _ & ->). split_and!; try done. lia.
  - destruct (body_step s h _ _ data Hb Hd) as (n & s' & h' & H0 & Hn & E & Hi). rewrite length_take in Hn. exists n, s', h'. split; [lia|]. left. split; [done|right].
    rewrite !(take_app_le f), !(drop_app_le f), (take_app_le (drop 4 f)) by (rewrite ?length_drop; lia). split_and!; [rewrite length_app; lia|done..].
Qed.

(** A piece: all of it arrives, or the magic number is refused. *)
Lemma received_loop fuel : forall s h f data, received s h f -> Z.of_nat (length data) < 2 ^ 31 -> (length data <= fuel)%nat ->
  exists s' h', (decrypt_loop DecryptWrite fuel s h data = Some (s', h', 0) /\ received s' h' (f ++ data)) \/
    (decrypt_loop DecryptWrite fuel s h data = Some (s', h', -1) /\ h' = h0 /\ (20 <= length (f ++ data))%nat /\ take 4 (f ++ data) <> encrypted_file_magic).
Proof using accepts.
  induction fuel as [|fuel IH]; intros s h f data Hr Hl Hf.
  { destruct data; [|cbn in Hf; lia]. exists s, h. left. by rewrite app_nil_r. }
  destruct data as [|x data']; [exists s, h; left; by rewrite app_nil_r|]. cbn [decrypt_loop].
  assert (Hd : 0 < Z.of_nat (length (x :: data')) < 2 ^ 31) by (cbn [length] in *; lia). set (data := x :: data') in *.
  destruct (received_step s h f data Hr Hd) as (n & s' & h' & Hn & [[-> Hr']|(-> & -> & H20 & Hm)]); cbn [mbind option_bind].
  - rewrite Nat2Z.id. destruct (IH s' h' (f ++ take n data) (drop n data) Hr') as (s2 & h2 & Hc); [rewrite length_drop; lia..|].
    exists s2, h2. by rewrite <- app_assoc, take_drop in Hc.
  - exists s', h0. right. split_and!; try done; rewrite length_app, length_take in H20.
    + rewrite length_app. lia.
    + rewrite <- (take_drop n data), app_assoc, take_app_le by (rewrite length_app, length_take; lia). done.
Qed.

Lemma flush_ok s h f m n : received s h f -> (20 <= length f)%nat -> length (drop 20 f) = (16 * S n)%nat ->
  dchain D (S n) (take 16 (drop 4 f)) (drop 20 f) = Sp800_38a.pad m ->
  exists s' h', decrypt_file_flush DecryptWrite s h = Some (s', h', 0) /\ given h' m.
Proof using accepts.
  intros [(_ & _ & Hlt & _)|(_ & _ & Hb)] H20 Hl Hm; [lia|]. set (iv0 := take 16 (drop 4 f)) in *. set (b := drop 20 f) in *.
  destruct Hb as (d & rest & Hst & Hiv0 & Hr & Hd & Hh & Hlr & Hiv & Hg & Hor). destruct Hh as (Hk & Hp & Ht & Hb).
  assert (exists r, length rest = (16 * r)%nat /\ S n = (d + r)%nat /\ (1 <= r)%nat) as (r & Er & En & Hr1).
  { exists (S n - d)%nat. rewrite <- Hr, length_drop in *. lia. }
  unfold decrypt_file_flush. rewrite Hst. cbn [Z.eqb Pos.eqb negb]. rewrite Hp, Er.
  assert (Hrem : Z.rem (Z.of_nat (16 * r)) AES_BLOCK_SIZE = 0).
  { unfold AES_BLOCK_SIZE. rewrite Z.rem_mod_nonneg by lia. replace (Z.of_nat (16 * r)) with (Z.of_nat r * 16) by lia. apply Z.mod_mul. lia. }
  rewrite (proj2 (Z.eqb_neq (Z.of_nat (16 * r)) 0)), Hrem by lia. cbn [Z.eqb negb orb]. rewrite Hk, cbc_dec_ok. change (fun b => AES_decrypt b key) with D.
  rewrite Er in Ht. assert (Edc : dchain D r (iv s) (dec_buf s) = dchain D r (iv s) rest).
  { rewrite <- (take_drop (16 * r) (dec_buf s)), Ht. apply dchain_app_r. lia. }
  rewrite Edc.
  assert (Hliv : length (iv s) = 16%nat) by (rewrite Hiv; by apply last_iv_length).
  pose proof (dchain_length D (fun b => decrypt_length b key) r (iv s) rest Hliv ltac:(lia)) as Hlo. set (out := dchain D r (iv s) rest) in *.
  assert (Hpad : dchain D d iv0 b ++ out = Sp800_38a.pad m).
  { rewrite <- Hm, En. destruct (dchain_split D d r iv0 b) as [-> _]. by rewrite Hr, <- Hiv. }
  rewrite memcpy_0 by lia. cbn [mbind option_bind dec_state dec_buf_pos aes_state iv dec_buf]. rewrite Hlo.
  pose proof (dchain_length D (fun b => decrypt_length b key) d iv0 b Hiv0 Hd) as Hld.
  destruct (unpad m (dchain D d iv0 b) out Hpad ltac:(lia)) as (p & Hp16 & Hlast & Hlm & Htake).
  assert (Elast : arr_get 0 (out ++ drop (16 * r) (dec_buf s)) (Z.of_nat (16 * r) - 1) = Z.of_nat p).
  { unfold arr_get. rewrite app_nth1 by lia. rewrite <- Hlast. f_equal. lia. }
  rewrite Elast, (proj2 (Z.ltb_ge _ 1)), (proj2 (Z.ltb_ge AES_BLOCK_SIZE _)) by (unfold AES_BLOCK_SIZE; lia). cbn [orb].
  replace (Z.of_nat (16 * r) - Z.of_nat p) with (Z.of_nat (length out - p)) by lia. rewrite Nat2Z.id, take_app_le by lia. unfold nz.
  destruct (Z.eqb_spec (Z.of_nat (length out - p)) 0) as [E0|_]; cbn [negb].
  - eexists _, h. split; [done|]. rewrite Htake. replace (length out - p)%nat with 0%nat by lia. cbn. by rewrite app_nil_r.
  - pose proof (accepts h (take (length out - p) out)) as Hacc. pose proof (given_more h _ (take (length out - p) out) Hg) as Hg'.
    destruct (DecryptWrite h _) as [ret h']. cbn [fst snd] in *. rewrite (proj2 (Z.ltb_ge _ _)) by done. eexists _, h'. split; [done|]. by rewrite Htake.
Qed.

(** A transfer whose magic number is right, and one whose is wrong. *)
Lemma transfer_ok pieces : forall s h f m n file, received s h f -> Forall (fun p => Z.of_nat (length p) < 2 ^ 31) pieces ->
  f ++ concat pieces = file -> (20 <= length file)%nat -> take 4 file = encrypted_file_magic ->
  length (drop 20 file) = (16 * S n)%nat -> dchain D (S n) (take 16 (drop 4 file)) (drop 20 file) = Sp800_38a.pad m ->
  exists s' h', decrypt_transfer DecryptWrite s h pieces = Some (s', h', 0) /\ given h' m.
Proof using accepts.
  induction pieces as [|p pieces IH]; intros s h f m n file Hr Hp E H20 Hmag Hl Hm; cbn [concat decrypt_transfer] in *.
  { rewrite app_nil_r in E. subst file. by eapply flush_ok. }
  inversion Hp as [|?? Hpl Hps]; subst. destruct (received_loop (length p) s h f p Hr Hpl ltac:(lia)) as (s' & h' & [[E' Hr']|(_ & _ & H20' & Hbad)]).
  - unfold decrypt_file. rewrite E'. cbn [mbind option_bind Z.ltb Z.compare]. eapply IH; [exact Hr'|done|by rewrite <- app_assoc|done..].
  - exfalso. apply Hbad. by rewrite app_assoc, take_app_le in Hmag by lia.
Qed.

Lemma transfer_refused pieces : forall s h f, received s h f -> Forall (fun p => Z.of_nat (length p) < 2 ^ 31) pieces ->
  (length f < 20 <= length (f ++ concat pieces))%nat -> take 4 (f ++ concat pieces) <> encrypted_file_magic ->
  exists s', decrypt_transfer DecryptWrite s h pieces = Some (s', h0, -1).
Proof using accepts.
  induction pieces as [|p pieces IH]; intros s h f Hr Hp H20 Hmag; cbn [concat decrypt_transfer] in *; [rewrite app_nil_r in H20; lia|].
  inversion Hp as [|?? Hpl Hps]; subst. destruct (received_loop (length p) s h f p Hr Hpl ltac:(lia)) as (s' & h' & [[E' Hr']|(E' & -> & H20' & Hbad)]);
    unfold decrypt_file; rewrite E'; cbn [mbind option_bind]; [|by exists s'].
  rewrite app_assoc in H20, Hmag. apply (IH _ _ _ Hr'); [done| |done]. split; [|lia]. destruct (Nat.lt_ge_cases (length (f ++ p)) 20) as [|Hge]; [done|].
  exfalso. destruct Hr' as [(_ & _ & Hlt & _)|(_ & Hm & _)]; [lia|]. apply Hmag. by rewrite take_app_le by lia.
Qed.
End File.

(** A file as it is served: the magic number, the vector, the padded text in
    chained blocks. *)
Definition encrypted_file (userKey : list Z) (bits : Z) (iv m : list Z) : list Z :=
  let E := Fips197.Cipher (Nr_of bits) (Fips197.KeyExpansion (Nk_of bits) (Nr_of bits) userKey) in
  encrypted_file_magic ++ iv ++ Sp800_38a.cbc E (length (Sp800_38a.pad m) / 16) iv (Sp800_38a.pad m).

Lemma pad_ok m : bytes m -> exists k, length (Sp800_38a.pad m) = (16 * S k)%nat /\ bytes (Sp800_38a.pad m).
Proof.
  intros Hm. exists (length m / 16)%nat. unfold Sp800_38a.pad. pose proof (Nat.div_mod (length m) 16 ltac:(lia)) as Hd.
  pose proof (Nat.mod_upper_bound (length m) 16 ltac:(lia)). rewrite length_app, length_replicate. split; [lia|].
  apply Forall_app. split; [done|]. apply Forall_replicate. unfold inw. lia.
Qed.

(** The decryption schedule undoes the standard's cipher. *)
Lemma block_undone userKey bits key0 : length (rd_key key0) = 60%nat -> valid_bits bits -> bytes userKey -> Z.of_nat (length userKey) = bits / 8 ->
  let E := Fips197.Cipher (Nr_of bits) (Fips197.KeyExpansion (Nk_of bits) (Nr_of bits) userKey) in
  forall b, block b -> AES_decrypt (E b) (snd (AES_set_decrypt_key userKey bits key0)) = b /\ block (E b).
Proof.
  intros Hrd Hv Hb Hl E b [Hbl Hbb]. destruct (set_encrypt_ok userKey bits key0 Hv Hl Hb Hrd) as (rd & Ek & Hf). destruct (even_rounds bits Hv) as (n & Hn & H1).
  rewrite (set_decrypt_ok _ _ _ _ Ek). cbn [snd]. unfold E. set (w := Fips197.KeyExpansion _ _ _) in *. pose proof (round_key_wf rd w (Nr_of bits) Hf) as Hwf.
  destruct (cipher_block w (Nr_of bits) Hwf b ltac:(lia) Hbl Hbb) as [Hcl Hcb]. split; [|done].
  rewrite (decrypt_ok rd w (Nr_of bits) Hf n) by done. apply inv_cipher; (done || lia).
Qed.

(** C18: a file encrypted as the standards say (AES of FIPS 197 with a 128, 192 or
    256 bit key, chained blocks of SP 800-38A, PKCS #7 padding) and received in
    any pieces is decrypted to its text: every call returns 0 and the handler has
    been given exactly the text, in order.  A transfer of at least a header whose
    magic number is another one returns -1 and gives the handler nothing. *)
Theorem decrypt_file_exact {W} (DecryptWrite : W -> list Z -> Z * W) h0 userKey bits key0 iv m pieces :
  (forall h c, 0 <= fst (DecryptWrite h c)) -> length (rd_key key0) = 60%nat -> valid_bits bits ->
  Forall (inw 8) userKey -> Z.of_nat (length userKey) = bits / 8 -> length iv = 16%nat -> Forall (inw 8) iv -> Forall (inw 8) m ->
  Forall (fun p => Z.of_nat (length p) < 2 ^ 31) pieces ->
  let dk := snd (AES_set_decrypt_key userKey bits key0) in
  (concat pieces = encrypted_file userKey bits iv m ->
    exists s h, decrypt_transfer DecryptWrite (decrypt_file_init dk) h0 pieces = Some (s, h, 0) /\ given DecryptWrite h0 h m) /\
  ((20 <= length (concat pieces))%nat -> take 4 (concat pieces) <> encrypted_file_magic ->
    exists s, decrypt_transfer DecryptWrite (decrypt_file_init dk) h0 pieces = Some (s, h0, -1)).
Proof.
  intros Hacc Hrd Hv Hb Hl Hivl Hivb Hm Hp dk. split.
  2:{ intros H20 Hmag. eapply (transfer_refused DecryptWrite Hacc dk h0 pieces); [apply received_init|done|cbn; lia|done]. }
  intros Epieces. pose proof (block_undone userKey bits key0 Hrd Hv Hb Hl) as HE. cbv zeta in HE. fold dk in HE. unfold encrypted_file in Epieces.
  set (E := Fips197.Cipher _ _) in *. clearbody E dk. destruct (pad_ok m Hm) as (k & Hpl & Hpb).
  rewrite Hpl in Epieces. replace (16 * S k / 16)%nat with (S k) in Epieces by (rewrite Nat.mul_comm, Nat.div_mul; lia).
  destruct (dchain_cbc (fun b => AES_decrypt b dk) E (S k) iv (Sp800_38a.pad m) HE (conj Hivl Hivb) Hpb Hpl) as (Hd & Hcl & _).
  set (c := Sp800_38a.cbc E (S k) iv (Sp800_38a.pad m)) in *. clearbody c.
  eapply (transfer_ok DecryptWrite Hacc dk h0 pieces _ _ [] m k (concat pieces)); [apply received_init|done|done|..]; rewrite Epieces.
  - rewrite !length_app, Hivl. change (length encrypted_file_magic) with 4%nat. lia.
  - done.
  - rewrite app_assoc, drop_app_length' by (by rewrite length_app, Hivl). done.
  - rewrite (drop_app_length' encrypted_file_magic) by done. rewrite take_app_length' by done.
    rewrite app_assoc, drop_app_length' by (by rewrite length_app, Hivl). done.
Qed.

Lemma decrypt_file_exact_witness :
  let write (h c : list Z) := (0, h ++ c) in
  let dk := snd (AES_set_decrypt_key (replicate 16 1) 128 (mkAES_KEY (replicate 60 0) 0)) in
  let file := encrypted_file (replicate 16 1) 128 (replicate 16 2) [104; 105] in
  exists s h, decrypt_transfer write (decrypt_file_init dk) [] [take 7 file; drop 7 file] = Some (s, h, 0) /\ given write [] h [104; 105].
Proof.
  cbv zeta. remember (encrypted_file (replicate 16 1) 128 (replicate 16 2) [104; 105]) as file eqn:Ef.
  assert (Hlen : length file = 36%nat) by (rewrite Ef; vm_compute; reflexivity).
  assert (Hp : Forall (fun p => Z.of_nat (length p) < 2 ^ 31) [take 7 file; drop 7 file]).
  { repeat apply Forall_cons_2; [rewrite length_take, Hlen; cbn; lia|rewrite length_drop, Hlen; cbn; lia|done]. }
  refine (proj1 (decrypt_file_exact (fun h c => (0, h ++ c)) [] (replicate 16 1) 128 (mkAES_KEY (replicate 60 0) 0) (replicate 16 2) [104; 105]
    [take 7 file; drop 7 file] _ eq_refl _ _ eq_refl eq_refl _ _ Hp) _).
  - intros h c. cbn. lia.
  - by left.
  - apply Forall_replicate. unfold inw. lia.
  - apply Forall_replicate. unfold inw. lia.
  - repeat apply Forall_cons_2; try done; unfold inw; lia.
  - cbn [concat]. rewrite app_nil_r, take_drop. exact Ef.
Defined.
