(* ===== verification/IoMem.v ===== *)
(** The physical memory map: [src/core/iomem.h], [iomem.cpp].

    A [PhysMemoryRange] is a RAM or device range; its device is an
    implementation of the [DeviceIO] interface, a record of the two virtual
    methods over some device state.  Host pointers ([phys_mem]) are integers.
    The theorems show that an access of any width and alignment is fitted to
    the widths a range takes so that the device sees only accesses it was
    registered for, that over plain storage the fitting is invisible, that
    the lookup finds the range that covers an address, and that the dirty
    bitmaps report exactly the pages written. *)

From stdpp Require Import base numbers list.
From S2P Require Import Prelude Bits Cutils.
Local Open Scope Z_scope.

Definition DEVIO_SIZE8 : Z := bit_at 32 0.
Definition DEVIO_SIZE16 : Z := bit_at 32 1.
Definition DEVIO_SIZE32 : Z := bit_at 32 2.
Definition DEVIO_SIZE64 : Z := bit_at 32 3.
Definition DEVIO_SIZES : Z := 0xf.
Definition DEVIO_DISABLED : Z := bit_at 32 4.
Definition DEVIO_WRITE_MERGE : Z := bit_at 32 5.
Definition DEVIO_UNALIGNED : Z := bit_at 32 6.

Definition DEVRAM_FLAG_ROM : Z := bit_at 32 0.
Definition DEVRAM_FLAG_DIRTY_BITS : Z := bit_at 32 1.
Definition DEVRAM_FLAG_DISABLED : Z := bit_at 32 2.
Definition DEVRAM_PAGE_SIZE_LOG2 : Z := 12.
Definition DEVRAM_PAGE_SIZE : Z := 4096.
Definition PHYS_MEM_RANGE_MAX : nat := 64.

(** A device serves reads and writes of one mapped range. *)
Record DeviceIO (D : Type) := mkDeviceIO {
  io_read : D -> Z -> Z -> D * Z;
  io_write : D -> Z -> Z -> Z -> D;
}.
Arguments io_read {D} _ _ _ _.
Arguments io_write {D} _ _ _ _ _.

(** * Fitting an access to the widths of a range *)

(** Whether an access goes to the device as it is. *)
Definition passes_on (devio_flags offset size_log2 : Z) : bool :=
  get_bit 32 devio_flags size_log2 &&
  (nz (Z.land devio_flags DEVIO_UNALIGNED) ||
   (Z.land offset (bit_mask 32 size_log2) =? 0)).

(** Whether an access that does not pass on is split into halves. *)
Definition splits (devio_flags offset size_log2 : Z) : bool :=
  nz (Z.land devio_flags (bit_mask 32 size_log2)) ||
  nz (Z.land offset (bit_mask 32 size_log2)).

(** The narrowest width taken, and the register of that width holding
    [offset]. *)
Definition narrowest (devio_flags offset : Z) : Z * Z :=
  let wide := ctz32 (Z.land devio_flags DEVIO_SIZES) in
  (wide, Z.ldiff offset (bit_mask 32 wide)).

Section Fit.
Context {D : Type} (io : DeviceIO D) (devio_flags : Z).

(** [PhysMemoryRange::DeviceRead]; [None] is the result false.  A split
    halves the width, so the width is the recursion; at one byte nothing
    splits. *)
Fixpoint DeviceRead (d : D) (offset : Z) (size_log2 : nat) : D * option Z :=
  let sz := Z.of_nat size_log2 in
  let bits := Z.shiftl 8 sz in
  if Z.land devio_flags DEVIO_SIZES =? 0 then (d, None)
  else if passes_on devio_flags offset sz then
    let '(d, v) := io_read io d offset sz in (d, Some (get_bits 64 v 0 bits))
  else if splits devio_flags offset sz then
    match size_log2 with
    | O => (d, None)
    | S half =>
      let '(d, low) := DeviceRead d offset half in
      let '(d, high) := DeviceRead d (u32 (offset + bits / 16)) half in
      (d, Some (concat_bits 64 (default 0 high) (default 0 low) (bits / 2)))
    end
  else
    let '(wide, reg) := narrowest devio_flags offset in
    let '(d, v) := io_read io d reg wide in
    (d, Some (get_bits 64 v ((offset - reg) * 8) bits)).

(** [PhysMemoryRange::DeviceWrite] *)
Fixpoint DeviceWrite (d : D) (offset val : Z) (size_log2 : nat) : D * bool :=
  let sz := Z.of_nat size_log2 in
  let bits := Z.shiftl 8 sz in
  if Z.land devio_flags DEVIO_SIZES =? 0 then (d, false)
  else
    let val := get_bits 64 val 0 bits in
    if passes_on devio_flags offset sz then (io_write io d offset val sz, true)
    else if splits devio_flags offset sz then
      match size_log2 with
      | O => (d, false)
      | S half =>
        let '(d, low) := DeviceWrite d offset val half in
        let '(d, high) := DeviceWrite d (u32 (offset + bits / 16))
                            (Z.shiftr val (bits / 2)) half in
        (d, low && high)
      end
    else if Z.land devio_flags DEVIO_WRITE_MERGE =? 0 then (d, false)
    else
      let '(wide, reg) := narrowest devio_flags offset in
      let '(d, v) := io_read io d reg wide in
      let val := set_bits 64 v ((offset - reg) * 8) bits val in
      (io_write io d reg (get_bits 64 val 0 (Z.shiftl 8 wide)) wide, true).
End Fit.

(** * Ranges and the map *)

Record PhysMemoryRange := mkRange {
  addr : Z;
  org_size : Z;
  size : Z;
  is_ram : bool;
  devram_flags : Z;
  phys_mem : Z;
  (** in bytes *)
  dirty_bits_size : Z;
  (** the table in use, [None] for a null pointer *)
  dirty_bits : option Z;
  dirty_bits_tab : list (list Z);
  dirty_bits_index : Z;
  (** names the device; [None] for a null pointer *)
  io : option Z;
  devio_flags : Z;
}.
#[export] Instance eta_range : Eta PhysMemoryRange := fun r =>
  mkRange (addr r) (org_size r) (size r) (is_ram r) (devram_flags r) (phys_mem r)
    (dirty_bits_size r) (dirty_bits r) (dirty_bits_tab r) (dirty_bits_index r)
    (io r) (devio_flags r).

Definition range0 : PhysMemoryRange :=
  mkRange 0 0 0 false 0 0 0 None [[]; []] 0 None 0.

(** [fRangeCount] is the number of registered ranges; [flushed] are the
    calls made on [fTlbFlushTarget], latest first. *)
Record PhysMemoryMap := mkMap {
  fRanges : list PhysMemoryRange;
  fTlbFlushTarget : bool;
  flushed : list (Z * Z);
}.
#[export] Instance eta_map : Eta PhysMemoryMap := fun m =>
  mkMap (fRanges m) (fTlbFlushTarget m) (flushed m).

Definition FlushTlbWriteRange (ram_addr ram_size : Z) (m : PhysMemoryMap) : PhysMemoryMap :=
  if fTlbFlushTarget m then m <| flushed := (ram_addr, ram_size) :: flushed m |> else m.

(** The test of [FindRange]; [addr + size] is a [uint64_t] sum. *)
Definition covers (paddr : Z) (pr : PhysMemoryRange) : bool :=
  (addr pr <=? paddr) && (paddr <? u64 (addr pr + size pr)).

Fixpoint find_range (l : list PhysMemoryRange) (i : Z) (paddr : Z) : option Z :=
  match l with
  | [] => None
  | pr :: l => if covers paddr pr then Some i else find_range l (i + 1) paddr
  end.

(** The index of the range, [None] for a null pointer. *)
Definition FindRange (m : PhysMemoryMap) (paddr : Z) : option Z :=
  find_range (fRanges m) 0 paddr.

Definition RangeAt (m : PhysMemoryMap) (i : Z) : PhysMemoryRange :=
  arr_get range0 (fRanges m) i.

Definition upd_range (i : Z) (f : PhysMemoryRange -> PhysMemoryRange) (m : PhysMemoryMap) :
  PhysMemoryMap := m <| fRanges := arr_set (fRanges m) i (f (RangeAt m i)) |>.

(** ** Dirty bits *)

Definition dirty_tab (pr : PhysMemoryRange) : list Z :=
  match dirty_bits pr with
  | Some t => arr_get [] (dirty_bits_tab pr) t
  | None => []
  end.

Definition set_dirty_tab (t : Z) (l : list Z) (pr : PhysMemoryRange) : PhysMemoryRange :=
  pr <| dirty_bits_tab := arr_set (dirty_bits_tab pr) t l |>.

Definition SetDirtyBit (offset : Z) (pr : PhysMemoryRange) : PhysMemoryRange :=
  match dirty_bits pr with
  | None => pr
  | Some t =>
    let page_index := Z.shiftr offset DEVRAM_PAGE_SIZE_LOG2 in
    let mask := bit_at 32 (page_index mod 32) in
    let word := Z.shiftr page_index 5 in
    set_dirty_tab t (arr_set (dirty_tab pr) word
                       (Z.lor (arr_get 0 (dirty_tab pr) word) mask)) pr
  end.

Definition IsDirtyBit (offset : Z) (pr : PhysMemoryRange) : bool :=
  match dirty_bits pr with
  | None => true
  | Some t =>
    let page_index := Z.shiftr offset DEVRAM_PAGE_SIZE_LOG2 in
    get_bit 32 (arr_get 0 (dirty_tab pr) (page_index / 32)) (page_index mod 32)
  end.

Definition ResetDirtyBit (i offset : Z) (m : PhysMemoryMap) : PhysMemoryMap :=
  let pr := RangeAt m i in
  match dirty_bits pr with
  | None => m
  | Some t =>
    let page_index := Z.shiftr offset DEVRAM_PAGE_SIZE_LOG2 in
    let mask := bit_at 32 (page_index mod 32) in
    let word := Z.shiftr page_index 5 in
    let v := arr_get 0 (dirty_tab pr) word in
    if Z.land v mask =? 0 then m
    else
      FlushTlbWriteRange (phys_mem pr + Z.ldiff offset (DEVRAM_PAGE_SIZE - 1)) DEVRAM_PAGE_SIZE
        (upd_range i (set_dirty_tab t (arr_set (dirty_tab pr) word (Z.ldiff v mask))) m)
  end.

(** The bitmap in use and the map with the other, cleared, one in its
    place. *)
Definition GetDirtyBits (i : Z) (m : PhysMemoryMap) : list Z * PhysMemoryMap :=
  let pr := RangeAt m i in
  let bits := dirty_tab pr in
  let next := Z.lxor (dirty_bits_index pr) 1 in
  let n := dirty_bits_size pr / 4 in
  let m := upd_range i (fun pr => set_dirty_tab next (replicate (Z.to_nat n) 0) pr
             <| dirty_bits_index := next |>
             (* both tables are null when the range keeps no dirty bits *)
             <| dirty_bits := option_map (fun _ => next) (dirty_bits pr) |>) m in
  let has_dirty_bits := existsb nz (take (Z.to_nat n) bits) in
  (bits,
   if has_dirty_bits && nz (size pr)
   then FlushTlbWriteRange (phys_mem pr) (org_size pr) m else m).

(** ** Registering and moving ranges *)

(** The asserts are [None]. *)
Definition RegisterRamEntry (a sz flags : Z) (m : PhysMemoryMap) :
  option (Z * PhysMemoryMap) :=
  if (length (fRanges m) <? PHYS_MEM_RANGE_MAX)%nat &&
     (Z.land sz (DEVRAM_PAGE_SIZE - 1) =? 0) && nz sz
  then
    let pr := range0 <| is_ram := true |>
      <| devram_flags := Z.ldiff flags DEVRAM_FLAG_DISABLED |>
      <| addr := a |> <| org_size := sz |>
      <| size := if nz (Z.land flags DEVRAM_FLAG_DISABLED) then 0 else sz |> in
    Some (Z.of_nat (length (fRanges m)), m <| fRanges := fRanges m ++ [pr] |>)
  else None.

(** [ptr] is what [host_ram_alloc] returns, [None] when it fails, which
    ends the program. *)
Definition RegisterRam (a sz flags : Z) (ptr : option Z) (m : PhysMemoryMap) :
  option (Z * PhysMemoryMap) :=
  match RegisterRamEntry a sz flags m, ptr with
  | Some (i, m), Some p =>
    let nb_pages := Z.shiftr sz DEVRAM_PAGE_SIZE_LOG2 in
    let words := (nb_pages + 31) / 32 in
    Some (i, upd_range i (fun pr =>
      let pr := pr <| phys_mem := p |> in
      if nz (Z.land flags DEVRAM_FLAG_DIRTY_BITS) then
        pr <| dirty_bits_size := words * 4 |> <| dirty_bits_index := 0 |>
           <| dirty_bits_tab := replicate 2 (replicate (Z.to_nat words) 0) |>
           <| dirty_bits := Some 0 |>
      else pr) m)
  | _, _ => None
  end.

Definition RegisterDevice (a sz io_id flags : Z) (m : PhysMemoryMap) :
  option (Z * PhysMemoryMap) :=
  if (length (fRanges m) <? PHYS_MEM_RANGE_MAX)%nat && (sz <=? 0xffffffff)
  then
    let pr := range0 <| addr := a |> <| org_size := sz |>
      <| size := if nz (Z.land flags DEVIO_DISABLED) then 0 else sz |>
      <| is_ram := false |> <| io := Some io_id |> <| devio_flags := flags |> in
    Some (Z.of_nat (length (fRanges m)), m <| fRanges := fRanges m ++ [pr] |>)
  else None.

Definition RegisterRomDevice (a sz io_id io_flags ram_flags : Z) (ptr : option Z)
  (m : PhysMemoryMap) : option (Z * PhysMemoryMap) :=
  match RegisterRam a sz (Z.lor ram_flags DEVRAM_FLAG_ROM) ptr m with
  | Some (i, m) =>
    Some (i, upd_range i (fun pr => pr <| io := Some io_id |> <| devio_flags := io_flags |>) m)
  | None => None
  end.

Definition SetRamAddr (i a : Z) (enabled : bool) (m : PhysMemoryMap) : PhysMemoryMap :=
  let pr := RangeAt m i in
  let flush m := if is_ram pr then FlushTlbWriteRange (phys_mem pr) (org_size pr) m else m in
  if enabled then
    if (size pr =? 0) || negb (addr pr =? a)
    then upd_range i (fun pr => pr <| addr := a |> <| size := org_size pr |>) (flush m)
    else m
  else
    if nz (size pr)
    then upd_range i (fun pr => pr <| addr := 0 |> <| size := 0 |>) (flush m)
    else m.

(** The host address of a RAM byte. *)
Definition GetRamPtr (m : PhysMemoryMap) (paddr : Z) (is_rw : bool) :
  option Z * PhysMemoryMap :=
  match FindRange m paddr with
  | Some i =>
    let pr := RangeAt m i in
    if is_ram pr then
      let offset := paddr - addr pr in
      (Some (phys_mem pr + offset), if is_rw then upd_range i (SetDirtyBit offset) m else m)
    else (None, m)
  | None => (None, m)
  end.

(** One access against whichever device covers the address; [devs] is the
    device each [io] pointer names. *)
Section Ports.
Context {D : Type} (devs : Z -> DeviceIO D).

Definition range_io (pr : PhysMemoryRange) : DeviceIO D := devs (default 0 (io pr)).

Definition IoRead (m : PhysMemoryMap) (d : D) (a : Z) (size_log2 : nat) : D * Z :=
  match FindRange m a with
  | Some i =>
    let pr := RangeAt m i in
    if is_ram pr then (d, u32 (-1))
    else match DeviceRead (range_io pr) (devio_flags pr) d (u32 (a - addr pr)) size_log2 with
         | (d, Some v) => (d, u32 v)
         | (d, None) => (d, u32 (-1))
         end
  | None => (d, u32 (-1))
  end.

Definition IoWrite (m : PhysMemoryMap) (d : D) (a val : Z) (size_log2 : nat) : D :=
  match FindRange m a with
  | Some i =>
    let pr := RangeAt m i in
    if is_ram pr then d
    else (DeviceWrite (range_io pr) (devio_flags pr) d (u32 (a - addr pr)) (u32 val) size_log2).1
  | None => d
  end.
End Ports.

(** * The accesses a device sees *)

(** An access a range with these flags was registered for. *)
Definition legal (flags offset sz : Z) : Prop :=
  0 <= sz <= 3 /\ inw 32 offset /\ Z.testbit flags sz = true /\
  (Z.testbit flags 6 = true \/ offset mod 2 ^ sz = 0).

Lemma land_mask offset sz : 0 <= sz <= 32 ->
  Z.land offset (bit_mask 32 sz) = offset mod 2 ^ sz.
Proof. intros. rewrite bit_mask_ones, Z.min_r by lia. by rewrite Z.land_ones by lia. Qed.

Lemma ldiff_mask offset sz : 0 <= sz <= 32 ->
  Z.ldiff offset (bit_mask 32 sz) = offset - offset mod 2 ^ sz.
Proof.
  intros. rewrite bit_mask_ones, Z.min_r, Z.ldiff_ones_r by lia.
  rewrite Z.shiftr_div_pow2, Z.shiftl_mul_pow2 by lia.
  pose proof (Z.div_mod offset (2 ^ sz)). pose proof (pow2_pos sz). lia.
Qed.

Lemma passes_on_legal flags offset sz : inw 32 offset -> 0 <= sz <= 3 ->
  passes_on flags offset sz = true -> legal flags offset sz.
Proof.
  intros Ho Hs. unfold passes_on. rewrite get_bit_testbit by lia.
  unfold DEVIO_UNALIGNED. rewrite nz_bit_at, land_mask by lia.
  rewrite andb_true_iff, orb_true_iff, Z.eqb_eq. unfold legal. tauto.
Qed.

Lemma sizes_mask flags : Z.land flags DEVIO_SIZES = flags mod 2 ^ 4.
Proof. unfold DEVIO_SIZES. change 0xf with (Z.ones 4). by rewrite Z.land_ones. Qed.

(** What the last branch of both methods relies on: the access is aligned
    and lies inside the narrowest register. *)
Lemma narrowest_spec flags offset sz wide reg :
  inw 32 offset -> 0 <= sz <= 3 -> Z.land flags DEVIO_SIZES <> 0 ->
  passes_on flags offset sz = false -> splits flags offset sz = false ->
  narrowest flags offset = (wide, reg) ->
  legal flags reg wide /\ sz < wide <= 3 /\ 
  0 <= reg <= offset /\ offset + 2 ^ sz <= reg + 2 ^ wide /\ reg + 2 ^ wide <= 2 ^ 32.
Proof.
  intros Ho Hsz Hnz Hp Hs. unfold narrowest. 
  assert (inw 4 (Z.land flags DEVIO_SIZES)) as Hin.
  { rewrite sizes_mask. apply inw_uw. lia. }
  destruct (ctz32_lowest (Z.land flags DEVIO_SIZES)) as [(Hc & Hcbit & Hclow) _];
    [by apply (inw_mono 4)|done|].
  set (w := ctz32 _) in *. intros [= <- <-].
  assert (Hw3 : w <= 3).
  { destruct (decide (w <= 3)); [done|].
    rewrite (inw_high 4 (Z.land flags DEVIO_SIZES)) in Hcbit by (done || lia). done. }
  assert (Hbits : forall i, 0 <= i < 4 ->
    Z.testbit (Z.land flags DEVIO_SIZES) i = Z.testbit flags i).
  { intros i Hi. rewrite sizes_mask, Z.testbit_mod_pow2 by lia.
    by destruct (Z.ltb_spec i 4); [|lia]. }
  rewrite Hbits in Hcbit by lia.
  unfold splits in Hs. rewrite !land_mask in Hs by lia.
  apply orb_false_elim in Hs as [Hs1%negb_false_iff%Z.eqb_eq Hs2%negb_false_iff%Z.eqb_eq].
  assert (Hge : sz <= w).
  { destruct (decide (sz <= w)); [done|]. exfalso.
    apply (bit_nonzero (flags mod 2 ^ sz) w); [|done].
    rewrite Z.testbit_mod_pow2 by lia. by destruct (Z.ltb_spec w sz); [|lia]. }
  assert (w <> sz).
  { intros Heq. unfold passes_on in Hp. rewrite get_bit_testbit, land_mask, Hs2 in Hp by lia.
    rewrite Heq in Hcbit. rewrite Hcbit, orb_true_r in Hp. done. }
  rewrite ldiff_mask by lia. unfold inw in Ho.
  assert (w = 1 \/ w = 2 \/ w = 3) as Hw by lia.
  assert (sz = 0 \/ sz = 1 \/ sz = 2) as Hsz' by lia.
  unfold legal, inw. repeat split; try lia; try done;
    try right;
    destruct Hw as [-> | [-> | ->]], Hsz' as [-> | [-> | ->]]; try lia;
    change (2 ^ 0) with 1 in *; change (2 ^ 1) with 2 in *; change (2 ^ 2) with 4 in *;
    change (2 ^ 3) with 8 in *; change (2 ^ 32) with 4294967296 in *;
    Z.div_mod_to_equations; lia.
Qed.

Lemma shiftl_8 sz : 0 <= sz -> Z.shiftl 8 sz = 8 * 2 ^ sz.
Proof. intros. by apply Z.shiftl_mul_pow2. Qed.

Lemma half_bits n : Z.shiftl 8 (Z.of_nat (S n)) / 2 = 8 * 2 ^ Z.of_nat n /\
  Z.shiftl 8 (Z.of_nat (S n)) / 16 = 2 ^ Z.of_nat n.
Proof.
  rewrite shiftl_8, Nat2Z.inj_succ, Z.pow_succ_r by lia. split.
  - replace (8 * (2 * 2 ^ Z.of_nat n)) with (8 * 2 ^ Z.of_nat n * 2) by lia.
    by rewrite Z.div_mul.
  - replace (8 * (2 * 2 ^ Z.of_nat n)) with (2 ^ Z.of_nat n * 16) by lia.
    by rewrite Z.div_mul.
Qed.

(** The four widths. *)
Lemma width_cases n : (n <= 3)%nat ->
  8 * 2 ^ Z.of_nat n = 8 \/ 8 * 2 ^ Z.of_nat n = 16 \/
  8 * 2 ^ Z.of_nat n = 32 \/ 8 * 2 ^ Z.of_nat n = 64.
Proof. intros. do 4 (destruct n; [vm_compute; tauto|]). lia. Qed.

Lemma width_le sz : 0 <= sz <= 3 -> 8 <= 8 * 2 ^ sz <= 64.
Proof.
  intros. assert (sz = 0 \/ sz = 1 \/ sz = 2 \/ sz = 3) as [-> | [-> | [-> | ->]]] by lia;
    vm_compute; split; congruence.
Qed.

Lemma inw_access v sz : 0 <= sz <= 3 ->
  inw (8 * 2 ^ sz) (get_bits 64 v 0 (Z.shiftl 8 sz)).
Proof.
  intros. rewrite shiftl_8 by lia. pose proof (width_le sz). apply inw_get_bits; lia.
Qed.

Section Agree.
Context {D : Type} (io1 io2 : DeviceIO D) (flags : Z).
Context (Hread : forall d off sz, legal flags off sz ->
           io_read io1 d off sz = io_read io2 d off sz).
Context (Hwrite : forall d off v sz, legal flags off sz -> inw (8 * 2 ^ sz) v ->
           io_write io1 d off v sz = io_write io2 d off v sz).

Lemma DeviceRead_agree n : forall d off, (n <= 3)%nat -> inw 32 off ->
  DeviceRead io1 flags d off n = DeviceRead io2 flags d off n.
Proof.
  induction n as [|n IH]; intros d off Hn Ho; cbn [DeviceRead];
    (destruct (Z.land flags DEVIO_SIZES =? 0) eqn:E0; [done|]);
    apply Z.eqb_neq in E0;
    destruct (passes_on _ _ _) eqn:Ep;
    try (rewrite Hread; [done|]; apply passes_on_legal; [done|lia|done]);
    destruct (splits _ _ _) eqn:Es; try done;
    try (destruct (narrowest flags off) as [wide reg] eqn:Enr;
         pose proof (fun H => narrowest_spec _ _ _ _ _ Ho H E0 Ep Es Enr) as Hnr;
         specialize (Hnr ltac:(lia)) as (Hl & _);
         by rewrite Hread by done).
  rewrite (IH d off) by (lia || done).
  destruct (DeviceRead io2 flags d off n) as [d' low].
  rewrite (IH d') by (lia || by apply inw_uw). done.
Qed.

Lemma DeviceWrite_agree n : forall d off v, (n <= 3)%nat -> inw 32 off ->
  DeviceWrite io1 flags d off v n = DeviceWrite io2 flags d off v n.
Proof.
  induction n as [|n IH]; intros d off v Hn Ho; cbn [DeviceWrite];
    (destruct (Z.land flags DEVIO_SIZES =? 0) eqn:E0; [done|]);
    apply Z.eqb_neq in E0;
    destruct (passes_on _ _ _) eqn:Ep;
    try (rewrite Hwrite; [done|apply passes_on_legal; [done|lia|done]|];
         apply inw_access; lia);
    destruct (splits _ _ _) eqn:Es; try done;
    try (destruct (Z.land flags DEVIO_WRITE_MERGE =? 0); [done|];
         destruct (narrowest flags off) as [wide reg] eqn:Enr;
         pose proof (fun H => narrowest_spec _ _ _ _ _ Ho H E0 Ep Es Enr) as Hnr;
         specialize (Hnr ltac:(lia)) as (Hl & Hw & _);
         rewrite Hread by done; destruct (io_read io2 d reg wide) as [d' w];
         rewrite Hwrite; [done|done|]; apply inw_access; lia).
  rewrite (IH d off) by (lia || done).
  destruct (DeviceWrite io2 flags d off _ n) as [d' low].
  rewrite (IH d') by (lia || by apply inw_uw). done.
Qed.
End Agree.

(** * Fitting is invisible over plain storage *)

(** Bit [b] of a byte-addressed memory, counting from bit 0 of byte 0. *)
Definition byte_bit (m : Z -> Z) (b : Z) : bool := Z.testbit (m (b / 8)) (b mod 8).

(** The little endian value of the [n] bytes at [off]. *)
Fixpoint le_val (m : Z -> Z) (off : Z) (n : nat) : Z :=
  match n with
  | O => 0
  | S n => Z.lor (m off) (Z.shiftl (le_val m (off + 1) n) 8)
  end.

Lemma byte_bit_shift m off i : byte_bit m (8 * off + i) = Z.testbit (m (off + i / 8)) (i mod 8).
Proof.
  unfold byte_bit. rewrite (Z.add_comm (8 * off)), (Z.mul_comm 8).
  rewrite Z.div_add, Z_mod_plus_full by lia. by rewrite Z.add_comm.
Qed.

Lemma le_val_testbit m n : (forall a, inw 8 (m a)) -> forall off i, 0 <= i ->
  Z.testbit (le_val m off n) i = (i <? 8 * Z.of_nat n) && byte_bit m (8 * off + i).
Proof.
  intros Hm. induction n as [|n IH]; intros off i Hi.
  - cbn [le_val]. rewrite Z.bits_0. case_cmp; [lia|done].
  - cbn [le_val]. rewrite Z.lor_spec, Z.shiftl_spec by lia.
    destruct (decide (i < 8)).
    + rewrite (testbit_neg (i - 8)), orb_false_r by lia.
      rewrite byte_bit_shift, Z.div_small, Z.mod_small, Z.add_0_r by lia.
      by destruct (Z.ltb_spec i (8 * Z.of_nat (S n))); [|lia].
    + rewrite (inw_high 8 (m off)), IH by (done || lia).
      replace (8 * (off + 1) + (i - 8)) with (8 * off + i) by lia.
      destruct (Z.ltb_spec (i - 8) (8 * Z.of_nat n)),
        (Z.ltb_spec i (8 * Z.of_nat (S n))); lia || done.
Qed.

(** What a device whose registers are plain storage promises for the
    accesses it is registered for. *)
Class PlainStorage {D : Type} (io : DeviceIO D) (flags : Z) (mem : D -> Z -> Z) : Prop := {
  ps_byte d a : inw 8 (mem d a);
  ps_read d off sz : legal flags off sz -> off + 2 ^ sz <= 2 ^ 32 ->
    (forall a, mem (io_read io d off sz).1 a = mem d a) /\
    forall i, 0 <= i < 8 * 2 ^ sz ->
      Z.testbit (io_read io d off sz).2 i = byte_bit (mem d) (8 * off + i);
  ps_write d off v sz : legal flags off sz -> off + 2 ^ sz <= 2 ^ 32 -> inw (8 * 2 ^ sz) v ->
    forall b, byte_bit (mem (io_write io d off v sz)) b =
      if (8 * off <=? b) && (b <? 8 * off + 8 * 2 ^ sz)
      then Z.testbit v (b - 8 * off) else byte_bit (mem d) b;
}.

Section Storage.
Context {D : Type} (io : DeviceIO D) (flags : Z) (mem : D -> Z -> Z).
Context `{!PlainStorage io flags mem}.

(** [v] is what [bits] bits at byte [off] hold. *)
Definition reads_as (d : D) (off bits v : Z) : Prop :=
  forall i, 0 <= i -> Z.testbit v i = (i <? bits) && byte_bit (mem d) (8 * off + i).

Lemma reads_as_low d off v bits : 0 <= bits <= 64 ->
  (forall i, 0 <= i < bits -> Z.testbit v i = byte_bit (mem d) (8 * off + i)) ->
  reads_as d off bits (get_bits 64 v 0 bits).
Proof.
  intros Hb Hv i Hi. rewrite get_bits_testbit, Z.add_0_l by lia.
  destruct (Z.ltb_spec i bits), (Z.ltb_spec i 64); try lia; try done. simpl.
  apply Hv. lia.
Qed.

Lemma byte_bit_ext d d' b : (forall a, mem d' a = mem d a) ->
  byte_bit (mem d') b = byte_bit (mem d) b.
Proof. intros H. unfold byte_bit. by rewrite H. Qed.

Lemma read_passed d off sz : inw 32 off -> 0 <= sz <= 3 -> off + 2 ^ sz <= 2 ^ 32 ->
  passes_on flags off sz = true ->
  exists d' v, io_read io d off sz = (d', v) /\ (forall a, mem d' a = mem d a) /\
    reads_as d off (8 * 2 ^ sz) (get_bits 64 v 0 (Z.shiftl 8 sz)).
Proof.
  intros Ho Hsz Hend Ep.
  destruct (ps_read d off sz (passes_on_legal _ _ _ Ho Hsz Ep) Hend) as [Hm Hv].
  destruct (io_read io d off sz) as [d' v]. exists d', v. split; [done|]. split; [done|].
  rewrite shiftl_8 by lia. pose proof (width_le sz). apply reads_as_low; [lia|done].
Qed.

Lemma read_narrow d off sz : inw 32 off -> 0 <= sz <= 3 -> Z.land flags DEVIO_SIZES <> 0 ->
  passes_on flags off sz = false -> splits flags off sz = false ->
  exists d' v, io_read io d (narrowest flags off).2 (narrowest flags off).1 = (d', v) /\
    (forall a, mem d' a = mem d a) /\
    reads_as d off (8 * 2 ^ sz)
      (get_bits 64 v ((off - (narrowest flags off).2) * 8) (Z.shiftl 8 sz)).
Proof.
  intros Ho Hsz H0 Ep Es. destruct (narrowest flags off) as [wide reg] eqn:Enr. simpl.
  destruct (narrowest_spec _ _ _ _ _ Ho Hsz H0 Ep Es Enr) as (Hl & Hw & Hreg & Hin & Htop).
  destruct (ps_read d reg wide Hl Htop) as [Hm Hv].
  destruct (io_read io d reg wide) as [d' v]. exists d', v. split; [done|]. split; [done|].
  intros i Hi. pose proof (width_le wide ltac:(lia)). pose proof (pow2_pos sz ltac:(lia)).
  rewrite shiftl_8, get_bits_testbit by lia.
  destruct (Z.ltb_spec i (8 * 2 ^ sz)); [|done].
  destruct (Z.ltb_spec ((off - reg) * 8 + i) 64); [|lia]. cbn [andb snd] in *.
  rewrite Hv by lia. f_equal. lia.
Qed.

Lemma reads_as_concat d d1 off n low high : (S n <= 3)%nat ->
  (forall a, mem d1 a = mem d a) ->
  reads_as d off (8 * 2 ^ Z.of_nat n) low ->
  reads_as d1 (off + 2 ^ Z.of_nat n) (8 * 2 ^ Z.of_nat n) high ->
  reads_as d off (8 * 2 ^ Z.of_nat (S n)) (concat_bits 64 high low (8 * 2 ^ Z.of_nat n)).
Proof.
  intros Hn Hm Hlow Hhigh i Hi. pose proof (width_le (Z.of_nat (S n)) ltac:(lia)) as Hw.
  rewrite Nat2Z.inj_succ, Z.pow_succ_r in * by lia.
  rewrite concat_bits_testbit by lia. destruct (Z.ltb_spec i (8 * 2 ^ Z.of_nat n)).
  - rewrite Hlow by lia. repeat (case_cmp; try lia). done.
  - rewrite Hhigh, (byte_bit_ext d d1) by (done || lia).
    replace (8 * (off + 2 ^ Z.of_nat n) + (i - 8 * 2 ^ Z.of_nat n)) with (8 * off + i) by lia.
    repeat (case_cmp; try lia); done.
Qed.

(** The second half of a split access. *)
Lemma half_offset n off : (S n <= 3)%nat -> inw 32 off -> off + 2 ^ Z.of_nat (S n) <= 2 ^ 32 ->
  u32 (off + 2 ^ Z.of_nat n) = off + 2 ^ Z.of_nat n /\ inw 32 (off + 2 ^ Z.of_nat n) /\
  off + 2 ^ Z.of_nat n <= 2 ^ 32 /\ off + 2 ^ Z.of_nat n + 2 ^ Z.of_nat n <= 2 ^ 32.
Proof.
  rewrite Nat2Z.inj_succ, Z.pow_succ_r by lia. intros Hn Ho Hend.
  pose proof (pow2_pos (Z.of_nat n)). unfold inw in *.
  repeat split; try lia. apply uw_small. unfold inw. lia.
Qed.

(** One byte is never split. *)
Lemma splits_byte off : splits flags off 0 = false.
Proof. unfold splits. by rewrite !land_mask, !Z.mod_1_r by lia. Qed.

Lemma DeviceRead_reads n : forall d off, (n <= 3)%nat -> inw 32 off ->
  off + 2 ^ Z.of_nat n <= 2 ^ 32 -> Z.land flags DEVIO_SIZES <> 0 ->
  exists d' v, DeviceRead io flags d off n = (d', Some v) /\
    (forall a, mem d' a = mem d a) /\ reads_as d off (8 * 2 ^ Z.of_nat n) v.
Proof.
  induction n as [|n IH]; intros d off Hn Ho Hend H0; cbn [DeviceRead];
    (destruct (Z.eqb_spec (Z.land flags DEVIO_SIZES) 0); [done|]);
    destruct (passes_on _ _ _) eqn:Ep;
    match type of Ep with passes_on _ _ ?sz = _ => assert (0 <= sz <= 3) as Hsz by lia end.
  1, 3: destruct (read_passed d off _ Ho Hsz Hend Ep) as (d' & v & -> & ?); eauto.
  all: destruct (splits _ _ _) eqn:Es;
    [|destruct (read_narrow d off _ Ho Hsz H0 Ep Es) as (d' & v & Hv & ?);
      destruct (narrowest flags off); cbn [fst snd] in *; rewrite Hv; eauto].
  - by rewrite splits_byte in Es.
  - destruct (half_bits n) as [-> ->].
    destruct (half_offset n off) as (Hoff & Hin & Hle & Hle'); [lia|done|done|].
    destruct (IH d off) as (d1 & low & -> & Hm1 & Hlow); [lia|done|done|done|].
    rewrite Hoff.
    destruct (IH d1 (off + 2 ^ Z.of_nat n)) as (d2 & high & -> & Hm2 & Hhigh);
      [lia|done|done|done|].
    eexists _, _. split; [reflexivity|]. split; [intros; by rewrite Hm2|].
    by apply (reads_as_concat d d1).
Qed.

(** [d'] is [d] with the [bits] bits at byte [off] set to those of [v]. *)
Definition writes_as (d d' : D) (off bits v : Z) : Prop :=
  forall b, byte_bit (mem d') b =
    if (8 * off <=? b) && (b <? 8 * off + bits)
    then Z.testbit v (b - 8 * off) else byte_bit (mem d) b.

Lemma write_passed d off v sz : inw 32 off -> 0 <= sz <= 3 -> off + 2 ^ sz <= 2 ^ 32 ->
  passes_on flags off sz = true ->
  writes_as d (io_write io d off (get_bits 64 v 0 (Z.shiftl 8 sz)) sz) off (8 * 2 ^ sz) v.
Proof.
  intros Ho Hsz Hend Ep b.
  rewrite (ps_write d off _ sz (passes_on_legal _ _ _ Ho Hsz Ep) Hend (inw_access v sz Hsz) b).
  pose proof (width_le sz). rewrite shiftl_8 by lia.
  repeat (case_cmp; try done; simpl). rewrite get_bits_testbit by lia.
  by repeat (case_cmp; try lia).
Qed.

Lemma write_narrow d off v sz : inw 32 off -> 0 <= sz <= 3 -> Z.land flags DEVIO_SIZES <> 0 ->
  passes_on flags off sz = false -> splits flags off sz = false ->
  let '(wide, reg) := narrowest flags off in
  let '(d', r) := io_read io d reg wide in
  let val := set_bits 64 r ((off - reg) * 8) (Z.shiftl 8 sz) (get_bits 64 v 0 (Z.shiftl 8 sz)) in
  writes_as d (io_write io d' reg (get_bits 64 val 0 (Z.shiftl 8 wide)) wide)
    off (8 * 2 ^ sz) v.
Proof.
  intros Ho Hsz H0 Ep Es. destruct (narrowest flags off) as [wide reg] eqn:Enr.
  destruct (narrowest_spec _ _ _ _ _ Ho Hsz H0 Ep Es Enr) as (Hl & Hw & Hreg & Hin & Htop).
  destruct (ps_read d reg wide Hl Htop) as [Hm Hv].
  destruct (io_read io d reg wide) as [d' r]. cbn [fst snd] in *. intros b.
  assert (Hwide : 0 <= wide <= 3) by lia.
  rewrite (ps_write d' reg _ wide Hl Htop (inw_access _ wide Hwide) b).
  rewrite (byte_bit_ext d d') by done.
  pose proof (width_le wide Hwide). pose proof (width_le sz Hsz).
  rewrite !shiftl_8 by lia.
  destruct (Z.leb_spec (8 * reg) b); simpl; [|repeat (case_cmp; try lia); done].
  destruct (Z.ltb_spec b (8 * reg + 8 * 2 ^ wide)); simpl;
    [|repeat (case_cmp; try lia); done].
  rewrite get_bits_testbit, Z.add_0_l, set_bits_testbit by lia.
  rewrite Hv by lia. replace (8 * reg + (b - 8 * reg)) with b by lia.
  repeat (case_cmp; try lia); simpl; try done.
  rewrite get_bits_testbit by lia. repeat (case_cmp; try lia). simpl. f_equal. lia.
Qed.

Lemma writes_as_split d d1 d2 off n v : 
  writes_as d d1 off (8 * 2 ^ Z.of_nat n) v ->
  writes_as d1 d2 (off + 2 ^ Z.of_nat n) (8 * 2 ^ Z.of_nat n)
    (Z.shiftr v (8 * 2 ^ Z.of_nat n)) ->
  writes_as d d2 off (8 * 2 ^ Z.of_nat (S n)) v.
Proof.
  intros H1 H2 b. rewrite H2, H1. pose proof (pow2_pos (Z.of_nat n)).
  rewrite Nat2Z.inj_succ, Z.pow_succ_r by lia.
  repeat (case_cmp; try lia; simpl); try done.
  rewrite Z.shiftr_spec by lia. f_equal. lia.
Qed.

Lemma writes_as_low d d' off bits v : 0 <= bits <= 64 ->
  writes_as d d' off bits (get_bits 64 v 0 bits) -> writes_as d d' off bits v.
Proof.
  intros Hb H b. rewrite H. repeat (case_cmp; try done; simpl).
  rewrite get_bits_testbit by lia. by repeat (case_cmp; try lia).
Qed.

(** A range that takes bytes, or merges, never drops a write. *)
Lemma narrow_merges off sz : inw 32 off -> 0 <= sz <= 3 ->
  Z.testbit flags 0 = true \/ Z.testbit flags 5 = true ->
  passes_on flags off sz = false -> splits flags off sz = false ->
  (Z.land flags DEVIO_WRITE_MERGE =? 0) = false.
Proof.
  intros Ho Hsz Hf Ep Es. apply negb_true_iff. unfold DEVIO_WRITE_MERGE.
  fold (nz (Z.land flags (bit_at 32 5))). rewrite nz_bit_at by lia.
  destruct Hf as [H8|]; [exfalso|done].
  unfold passes_on in Ep. unfold splits in Es. rewrite get_bit_testbit, !land_mask in * by lia.
  destruct (decide (sz = 0)) as [->|].
  - rewrite H8, Z.mod_1_r, orb_true_r in Ep. done.
  - apply orb_false_elim in Es as [Es%negb_false_iff%Z.eqb_eq _].
    apply (bit_nonzero (flags mod 2 ^ sz) 0); [|done].
    rewrite Z.testbit_mod_pow2, H8 by lia. by case_cmp; [|lia].
Qed.

Lemma DeviceWrite_writes n : forall d off v, (n <= 3)%nat -> inw 32 off ->
  off + 2 ^ Z.of_nat n <= 2 ^ 32 -> Z.land flags DEVIO_SIZES <> 0 ->
  Z.testbit flags 0 = true \/ Z.testbit flags 5 = true ->
  exists d', DeviceWrite io flags d off v n = (d', true) /\
    writes_as d d' off (8 * 2 ^ Z.of_nat n) v.
Proof.
  induction n as [|n IH]; intros d off v Hn Ho Hend H0 Hf; cbn [DeviceWrite];
    (destruct (Z.eqb_spec (Z.land flags DEVIO_SIZES) 0); [done|]);
    destruct (passes_on _ _ _) eqn:Ep;
    match type of Ep with passes_on _ _ ?sz = _ => assert (0 <= sz <= 3) as Hsz by lia end.
  1, 3: eexists; split; [reflexivity|]; by apply write_passed.
  all: destruct (splits _ _ _) eqn:Es;
    [|rewrite (narrow_merges off _ Ho Hsz Hf Ep Es);
      pose proof (write_narrow d off v _ Ho Hsz H0 Ep Es) as Hw;
      destruct (narrowest flags off); destruct (io_read io d _ _); eauto].
  - by rewrite splits_byte in Es.
  - destruct (half_bits n) as [-> ->]. pose proof (width_le _ Hsz).
    destruct (half_offset n off) as (Hoff & Hin & Hle & Hle'); [lia|done|done|].
    set (v' := get_bits 64 v 0 _).
    destruct (IH d off v') as (d1 & -> & Hm1); [lia|done|done|done|done|].
    rewrite Hoff.
    destruct (IH d1 (off + 2 ^ Z.of_nat n) (Z.shiftr v' (8 * 2 ^ Z.of_nat n)))
      as (d2 & -> & Hm2); [lia|done|done|done|done|].
    eexists. split; [reflexivity|]. apply writes_as_low; [lia|].
    rewrite <- (shiftl_8 (Z.of_nat (S n))) at 2 by lia. by apply (writes_as_split d d1).
Qed.

(** Bytes in, bytes out. *)
Lemma le_val_reads d off n v :
  reads_as d off (8 * Z.of_nat n) v -> v = le_val (mem d) off n.
Proof.
  intros Hr. bits_at i Hi. rewrite Hr, le_val_testbit by (done || apply ps_byte). done.
Qed.

Lemma writes_as_bytes d d' off n v a : writes_as d d' off (8 * n) v -> 0 <= n <= 8 ->
  mem d' a = if (off <=? a) && (a <? off + n) then get_bits 64 v (8 * (a - off)) 8
             else mem d a.
Proof.
  intros Hw Hn. bits_at j Hj.
  destruct (decide (j < 8)) as [Hj8|Hj8].
  - specialize (Hw (8 * a + j)).
    rewrite !byte_bit_shift, !Z.div_small, !Z.add_0_r, !Z.mod_small in Hw by lia.
    rewrite Hw.
    destruct (Z.leb_spec off a), (Z.ltb_spec a (off + n)); simpl;
      repeat (case_cmp; try lia); simpl; try done.
    rewrite get_bits_testbit by lia. repeat (case_cmp; try lia). simpl. f_equal. lia.
  - rewrite (inw_high 8) by (apply ps_byte || lia).
    destruct (_ && _) eqn:E; [|by rewrite (inw_high 8) by (apply ps_byte || lia)].
    apply andb_prop in E as [?%Z.leb_le ?%Z.ltb_lt].
    rewrite get_bits_testbit by lia. by repeat (case_cmp; try lia).
Qed.
End Storage.

(** A device that is one big little endian number, taking 32-bit accesses
    only: plain storage. *)
Definition number_io : DeviceIO Z := mkDeviceIO Z
  (fun d off sz => (d, uw (8 * 2 ^ sz) (Z.shiftr d (8 * off))))
  (fun d off v sz =>
     Z.lor (Z.ldiff d (Z.shiftl (Z.ones (8 * 2 ^ sz)) (8 * off))) (Z.shiftl v (8 * off))).
Definition number_byte (d a : Z) : Z := if a <? 0 then 0 else uw 8 (Z.shiftr d (8 * a)).

Lemma number_bit d b : byte_bit (number_byte d) b = (0 <=? b) && Z.testbit d b.
Proof.
  unfold byte_bit, number_byte. pose proof (Z.mod_pos_bound b 8). pose proof (Z.div_mod b 8).
  destruct (Z.ltb_spec (b / 8) 0), (Z.leb_spec 0 b); try lia; simpl.
  - apply Z.bits_0.
  - rewrite uw_testbit, Z.shiftr_spec by lia. case_cmp; [|lia]. simpl. f_equal. lia.
Qed.

#[export] Instance number_storage flags : PlainStorage number_io flags number_byte.
Proof.
  split.
  - intros d a. unfold number_byte. case_cmp; auto with inw.
  - intros d off sz (Hsz & Ho & _) _. unfold inw in Ho. split; [done|]. intros i Hi. simpl.
    rewrite number_bit, uw_testbit, Z.shiftr_spec by lia.
    repeat (case_cmp; try lia). simpl. f_equal. lia.
  - intros d off v sz (Hsz & Ho & _) _ Hv b. unfold inw in Ho. rewrite !number_bit. simpl.
    pose proof (width_le sz Hsz).
    destruct (Z.leb_spec 0 b); simpl; [|repeat (case_cmp; try lia); done].
    rewrite Z.lor_spec, Z.ldiff_spec, !Z.shiftl_spec by lia.
    destruct (Z.leb_spec (8 * off) b); simpl.
    + rewrite Z.testbit_ones_nonneg by lia.
      repeat (case_cmp; try lia); simpl.
      * by rewrite andb_false_r.
      * by rewrite (inw_high _ v _ Hv), andb_true_r, orb_false_r by lia.
    + by rewrite !(testbit_neg (b - 8 * off)), andb_true_r, orb_false_r by lia.
Qed.

(** * Dirty bitmaps *)

(** The tables of a range that keeps dirty bits cover its pages. *)
Record dirty_wf (pr : PhysMemoryRange) : Prop := mkDirtyWf {
  dw_index : dirty_bits_index pr = 0 \/ dirty_bits_index pr = 1;
  dw_used : dirty_bits pr = Some (dirty_bits_index pr);
  dw_tabs : length (dirty_bits_tab pr) = 2%nat;
  dw_words : Forall (fun t => Z.of_nat (length t) = dirty_bits_size pr / 4) (dirty_bits_tab pr);
  dw_pages : org_size pr / DEVRAM_PAGE_SIZE <= 32 * (dirty_bits_size pr / 4);
}.

(** Page [p]'s bit in a bitmap. *)
Definition page_bit (bits : list Z) (p : Z) : bool :=
  Z.testbit (arr_get 0 bits (p / 32)) (p mod 32).

Lemma RangeAt_upd i f m : 0 <= i < Z.of_nat (length (fRanges m)) ->
  RangeAt (upd_range i f m) i = f (RangeAt m i).
Proof. intros. unfold RangeAt, upd_range. simpl. rewrite arr_get_set by lia. by case_cmp. Qed.

Lemma RangeAt_flush a n i m : RangeAt (FlushTlbWriteRange a n m) i = RangeAt m i.
Proof. unfold FlushTlbWriteRange. by case_match. Qed.

Lemma fRanges_flush a n m : fRanges (FlushTlbWriteRange a n m) = fRanges m.
Proof. unfold FlushTlbWriteRange. by case_match. Qed.

Lemma length_upd_range i f m : length (fRanges (upd_range i f m)) = length (fRanges m).
Proof. apply length_arr_set. Qed.

(** Storing a word in the table in use. *)
Lemma dirty_tab_set pr word v : dirty_wf pr ->
  let pr' := set_dirty_tab (dirty_bits_index pr) (arr_set (dirty_tab pr) word v) pr in
  dirty_wf pr' /\ dirty_tab pr' = arr_set (dirty_tab pr) word v.
Proof.
  intros [Hi Hu Hl Hw Hp]. simpl. unfold dirty_tab, set_dirty_tab. simpl. rewrite Hu. split.
  - split; simpl; try done; [by rewrite length_arr_set|].
    apply Forall_arr_set; [done|]. rewrite length_arr_set.
    destruct (dirty_bits_tab pr) as [|t0 [|t1 [|]]]; try done.
    apply Forall_cons in Hw as [H0 [H1 _]%Forall_cons]. by destruct Hi as [-> | ->].
  - rewrite arr_get_set by lia. by case_cmp.
Qed.

Lemma dirty_tab_length pr : dirty_wf pr ->
  Z.of_nat (length (dirty_tab pr)) = dirty_bits_size pr / 4.
Proof.
  intros [Hi Hu Hl Hw Hp]. unfold dirty_tab. rewrite Hu.
  destruct (dirty_bits_tab pr) as [|t0 [|t1 [|]]]; try done.
  apply Forall_cons in Hw as [H0 [H1 _]%Forall_cons]. by destruct Hi as [-> | ->].
Qed.

(** A page of a range has a word in its tables. *)
Definition page_of (pr : PhysMemoryRange) (offset : Z) : Prop :=
  0 <= offset /\ Z.shiftr offset DEVRAM_PAGE_SIZE_LOG2 < org_size pr / DEVRAM_PAGE_SIZE.

Lemma page_word pr offset : dirty_wf pr -> page_of pr offset ->
  0 <= Z.shiftr offset DEVRAM_PAGE_SIZE_LOG2 /\
  0 <= Z.shiftr offset DEVRAM_PAGE_SIZE_LOG2 / 32 < Z.of_nat (length (dirty_tab pr)).
Proof.
  intros Hwf [Ho Hp]. rewrite dirty_tab_length by done. pose proof (dw_pages _ Hwf).
  rewrite Z.shiftr_div_pow2 in * by done. change (2 ^ DEVRAM_PAGE_SIZE_LOG2) with 4096 in *.
  Z.div_mod_to_equations; lia.
Qed.

(** A word of a bitmap with one page's bit changed. *)
Lemma page_bit_set l page v (on : bool) p : 0 <= page -> 0 <= p ->
  page / 32 < Z.of_nat (length l) ->
  (forall b, 0 <= b < 32 -> Z.testbit v b =
     if b =? page mod 32 then on else Z.testbit (arr_get 0 l (page / 32)) b) ->
  page_bit (arr_set l (page / 32) v) p = if p =? page then on else page_bit l p.
Proof.
  intros Hp Hq Hl Hv. unfold page_bit. pose proof (Z.mod_pos_bound p 32).
  rewrite arr_get_set by (Z.div_mod_to_equations; lia).
  destruct (Z.eqb_spec (p / 32) (page / 32)) as [E|E].
  - rewrite Hv, E by lia.
    destruct (Z.eqb_spec (p mod 32) (page mod 32)), (Z.eqb_spec p page); try done;
      Z.div_mod_to_equations; lia.
  - destruct (Z.eqb_spec p page); [|done]. subst. done.
Qed.

Lemma SetDirtyBit_spec pr offset : dirty_wf pr -> page_of pr offset ->
  dirty_wf (SetDirtyBit offset pr) /\
  forall p, 0 <= p -> page_bit (dirty_tab (SetDirtyBit offset pr)) p =
    (if p =? Z.shiftr offset DEVRAM_PAGE_SIZE_LOG2 then true else page_bit (dirty_tab pr) p).
Proof.
  intros Hwf Hpo. destruct (page_word _ _ Hwf Hpo) as [Hp0 Hword].
  unfold SetDirtyBit. rewrite (dw_used _ Hwf).
  set (page := Z.shiftr offset _) in *. 
  rewrite (Z.shiftr_div_pow2 page 5) by lia. change (2 ^ 5) with 32.
  edestruct (dirty_tab_set pr) as [Hwf' ->]; [done|]. split; [done|].
  intros p Hp. apply page_bit_set; try lia. intros b Hb.
  pose proof (Z.mod_pos_bound page 32).
  rewrite Z.lor_spec, bit_at_testbit by lia. repeat case_cmp; try lia; subst;
    by rewrite ?orb_true_r, ?orb_false_r.
Qed.

Lemma ResetDirtyBit_spec i offset m : 0 <= i < Z.of_nat (length (fRanges m)) ->
  dirty_wf (RangeAt m i) -> page_of (RangeAt m i) offset ->
  let pr' := RangeAt (ResetDirtyBit i offset m) i in
  dirty_wf pr' /\ org_size pr' = org_size (RangeAt m i) /\
  forall p, 0 <= p -> page_bit (dirty_tab pr') p =
    (if p =? Z.shiftr offset DEVRAM_PAGE_SIZE_LOG2 then false
     else page_bit (dirty_tab (RangeAt m i)) p).
Proof.
  intros Hi Hwf Hpo. destruct (page_word _ _ Hwf Hpo) as [Hp0 Hword].
  unfold ResetDirtyBit. rewrite (dw_used _ Hwf).
  set (pr := RangeAt m i) in *. set (page := Z.shiftr offset _) in *.
  pose proof (Z.mod_pos_bound page 32).
  rewrite (Z.shiftr_div_pow2 page 5) by lia. change (2 ^ 5) with 32.
  destruct (Z.eqb_spec (Z.land (arr_get 0 (dirty_tab pr) (page / 32)) (bit_at 32 (page mod 32))) 0)
    as [E|E]; cbv zeta.
  - split; [done|]. split; [done|]. intros p Hp.
    destruct (Z.eqb_spec p page) as [->|]; [|done]. unfold page_bit.
    apply (f_equal (fun v => Z.testbit v (page mod 32))) in E.
    rewrite Z.land_spec, bit_at_testbit, Z.bits_0 in E by lia.
    by rewrite Z.eqb_refl, (proj2 (Z.ltb_lt (page mod 32) 32)), andb_true_r in E by lia.
  - rewrite RangeAt_flush, RangeAt_upd by done. fold pr.
    edestruct (dirty_tab_set pr) as [Hwf' Htab]; [done|].
    split; [exact Hwf'|]. split; [done|]. intros p Hp. rewrite Htab.
    apply page_bit_set; try lia. intros b Hb.
    rewrite Z.ldiff_spec, bit_at_testbit by lia. repeat case_cmp; try lia; subst;
      by rewrite ?andb_false_r, ?andb_true_r.
Qed.

Lemma page_bit_zero n p : page_bit (replicate n 0) p = false.
Proof.
  unfold page_bit, arr_get. rewrite nth_lookup.
  destruct (replicate n 0 !! _) as [v|] eqn:E; [|apply Z.bits_0].
  apply lookup_replicate in E as [-> _]. apply Z.bits_0.
Qed.

(** The bitmap handed out is the one in use; the range goes on with a clear
    one. *)
Lemma GetDirtyBits_spec i m : 0 <= i < Z.of_nat (length (fRanges m)) ->
  dirty_wf (RangeAt m i) ->
  let '(bits, m') := GetDirtyBits i m in
  bits = dirty_tab (RangeAt m i) /\ length (fRanges m') = length (fRanges m) /\
  dirty_wf (RangeAt m' i) /\ org_size (RangeAt m' i) = org_size (RangeAt m i) /\
  forall p, page_bit (dirty_tab (RangeAt m' i)) p = false.
Proof.
  intros Hi Hwf. unfold GetDirtyBits. split; [done|].
  set (pr := RangeAt m i) in *. set (next := Z.lxor _ 1). cbv zeta.
  assert (Hnext : next = 0 \/ next = 1).
  { unfold next. destruct (dw_index _ Hwf) as [-> | ->]; vm_compute; tauto. }
  set (m1 := upd_range _ _ m).
  set (m2 := if (_ : bool) then FlushTlbWriteRange _ _ _ else _).
  assert (Hr : fRanges m2 = fRanges m1).
  { unfold m2. destruct (_ && _); [apply fRanges_flush|done]. }
  unfold RangeAt at 1 2 3. rewrite Hr. fold (RangeAt m1 i).
  split; [apply length_upd_range|]. unfold m1. rewrite RangeAt_upd by done. fold pr.
  destruct Hwf as [Hx Hu Hl Hw Hp].
  assert (Hz : 0 <= dirty_bits_size pr / 4).
  { destruct (dirty_bits_tab pr) as [|t ?]; [done|]. apply Forall_cons in Hw as [<- _]. lia. }
  split; [|split; [done|]].
  - split; simpl; rewrite ?Hu; try done; [by rewrite length_arr_set|].
    apply Forall_arr_set; [done|]. rewrite length_replicate. lia.
  - intros p. unfold dirty_tab, set_dirty_tab. simpl. rewrite Hu. simpl.
    rewrite arr_get_set by lia. case_cmp; [|done]. apply page_bit_zero.
Qed.

(** What happens to a range's bitmap between two reports. *)
Inductive dirty_op := DSet (offset : Z) | DReset (offset : Z).

Definition op_offset (op : dirty_op) : Z :=
  match op with DSet o => o | DReset o => o end.

Definition run_dirty_op (i : Z) (m : PhysMemoryMap) (op : dirty_op) : PhysMemoryMap :=
  match op with
  | DSet o => upd_range i (SetDirtyBit o) m
  | DReset o => ResetDirtyBit i o m
  end.

(** A page is dirty when the last operation on it set it. *)
Definition dirty_after (ops : list dirty_op) (was : bool) (p : Z) : bool :=
  fold_left (fun d op =>
    if p =? Z.shiftr (op_offset op) DEVRAM_PAGE_SIZE_LOG2
    then match op with DSet _ => true | DReset _ => false end else d) ops was.

Lemma org_size_SetDirtyBit o pr : org_size (SetDirtyBit o pr) = org_size pr.
Proof. unfold SetDirtyBit. by case_match. Qed.

Lemma length_ResetDirtyBit i o m :
  length (fRanges (ResetDirtyBit i o m)) = length (fRanges m).
Proof.
  unfold ResetDirtyBit. repeat case_match; try done.
  rewrite fRanges_flush. apply length_upd_range.
Qed.

Lemma run_dirty_ops i ops : forall m, 0 <= i < Z.of_nat (length (fRanges m)) ->
  dirty_wf (RangeAt m i) -> Forall (fun op => page_of (RangeAt m i) (op_offset op)) ops ->
  let m' := fold_left (run_dirty_op i) ops m in
  0 <= i < Z.of_nat (length (fRanges m')) /\ dirty_wf (RangeAt m' i) /\
  forall p, 0 <= p -> page_bit (dirty_tab (RangeAt m' i)) p =
    dirty_after ops (page_bit (dirty_tab (RangeAt m i)) p) p.
Proof.
  induction ops as [|op ops IH]; intros m Hi Hwf Hops; [done|].
  apply Forall_cons in Hops as [Hop Hops].
  assert (Hstep : let m1 := run_dirty_op i m op in
    length (fRanges m1) = length (fRanges m) /\ dirty_wf (RangeAt m1 i) /\
    org_size (RangeAt m1 i) = org_size (RangeAt m i) /\
    forall p, 0 <= p -> page_bit (dirty_tab (RangeAt m1 i)) p =
      dirty_after [op] (page_bit (dirty_tab (RangeAt m i)) p) p).
  { destruct op as [o|o]; cbn [run_dirty_op].
    - rewrite length_upd_range, RangeAt_upd, org_size_SetDirtyBit by done.
      by destruct (SetDirtyBit_spec _ _ Hwf Hop).
    - rewrite length_ResetDirtyBit. by destruct (ResetDirtyBit_spec _ _ _ Hi Hwf Hop) as (?&?&?). }
  destruct Hstep as (Hl & Hwf1 & Horg & Hbits). cbn [fold_left].
  destruct (IH (run_dirty_op i m op)) as (Hi' & Hwf' & Hb'); [lia|done| |].
  { eapply Forall_impl; [exact Hops|]. intros ? [? ?]. split; [done|]. by rewrite Horg. }
  split; [done|]. split; [done|]. intros p Hp. rewrite Hb', Hbits by done. done.
Qed.

(** * Properties *)

(** [DeviceRead] and [DeviceWrite] show a device only accesses its range
    was registered for: of a width in the flags, aligned unless the range
    takes unaligned ones, at an offset of 32 bits and with a value of that
    width.  Two devices that agree on those accesses cannot be told apart
    through them, whatever the guest's width, alignment and value. *)
Theorem device_sees_legal {D} (io1 io2 : DeviceIO D) flags d off v n :
  (forall d off sz, legal flags off sz -> io_read io1 d off sz = io_read io2 d off sz) ->
  (forall d off v sz, legal flags off sz -> inw (8 * 2 ^ sz) v ->
     io_write io1 d off v sz = io_write io2 d off v sz) ->
  (n <= 3)%nat -> inw 32 off ->
  DeviceRead io1 flags d off n = DeviceRead io2 flags d off n /\
  DeviceWrite io1 flags d off v n = DeviceWrite io2 flags d off v n.
Proof.
  intros Hr Hw Hn Ho. split; [by apply DeviceRead_agree|by apply DeviceWrite_agree].
Qed.

(** C39: over plain storage the fitting is invisible.  An access of 1, 2, 4 or
    8 bytes at any offset, aligned or not, to a range that takes any width
    returns the bytes there in little endian order and changes nothing; if
    the range takes bytes or merges, a write reports success and changes
    exactly the bytes it names, to the bytes of the value. *)
Theorem device_fit_plain {D} (dev : DeviceIO D) flags mem `{!PlainStorage dev flags mem}
    d off v n :
  (n <= 3)%nat -> inw 32 off -> off + 2 ^ Z.of_nat n <= 2 ^ 32 ->
  Z.land flags DEVIO_SIZES <> 0 ->
  (exists d', DeviceRead dev flags d off n = (d', Some (le_val (mem d) off (2 ^ n))) /\
     forall a, mem d' a = mem d a) /\
  (Z.testbit flags 0 = true \/ Z.testbit flags 5 = true ->
   exists d', DeviceWrite dev flags d off v n = (d', true) /\
     forall a, mem d' a = if (off <=? a) && (a <? off + 2 ^ Z.of_nat n)
                         then get_bits 64 v (8 * (a - off)) 8 else mem d a).
Proof.
  intros Hn Ho Hend H0. split; [|intros Hf].
  - destruct (DeviceRead_reads dev flags mem n d off) as (d' & r & -> & Hm & Hr); [done..|].
    exists d'. split; [|done].
    rewrite <- (le_val_reads dev flags mem d off (2 ^ n) r); [done|].
    by rewrite Nat2Z.inj_pow.
  - destruct (DeviceWrite_writes dev flags mem n d off v) as (d' & -> & Hw); [done..|].
    exists d'. split; [done|]. intros a.
    pose proof (width_le (Z.of_nat n)). apply (writes_as_bytes dev flags mem); [done|lia].
Qed.

(** A 16-bit access at offset 5 of a device that takes 32-bit accesses. *)
Lemma device_fit_plain_witness :
  (exists d', DeviceRead number_io 0x24 0x7766554433221100 5 1 =
     (d', Some (le_val (number_byte 0x7766554433221100) 5 2)) /\
     forall a, number_byte d' a = number_byte 0x7766554433221100 a) /\
  exists d', DeviceWrite number_io 0x24 0x7766554433221100 5 0xabcd 1 = (d', true) /\
     forall a, number_byte d' a = if (5 <=? a) && (a <? 5 + 2 ^ 1)
       then get_bits 64 0xabcd (8 * (a - 5)) 8 else number_byte 0x7766554433221100 a.
Proof.
  destruct (device_fit_plain number_io 0x24 number_byte 0x7766554433221100 5 0xabcd 1) as [Hr Hw];
    [lia|split; vm_compute; congruence|vm_compute; congruence|vm_compute; congruence|].
  split; [exact Hr|]. apply Hw. right. vm_compute. reflexivity.
Defined.

Lemma device_sees_legal_witness :
  let io2 := mkDeviceIO Z (fun d off sz => if sz =? 2 then io_read number_io d off sz else (d, 0))
    (io_write number_io) in
  DeviceRead number_io 0x24 0x7766554433221100 5 3 = DeviceRead io2 0x24 0x7766554433221100 5 3 /\
  DeviceWrite number_io 0x24 0x7766554433221100 5 1 3 =
  DeviceWrite io2 0x24 0x7766554433221100 5 1 3.
Proof.
  intros io2. apply device_sees_legal;
    [|done|lia|split; vm_compute; congruence].
  intros d off sz (Hsz & _ & Hb & _). simpl. case_cmp; [done|].
  assert (sz = 0 \/ sz = 1 \/ sz = 3) as [-> | [-> | ->]] by lia; vm_compute in Hb; congruence.
Defined.

(** the dirty bitmap a display reads reports exactly the pages written
    since it was last read: after one [GetDirtyBits], whatever sequence of
    [SetDirtyBit] and [ResetDirtyBit] follows, the next [GetDirtyBits]
    returns a bitmap in which a page is set if and only if the last
    operation on that page set it. *)
Theorem dirty_bits_report i m ops : 0 <= i < Z.of_nat (length (fRanges m)) ->
  dirty_wf (RangeAt m i) -> Forall (fun op => page_of (RangeAt m i) (op_offset op)) ops ->
  let m1 := (GetDirtyBits i m).2 in
  let bits := (GetDirtyBits i (fold_left (run_dirty_op i) ops m1)).1 in
  forall p, 0 <= p -> page_bit bits p = dirty_after ops false p.
Proof.
  intros Hi Hwf Hops. pose proof (GetDirtyBits_spec i m Hi Hwf) as Hget.
  destruct (GetDirtyBits i m) as [bits0 m1]. destruct Hget as (_ & Hl & Hwf1 & Horg & Hz).
  simpl. intros p Hp.
  destruct (run_dirty_ops i ops m1) as (_ & _ & Hb); [lia|done| |].
  { eapply Forall_impl; [exact Hops|]. intros ? [? ?]. split; [done|]. by rewrite Horg. }
  rewrite Hb, Hz by done. done.
Qed.

(** A frame buffer of 40 pages as [RegisterRam] makes it. *)
Definition fb_map : PhysMemoryMap :=
  match RegisterRam 0x80000000 0x28000 DEVRAM_FLAG_DIRTY_BITS (Some 0x7000)
          (mkMap [] true []) with
  | Some (_, m) => m
  | None => mkMap [] true []
  end.

Lemma dirty_bits_report_witness :
  let ops := [DSet 0x27004; DSet 0x1000; DReset 0x1fff] in
  let m1 := (GetDirtyBits 0 fb_map).2 in
  let bits := (GetDirtyBits 0 (fold_left (run_dirty_op 0) ops m1)).1 in
  bits = [0; 0x80] /\ forall p, 0 <= p -> page_bit bits p = dirty_after ops false p.
Proof.
  split; [vm_compute; reflexivity|].
  apply dirty_bits_report.
  - vm_compute. split; congruence.
  - split; try (vm_compute; tauto); [|vm_compute; congruence].
    repeat constructor; vm_compute; reflexivity.
  - repeat constructor; vm_compute; congruence.
Defined.
