(* ===== verification/Plic.v ===== *)
(** The platform-level interrupt controller: [src/device/intc/plic.h],
    [plic.cpp].

    The record is the class's fields; [fHarts] is the state of the
    [HartIrqTarget] the controller drives, the level last set for each hart
    at machine ([2 * hart]) and supervisor ([2 * hart + 1]) level.  The
    theorems show what a claim returns, that a claimed source stays out of
    every context's reach until it is completed, and that the external
    interrupt lines always agree with the registers. *)

From stdpp Require Import base numbers list.
From S2P Require Import Prelude Bits Cutils.
Local Open Scope Z_scope.

Definition PLIC_NUM_SOURCES : Z := 32.
Definition PLIC_PENDING_BASE : Z := 0x1000.
Definition PLIC_ENABLE_BASE : Z := 0x2000.
Definition PLIC_ENABLE_SIZE : Z := 0x80.
Definition PLIC_CONTEXT_BASE : Z := 0x200000.
Definition PLIC_CONTEXT_SIZE : Z := 0x1000.
Definition PLIC_MAX_PRIORITY : Z := 7.

Record PLIC := mkPLIC {
  fHarts : list bool;
  fHartCount : nat;
  fLevel : Z;
  fServed : Z;
  fPriority : list Z;
  fEnable : list Z;
  fThreshold : list Z;
}.
#[export] Instance eta_PLIC : Eta PLIC := fun s =>
  mkPLIC (fHarts s) (fHartCount s) (fLevel s) (fServed s) (fPriority s)
    (fEnable s) (fThreshold s).

Definition init (hart_count : nat) : PLIC := {|
  fHarts := replicate (2 * hart_count) false;
  fHartCount := hart_count;
  fLevel := 0;
  fServed := 0;
  fPriority := replicate (Z.to_nat PLIC_NUM_SOURCES) 0;
  fEnable := replicate (2 * hart_count) 0;
  fThreshold := replicate (2 * hart_count) 0;
|}.

Definition Pending (s : PLIC) : Z := Z.ldiff (fLevel s) (fServed s).

(** The [while (mask != 0)] loop of [BestIrq]; each turn clears a bit of a
    32 bit mask, so 32 turns are all there can be. *)
Fixpoint best_irq_loop (fuel : nat) (prio : list Z) (mask best best_priority : Z) : Z :=
  match fuel with
  | O => best
  | S fuel =>
    if mask =? 0 then best
    else
      let irq := ctz32 mask in
      let mask := Z.land mask (mask - 1) in
      (* ties go to the lowest source number *)
      if best_priority <? arr_get 0 prio irq
      then best_irq_loop fuel prio mask irq (arr_get 0 prio irq)
      else best_irq_loop fuel prio mask best best_priority
  end.

(** The source a claim on [ctx] would return, or 0. *)
Definition BestIrq (s : PLIC) (ctx : Z) : Z :=
  best_irq_loop 32 (fPriority s) (Z.land (Pending s) (arr_get 0 (fEnable s) ctx))
    0 (arr_get 0 (fThreshold s) ctx).

(** [HartIrqTarget::SetExternalIrq] *)
Definition SetExternalIrq (hart : Z) (supervisor level : bool) (l : list bool) : list bool :=
  arr_set l (2 * hart + Z_of_bool supervisor) level.

Definition Update (s : PLIC) : PLIC :=
  s <| fHarts := for_each (fHartCount s) 0 (fun hart l =>
         SetExternalIrq hart true (nz (BestIrq s (2 * hart + 1)))
           (SetExternalIrq hart false (nz (BestIrq s (2 * hart))) l))
       (fHarts s) |>.

Definition context_count (s : PLIC) : Z := 2 * Z.of_nat (fHartCount s).

Definition DeviceRead (s : PLIC) (offset : Z) : PLIC * Z :=
  if offset <? PLIC_PENDING_BASE then
    let irq := offset / 4 in
    (s, if irq <? PLIC_NUM_SOURCES then arr_get 0 (fPriority s) irq else 0)
  else if offset <? PLIC_ENABLE_BASE then
    (s, if offset =? PLIC_PENDING_BASE then Pending s else 0)
  else if offset <? PLIC_CONTEXT_BASE then
    let ctx := (offset - PLIC_ENABLE_BASE) / PLIC_ENABLE_SIZE in
    let reg := (offset - PLIC_ENABLE_BASE) mod PLIC_ENABLE_SIZE in
    (s, if (ctx <? context_count s) && (reg =? 0) then arr_get 0 (fEnable s) ctx else 0)
  else
    let ctx := (offset - PLIC_CONTEXT_BASE) / PLIC_CONTEXT_SIZE in
    let reg := (offset - PLIC_CONTEXT_BASE) mod PLIC_CONTEXT_SIZE in
    if context_count s <=? ctx then (s, 0)
    else if reg =? 0 then (s, arr_get 0 (fThreshold s) ctx)
    else if reg =? 4 then
      (* claim *)
      let val := BestIrq s ctx in
      if nz val then (Update (s <| fServed := set_bit 32 (fServed s) val true |>), val)
      else (s, val)
    else (s, 0).

Definition DeviceWrite (s : PLIC) (offset val : Z) : PLIC :=
  if offset <? PLIC_PENDING_BASE then
    let irq := offset / 4 in
    if (irq =? 0) || (PLIC_NUM_SOURCES <=? irq) then s
    else Update (s <| fPriority := arr_set (fPriority s) irq (Z.land val PLIC_MAX_PRIORITY) |>)
  else if offset <? PLIC_ENABLE_BASE then
    (* the pending bits are read-only *)
    s
  else if offset <? PLIC_CONTEXT_BASE then
    let ctx := (offset - PLIC_ENABLE_BASE) / PLIC_ENABLE_SIZE in
    let reg := (offset - PLIC_ENABLE_BASE) mod PLIC_ENABLE_SIZE in
    if (context_count s <=? ctx) || nz reg then s
    else Update (s <| fEnable := arr_set (fEnable s) ctx (u32 (set_bit 64 val 0 false)) |>)
  else
    let ctx := (offset - PLIC_CONTEXT_BASE) / PLIC_CONTEXT_SIZE in
    let reg := (offset - PLIC_CONTEXT_BASE) mod PLIC_CONTEXT_SIZE in
    if context_count s <=? ctx then s
    else if reg =? 0 then
      Update (s <| fThreshold := arr_set (fThreshold s) ctx (Z.land val PLIC_MAX_PRIORITY) |>)
    else if reg =? 4 then
      (* complete *)
      if (val =? 0) || (PLIC_NUM_SOURCES <=? val) ||
         negb (get_bit 32 (arr_get 0 (fEnable s) ctx) val)
      then s
      else Update (s <| fServed := set_bit 32 (fServed s) val false |>)
    else s.

Definition SetIRQ (s : PLIC) (irq_num : Z) (level : bool) : PLIC :=
  Update (s <| fLevel := set_bit 32 (fLevel s) irq_num level |>).

(** * The controller as a transition system *)

Inductive op :=
| Read (offset : Z)
| Write (offset val : Z)
| Irq (irq_num : Z) (level : bool).

(** The ranges the memory map and the machine call with: a 32 bit offset,
    and an input line that exists. *)
Definition op_ok (o : op) : Prop :=
  match o with
  | Read offset => inw 32 offset
  | Write offset val => inw 32 offset /\ inw 64 val
  | Irq n _ => 0 < n < PLIC_NUM_SOURCES
  end.

Definition step (s : PLIC) (o : op) : PLIC * Z :=
  match o with
  | Read offset => DeviceRead s offset
  | Write offset val => (DeviceWrite s offset val, 0)
  | Irq n level => (SetIRQ s n level, 0)
  end.

Inductive reachable (n : nat) : PLIC -> Prop :=
| reach_init : reachable n (init n)
| reach_step s o : reachable n s -> op_ok o -> reachable n (fst (step s o)).

(** * Invariant *)

Record wf (n : nat) (s : PLIC) : Prop := {
  wf_count : fHartCount s = n;
  wf_harts : length (fHarts s) = (2 * n)%nat;
  wf_level : inw 32 (fLevel s) /\ Z.testbit (fLevel s) 0 = false;
  wf_served : inw 32 (fServed s) /\ Z.testbit (fServed s) 0 = false;
  wf_prio_len : length (fPriority s) = 32%nat;
  wf_prio : Forall (fun p => 0 <= p <= PLIC_MAX_PRIORITY) (fPriority s);
  wf_enable_len : length (fEnable s) = (2 * n)%nat;
  wf_enable : Forall (fun e => inw 32 e /\ Z.testbit e 0 = false) (fEnable s);
  wf_thresh_len : length (fThreshold s) = (2 * n)%nat;
  wf_thresh : Forall (fun p => 0 <= p <= PLIC_MAX_PRIORITY) (fThreshold s);
}.

(** The lines drive what the registers say. *)
Definition driven (s : PLIC) : Prop :=
  forall ctx, 0 <= ctx < context_count s ->
    arr_get false (fHarts s) ctx = nz (BestIrq s ctx).

(** * What a claim returns *)

(** A source [ctx] could be interrupted by. *)
Definition candidate (s : PLIC) (ctx i : Z) : Prop :=
  0 <= i < PLIC_NUM_SOURCES /\
  Z.testbit (fLevel s) i = true /\ Z.testbit (fServed s) i = false /\
  Z.testbit (arr_get 0 (fEnable s) ctx) i = true /\
  arr_get 0 (fThreshold s) ctx < arr_get 0 (fPriority s) i.

(** [i] outranks [j]: a higher priority, or the lower number. *)
Definition outranks (s : PLIC) (i j : Z) : Prop :=
  arr_get 0 (fPriority s) j < arr_get 0 (fPriority s) i \/
  arr_get 0 (fPriority s) j = arr_get 0 (fPriority s) i /\ i <= j.

(** [best], with priority [bp], is what the sources of [m] below [lo] give
    over the threshold [thr]. *)
Definition best_below (prio : list Z) (m thr lo best bp : Z) : Prop :=
  (best = 0 /\ bp = thr /\
   forall i, 0 <= i < lo -> Z.testbit m i = true -> arr_get 0 prio i <= thr) \/
  (0 <= best < lo /\ Z.testbit m best = true /\ bp = arr_get 0 prio best /\ thr < bp /\
   forall i, 0 <= i < lo -> Z.testbit m i = true -> 
     arr_get 0 prio i < bp \/ arr_get 0 prio i = bp /\ best <= i).

Lemma best_below_skip prio m thr lo lo' best bp :
  lo <= lo' -> (forall i, lo <= i < lo' -> Z.testbit m i = false) ->
  best_below prio m thr lo best bp -> best_below prio m thr lo' best bp.
Proof.
  intros Hle Hz [(-> & -> & H)|(Hb & Hm & -> & Hlt & H)]; [left|right].
  - repeat split. intros i Hi Hbit. apply H; [|done].
    destruct (decide (i < lo)); [lia|]. rewrite Hz in Hbit by lia. done.
  - repeat split; try lia; [done|]. intros i Hi Hbit. apply H; [|done].
    destruct (decide (i < lo)); [lia|]. rewrite Hz in Hbit by lia. done.
Qed.

Lemma best_below_done prio m thr lo best bp :
  inw 32 m -> 32 <= lo ->
  best_below prio m thr lo best bp -> best_below prio m thr 32 best bp.
Proof.
  intros Hm Hlo [(-> & -> & H)|(Hr & Hb & -> & Hlt & H)]; [left|right].
  - repeat split. intros. apply H; [lia|done].
  - assert (best < 32).
    { destruct (decide (best < 32)); [done|].
      rewrite (inw_high 32 m) in Hb by (done || lia). done. }
    repeat split; try lia; [done|]. intros. apply H; [lia|done].
Qed.

Lemma best_irq_loop_spec prio m thr fuel : forall lo mask best bp,
  0 <= lo -> 32 - lo <= Z.of_nat fuel ->
  inw 32 m -> (forall i, 0 <= i -> Z.testbit mask i = Z.testbit m i && (lo <=? i)) ->
  0 <= mask -> best_below prio m thr lo best bp ->
  exists bp', best_below prio m thr 32 (best_irq_loop fuel prio mask best bp) bp'.
Proof.
  induction fuel as [|fuel IH]; intros lo mask best bp Hlo Hfuel Hm Hmask Hpos Hb; simpl.
  { exists bp. apply (best_below_done _ _ _ lo); [done|lia|done]. }
  assert (Hin : inw 32 mask).
  { apply inw_bits; [lia|]. split; [done|]. intros i Hi.
    rewrite Hmask by lia. by rewrite (inw_high 32 m). }
  destruct (Z.eqb_spec mask 0) as [->|Hnz].
  { exists bp. destruct (decide (lo <= 32)).
    - apply (best_below_skip _ _ _ lo 32); [lia| |done].
      intros i Hi. specialize (Hmask i). rewrite Z.bits_0 in Hmask.
      destruct (Z.leb_spec lo i); [|lia]. rewrite andb_true_r in Hmask.
      by rewrite <- Hmask by lia.
    - apply (best_below_done _ _ _ lo); [done|lia|done]. }
  destruct (ctz32_lowest mask) as [(Hc & Hcbit & Hclow) Hc32]; [done..|].
  set (c := ctz32 mask) in *.
  assert (lo <= c /\ Z.testbit m c = true) as [Hloc Hmc].
  { rewrite Hmask in Hcbit by lia. apply andb_true_iff in Hcbit as [? ?%Z.leb_le]. done. }
  assert (Hskip : best_below prio m thr c best bp).
  { apply (best_below_skip _ _ _ lo c); [lia| |done]. intros i Hi.
    specialize (Hclow i ltac:(lia)). rewrite Hmask in Hclow by lia.
    destruct (Z.leb_spec lo i); [|lia]. by rewrite andb_true_r in Hclow. }
  assert (Hmask' : forall i, 0 <= i ->
    Z.testbit (Z.land mask (mask - 1)) i = Z.testbit m i && (c + 1 <=? i)).
  { intros i Hi. rewrite (clear_lowest mask c) by (done || (split; done)).
    rewrite Z.ldiff_spec, testbit_pow2 by lia.
    destruct (decide (i < c)).
    - rewrite Hclow by lia. destruct (Z.leb_spec (c + 1) i); [lia|].
      by rewrite andb_false_r.
    - rewrite Hmask by lia. destruct (Z.leb_spec lo i); [|lia].
      destruct (Z.eqb_spec i c), (Z.leb_spec (c + 1) i); try lia;
        by rewrite ?andb_true_r, ?andb_false_r. }
  assert (0 <= Z.land mask (mask - 1)) by (apply Z.land_nonneg; lia).
  destruct (Z.ltb_spec bp (arr_get 0 prio c)).
  - apply (IH (c + 1)); try lia; try done. right.
    destruct Hskip as [(-> & -> & Hle)|(? & ? & -> & ? & Hle)];
      (repeat split; try lia; [done|]); intros i Hi Hbit;
      (destruct (decide (i = c)) as [->|]; [lia|]);
      specialize (Hle i ltac:(lia) Hbit); lia.
  - apply (IH (c + 1)); try lia; try done.
    destruct Hskip as [(-> & -> & Hle)|(? & ? & -> & ? & Hle)]; [left|right];
      (repeat split; try lia; try done); intros i Hi Hbit;
      (destruct (decide (i = c)) as [->|]; [lia|]);
      specialize (Hle i ltac:(lia) Hbit); lia.
Qed.

Opaque best_irq_loop.

Section Wf.
Context (n : nat) (s : PLIC) (Hwf : wf n s).

Lemma wf_enable_at ctx :
  inw 32 (arr_get 0 (fEnable s) ctx) /\ Z.testbit (arr_get 0 (fEnable s) ctx) 0 = false.
Proof.
  apply (Forall_arr_get 0 (fun e => inw 32 e /\ Z.testbit e 0 = false));
    [by eapply wf_enable|]. split; [apply inw_0; lia|done].
Qed.

Lemma BestIrq_cases ctx :
  (BestIrq s ctx = 0 /\ forall i, ~ candidate s ctx i) \/
  (0 < BestIrq s ctx < 32 /\ candidate s ctx (BestIrq s ctx) /\
   forall i, candidate s ctx i -> outranks s (BestIrq s ctx) i).
Proof.
  destruct (wf_enable_at ctx) as [He He0]. destruct (wf_level n s Hwf) as [Hl _].
  set (m := Z.land (Pending s) (arr_get 0 (fEnable s) ctx)).
  assert (Hm : forall i, Z.testbit m i = Z.testbit (fLevel s) i &&
     negb (Z.testbit (fServed s) i) && Z.testbit (arr_get 0 (fEnable s) ctx) i).
  { intros i. unfold m, Pending. by rewrite Z.land_spec, Z.ldiff_spec. }
  assert (inw 32 m) by (unfold m, Pending; auto with inw).
  assert (exists bp, best_below (fPriority s) m (arr_get 0 (fThreshold s) ctx) 32
                       (BestIrq s ctx) bp) as [bp Hbest].
  { unfold BestIrq. fold m. apply best_irq_loop_spec with (lo := 0); try lia; try done.
    - intros i Hi. destruct (Z.leb_spec 0 i); [|lia]. by rewrite andb_true_r.
    - by eapply inw_nonneg.
    - left. split; [done|]. split; [done|]. intros; lia. }
  destruct Hbest as [(E & -> & H0)|(Hr & Hbit & -> & Hlt & Hmax)]; [left|right].
  - split; [done|]. intros i (Hi & H1 & H2 & H3 & H4).
    specialize (H0 i ltac:(unfold PLIC_NUM_SOURCES in *; lia)). rewrite Hm, H1, H2, H3 in H0. 
    specialize (H0 eq_refl). lia.
  - assert (BestIrq s ctx <> 0).
    { intros E. rewrite E, Hm, He0, andb_false_r in Hbit. done. }
    rewrite Hm in Hbit. rewrite !andb_true_iff, negb_true_iff in Hbit.
    split; [lia|]. split; [unfold candidate, PLIC_NUM_SOURCES; tauto|].
    intros i (Hi & H1 & H2 & H3 & H4). unfold outranks.
    apply Hmax; [done|]. by rewrite Hm, H1, H2, H3.
Qed.

Lemma BestIrq_range ctx : 0 <= BestIrq s ctx < 32.
Proof. destruct (BestIrq_cases ctx) as [[-> _]|[? _]]; lia. Qed.
End Wf.

(** * The lines follow the registers *)

Lemma BestIrq_Update s ctx : BestIrq (Update s) ctx = BestIrq s ctx.
Proof. reflexivity. Qed.

Lemma Update_driven n s : wf n s -> wf n (Update s) /\ driven (Update s).
Proof.
  intros Hwf. pose proof (wf_harts n s Hwf) as Hlen. pose proof (wf_count n s Hwf) as Hn.
  set (f := fun hart l =>
         SetExternalIrq hart true (nz (BestIrq s (2 * hart + 1)))
           (SetExternalIrq hart false (nz (BestIrq s (2 * hart))) l)).
  assert (length (for_each n 0 f (fHarts s)) = (2 * n)%nat /\
    forall c, 0 <= c < 2 * (0 + Z.of_nat n) ->
      arr_get false (for_each n 0 f (fHarts s)) c = nz (BestIrq s c)) as [Hlen' Hl].
  { apply (for_each_ind (fun j l => length l = (2 * n)%nat /\
      forall c, 0 <= c < 2 * j -> arr_get false l c = nz (BestIrq s c))).
    - intros j l Hj [Hll Hc]. unfold f, SetExternalIrq. rewrite !length_arr_set.
      split; [done|]. intros c Hcj.
      rewrite !arr_get_set by (rewrite ?length_arr_set; simpl; lia). simpl.
      repeat case_cmp; subst; try lia; rewrite ?Z.add_0_r; try done.
      apply Hc. lia.
    - split; [done|]. intros; lia. }
  rewrite Z.add_0_l in Hl. split.
  - destruct Hwf; constructor; try done. simpl. by rewrite Hn.
  - intros c Hc. unfold context_count in Hc. rewrite BestIrq_Update. simpl in *.
    rewrite Hn in *. by apply Hl.
Qed.

Lemma init_wf n : wf n (init n) /\ driven (init n).
Proof.
  split.
  - assert (forall w, 0 <= w -> inw w 0 /\ Z.testbit 0 0 = false) as H0
      by (intros; split; [by apply inw_0|done]).
    constructor; cbn [init fHarts fHartCount fLevel fServed fPriority fEnable fThreshold];
      rewrite ?length_replicate; try done; try (apply H0; lia);
      apply Forall_replicate; [unfold PLIC_MAX_PRIORITY; lia|apply H0; lia|].
    unfold PLIC_MAX_PRIORITY; lia.
  - intros ctx Hc. unfold arr_get. simpl.
    rewrite nth_lookup, lookup_replicate_2; [done|].
    unfold context_count in Hc. simpl in Hc. lia.
Qed.

Lemma low3 v : 0 <= Z.land v PLIC_MAX_PRIORITY <= PLIC_MAX_PRIORITY.
Proof.
  unfold PLIC_MAX_PRIORITY. change 7 with (Z.ones 3). rewrite Z.land_ones by lia.
  pose proof (Z.mod_pos_bound v (2 ^ 3)). change (Z.ones 3) with 7. lia.
Qed.

Opaque BestIrq Update driven.

(** Each register write keeps the invariant before the lines are updated. *)
Ltac solve_wf :=
  match goal with H : wf _ _ |- _ => destruct H; constructor; simpl; 
    rewrite ?length_arr_set; try done end.

Lemma set_priority_wf n s irq v : wf n s ->
  wf n (s <| fPriority := arr_set (fPriority s) irq (Z.land v PLIC_MAX_PRIORITY) |>).
Proof. intros. solve_wf. apply Forall_arr_set; [done|apply low3]. Qed.

Lemma set_threshold_wf n s c v : wf n s ->
  wf n (s <| fThreshold := arr_set (fThreshold s) c (Z.land v PLIC_MAX_PRIORITY) |>).
Proof. intros. solve_wf. apply Forall_arr_set; [done|apply low3]. Qed.

Lemma set_enable_wf n s c v : wf n s ->
  wf n (s <| fEnable := arr_set (fEnable s) c (u32 (set_bit 64 v 0 false)) |>).
Proof.
  intros. solve_wf. apply Forall_arr_set; [done|]. split; [by apply inw_uw|].
  unfold u32. by autorewrite with bits.
Qed.

Lemma set_served_wf n s irq on : wf n s -> 0 < irq ->
  wf n (s <| fServed := set_bit 32 (fServed s) irq on |>).
Proof.
  intros. solve_wf. split; [auto with inw|]. autorewrite with bits.
  destruct (Z.eqb_spec 0 irq); [lia|]. simpl. by destruct wf_served0.
Qed.

Lemma set_level_wf n s irq on : wf n s -> 0 < irq ->
  wf n (s <| fLevel := set_bit 32 (fLevel s) irq on |>).
Proof.
  intros. solve_wf. split; [auto with inw|]. autorewrite with bits.
  destruct (Z.eqb_spec 0 irq); [lia|]. simpl. by destruct wf_level0.
Qed.

Create HintDb plic discriminated.
#[export] Hint Constants Opaque : plic.
#[export] Hint Resolve set_priority_wf set_threshold_wf set_enable_wf
  set_served_wf set_level_wf Update_driven : plic.

Lemma nz_true x : nz x = true <-> x <> 0.
Proof. unfold nz. rewrite negb_true_iff. apply Z.eqb_neq. Qed.

(** The branches that leave the controller alone. *)
Ltac unchanged :=
  lazymatch goal with
  | |- context [Update _] => idtac
  | _ => split; assumption
  end.

Lemma DeviceRead_wf n s offset : inw 32 offset -> wf n s -> driven s ->
  wf n (DeviceRead s offset).1 /\ driven (DeviceRead s offset).1.
Proof.
  intros Ho Hwf Hd. unfold DeviceRead. repeat case_match; unchanged.
  apply Update_driven, set_served_wf; [done|]. 
  match goal with H : nz _ = true |- _ => apply nz_true in H end.
  pose proof (BestIrq_range n s Hwf ((offset - PLIC_CONTEXT_BASE) / PLIC_CONTEXT_SIZE)).
  lia.
Qed.

Lemma DeviceWrite_wf n s offset val : inw 32 offset -> inw 64 val -> wf n s -> driven s ->
  wf n (DeviceWrite s offset val) /\ driven (DeviceWrite s offset val).
Proof.
  intros Ho Hv Hwf Hd. unfold DeviceWrite. repeat case_match; unchanged;
    apply Update_driven; eauto with plic.
  apply set_served_wf; [done|].
  match goal with H : _ || _ || _ = false |- _ => 
    apply orb_false_elim in H as [[H%Z.eqb_neq _]%orb_false_elim _] end.
  destruct Hv. lia.
Qed.

Lemma reachable_wf n s : reachable n s -> wf n s /\ driven s.
Proof.
  induction 1 as [|s o _ [Hwf Hd] Ho]; [apply init_wf|].
  destruct o as [off|off v|k l]; simpl in *.
  - by apply DeviceRead_wf.
  - destruct Ho. by apply DeviceWrite_wf.
  - apply Update_driven, set_level_wf; [done|lia].
Qed.

(** * Properties *)

(** The claim and complete register of a context. *)
Definition claim_offset (ctx : Z) : Z := PLIC_CONTEXT_BASE + ctx * PLIC_CONTEXT_SIZE + 4.

Lemma claim_offset_decode ctx : 0 <= ctx ->
  (claim_offset ctx <? PLIC_PENDING_BASE) = false /\
  (claim_offset ctx <? PLIC_ENABLE_BASE) = false /\
  (claim_offset ctx <? PLIC_CONTEXT_BASE) = false /\
  (claim_offset ctx - PLIC_CONTEXT_BASE) / PLIC_CONTEXT_SIZE = ctx /\
  (claim_offset ctx - PLIC_CONTEXT_BASE) mod PLIC_CONTEXT_SIZE = 4.
Proof.
  intros. unfold claim_offset, PLIC_PENDING_BASE, PLIC_ENABLE_BASE, PLIC_CONTEXT_BASE,
    PLIC_CONTEXT_SIZE. repeat split; try (apply Z.ltb_ge; lia).
  - replace (_ - _) with (4 + ctx * 0x1000) by lia. by rewrite Z.div_add.
  - replace (_ - _) with (4 + ctx * 0x1000) by lia. by rewrite Z_mod_plus_full.
Qed.

Lemma DeviceRead_claim s ctx : 0 <= ctx < context_count s ->
  DeviceRead s (claim_offset ctx) =
  if nz (BestIrq s ctx)
  then (Update (s <| fServed := set_bit 32 (fServed s) (BestIrq s ctx) true |>), BestIrq s ctx)
  else (s, BestIrq s ctx).
Proof.
  intros Hctx. destruct (claim_offset_decode ctx) as (H1 & H2 & H3 & H4 & H5); [lia|].
  unfold DeviceRead. rewrite H1, H2, H3, H4, H5.
  destruct (Z.leb_spec (context_count s) ctx); [lia|]. done.
Qed.

Lemma claim_val s ctx : 0 <= ctx < context_count s ->
  (DeviceRead s (claim_offset ctx)).2 = BestIrq s ctx.
Proof. intros. rewrite DeviceRead_claim by done. by destruct (nz _). Qed.

Fixpoint run (s : PLIC) (ops : list op) : PLIC :=
  match ops with
  | [] => s
  | o :: ops => run (step s o).1 ops
  end.

(** A completion of [irq], by whichever context. *)
Definition completes (irq : Z) (o : op) : Prop :=
  exists ctx, 0 <= ctx /\ o = Write (claim_offset ctx) irq.

Lemma fServed_Update s : fServed (Update s) = fServed s.
Proof. Transparent Update. reflexivity. Opaque Update. Qed.

Lemma claim_decode offset : inw 32 offset ->
  (offset <? PLIC_CONTEXT_BASE) = false ->
  ((offset - PLIC_CONTEXT_BASE) mod PLIC_CONTEXT_SIZE =? 4) = true ->
  0 <= (offset - PLIC_CONTEXT_BASE) / PLIC_CONTEXT_SIZE /\
  offset = claim_offset ((offset - PLIC_CONTEXT_BASE) / PLIC_CONTEXT_SIZE).
Proof.
  intros Ho Hb%Z.ltb_ge Hr%Z.eqb_eq. unfold claim_offset, PLIC_CONTEXT_SIZE in *.
  pose proof (Z.div_mod (offset - PLIC_CONTEXT_BASE) 0x1000). split; [|lia].
  apply Z.div_pos; lia.
Qed.

Lemma set_served_other v irq k on : 0 <= irq < 32 -> 0 <= k -> k <> irq \/ on = true ->
  Z.testbit v irq = true -> Z.testbit (set_bit 32 v k on) irq = true.
Proof.
  intros ? ? Hk Hv. rewrite set_bit_testbit by lia. destruct (Z.ltb_spec irq 32); [|lia].
  simpl. destruct (Z.eqb_spec irq k); [|done]. destruct Hk; [lia|done].
Qed.

Lemma step_served n s o irq : wf n s -> op_ok o -> 0 <= irq < 32 -> ~ completes irq o ->
  Z.testbit (fServed s) irq = true -> Z.testbit (fServed (step s o).1) irq = true.
Proof.
  intros Hwf Hok Hirq Hnc Hs. destruct o as [off|off v|k l]; cbn [step fst op_ok] in *.
  - unfold DeviceRead. repeat case_match; cbn [fst]; rewrite ?fServed_Update; try exact Hs.
    apply set_served_other; [done| |by right|done].
    pose proof (BestIrq_range n s Hwf ((off - PLIC_CONTEXT_BASE) / PLIC_CONTEXT_SIZE)). lia.
  - destruct Hok as [Ho Hv]. unfold DeviceWrite.
    repeat case_match; rewrite ?fServed_Update; try exact Hs.
    apply set_served_other; [done|by destruct Hv| |done]. left. intros ->.
    apply Hnc. eexists. 
    destruct (claim_decode off) as [? Heq]; [done..|]. split; [done|]. by rewrite <- Heq.
  - unfold SetIRQ. by rewrite fServed_Update.
Qed.

Lemma run_served n s ops irq : wf n s /\ driven s -> Forall op_ok ops -> 0 <= irq < 32 ->
  Forall (fun o => ~ completes irq o) ops ->
  Z.testbit (fServed s) irq = true ->
  (wf n (run s ops) /\ driven (run s ops)) /\ Z.testbit (fServed (run s ops)) irq = true.
Proof.
  intros Hwf Hok Hirq Hnc. revert s Hwf. induction ops as [|o ops IH]; intros s Hwf Hs; [done|].
  apply Forall_cons in Hok as [Ho Hok], Hnc as [Hn Hnc]. simpl. apply IH; [done..| |].
  - destruct Hwf as [Hwf Hd]. destruct o as [off|off v|k l]; simpl in *.
    + by apply DeviceRead_wf.
    + destruct Ho. by apply DeviceWrite_wf.
    + apply Update_driven, set_level_wf; [done|lia].
  - eapply step_served; [apply Hwf|done..].
Qed.

Lemma context_count_wf n s : wf n s -> context_count s = 2 * Z.of_nat n.
Proof. intros []. unfold context_count. by rewrite wf_count0. Qed.

(** C30: a claim returns the pending, enabled, unserved source of the highest
    priority over the context's threshold, the lowest numbered of equals,
    and marks exactly that source as served; with no such source it returns
    0 and changes nothing. *)
Theorem plic_claim_best n s ctx s' r :
  reachable n s -> 0 <= ctx < 2 * Z.of_nat n ->
  DeviceRead s (claim_offset ctx) = (s', r) ->
  (r = 0 /\ s' = s /\ forall i, ~ candidate s ctx i) \/
  (candidate s ctx r /\ (forall i, candidate s ctx i -> outranks s r i) /\
   forall i, 0 <= i < 32 ->
     Z.testbit (fServed s') i = Z.testbit (fServed s) i || (i =? r)).
Proof.
  intros [Hwf _]%reachable_wf Hctx. rewrite DeviceRead_claim
    by (rewrite (context_count_wf n) by done; lia).
  destruct (BestIrq_cases n s Hwf ctx) as [[E Hno]|(Hr & Hc & Hmax)].
  - rewrite E. intros [= <- <-]. by left.
  - destruct (nz (BestIrq s ctx)) eqn:E; [|unfold nz in E; apply negb_false_iff in E; lia].
    intros [= <- <-]. right. split; [done|]. split; [done|]. intros i Hi.
    rewrite fServed_Update. simpl. rewrite set_bit_testbit by lia.
    destruct (Z.ltb_spec i 32); [|lia]. simpl.
    destruct (Z.eqb_spec i (BestIrq s ctx)); by rewrite ?orb_true_r, ?orb_false_r.
Qed.

(** C31: once a source has been claimed, no sequence of register accesses and
    line changes that leaves out its completion lets any context claim it
    again. *)
Theorem plic_claim_exclusive n s ctx irq ops ctx' :
  reachable n s -> 0 <= ctx < 2 * Z.of_nat n -> 0 <= ctx' < 2 * Z.of_nat n ->
  (DeviceRead s (claim_offset ctx)).2 = irq -> irq <> 0 ->
  Forall op_ok ops -> Forall (fun o => ~ completes irq o) ops ->
  (DeviceRead (run (DeviceRead s (claim_offset ctx)).1 ops) (claim_offset ctx')).2 <> irq.
Proof.
  intros [Hwf Hd]%reachable_wf Hctx Hctx' Hirq Hnz Hok Hnc Hagain.
  rewrite claim_val in Hirq by (rewrite (context_count_wf n) by done; lia).
  pose proof (BestIrq_range n s Hwf ctx) as Hr.
  rewrite (DeviceRead_claim s ctx) in Hagain by (rewrite (context_count_wf n) by done; lia).
  rewrite Hirq in *. assert (nz irq = true) as Hnz' by by apply nz_true.
  rewrite Hnz' in *. cbn [fst snd] in *.
  set (s1 := Update (s <| fServed := set_bit 32 (fServed s) irq true |>)) in *.
  assert (Hwf1 : wf n s1 /\ driven s1) by (apply Update_driven, set_served_wf; [done|lia]).
  destruct (run_served n s1 ops irq) as [[Hwf2 _] Hserved]; [done..| |].
  { unfold s1. rewrite fServed_Update. simpl. rewrite set_bit_testbit by lia.
    destruct (Z.ltb_spec irq 32); [|lia]. by rewrite Z.eqb_refl. }
  rewrite claim_val in Hagain by (rewrite (context_count_wf n) by done; lia).
  destruct (BestIrq_cases n (run s1 ops) Hwf2 ctx') as [[E3 _]|(_ & Hc & _)]; [congruence|].
  rewrite Hagain in Hc. destruct Hc as (_ & _ & Hc & _). congruence.
Qed.

(** C32: in every reachable state the external interrupt line of each context
    is high exactly when some source is a candidate for it, so no claimable
    interrupt goes unsignalled and no line stays up without one. *)
Theorem plic_lines_follow n s ctx :
  reachable n s -> 0 <= ctx < 2 * Z.of_nat n ->
  arr_get false (fHarts s) ctx = true <-> exists i, candidate s ctx i.
Proof.
  intros [Hwf Hd]%reachable_wf Hctx.
  Transparent driven. rewrite Hd by (rewrite (context_count_wf n) by done; lia).
  rewrite nz_true. destruct (BestIrq_cases n s Hwf ctx) as [[E Hno]|(Hr & Hc & _)].
  - rewrite E. split; [done|]. intros [i Hi]. by destruct (Hno i).
  - split; [eauto|]. lia.
Qed.

(** * Witnesses: one hart, source 3 at priority 5 raised and enabled *)

Lemma reachable_run n s ops : reachable n s -> Forall op_ok ops -> reachable n (run s ops).
Proof.
  revert s. induction ops as [|o ops IH]; intros s Hs Hok; [done|].
  apply Forall_cons in Hok as [? ?]. apply IH; [|done]. by apply reach_step.
Qed.

Definition demo_ops : list op := [Write 12 5; Write 0x2000 8; Irq 3 true].
Definition demo : PLIC := run (init 1) demo_ops.

Lemma demo_reachable : reachable 1 demo.
Proof.
  apply reachable_run; [constructor|].
  repeat constructor; simpl; unfold inw, PLIC_NUM_SOURCES; lia.
Qed.

Lemma plic_claim_best_witness :
  exists s' r, DeviceRead demo (claim_offset 0) = (s', r) /\ r = 3 /\
    ((r = 0 /\ s' = demo /\ forall i, ~ candidate demo 0 i) \/
     (candidate demo 0 r /\ (forall i, candidate demo 0 i -> outranks demo r i) /\
      forall i, 0 <= i < 32 ->
        Z.testbit (fServed s') i = Z.testbit (fServed demo) i || (i =? r))).
Proof.
  exists (DeviceRead demo (claim_offset 0)).1, 3. split; [vm_compute; reflexivity|].
  split; [reflexivity|].
  apply (plic_claim_best 1 demo 0 _ 3 demo_reachable); [lia|vm_compute; reflexivity].
Defined.

Lemma plic_claim_exclusive_witness :
  (DeviceRead demo (claim_offset 0)).2 = 3 /\
  (DeviceRead (run (DeviceRead demo (claim_offset 0)).1 [Irq 3 false; Irq 3 true])
     (claim_offset 0)).2 <> 3.
Proof.
  split; [vm_compute; reflexivity|].
  apply (plic_claim_exclusive 1 demo 0 3 [Irq 3 false; Irq 3 true] 0 demo_reachable);
    [lia|lia|vm_compute; reflexivity|lia| |].
  - repeat constructor; simpl; unfold PLIC_NUM_SOURCES; lia.
  - repeat constructor; intros (c & _ & H); discriminate H.
Defined.

Lemma plic_lines_follow_witness :
  arr_get false (fHarts demo) 0 = true /\ exists i, candidate demo 0 i.
Proof.
  assert (arr_get false (fHarts demo) 0 = true) as E by (vm_compute; reflexivity).
  split; [exact E|]. apply (plic_lines_follow 1 demo 0 demo_reachable); [lia|exact E].
Defined.
