(* ===== verification/Pci.v ===== *)
(** PCI functions, bridges and configuration space: [src/bus/pci/pci.h],
    [pci.cpp].

    A [PCIFunc] is what [PCIDevice] holds of one function; [pci_tree] is a
    function with the functions of its secondary bus, so that the chain of
    [parent_bridge] pointers is the path from the root.  [told] is what
    [PCIBarTarget::SetBar] was last given for a region, [sent] the messages
    given to [PCIMsiTarget::SendMsi]. *)

From stdpp Require Import base numbers list.
From S2P Require Import Prelude Bits Cutils.
Local Open Scope Z_scope.

Definition PCI_ADDRESS_SPACE_IO : Z := 0x01.
Definition PCI_ADDRESS_SPACE_MEM_TYPE_64 : Z := 0x04.
Definition PCI_ROM_SLOT : Z := 6.
Definition PCI_NUM_REGIONS : nat := 7.
Definition PCI_CONFIG_SIZE : Z := 0x100.
Definition PCI_EXT_CONFIG_SIZE : Z := 0x1000.
Definition PCI_VENDOR_ID : Z := 0x00.
Definition PCI_DEVICE_ID : Z := 0x02.
Definition PCI_COMMAND : Z := 0x04.
Definition PCI_COMMAND_IO : Z := 1.
Definition PCI_COMMAND_MEMORY : Z := 2.
Definition PCI_COMMAND_MASTER : Z := 4.
Definition PCI_COMMAND_INTX_DISABLE : Z := bit_at 32 10.
Definition PCI_STATUS : Z := 0x06.
Definition PCI_STATUS_INTERRUPT : Z := 8.
Definition PCI_STATUS_CAP_LIST : Z := 16.
Definition PCI_CLASS_DEVICE : Z := 0x0a.
Definition PCI_HEADER_TYPE : Z := 0x0e.
Definition PCI_HEADER_TYPE_BRIDGE : Z := 0x01.
Definition PCI_BASE_ADDRESS_0 : Z := 0x10.
Definition PCI_SECONDARY_BUS : Z := 0x19.
Definition PCI_SUBORDINATE_BUS : Z := 0x1a.
Definition PCI_SEC_LATENCY_TIMER : Z := 0x1b.
Definition PCI_IO_BASE : Z := 0x1c.
Definition PCI_IO_RANGE_TYPE_32 : Z := 0x01.
Definition PCI_IO_LIMIT : Z := 0x1d.
Definition PCI_SEC_STATUS : Z := 0x1e.
Definition PCI_MEMORY_BASE : Z := 0x20.
Definition PCI_MEMORY_LIMIT : Z := 0x22.
Definition PCI_PREF_MEMORY_BASE : Z := 0x24.
Definition PCI_PREF_MEMORY_LIMIT : Z := 0x26.
Definition PCI_PREF_RANGE_TYPE_64 : Z := 0x01.
Definition PCI_PREF_BASE_UPPER32 : Z := 0x28.
Definition PCI_PREF_LIMIT_UPPER32 : Z := 0x2c.
Definition PCI_SUBSYSTEM_VENDOR_ID : Z := 0x2c.
Definition PCI_SUBSYSTEM_ID : Z := 0x2e.
Definition PCI_ROM_ADDRESS : Z := 0x30.
Definition PCI_IO_BASE_UPPER16 : Z := 0x30.
Definition PCI_IO_LIMIT_UPPER16 : Z := 0x32.
Definition PCI_CAPABILITY_LIST : Z := 0x34.
Definition PCI_ROM_ADDRESS1 : Z := 0x38.
Definition PCI_BRIDGE_CONTROL : Z := 0x3e.
Definition PCI_CLASS_BRIDGE_PCI : Z := 0x0604.
Definition PCI_EXT_CAP_START : Z := 0x100.

Record PCIIORegion := mkRegion {
  size : Z; type : Z; enabled : bool; is64 : bool; high_half : bool; told : option Z;
}.
#[export] Instance eta_PCIIORegion : Eta PCIIORegion := fun r =>
  mkRegion (size r) (type r) (enabled r) (is64 r) (high_half r) (told r).
Definition region0 : PCIIORegion := mkRegion 0 0 false false false None.

Record PCIMsixEntry := mkEntry { addr_lo : Z; addr_hi : Z; data : Z; vector_ctrl : Z }.
#[export] Instance eta_PCIMsixEntry : Eta PCIMsixEntry := fun e => mkEntry (addr_lo e) (addr_hi e) (data e) (vector_ctrl e).
Definition entry0 : PCIMsixEntry := mkEntry 0 0 0 0.
(** [fCapOffset] is -1 while the capability is absent. *)
Record PCIMsixState := mkMsix { fCapOffset : Z; fVectorCount : Z; fTable : list PCIMsixEntry; fPba : list Z }.
#[export] Instance eta_PCIMsixState : Eta PCIMsixState := fun m => mkMsix (fCapOffset m) (fVectorCount m) (fTable m) (fPba m).
Definition msix_absent : PCIMsixState := mkMsix (-1) 0 [] [].

Record PCIFunc := mkFunc {
  devfn : Z; irq_request : Z; config : list Z; wmask : list Z; msix : PCIMsixState;
  next_cap_offset : Z; next_ext_cap_offset : Z; io_regions : list PCIIORegion; pcie_type : Z; sent : list (Z * Z);
}.
#[export] Instance eta_PCIFunc : Eta PCIFunc := fun d =>
  mkFunc (devfn d) (irq_request d) (config d) (wmask d) (msix d)
    (next_cap_offset d) (next_ext_cap_offset d) (io_regions d) (pcie_type d) (sent d).

(** * Bytes of configuration space *)

Definition cfg8 (c : list Z) (a : Z) : Z := arr_get 0 c a.
Definition cfg16 (c : list Z) (a : Z) : Z := get_le16 [cfg8 c a; cfg8 c (a + 1)].
Definition cfg32 (c : list Z) (a : Z) : Z := get_le32 [cfg8 c a; cfg8 c (a + 1); cfg8 c (a + 2); cfg8 c (a + 3)].
(** [memcpy] into an array of bytes *)
Fixpoint cfg_put (c : list Z) (a : Z) (bytes : list Z) : list Z :=
  match bytes with [] => c | b :: bytes => cfg_put (arr_set c a b) (a + 1) bytes end.

Definition is_bridge (c : list Z) : bool := get_bits 32 (cfg8 c PCI_HEADER_TYPE) 0 7 =? PCI_HEADER_TYPE_BRIDGE.
Definition pci_is_bridge (d : PCIFunc) : bool := is_bridge (config d).

(** * Interrupt pins *)

Definition pci_bus_map_irq (fn irq_num : Z) : Z := Z.land (irq_num + (Z.shiftr fn 3 - 1)) 3.
Definition pci_bridge_map_irq (fn irq_num : Z) : Z := Z.land (irq_num + Z.shiftr fn 3) 3.

(** * Configuration reads *)

Definition pci_config_bytes (d : PCIFunc) (addr : Z) (size_log2 : nat) : Z :=
  match size_log2 with
  | 0%nat => cfg8 (config d) addr
  | 1%nat => if addr <=? PCI_EXT_CONFIG_SIZE - 2 then cfg16 (config d) addr else cfg8 (config d) addr
  | _ => if PCI_EXT_CONFIG_SIZE - 4 <? addr then 0xffffffff else cfg32 (config d) addr
  end.

(** * Base address registers *)

Definition pci_bar_count (d : PCIFunc) : Z := if pci_is_bridge d then 2 else 6.
Definition pci_bar_offset (d : PCIFunc) (bar_num : Z) : Z :=
  if bar_num =? PCI_ROM_SLOT then if pci_is_bridge d then PCI_ROM_ADDRESS1 else PCI_ROM_ADDRESS
  else PCI_BASE_ADDRESS_0 + 4 * bar_num.
Definition pci_bar_reg (d : PCIFunc) (addr : Z) : Z :=
  if addr =? pci_bar_offset d PCI_ROM_SLOT then PCI_ROM_SLOT
  else if (PCI_BASE_ADDRESS_0 <=? addr) && (addr <? PCI_BASE_ADDRESS_0 + 4 * pci_bar_count d)
  then Z.shiftr (addr - PCI_BASE_ADDRESS_0) 2
  else -1.

Definition region (d : PCIFunc) (i : Z) : PCIIORegion := arr_get region0 (io_regions d) i.
Definition set_region (d : PCIFunc) (i : Z) (r : PCIIORegion) : PCIFunc := d <| io_regions := arr_set (io_regions d) i r |>.

(** The assertions of [pci_register_bar] are its precondition. *)
Definition pci_register_bar (d : PCIFunc) (bar_num sz ty : Z) : PCIFunc :=
  let is64 := nz (Z.land ty PCI_ADDRESS_SPACE_MEM_TYPE_64) && negb (nz (Z.land ty PCI_ADDRESS_SPACE_IO)) in
  let d := set_region d bar_num (mkRegion sz (u8 ty) false is64 (high_half (region d bar_num)) (told (region d bar_num))) in
  let d := if is64 then
             (set_region d (bar_num + 1) ((region d (bar_num + 1)) <| high_half := true |>))
               <| config := cfg_put (config d) (pci_bar_offset d (bar_num + 1)) (put_le32 0) |>
           else d in
  d <| config := cfg_put (config d) (pci_bar_offset d bar_num)
                   (put_le32 (if bar_num =? PCI_ROM_SLOT then 0 else u8 ty)) |>.

(** * Forwarding windows *)

Record PCIBridgeWindow := mkWindow { base : Z; limit : Z }.
Definition pci_window_contains (w : PCIBridgeWindow) (addr sz : Z) : bool :=
  (base w <=? limit w) && (base w <=? addr) && (u64 (addr + sz - 1) <=? limit w).

Definition pci_bridge_io_window (c : list Z) : PCIBridgeWindow :=
  let base8 := cfg8 c PCI_IO_BASE in
  let limit8 := cfg8 c PCI_IO_LIMIT in
  let b := Z.shiftl (get_bits 32 base8 4 4) 12 in
  let l := Z.lor (Z.shiftl (get_bits 32 limit8 4 4) 12) 0xfff in
  if get_bits 32 base8 0 4 =? PCI_IO_RANGE_TYPE_32
  then mkWindow (Z.lor b (Z.shiftl (cfg16 c PCI_IO_BASE_UPPER16) 16)) (Z.lor l (Z.shiftl (cfg16 c PCI_IO_LIMIT_UPPER16) 16))
  else mkWindow b l.
Definition pci_bridge_mem_window (c : list Z) : PCIBridgeWindow :=
  mkWindow (Z.shiftl (get_bits 32 (cfg16 c PCI_MEMORY_BASE) 4 12) 20)
           (Z.lor (Z.shiftl (get_bits 32 (cfg16 c PCI_MEMORY_LIMIT) 4 12) 20) 0xfffff).
Definition pci_bridge_pref_window (c : list Z) : PCIBridgeWindow :=
  let base16 := cfg16 c PCI_PREF_MEMORY_BASE in
  let b := Z.shiftl (get_bits 32 base16 4 12) 20 in
  let l := Z.lor (Z.shiftl (get_bits 32 (cfg16 c PCI_PREF_MEMORY_LIMIT) 4 12) 20) 0xfffff in
  if get_bits 32 base16 0 4 =? PCI_PREF_RANGE_TYPE_64
  then mkWindow (Z.lor b (Z.shiftl (cfg32 c PCI_PREF_BASE_UPPER32) 32)) (Z.lor l (Z.shiftl (cfg32 c PCI_PREF_LIMIT_UPPER32) 32))
  else mkWindow b l.

Definition window_forwards (c : list Z) (addr sz : Z) (is_io : bool) : bool :=
  if is_io then pci_window_contains (pci_bridge_io_window c) addr sz
  else pci_window_contains (pci_bridge_mem_window c) addr sz || pci_window_contains (pci_bridge_pref_window c) addr sz.
(** The bridges above, nearest first, by their configuration spaces. *)
Definition pci_bridges_forward (above : list (list Z)) (addr sz : Z) (is_io : bool) : bool :=
  forallb (fun c => window_forwards c addr sz is_io) above.

(** * Mappings *)

(** [~(size - 1)] of a 64 bit size *)
Definition size_mask (sz : Z) : Z := Z.ldiff (2 ^ 64 - 1) (sz - 1).

Definition bar_value (d : PCIFunc) (i : Z) (r : PCIIORegion) : Z :=
  let offset := pci_bar_offset d i in
  let new_addr := cfg32 (config d) offset in
  if is64 r then concat_bits 64 (cfg32 (config d) (offset + 4)) new_addr 32 else new_addr.
Definition bar_enabled (d : PCIFunc) (above : list (list Z)) (i : Z) (r : PCIIORegion) : bool :=
  let cmd := cfg16 (config d) PCI_COMMAND in
  let new_addr := bar_value d i r in
  let new_enabled :=
    if nz (Z.land (type r) PCI_ADDRESS_SPACE_IO) then nz (Z.land cmd PCI_COMMAND_IO)
    else if nz (Z.land cmd PCI_COMMAND_MEMORY) then negb (i =? PCI_ROM_SLOT) || get_bit 64 new_addr 0
    else false in
  new_enabled &&
  pci_bridges_forward above (Z.land new_addr (size_mask (size r))) (size r) (nz (Z.land (type r) PCI_ADDRESS_SPACE_IO)).

(** One turn of the loop of [pci_update_mappings]. *)
Definition update_region (above : list (list Z)) (i : Z) (d : PCIFunc) : PCIFunc :=
  let r := region d i in
  if (size r =? 0) || high_half r then d
  else if bar_enabled d above i r
  then set_region d i (r <| told := Some (Z.land (bar_value d i r) (size_mask (size r))) |> <| enabled := true |>)
  else if enabled r then set_region d i (r <| told := None |> <| enabled := false |>)
  else d.
Definition pci_update_mappings (above : list (list Z)) (d : PCIFunc) : PCIFunc :=
  for_each PCI_NUM_REGIONS 0 (update_region above) d.

(** [None]: the write is not handled here. *)
Definition pci_write_bar (above : list (list Z)) (d : PCIFunc) (addr val : Z) : option PCIFunc :=
  let reg := pci_bar_reg d addr in
  if reg <? 0 then None
  else
    let r := region d reg in
    let store val := Some (pci_update_mappings above (d <| config := cfg_put (config d) addr (put_le32 val) |>)) in
    if high_half r then
      let lo := region d (reg - 1) in
      if size lo =? 0 then None else store (Z.land val (u32 (Z.shiftr (size_mask (size lo)) 32)))
    else if size r =? 0 then None
    else if reg =? PCI_ROM_SLOT then store (Z.land val (Z.lor (u32 (size_mask (size r))) 1))
    else store (Z.lor (Z.land val (u32 (size_mask (size r)))) (type r)).

(** * Configuration writes *)

Definition in_range (addr first last : Z) : bool := (first <=? addr) && (addr <=? last).

Definition pci_config_wmask (d : PCIFunc) (addr : Z) : Z :=
  let pcie := 0 <=? pcie_type d in
  if PCI_CONFIG_SIZE <=? addr then 0x00
  else if 0x40 <=? addr then arr_get 0 (wmask d) addr
  else if addr =? PCI_COMMAND then 0x47
  else if addr =? PCI_COMMAND + 1 then 0x05
  else if in_range addr 0x00 0x03 || in_range addr 0x06 0x0b || in_range addr 0x0e 0x0f ||
          in_range addr 0x34 0x37 || (addr =? 0x3d) then 0x00
  else if addr =? 0x0d then if pcie then 0x00 else 0xff
  else if pci_is_bridge d then
    if in_range addr PCI_BASE_ADDRESS_0 (PCI_BASE_ADDRESS_0 + 7) || in_range addr PCI_SEC_STATUS (PCI_SEC_STATUS + 1) ||
       in_range addr PCI_ROM_ADDRESS1 (PCI_ROM_ADDRESS1 + 3) then 0x00
    else if addr =? PCI_SEC_LATENCY_TIMER then if pcie then 0x00 else 0xff
    else if (addr =? PCI_IO_BASE) || (addr =? PCI_IO_LIMIT) || (addr =? PCI_MEMORY_BASE) || (addr =? PCI_MEMORY_LIMIT) ||
            (addr =? PCI_PREF_MEMORY_BASE) || (addr =? PCI_PREF_MEMORY_LIMIT) then 0xf0
    else if addr =? PCI_BRIDGE_CONTROL then if pcie then 0x5f else 0xff
    else if addr =? PCI_BRIDGE_CONTROL + 1 then if pcie then 0x00 else 0x0f
    else 0xff
  else if in_range addr PCI_BASE_ADDRESS_0 (PCI_BASE_ADDRESS_0 + 23) ||
          in_range addr PCI_SUBSYSTEM_VENDOR_ID (PCI_SUBSYSTEM_ID + 1) ||
          in_range addr PCI_ROM_ADDRESS (PCI_ROM_ADDRESS + 3) || in_range addr 0x38 0x3b || in_range addr 0x3e 0x3f then 0x00
  else 0xff.

Definition pci_config_w1c_mask (d : PCIFunc) (addr : Z) : Z :=
  if (addr =? PCI_STATUS + 1) || (pci_is_bridge d && (addr =? PCI_SEC_STATUS + 1)) then 0xf9 else 0x00.

Definition pci_device_config_write8 (d : PCIFunc) (addr data : Z) : PCIFunc :=
  let mask := pci_config_wmask d addr in
  let w1c := pci_config_w1c_mask d addr in
  let d := d <| config := arr_set (config d) addr (Z.ldiff (cfg8 (config d) addr) (Z.land data w1c)) |> in
  d <| config := arr_set (config d) addr (Z.lor (Z.ldiff (cfg8 (config d) addr) mask) (Z.land data mask)) |>.

(** * MSI-X *)

Definition PCI_MSIX_FLAGS : Z := 0x02.
Definition PCI_MSIX_FLAGS_ENABLE : Z := 0x8000.
Definition PCI_MSIX_FLAGS_MASKALL : Z := 0x4000.
Definition PCI_MSIX_ENTRY_CTRL_MASKBIT : Z := 1.
Definition PCI_MSIX_NO_VECTOR : Z := 0xffff.

Definition pci_device_get_config (d : PCIFunc) (addr : Z) (size_log2 : nat) : Z := pci_config_bytes d addr size_log2.

(** A message is a memory write, which takes bus mastering; the buses that
    offer the capabilities have a receiver. *)
Definition pci_device_send_msi (d : PCIFunc) (addr data : Z) : PCIFunc :=
  if negb (nz (Z.land (cfg16 (config d) PCI_COMMAND) PCI_COMMAND_MASTER)) then d
  else d <| sent := sent d ++ [(addr, data)] |>.

Definition msix_ctrl (d : PCIFunc) : Z := pci_device_get_config d (fCapOffset (msix d) + PCI_MSIX_FLAGS) 1.
Definition msix_Enabled (d : PCIFunc) : bool :=
  if fCapOffset (msix d) <? 0 then false else nz (Z.land (msix_ctrl d) PCI_MSIX_FLAGS_ENABLE).
Definition MaskedAll (d : PCIFunc) : bool := nz (Z.land (msix_ctrl d) PCI_MSIX_FLAGS_MASKALL).
Definition AcceptVector (d : PCIFunc) (vector : Z) : Z :=
  if vector <? fVectorCount (msix d) then u16 vector else PCI_MSIX_NO_VECTOR.

Definition pba_bit (m : PCIMsixState) (v : Z) : bool := get_bit 32 (arr_get 0 (fPba m) (v / 32)) (v mod 32).
Definition set_pba (m : PCIMsixState) (v : Z) (on : bool) : PCIMsixState :=
  m <| fPba := arr_set (fPba m) (v / 32) (set_bit 32 (arr_get 0 (fPba m) (v / 32)) (v mod 32) on) |>.
Definition msix_entry (m : PCIMsixState) (v : Z) : PCIMsixEntry := arr_get entry0 (fTable m) v.
Definition entry_masked (e : PCIMsixEntry) : bool := nz (Z.land (vector_ctrl e) PCI_MSIX_ENTRY_CTRL_MASKBIT).

Definition msix_Send (d : PCIFunc) (vector : Z) : PCIFunc :=
  let m := msix d in
  if (vector <? 0) || (fVectorCount m <=? vector) then d
  else
    let e := msix_entry m vector in
    if MaskedAll d || entry_masked e then d <| msix := set_pba m vector true |>
    else pci_device_send_msi (d <| msix := set_pba m vector false |>) (concat_bits 64 (addr_hi e) (addr_lo e) 32) (data e).

Definition FunctionMaskLifted (d : PCIFunc) : PCIFunc :=
  if negb (msix_Enabled d) then d
  else for_each (Z.to_nat (fVectorCount (msix d))) 0 (fun i d =>
         if pba_bit (msix d) i && negb (entry_masked (msix_entry (msix d) i)) then msix_Send d i else d) d.

(** The entry and the word of it [TableSlot] points at. *)
Definition TableSlot (m : PCIMsixState) (offset : Z) : option (Z * Z) :=
  if fCapOffset m <? 0 then None
  else
    let index := offset / 16 in
    if fVectorCount m <=? index then None else Some (index, offset / 4 mod 4).
Definition entry_word (e : PCIMsixEntry) (w : Z) : Z :=
  if w =? 0 then addr_lo e else if w =? 1 then addr_hi e else if w =? 2 then data e else vector_ctrl e.
Definition set_entry_word (e : PCIMsixEntry) (w v : Z) : PCIMsixEntry :=
  if w =? 0 then e <| addr_lo := v |> else if w =? 1 then e <| addr_hi := v |>
  else if w =? 2 then e <| data := v |> else e <| vector_ctrl := v |>.

Definition TableRead (d : PCIFunc) (offset : Z) (size_log2 : nat) : Z :=
  match TableSlot (msix d) offset with
  | None => 0
  | Some (i, w) => get_bits 32 (entry_word (msix_entry (msix d) i) w) (offset mod 4 * 8) (Z.shiftl 8 (Z.of_nat size_log2))
  end.
Definition TableWrite (d : PCIFunc) (offset val : Z) (size_log2 : nat) : PCIFunc :=
  match TableSlot (msix d) offset with
  | None => d
  | Some (i, w) =>
    let e := msix_entry (msix d) i in
    let old := entry_word e w in
    let new := set_bits 32 old (offset mod 4 * 8) (Z.shiftl 8 (Z.of_nat size_log2)) val in
    let d := d <| msix := (msix d) <| fTable := arr_set (fTable (msix d)) i (set_entry_word e w new) |> |> in
    if (w =? 3) && nz (Z.land old PCI_MSIX_ENTRY_CTRL_MASKBIT) && negb (nz (Z.land new PCI_MSIX_ENTRY_CTRL_MASKBIT)) &&
       pba_bit (msix d) i
    then msix_Send d i else d
  end.
Definition PbaRead (d : PCIFunc) (offset : Z) (size_log2 : nat) : Z :=
  let index := offset / 4 in
  if (fCapOffset (msix d) <? 0) || ((fVectorCount (msix d) + 31) / 32 <=? index) then 0
  else get_bits 32 (arr_get 0 (fPba (msix d)) index) (offset mod 4 * 8) (Z.shiftl 8 (Z.of_nat size_log2)).

(** * Capabilities *)

Definition pci_device_set_wmask (d : PCIFunc) (addr mask : Z) (sz : nat) : PCIFunc :=
  d <| wmask := for_each sz 0 (fun i w => arr_set w (addr + i) (u8 (get_bits 32 mask (8 * i) 8))) (wmask d) |>.

(** The function with the capability and its offset, or [None]. *)
Definition pci_add_capability (d : PCIFunc) (buf : list Z) : option (PCIFunc * Z) :=
  let offset := next_cap_offset d in
  let sz := Z.of_nat (length buf) in
  if PCI_CONFIG_SIZE <? offset + sz then None
  else
    let d := d <| next_cap_offset := u16 (offset + sz) |> in
    let d := d <| config := arr_set (config d) PCI_STATUS (Z.lor (cfg8 (config d) PCI_STATUS) PCI_STATUS_CAP_LIST) |> in
    let d := d <| config := cfg_put (config d) offset buf |> in
    let d := d <| wmask := cfg_put (wmask d) offset (replicate (length buf) 0) |> in
    let d := d <| config := arr_set (config d) (offset + 1) (cfg8 (config d) PCI_CAPABILITY_LIST) |> in
    Some (d <| config := arr_set (config d) PCI_CAPABILITY_LIST (u8 offset) |>, offset).

Definition PCI_CAP_ID_MSIX : Z := 0x11.
Definition msix_cap (bar_num vector_count table_offset pba_offset : Z) : list Z :=
  [PCI_CAP_ID_MSIX; 0] ++ put_le16 (vector_count - 1) ++ put_le32 (Z.lor table_offset bar_num) ++ put_le32 (Z.lor pba_offset bar_num).
Definition msix_Init (d : PCIFunc) (has_msi : bool) (bar_num vector_count table_offset pba_offset : Z) : PCIFunc * bool :=
  if negb has_msi then (d, false)
  else
    match pci_add_capability d (msix_cap bar_num vector_count table_offset pba_offset) with
    | None => (d, false)
    | Some (d, offset) =>
      let d := pci_device_set_wmask d (offset + PCI_MSIX_FLAGS) (Z.lor PCI_MSIX_FLAGS_ENABLE PCI_MSIX_FLAGS_MASKALL) 2 in
      (d <| msix := mkMsix offset vector_count (replicate (Z.to_nat vector_count) entry0)
                      (replicate (Z.to_nat ((vector_count + 31) / 32)) 0) |>, true)
    end.

(** The walk to the end of the extended chain: entries are at increasing
    offsets of a 4 KB space, so 1024 turns are enough. *)
Fixpoint ext_cap_tail (fuel : nat) (c : list Z) (prev : Z) : Z :=
  match fuel with
  | O => prev
  | S fuel =>
    let next := Z.ldiff (get_bits 32 (cfg32 c prev) 20 12) 3 in
    if next =? 0 then prev else ext_cap_tail fuel c next
  end.
Definition pci_add_ext_capability (d : PCIFunc) (cap_id version : Z) (body : list Z) : option (PCIFunc * Z) :=
  let sz := Z.ldiff (4 + Z.of_nat (length body) + 3) 3 in
  let offset := next_ext_cap_offset d in
  if PCI_EXT_CONFIG_SIZE <? offset + sz then None
  else
    let d := d <| config := cfg_put (config d) offset (put_le32 (Z.lor cap_id (u32 (Z.shiftl version 16)))) |> in
    let d := d <| config := cfg_put (config d) (offset + 4) body |> in
    let d := if PCI_EXT_CAP_START <? offset then
               let prev := ext_cap_tail 1024 (config d) PCI_EXT_CAP_START in
               d <| config := cfg_put (config d) prev (put_le32 (set_bits 32 (cfg32 (config d) prev) 20 12 offset)) |>
             else d in
    Some (d <| next_ext_cap_offset := u16 (offset + sz) |>, offset).

Definition PCI_CAP_ID_EXP : Z := 0x10.
Definition PCI_EXP_TYPE_ENDPOINT : Z := 0x0.
Definition PCI_EXP_TYPE_ROOT_PORT : Z := 0x4.
Definition PCI_EXP_TYPE_UPSTREAM : Z := 0x5.
Definition PCI_EXP_TYPE_DOWNSTREAM : Z := 0x6.
Definition PCI_EXT_CAP_ID_DSN : Z := 0x0003.
Definition pcie_cap (port_type : Z) : list Z :=
  let c := replicate 0x3c 0 in
  let c := arr_set c 0 PCI_CAP_ID_EXP in
  let c := cfg_put c 2 (put_le16 (Z.lor 2 (Z.shiftl port_type 4))) in
  let c := cfg_put c 0x04 (put_le32 (bit_at 32 15)) in
  let c := cfg_put c 0x0c (put_le32 (Z.lor (bit_at 32 0) (bit_at 32 4))) in
  cfg_put c 0x12 (put_le16 (Z.lor (bit_at 32 0) (bit_at 32 4))).
(** [serial] is the next of the static [next_serial]. *)
Definition pci_add_pcie_capability (d : PCIFunc) (port_type serial : Z) : PCIFunc :=
  match pci_add_capability d (pcie_cap port_type) with
  | None => d
  | Some (d, offset) =>
    let d := d <| pcie_type := port_type |> in
    let d := pci_device_set_wmask d (offset + 0x08) 0x7fff 2 in
    let d := pci_device_set_wmask d (offset + 0x10) 0x0ffb 2 in
    let d := if (port_type =? PCI_EXP_TYPE_ROOT_PORT) || (port_type =? PCI_EXP_TYPE_DOWNSTREAM)
             then pci_device_set_wmask d (offset + 0x18) 0x1fff 2 else d in
    let d := if port_type =? PCI_EXP_TYPE_ROOT_PORT then pci_device_set_wmask d (offset + 0x1c) 0x001f 2 else d in
    let d := pci_device_set_wmask d (offset + 0x28) 0xffff 2 in
    match pci_add_ext_capability d PCI_EXT_CAP_ID_DSN 1 (put_le32 serial ++ put_le32 0x0000ffff) with
    | Some (d, _) => d
    | None => d
    end
  end.

(** * Functions and their tree *)

Definition pci_register_device_type (fn vendor_id device_id revision class_id header_type : Z)
    (pcie : option Z) (serial first_cap_offset : Z) : PCIFunc :=
  let c := replicate (Z.to_nat PCI_EXT_CONFIG_SIZE) 0 in
  let c := cfg_put c PCI_VENDOR_ID (put_le16 vendor_id) in
  let c := cfg_put c PCI_DEVICE_ID (put_le16 device_id) in
  let c := arr_set c 0x08 revision in
  let c := cfg_put c PCI_CLASS_DEVICE (put_le16 class_id) in
  let c := arr_set c PCI_HEADER_TYPE header_type in
  let d := mkFunc fn 0 c (replicate 0x40 0 ++ replicate 0xc0 0xff) msix_absent first_cap_offset PCI_EXT_CAP_START
             (replicate PCI_NUM_REGIONS region0) (-1) [] in
  match pcie with Some port_type => pci_add_pcie_capability d port_type serial | None => d end.

Definition pci_bridge_func (fn vendor_id device_id : Z) (pcie : option Z) (serial : Z) : PCIFunc :=
  let d := pci_register_device_type fn vendor_id device_id 0 PCI_CLASS_BRIDGE_PCI PCI_HEADER_TYPE_BRIDGE pcie serial 0x40 in
  let c := config d in
  let c := cfg_put c PCI_PREF_MEMORY_BASE (put_le16 (Z.lor 0xfff0 PCI_PREF_RANGE_TYPE_64)) in
  let c := cfg_put c PCI_PREF_MEMORY_LIMIT (put_le16 PCI_PREF_RANGE_TYPE_64) in
  let c := cfg_put c PCI_MEMORY_BASE (put_le16 0xfff0) in
  let c := cfg_put c PCI_MEMORY_LIMIT (put_le16 0x0000) in
  let c := arr_set c PCI_IO_BASE (Z.lor 0xf0 PCI_IO_RANGE_TYPE_32) in
  let c := arr_set c PCI_IO_LIMIT PCI_IO_RANGE_TYPE_32 in
  d <| config := c |>.

(** A function and the functions on its secondary bus, if it has one. *)
Inductive pci_tree := Node (f : PCIFunc) (secondary : bool) (below : list pci_tree).
Definition node_func (t : pci_tree) : PCIFunc := match t with Node f _ _ => f end.
Definition node_secondary (t : pci_tree) : bool := match t with Node _ s _ => s end.
Definition node_below (t : pci_tree) : list pci_tree := match t with Node _ _ b => b end.

(** [pci_update_mappings] of a function and of all below it. *)
Fixpoint update_tree (above : list (list Z)) (t : pci_tree) : pci_tree :=
  match t with
  | Node f s below =>
    let f := pci_update_mappings above f in
    Node f s (map (update_tree (config f :: above)) below)
  end.
Definition pci_update_mappings_below (above : list (list Z)) (below : list pci_tree) : list pci_tree :=
  map (update_tree above) below.

(** The function bits of [pci_update_intx]; the rest of it is in PciIntx.v. *)
Definition intx_disabled (d : PCIFunc) : bool :=
  negb (pci_is_bridge d) && nz (Z.land (cfg16 (config d) PCI_COMMAND) PCI_COMMAND_INTX_DISABLE).
Definition update_intx_status (d : PCIFunc) : PCIFunc :=
  if negb (pci_is_bridge d) then
    let s := cfg8 (config d) PCI_STATUS in
    d <| config := arr_set (config d) PCI_STATUS
           (if nz (irq_request d) then Z.lor s PCI_STATUS_INTERRUPT else Z.ldiff s PCI_STATUS_INTERRUPT) |>
  else d.

(** The byte by byte part of [pci_device_config_write]. *)
Definition config_write_bytes (d : PCIFunc) (addr data : Z) (sz : nat) : PCIFunc :=
  for_each sz 0 (fun i d =>
    if addr + i <? PCI_EXT_CONFIG_SIZE then pci_device_config_write8 d (addr + i) (get_bits 32 data (i * 8) 8) else d) d.

Definition covers (a addr sz : Z) : bool := (addr <=? a) && (a <? addr + sz).

Definition pci_device_config_write (above : list (list Z)) (t : pci_tree) (addr data : Z) (size_log2 : nat) : pci_tree :=
  match t with
  | Node d s below =>
    let sz := Z.shiftl 1 (Z.of_nat size_log2) in
    match (if (Nat.eqb size_log2 2) && (0 <=? pci_bar_reg d addr) then pci_write_bar above d addr data else None) with
    | Some d => Node d s below
    | None =>
      let present := 0 <=? fCapOffset (msix d) in
      let msix_masked := present && MaskedAll d in
      let d := config_write_bytes d addr data (Z.to_nat sz) in
      let d := if msix_masked && negb (MaskedAll d) then FunctionMaskLifted d else d in
      let d := if covers PCI_COMMAND addr sz then pci_update_mappings above d else d in
      let d := if covers (PCI_COMMAND + 1) addr sz then update_intx_status d else d in
      let below := if pci_is_bridge d && (addr <? PCI_IO_LIMIT_UPPER16 + 2) && (PCI_IO_BASE <? addr + sz)
                   then pci_update_mappings_below (config d :: above) below else below in
      Node d s below
    end
  end.

(** * Routing *)

Definition find_on (devs : list pci_tree) (fn : Z) : option nat :=
  fst <$> list_find (fun t => devfn (node_func t) = fn) devs.
Definition routes (bus_num : Z) (t : pci_tree) : bool :=
  node_secondary t && (cfg8 (config (node_func t)) PCI_SECONDARY_BUS <=? bus_num) &&
  (bus_num <=? cfg8 (config (node_func t)) PCI_SUBORDINATE_BUS).

(** [pci_find_device] as the path to the function: the index on each bus.
    [number] is the bus's own number. *)
Fixpoint find_path (fuel : nat) (number : Z) (devs : list pci_tree) (bus_num fn : Z) : option (list nat) :=
  if bus_num =? number then (fun i => [i]) <$> find_on devs fn
  else
    match fuel with
    | O => None
    | S fuel =>
      match list_find (fun t => routes bus_num t = true) devs with
      | None => None
      | Some (i, t) => cons i <$> find_path fuel (cfg8 (config (node_func t)) PCI_SECONDARY_BUS) (node_below t) bus_num fn
      end
    end.

(** An operation on the function at a path, told the bridges above it. *)
Fixpoint at_path (above : list (list Z)) (devs : list pci_tree) (path : list nat)
    (op : list (list Z) -> pci_tree -> pci_tree) : list pci_tree :=
  match path with
  | [] => devs
  | [i] => alter (op above) i devs
  | i :: path =>
    match devs !! i with
    | Some (Node f s below) => <[i := Node f s (at_path (config f :: above) below path op)]> devs
    | None => devs
    end
  end.

Fixpoint depth (t : pci_tree) : nat := match t with Node _ _ below => S (list_max (map depth below)) end.

Record PCIRoot := mkRoot { bus_num : Z; devices : list pci_tree }.
Definition pci_find_device (b : PCIRoot) (num fn : Z) : option (list nat) :=
  find_path (list_max (map depth (devices b))) (bus_num b) (devices b) num fn.
Definition pci_data_write (b : PCIRoot) (addr data : Z) (size_log2 : nat) : PCIRoot :=
  match pci_find_device b (get_bits 32 addr 20 8) (get_bits 32 addr 12 8) with
  | None => b
  | Some path =>
    mkRoot (bus_num b) (at_path [] (devices b) path (fun above t =>
      pci_device_config_write above t (Z.land addr (PCI_EXT_CONFIG_SIZE - 1)) data size_log2))
  end.
Fixpoint lookup_path (devs : list pci_tree) (path : list nat) : option pci_tree :=
  match path with
  | [] => None
  | [i] => devs !! i
  | i :: path => t ← devs !! i; lookup_path (node_below t) path
  end.
Definition val_ones (size_log2 : nat) : Z := Z.ones (8 * Z.shiftl 1 (Z.of_nat size_log2)).
Definition pci_data_read (b : PCIRoot) (addr : Z) (size_log2 : nat) : Z :=
  match pci_find_device b (get_bits 32 addr 20 8) (get_bits 32 addr 12 8) with
  | None => val_ones size_log2
  | Some path =>
    match lookup_path (devices b) path with
    | Some t => pci_config_bytes (node_func t) (Z.land addr (PCI_EXT_CONFIG_SIZE - 1)) size_log2
    | None => val_ones size_log2
    end
  end.
