(* ===== verification/PciOk.v ===== *)
(** Every region of every PCI function is decoded where its registers and the
    windows of the bridges above it say, at all times (Pci.v). *)

From stdpp Require Import base numbers list.
From S2P Require Import Prelude Bits Cutils Pci.
Local Open Scope Z_scope.

(** * Bytes *)

Lemma length_cfg_put bytes : forall c a, length (cfg_put c a bytes) = length c.
Proof. induction bytes as [|b bytes IH]; intros c a; simpl; [done|]. by rewrite IH, length_arr_set. Qed.

Lemma cfg8_put_out bytes : forall c a x, 0 <= a -> 0 <= x -> x < a \/ a + Z.of_nat (length bytes) <= x ->
  cfg8 (cfg_put c a bytes) x = cfg8 c x.
Proof.
  induction bytes as [|b bytes IH]; intros c a x Ha Hx Hout; cbn [cfg_put]; [done|].
  cbn [length] in Hout. rewrite IH by lia. unfold cfg8. apply arr_get_set_ne; lia.
Qed.

#[local] Arguments cfg_put : simpl never.

(** The registers are the same bytes. *)
Definition same_bytes (lo hi : Z) (c c' : list Z) : Prop := forall a, lo <= a < hi -> cfg8 c' a = cfg8 c a.

Lemma same_cfg16 lo hi c c' a : same_bytes lo hi c c' -> lo <= a -> a + 2 <= hi -> cfg16 c' a = cfg16 c a.
Proof. intros H Ha Hb. unfold cfg16. by rewrite !H by lia. Qed.
Lemma same_cfg32 lo hi c c' a : same_bytes lo hi c c' -> lo <= a -> a + 4 <= hi -> cfg32 c' a = cfg32 c a.
Proof. intros H Ha Hb. unfold cfg32. by rewrite !H by lia. Qed.
Lemma same_sub lo hi lo' hi' c c' : same_bytes lo hi c c' -> lo <= lo' -> hi' <= hi -> same_bytes lo' hi' c c'.
Proof. intros H ? ? a ?. apply H. lia. Qed.

(** The windows of a bridge are in its bytes 0x1c to 0x33. *)
Lemma same_windows c c' addr sz io : same_bytes 0x1c 0x34 c c' -> window_forwards c' addr sz io = window_forwards c addr sz io.
Proof.
  intros H. unfold window_forwards, pci_bridge_io_window, pci_bridge_mem_window, pci_bridge_pref_window.
  unfold PCI_IO_BASE, PCI_IO_LIMIT, PCI_IO_BASE_UPPER16, PCI_IO_LIMIT_UPPER16, PCI_MEMORY_BASE, PCI_MEMORY_LIMIT,
    PCI_PREF_MEMORY_BASE, PCI_PREF_MEMORY_LIMIT, PCI_PREF_BASE_UPPER32, PCI_PREF_LIMIT_UPPER32.
  rewrite !(same_cfg16 _ _ _ _ _ H), !(same_cfg32 _ _ _ _ _ H), !H by lia. done.
Qed.

(** * One function *)

(** The regions a header has registers for. *)
Definition has_bar (c : list Z) (i : Z) : Prop := is_bridge c = true -> i < 2 \/ i = PCI_ROM_SLOT.

Record func_wf (f : PCIFunc) : Prop := {
  wf_config : length (config f) = 4096%nat;
  wf_regions : length (io_regions f) = 7%nat;
  wf_told : forall i, enabled (region f i) = bool_decide (is_Some (told (region f i)));
  wf_bars : forall i, 0 <= i < 7 -> size (region f i) <> 0 -> has_bar (config f) i;
  wf_is64 : forall i, is64 (region f i) = true -> size (region f i) <> 0 -> i + 1 < pci_bar_count f;
  wf_size : forall i, size (region f i) <> 0 -> exists k, 2 <= k < 64 /\ size (region f i) = 2 ^ k;
}.

(** A region is decoded just where its registers and the bridges say. *)
Definition decoded (above : list (list Z)) (f : PCIFunc) (i : Z) : Prop :=
  let r := region f i in
  size r <> 0 -> high_half r = false ->
  told r = if bar_enabled f above i r then Some (Z.land (bar_value f i r) (size_mask (size r))) else None.
Definition coherent (above : list (list Z)) (f : PCIFunc) : Prop := func_wf f /\ forall i, 0 <= i < 7 -> decoded above f i.

(** What decoding a region reads. *)
Definition same_bars (f f' : PCIFunc) : Prop :=
  cfg8 (config f') 0x04 = cfg8 (config f) 0x04 /\ cfg8 (config f') PCI_HEADER_TYPE = cfg8 (config f) PCI_HEADER_TYPE /\
  (forall a, 0x10 <= a < 0x18 -> cfg8 (config f') a = cfg8 (config f) a) /\
  (pci_is_bridge f = false -> forall a, 0x18 <= a < 0x28 \/ 0x30 <= a < 0x34 -> cfg8 (config f') a = cfg8 (config f) a) /\
  (pci_is_bridge f = true -> forall a, 0x38 <= a < 0x3c -> cfg8 (config f') a = cfg8 (config f) a).

Lemma same_bars_bridge f f' : same_bars f f' -> pci_is_bridge f' = pci_is_bridge f.
Proof. intros (_ & E & _). unfold pci_is_bridge, is_bridge. by rewrite E. Qed.

Lemma bar_cfg32 f f' i : same_bars f f' -> 0 <= i < 7 -> has_bar (config f) i ->
  cfg32 (config f') (pci_bar_offset f i) = cfg32 (config f) (pci_bar_offset f i).
Proof.
  intros (_ & _ & Hlow & Hn & Hb) Hi Hh. unfold pci_bar_offset, PCI_ROM_SLOT, PCI_ROM_ADDRESS, PCI_ROM_ADDRESS1, PCI_BASE_ADDRESS_0.
  unfold has_bar, PCI_ROM_SLOT in Hh. unfold pci_is_bridge in *.
  destruct (Z.eqb_spec i 6) as [->|Hne], (is_bridge (config f)) eqn:E; unfold cfg32.
  - by rewrite !Hb by (done || lia).
  - by rewrite !Hn by (done || lia).
  - specialize (Hh eq_refl). by rewrite !Hlow by lia.
  - destruct (decide (i < 2)); [by rewrite !Hlow by lia|]. by rewrite !Hn by (done || lia).
Qed.

Lemma cmd_low c k : 0 <= k < 8 -> nz (Z.land (cfg16 c PCI_COMMAND) (bit_at 32 k)) = Z.testbit (cfg8 c 0x04) k.
Proof.
  intros Hk. rewrite nz_bit_at by lia. unfold cfg16, get_le16, PCI_COMMAND. cbn.
  rewrite Z.lor_spec, Z.shiftl_spec_low by lia. by rewrite orb_false_r.
Qed.

Lemma bar_same above f f' i r : same_bars f f' -> 0 <= i < 7 -> has_bar (config f) i ->
  (is64 r = true -> i + 1 < pci_bar_count f) ->
  bar_value f' i r = bar_value f i r /\ bar_enabled f' above i r = bar_enabled f above i r.
Proof.
  intros Hs Hi Hh H64. pose proof (same_bars_bridge f f' Hs) as Eb.
  assert (Eo : forall j, pci_bar_offset f' j = pci_bar_offset f j) by (intros j; unfold pci_bar_offset; by rewrite Eb).
  assert (Ev : bar_value f' i r = bar_value f i r).
  { unfold bar_value. cbv zeta. rewrite Eo, bar_cfg32 by done. destruct (is64 r); [|done]. specialize (H64 eq_refl).
    assert (i + 1 < 6) by (unfold pci_bar_count in H64; destruct (pci_is_bridge f); lia).
    assert (pci_bar_offset f i + 4 = pci_bar_offset f (i + 1)) as ->.
    { unfold pci_bar_offset, PCI_ROM_SLOT. destruct (Z.eqb_spec i 6), (Z.eqb_spec (i + 1) 6); lia. }
    rewrite bar_cfg32; [done|done|lia|]. intros E. unfold pci_bar_count, pci_is_bridge in H64. rewrite E in H64. lia. }
  split; [done|]. unfold bar_enabled. cbv zeta. rewrite Ev. destruct Hs as (E4 & _).
  change PCI_COMMAND_IO with (bit_at 32 0). change PCI_COMMAND_MEMORY with (bit_at 32 1). by rewrite !cmd_low, E4 by lia.
Qed.

Lemma region_set f i j r : length (io_regions f) = 7%nat -> 0 <= i < 7 -> 0 <= j ->
  region (set_region f i r) j = if j =? i then r else region f j.
Proof. intros. unfold region, set_region. simpl. apply arr_get_set; lia. Qed.

Lemma region_neg f i : i < 0 -> region f i = region f 0.
Proof. intros. unfold region, arr_get. by rewrite Z2Nat.nonpos by lia. Qed.

Lemma region_set_all f i j r : length (io_regions f) = 7%nat -> 0 <= i < 7 ->
  region (set_region f i r) j = if (j =? i) || ((j <? 0) && (i =? 0)) then r else region f j.
Proof.
  intros Hl Hi. destruct (Z.ltb_spec j 0).
  - rewrite region_neg, region_set by lia. rewrite (region_neg f j) by lia.
    destruct (Z.eqb_spec 0 i), (Z.eqb_spec j i), (Z.eqb_spec i 0); try lia; done.
  - rewrite region_set by lia. simpl. by rewrite orb_false_r.
Qed.

(** ** Updating the mappings *)

Definition with_regions (f : PCIFunc) (l : list PCIIORegion) : PCIFunc := f <| io_regions := l |>.

Lemma update_region_frame above i f : exists l, update_region above i f = with_regions f l.
Proof.
  unfold update_region. cbv zeta. repeat case_match; try (eexists; reflexivity).
  all: exists (io_regions f); by destruct f.
Qed.

(** The fields of a region other than where it is decoded. *)
Definition same_region (r r' : PCIIORegion) : Prop :=
  size r' = size r /\ type r' = type r /\ is64 r' = is64 r /\ high_half r' = high_half r.

Lemma bar_frame above f l i r : bar_value (with_regions f l) i r = bar_value f i r /\
  bar_enabled (with_regions f l) above i r = bar_enabled f above i r.
Proof. done. Qed.

Lemma bar_same_region above f i r r' : same_region r r' ->
  bar_value f i r' = bar_value f i r /\ bar_enabled f above i r' = bar_enabled f above i r.
Proof. intros (E1 & E2 & E3 & _). unfold bar_enabled, bar_value. by rewrite E1, E2, E3. Qed.

Lemma update_region_spec above i f : length (io_regions f) = 7%nat -> 0 <= i < 7 ->
  (forall j, enabled (region f j) = bool_decide (is_Some (told (region f j)))) ->
  let f' := update_region above i f in
  length (io_regions f') = 7%nat /\
  (forall j, enabled (region f' j) = bool_decide (is_Some (told (region f' j)))) /\
  (forall j, same_region (region f j) (region f' j)) /\
  (forall j, 0 <= j -> j <> i -> region f' j = region f j) /\
  decoded above f' i.
Proof.
  intros Hl Hi Ht f'. assert (Hcase : f' = f /\ decoded above f i \/
    exists r', same_region (region f i) r' /\ f' = set_region f i r' /\
      enabled r' = bool_decide (is_Some (told r')) /\ (size r' <> 0 -> high_half r' = false -> told r' =
        if bar_enabled f above i r' then Some (Z.land (bar_value f i r') (size_mask (size r'))) else None)).
  { unfold f', update_region. cbv zeta. destruct (Z.eqb_spec (size (region f i)) 0) as [E|E].
    { left. split; [done|]. by intros ? ?. }
    destruct (high_half (region f i)) eqn:Eh; simpl; [left; split; [done|]; intros ? ?; congruence|].
    destruct (bar_enabled f above i (region f i)) eqn:Eb.
    - right. eexists. split; [|split; [reflexivity|]]; [done|]. split; [done|]. intros _ _.
      simpl. unfold bar_enabled, bar_value in *. simpl. by rewrite Eb.
    - destruct (enabled (region f i)) eqn:Ee.
      + right. eexists. split; [|split; [reflexivity|]]; [done|]. split; [done|]. intros _ _.
        simpl. unfold bar_enabled, bar_value in *. simpl. by rewrite Eb.
      + left. split; [done|]. intros _ _. rewrite Eb. specialize (Ht i). rewrite Ee in Ht. symmetry in Ht.
        apply bool_decide_eq_false in Ht. destruct (told (region f i)); [by destruct Ht|done]. }
  destruct Hcase as [[-> Hd]|(r' & Hs & -> & He & Hd)]; [split_and!; done|].
  pose proof (fun j => region_set_all f i j r' Hl Hi) as E.
  split_and!.
  - unfold set_region. simpl. by rewrite length_arr_set.
  - intros j. rewrite E. by destruct (_ || _).
  - intros j. rewrite E. destruct (Z.eqb_spec j i) as [->|]; simpl; [done|].
    destruct (Z.ltb_spec j 0), (Z.eqb_spec i 0) as [->|]; simpl; try done. by rewrite (region_neg f j).
  - intros j Hj Hne. rewrite E. destruct (Z.eqb_spec j i); [done|]. destruct (Z.ltb_spec j 0); [lia|done].
  - unfold decoded. rewrite E, Z.eqb_refl. simpl. exact Hd.
Qed.

Lemma pci_update_frame above f : exists l, pci_update_mappings above f = with_regions f l.
Proof.
  unfold pci_update_mappings. apply (for_each_ind (fun _ f' => exists l, f' = with_regions f l)).
  - intros j t _ [l ->]. destruct (update_region_frame above j (with_regions f l)) as [l' ->]. by exists l'.
  - exists (io_regions f). by destruct f.
Qed.

Lemma update_frame_eq above f : config (pci_update_mappings above f) = config f /\ msix (pci_update_mappings above f) = msix f.
Proof. by destruct (pci_update_frame above f) as [l ->]. Qed.

(** Regions of the same shape, on the same configuration space. *)
Definition reshaped (f f' : PCIFunc) : Prop :=
  length (io_regions f') = 7%nat /\ (forall j, enabled (region f' j) = bool_decide (is_Some (told (region f' j)))) /\
  (forall j, same_region (region f j) (region f' j)).

Lemma reshaped_wf f f' : func_wf f -> reshaped f f' -> length (config f') = 4096%nat ->
  is_bridge (config f') = is_bridge (config f) -> func_wf f'.
Proof.
  intros [] (H1 & H2 & H3) Hc Eb. constructor; try done.
  - intros i Hi. destruct (H3 i) as (-> & _). unfold has_bar. rewrite Eb. by apply wf_bars0.
  - intros i. destruct (H3 i) as (-> & _ & -> & _). unfold pci_bar_count, pci_is_bridge. rewrite Eb. apply wf_is65.
  - intros i. destruct (H3 i) as (-> & _). apply wf_size0.
Qed.

Lemma update_coherent above f : func_wf f -> coherent above (pci_update_mappings above f).
Proof.
  intros Hwf. pose proof Hwf as [_ Hl Ht _ _ _].
  assert (Hf : reshaped f (pci_update_mappings above f) /\ forall i, 0 <= i < 0 + Z.of_nat 7 -> decoded above (pci_update_mappings above f) i).
  { unfold pci_update_mappings, PCI_NUM_REGIONS.
    apply (for_each_ind (fun j f' => reshaped f f' /\ forall i, 0 <= i < j -> decoded above f' i)).
    - intros j t Hj [(H1 & H2 & H3) Hd]. destruct (update_region_spec above j t) as (G1 & G2 & G3 & G4 & G5); [done|lia|done|].
      split; [split_and!; [done..|]|].
      + intros i. destruct (H3 i) as (A1 & A2 & A3 & A4), (G3 i) as (B1 & B2 & B3 & B4). split_and!; congruence.
      + intros i Hi. destruct (decide (i = j)) as [->|]; [done|]. unfold decoded. rewrite G4 by lia.
        destruct (update_region_frame above j t) as [l ->]. apply Hd. lia.
    - split; [split_and!; done|]. intros; lia. }
  destruct (pci_update_frame above f) as [l E]. destruct Hf as [Hr Hd]. split; [|exact Hd].
  apply (reshaped_wf f); [done|done|rewrite E; apply Hwf|by rewrite E].
Qed.

(** * The tree *)

Section TreeInd.
Context (P : pci_tree -> Prop).
Hypothesis HP : forall f s below, Forall P below -> P (Node f s below).
Fixpoint pci_tree_ind' (t : pci_tree) : P t :=
  match t with
  | Node f s below => HP f s below ((fix go l : Forall P l :=
      match l with [] => Forall_nil_2 _ | t :: l => Forall_cons_2 _ _ _ (pci_tree_ind' t) (go l) end) below)
  end.
End TreeInd.

(** Every function of the tree is coherent under the bridges above it, and only
    a bridge has functions below. *)
Fixpoint tree_ok (above : list (list Z)) (t : pci_tree) : Prop :=
  match t with
  | Node f _ below => coherent above f /\ (below <> [] -> pci_is_bridge f = true) /\
      foldr (fun t P => tree_ok (config f :: above) t /\ P) True below
  end.

Lemma below_ok above below : foldr (fun t P => tree_ok above t /\ P) True below <-> Forall (tree_ok above) below.
Proof. induction below as [|t l IH]; simpl; [done|]. rewrite IH, Forall_cons. done. Qed.

(** Every function of the tree has a well-formed header, wherever it is. *)
Fixpoint tree_wf (t : pci_tree) : Prop :=
  match t with
  | Node f _ below => func_wf f /\ (below <> [] -> pci_is_bridge f = true) /\ foldr (fun t P => tree_wf t /\ P) True below
  end.
Lemma below_wf below : foldr (fun t P => tree_wf t /\ P) True below <-> Forall tree_wf below.
Proof. induction below as [|t l IH]; simpl; [done|]. rewrite IH, Forall_cons. done. Qed.

Lemma tree_ok_wf t : forall above, tree_ok above t -> tree_wf t.
Proof.
  induction t as [f s below IH] using pci_tree_ind'. intros above (Hc & Hb & Hf). simpl. split_and!; [apply Hc|done|].
  rewrite below_ok in Hf. rewrite below_wf. rewrite Forall_forall in *. intros t Ht. by eapply IH, Hf.
Qed.

Lemma update_tree_ok t : forall above, tree_wf t -> tree_ok above (update_tree above t).
Proof.
  induction t as [f s below IH] using pci_tree_ind'. intros above (Hf & Hb & Hbelow). cbn [update_tree].
  destruct (update_frame_eq above f) as [Ec _]. cbv zeta. cbn [tree_ok]. split_and!; [by apply update_coherent| |].
  - intros Hne. unfold pci_is_bridge. rewrite Ec. apply Hb. by destruct below.
  - rewrite below_wf in Hbelow. rewrite below_ok, Forall_map. rewrite Forall_forall in *. intros t Ht. by apply IH, Hbelow.
Qed.

(** Decoding only looks at the windows of the bridges above. *)
Definition same_above (above above' : list (list Z)) : Prop := Forall2 (same_bytes 0x1c 0x34) above above'.

Lemma forward_same above above' addr sz io : same_above above above' ->
  pci_bridges_forward above' addr sz io = pci_bridges_forward above addr sz io.
Proof. unfold pci_bridges_forward. induction 1 as [|c c' l l' H _ IH]; simpl; [done|]. by rewrite IH, (same_windows c c'). Qed.

Lemma coherent_same above above' f : same_above above above' -> coherent above f -> coherent above' f.
Proof.
  intros Ha [Hw Hd]. split; [done|]. intros i Hi. specialize (Hd i Hi). unfold decoded in *. cbv zeta in *.
  unfold bar_enabled in *. cbv zeta in *. by rewrite (forward_same above above').
Qed.

Lemma tree_same t : forall above above', same_above above above' -> tree_ok above t -> tree_ok above' t.
Proof.
  induction t as [f s below IH] using pci_tree_ind'. intros above above' Ha (Hc & Hb & Hf). cbn [tree_ok].
  split_and!; [by eapply coherent_same|done|]. rewrite below_ok in *. rewrite Forall_forall in *. intros t Ht.
  eapply IH; [done| |by apply Hf]. constructor; [|done]. intros a _. done.
Qed.

(** * Configuration writes *)

Definition with_config (f : PCIFunc) (c : list Z) : PCIFunc := f <| config := c |>.

(** A byte no write changes. *)
Definition protected (f : PCIFunc) (a : Z) : Prop := pci_config_wmask f a = 0 /\ pci_config_w1c_mask f a = 0.

Lemma masks_same f c a : is_bridge c = is_bridge (config f) ->
  pci_config_wmask (with_config f c) a = pci_config_wmask f a /\ pci_config_w1c_mask (with_config f c) a = pci_config_w1c_mask f a.
Proof.
  intros E. unfold pci_config_wmask, pci_config_w1c_mask, pci_is_bridge. simpl config. simpl pcie_type. simpl wmask.
  by rewrite E.
Qed.

Lemma write8_frame f addr data : length (config f) = 4096%nat -> 0 <= addr < 4096 ->
  exists c, pci_device_config_write8 f addr data = with_config f c /\ length c = 4096%nat /\
    (forall a, 0 <= a -> a <> addr -> cfg8 c a = cfg8 (config f) a) /\
    (protected f addr -> cfg8 c addr = cfg8 (config f) addr).
Proof.
  intros Hl Ha. eexists. split; [reflexivity|]. simpl config. rewrite !length_arr_set. unfold cfg8. split_and!; [done| |].
  - intros a H0 Hne. by rewrite !arr_get_set_ne by lia.
  - intros [E1 E2].
    rewrite !arr_get_set, Z.eqb_refl by (rewrite ?length_arr_set; lia). rewrite E1, E2.
    by rewrite !Z.land_0_r, !Z.ldiff_0_r, Z.lor_0_r.
Qed.

Lemma header_protected f : protected f PCI_HEADER_TYPE.
Proof. split; [done|]. unfold pci_config_w1c_mask. by destruct (pci_is_bridge f). Qed.

Lemma write_bytes_frame f addr data n : length (config f) = 4096%nat -> 0 <= addr ->
  exists c, config_write_bytes f addr data n = with_config f c /\ length c = 4096%nat /\
    is_bridge c = is_bridge (config f) /\
    (forall a, 0 <= a -> protected f a \/ a < addr \/ addr + Z.of_nat n <= a -> cfg8 c a = cfg8 (config f) a).
Proof.
  intros Hl Ha. unfold config_write_bytes.
  apply (for_each_ind (fun i f' => exists c, f' = with_config f c /\ length c = 4096%nat /\
    is_bridge c = is_bridge (config f) /\
    (forall a, 0 <= a -> protected f a \/ a < addr \/ addr + Z.of_nat n <= a -> cfg8 c a = cfg8 (config f) a))).
  - intros i t Hi (c & -> & Hc & Hb & Hs). destruct (Z.ltb_spec (addr + i) PCI_EXT_CONFIG_SIZE) as [Hlt|]; [|by exists c].
    unfold PCI_EXT_CONFIG_SIZE in Hlt.
    destruct (write8_frame (with_config f c) (addr + i) (get_bits 32 data (i * 8) 8)) as (c' & -> & Hc' & Hs' & Hp);
      [done|lia|]. exists c'. simpl config in *.
    assert (Hall : forall a, 0 <= a -> protected f a \/ a < addr \/ addr + Z.of_nat n <= a -> cfg8 c' a = cfg8 (config f) a).
    { intros a H0 Hd. rewrite <- (Hs a H0 Hd). destruct (decide (a = addr + i)) as [->|Hne]; [|by apply Hs'].
      apply Hp. destruct Hd as [[E1 E2]|]; [|lia]. destruct (masks_same f c (addr + i) Hb) as [F1 F2].
      split; congruence. }
    split_and!; try done. unfold is_bridge. rewrite Hall; [done|done|]. left. apply header_protected.
  - exists (config f). split_and!; try done. by destruct f.
Qed.

(** The registers a write byte by byte never changes. *)
Lemma bars_protected f : (forall a, 0x10 <= a < 0x18 -> protected f a) /\
  (pci_is_bridge f = false -> forall a, 0x18 <= a < 0x28 \/ 0x30 <= a < 0x34 -> protected f a) /\
  (pci_is_bridge f = true -> forall a, 0x38 <= a < 0x3c -> protected f a).
Proof.
  assert (H : forall a b, pci_is_bridge f = b -> 0x10 <= a < 0x18 \/ (b = false /\ (0x18 <= a < 0x28 \/ 0x30 <= a < 0x34)) \/
    (b = true /\ 0x38 <= a < 0x3c) -> protected f a).
  { intros a b Eb Ha. unfold protected, pci_config_wmask, pci_config_w1c_mask, in_range. rewrite Eb.
    unfold PCI_CONFIG_SIZE, PCI_COMMAND, PCI_BASE_ADDRESS_0, PCI_SEC_STATUS, PCI_ROM_ADDRESS1, PCI_ROM_ADDRESS,
      PCI_SUBSYSTEM_VENDOR_ID, PCI_SUBSYSTEM_ID, PCI_STATUS.
    destruct b; (split; [repeat (case_match; try done; try lia)|repeat (case_match; try done; try lia)]). }
  split_and!; intros; (eapply H; [reflexivity|]); naive_solver lia.
Qed.

(** Decoding reads the configuration space and the regions only. *)
Lemma coherent_frame above f f' : config f' = config f -> io_regions f' = io_regions f -> coherent above f -> coherent above f'.
Proof.
  intros Ec Er [Hw Hd].
  assert (E : forall i, region f' i = region f i) by (intros; unfold region; by rewrite Er).
  assert (Eb : pci_is_bridge f' = pci_is_bridge f) by (unfold pci_is_bridge; by rewrite Ec).
  split.
  - destruct Hw. constructor; rewrite ?Ec, ?Er; try done; intros i; rewrite E; [done|apply wf_bars0| |apply wf_size0].
    unfold pci_bar_count. rewrite Eb. apply wf_is65.
  - intros i Hi. specialize (Hd i Hi). unfold decoded, bar_enabled, bar_value, pci_bar_offset in *. by rewrite E, Ec, Eb.
Qed.

Lemma wf_with_config f c : func_wf f -> length c = 4096%nat -> is_bridge c = is_bridge (config f) -> func_wf (with_config f c).
Proof.
  intros Hw Hc Eb. apply (reshaped_wf f); [done| |done|done]. destruct Hw. split_and!; try done.
Qed.

Lemma coherent_same_bars above f c : coherent above f -> length c = 4096%nat -> same_bars f (with_config f c) ->
  coherent above (with_config f c).
Proof.
  intros [Hw Hd] Hc Hs. assert (Eb : is_bridge c = is_bridge (config f)) by apply (same_bars_bridge _ _ Hs).
  split; [by apply wf_with_config|]. intros i Hi. specialize (Hd i Hi).
  unfold decoded. cbv zeta. change (region (with_config f c) i) with (region f i). intros Hsz Hh. specialize (Hd Hsz Hh).
  destruct (bar_same above f (with_config f c) i (region f i)) as [E1 E2]; [done|done|by apply Hw| |].
  - intros H64. by apply (wf_is64 f Hw).
  - by rewrite E1, E2.
Qed.

Lemma msix_frame f v : config (msix_Send f v) = config f /\ io_regions (msix_Send f v) = io_regions f.
Proof. unfold msix_Send, pci_device_send_msi. by repeat case_match. Qed.

Lemma lifted_frame f : config (FunctionMaskLifted f) = config f /\ io_regions (FunctionMaskLifted f) = io_regions f.
Proof.
  unfold FunctionMaskLifted. destruct (negb _); [done|].
  apply (for_each_ind (fun _ f' => config f' = config f /\ io_regions f' = io_regions f)); [|done].
  intros i t _ [E1 E2]. destruct (_ && _); [|done]. destruct (msix_frame t i) as [-> ->]. done.
Qed.

Lemma intx_status_coherent above f : coherent above f -> coherent above (update_intx_status f).
Proof.
  intros Hf. unfold update_intx_status. destruct (pci_is_bridge f) eqn:Eb; simpl; [done|]. cbv zeta.
  apply coherent_same_bars; [done|rewrite length_arr_set; apply Hf|]. unfold cfg8.
  repeat split; simpl config; intros; unfold PCI_STATUS, PCI_HEADER_TYPE; apply arr_get_set_ne; lia.
Qed.

(** ** A write to one function *)

Lemma bar_reg_range f addr : 0 <= pci_bar_reg f addr -> 0 <= addr ->
  0x10 <= addr /\ addr + 4 <= 0x3c /\ (pci_is_bridge f = true -> addr + 4 <= 0x1c \/ 0x34 <= addr).
Proof.
  unfold pci_bar_reg, pci_bar_count, pci_bar_offset, PCI_BASE_ADDRESS_0, PCI_ROM_ADDRESS, PCI_ROM_ADDRESS1, PCI_ROM_SLOT.
  intros H Ha. simpl in H. destruct (pci_is_bridge f); repeat case_match; simplify_eq; try lia.
Qed.

Lemma write_bar_ok above f addr val f' : func_wf f -> 0 <= addr -> pci_write_bar above f addr val = Some f' ->
  coherent above f' /\ pci_is_bridge f' = pci_is_bridge f /\
  (pci_is_bridge f = true -> same_bytes 0x1c 0x34 (config f) (config f')).
Proof.
  intros Hw Ha. unfold pci_write_bar. cbv zeta. destruct (Z.ltb_spec (pci_bar_reg f addr) 0) as [|Hr]; [done|].
  destruct (bar_reg_range f addr Hr Ha) as (H1 & H2 & H3).
  assert (Hput : forall v f', pci_update_mappings above (f <| config := cfg_put (config f) addr (put_le32 v) |>) = f' ->
    coherent above f' /\ pci_is_bridge f' = pci_is_bridge f /\
    (pci_is_bridge f = true -> same_bytes 0x1c 0x34 (config f) (config f'))).
  { intros v g <-. set (c := cfg_put (config f) addr (put_le32 v)). change (f <| config := c |>) with (with_config f c).
    assert (Hout : forall a, 0 <= a -> a < addr \/ addr + 4 <= a -> cfg8 c a = cfg8 (config f) a)
      by (intros a H0 Hout; apply cfg8_put_out; simpl length; lia).
    assert (Eb : is_bridge c = is_bridge (config f))
      by (unfold is_bridge, PCI_HEADER_TYPE; by rewrite Hout by lia).
    destruct (update_frame_eq above (with_config f c)) as [Ec _]. split_and!.
    - apply update_coherent, wf_with_config; [done|unfold c; rewrite length_cfg_put; apply Hw|done].
    - unfold pci_is_bridge. rewrite Ec. done.
    - intros Hbr a Hin. rewrite Ec. apply Hout; [lia|]. specialize (H3 Hbr). lia. }
  destruct (high_half _); [destruct (_ =? 0)|destruct (_ =? 0); [|destruct (_ =? PCI_ROM_SLOT)]];
    intros E; try discriminate E; eapply Hput; injection E as E; exact E.
Qed.

Lemma same_above_refl above : same_above above above.
Proof. induction above; constructor; [|done]. intros a' _. done. Qed.

(** The command register's low byte is the one decoding reads. *)
Lemma command_covered above f c addr sz f2 : coherent above f -> length c = 4096%nat -> is_bridge c = is_bridge (config f) ->
  0 <= addr -> (forall a, 0 <= a -> protected f a \/ a < addr \/ addr + sz <= a -> cfg8 c a = cfg8 (config f) a) ->
  config f2 = c /\ io_regions f2 = io_regions f ->
  let f3 := if covers PCI_COMMAND addr sz then pci_update_mappings above f2 else f2 in
  coherent above f3 /\ config f3 = c.
Proof.
  intros Hc Hl Eb Ha Hs [E2 E2'] f3.
  assert (Hw1 : func_wf (with_config f c)) by (apply wf_with_config; [apply Hc|done|done]).
  destruct (covers PCI_COMMAND addr sz) eqn:E; unfold f3.
  - split; [|destruct (update_frame_eq above f2) as [-> _]; done]. apply update_coherent.
    destruct Hw1. constructor; [by rewrite E2|by rewrite E2'| | | |].
    + intros i. unfold region. rewrite E2'. apply wf_told0.
    + intros i. unfold region. rewrite E2, E2'. apply wf_bars0.
    + intros i. unfold region, pci_bar_count, pci_is_bridge. rewrite E2, E2'. apply wf_is65.
    + intros i. unfold region. rewrite E2'. apply wf_size0.
  - split; [|done]. apply (coherent_frame above (with_config f c)); [done|done|]. apply coherent_same_bars; [done|done|].
    destruct (bars_protected f) as (P1 & P2 & P3). unfold covers, PCI_COMMAND in E.
    repeat split; simpl config; intros; apply Hs; try done; try lia; try (left; by auto).
    left. apply header_protected.
Qed.

Lemma intx_covered above f3 c b (f0 : PCIFunc) : coherent above f3 /\ config f3 = c -> is_bridge c = is_bridge (config f0) ->
  let f4 := if b : bool then update_intx_status f3 else f3 in
  coherent above f4 /\ pci_is_bridge f4 = pci_is_bridge f0 /\ same_bytes 0x1c 0x34 c (config f4).
Proof.
  intros [H3 E3] Eb f4. unfold f4. destruct b; [|by split_and!; [done|unfold pci_is_bridge; rewrite E3|intros a _; by rewrite E3]].
  assert (Hs : forall a, 8 <= a -> cfg8 (config (update_intx_status f3)) a = cfg8 c a).
  { intros a Hin. rewrite <- E3. unfold update_intx_status. destruct (negb _); [|done].
    simpl config. unfold cfg8, PCI_STATUS. apply arr_get_set_ne; lia. }
  split_and!; [by apply intx_status_coherent| |intros a Hin; apply Hs; lia].
  unfold pci_is_bridge. rewrite <- Eb. unfold is_bridge, PCI_HEADER_TYPE. by rewrite Hs by lia.
Qed.

(** A configuration write keeps a function and all below it decoded as the
    registers say. *)
Lemma config_write_ok above t addr data n : tree_ok above t -> 0 <= addr ->
  tree_ok above (pci_device_config_write above t addr data n).
Proof.
  intros Ht Ha. destruct t as [f s below]. pose proof Ht as (Hc & Hb & Hbelow). rewrite below_ok in Hbelow.
  cbn [pci_device_config_write]. cbv zeta. set (sz := Z.shiftl 1 (Z.of_nat n)).
  assert (0 < sz) by (unfold sz; rewrite Z.shiftl_1_l; lia).
  destruct (if _ && _ then _ else _) as [f'|] eqn:Ebar.
  - assert (pci_write_bar above f addr data = Some f') as Hw by (by destruct (_ && _)).
    destruct (write_bar_ok above f addr data f' (proj1 Hc) Ha Hw) as (H1 & H2 & H3).
    cbn [tree_ok]. split_and!; [done|rewrite H2; done|]. rewrite below_ok.
    destruct below as [|t0 l]; [done|]. specialize (Hb ltac:(done)).
    eapply Forall_impl; [exact Hbelow|]. intros t Ht'. eapply tree_same; [|exact Ht'].
    constructor; [by apply H3|]. by apply same_above_refl.
  - clear Ebar. destruct (write_bytes_frame f addr data (Z.to_nat sz)) as (c & -> & Hl & Eb & Hs); [apply Hc|done|].
    rewrite Z2Nat.id in Hs by lia. set (f1 := with_config f c).
    set (f2 := if _ && _ then FunctionMaskLifted f1 else f1).
    assert (E2 : config f2 = c /\ io_regions f2 = io_regions f).
    { unfold f2. destruct (_ && _); [|done]. destruct (lifted_frame f1) as [-> ->]. done. }
    set (f3 := if covers PCI_COMMAND addr sz then pci_update_mappings above f2 else f2).
    set (f4 := if covers (PCI_COMMAND + 1) addr sz then update_intx_status f3 else f3).
    assert (H4 : coherent above f4 /\ pci_is_bridge f4 = pci_is_bridge f /\ same_bytes 0x1c 0x34 c (config f4)).
    { apply intx_covered; [|done]. by apply (command_covered above f c addr sz f2). }
    destruct H4 as (H4 & Eb4 & Hs4). cbn [tree_ok]. split_and!; [done| |].
    { intros Hne. rewrite Eb4. apply Hb. intros ->. by destruct (pci_is_bridge f4 && _ && _). }
    rewrite below_ok. destruct below as [|t0 l]; [by destruct (pci_is_bridge f4 && _ && _)|]. specialize (Hb ltac:(done)).
    rewrite Eb4, Hb. rewrite andb_true_l. destruct ((addr <? _) && _) eqn:Ew.
    + unfold pci_update_mappings_below. rewrite Forall_map. eapply Forall_impl; [exact Hbelow|].
      intros t Ht'. simpl. by eapply update_tree_ok, tree_ok_wf.
    + eapply Forall_impl; [exact Hbelow|]. intros t Ht'. eapply tree_same; [|exact Ht'].
      constructor; [|by apply same_above_refl]. intros a Hin. rewrite Hs4 by done. apply Hs; [lia|right].
      unfold PCI_IO_LIMIT_UPPER16, PCI_IO_BASE in Ew.
      destruct (Z.ltb_spec addr (0x32 + 2)), (Z.ltb_spec 0x1c (addr + sz)); try done; lia.
Qed.

(** * The bus *)

Lemma at_path_ok op : (forall above t, tree_ok above t -> tree_ok above (op above t)) ->
  forall path above devs, Forall (tree_ok above) devs -> Forall (tree_ok above) (at_path above devs path op).
Proof.
  intros Hop. induction path as [|i path IH]; intros above devs Hd; [done|].
  destruct path as [|j path].
  - simpl. apply Forall_alter; [done|]. intros t _ Ht. by apply Hop.
  - cbn [at_path]. destruct (devs !! i) as [[f s below]|] eqn:E; [|done].
    pose proof (Forall_lookup_1 _ _ _ _ Hd E) as (Hc & Hb & Hbelow). apply Forall_insert; [done|].
    cbn [tree_ok]. split_and!; [done| |].
    + intros Hne. apply Hb. intros ->. apply Hne. by destruct path.
    + rewrite below_ok in *. by apply IH.
Qed.

(** What the guest and the devices do to the bus: a configuration write, the
    level of a function's interrupt pin, a message, a write to a vector table. *)
Inductive pci_op :=
| PWrite (addr data : Z) (size_log2 : nat)
| PIrq (path : list nat) (irq_num : Z) (level : bool)
| PMsix (path : list nat) (vector : Z)
| PTable (path : list nat) (offset val : Z) (size_log2 : nat).

Definition on_func (g : PCIFunc -> PCIFunc) (_ : list (list Z)) (t : pci_tree) : pci_tree :=
  match t with Node f s below => Node (g f) s below end.
(** The function's part of [PCIDevice::SetIRQ] *)
Definition set_irq_request (irq_num : Z) (level : bool) (d : PCIFunc) : PCIFunc :=
  update_intx_status (d <| irq_request := u8 (set_bit 32 (irq_request d) irq_num level) |>).

Definition pci_step (b : PCIRoot) (o : pci_op) : PCIRoot :=
  let at_ path g := mkRoot (bus_num b) (at_path [] (devices b) path (on_func g)) in
  match o with
  | PWrite addr data n => pci_data_write b addr data n
  | PIrq path irq_num level => at_ path (set_irq_request irq_num level)
  | PMsix path vector => at_ path (fun d => msix_Send d vector)
  | PTable path offset val n => at_ path (fun d => TableWrite d offset val n)
  end.

Definition bus_ok (b : PCIRoot) : Prop := Forall (tree_ok []) (devices b).

(** An operation of a device that leaves alone what decoding reads. *)
Lemma on_func_ok g : (forall above f, coherent above f -> coherent above (g f) /\ pci_is_bridge (g f) = pci_is_bridge f /\
    same_bytes 0x1c 0x34 (config f) (config (g f))) ->
  forall above t, tree_ok above t -> tree_ok above (on_func g above t).
Proof.
  intros Hg above [f s below] (Hc & Hb & Hbelow). destruct (Hg above f Hc) as (H1 & H2 & H3).
  cbn [on_func tree_ok]. split_and!; [done|by rewrite H2|]. rewrite below_ok in *.
  eapply Forall_impl; [exact Hbelow|]. intros t Ht. eapply tree_same; [|exact Ht].
  constructor; [done|]. apply same_above_refl.
Qed.

Lemma frame_ok above f f' : config f' = config f -> io_regions f' = io_regions f -> coherent above f ->
  coherent above f' /\ pci_is_bridge f' = pci_is_bridge f /\ same_bytes 0x1c 0x34 (config f) (config f').
Proof.
  intros Ec Er Hf. split_and!; [by apply (coherent_frame above f)|unfold pci_is_bridge; by rewrite Ec|].
  intros a _. by rewrite Ec.
Qed.

Lemma pci_step_ok b o : bus_ok b -> bus_ok (pci_step b o).
Proof.
  intros Hb. destruct o as [addr data n|path irq l|path v|path off v n]; unfold bus_ok; cbn [pci_step devices].
  - unfold pci_data_write. destruct (pci_find_device _ _ _) as [path|]; [|done]. cbn [devices].
    apply at_path_ok; [|done]. intros above t Ht. apply config_write_ok; [done|]. apply Z.land_nonneg. by right.
  - apply at_path_ok; [|done]. apply on_func_ok. intros above f Hf. unfold set_irq_request.
    set (f1 := f <| irq_request := _ |>). apply (intx_covered above f1 (config f) true f); [|done].
    split; [by apply (coherent_frame above f)|done].
  - apply at_path_ok; [|done]. apply on_func_ok. intros above f Hf. destruct (msix_frame f v). by apply frame_ok.
  - apply at_path_ok; [|done]. apply on_func_ok. intros above f Hf.
    assert (config (TableWrite f off v n) = config f /\ io_regions (TableWrite f off v n) = io_regions f) as [? ?];
      [|by apply frame_ok].
    unfold TableWrite. destruct (TableSlot _ _) as [[i w]|]; [|done]. cbv zeta. destruct (_ && _); [|done].
    destruct (msix_frame (f <| msix := (msix f) <| fTable := arr_set (fTable (msix f)) i
      (set_entry_word (msix_entry (msix f) i) w (set_bits 32 (entry_word (msix_entry (msix f) i) w) (off mod 4 * 8)
        (Z.shiftl 8 (Z.of_nat n)) v)) |> |>) i) as [-> ->]. done.
Qed.
