(* ===== verification/PciBus.v ===== *)
(** PCI functions as the devices build them, and the theorem on what a bus of
    them decodes after any sequence of accesses (Pci.v, PciOk.v). *)

From stdpp Require Import base numbers list.
From S2P Require Import Prelude Bits Cutils Pci PciOk.
Local Open Scope Z_scope.

#[local] Arguments cfg_put : simpl never.

(** * Functions as the devices build them *)

(** Nothing decoded yet, and decoding off. *)
Record fresh (f : PCIFunc) : Prop := {
  fresh_wf : func_wf f;
  fresh_told : forall i, told (region f i) = None;
  fresh_cmd : cfg8 (config f) 0x04 = 0;
  fresh_cap : 0x40 <= next_cap_offset f;
  fresh_half : forall i, high_half (region f i) = true -> size (region f i) = 0;
}.

Lemma fresh_coherent above f : fresh f -> coherent above f.
Proof.
  intros []. split; [done|]. intros i _ _ _. rewrite fresh_told0.
  assert (bar_enabled f above i (region f i) = false) as ->; [|done].
  unfold bar_enabled. cbv zeta. change PCI_COMMAND_IO with (bit_at 32 0). change PCI_COMMAND_MEMORY with (bit_at 32 1).
  rewrite !cmd_low, fresh_cmd0, !Z.bits_0 by lia. by destruct (nz _).
Qed.

(** Changes that leave the regions, the command and the header type alone. *)
Lemma fresh_frame f g : fresh f -> io_regions g = io_regions f -> length (config g) = 4096%nat -> 0x40 <= next_cap_offset g ->
  (forall a, 0x04 <= a < 0x06 \/ 0x0e <= a < 0x10 -> cfg8 (config g) a = cfg8 (config f) a) -> fresh g.
Proof.
  intros [] Er Hc Hn Hs.
  assert (Eb : is_bridge (config g) = is_bridge (config f)) by (unfold is_bridge, PCI_HEADER_TYPE; by rewrite Hs by lia).
  assert (E : forall i, region g i = region f i) by (intros; unfold region; by rewrite Er).
  constructor; try done; try (intros i; by rewrite E); [|by rewrite Hs by lia|intros i; rewrite E; apply fresh_half0].
  apply (reshaped_wf f); [done| |done|done]. destruct fresh_wf0. split_and!; [by rewrite Er|intros i; by rewrite E..].
Qed.

(** What [pci_register_bar] asserts, and that the header has the register. *)
Record bar_ok (f : PCIFunc) (n sz ty : Z) : Prop := {
  bar_num_ok : 0 <= n < 7 /\ has_bar (config f) n;
  bar_size_ok : exists k, 2 <= k < 64 /\ sz = 2 ^ k;
  bar_free : size (region f n) = 0 /\ high_half (region f n) = false;
  bar_64 : nz (Z.land ty PCI_ADDRESS_SPACE_MEM_TYPE_64) && negb (nz (Z.land ty PCI_ADDRESS_SPACE_IO)) = true ->
    n + 1 < pci_bar_count f /\ size (region f (n + 1)) = 0 /\ high_half (region f (n + 1)) = false;
}.

(** A region taken into use. *)
Lemma fresh_region f i r : fresh f -> 0 <= i < 7 -> told r = None -> enabled r = false ->
  (size r <> 0 -> has_bar (config f) i /\ (is64 r = true -> i + 1 < pci_bar_count f) /\ exists k, 2 <= k < 64 /\ size r = 2 ^ k) ->
  (high_half r = true -> size r = 0) -> fresh (set_region f i r).
Proof.
  intros [] Hi Ht He Hsz Hh. pose proof (wf_regions f fresh_wf0) as Hl.
  pose proof (fun j => region_set_all f i j r Hl Hi) as E.
  constructor; try done.
  - destruct fresh_wf0 as [w1 w2 w3 w4 w5 w6]. constructor; try done.
    + unfold set_region. simpl. by rewrite length_arr_set.
    + intros j. rewrite E. destruct (_ || _); [by rewrite He, Ht|done].
    + intros j Hj. rewrite E. destruct (Z.eqb_spec j i) as [->|]; simpl; [intros H; by apply Hsz|].
      destruct (Z.ltb_spec j 0); [lia|]. by apply w4.
    + intros j. rewrite E. change (pci_bar_count (set_region f i r)) with (pci_bar_count f).
      destruct (Z.eqb_spec j i) as [->|]; simpl; [intros H64 H; by apply Hsz|].
      destruct (Z.ltb_spec j 0); simpl; [|by apply w5]. intros _ _. unfold pci_bar_count. destruct (pci_is_bridge f); lia.
    + intros j. rewrite E. destruct (_ || _); [intros H; by apply Hsz|apply w6].
  - intros j. rewrite E. by destruct (_ || _).
  - intros j. rewrite E. destruct (_ || _); [done|apply fresh_half0].
Qed.

Lemma pci_register_bar_fresh f n sz ty : fresh f -> bar_ok f n sz ty -> fresh (pci_register_bar f n sz ty).
Proof.
  intros Hf [[Hn Hb] Hsz [Hfree Hhalf] H64]. unfold pci_register_bar. cbv zeta. rewrite Hhalf, (fresh_told f Hf n).
  set (b64 := nz _ && negb _) in *. set (r := mkRegion sz (u8 ty) false b64 false None).
  assert (H1 : fresh (set_region f n r)).
  { apply fresh_region; try done. intros _. split_and!; [done|by apply H64|done]. }
  assert (Hput : forall g a v, fresh g -> 0x10 <= a -> fresh (g <| config := cfg_put (config g) a (put_le32 v) |>)).
  { intros g a v Hg Ha. set (c := cfg_put (config g) a (put_le32 v)).
    assert (length c = 4096%nat) by (unfold c; rewrite length_cfg_put; apply Hg).
    apply (fresh_frame g); [done|done|done|apply Hg|]. intros x Hx. apply cfg8_put_out; lia. }
  assert (Ho : forall g j, 0 <= j -> 0x10 <= pci_bar_offset g j).
  { intros g j Hj. unfold pci_bar_offset, PCI_BASE_ADDRESS_0, PCI_ROM_ADDRESS1, PCI_ROM_ADDRESS.
    destruct (_ =? _); [destruct (pci_is_bridge g)|]; lia. }
  apply Hput; [|apply Ho; lia]. destruct b64 eqn:E64; [|done]. destruct (H64 eq_refl) as (Hc & Hz & Hh).
  assert (n + 1 < 6) by (unfold pci_bar_count in Hc; destruct (pci_is_bridge f); lia).
  set (g := set_region f n r) in *.
  assert (Er : region g (n + 1) = region f (n + 1)).
  { unfold g. rewrite region_set by (try apply Hf; lia). destruct (Z.eqb_spec (n + 1) n); [lia|done]. }
  pose proof (Hput (set_region g (n + 1) ((region g (n + 1)) <| high_half := true |>))) as Hp.
  apply Hp; [|apply Ho; lia]. apply fresh_region; [done|lia|..]; simpl; rewrite Er; try done.
  - apply Hf.
  - destruct Hf. pose proof (wf_told f fresh_wf0 (n + 1)) as E. rewrite fresh_told0 in E. done.
Qed.

(** The capabilities start past the header. *)
Lemma pci_add_capability_fresh f buf f' off : fresh f -> pci_add_capability f buf = Some (f', off) -> fresh f'.
Proof.
  intros Hf. unfold pci_add_capability. cbv zeta. destruct (Z.ltb_spec PCI_CONFIG_SIZE (next_cap_offset f + Z.of_nat (length buf))) as [|Hle];
    [done|]. intros [= <- <-]. pose proof (fresh_cap f Hf) as Hcap. unfold PCI_CONFIG_SIZE in Hle.
  apply (fresh_frame f); [done|done| | |].
  - simpl config. rewrite !length_arr_set, length_cfg_put, length_arr_set. apply Hf.
  - simpl. unfold u16. rewrite uw_small; unfold inw; lia.
  - intros a Ha. simpl config. unfold cfg8, PCI_CAPABILITY_LIST, PCI_STATUS.
    rewrite !arr_get_set_ne by lia. change (cfg8 (cfg_put (arr_set (config f) 6 (Z.lor (cfg8 (config f) 6) PCI_STATUS_CAP_LIST))
      (next_cap_offset f) buf) a = cfg8 (config f) a). rewrite cfg8_put_out by lia. unfold cfg8. apply arr_get_set_ne; lia.
Qed.

Lemma pci_wmask_fresh f a m n : fresh f -> fresh (pci_device_set_wmask f a m n).
Proof.
  intros Hf. apply (fresh_frame f); [done|done|apply Hf|apply Hf|done].
Qed.

Lemma msix_Init_fresh f has bar cnt tab pba : fresh f -> fresh (msix_Init f has bar cnt tab pba).1.
Proof.
  intros Hf. unfold msix_Init. destruct (negb has); [done|].
  destruct (pci_add_capability f _) as [[g off]|] eqn:E; [|done]. apply pci_add_capability_fresh in E; [|done].
  cbn [fst]. set (g' := pci_device_set_wmask _ _ _ _). assert (fresh g') as Hg by (by apply pci_wmask_fresh).
  apply (fresh_frame g'); [done|done|apply Hg|apply Hg|done].
Qed.

Lemma pci_add_ext_fresh f id v body f' off : fresh f -> next_ext_cap_offset f = PCI_EXT_CAP_START ->
  pci_add_ext_capability f id v body = Some (f', off) -> fresh f'.
Proof.
  intros Hf Hn. unfold pci_add_ext_capability. cbv zeta. rewrite Hn. destruct (_ <? _); [done|].
  change (PCI_EXT_CAP_START <? PCI_EXT_CAP_START) with false. intros [= <- <-].
  apply (fresh_frame f); [done|done|simpl config; rewrite !length_cfg_put; apply Hf|apply Hf|].
  intros a Ha. simpl config. unfold PCI_EXT_CAP_START. rewrite !cfg8_put_out by lia. done.
Qed.

Lemma pci_add_pcie_fresh f t serial : fresh f -> next_ext_cap_offset f = PCI_EXT_CAP_START ->
  fresh (pci_add_pcie_capability f t serial).
Proof.
  intros Hf Hn. unfold pci_add_pcie_capability. destruct (pci_add_capability f _) as [[g off]|] eqn:E; [|done].
  assert (Hg : fresh g /\ next_ext_cap_offset g = PCI_EXT_CAP_START).
  { split; [by eapply pci_add_capability_fresh|]. rewrite <- Hn. revert E. unfold pci_add_capability. cbv zeta.
    destruct (_ <? _); [done|]. by intros [= <- _]. }
  clear Hf Hn E. destruct Hg as [Hg Hn]. cbv zeta.
  assert (Hm : forall h a m n, fresh h /\ next_ext_cap_offset h = PCI_EXT_CAP_START ->
    fresh (pci_device_set_wmask h a m n) /\ next_ext_cap_offset (pci_device_set_wmask h a m n) = PCI_EXT_CAP_START)
    by (intros h a m n [? ?]; split; [by apply pci_wmask_fresh|done]).
  set (h := pci_device_set_wmask _ (off + 0x28) _ _).
  assert (Hh : fresh h /\ next_ext_cap_offset h = PCI_EXT_CAP_START).
  { apply Hm. destruct (_ || _), (_ =? PCI_EXP_TYPE_ROOT_PORT); repeat apply Hm;
      (split; [apply (fresh_frame g); [done|done|apply Hg|apply Hg|done]|done]). }
  clearbody h. destruct Hh as [Hh En]. destruct (pci_add_ext_capability h _ _ _) as [[h' o]|] eqn:E; [|done].
  by eapply pci_add_ext_fresh.
Qed.

Lemma length_config0 : length (replicate (Z.to_nat PCI_EXT_CONFIG_SIZE) 0) = 4096%nat.
Proof. rewrite length_replicate. unfold PCI_EXT_CONFIG_SIZE. lia. Qed.

Lemma register_fresh fn ven dev rev cls hdr pcie serial cap : 0x40 <= cap ->
  fresh (pci_register_device_type fn ven dev rev cls hdr pcie serial cap).
Proof.
  intros Hcap. unfold pci_register_device_type. cbv zeta. set (c0 := replicate _ 0). pose proof length_config0 as Hl. fold c0 in Hl.
  assert (H0 : forall a, cfg8 c0 a = 0).
  { intros a. unfold cfg8, arr_get, c0. rewrite nth_lookup. destruct (_ !! _) eqn:E; [|done].
    by apply lookup_replicate in E as [-> _]. }
  clearbody c0. set (c := arr_set _ PCI_HEADER_TYPE hdr). set (f := mkFunc _ _ _ _ _ _ _ _ _ _).
  assert (Hf : fresh f).
  { assert (E : forall i, region f i = region0).
    { intros i. unfold region, arr_get, f. rewrite nth_lookup. cbn [io_regions]. destruct (_ !! _) eqn:E; [|done].
      by apply lookup_replicate in E as [-> _]. }
    constructor; try (intros i; by rewrite E); [| |done].
    - constructor; try (intros i; by rewrite E); [|done].
      change (config f) with c. unfold c. by rewrite length_arr_set, length_cfg_put, length_arr_set, !length_cfg_put.
    - change (cfg8 c 4 = 0). unfold c, PCI_HEADER_TYPE, PCI_CLASS_DEVICE, PCI_DEVICE_ID, PCI_VENDOR_ID.
      unfold cfg8 at 1. rewrite arr_get_set_ne by lia. rewrite cfg8_put_out by (simpl length; lia).
      unfold cfg8. rewrite arr_get_set_ne by lia. rewrite !cfg8_put_out by (simpl length; lia). apply H0. }
  destruct pcie; [|done]. by apply pci_add_pcie_fresh.
Qed.

Lemma bridge_fresh fn ven dev pcie serial : fresh (pci_bridge_func fn ven dev pcie serial) /\
  is_bridge (config (pci_bridge_func fn ven dev pcie serial)) = is_bridge (config (pci_register_device_type fn ven dev 0
    PCI_CLASS_BRIDGE_PCI PCI_HEADER_TYPE_BRIDGE pcie serial 0x40)).
Proof.
  unfold pci_bridge_func. cbv zeta. set (d := pci_register_device_type _ _ _ _ _ _ _ _ _).
  assert (Hd : fresh d) by (by apply register_fresh). clearbody d. set (c := arr_set _ PCI_IO_LIMIT _).
  assert (Hs : forall a, 0 <= a < 0x1c -> cfg8 c a = cfg8 (config d) a).
  { intros a Ha. unfold c, PCI_IO_LIMIT, PCI_IO_BASE, PCI_MEMORY_LIMIT, PCI_MEMORY_BASE, PCI_PREF_MEMORY_LIMIT, PCI_PREF_MEMORY_BASE.
    unfold cfg8 at 1. rewrite !arr_get_set_ne by lia. by rewrite !cfg8_put_out by (simpl length; lia). }
  split.
  - apply (fresh_frame d); [done|done| |apply Hd|intros; apply Hs; lia].
    change (length c = 4096%nat). unfold c. rewrite !length_arr_set, !length_cfg_put. apply Hd.
  - change (is_bridge c = is_bridge (config d)). unfold is_bridge. rewrite Hs; [done|]. unfold PCI_HEADER_TYPE. lia.
Qed.

(** A function: registered, as a device or as a bridge, with its regions and
    its MSI-X capability. *)
Inductive built : PCIFunc -> Prop :=
| built_device fn ven dev rev cls hdr pcie serial cap : 0x40 <= cap ->
    built (pci_register_device_type fn ven dev rev cls hdr pcie serial cap)
| built_bridge fn ven dev pcie serial : built (pci_bridge_func fn ven dev pcie serial)
| built_bar f n sz ty : built f -> bar_ok f n sz ty -> built (pci_register_bar f n sz ty)
| built_msix f has bar cnt tab pba : built f -> built (msix_Init f has bar cnt tab pba).1.

Lemma built_fresh f : built f -> fresh f.
Proof.
  induction 1; [by apply register_fresh|apply bridge_fresh|by apply pci_register_bar_fresh|by apply msix_Init_fresh].
Qed.

(** Only bridges have functions below them. *)
Inductive built_tree : pci_tree -> Prop :=
| built_node f s below : built f -> (below <> [] -> pci_is_bridge f = true) -> Forall built_tree below ->
    built_tree (Node f s below).

Lemma built_tree_ok t : forall above, built_tree t -> tree_ok above t.
Proof.
  induction t as [f s below IH] using pci_tree_ind'. intros above Ht. inversion Ht as [f' s' b' Hf Hb Hl]. subst.
  cbn [tree_ok]. split_and!; [by apply fresh_coherent, built_fresh|done|]. rewrite below_ok.
  rewrite Forall_forall in *. intros t Hin. apply IH; [done|]. by apply Hl.
Qed.

Lemma pci_reachable num devs ops : Forall built_tree devs -> bus_ok (foldl pci_step (mkRoot num devs) ops).
Proof.
  intros Hd. assert (bus_ok (mkRoot num devs)) as H0.
  { unfold bus_ok. simpl. eapply Forall_impl; [exact Hd|]. intros t. apply built_tree_ok. }
  revert H0. generalize (mkRoot num devs). clear Hd. induction ops as [|o ops IH]; intros b Hb; [done|]. by apply IH, pci_step_ok.
Qed.

(** * Where a region must be *)

(** The bridges above the function at a path, nearest first. *)
Fixpoint above_path (above : list (list Z)) (devs : list pci_tree) (path : list nat) : list (list Z) :=
  match path with
  | [] | [_] => above
  | i :: path =>
    match devs !! i with Some t => above_path (config (node_func t) :: above) (node_below t) path | None => above end
  end.

Lemma lookup_path_ok path : forall above devs t, Forall (tree_ok above) devs -> lookup_path devs path = Some t ->
  tree_ok (above_path above devs path) t.
Proof.
  induction path as [|i path IH]; intros above devs t Hd Ht; [done|]. destruct path as [|j path].
  - simpl in *. by eapply Forall_lookup_1.
  - cbn [lookup_path above_path] in *. destruct (devs !! i) as [[f s below]|] eqn:E; [|done].
    pose proof (Forall_lookup_1 _ _ _ _ Hd E) as (_ & _ & Hb). rewrite below_ok in Hb. by apply IH.
Qed.

(** A bridge carries the addresses from [first] to [last]. *)
Definition carries (c : list Z) (is_io : bool) (first last : Z) : Prop :=
  let inside w := base w <= first /\ last <= limit w in
  if is_io then inside (pci_bridge_io_window c)
  else inside (pci_bridge_mem_window c) \/ inside (pci_bridge_pref_window c).

(** The guest's command register, base address register and bridge windows put
    region [i] at address [a]. *)
Definition placed (above : list (list Z)) (f : PCIFunc) (i a : Z) : Prop :=
  let r := region f i in
  let v := bar_value f i r mod 2 ^ 64 in
  let io := Z.testbit (type r) 0 in
  let command := cfg8 (config f) 0x04 in
  a = v / size r * size r /\
  (if io then Z.testbit command 0 = true
   else Z.testbit command 1 = true /\ (i = PCI_ROM_SLOT -> Z.testbit v 0 = true)) /\
  Forall (fun c => carries c io a (a + size r - 1)) above.

Lemma size_mask_land v k : 0 <= k < 64 -> Z.land v (size_mask (2 ^ k)) = v mod 2 ^ 64 / 2 ^ k * 2 ^ k.
Proof.
  intros Hk. unfold size_mask. replace (2 ^ k - 1) with (Z.ones k) by (rewrite Z.ones_equiv; lia).
  change (2 ^ 64 - 1) with (Z.ones 64). bits_at i Hi.
  rewrite <- Z.shiftl_mul_pow2, <- Z.shiftr_div_pow2, Z.land_spec, Z.ldiff_spec by lia.
  rewrite !Z.testbit_ones_nonneg by lia. destruct (Z.ltb_spec i k) as [|Hik].
  - rewrite Z.shiftl_spec_low by lia. by rewrite !andb_false_r.
  - rewrite Z.shiftl_spec, Z.shiftr_spec by lia. rewrite Z.sub_add.
    destruct (Z.ltb_spec i 64); simpl; rewrite ?andb_true_r, ?andb_false_r.
    + by rewrite Z.mod_pow2_bits_low by lia.
    + by rewrite Z.mod_pow2_bits_high by lia.
Qed.

Lemma carries_window c io a sz : 0 < sz -> 0 <= a -> a + sz <= 2 ^ 64 ->
  window_forwards c a sz io = true <-> carries c io a (a + sz - 1).
Proof.
  intros Hs Ha Hb. assert (H : forall w, pci_window_contains w a sz = true <-> base w <= a /\ a + sz - 1 <= limit w).
  { intros w. unfold pci_window_contains, u64. rewrite uw_small by (unfold inw; lia).
    rewrite !andb_true_iff, !Z.leb_le. lia. }
  unfold window_forwards, carries. destruct io; [by rewrite H|]. by rewrite orb_true_iff, !H.
Qed.

Lemma aligned_range v k : 0 <= k < 64 -> let a := v mod 2 ^ 64 / 2 ^ k * 2 ^ k in 0 <= a /\ a + 2 ^ k <= 2 ^ 64.
Proof.
  intros Hk a. assert (0 < 2 ^ k) by lia. pose proof (Z.mod_pos_bound v (2 ^ 64) ltac:(lia)) as Hv.
  set (w := v mod 2 ^ 64) in *. assert (E : 2 ^ 64 = 2 ^ (64 - k) * 2 ^ k) by (rewrite <- Z.pow_add_r by lia; f_equal; lia).
  assert (0 <= w / 2 ^ k < 2 ^ (64 - k)) by (split; [apply Z.div_pos; lia|apply Z.div_lt_upper_bound; lia]).
  unfold a. nia.
Qed.

Lemma placed_iff above f i : func_wf f -> 0 <= i < 7 -> size (region f i) <> 0 -> high_half (region f i) = false ->
  decoded above f i -> forall a, told (region f i) = Some a <-> placed above f i a.
Proof.
  intros Hw Hi Hsz Hh Hd a. destruct (wf_size f Hw i Hsz) as (k & Hk & Ek). rewrite (Hd Hsz Hh).
  set (r := region f i) in *. set (v := bar_value f i r). rewrite Ek, size_mask_land by lia.
  pose proof (aligned_range v k ltac:(lia)) as [Ha Hb]. set (x := v mod 2 ^ 64 / 2 ^ k * 2 ^ k) in *.
  assert (Hf : pci_bridges_forward above x (2 ^ k) (Z.testbit (type r) 0) = true <->
    Forall (fun c => carries c (Z.testbit (type r) 0) x (x + 2 ^ k - 1)) above).
  { unfold pci_bridges_forward. rewrite forallb_forall, Forall_forall.
    split; intros H c Hc; apply (carries_window c _ x (2 ^ k)); try lia; apply H; by apply list_elem_of_In. }
  assert (He : bar_enabled f above i r = true <-> placed above f i x).
  { unfold bar_enabled. cbv zeta. fold v. rewrite Ek, size_mask_land by lia. fold x.
    change PCI_ADDRESS_SPACE_IO with (bit_at 8 0). rewrite nz_bit_at by lia.
    change PCI_COMMAND_IO with (bit_at 32 0). change PCI_COMMAND_MEMORY with (bit_at 32 1). rewrite !cmd_low by lia.
    rewrite andb_true_iff, Hf. unfold placed. fold r v. rewrite Ek. fold x.
    assert (Z.testbit (v mod 2 ^ 64) 0 = get_bit 64 v 0) as ->.
    { rewrite get_bit_testbit by lia. by apply Z.mod_pow2_bits_low. }
    destruct (Z.testbit (type r) 0); [naive_solver|].
    destruct (Z.testbit (cfg8 (config f) 4) 1), (get_bit 64 v 0), (Z.eqb_spec i PCI_ROM_SLOT); simpl; naive_solver. }
  split.
  - destruct (bar_enabled f above i r); [|done]. intros [= <-]. by apply He.
  - intros Hp. assert (a = x) as -> by (destruct Hp as [-> _]; fold r v; by rewrite Ek). apply He in Hp. by rewrite Hp.
Qed.

(** C35: However the guest programs the functions of a PCI bus, its bridges and
    the functions behind them, and whatever interrupts the devices raise, every
    memory, port or ROM region is answered exactly where the guest put it: at the
    address in its base address register, aligned to its size, while its decode
    (and the ROM's own) enable is on and every bridge above has a window that
    carries the whole region, and nowhere otherwise. *)
Theorem pci_regions_placed num devs ops path t i a : Forall built_tree devs ->
  let b := foldl pci_step (mkRoot num devs) ops in
  lookup_path (devices b) path = Some t -> 0 <= i < 7 ->
  size (region (node_func t) i) <> 0 -> high_half (region (node_func t) i) = false ->
  told (region (node_func t) i) = Some a <-> placed (above_path [] (devices b) path) (node_func t) i a.
Proof.
  intros Hd b Ht Hi Hsz Hh. pose proof (lookup_path_ok path [] (devices b) t (pci_reachable num devs ops Hd) Ht) as Hok.
  destruct t as [f s below]. destruct Hok as ([Hw Hc] & _). by apply placed_iff, Hc.
Qed.

(** A device with a 16 KB memory region behind a bridge. *)
Definition card : PCIFunc := pci_register_bar (pci_register_device_type 8 0x1234 0x5678 1 0x0200 0 None 0 0x40) 0 0x4000 0.
Definition card_bus : list pci_tree := [Node (pci_bridge_func 16 0x1b36 1 None 0) true [Node card false []]].
(** Bus 1 behind the bridge, its memory window from 0xc0000000 to 0xc00fffff, the
    region at 0xc0008000, then the decode enable. *)
Definition card_ops : list pci_op :=
  [PWrite 0x10018 0x010100 2; PWrite 0x10020 0xc000c000 2; PWrite 0x108010 0xc000bfff 2; PWrite 0x108004 0x0002 1].
Lemma card_bus_built : Forall built_tree card_bus.
Proof.
  constructor; [|done]. constructor; [apply built_bridge|intros _; vm_compute; done|].
  constructor; [|done]. constructor; [|done|done]. apply built_bar; [by apply built_device|].
  constructor; [split; [lia|]|exists 14; split; [lia|done]|by vm_compute|done].
  intros E. exfalso. revert E. vm_compute. done.
Qed.

Lemma pci_regions_placed_witness :
  let b := foldl pci_step (mkRoot 0 card_bus) card_ops in
  exists t, lookup_path (devices b) [0; 0]%nat = Some t /\ told (region (node_func t) 0) = Some 0xc0008000 /\
    placed (above_path [] (devices b) [0; 0]%nat) (node_func t) 0 0xc0008000.
Proof.
  intros b. destruct (lookup_path (devices b) [0; 0]%nat) as [t|] eqn:E; [|vm_compute in E; discriminate E].
  exists t. split; [done|].
  assert (told (region (node_func t) 0) = Some 0xc0008000 /\ size (region (node_func t) 0) = 0x4000 /\
    high_half (region (node_func t) 0) = false) as (H1 & H2 & H3) by (vm_compute in E; injection E as <-; by vm_compute).
  split; [done|]. apply (pci_regions_placed 0 card_bus card_ops [0; 0]%nat t 0 0xc0008000 card_bus_built E); [lia|by rewrite H2|done|done].
Defined.
