(* ===== verification/PciIntx.v ===== *)
(** The INTx pins of a PCI hierarchy: [irq_state], [pci_bus_set_pin],
    [pci_update_intx] and [PCIDevice::SetIRQ] of [src/bus/pci/pci.cpp], with the
    lines of a secondary bus landing on its bridge's pins. *)

From stdpp Require Import base numbers list.
From S2P Require Import Prelude Bits Cutils Pci PciOk.
Local Open Scope Z_scope.

#[local] Arguments cfg_put : simpl never.

(** * The model *)

(** [PCIBus::irq_state]: for each of the four lines, one bit per device. *)
Definition irq_rows := list (list Z).
Definition irq_rows0 : irq_rows := replicate 4 (replicate 8 0).

(** A function, with the rows and the functions of its secondary bus. *)
Inductive irq_node := INode (f : PCIFunc) (secondary : option (irq_rows * list irq_node)).
Definition inode_func (t : irq_node) : PCIFunc := match t with INode f _ => f end.

Definition bus_map_irq (is_root : bool) (d : PCIFunc) (irq_num : Z) : Z :=
  if is_root then pci_bus_map_irq (devfn d) irq_num else pci_bridge_map_irq (devfn d) irq_num.

Definition line_level (st : irq_rows) (n : Z) : bool := nz (foldl Z.lor 0 (arr_get [] st n)).

(** The rows after [pci_bus_set_pin], and the line it sets with its level. *)
Definition pci_bus_set_pin (is_root : bool) (st : irq_rows) (d : PCIFunc) (irq_num : Z) (level : bool) : irq_rows * (Z * bool) :=
  let n := bus_map_irq is_root d irq_num in
  let row := arr_get [] st n in
  let word := arr_get 0 row (Z.shiftr (devfn d) 5) in
  let st := arr_set st n (arr_set row (Z.shiftr (devfn d) 5) (set_bit 32 word (get_bits 32 (devfn d) 0 5) level)) in
  (st, (n, line_level st n)).

(** The function, the rows, and the lines set in order. *)
Definition pci_update_intx (is_root : bool) (st : irq_rows) (d : PCIFunc) : PCIFunc * irq_rows * list (Z * bool) :=
  let disabled := intx_disabled d in
  let d := update_intx_status d in
  let '(st, sets) := for_each 4 0 (fun i '(st, sets) =>
    let '(st, set) := pci_bus_set_pin is_root st d i (get_bit 32 (irq_request d) i && negb disabled) in
    (st, sets ++ [set])) (st, []) in
  (d, st, sets).

Definition SetIRQ (is_root : bool) (st : irq_rows) (d : PCIFunc) (irq_num : Z) (level : bool) : PCIFunc * irq_rows * list (Z * bool) :=
  pci_update_intx is_root st (d <| irq_request := u8 (set_bit 32 (irq_request d) irq_num level) |>).

(** [SetIRQ] for each line a secondary bus sets. *)
Definition forward (is_root : bool) (d : PCIFunc) (st : irq_rows) (lines : list (Z * bool)) : PCIFunc * irq_rows * list (Z * bool) :=
  foldl (fun '(d, st, sets) '(n, level) =>
    let '(d, st, more) := SetIRQ is_root st d n level in (d, st, sets ++ more)) (d, st, []) lines.

(** [g], then [pci_update_intx], at the function a path leads to. *)
Fixpoint update_at (is_root : bool) (st : irq_rows) (nodes : list irq_node) (path : list nat) (g : PCIFunc -> PCIFunc) :
    irq_rows * list irq_node * list (Z * bool) :=
  match path with
  | [] => (st, nodes, [])
  | i :: path =>
    match path, nodes !! i with
    | [], Some (INode f sec) =>
      let '(f, st, sets) := pci_update_intx is_root st (g f) in
      (st, <[i := INode f sec]> nodes, sets)
    | _, Some (INode f (Some (st2, below))) =>
      let '(st2, below, lines) := update_at false st2 below path g in
      let '(f, st, sets) := forward is_root f st lines in
      (st, <[i := INode f (Some (st2, below))]> nodes, sets)
    | _, _ => (st, nodes, [])
    end
  end.

(** The root bus, and the levels its four lines were last set to. *)
Record IrqRoot := mkIrqRoot { rows : irq_rows; nodes : list irq_node; lines : list bool }.
Definition set_lines (l : list bool) (sets : list (Z * bool)) : list bool :=
  foldl (fun l '(n, level) => arr_set l n level) l sets.

(** A device drives one of its pins; the guest writes the high byte of a
    command register. *)
Inductive intx_op :=
| IPin (path : list nat) (irq_num : Z) (level : bool)
| ICommand (path : list nat) (val : Z).
Definition op_path (o : intx_op) : list nat := match o with IPin p _ _ | ICommand p _ => p end.
Definition op_func (o : intx_op) (d : PCIFunc) : PCIFunc :=
  match o with
  | IPin _ n level => d <| irq_request := u8 (set_bit 32 (irq_request d) n level) |>
  | ICommand _ val => pci_device_config_write8 d (PCI_COMMAND + 1) val
  end.
Definition intx_step (b : IrqRoot) (o : intx_op) : IrqRoot :=
  let '(st, ns, sets) := update_at true (rows b) (nodes b) (op_path o) (op_func o) in
  mkIrqRoot st ns (set_lines (lines b) sets).

(** A function that is not a bridge drives a line, on its bus or through the
    bridges above it. *)
Inductive asserted : bool -> list irq_node -> Z -> Prop :=
| asserted_here is_root ns f q : INode f None ∈ ns -> 0 <= q < 4 -> Z.testbit (irq_request f) q = true ->
    intx_disabled f = false -> asserted is_root ns (bus_map_irq is_root f q)
| asserted_behind is_root ns f st below q : INode f (Some (st, below)) ∈ ns -> asserted false below q ->
    asserted is_root ns (bus_map_irq is_root f q).

(** * The rows *)

Definition rows_ok (st : irq_rows) : Prop :=
  length st = 4%nat /\ Forall (fun r => length r = 8%nat /\ Forall (inw 32) r) st.
Definition pin_bit (st : irq_rows) (p g : Z) : bool := Z.testbit (arr_get 0 (arr_get [] st p) (g / 32)) (g mod 32).

Lemma rows0_ok : rows_ok irq_rows0.
Proof. split; [done|]. repeat constructor; unfold inw; lia. Qed.

Lemma row_ok st p : rows_ok st -> 0 <= p < 4 -> length (arr_get [] st p) = 8%nat /\ Forall (inw 32) (arr_get [] st p).
Proof. intros [Hl Hr] Hp. apply (Forall_arr_get_lt _ (fun r => length r = 8%nat /\ Forall (inw 32) r)); [done|lia]. Qed.

Lemma foldl_lor_testbit l i : forall a, Z.testbit (foldl Z.lor a l) i = Z.testbit a i || existsb (fun x => Z.testbit x i) l.
Proof. induction l as [|x l IH]; intros a; simpl; [by rewrite orb_false_r|]. by rewrite IH, Z.lor_spec, orb_assoc. Qed.

Lemma line_level_spec st p : rows_ok st -> 0 <= p < 4 ->
  line_level st p = true <-> exists g, 0 <= g < 256 /\ pin_bit st p g = true.
Proof.
  intros Hok Hp. destruct (row_ok st p Hok Hp) as [Hlen Hr]. unfold line_level, pin_bit.
  set (row := arr_get [] st p) in *. split.
  - intros H. assert (exists i, Z.testbit (foldl Z.lor 0 row) i = true /\ 0 <= i < 32) as (i & Hi & Hi').
    { unfold nz in H. apply negb_true_iff, Z.eqb_neq in H. destruct (nonzero_bit 32 (foldl Z.lor 0 row)) as (i & ? & ?); [|done|by exists i].
      apply inw_bits; [lia|]. split.
      - assert (forall a, 0 <= a -> 0 <= foldl Z.lor a row) as Hn; [|by apply Hn].
        clear -Hr. induction Hr as [|x l Hx _ IH]; intros a Ha; simpl; [done|]. apply IH, Z.lor_nonneg. by destruct Hx.
      - intros i Hi. rewrite foldl_lor_testbit, Z.bits_0. apply not_true_is_false. rewrite orb_false_l, existsb_exists.
        intros (x & Hx & Hb). apply list_elem_of_In in Hx. rewrite Forall_forall in Hr. by rewrite (inw_high 32 x i (Hr x Hx) Hi) in Hb. }
    rewrite foldl_lor_testbit, Z.bits_0, orb_false_l, existsb_exists in Hi. destruct Hi as (x & Hx & Hb).
    apply list_elem_of_In, list_elem_of_lookup in Hx as [k Hk]. pose proof (lookup_lt_Some _ _ _ Hk).
    exists (Z.of_nat k * 32 + i). split; [lia|].
    rewrite Z.div_add_l, (Z.div_small i), Z.add_0_r, Z.add_comm, Z.mod_add, Z.mod_small by lia.
    unfold arr_get. by rewrite nth_lookup, Nat2Z.id, Hk.
  - intros (g & Hg & Hb). unfold nz. apply negb_true_iff, Z.eqb_neq. apply (bit_nonzero _ (g mod 32)).
    rewrite foldl_lor_testbit, Z.bits_0, orb_false_l, existsb_exists. eexists. split; [|exact Hb].
    apply list_elem_of_In. unfold arr_get. rewrite nth_lookup.
    destruct (lookup_lt_is_Some_2 row (Z.to_nat (g / 32))) as [x Hx]; [|rewrite Hx; by eapply list_elem_of_lookup_2].
    rewrite Hlen. assert (g / 32 < 8) by (apply Z.div_lt_upper_bound; lia). assert (0 <= g / 32) by (apply Z.div_pos; lia). lia.
Qed.

(** Two lines with the same pins have the same level. *)
Lemma line_level_ext st st' p : rows_ok st -> rows_ok st' -> 0 <= p < 4 ->
  (forall g, 0 <= g < 256 -> pin_bit st' p g = pin_bit st p g) -> line_level st' p = line_level st p.
Proof.
  intros H H' Hp He. apply eq_true_iff_eq. rewrite !line_level_spec by done.
  split; intros (g & Hg & Hb); exists g; (split; [done|]); [by rewrite <- He|by rewrite He].
Qed.

(** ** The swizzle *)

Definition shift (is_root : bool) (f : PCIFunc) : Z := if is_root then devfn f / 8 - 1 else devfn f / 8.
(** The pin of the function that is wired to a line. *)
Definition pin_of (is_root : bool) (f : PCIFunc) (p : Z) : Z := (p - shift is_root f) mod 4.

Lemma bus_map_irq_mod is_root f q : bus_map_irq is_root f q = (q + shift is_root f) mod 4.
Proof.
  unfold bus_map_irq, shift, pci_bus_map_irq, pci_bridge_map_irq. change 3 with (Z.ones 2) at 2 4.
  destruct is_root; rewrite Z.land_ones, Z.shiftr_div_pow2 by lia; done.
Qed.

Lemma bus_map_irq_range is_root f q : 0 <= bus_map_irq is_root f q < 4.
Proof. rewrite bus_map_irq_mod. by apply Z.mod_pos_bound. Qed.

Lemma pin_of_range is_root f p : 0 <= pin_of is_root f p < 4.
Proof. by apply Z.mod_pos_bound. Qed.

Lemma bus_map_irq_iff is_root f q p : 0 <= q < 4 -> 0 <= p < 4 -> bus_map_irq is_root f q = p <-> q = pin_of is_root f p.
Proof.
  intros Hq Hp. rewrite bus_map_irq_mod. unfold pin_of. set (s := shift is_root f).
  pose proof (Z.div_mod (q + s) 4). pose proof (Z.mod_pos_bound (q + s) 4).
  pose proof (Z.div_mod (p - s) 4). pose proof (Z.mod_pos_bound (p - s) 4). lia.
Qed.

Lemma bus_map_pin_of is_root f p : 0 <= p < 4 -> bus_map_irq is_root f (pin_of is_root f p) = p.
Proof. intros Hp. apply bus_map_irq_iff; [apply pin_of_range|done|done]. Qed.

Lemma set_pin_ok is_root st d i l : rows_ok st -> 0 <= devfn d < 256 ->
  let n := bus_map_irq is_root d i in
  exists st', pci_bus_set_pin is_root st d i l = (st', (n, line_level st' n)) /\ rows_ok st' /\
  forall p g, 0 <= p < 4 -> 0 <= g < 256 -> pin_bit st' p g = if (p =? n) && (g =? devfn d) then l else pin_bit st p g.
Proof.
  intros Hok Hd n. pose proof (bus_map_irq_range is_root d i) as Hn. fold n in Hn. destruct Hok as [Hl Hr].
  destruct (row_ok st n (conj Hl Hr) Hn) as [Hlen Hw]. eexists. split; [reflexivity|]. fold n.
  rewrite get_bits_mod by lia. rewrite Z.div_1_r. change (2 ^ 5) with 32. rewrite Z.shiftr_div_pow2 by lia. change (2 ^ 5) with 32.
  set (w := devfn d / 32). assert (0 <= w < 8) by (unfold w; split; [apply Z.div_pos; lia|apply Z.div_lt_upper_bound; lia]).
  pose proof (Z.mod_pos_bound (devfn d) 32 ltac:(lia)) as Hb. split.
  - split; [by rewrite length_arr_set|]. apply Forall_arr_set; [done|]. split; [by rewrite length_arr_set|].
    apply Forall_arr_set; [done|]. by apply inw_set_bit.
  - intros p g Hp Hg. unfold pin_bit. rewrite arr_get_set by lia. destruct (Z.eqb_spec p n) as [->|Hne]; [|done]. simpl.
    assert (0 <= g / 32) by (apply Z.div_pos; lia). pose proof (Z.mod_pos_bound g 32 ltac:(lia)).
    rewrite arr_get_set by lia. pose proof (Z.div_mod (devfn d) 32). pose proof (Z.div_mod g 32).
    destruct (Z.eqb_spec (g / 32) w) as [E|E]; [|destruct (Z.eqb_spec g (devfn d)); [unfold w in E; lia|done]].
    rewrite set_bit_testbit by lia. unfold w in *.
    destruct (Z.eqb_spec (g mod 32) (devfn d mod 32)), (Z.eqb_spec g (devfn d)), (Z.ltb_spec (g mod 32) 32); try lia; try done.
    by rewrite E.
Qed.

(** ** The lines set *)

(** The level a line was last set to. *)
Definition last_set (sets : list (Z * bool)) (p : Z) : option bool :=
  foldl (fun acc '(n, level) => if n =? p then Some level else acc) None sets.

Lemma last_set_snoc sets n l p : last_set (sets ++ [(n, l)]) p = if n =? p then Some l else last_set sets p.
Proof. unfold last_set. by rewrite foldl_app. Qed.

Lemma last_set_app s1 s2 p : last_set (s1 ++ s2) p = match last_set s2 p with Some l => Some l | None => last_set s1 p end.
Proof.
  induction s2 as [|[n l] s2 IH] using rev_ind; [by rewrite app_nil_r|].
  rewrite app_assoc, !last_set_snoc, IH. by destruct (n =? p).
Qed.

(** What a function puts on one of its pins. *)
Definition drive (d : PCIFunc) (q : Z) : bool := Z.testbit (irq_request d) q && negb (intx_disabled d).

(** What setting the pins of function [d] to [v] does to its bus. *)
Record pins_set (is_root : bool) (d : PCIFunc) (v : Z -> bool) (st st' : irq_rows) (sets : list (Z * bool)) : Prop := {
  ps_rows : rows_ok st';
  ps_bits : forall p g, 0 <= p < 4 -> 0 <= g < 256 ->
    pin_bit st' p g = if g =? devfn d then v (pin_of is_root d p) else pin_bit st p g;
  ps_sets : forall p, 0 <= p < 4 -> last_set sets p = Some (line_level st' p);
  ps_range : Forall (fun s : Z * bool => 0 <= s.1 < 4) sets;
}.

Lemma devfn_status d : devfn (update_intx_status d) = devfn d.
Proof. unfold update_intx_status. by destruct (negb _). Qed.
Lemma request_status d : irq_request (update_intx_status d) = irq_request d.
Proof. unfold update_intx_status. by destruct (negb _). Qed.

(** The pins below [j] are set. *)
Definition pins_done (is_root : bool) (d : PCIFunc) (v : Z -> bool) (st : irq_rows) (j : Z) (s : irq_rows * list (Z * bool)) : Prop :=
  rows_ok s.1 /\ Forall (fun s : Z * bool => 0 <= s.1 < 4) s.2 /\ forall p, 0 <= p < 4 ->
    (forall g, 0 <= g < 256 -> pin_bit s.1 p g =
      if (g =? devfn d) && (pin_of is_root d p <? j) then v (pin_of is_root d p) else pin_bit st p g) /\
    last_set s.2 p = if pin_of is_root d p <? j then Some (line_level s.1 p) else None.

Lemma ltb_succ a j : a <> j -> (a <? j + 1) = (a <? j).
Proof. intros. destruct (Z.ltb_spec a j), (Z.ltb_spec a (j + 1)); lia. Qed.

Lemma pins_turn is_root d v st j st1 sets : 0 <= devfn d < 256 -> 0 <= j < 4 -> pins_done is_root d v st j (st1, sets) ->
  pins_done is_root d v st (j + 1) (let '(st, set) := pci_bus_set_pin is_root st1 d j (v j) in (st, sets ++ [set])).
Proof.
  intros Hd Hj (Ho & Hs & Hp). cbn [fst snd] in *.
  destruct (set_pin_ok is_root st1 d j (v j) Ho Hd) as (st2 & -> & Ho2 & Hb2). split_and!; [done| |].
  { apply Forall_app_2; [done|]. constructor; [|done]. apply bus_map_irq_range. }
  intros p Hpr. destruct (Hp p Hpr) as [Hpb Hps]. cbn [fst snd]. rewrite last_set_snoc, Hps.
  pose proof (bus_map_irq_iff is_root d j p ltac:(lia) Hpr) as Hiff.
  destruct (Z.eqb_spec (bus_map_irq is_root d j) p) as [E|E].
  - pose proof (proj1 Hiff E) as Ej. rewrite E in *. rewrite <- Ej in *.
    replace (j <? j + 1) with true by (symmetry; apply Z.ltb_lt; lia). split; [|done]. intros g Hg.
    rewrite Hb2, Hpb, Z.eqb_refl, Z.ltb_irrefl, andb_false_r, andb_true_r by done. done.
  - assert (pin_of is_root d p <> j) as Hne by (intros ?; by apply E, Hiff). rewrite ltb_succ by done.
    assert (Hsame : forall g, 0 <= g < 256 -> pin_bit st2 p g = pin_bit st1 p g).
    { intros g Hg. rewrite Hb2 by done. by destruct (Z.eqb_spec p (bus_map_irq is_root d j)). }
    split; [intros g Hg; by rewrite Hsame, Hpb|]. by rewrite (line_level_ext st1 st2).
Qed.

Lemma pci_update_intx_ok is_root st d : rows_ok st -> 0 <= devfn d < 256 ->
  exists st' sets, pci_update_intx is_root st d = (update_intx_status d, st', sets) /\ pins_set is_root d (drive d) st st' sets.
Proof.
  intros Hok Hd. unfold pci_update_intx. set (d' := update_intx_status d). assert (Ed : devfn d' = devfn d) by apply devfn_status.
  match goal with |- context [for_each 4 0 ?f ?s0] =>
    pose proof (for_each_ind (pins_done is_root d (drive d) st) 4 0 f s0) as Hl; destruct (for_each 4 0 f s0) as [st' sets] end.
  destruct Hl as (H1 & H2 & H3).
  - intros j [st1 sets1] Hj Hp. eapply pins_turn in Hp; [|done|lia].
    assert (get_bit 32 (irq_request d') j && negb (intx_disabled d) = drive d j) as ->.
    { unfold drive, d'. by rewrite request_status, get_bit_testbit by lia. }
    revert Hp. unfold pci_bus_set_pin, bus_map_irq. by rewrite Ed.
  - split_and!; [done|done|]. intros p Hp. pose proof (pin_of_range is_root d p).
    destruct (Z.ltb_spec (pin_of is_root d p) 0); [lia|]. split; [intros g _; by rewrite andb_false_r|done].
  - exists st', sets. split; [done|]. cbn [fst snd] in *. assert (Hlt : forall p, (pin_of is_root d p <? 0 + Z.of_nat 4) = true).
    { intros p. pose proof (pin_of_range is_root d p). apply Z.ltb_lt. lia. }
    split; [done| | |done].
    + intros p g Hp Hg. destruct (H3 p Hp) as [Hb _]. by rewrite Hb, Hlt, andb_true_r by done.
    + intros p Hp. destruct (H3 p Hp) as [_ Hb]. by rewrite Hb, Hlt.
Qed.

(** * The invariant of a bus *)

Lemma bridge_drive d q : pci_is_bridge d = true -> drive d q = Z.testbit (irq_request d) q.
Proof. intros E. unfold drive, intx_disabled. by rewrite E, andb_true_r. Qed.
Lemma bridge_status d : pci_is_bridge d = true -> update_intx_status d = d.
Proof. intros E. unfold update_intx_status. by rewrite E. Qed.
Lemma pin_of_devfn is_root d d' p : devfn d' = devfn d -> pin_of is_root d' p = pin_of is_root d p.
Proof. intros E. unfold pin_of, shift. by rewrite E. Qed.

(** What lines forwarded to the pins of bridge [d] do to its bus. *)
Record forwarded (is_root : bool) (d d' : PCIFunc) (st st' : irq_rows) (lines sets : list (Z * bool)) : Prop := {
  fw_devfn : devfn d' = devfn d;
  fw_config : config d' = config d;
  fw_rows : rows_ok st';
  fw_request : forall q, 0 <= q < 4 -> Z.testbit (irq_request d') q = default (Z.testbit (irq_request d) q) (last_set lines q);
  fw_bits : forall p g, 0 <= p < 4 -> 0 <= g < 256 -> pin_bit st' p g =
    if g =? devfn d then Z.testbit (irq_request d') (pin_of is_root d p) else pin_bit st p g;
  fw_sets : forall p, 0 <= p < 4 -> line_level st' p = default (line_level st p) (last_set sets p);
  fw_range : Forall (fun s : Z * bool => 0 <= s.1 < 4) sets;
}.

Lemma forward_ok is_root d st lines : rows_ok st -> 0 <= devfn d < 256 -> pci_is_bridge d = true ->
  (forall p, 0 <= p < 4 -> pin_bit st p (devfn d) = Z.testbit (irq_request d) (pin_of is_root d p)) ->
  Forall (fun s : Z * bool => 0 <= s.1 < 4) lines ->
  exists d' st' sets, forward is_root d st lines = (d', st', sets) /\ forwarded is_root d d' st st' lines sets.
Proof.
  intros Hok Hd Hbr Hpins. induction lines as [|[n l] lines IH] using rev_ind; intros Hr.
  - exists d, st, []. split; [done|]. split; try done. intros p g Hp Hg. destruct (Z.eqb_spec g (devfn d)) as [->|]; [|done]. by apply Hpins.
  - apply Forall_app in Hr as [Hr Hn]. rewrite Forall_singleton in Hn. simpl in Hn. destruct (IH Hr) as (d1 & st1 & s1 & E1 & []).
    unfold forward in *. rewrite foldl_app, E1. cbn [foldl]. unfold SetIRQ.
    set (d2 := d1 <| irq_request := _ |>). assert (pci_is_bridge d2 = true) as Hb2 by (unfold pci_is_bridge; simpl; by rewrite fw_config0).
    destruct (pci_update_intx_ok is_root st1 d2) as (st2 & s2 & -> & []); [done|simpl; by rewrite fw_devfn0|].
    rewrite bridge_status by done. exists d2, st2, (s1 ++ s2). split; [done|].
    assert (Hpin : forall p, pin_of is_root d2 p = pin_of is_root d p) by (intros p; by apply pin_of_devfn).
    split; [done|done|done| | | |by apply Forall_app_2].
    + intros q Hq. rewrite last_set_snoc. simpl. unfold u8. rewrite uw_testbit, set_bit_testbit by lia. rewrite (Z.eqb_sym q n).
      replace (q <? 8) with true by (symmetry; apply Z.ltb_lt; lia). replace (q <? 32) with true by (symmetry; apply Z.ltb_lt; lia). simpl.
      destruct (n =? q); simpl; [done|]. by apply fw_request0.
    + intros p g Hp Hg. rewrite ps_bits0, bridge_drive, Hpin by done. change (devfn d2) with (devfn d1). rewrite fw_devfn0.
      destruct (Z.eqb_spec g (devfn d)) as [->|Hne]; [done|]. rewrite fw_bits0 by done. by destruct (Z.eqb_spec g (devfn d)).
    + intros p Hp. by rewrite last_set_app, ps_sets0.
Qed.

(** The bits of the rows are the pins the functions drive. *)
Record bus_pins (is_root : bool) (st : irq_rows) (ns : list irq_node) : Prop := {
  bp_rows : rows_ok st;
  bp_nodup : NoDup (map (fun t => devfn (inode_func t)) ns);
  bp_bits : forall p g, 0 <= p < 4 -> 0 <= g < 256 -> pin_bit st p g = true <->
    exists t, t ∈ ns /\ devfn (inode_func t) = g /\ drive (inode_func t) (pin_of is_root (inode_func t) p) = true;
}.

Inductive node_inv : irq_node -> Prop :=
| inv_device f : 0 <= devfn f < 256 -> pci_is_bridge f = false -> node_inv (INode f None)
| inv_bridge f st below : 0 <= devfn f < 256 -> pci_is_bridge f = true ->
    (forall q, 0 <= q < 4 -> Z.testbit (irq_request f) q = line_level st q) ->
    bus_pins false st below -> Forall node_inv below -> node_inv (INode f (Some (st, below))).
Definition bus_inv (is_root : bool) (st : irq_rows) (ns : list irq_node) : Prop :=
  bus_pins is_root st ns /\ Forall node_inv ns.

Lemma node_devfn t : node_inv t -> 0 <= devfn (inode_func t) < 256.
Proof. by destruct 1. Qed.

Lemma bus_node_unique ns i t u : NoDup (map (fun t => devfn (inode_func t)) ns) -> ns !! i = Some t -> u ∈ ns ->
  devfn (inode_func u) = devfn (inode_func t) -> u = t.
Proof.
  intros Hn Hi Hu E. apply list_elem_of_lookup in Hu as [j Hj]. assert (i = j) as ->; [|congruence].
  eapply NoDup_lookup; [exact Hn| |]; rewrite list_lookup_fmap; [by rewrite Hi|rewrite Hj; simpl; by rewrite E].
Qed.

Lemma bus_pins_insert is_root st st' ns i t t' : bus_pins is_root st ns -> ns !! i = Some t ->
  devfn (inode_func t') = devfn (inode_func t) -> rows_ok st' ->
  (forall p g, 0 <= p < 4 -> 0 <= g < 256 -> pin_bit st' p g =
    if g =? devfn (inode_func t) then drive (inode_func t') (pin_of is_root (inode_func t) p) else pin_bit st p g) ->
  bus_pins is_root st' (<[i := t']> ns).
Proof.
  intros [Hr Hn Hb] Hi Ed Hr' Hb'. pose proof (lookup_lt_Some _ _ _ Hi) as Hlt.
  assert (Hin : t' ∈ <[i := t']> ns) by (eapply list_elem_of_lookup_2; by apply list_lookup_insert_eq).
  assert (Hnew : NoDup (map (fun t => devfn (inode_func t)) (<[i := t']> ns))).
  { rewrite list_fmap_insert, Ed, list_insert_id; [done|]. by rewrite list_lookup_fmap, Hi. }
  split; [done|done|]. intros p g Hp Hg. rewrite Hb' by done. destruct (Z.eqb_spec g (devfn (inode_func t))) as [->|Hne].
  - split.
    + intros Hd. exists t'. split_and!; [done|done|]. by rewrite (pin_of_devfn _ (inode_func t)).
    + intros (u & Hu & Eu & Hd). assert (u = t') as ->.
      { eapply (bus_node_unique _ i); [done|by apply list_lookup_insert_eq|done|congruence]. }
      by rewrite (pin_of_devfn _ (inode_func t)) in Hd.
  - rewrite Hb by done. split; intros (u & Hu & Eu & Hd); exists u; (split_and!; [|done|done]);
      apply list_elem_of_lookup in Hu as [j Hj]; apply list_elem_of_lookup; exists j.
    + rewrite list_lookup_insert_ne; [done|]. intros ->. congruence.
    + assert (j <> i); [|by rewrite list_lookup_insert_ne in Hj].
      intros ->. rewrite list_lookup_insert_eq in Hj by done. congruence.
Qed.

(** ** Operations *)

Fixpoint inode_at (ns : list irq_node) (path : list nat) : option irq_node :=
  match path with
  | [] => None
  | i :: path =>
    match path, ns !! i with
    | [], t => t
    | _, Some (INode _ (Some (_, below))) => inode_at below path
    | _, _ => None
    end
  end.

(** What an operation may do to a function: a bridge's pins are those of the
    bus behind it. *)
Record keeps (t : irq_node) (f' : PCIFunc) : Prop := {
  kp_devfn : devfn f' = devfn (inode_func t);
  kp_bridge : pci_is_bridge f' = pci_is_bridge (inode_func t);
  kp_request : pci_is_bridge f' = true -> irq_request f' = irq_request (inode_func t);
}.

Lemma status_cfg d a : 0 <= a -> a <> 6 -> cfg8 (config (update_intx_status d)) a = cfg8 (config d) a.
Proof.
  intros Ha Hne. unfold update_intx_status. destruct (negb _); [|done]. unfold cfg8. simpl. by apply arr_get_set_ne.
Qed.
Lemma bridge_of_status d : pci_is_bridge (update_intx_status d) = pci_is_bridge d.
Proof. unfold pci_is_bridge, is_bridge. by rewrite status_cfg. Qed.
Lemma drive_status d q : drive (update_intx_status d) q = drive d q.
Proof.
  unfold drive, intx_disabled. rewrite request_status, bridge_of_status. unfold cfg16. by rewrite !status_cfg.
Qed.

Lemma node_inv_func f f' sec : node_inv (INode f sec) -> keeps (INode f sec) f' -> node_inv (INode f' sec).
Proof.
  intros Hn [H1 H2 H3]. cbn [inode_func] in *.
  inversion Hn; subst; constructor; try congruence. intros q Hq. rewrite H3 by congruence. auto.
Qed.

Lemma keeps_status t f' : keeps t f' -> keeps t (update_intx_status f').
Proof. intros []. split; rewrite ?devfn_status, ?bridge_of_status, ?request_status; done. Qed.

Lemma update_at_ok g path : forall is_root st ns, bus_inv is_root st ns ->
  (forall t, inode_at ns path = Some t -> keeps t (g (inode_func t))) ->
  exists st' ns' sets, update_at is_root st ns path g = (st', ns', sets) /\ bus_inv is_root st' ns' /\
    (forall p, 0 <= p < 4 -> line_level st' p = default (line_level st p) (last_set sets p)) /\
    Forall (fun s : Z * bool => 0 <= s.1 < 4) sets.
Proof.
  induction path as [|i path IH]; intros is_root st ns [Hp Hf] Hg; [by exists st, ns, []|].
  cbn [update_at inode_at] in *. destruct (ns !! i) as [[f sec]|] eqn:Ei; [|destruct path; by exists st, ns, []].
  pose proof (Forall_lookup_1 _ _ _ _ Hf Ei) as Hn. pose proof (node_devfn _ Hn) as Hd. cbn [inode_func] in Hd.
  destruct path as [|j path].
  - pose proof (Hg _ eq_refl) as Hk. cbn [inode_func] in Hk. pose proof (kp_devfn _ _ Hk) as Ed. cbn [inode_func] in Ed.
    destruct (pci_update_intx_ok is_root st (g f)) as (st' & sets & -> & []); [by apply Hp|by rewrite Ed|].
    exists st', (<[i := INode (update_intx_status (g f)) sec]> ns), sets. split_and!; [done| |intros p Hpr; by rewrite ps_sets0|done].
    split; [|apply Forall_insert; [done|]; by eapply node_inv_func, keeps_status].
    eapply bus_pins_insert; [exact Hp|exact Ei|simpl; by rewrite devfn_status|done|].
    intros p q Hpr Hq. cbn [inode_func]. rewrite ps_bits0, Ed, drive_status by done. by rewrite (pin_of_devfn _ f (g f)).
  - destruct sec as [[st2 below]|]; [|by exists st, ns, []]. inversion Hn as [|f0 st0 b0 _ Hbr Hreq Hbp Hbelow]; subst.
    destruct (IH false st2 below (conj Hbp Hbelow) Hg) as (st2' & below' & ls & -> & [Hp2 Hf2] & Hl2 & Hr2).
    destruct (forward_ok is_root f st ls) as (f' & st' & sets & -> & []); [by apply Hp|done|done| |done|].
    { intros p Hpr. rewrite <- bridge_drive by done. apply eq_true_iff_eq. rewrite (bp_bits _ _ _ Hp) by done. split.
      - intros (t & Ht & E & Hdr). by rewrite (bus_node_unique ns i (INode f (Some (st2, below))) t (bp_nodup _ _ _ Hp) Ei Ht E) in Hdr.
      - intros Hdr. exists (INode f (Some (st2, below))). split_and!; [by eapply list_elem_of_lookup_2|done|done]. }
    assert (pci_is_bridge f' = true) as Hbr' by (unfold pci_is_bridge; by rewrite fw_config0).
    exists st', (<[i := INode f' (Some (st2', below'))]> ns), sets. split_and!; [done| |done|done].
    split; [|apply Forall_insert; [done|]].
    + eapply bus_pins_insert; [exact Hp|exact Ei|done|done|]. intros p q Hpr Hq. cbn [inode_func]. by rewrite fw_bits0, bridge_drive.
    + constructor; [by rewrite fw_devfn0|done| |done|done]. intros q Hq. by rewrite fw_request0, Hl2, Hreq.
Qed.

(** * What the lines of the root show *)

Section irq_node_ind.
Variable P : irq_node -> Prop.
Hypothesis Hdev : forall f, P (INode f None).
Hypothesis Hbridge : forall f st below, Forall P below -> P (INode f (Some (st, below))).
Fixpoint irq_node_ind' (t : irq_node) : P t :=
  match t with
  | INode f None => Hdev f
  | INode f (Some (st, below)) =>
    Hbridge f st below ((fix go (l : list irq_node) : Forall P l :=
      match l with [] => Forall_nil_2 _ | t :: l => Forall_cons_2 _ _ _ (irq_node_ind' t) (go l) end) below)
  end.
End irq_node_ind.

Lemma asserted_range is_root ns p : asserted is_root ns p -> 0 <= p < 4.
Proof. destruct 1; apply bus_map_irq_range. Qed.

Lemma drives_line is_root st ns t q : bus_inv is_root st ns -> t ∈ ns -> 0 <= q < 4 -> drive (inode_func t) q = true ->
  line_level st (bus_map_irq is_root (inode_func t) q) = true.
Proof.
  intros [Hp Hf] Ht Hq Hd. pose proof (bus_map_irq_range is_root (inode_func t) q) as Hr.
  rewrite Forall_forall in Hf. pose proof (node_devfn t (Hf t Ht)) as Hg.
  apply line_level_spec; [by apply Hp|done|]. exists (devfn (inode_func t)). split; [done|].
  apply (bp_bits _ _ _ Hp); [done..|]. exists t. split_and!; [done|done|].
  by rewrite <- (proj1 (bus_map_irq_iff is_root (inode_func t) q _ Hq Hr) eq_refl).
Qed.

Lemma asserted_line is_root ns p : asserted is_root ns p -> forall st, bus_inv is_root st ns -> line_level st p = true.
Proof.
  induction 1 as [r ns f q Hin Hq Hb Hd|r ns f st2 below q Hin Ha IH]; intros st Hi.
  - apply (drives_line r st ns (INode f None)); [done..|]. simpl. unfold drive. by rewrite Hb, Hd.
  - pose proof (asserted_range _ _ _ Ha) as Hq. destruct Hi as [Hp Hf].
    pose proof (proj1 (Forall_forall _ _) Hf _ Hin) as Hn. inversion Hn as [|f0 st0 b0 _ Hbr Hreq Hbp Hbelow]; subst.
    apply (drives_line r st ns (INode f (Some (st2, below)))); [done..|]. cbn [inode_func].
    rewrite bridge_drive, Hreq by done. by apply IH.
Qed.

Lemma line_driver is_root st ns p : bus_pins is_root st ns -> 0 <= p < 4 -> line_level st p = true ->
  exists t, t ∈ ns /\ drive (inode_func t) (pin_of is_root (inode_func t) p) = true.
Proof.
  intros Hp Hpr Hl. apply line_level_spec in Hl as (g & Hg & Hb); [|by apply Hp|done].
  apply (bp_bits _ _ _ Hp) in Hb as (t & ? & _ & ?); [|done..]. by exists t.
Qed.

Lemma drive_asserted t : node_inv t -> forall is_root ns q, t ∈ ns -> 0 <= q < 4 -> drive (inode_func t) q = true ->
  asserted is_root ns (bus_map_irq is_root (inode_func t) q).
Proof.
  induction t as [f|f st below IH] using irq_node_ind'; intros Hn r ns q Hin Hq Hd; cbn [inode_func] in *.
  - apply andb_true_iff in Hd as [H1 H2]. apply asserted_here; [done..|]. by apply negb_true_iff.
  - inversion Hn as [|f0 st0 b0 _ Hbr Hreq Hbp Hbelow]; subst. rewrite bridge_drive, Hreq in Hd by done.
    destruct (line_driver false st below q Hbp Hq Hd) as (u & Hu & Hdu). eapply asserted_behind; [exact Hin|].
    rewrite Forall_forall in IH, Hbelow.
    pose proof (IH u Hu (Hbelow u Hu) false below _ Hu (pin_of_range false (inode_func u) q) Hdu) as Ha. by rewrite bus_map_pin_of in Ha.
Qed.

Lemma line_asserted is_root st ns p : bus_inv is_root st ns -> 0 <= p < 4 -> line_level st p = true <-> asserted is_root ns p.
Proof.
  intros [Hp Hf] Hpr. split; [|intros Ha; by apply (asserted_line is_root ns p Ha)].
  intros Hl. destruct (line_driver _ _ _ _ Hp Hpr Hl) as (t & Ht & Hd). rewrite Forall_forall in Hf.
  pose proof (drive_asserted t (Hf t Ht) is_root ns _ Ht (pin_of_range is_root (inode_func t) p) Hd) as Ha. by rewrite bus_map_pin_of in Ha.
Qed.

(** ** Reachable buses *)

(** Functions as they are registered: no pin asserted. *)
Inductive irq_fresh : irq_node -> Prop :=
| fresh_device f : 0 <= devfn f < 256 -> pci_is_bridge f = false -> irq_request f = 0 -> irq_fresh (INode f None)
| fresh_bridge f below : 0 <= devfn f < 256 -> pci_is_bridge f = true -> irq_request f = 0 ->
    NoDup (map (fun t => devfn (inode_func t)) below) -> Forall irq_fresh below ->
    irq_fresh (INode f (Some (irq_rows0, below))).

(** A device drives the pins of its own function; those of a bridge are the
    lines of the bus behind it. *)
Definition pin_owner (b : IrqRoot) (o : intx_op) : Prop :=
  match o with
  | IPin path _ _ => forall t, inode_at (nodes b) path = Some t -> pci_is_bridge (inode_func t) = false
  | ICommand _ _ => True
  end.
Inductive intx_reach : IrqRoot -> Prop :=
| reach_init ns : NoDup (map (fun t => devfn (inode_func t)) ns) -> Forall irq_fresh ns ->
    intx_reach (mkIrqRoot irq_rows0 ns (replicate 4 false))
| reach_step b o : intx_reach b -> pin_owner b o -> intx_reach (intx_step b o).

Lemma rows0_bit p g : pin_bit irq_rows0 p g = false.
Proof.
  unfold pin_bit, irq_rows0. assert (arr_get [] (replicate 4 (replicate 8 0)) p = [] \/ arr_get [] (replicate 4 (replicate 8 0)) p = replicate 8 0) as [-> | ->].
  { unfold arr_get. rewrite nth_lookup. destruct (_ !! _) as [l|] eqn:E; [|by left]. apply lookup_replicate in E as [-> _]. by right. }
  - unfold arr_get. rewrite nth_lookup, lookup_nil. apply Z.bits_0.
  - unfold arr_get. rewrite nth_lookup. destruct (_ !! _) as [l|] eqn:E; [apply lookup_replicate in E as [-> _]|]; apply Z.bits_0.
Qed.

Lemma rows0_line p : 0 <= p < 4 -> line_level irq_rows0 p = false.
Proof.
  intros Hp. apply not_true_is_false. rewrite line_level_spec by (done || apply rows0_ok). intros (g & _ & Hg). by rewrite rows0_bit in Hg.
Qed.

Lemma fresh_request t : irq_fresh t -> irq_request (inode_func t) = 0.
Proof. by destruct 1. Qed.

Lemma fresh_pins is_root ns : NoDup (map (fun t => devfn (inode_func t)) ns) -> Forall irq_fresh ns -> bus_pins is_root irq_rows0 ns.
Proof.
  intros Hn Hf. split; [apply rows0_ok|done|]. intros p g _ _. rewrite rows0_bit. split; [done|].
  intros (t & Ht & _ & Hd). rewrite Forall_forall in Hf. unfold drive in Hd. by rewrite (fresh_request t (Hf t Ht)), Z.bits_0 in Hd.
Qed.

Lemma fresh_inv t : irq_fresh t -> node_inv t.
Proof.
  induction t as [f|f st below IH] using irq_node_ind'; intros Hf.
  - inversion Hf; subst. by constructor.
  - inversion Hf as [|f0 b0 ? ? Hr Hn Hb]; subst. constructor; [done|done| |by apply fresh_pins|].
    + intros q Hq. by rewrite Hr, Z.bits_0, rows0_line.
    + rewrite Forall_forall in *. auto.
Qed.

Lemma op_keeps b o t : pin_owner b o -> inode_at (nodes b) (op_path o) = Some t -> keeps t (op_func o (inode_func t)).
Proof.
  destruct o as [path n l|path v]; cbn [pin_owner op_path op_func]; intros Ho Ht.
  - pose proof (Ho t Ht) as Hb. split; [done|done|]. unfold pci_is_bridge in *. simpl. by rewrite Hb.
  - split; [done| |done]. unfold pci_is_bridge, is_bridge, pci_device_config_write8, cfg8. simpl.
    by rewrite !arr_get_set_ne by (unfold PCI_HEADER_TYPE, PCI_COMMAND; lia).
Qed.

Lemma set_lines_get sets p : 0 <= p < 4 -> Forall (fun s : Z * bool => 0 <= s.1 < 4) sets -> forall l, length l = 4%nat ->
  length (set_lines l sets) = 4%nat /\ arr_get false (set_lines l sets) p = default (arr_get false l p) (last_set sets p).
Proof.
  intros Hp Hs l Hl. induction sets as [|[n v] sets IH] using rev_ind; [done|].
  apply Forall_app in Hs as [Hs Hn]. rewrite Forall_singleton in Hn. simpl in Hn. destruct (IH Hs) as [H1 H2].
  unfold set_lines in *. rewrite foldl_app. cbn [foldl]. split; [by rewrite length_arr_set|].
  rewrite arr_get_set, last_set_snoc, (Z.eqb_sym p n) by lia. by destruct (n =? p).
Qed.

Lemma intx_reach_inv b : intx_reach b -> bus_inv true (rows b) (nodes b) /\ length (lines b) = 4%nat /\
  forall p, 0 <= p < 4 -> arr_get false (lines b) p = line_level (rows b) p.
Proof.
  induction 1 as [ns Hn Hf|b o Hb (Hi & Hl & Hs) Ho].
  - cbn [rows nodes lines]. split_and!; [split; [by apply fresh_pins|]|done|].
    + eapply Forall_impl; [exact Hf|]. apply fresh_inv.
    + intros p Hp. rewrite rows0_line by done. unfold arr_get. rewrite nth_lookup, lookup_replicate_2 by lia. done.
  - unfold intx_step. destruct (update_at_ok (op_func o) (op_path o) true (rows b) (nodes b) Hi) as (st & ns & sets & -> & Hi' & Hl' & Hr).
    { intros t. by apply op_keeps. }
    cbn [rows nodes lines]. split_and!; [done|by apply (set_lines_get sets 0)|]. intros p Hp.
    destruct (set_lines_get sets p Hp Hr (lines b) Hl) as [_ ->]. by rewrite Hl', Hs.
Qed.

(** C37: Whatever pins the functions of a PCI hierarchy raise and lower, and
    however the guest sets their INTx Disable bits, each of the four lines of the
    root bus is high exactly while some function, on the root bus or behind any
    number of bridges, asserts a pin that is not disabled and that the swizzles
    of the buses on its way lead to that line. *)
Theorem intx_lines_exact b p : intx_reach b -> 0 <= p < 4 ->
  arr_get false (lines b) p = true <-> asserted true (nodes b) p.
Proof.
  intros Hb Hp. destruct (intx_reach_inv b Hb) as (Hi & _ & Hs). rewrite Hs by done. by apply line_asserted.
Qed.

(** A function in slot 3 behind a bridge in slot 2 raises INTB. *)
Definition pin_bus : list irq_node :=
  [INode (pci_bridge_func 16 0x1b36 1 None 0) (Some (irq_rows0,
     [INode (pci_register_device_type 24 0x1234 0x5678 1 0x0200 0 None 0 0x40) None]))].
Definition pin_root : IrqRoot := intx_step (mkIrqRoot irq_rows0 pin_bus (replicate 4 false)) (IPin [0; 0]%nat 1 true).

Lemma intx_lines_exact_witness : intx_reach pin_root /\ asserted true (nodes pin_root) 1.
Proof.
  assert (intx_reach pin_root) as Hr.
  { apply reach_step.
    - apply reach_init; [apply NoDup_singleton|]. repeat constructor; try (vm_compute; congruence). by apply not_elem_of_nil.
    - intros t. intros [= <-]. by vm_compute. }
  split; [done|]. apply (intx_lines_exact pin_root 1 Hr); [lia|]. by vm_compute.
Defined.
