(* ===== verification/PciMsi.v ===== *)
(** Message signalled interrupts: the MSI capability and the choice between MSI
    and MSI-X ([PCIMsiState], [PCIMessageIrq] of [src/bus/pci/pci.cpp]; MSI-X
    itself is in Pci.v), and the theorem that MSI-X loses no interrupt. *)

From stdpp Require Import base numbers list.
From S2P Require Import Prelude Bits Cutils Pci PciOk.
Local Open Scope Z_scope.

#[local] Arguments cfg_put : simpl never.

(** * MSI *)

Definition PCI_CAP_ID_MSI : Z := 0x05.
Definition PCI_MSI_FLAGS : Z := 0x02.
Definition PCI_MSI_FLAGS_ENABLE : Z := 0x0001.
Definition PCI_MSI_FLAGS_QSIZE : Z := 0x0070.
Definition PCI_MSI_FLAGS_64BIT : Z := 0x0080.
Definition PCI_MSI_ADDRESS_LO : Z := 0x04.
Definition PCI_MSI_ADDRESS_HI : Z := 0x08.
Definition PCI_MSI_DATA : Z := 0x0c.
Definition PCI_MSI_QMASK_SHIFT : Z := 1.
Definition PCI_MSI_QSIZE_SHIFT : Z := 4.
Definition PCI_MSI_MAX_VECTORS : Z := 32.

Record PCIMsiState := mkMsi { msi_CapOffset : Z; msi_VectorCount0 : Z }.
Definition msi_absent : PCIMsiState := mkMsi (-1) 0.

(** [while ((2 << log2_count) <= vector_count && (2 << log2_count) <= MAX)
    log2_count++]: five turns at most. *)
Fixpoint msi_log2 (fuel : nat) (vector_count log2_count : Z) : Z :=
  match fuel with
  | O => log2_count
  | S fuel =>
    let next := Z.shiftl 2 log2_count in
    if (next <=? vector_count) && (next <=? PCI_MSI_MAX_VECTORS) then msi_log2 fuel vector_count (log2_count + 1)
    else log2_count
  end.

Definition msi_cap (log2_count : Z) : list Z :=
  [PCI_CAP_ID_MSI; 0] ++ put_le16 (set_bits 32 PCI_MSI_FLAGS_64BIT PCI_MSI_QMASK_SHIFT 3 log2_count) ++ replicate 12 0.
Definition msi_Init (d : PCIFunc) (has_msi : bool) (vector_count : Z) : PCIFunc * PCIMsiState * bool :=
  if negb has_msi then (d, msi_absent, false)
  else
    let log2_count := msi_log2 5 vector_count 0 in
    match pci_add_capability d (msi_cap log2_count) with
    | None => (d, msi_absent, false)
    | Some (d, offset) =>
      let d := pci_device_set_wmask d (offset + PCI_MSI_FLAGS) (Z.lor PCI_MSI_FLAGS_ENABLE PCI_MSI_FLAGS_QSIZE) 2 in
      let d := pci_device_set_wmask d (offset + PCI_MSI_ADDRESS_LO) 0xfffffffc 4 in
      let d := pci_device_set_wmask d (offset + PCI_MSI_ADDRESS_HI) 0xffffffff 4 in
      let d := pci_device_set_wmask d (offset + PCI_MSI_DATA) 0xffff 2 in
      (d, mkMsi offset (Z.shiftl 1 log2_count), true)
    end.

Definition msi_Control (d : PCIFunc) (m : PCIMsiState) : Z := pci_device_get_config d (msi_CapOffset m + PCI_MSI_FLAGS) 1.
Definition msi_Enabled (d : PCIFunc) (m : PCIMsiState) : bool :=
  if msi_CapOffset m <? 0 then false else nz (Z.land (msi_Control d m) PCI_MSI_FLAGS_ENABLE).
Definition msi_VectorCount (d : PCIFunc) (m : PCIMsiState) : Z :=
  if msi_CapOffset m <? 0 then 0
  else if negb (msi_Enabled d m) then msi_VectorCount0 m
  else
    let count := Z.shiftl 1 (get_bits 32 (msi_Control d m) PCI_MSI_QSIZE_SHIFT 3) in
    if count <? msi_VectorCount0 m then count else msi_VectorCount0 m.

(** [while ((1 << vector_bits) < count) vector_bits++]; the count is at most 32. *)
Fixpoint msi_bits (fuel : nat) (count vector_bits : Z) : Z :=
  match fuel with
  | O => vector_bits
  | S fuel => if Z.shiftl 1 vector_bits <? count then msi_bits fuel count (vector_bits + 1) else vector_bits
  end.
Definition msi_Send (d : PCIFunc) (m : PCIMsiState) (vector : Z) : PCIFunc :=
  let count := msi_VectorCount d m in
  if negb (msi_Enabled d m) || (vector <? 0) || (count <=? vector) then d
  else
    let get off n := pci_device_get_config d (msi_CapOffset m + off) n in
    let addr := concat_bits 64 (get PCI_MSI_ADDRESS_HI 2%nat) (get PCI_MSI_ADDRESS_LO 2%nat) 32 in
    pci_device_send_msi d addr (set_bits 32 (get PCI_MSI_DATA 1%nat) 0 (msi_bits 5 count 0) vector).

(** * The mechanism the guest turned on *)

(** [fMsix] is the function's own [msix]. *)
Definition irq_Init (d : PCIFunc) (has_msi : bool) (vector_count bar_num table_offset pba_offset : Z) : PCIFunc * PCIMsiState :=
  let '(d, _) := msix_Init d has_msi bar_num vector_count table_offset pba_offset in
  let '(d, m, _) := msi_Init d has_msi vector_count in
  (d, m).
Definition irq_Present (d : PCIFunc) (m : PCIMsiState) : bool := (0 <=? fCapOffset (msix d)) || (0 <=? msi_CapOffset m).
Definition irq_Enabled (d : PCIFunc) (m : PCIMsiState) : bool := msix_Enabled d || msi_Enabled d m.
Definition irq_VectorCount (d : PCIFunc) (m : PCIMsiState) : Z :=
  if msi_Enabled d m && negb (msix_Enabled d) then msi_VectorCount d m
  else if 0 <=? fCapOffset (msix d) then fVectorCount (msix d) else msi_VectorCount d m.
Definition irq_Send (d : PCIFunc) (m : PCIMsiState) (vector : Z) : PCIFunc :=
  if msix_Enabled d then msix_Send d vector
  else if msi_Enabled d m then msi_Send d m vector
  else d.

(** ** The counts are logarithms *)

Lemma shiftl_pow2 b n : 0 <= n -> Z.shiftl b n = b * 2 ^ n.
Proof. intros. by rewrite Z.shiftl_mul_pow2. Qed.

(** The loop ends by itself: the result is the largest power of two that is at
    most the count and 32. *)
Lemma msi_log2_spec vector_count : 0 < vector_count ->
  let k := msi_log2 5 vector_count 0 in
  0 <= k <= 5 /\ 2 ^ k <= vector_count /\ (Z.min vector_count 32 < 2 * 2 ^ k).
Proof.
  intros Hv. cbn [msi_log2]. unfold PCI_MSI_MAX_VECTORS.
  change (Z.shiftl 2 0) with 2. change (Z.shiftl 2 (0 + 1)) with 4. change (Z.shiftl 2 (0 + 1 + 1)) with 8.
  change (Z.shiftl 2 (0 + 1 + 1 + 1)) with 16. change (Z.shiftl 2 (0 + 1 + 1 + 1 + 1)) with 32.
  repeat match goal with |- context [?a <=? 32] => change (a <=? 32) with true end. rewrite !andb_true_r.
  repeat match goal with |- context [?a <=? vector_count] => destruct (Z.leb_spec a vector_count) end; cbn; lia.
Qed.

Lemma msi_bits_pow2 k : 0 <= k <= 5 -> msi_bits 5 (2 ^ k) 0 = k.
Proof. intros Hk. assert (k = 0 \/ k = 1 \/ k = 2 \/ k = 3 \/ k = 4 \/ k = 5) as [->|[->|[->|[->|[->| ->]]]]] by lia; done. Qed.

(** What [msi_Init] leaves. *)
Record msi_ok (m : PCIMsiState) : Prop := {
  msi_cap_ok : 0 <= msi_CapOffset m;
  msi_count_ok : exists k, 0 <= k <= 5 /\ msi_VectorCount0 m = 2 ^ k;
}.

Lemma msi_Init_ok d vector_count d' m : 0 < vector_count -> 0 <= next_cap_offset d ->
  msi_Init d true vector_count = (d', m, true) -> msi_ok m /\ msi_VectorCount0 m <= vector_count.
Proof.
  intros Hv Hc. unfold msi_Init. cbn [negb]. cbv zeta. destruct (msi_log2_spec vector_count Hv) as (H1 & H2 & _).
  set (k := msi_log2 5 vector_count 0) in *. destruct (pci_add_capability d (msi_cap k)) as [[f off]|] eqn:E; [|done].
  intros Em. injection Em as _ <-. rewrite shiftl_pow2 by lia. simpl msi_VectorCount0. split; [|lia]. split; [|exists k; split; [done|simpl; lia]].
  unfold pci_add_capability in E. destruct (_ <? _); [done|]. injection E as _ <-. done.
Qed.

Lemma msi_VectorCount_pow2 d m : msi_ok m -> msi_Enabled d m = true ->
  exists k, 0 <= k <= 5 /\ msi_VectorCount d m = 2 ^ k /\ 2 ^ k <= msi_VectorCount0 m.
Proof.
  intros [Hc (k & Hk & Ek)] He. unfold msi_VectorCount. destruct (Z.ltb_spec (msi_CapOffset m) 0); [lia|]. rewrite He. cbn [negb]. cbv zeta.
  set (q := get_bits 32 (msi_Control d m) PCI_MSI_QSIZE_SHIFT 3).
  assert (0 <= q) by (unfold q; destruct (get_bits_nonneg 32 (msi_Control d m) PCI_MSI_QSIZE_SHIFT 3); lia).
  rewrite Ek, shiftl_pow2 by lia. rewrite Z.mul_1_l. destruct (Z.ltb_spec (2 ^ q) (2 ^ k)) as [Hlt|Hge]; [|exists k; lia].
  exists q. split; [|lia]. split; [lia|]. apply Z.pow_lt_mono_r_iff in Hlt; lia.
Qed.

Definition bus_master (d : PCIFunc) : bool := nz (Z.land (cfg16 (config d) PCI_COMMAND) PCI_COMMAND_MASTER).

(** A vector the guest gave the function is sent as the address it programmed
    and its data word with the vector in the bits the count needs. *)
Lemma msi_Send_exact d m vector : msi_ok m -> msi_Enabled d m = true -> bus_master d = true ->
  0 <= vector < msi_VectorCount d m ->
  let data := pci_device_get_config d (msi_CapOffset m + PCI_MSI_DATA) 1 in
  exists k, msi_VectorCount d m = 2 ^ k /\ 2 ^ k <= msi_VectorCount0 m /\
  sent (msi_Send d m vector) = sent d ++
    [(concat_bits 64 (pci_device_get_config d (msi_CapOffset m + PCI_MSI_ADDRESS_HI) 2)
                     (pci_device_get_config d (msi_CapOffset m + PCI_MSI_ADDRESS_LO) 2) 32,
      u32 data / 2 ^ k * 2 ^ k + vector)].
Proof.
  intros Hm He Hb Hv data. destruct (msi_VectorCount_pow2 d m Hm He) as (k & Hk & Ek & Hle). exists k. split_and!; [done|done|].
  unfold msi_Send. rewrite Ek in *. rewrite He, msi_bits_pow2 by done. cbn [negb orb]. cbv zeta. fold data. clearbody data.
  destruct (Z.ltb_spec vector 0), (Z.leb_spec (2 ^ k) vector); try lia. cbn [orb].
  unfold pci_device_send_msi. fold (bus_master d). rewrite Hb. simpl. do 3 f_equal.
  assert (inw k vector) as Hin by (unfold inw; lia). rewrite <- lor_mul_pow2 by (done || lia).
  rewrite <- Z.shiftl_mul_pow2, <- Z.shiftr_div_pow2 by lia. bits_at i Hi. unfold u32. rewrite Z.lor_spec, Z.shiftl_spec, set_bits_testbit, Z.sub_0_r by lia.
  destruct (Z.ltb_spec i k).
  - rewrite (testbit_neg (i - k)) by lia. repeat (case_cmp; simpl; try lia); done.
  - rewrite Z.shiftr_spec, (inw_high k vector), uw_testbit by (done || lia). replace (i - k + k) with i by lia.
    rewrite orb_false_r. repeat (case_cmp; simpl; try lia); done.
Qed.

(** * MSI-X loses nothing *)

Definition masked (d : PCIFunc) (v : Z) : bool := MaskedAll d || entry_masked (msix_entry (msix d) v).
Definition message (d : PCIFunc) (v : Z) : Z * Z :=
  let e := msix_entry (msix d) v in (concat_bits 64 (addr_hi e) (addr_lo e) 32, data e).

Record msix_ok (d : PCIFunc) : Prop := {
  mx_config : length (config d) = 4096%nat;
  mx_cap : 0x40 <= fCapOffset (msix d) <= 0x100 - 12;
  mx_count : 0 < fVectorCount (msix d);
  mx_table : length (fTable (msix d)) = Z.to_nat (fVectorCount (msix d));
  mx_pba : length (fPba (msix d)) = Z.to_nat ((fVectorCount (msix d) + 31) / 32);
}.
(** A vector is pending only while something masks it. *)
Definition pending_masked (d : PCIFunc) : Prop :=
  forall v, 0 <= v < fVectorCount (msix d) -> pba_bit (msix d) v = true -> masked d v = true.

Lemma set_pba_bit m v on u : length (fPba m) = Z.to_nat ((fVectorCount m + 31) / 32) ->
  0 <= v < fVectorCount m -> 0 <= u < fVectorCount m ->
  pba_bit (set_pba m v on) u = if u =? v then on else pba_bit m u.
Proof.
  intros Hl Hv Hu. unfold pba_bit, set_pba. simpl fPba.
  assert (0 <= v / 32 < (fVectorCount m + 31) / 32).
  { split; [apply Z.div_pos; lia|]. apply Z.div_lt_upper_bound; [lia|]. pose proof (Z.div_mod (fVectorCount m + 31) 32).
    pose proof (Z.mod_pos_bound (fVectorCount m + 31) 32). lia. }
  pose proof (Z.mod_pos_bound v 32 ltac:(lia)). pose proof (Z.mod_pos_bound u 32 ltac:(lia)).
  pose proof (Z.div_mod v 32). pose proof (Z.div_mod u 32). assert (0 <= u / 32) by (apply Z.div_pos; lia).
  rewrite arr_get_set by lia. destruct (Z.eqb_spec (u / 32) (v / 32)) as [E|E].
  - rewrite E. destruct (Z.eqb_spec u v) as [->|]; [by rewrite get_set_bit|]. rewrite get_set_bit_other by lia. done.
  - by destruct (Z.eqb_spec u v) as [->|].
Qed.

(** What a step must have done with the vectors [want]: each is still pending
    or its message went out (a function without bus mastering sends none), and
    nothing else did. *)
Definition delivered (want : Z -> Prop) (d d' : PCIFunc) : Prop :=
  exists new, sent d' = sent d ++ new /\
    (bus_master d' = true -> forall v, 0 <= v < fVectorCount (msix d') -> want v ->
       pba_bit (msix d') v = true \/ message d' v ∈ new) /\
    (forall x, x ∈ new -> exists v, 0 <= v < fVectorCount (msix d') /\ want v /\ x = message d' v).

(** The parts of a function that MSI-X reads but never writes. *)
Record same_msix (d d' : PCIFunc) : Prop := {
  sm_config : config d' = config d;
  sm_cap : fCapOffset (msix d') = fCapOffset (msix d);
  sm_count : fVectorCount (msix d') = fVectorCount (msix d);
  sm_table : fTable (msix d') = fTable (msix d);
  sm_pba : length (fPba (msix d')) = length (fPba (msix d));
}.

Lemma same_msix_masked d d' v : same_msix d d' -> masked d' v = masked d v /\ message d' v = message d v /\ bus_master d' = bus_master d /\
  MaskedAll d' = MaskedAll d /\ msix_Enabled d' = msix_Enabled d.
Proof.
  intros [Ec Ecap Ecnt Et _]. unfold masked, message, bus_master, msix_Enabled, MaskedAll, msix_ctrl, msix_entry, pci_device_get_config, pci_config_bytes.
  by rewrite Ec, Ecap, Et.
Qed.

Lemma msix_Send_cases d v : msix_ok d -> 0 <= v < fVectorCount (msix d) ->
  let d' := msix_Send d v in
  same_msix d d' /\ (forall u, 0 <= u < fVectorCount (msix d) -> pba_bit (msix d') u = if u =? v then masked d v else pba_bit (msix d) u) /\
  sent d' = sent d ++ (if masked d v then [] else if bus_master d then [message d v] else []).
Proof.
  intros [Hc Hcap Hn Ht Hp] Hv d'. unfold d', msix_Send. destruct (Z.ltb_spec v 0), (Z.leb_spec (fVectorCount (msix d)) v); try lia.
  cbn [orb]. cbv zeta. fold (masked d v). destruct (masked d v) eqn:E.
  - split_and!; [split; try done; apply length_arr_set| |by rewrite app_nil_r]. intros u Hu. simpl msix. by rewrite set_pba_bit.
  - unfold pci_device_send_msi. change (cfg16 (config (d <| msix := set_pba (msix d) v false |>)) PCI_COMMAND) with (cfg16 (config d) PCI_COMMAND).
    fold (bus_master d). destruct (bus_master d); cbn [negb]; rewrite ?app_nil_r;
      (split_and!; [split; try done; apply length_arr_set| |done]); intros u Hu; simpl msix; by rewrite set_pba_bit.
Qed.

Lemma same_msix_ok d d' : same_msix d d' -> msix_ok d -> msix_ok d'.
Proof. intros [E1 E2 E3 E4 E5] []. split; rewrite ?E1, ?E2, ?E3, ?E4, ?E5; done. Qed.
Lemma same_msix_trans d d' d'' : same_msix d d' -> same_msix d' d'' -> same_msix d d''.
Proof. intros [] []. split; congruence. Qed.

(** After the turns below [j] of the loop over the vectors. *)
Definition lifting (d : PCIFunc) (j : Z) (t : PCIFunc) : Prop :=
  let n := fVectorCount (msix d) in
  same_msix d t /\
  (forall u, 0 <= u < n -> pba_bit (msix t) u = pba_bit (msix d) u && ((j <=? u) || entry_masked (msix_entry (msix d) u))) /\
  exists new, sent t = sent d ++ new /\
    (bus_master d = true -> forall u, 0 <= u < n -> u < j -> pba_bit (msix d) u = true ->
       pba_bit (msix t) u = true \/ message d u ∈ new) /\
    (forall x, x ∈ new -> exists u, 0 <= u < n /\ pba_bit (msix d) u = true /\ x = message d u).

(** A turn that sends. *)
Lemma lift_send d j t : msix_ok d -> MaskedAll d = false -> 0 <= j < fVectorCount (msix d) ->
  pba_bit (msix d) j = true -> entry_masked (msix_entry (msix d) j) = false -> lifting d j t -> lifting d (j + 1) (msix_Send t j).
Proof.
  intros Hok Hall Hj Epj Emj (Hs & Hp & new & E & H1 & H2). destruct (same_msix_masked d t j Hs) as (Em & Eg & Eb & _ & _).
  assert (masked d j = false) as Hmj by (unfold masked; by rewrite Hall).
  destruct (msix_Send_cases t j) as (Hs2 & Hp2 & E2); [by eapply same_msix_ok|by rewrite (sm_count _ _ Hs)|].
  rewrite (sm_count _ _ Hs) in Hp2. rewrite Em, Hmj in Hp2, E2. split_and!; [by eapply same_msix_trans| |].
  - intros u Hu. rewrite Hp2 by done. destruct (Z.eqb_spec u j) as [->|].
    { rewrite Emj, orb_false_r. destruct (Z.leb_spec (j + 1) j); [lia|]. by rewrite andb_false_r. }
    rewrite Hp by done. f_equal. f_equal. destruct (Z.leb_spec j u), (Z.leb_spec (j + 1) u); lia.
  - rewrite Eb, Eg in E2. exists (new ++ if bus_master d then [message d j] else []). rewrite E2, E, <- app_assoc. split_and!; [done| |].
    + intros Hm u Hu Huj Hpu. rewrite Hm, elem_of_app, list_elem_of_singleton. destruct (Z.eq_dec u j) as [->|Hne]; [by right; right|].
      rewrite Hp2 by done. destruct (Z.eqb_spec u j); [done|]. destruct (H1 Hm u Hu ltac:(lia) Hpu); auto.
    + intros x. rewrite elem_of_app. intros [Hx|Hx]; [by apply H2|]. exists j. split; [done|]. split; [done|].
      destruct (bus_master d); [by apply list_elem_of_singleton in Hx|by apply not_elem_of_nil in Hx].
Qed.

(** A turn that does not. *)
Lemma lift_skip d j t : 0 <= j < fVectorCount (msix d) ->
  pba_bit (msix d) j && negb (entry_masked (msix_entry (msix d) j)) = false -> lifting d j t -> lifting d (j + 1) t.
Proof.
  intros Hj Ec (Hs & Hp & new & E & H1 & H2).
  assert (Hsame : forall u, u = j -> pba_bit (msix d) u = true -> entry_masked (msix_entry (msix d) u) = true).
  { intros u -> Hpu. rewrite Hpu in Ec. by apply negb_false_iff in Ec. }
  assert (Hp' : forall u, 0 <= u < fVectorCount (msix d) -> pba_bit (msix t) u =
    pba_bit (msix d) u && ((j + 1 <=? u) || entry_masked (msix_entry (msix d) u))).
  { intros u Hu. rewrite Hp by done. destruct (pba_bit (msix d) u) eqn:Epu; [|done]. simpl.
    destruct (Z.leb_spec j u), (Z.leb_spec (j + 1) u); try lia; try done. rewrite (Hsame u) by (done || lia). done. }
  split_and!; [done|done|]. exists new. split_and!; [done| |done]. intros Hm u Hu Huj Hpu.
  destruct (Z.eq_dec u j) as [->|]; [|apply H1; [done|done|lia|done]]. left. rewrite Hp', Hpu, (Hsame j) by done. by rewrite orb_true_r.
Qed.

(** The loop sends what a lifted function mask held back. *)
Lemma lifted_delivers d : msix_ok d -> MaskedAll d = false -> msix_Enabled d = true ->
  same_msix d (FunctionMaskLifted d) /\ pending_masked (FunctionMaskLifted d) /\
  delivered (fun v => pba_bit (msix d) v = true) d (FunctionMaskLifted d).
Proof.
  intros Hok Hall Hen. unfold FunctionMaskLifted. rewrite Hen. cbn [negb]. pose proof (mx_count d Hok) as Hn.
  match goal with |- context [for_each ?k 0 ?f d] =>
    pose proof (for_each_ind (lifting d) k 0 f d) as Hl; set (d' := for_each k 0 f d) in * end.
  destruct Hl as (Hs & Hp & new & E & H1 & H2).
  - intros j t Hj Hl. assert (Hjn : 0 <= j < fVectorCount (msix d)) by lia. pose proof Hl as (Hs & Hp & _).
    assert (msix_entry (msix t) j = msix_entry (msix d) j) as -> by (unfold msix_entry; by rewrite (sm_table _ _ Hs)).
    rewrite Hp, Z.leb_refl, orb_true_l, andb_true_r by done. destruct (_ && _) eqn:Ec; [|by apply lift_skip].
    apply andb_true_iff in Ec as [Epj Emj]. apply negb_true_iff in Emj. by apply lift_send.
  - split_and!; [done| |].
    + intros u Hu. replace (0 <=? u) with true by (symmetry; apply Z.leb_le; lia). by rewrite andb_true_r.
    + exists []. rewrite app_nil_r. split_and!; [done|intros; lia|]. intros x Hx. by apply not_elem_of_nil in Hx.
  - split_and!; [done| |].
    + intros v Hv Hpv. rewrite (sm_count _ _ Hs) in Hv. rewrite Hp in Hpv by done. apply andb_true_iff in Hpv as [_ Hpv].
      destruct (same_msix_masked d d' v Hs) as (-> & _). unfold masked. rewrite Hall.
      destruct (Z.leb_spec (0 + Z.of_nat (Z.to_nat (fVectorCount (msix d)))) v); [lia|done].
    + exists new. rewrite (sm_count _ _ Hs). split_and!; [done| |].
      * intros Hm v Hv Hpv. destruct (same_msix_masked d d' v Hs) as (_ & -> & Eb & _). apply H1; [congruence|done|lia|done].
      * intros x Hx. destruct (H2 x Hx) as (v & Hv & Hpv & ->). exists v.
        by destruct (same_msix_masked d d' v Hs) as (_ & -> & _).
Qed.

(** ** Steps *)

(** The device posts a vector; the guest writes the vector table, or a
    configuration register. *)
Inductive msix_op :=
| MPost (vector : Z)
| MTable (offset val : Z) (size_log2 : nat)
| MConfig (above : list (list Z)) (secondary : bool) (below : list pci_tree) (addr data : Z) (size_log2 : nat).
Definition msix_step (d : PCIFunc) (o : msix_op) : PCIFunc :=
  match o with
  | MPost vector => msix_Send d vector
  | MTable offset val n => TableWrite d offset val n
  | MConfig above s below addr data n => node_func (pci_device_config_write above (Node d s below) addr data n)
  end.
Definition want (d : PCIFunc) (o : msix_op) (v : Z) : Prop := pba_bit (msix d) v = true \/ o = MPost v.

(** What every step keeps true. *)
Definition msix_inv (d : PCIFunc) : Prop := msix_ok d /\ pending_masked d.
Definition msix_good (o : msix_op) (d d' : PCIFunc) : Prop := msix_inv d' /\ delivered (want d o) d d'.

Lemma delivered_none (P : Z -> Prop) d d' : sent d' = sent d ->
  (forall v, 0 <= v < fVectorCount (msix d') -> P v -> pba_bit (msix d') v = true) -> delivered P d d'.
Proof.
  intros E H. exists []. rewrite app_nil_r. split_and!; [done|auto|]. intros x Hx. by apply not_elem_of_nil in Hx.
Qed.

(** [Send] of a vector, from a state where only it may be pending unmasked. *)
Lemma send_good (P : Z -> Prop) d v : msix_ok d -> 0 <= v < fVectorCount (msix d) -> P v ->
  (forall u, 0 <= u < fVectorCount (msix d) -> u <> v -> P u -> pba_bit (msix d) u = true) ->
  (forall u, 0 <= u < fVectorCount (msix d) -> u <> v -> pba_bit (msix d) u = true -> masked d u = true) ->
  msix_inv (msix_Send d v) /\ delivered P d (msix_Send d v).
Proof.
  intros Hok Hv HP Hpend Hmask. destruct (msix_Send_cases d v Hok Hv) as (Hs & Hp & E). set (d' := msix_Send d v) in *.
  pose proof (sm_count _ _ Hs) as Ec. split; [split; [by eapply same_msix_ok|]|].
  - intros u Hu Hpu. rewrite Ec in Hu. rewrite Hp in Hpu by done. destruct (same_msix_masked d d' u Hs) as (-> & _).
    destruct (Z.eqb_spec u v) as [->|]; [done|]. by apply Hmask.
  - eexists. split; [exact E|]. rewrite Ec. split.
    + intros Hm u Hu HPu. destruct (same_msix_masked d d' u Hs) as (_ & -> & Eb & _). rewrite Hp by done.
      destruct (Z.eqb_spec u v) as [->|]; [|left; by apply Hpend]. destruct (masked d v); [by left|]. right. rewrite <- Eb, Hm. by apply list_elem_of_singleton.
    + intros x Hx. exists v. destruct (same_msix_masked d d' v Hs) as (_ & -> & _). split; [done|]. split; [done|].
      destruct (masked d v); [by apply not_elem_of_nil in Hx|]. destruct (bus_master d); [by apply list_elem_of_singleton in Hx|by apply not_elem_of_nil in Hx].
Qed.

Lemma post_good d v : msix_inv d -> msix_good (MPost v) d (msix_Send d v).
Proof.
  intros [Hok Hm]. destruct (decide (0 <= v < fVectorCount (msix d))) as [Hv|Hv].
  - apply send_good; [done|done|by right| |]; intros u Hu Hne; [intros [?|[= ->]]; done|by apply Hm].
  - assert (msix_Send d v = d) as ->.
    { unfold msix_Send. destruct (Z.ltb_spec v 0), (Z.leb_spec (fVectorCount (msix d)) v); try done; lia. }
    split; [done|]. apply delivered_none; [done|]. intros u Hu [?|[= ->]]; [done|lia].
Qed.

Lemma entry_masked_word e w x : w <> 3 -> 0 <= w < 4 -> entry_masked (set_entry_word e w x) = entry_masked e.
Proof.
  intros H1 H2. unfold set_entry_word. destruct (Z.eqb_spec w 0), (Z.eqb_spec w 1), (Z.eqb_spec w 2); try done; lia.
Qed.

Lemma table_good d offset val n : 0 <= offset -> msix_inv d -> msix_good (MTable offset val n) d (TableWrite d offset val n).
Proof.
  intros Ho [Hok Hm]. unfold TableWrite, TableSlot. destruct (Z.ltb_spec (fCapOffset (msix d)) 0); [destruct (mx_cap d Hok); lia|].
  cbv zeta. destruct (Z.leb_spec (fVectorCount (msix d)) (offset / 16)) as [|Hi].
  { split; [done|]. apply delivered_none; [done|]. intros v Hv [?|[=]]. done. }
  set (i := offset / 16) in *. set (w := offset / 4 mod 4). assert (Hi0 : 0 <= i) by (apply Z.div_pos; lia).
  set (e := msix_entry (msix d) i). set (x := set_bits _ _ _ _ _). set (d1 := d <| msix := _ |>).
  assert (Hw : 0 <= w < 4) by (by apply Z.mod_pos_bound). pose proof (mx_table d Hok) as Hlt.
  assert (Hok1 : msix_ok d1) by (destruct Hok; split; try done; unfold d1; simpl; by rewrite length_arr_set).
  assert (Hent : forall u, 0 <= u -> msix_entry (msix d1) u = if u =? i then set_entry_word e w x else msix_entry (msix d) u).
  { intros u Hu. unfold msix_entry, d1. simpl. apply arr_get_set; lia. }
  assert (Hmask : forall u, 0 <= u < fVectorCount (msix d) -> u <> i -> pba_bit (msix d) u = true -> masked d1 u = true).
  { intros u Hu Hne Hpu. unfold masked. rewrite Hent by lia. destruct (Z.eqb_spec u i); [done|]. by apply Hm. }
  destruct (_ && _ && _ && _) eqn:Ec.
  - apply andb_true_iff in Ec as [_ Hp]. apply (send_good (want d (MTable offset val n)) d1 i); [done|done|by left| |done].
    intros u Hu Hne [?|[=]]. done.
  - split; [split; [done|]|apply delivered_none; [done|intros u Hu [?|[=]]; done]].
    intros u Hu Hpu. change (fVectorCount (msix d1)) with (fVectorCount (msix d)) in Hu. change (pba_bit (msix d1) u) with (pba_bit (msix d) u) in Hpu.
    destruct (Z.eq_dec u i) as [->|]; [|by apply Hmask]. pose proof (Hm i Hu Hpu) as Hmi. unfold masked in *. rewrite Hent, Z.eqb_refl by lia.
    change (MaskedAll d1) with (MaskedAll d). fold e in Hmi. destruct (MaskedAll d); [done|]. simpl in Hmi |- *.
    destruct (Z.eqb_spec w 3) as [->|]; [|by rewrite entry_masked_word].
    change (pba_bit (msix d1) i) with (pba_bit (msix d) i) in Ec. rewrite Hpu, andb_true_r in Ec. simpl in Ec.
    change (nz (Z.land (entry_word e 3) PCI_MSIX_ENTRY_CTRL_MASKBIT)) with (entry_masked e) in Ec. rewrite Hmi in Ec. simpl in Ec.
    by apply negb_false_iff in Ec.
Qed.

(** ** Configuration writes *)

(** Functions that agree on MSI-X, bus mastering and the capabilities. *)
Record twin (d d' : PCIFunc) : Prop := {
  tw_msix : msix d' = msix d;
  tw_sent : sent d' = sent d;
  tw_len : length (config d') = length (config d);
  tw_bytes : forall a, 0x40 <= a < 0x100 \/ 4 <= a < 6 -> cfg8 (config d') a = cfg8 (config d) a;
}.

Lemma twin_refl d : twin d d. Proof. by split. Qed.
Lemma twin_trans d d' d'' : twin d d' -> twin d' d'' -> twin d d''.
Proof. intros [] []. split; [congruence..|]. intros a Ha. by rewrite tw_bytes1, tw_bytes0. Qed.

Lemma twin_ctrl d d' : msix_ok d -> msix d' = msix d ->
  (forall a, 0x40 <= a < 0x100 -> cfg8 (config d') a = cfg8 (config d) a) ->
  MaskedAll d' = MaskedAll d /\ msix_Enabled d' = msix_Enabled d.
Proof.
  intros Hok Em Hb. pose proof (mx_cap d Hok) as Hcap.
  assert (E : msix_ctrl d' = msix_ctrl d).
  { unfold msix_ctrl, pci_device_get_config, pci_config_bytes. rewrite Em. unfold cfg16, PCI_MSIX_FLAGS, PCI_EXT_CONFIG_SIZE.
    destruct (Z.leb_spec (fCapOffset (msix d) + 2) (0x1000 - 2)); [|lia]. by rewrite !Hb by lia. }
  unfold MaskedAll, msix_Enabled. by rewrite E, Em.
Qed.

Lemma twin_good P d1 d2 d3 : msix_ok d2 -> twin d2 d3 -> msix_inv d2 /\ delivered P d1 d2 -> msix_inv d3 /\ delivered P d1 d3.
Proof.
  intros Hok [Em Es El Eb] [[Hok2 Hpm] (new & E & H1 & H2)].
  destruct (twin_ctrl d2 d3 Hok Em) as [Hall _]; [intros a Ha; apply Eb; lia|]. split; [split|].
  - destruct Hok2. split; rewrite ?Em, ?El; done.
  - intros v. rewrite Em. unfold masked. rewrite Em, Hall. apply Hpm.
  - exists new. assert (bus_master d3 = bus_master d2) as Ebm by (unfold bus_master, cfg16, PCI_COMMAND; by rewrite !Eb by lia).
    assert (forall v, message d3 v = message d2 v) as Emsg by (intros v; unfold message; by rewrite Em). rewrite Ebm, Em, Es.
    split_and!; [done| |]; [intros Hm v; rewrite Emsg; by apply H1|].
    intros x Hx. destruct (H2 x Hx) as (v & ? & ? & ->). exists v. by rewrite Emsg.
Qed.

Lemma twin_update above d : twin d (pci_update_mappings above d).
Proof. destruct (pci_update_frame above d) as [l ->]. by split. Qed.
Lemma twin_intx d : twin d (update_intx_status d).
Proof.
  unfold update_intx_status. destruct (negb _); [|apply twin_refl]. cbv zeta. split; [done|done|apply length_arr_set|].
  intros a Ha. unfold cfg8. simpl config. apply arr_get_set_ne; unfold PCI_STATUS; lia.
Qed.
Lemma twin_bar above d addr val d' : msix_ok d -> 0 <= addr -> pci_write_bar above d addr val = Some d' -> twin d d'.
Proof.
  intros Hok Ha. unfold pci_write_bar. cbv zeta. destruct (Z.ltb_spec (pci_bar_reg d addr) 0) as [|Hr]; [done|].
  destruct (bar_reg_range d addr Hr Ha) as (H1 & H2 & _).
  assert (Hput : forall v, twin d (pci_update_mappings above (d <| config := cfg_put (config d) addr (put_le32 v) |>))).
  { intros v. eapply twin_trans; [|apply twin_update]. split; [done|done| |]; simpl config.
    - by rewrite length_cfg_put.
    - intros a Hb. apply cfg8_put_out; [lia|lia|]. simpl. lia. }
  repeat case_match; try done; intros E; injection E as <-; apply Hput.
Qed.

(** The guest lifts the function mask only of a capability it leaves enabled. *)
Definition lift_guard (d d' : PCIFunc) : Prop := MaskedAll d = true -> MaskedAll d' = false -> msix_Enabled d' = true.

(** The bytes are written, and a lifted mask acted on. *)
Lemma write_good d c (o : msix_op) : length c = 4096%nat -> msix_inv d -> (forall v, o <> MPost v) ->
  let d1 := with_config d c in
  let d2 := if MaskedAll d && negb (MaskedAll d1) then FunctionMaskLifted d1 else d1 in
  msix_ok d2 /\ MaskedAll d2 = MaskedAll d1 /\ msix_Enabled d2 = msix_Enabled d1 /\
  (lift_guard d d2 -> msix_inv d2 /\ delivered (want d o) d d2).
Proof.
  intros Hl [Hok Hpm] Ho d1 d2. assert (Hok1 : msix_ok d1) by (destruct Hok; by split).
  assert (Hw : forall v, want d o v -> pba_bit (msix d1) v = true) by (intros v [?|E]; [done|by destruct (Ho v)]).
  unfold d2. destruct (MaskedAll d) eqn:Ed, (MaskedAll d1) eqn:E1; cbn [andb negb].
  2: { destruct (msix_Enabled d1) eqn:Een.
    - destruct (lifted_delivers d1 Hok1 E1 Een) as (Hs & Hp & new & E & H1 & H2).
      pose proof (same_msix_ok _ _ Hs Hok1) as Hok2. destruct (same_msix_masked _ _ 0 Hs) as (_ & _ & _ & -> & ->).
      split_and!; [done|done|done|]. intros _. split; [by split|]. exists new. split_and!; [done| |].
      + intros Hm v Hv Hwv. apply H1; [done|done|by apply Hw].
      + intros x Hx. destruct (H2 x Hx) as (v & Hv & Hpv & ->). exists v. split_and!; [lia..|by left|done].
    - unfold FunctionMaskLifted. rewrite Een. cbn [negb]. split_and!; [done|done|done|]. intros Hg. by rewrite (Hg Ed E1) in Een. }
  all: split_and!; [done|done|done|]; intros _; (split; [split; [done|]|by apply delivered_none; [|intros v _; apply Hw]]).
  all: intros v Hv Hpv; pose proof (Hpm v Hv Hpv) as Hmv; unfold masked in *; rewrite Ed in Hmv; rewrite E1; simpl in *; done.
Qed.

Lemma config_good d above s below addr data n : 0 <= addr -> msix_inv d ->
  let o := MConfig above s below addr data n in
  lift_guard d (msix_step d o) -> msix_good o d (msix_step d o).
Proof.
  intros Ha Hinv o. unfold msix_good, o. cbn [msix_step pci_device_config_write].
  assert (Hnone : delivered (want d o) d d) by (apply delivered_none; [done|]; intros v _ [?|[=]]; done).
  destruct (if _ && _ then pci_write_bar above d addr data else None) as [f|] eqn:Eb.
  { intros _. cbn [node_func]. apply (twin_good _ d d f); [apply Hinv| |done].
    destruct (_ && _); [by eapply twin_bar; [apply Hinv| |]|done]. }
  cbv zeta. pose proof (mx_cap d (proj1 Hinv)) as Hcap. replace (0 <=? fCapOffset (msix d)) with true by (symmetry; apply Z.leb_le; lia).
  rewrite andb_true_l. destruct (write_bytes_frame d addr data (Z.to_nat (Z.shiftl 1 (Z.of_nat n))) (mx_config d (proj1 Hinv)) Ha)
    as (c & -> & Hl & _). destruct (write_good d c o Hl Hinv ltac:(done)) as (Hok2 & _ & _ & H2).
  set (d2 := if MaskedAll d && _ then _ else _) in *. cbn [node_func].
  set (d3 := if covers PCI_COMMAND _ _ then _ else _). set (d4 := if covers (PCI_COMMAND + 1) _ _ then _ else _).
  assert (twin d2 d4) as Ht.
  { assert (Hif : forall b e e', twin e e' -> twin e (if b : bool then e' else e)) by (intros []; intros; [done|apply twin_refl]).
    apply (twin_trans d2 d3); apply Hif; [apply twin_update|apply twin_intx]. }
  intros Hg. apply (twin_good _ d d2 d4 Hok2 Ht), H2. unfold lift_guard in *.
  destruct (twin_ctrl d2 d4 Hok2 (tw_msix _ _ Ht)) as [<- <-]; [intros a ?; apply (tw_bytes _ _ Ht); lia|done].
Qed.

(** * Reachable functions *)

Definition msix_guard (d : PCIFunc) (o : msix_op) : Prop :=
  match o with
  | MPost _ => True
  | MTable offset _ _ => 0 <= offset
  | MConfig _ _ _ addr _ _ => 0 <= addr /\ lift_guard d (msix_step d o)
  end.
Inductive msix_reach : PCIFunc -> Prop :=
| msix_reach_init f d bar count tab pba : length (config f) = 4096%nat -> 0x40 <= next_cap_offset f -> 0 < count ->
    msix_Init f true bar count tab pba = (d, true) -> msix_reach d
| msix_reach_step d o : msix_reach d -> msix_guard d o -> msix_reach (msix_step d o).

Lemma msix_step_good d o : msix_inv d -> msix_guard d o -> msix_good o d (msix_step d o).
Proof.
  intros Hi. destruct o as [v|offset val n|above s below addr data n]; cbn [msix_guard].
  - intros _. by apply post_good.
  - intros Ho. by apply table_good.
  - intros [Ha Hg]. by apply config_good.
Qed.

Lemma msix_Init_inv f d bar count tab pba : length (config f) = 4096%nat -> 0x40 <= next_cap_offset f -> 0 < count ->
  msix_Init f true bar count tab pba = (d, true) -> msix_inv d.
Proof.
  intros Hl Hc Hn. unfold msix_Init. cbn [negb]. destruct (pci_add_capability f _) as [[f1 off]|] eqn:E; [|done].
  cbv zeta. intros Ed. injection Ed as <-. unfold pci_add_capability in E. cbv zeta in E.
  destruct (Z.ltb_spec PCI_CONFIG_SIZE (next_cap_offset f + Z.of_nat (length (msix_cap bar count tab pba)))) as [|Hsz]; [done|].
  simpl in Hsz. unfold PCI_CONFIG_SIZE in Hsz. injection E as <- <-. split.
  - split; simpl; [|lia|done|by rewrite length_replicate|by rewrite length_replicate].
    by rewrite !length_arr_set, length_cfg_put, length_arr_set.
  - intros v _ Hp. unfold pba_bit in Hp. simpl in Hp. unfold arr_get in Hp. rewrite nth_lookup in Hp.
    pose proof (Z.mod_pos_bound v 32 ltac:(lia)). rewrite get_bit_testbit in Hp by lia.
    destruct (_ !! _) as [x|] eqn:Ex; [apply lookup_replicate in Ex as [-> _]|]; by rewrite Z.bits_0 in Hp.
Qed.

Lemma msix_reach_inv d : msix_reach d -> msix_inv d.
Proof. induction 1; [by eapply msix_Init_inv|by apply msix_step_good]. Qed.


(** A function with two vectors: the guest enables MSI-X and bus mastering,
    programs and masks vector 1, and the device posts it. *)
Definition msix_card : PCIFunc :=
  (msix_Init (pci_register_device_type 8 0x1234 0x5678 1 0x0200 0 None 0 0x40) true 0 2 0 0x800).1.
Definition msix_setup : list msix_op :=
  [MConfig [] false [] 0x40 0x80000000 2; MConfig [] false [] 4 0x0004 1; MTable 16 0xfee01000 2; MTable 24 0x31 2; MTable 28 1 2;
   MPost 1].
Definition msix_posted : PCIFunc := foldl msix_step msix_card msix_setup.

Lemma msix_setup_reach : msix_reach msix_posted.
Proof.
  unfold msix_posted, msix_setup. cbn [foldl]. repeat apply msix_reach_step.
  - eapply (msix_reach_init (pci_register_device_type 8 0x1234 0x5678 1 0x0200 0 None 0 0x40) _ 0 2 0 0x800); [done|done|done|].
    by vm_compute.
  - split; [lia|]. intros E. vm_compute in E. discriminate E.
  - split; [lia|]. intros E. vm_compute in E. discriminate E.
  - done.
  - done.
  - done.
  - done.
Qed.


(** Without the guard a vector can stay pending though nothing masks it: the
    guest clears the enable and the function mask in one write, and sets the
    enable in a second. *)
Example msix_stranded :
  let d := foldl msix_step msix_card [MConfig [] false [] 4 0x0004 1; MConfig [] false [] 0x40 0xc0000000 2; MPost 1;
    MConfig [] false [] 0x40 0 2; MConfig [] false [] 0x40 0x80000000 2] in
  (pba_bit (msix d) 1, masked d 1, msix_Enabled d, sent d) = (true, false, true, []).
Proof. by vm_compute. Qed.
