(* ===== verification/Virtio.v ===== *)
(** Virtio devices: [src/bus/virtio/virtio.h], [virtio.cpp].

    The rings, descriptor chains, feature negotiation and the two register
    layouts.  Guest memory is reached through the transport's [GetRamPtr]
    (the interface [GuestRam]) and host memory is a function from addresses to
    bytes; the host is little endian.  A device type is the record of the
    virtual methods ([VIRTIOType]) over its own state.  Fences order the
    accesses of other processors and are left out. *)

From stdpp Require Import base numbers list.
From S2P Require Import Prelude Bits Cutils Pci.
Local Open Scope Z_scope.

Definition VIRTIO_PAGE_SIZE : Z := 4096.
Definition MAX_QUEUE_NUM : Z := 32.
Definition MAX_QUEUE : nat := 8.
Definition VIRTIO_F_VERSION_1 : Z := Z.shiftl 1 32.
Definition VIRTIO_F_INDIRECT_DESC : Z := Z.shiftl 1 28.
Definition VIRTIO_F_EVENT_IDX : Z := Z.shiftl 1 29.
Definition VRING_AVAIL_F_NO_INTERRUPT : Z := 1.
Definition VIRTIO_MAX_INDIRECT : Z := 1024.
Definition VIRTIO_STATUS_DRIVER_OK : Z := 0x04.
Definition VIRTIO_STATUS_FEATURES_OK : Z := 0x08.
Definition VIRTIO_STATUS_NEEDS_RESET : Z := 0x40.
Definition VIRTIO_INT_USED_RING : Z := 1.
Definition VIRTIO_INT_CONFIG : Z := 2.
Definition VRING_DESC_F_NEXT : Z := 1.
Definition VRING_DESC_F_WRITE : Z := 2.
Definition VRING_DESC_F_INDIRECT : Z := 4.
Definition INT_MAX : Z := 2 ^ 31 - 1.

(** * Guest memory *)

(** [VIRTIOTransport::GetRamPtr]: the host address of a guest byte, for
    reading or for writing. *)
Class GuestRam := ram_ptr : Z -> bool -> option Z.
(** The mapping is valid for one page. *)
Class GuestPages (R : GuestRam) : Prop := ram_page : forall a rw p k,
  ram_ptr a rw = Some p -> 0 <= k -> a mod 4096 + k < 4096 -> ram_ptr (a + k) rw = Some (p + k).

Definition host_mem := Z -> Z.
Fixpoint load (mem : host_mem) (p : Z) (n : nat) : list Z :=
  match n with O => [] | S n => u8 (mem p) :: load mem (p + 1) n end.
Fixpoint store (mem : host_mem) (p : Z) (bytes : list Z) : host_mem :=
  match bytes with
  | [] => mem
  | b :: bytes => store (fun a => if a =? p then b else mem a) (p + 1) bytes
  end.

Section Memory.
Context `{R : GuestRam}.

Definition virtio_read16 (mem : host_mem) (addr : Z) : Z :=
  if nz (Z.land addr 1) then 0
  else match ram_ptr addr false with None => 0 | Some p => get_le16 (load mem p 2) end.
Definition virtio_write16 (mem : host_mem) (addr val : Z) : host_mem :=
  if nz (Z.land addr 1) then mem
  else match ram_ptr addr true with None => mem | Some p => store mem p (put_le16 val) end.
Definition virtio_write32 (mem : host_mem) (addr val : Z) : host_mem :=
  if nz (Z.land addr 3) then mem
  else match ram_ptr addr true with None => mem | Some p => store mem p (put_le32 val) end.

(** To the end of the page, or of the bytes. *)
Definition page_rest (addr count : Z) : Z := Z.min count (VIRTIO_PAGE_SIZE - Z.land addr (VIRTIO_PAGE_SIZE - 1)).

(** The bytes copied, or [None] for -1.  Every turn copies a byte at least, and
    a count is an [int]. *)
Definition virtio_memcpy_from_ram (mem : host_mem) (addr count : Z) : option (list Z) :=
  match while_fuel (2 ^ 31)%positive (fun '(buf, addr, count) =>
    if count <=? 0 then inr (Some buf)
    else
      let l := page_rest addr count in
      match ram_ptr addr false with
      | None => inr None
      | Some p => inl (buf ++ load mem p (Z.to_nat l), u64 (addr + l), count - l)
      end) ([], addr, count) with
  | inr r => r
  | inl _ => None
  end.

(** What was copied before a failure stays. *)
Definition virtio_memcpy_to_ram (mem : host_mem) (addr : Z) (buf : list Z) (count : Z) : host_mem * bool :=
  match while_fuel (2 ^ 31)%positive (fun '(mem, addr, buf, count) =>
    if count <=? 0 then inr (mem, true)
    else
      let l := page_rest addr count in
      match ram_ptr addr true with
      | None => inr (mem, false)
      | Some p => inl (store mem p (take (Z.to_nat l) buf), u64 (addr + l), drop (Z.to_nat l) buf, count - l)
      end) (mem, addr, buf, count) with
  | inr r => r
  | inl _ => (mem, false)
  end.

(** * Descriptor chains *)

Record VIRTIODesc := mkDesc { d_addr : Z; d_len : Z; d_flags : Z; d_next : Z }.
(** The structure as it lies in memory. *)
Definition desc_of_bytes (b : list Z) : VIRTIODesc :=
  mkDesc (get_le64 b) (get_le32 (drop 8 b)) (get_le16 (drop 12 b)) (get_le16 (drop 14 b)).
Definition desc_has (d : VIRTIODesc) (flag : Z) : bool := nz (Z.land (d_flags d) flag).

Record DescWalk := mkWalk { table : Z; table_size : Z; steps : Z; indirect : bool; desc : VIRTIODesc }.

(** [None] is -1.  The call for an indirect table is the last: [indirect] is
    set by then. *)
Fixpoint desc_walk_read (calls : nat) (mem : host_mem) (features : Z) (w : DescWalk) (idx : Z) : option DescWalk :=
  if table_size w <=? idx then None
  else if table_size w <? steps w + 1 then None
  else
    match virtio_memcpy_from_ram mem (u64 (table w + idx * 16)) 16 with
    | None => None
    | Some b =>
      let d := desc_of_bytes b in
      if negb (desc_has d VRING_DESC_F_INDIRECT) then Some (mkWalk (table w) (table_size w) (steps w + 1) (indirect w) d)
      else if indirect w || desc_has d VRING_DESC_F_NEXT || negb (nz (Z.land features VIRTIO_F_INDIRECT_DESC)) ||
              (d_len d =? 0) || nz (d_len d mod 16) || (VIRTIO_MAX_INDIRECT <? d_len d / 16) then None
      else
        match calls with
        | O => None
        | S calls => desc_walk_read calls mem features (mkWalk (d_addr d) (d_len d / 16) 0 true d) 0
        end
    end.

Definition desc0 : VIRTIODesc := mkDesc 0 0 0 0.
Definition desc_walk_start (mem : host_mem) (features qdesc qnum desc_idx : Z) : option DescWalk :=
  desc_walk_read 1 mem features (mkWalk qdesc qnum 0 false desc0) desc_idx.
(** [Some None] at the end of the chain, [None] when it is malformed. *)
Definition desc_walk_next (mem : host_mem) (features : Z) (w : DescWalk) : option (option DescWalk) :=
  if negb (desc_has (desc w) VRING_DESC_F_NEXT) then Some None
  else match desc_walk_read 1 mem features w (d_next (desc w)) with Some w => Some (Some w) | None => None end.

(** A walk ends within the queue's table and one indirect one. *)
Definition walk_fuel : positive := 2048.

(** One turn of the loop over [size[0]], [size[1]] and [writing]. *)
Definition size_step (rd wr : Z) (writing : bool) (d : VIRTIODesc) : option (Z * Z * bool) :=
  let is_write := desc_has d VRING_DESC_F_WRITE in
  if negb is_write && writing then None
  else
    let writing := is_write || writing in
    let rd := if writing then rd else rd + d_len d in
    let wr := if writing then wr + d_len d else wr in
    if INT_MAX <? (if writing then wr else rd) then None else Some (rd, wr, writing).
Definition size_turn (mem : host_mem) (features : Z) : DescWalk * Z * Z * bool -> DescWalk * Z * Z * bool + option (Z * Z) :=
  fun '(w, rd, wr, writing) =>
    match size_step rd wr writing (desc w) with
    | None => inr None
    | Some (rd, wr, writing) =>
      match desc_walk_next mem features w with
      | None => inr None
      | Some None => inr (Some (rd, wr))
      | Some (Some w) => inl (w, rd, wr, writing)
      end
    end.
Definition get_desc_rw_size (mem : host_mem) (features qdesc qnum desc_idx : Z) : option (Z * Z) :=
  match desc_walk_start mem features qdesc qnum desc_idx with
  | None => None
  | Some w =>
    match while_fuel walk_fuel (size_turn mem features) (w, 0, 0, false) with
    | inr r => r
    | inl _ => None
    end
  end.

(** The bytes of [buf] go to the writable part of the chain, or, without one,
    [count] bytes come from its readable part. *)
Definition find_write (mem : host_mem) (features : Z) (w : DescWalk) : option DescWalk :=
  match while_fuel walk_fuel (fun w =>
    if desc_has (desc w) VRING_DESC_F_WRITE then inr (Some w)
    else match desc_walk_next mem features w with Some (Some w) => inl w | _ => inr None end) w with
  | inr r => r
  | inl _ => None
  end.
Definition find_offset (mem : host_mem) (features : Z) (write : bool) (w : DescWalk) (offset : Z) : option (DescWalk * Z) :=
  match while_fuel walk_fuel (fun '(w, offset) =>
    if negb (Bool.eqb (desc_has (desc w) VRING_DESC_F_WRITE) write) then inr None
    else if u32 offset <? d_len (desc w) then inr (Some (w, offset))
    else match desc_walk_next mem features w with Some (Some w') => inl (w', sw 32 (offset - d_len (desc w))) | _ => inr None end)
    (w, offset) with
  | inr r => r
  | inl _ => None
  end.

Record copy_state := mkCopy { c_mem : host_mem; c_walk : DescWalk; c_offset : Z; c_count : Z; c_buf : list Z; c_read : list Z }.
Definition copy_turn (features : Z) (write : bool) (c : copy_state) : copy_state + host_mem * option (list Z) :=
  let d := desc (c_walk c) in
  let l := Z.min (c_count c) (sw 32 (d_len d - c_offset c)) in
  let a := u64 (d_addr d + c_offset c) in
  match (if write then let '(mem, ok) := virtio_memcpy_to_ram (c_mem c) a (c_buf c) l in (mem, if ok then Some [] else None)
         else (c_mem c, virtio_memcpy_from_ram (c_mem c) a l)) with
  | (mem, None) => inr (mem, None)
  | (mem, Some b) =>
    let count := c_count c - l in
    let offset := c_offset c + l in
    let buf := drop (Z.to_nat l) (c_buf c) in
    let read := c_read c ++ b in
    if count =? 0 then inr (mem, Some read)
    else if u32 offset =? d_len d then
      match desc_walk_next mem features (c_walk c) with
      | Some (Some w) =>
        if negb (Bool.eqb (desc_has (desc w) VRING_DESC_F_WRITE) write) then inr (mem, None)
        else inl (mkCopy mem w 0 count buf read)
      | _ => inr (mem, None)
      end
    else inl (mkCopy mem (c_walk c) offset count buf read)
  end.

Definition memcpy_to_from_queue (mem : host_mem) (features qdesc qnum desc_idx offset count : Z) (write : bool) (buf : list Z) :
    host_mem * option (list Z) :=
  if count =? 0 then (mem, Some [])
  else
    match (w ← desc_walk_start mem features qdesc qnum desc_idx;
           w ← (if write then find_write mem features w else Some w);
           find_offset mem features write w offset) with
    | None => (mem, None)
    | Some (w, offset) =>
      match while_fuel walk_fuel (copy_turn features write) (mkCopy mem w offset count buf []) with
      | inr r => r
      | inl c => (c_mem c, None)
      end
    end.
End Memory.

(** * The device *)

Record QueueState := mkQueue {
  ready : Z; num : Z; last_avail_idx : Z; msix_vector : Z; desc_addr : Z; avail_addr : Z; used_addr : Z; manual_recv : bool;
}.
#[export] Instance eta_QueueState : Eta QueueState := fun q =>
  mkQueue (ready q) (num q) (last_avail_idx q) (msix_vector q) (desc_addr q) (avail_addr q) (used_addr q) (manual_recv q).
Definition queue0 : QueueState := mkQueue 0 0 0 0 0 0 0 false.

(** [pci_dev] carries the MSI-X state, absent on MMIO; [irq] is the level the
    interrupt line was last set to; [dev] is the state of the device type. *)
Record VIRTIODevice {T : Type} := mkVirtio {
  int_status : Z; status : Z; device_features_sel : Z; driver_features_sel : Z; driver_features : Z; queue_sel : Z;
  num_queues : Z; queue : list QueueState; pci_dev : PCIFunc; config_msix_vector : Z; device_id : Z; vendor_id : Z;
  device_features : Z; config_space_size : Z; config_space : list Z; config_generation : Z; irq : bool;
  vmem : host_mem; dev : T;
}.
Arguments VIRTIODevice : clear implicits.
#[export] Instance eta_VIRTIODevice {T} : Eta (VIRTIODevice T) := fun s =>
  mkVirtio T (int_status s) (status s) (device_features_sel s) (driver_features_sel s) (driver_features s) (queue_sel s)
    (num_queues s) (queue s) (pci_dev s) (config_msix_vector s) (device_id s) (vendor_id s) (device_features s)
    (config_space_size s) (config_space s) (config_generation s) (irq s) (vmem s) (dev s).

(** The virtual methods of a device type. *)
Record VIRTIOType (T : Type) := mkType {
  RecvRequest : VIRTIODevice T -> Z -> Z -> Z -> Z -> VIRTIODevice T * Z;
  ManualQueueNotify : VIRTIODevice T -> Z -> VIRTIODevice T;
  ConfigWrite : VIRTIODevice T -> VIRTIODevice T;
  Reset : VIRTIODevice T -> VIRTIODevice T;
}.
Arguments RecvRequest {T} _ _ _ _ _ _.
Arguments ManualQueueNotify {T} _ _ _.
Arguments ConfigWrite {T} _ _.
Arguments Reset {T} _ _.

Section Device.
Context `{R : GuestRam} {T : Type} (ops : VIRTIOType T).

Definition virtio_offered_features (s : VIRTIODevice T) : Z :=
  Z.lor (Z.lor (Z.lor (device_features s) VIRTIO_F_INDIRECT_DESC) VIRTIO_F_EVENT_IDX) VIRTIO_F_VERSION_1.
Definition virtio_read_device_features (s : VIRTIODevice T) : Z :=
  if 2 <=? device_features_sel s then 0 else u32 (Z.shiftr (virtio_offered_features s) (32 * device_features_sel s)).
Definition virtio_write_driver_features (s : VIRTIODevice T) (val : Z) : VIRTIODevice T :=
  if nz (Z.land (status s) VIRTIO_STATUS_FEATURES_OK) then s
  else if driver_features_sel s =? 0 then s <| driver_features := Z.lor (Z.ldiff (driver_features s) 0xffffffff) val |>
  else if driver_features_sel s =? 1 then
    s <| driver_features := Z.lor (Z.land (driver_features s) 0xffffffff) (u64 (Z.shiftl val 32)) |>
  else s.

Definition get_queue (s : VIRTIODevice T) (i : Z) : QueueState := arr_get queue0 (queue s) i.
Definition set_queue (s : VIRTIODevice T) (i : Z) (q : QueueState) : VIRTIODevice T := s <| queue := arr_set (queue s) i q |>.

Definition reset_queue (q : QueueState) : QueueState :=
  mkQueue 0 MAX_QUEUE_NUM 0 PCI_MSIX_NO_VECTOR 0 0 0 (manual_recv q).
Definition virtio_reset (s : VIRTIODevice T) : VIRTIODevice T :=
  s <| status := 0 |> <| queue_sel := 0 |> <| device_features_sel := 0 |> <| driver_features_sel := 0 |>
    <| driver_features := 0 |> <| int_status := 0 |> <| config_msix_vector := PCI_MSIX_NO_VECTOR |>
    <| queue := map reset_queue (queue s) |>.

Definition virtio_raise_irq (s : VIRTIODevice T) (int_type vector : Z) : VIRTIODevice T :=
  if msix_Enabled (pci_dev s) then
    if negb (vector =? PCI_MSIX_NO_VECTOR) then s <| pci_dev := msix_Send (pci_dev s) vector |> else s
  else s <| int_status := Z.lor (int_status s) int_type |> <| irq := true |>.

Definition virtio_config_change_notify (s : VIRTIODevice T) : VIRTIODevice T :=
  let s := s <| config_generation := u32 (config_generation s + 1) |> in
  if nz (Z.land (status s) VIRTIO_STATUS_DRIVER_OK) then virtio_raise_irq s VIRTIO_INT_CONFIG (config_msix_vector s) else s.
Definition virtio_set_needs_reset (s : VIRTIODevice T) : VIRTIODevice T :=
  if nz (Z.land (status s) VIRTIO_STATUS_NEEDS_RESET) then s
  else virtio_config_change_notify (s <| status := Z.lor (status s) VIRTIO_STATUS_NEEDS_RESET |>).

(** [VIRTIODevice::VIRTIODevice]; [manual] are the queues the device type takes
    buffers from itself. *)
Definition virtio_init (id features space_size queues : Z) (manual : list bool) (func : PCIFunc) (mem : host_mem) (t : T) :
    VIRTIODevice T :=
  virtio_reset (mkVirtio T 0 0 0 0 0 0 queues (map (fun m => queue0 <| manual_recv := m |>) manual) func PCI_MSIX_NO_VECTOR
    id 0xffff features space_size (replicate 256 0) 0 false mem t).

(** ** Rings *)

Definition has_feature (s : VIRTIODevice T) (f : Z) : bool := nz (Z.land (driver_features s) f).
Definition virtio_avail_idx (s : VIRTIODevice T) (i : Z) : Z := virtio_read16 (vmem s) (u64 (avail_addr (get_queue s i) + 2)).
Definition virtio_used_notification_wanted (s : VIRTIODevice T) (q : QueueState) (new_idx : Z) : bool :=
  if negb (has_feature s VIRTIO_F_EVENT_IDX)
  then negb (nz (Z.land (virtio_read16 (vmem s) (avail_addr q)) VRING_AVAIL_F_NO_INTERRUPT))
  else
    let used_event := virtio_read16 (vmem s) (u64 (avail_addr q + 4 + num q * 2)) in
    u16 (new_idx - used_event - 1) <? 1.
Definition virtio_consume_desc (s : VIRTIODevice T) (i desc_idx desc_len : Z) : VIRTIODevice T :=
  let q := get_queue s i in
  let index := virtio_read16 (vmem s) (u64 (used_addr q + 2)) in
  let addr := u64 (used_addr q + 4 + Z.land index (num q - 1) * 8) in
  let s := s <| vmem := virtio_write32 (vmem s) addr desc_idx |> in
  let s := s <| vmem := virtio_write32 (vmem s) (u64 (addr + 4)) desc_len |> in
  let s := s <| vmem := virtio_write16 (vmem s) (u64 (used_addr q + 2)) (u16 (index + 1)) |> in
  if virtio_used_notification_wanted s q (u16 (index + 1)) then virtio_raise_irq s VIRTIO_INT_USED_RING (msix_vector q) else s.

(** The device may take buffers from the queue. *)
Definition queue_usable (s : VIRTIODevice T) (i : Z) : bool :=
  nz (Z.land (status s) VIRTIO_STATUS_DRIVER_OK) && negb (nz (Z.land (status s) VIRTIO_STATUS_NEEDS_RESET)) &&
  nz (ready (get_queue s i)).
(** The head of the next buffer, if any; looking publishes what was seen. *)
Definition virtio_queue_peek (s : VIRTIODevice T) (i : Z) : VIRTIODevice T * option Z :=
  let q := get_queue s i in
  if negb (queue_usable s i) then (s, None)
  else
    let avail_idx := virtio_avail_idx s i in
    let '(s, avail_idx) :=
      if has_feature s VIRTIO_F_EVENT_IDX then
        let s := s <| vmem := virtio_write16 (vmem s) (u64 (used_addr q + 4 + num q * 8)) avail_idx |> in
        (s, virtio_avail_idx s i)
      else (s, avail_idx) in
    if last_avail_idx q =? avail_idx then (s, None)
    else (s, Some (virtio_read16 (vmem s) (u64 (avail_addr q + 4 + Z.land (last_avail_idx q) (num q - 1) * 2)))).
Definition virtio_queue_pop (s : VIRTIODevice T) (i : Z) : VIRTIODevice T :=
  let q := get_queue s i in set_queue s i (q <| last_avail_idx := u16 (last_avail_idx q + 1) |>).

(** One turn: [inr] leaves the loop. *)
Definition notify_turn (i : Z) (s : VIRTIODevice T) : VIRTIODevice T + VIRTIODevice T :=
  match virtio_queue_peek s i with
  | (s, None) => inr s
  | (s, Some desc_idx) =>
    let q := get_queue s i in
    match get_desc_rw_size (vmem s) (driver_features s) (desc_addr q) (num q) desc_idx with
    | None => inr (virtio_set_needs_reset s)
    | Some (read_size, write_size) =>
      let '(s, ret) := RecvRequest ops s i desc_idx read_size write_size in
      if ret <? 0 then inr s else inl (virtio_queue_pop s i)
    end
  end.
(** An index is 16 bits: as long as the requests leave it alone, it is reached
    within 2^16 turns. *)
Definition queue_notify (s : VIRTIODevice T) (i : Z) : VIRTIODevice T :=
  match while_fuel (2 ^ 16)%positive (notify_turn i) s with inl s | inr s => s end.
Definition queue_notify_any (s : VIRTIODevice T) (i : Z) : VIRTIODevice T :=
  if negb (queue_usable s i) then s
  else if manual_recv (get_queue s i) then ManualQueueNotify ops s i
  else queue_notify s i.

Definition virtio_write_status (s : VIRTIODevice T) (val : Z) : VIRTIODevice T :=
  let old := status s in
  if val =? 0 then Reset ops (virtio_reset (s <| status := 0 |> <| irq := false |>))
  else
    let val := if nz (Z.land val VIRTIO_STATUS_FEATURES_OK) && negb (nz (Z.land old VIRTIO_STATUS_FEATURES_OK)) &&
                  nz (Z.ldiff (driver_features s) (virtio_offered_features s))
               then Z.ldiff val VIRTIO_STATUS_FEATURES_OK else val in
    let s := s <| status := val |> in
    if nz (Z.land val VIRTIO_STATUS_DRIVER_OK) && negb (nz (Z.land old VIRTIO_STATUS_DRIVER_OK))
    then for_each (Z.to_nat (num_queues s)) 0 (fun i s => queue_notify_any s i) s
    else s.

(** ** Registers *)

Definition virtio_config_read (s : VIRTIODevice T) (offset : Z) (size_log2 : nat) : Z :=
  if config_space_size s <? u32 (offset + Z.shiftl 1 (Z.of_nat size_log2)) then 0
  else
    match size_log2 with
    | 0%nat => cfg8 (config_space s) offset
    | 1%nat => cfg16 (config_space s) offset
    | _ => cfg32 (config_space s) offset
    end.
Definition virtio_config_write (s : VIRTIODevice T) (offset val : Z) (size_log2 : nat) : VIRTIODevice T :=
  if config_space_size s <? u32 (offset + Z.shiftl 1 (Z.of_nat size_log2)) then s
  else
    let bytes := match size_log2 with 0%nat => [u8 val] | 1%nat => put_le16 (u16 val) | _ => put_le32 val end in
    ConfigWrite ops (s <| config_space := cfg_put (config_space s) offset bytes |>).

(** The queue the driver selected, if the device has it. *)
Definition virtio_selected_queue (s : VIRTIODevice T) : option QueueState :=
  if queue_sel s <? num_queues s then Some (get_queue s (queue_sel s)) else None.
Definition sel_read (s : VIRTIODevice T) (f : QueueState -> Z) : Z :=
  match virtio_selected_queue s with Some q => f q | None => 0 end.
Definition sel_write (s : VIRTIODevice T) (f : QueueState -> QueueState) : VIRTIODevice T :=
  match virtio_selected_queue s with Some q => set_queue s (queue_sel s) (f q) | None => s end.
Definition set_low32 (a val : Z) : Z := set_bits 64 a 0 32 val.
Definition set_high32 (a val : Z) : Z := set_bits 64 a 32 32 val.
Definition virtio_set_queue_num (s : VIRTIODevice T) (val : Z) : VIRTIODevice T :=
  sel_write s (fun q =>
    if (0 <? val) && (val <=? MAX_QUEUE_NUM) && (Z.land val (val - 1) =? 0) then q <| num := val |> else q).

(** [VIRTIOMMIOTransport] *)
Definition mmio_read (s : VIRTIODevice T) (offset : Z) (size_log2 : nat) : Z :=
  if 0x100 <=? offset then virtio_config_read s (offset - 0x100) size_log2
  else if negb (Nat.eqb size_log2 2) then 0
  else if offset =? 0x000 then 0x74726976
  else if offset =? 0x004 then 2
  else if offset =? 0x008 then device_id s
  else if offset =? 0x00c then vendor_id s
  else if offset =? 0x010 then virtio_read_device_features s
  else if offset =? 0x014 then device_features_sel s
  else if offset =? 0x030 then queue_sel s
  else if offset =? 0x034 then sel_read s (fun _ => MAX_QUEUE_NUM)
  else if offset =? 0x038 then sel_read s num
  else if offset =? 0x080 then sel_read s (fun q => u32 (desc_addr q))
  else if offset =? 0x090 then sel_read s (fun q => u32 (avail_addr q))
  else if offset =? 0x0a0 then sel_read s (fun q => u32 (used_addr q))
  else if offset =? 0x084 then sel_read s (fun q => u32 (Z.shiftr (desc_addr q) 32))
  else if offset =? 0x094 then sel_read s (fun q => u32 (Z.shiftr (avail_addr q) 32))
  else if offset =? 0x0a4 then sel_read s (fun q => u32 (Z.shiftr (used_addr q) 32))
  else if offset =? 0x044 then sel_read s ready
  else if offset =? 0x060 then int_status s
  else if offset =? 0x070 then status s
  else if (offset =? 0x0b0) || (offset =? 0x0b4) then 0xffffffff
  else if offset =? 0x0fc then config_generation s
  else 0.


Definition mmio_write (s : VIRTIODevice T) (offset val : Z) (size_log2 : nat) : VIRTIODevice T :=
  let val32 := u32 val in
  if 0x100 <=? offset then virtio_config_write s (offset - 0x100) val32 size_log2
  else if negb (Nat.eqb size_log2 2) then s
  else if offset =? 0x014 then s <| device_features_sel := val32 |>
  else if offset =? 0x024 then s <| driver_features_sel := val32 |>
  else if offset =? 0x020 then virtio_write_driver_features s val32
  else if offset =? 0x030 then s <| queue_sel := val32 |>
  else if offset =? 0x038 then virtio_set_queue_num s val32
  else if offset =? 0x080 then sel_write s (fun q => q <| desc_addr := set_low32 (desc_addr q) val32 |>)
  else if offset =? 0x090 then sel_write s (fun q => q <| avail_addr := set_low32 (avail_addr q) val32 |>)
  else if offset =? 0x0a0 then sel_write s (fun q => q <| used_addr := set_low32 (used_addr q) val32 |>)
  else if offset =? 0x084 then sel_write s (fun q => q <| desc_addr := set_high32 (desc_addr q) val32 |>)
  else if offset =? 0x094 then sel_write s (fun q => q <| avail_addr := set_high32 (avail_addr q) val32 |>)
  else if offset =? 0x0a4 then sel_write s (fun q => q <| used_addr := set_high32 (used_addr q) val32 |>)
  else if offset =? 0x070 then virtio_write_status s val32
  else if offset =? 0x044 then sel_write s (fun q => q <| ready := Z.land val 1 |>)
  else if offset =? 0x050 then if val <? num_queues s then queue_notify_any s val else s
  else if offset =? 0x064 then
    let s := s <| int_status := Z.ldiff (int_status s) val |> in
    if int_status s =? 0 then s <| irq := false |> else s
  else s.

(** [VIRTIOPCITransport]; reading the interrupt status clears it. *)
Definition pci_common_read (s : VIRTIODevice T) (offset : Z) (size_log2 : nat) : Z :=
  match size_log2 with
  | 2%nat =>
    if offset =? 0x004 then virtio_read_device_features s
    else if offset =? 0x000 then device_features_sel s
    else if offset =? 0x008 then driver_features_sel s
    else if offset =? 0x00c then
      if driver_features_sel s <? 2 then u32 (Z.shiftr (driver_features s) (32 * driver_features_sel s)) else 0
    else if offset =? 0x020 then sel_read s (fun q => u32 (desc_addr q))
    else if offset =? 0x028 then sel_read s (fun q => u32 (avail_addr q))
    else if offset =? 0x030 then sel_read s (fun q => u32 (used_addr q))
    else if offset =? 0x024 then sel_read s (fun q => u32 (Z.shiftr (desc_addr q) 32))
    else if offset =? 0x02c then sel_read s (fun q => u32 (Z.shiftr (avail_addr q) 32))
    else if offset =? 0x034 then sel_read s (fun q => u32 (Z.shiftr (used_addr q) 32))
    else 0
  | 1%nat =>
    if offset =? 0x012 then num_queues s
    else if offset =? 0x016 then queue_sel s
    else if offset =? 0x018 then sel_read s num
    else if offset =? 0x01c then sel_read s ready
    else if offset =? 0x01e then 0
    else if offset =? 0x010 then config_msix_vector s
    else if offset =? 0x01a then match virtio_selected_queue s with Some q => msix_vector q | None => PCI_MSIX_NO_VECTOR end
    else 0
  | 0%nat =>
    if offset =? 0x014 then status s
    else if offset =? 0x015 then Z.land (config_generation s) 0xff
    else 0
  | _ => 0
  end.
Definition pci_read (s : VIRTIODevice T) (offset1 : Z) (size_log2 : nat) : VIRTIODevice T * Z :=
  let offset := get_bits 32 offset1 0 12 in
  let page := Z.shiftr offset1 12 in
  if page =? 0 then (s, pci_common_read s offset size_log2)
  else if page =? 1 then
    if (offset =? 0) && Nat.eqb size_log2 0 then (s <| int_status := 0 |> <| irq := false |>, int_status s) else (s, 0)
  else if page =? 2 then (s, virtio_config_read s offset size_log2)
  else if page =? 4 then (s, TableRead (pci_dev s) offset size_log2)
  else if page =? 5 then (s, PbaRead (pci_dev s) offset size_log2)
  else (s, 0).

Definition pci_common_write (s : VIRTIODevice T) (offset val : Z) (size_log2 : nat) : VIRTIODevice T :=
  let val32 := u32 val in
  match size_log2 with
  | 2%nat =>
    if offset =? 0x000 then s <| device_features_sel := val32 |>
    else if offset =? 0x008 then s <| driver_features_sel := val32 |>
    else if offset =? 0x00c then virtio_write_driver_features s val32
    else if offset =? 0x020 then sel_write s (fun q => q <| desc_addr := set_low32 (desc_addr q) val32 |>)
    else if offset =? 0x028 then sel_write s (fun q => q <| avail_addr := set_low32 (avail_addr q) val32 |>)
    else if offset =? 0x030 then sel_write s (fun q => q <| used_addr := set_low32 (used_addr q) val32 |>)
    else if offset =? 0x024 then sel_write s (fun q => q <| desc_addr := set_high32 (desc_addr q) val32 |>)
    else if offset =? 0x02c then sel_write s (fun q => q <| avail_addr := set_high32 (avail_addr q) val32 |>)
    else if offset =? 0x034 then sel_write s (fun q => q <| used_addr := set_high32 (used_addr q) val32 |>)
    else s
  | 1%nat =>
    if offset =? 0x016 then s <| queue_sel := val32 |>
    else if offset =? 0x018 then virtio_set_queue_num s val32
    else if offset =? 0x01c then sel_write s (fun q => q <| ready := Z.land val 1 |>)
    else if offset =? 0x010 then s <| config_msix_vector := AcceptVector (pci_dev s) val32 |>
    else if offset =? 0x01a then sel_write s (fun q => q <| msix_vector := AcceptVector (pci_dev s) val32 |>)
    else s
  | 0%nat => if offset =? 0x014 then virtio_write_status s val32 else s
  | _ => s
  end.
Definition pci_write (s : VIRTIODevice T) (offset1 val : Z) (size_log2 : nat) : VIRTIODevice T :=
  let offset := get_bits 32 offset1 0 12 in
  let page := Z.shiftr offset1 12 in
  if page =? 0 then pci_common_write s offset val size_log2
  else if page =? 2 then virtio_config_write s offset (u32 val) size_log2
  else if page =? 4 then s <| pci_dev := TableWrite (pci_dev s) offset (u32 val) size_log2 |>
  else if page =? 3 then if val <? num_queues s then queue_notify_any s val else s
  else s.

(** The window of the configuration access capability, at [cap] of the
    function: the width and the offset of the access it names. *)
Definition PciCfgAccess (s : VIRTIODevice T) (cap : Z) : option (nat * Z) :=
  let get off n := pci_device_get_config (pci_dev s) (cap + off) n in
  let bar := get 4 0%nat in
  let len := get 12 2%nat in
  let offset := get 8 2%nat in
  if negb (bar =? 4) || negb ((len =? 1) || (len =? 2) || (len =? 4)) || nz (offset mod len) || (0x8000 <=? offset) then None
  else Some (if len =? 1 then 0%nat else if len =? 2 then 1%nat else 2%nat, offset).
Definition ConfigRead (s : VIRTIODevice T) (cap : Z) : VIRTIODevice T :=
  match PciCfgAccess s cap with
  | None => s
  | Some (len_log2, offset) =>
    let '(s, val) := pci_read s offset len_log2 in
    for_each (Z.to_nat (Z.shiftl 1 (Z.of_nat len_log2))) 0 (fun i s =>
      s <| pci_dev := (pci_dev s) <| config := arr_set (config (pci_dev s)) (cap + 16 + i) (get_bits 32 (u32 val) (8 * i) 8) |> |>) s
  end.
Definition ConfigWritten (s : VIRTIODevice T) (cap : Z) : VIRTIODevice T :=
  match PciCfgAccess s cap with
  | None => s
  | Some (len_log2, offset) =>
    let val := pci_device_get_config (pci_dev s) (cap + 16) 2 in
    pci_write s offset (get_bits 32 val 0 (Z.shiftl 8 (Z.of_nat len_log2))) len_log2
  end.
End Device.
