(* ===== verification/VirtioWalk.v ===== *)
(** Descriptor chains: [desc_walk_read], [desc_walk_next] and
    [get_desc_rw_size] of [src/bus/virtio/virtio.cpp] against the chains the
    virtio specification describes.  A chain is a finite derivation here, so a
    table with a loop has none; that the step counter of the code rejects just
    those is a counting argument on the indices visited. *)

From stdpp Require Import base numbers list.
From S2P Require Import Prelude Bits Cutils Virtio.
Local Open Scope Z_scope.

Section Walk.
Context `{R : GuestRam} (mem : host_mem) (features : Z).

Definition desc_at (t idx : Z) : option VIRTIODesc := desc_of_bytes <$> virtio_memcpy_from_ram mem (u64 (t + idx * 16)) 16.
Definition has_next (d : VIRTIODesc) : bool := desc_has d VRING_DESC_F_NEXT.
Definition has_write (d : VIRTIODesc) : bool := desc_has d VRING_DESC_F_WRITE.
Definition has_indirect (d : VIRTIODesc) : bool := desc_has d VRING_DESC_F_INDIRECT.

(** A descriptor may name a table: [n] descriptors at its address. *)
Definition names_table (d : VIRTIODesc) (n : Z) : Prop :=
  has_indirect d = true /\ has_next d = false /\ nz (Z.land features VIRTIO_F_INDIRECT_DESC) = true /\
  0 < n <= VIRTIO_MAX_INDIRECT /\ d_len d = 16 * n.

(** The buffers of the chain that starts at an index of a table of [sz]
    descriptors, and the indices it takes of that table. *)
Inductive chain : bool -> Z -> Z -> Z -> list Z -> list VIRTIODesc -> Prop :=
| chain_end inner t sz idx d : 0 <= idx < sz -> desc_at t idx = Some d -> has_indirect d = false -> has_next d = false ->
    chain inner t sz idx [idx] [d]
| chain_next inner t sz idx d trail ds : 0 <= idx < sz -> desc_at t idx = Some d -> has_indirect d = false -> has_next d = true ->
    chain inner t sz (d_next d) trail ds -> chain inner t sz idx (idx :: trail) (d :: ds)
| chain_table t sz idx d n trail ds : 0 <= idx < sz -> desc_at t idx = Some d -> names_table d n ->
    chain true (d_addr d) n 0 trail ds -> chain false t sz idx [idx] ds.

Lemma names_table_unique d n n' : names_table d n -> names_table d n' -> n = n'.
Proof. intros (_ & _ & _ & _ & E) (_ & _ & _ & _ & E'). lia. Qed.

(** A table has one chain from an index. *)
Lemma chain_unique inner t sz idx trail ds : chain inner t sz idx trail ds ->
  forall trail' ds', chain inner t sz idx trail' ds' -> trail = trail' /\ ds = ds'.
Proof.
  induction 1 as [inner t sz idx d Hi Hd Hind Hn|inner t sz idx d trail ds Hi Hd Hind Hn Hc IH|t sz idx d n trail ds Hi Hd Hnt Hc IH];
    intros trail' ds' Hc'; inversion Hc' as [? ? ? ? d' ? Hd' Hind' Hn'|? ? ? ? d' tr' dl' ? Hd' Hind' Hn' Hc2|? ? ? d' n' tr' dl' ? Hd' Hnt' Hc2];
    subst; rewrite Hd in Hd'; injection Hd' as <-; try congruence.
  - done.
  - destruct Hnt' as (? & _); congruence.
  - destruct (IH _ _ Hc2) as [-> ->]. done.
  - destruct Hnt' as (? & _); congruence.
  - destruct Hnt as (? & _); congruence.
  - destruct Hnt as (? & _); congruence.
  - rewrite (names_table_unique _ _ _ Hnt' Hnt) in Hc2. destruct (IH _ _ Hc2) as [_ ->]. done.
Qed.

(** A chain goes through every index of its trail. *)
Lemma chain_suffix inner t sz idx trail ds j : chain inner t sz idx trail ds -> j ∈ trail ->
  exists trail' ds', chain inner t sz j trail' ds' /\ (length trail' <= length trail)%nat.
Proof.
  induction 1 as [inner t sz idx d Hi Hd Hind Hn|inner t sz idx d trail ds Hi Hd Hind Hn Hc IH|t sz idx d n trail ds Hi Hd Hnt Hc IH]; intros Hj.
  - apply list_elem_of_singleton in Hj as ->. exists [idx], [d]. split; [by constructor|done].
  - apply elem_of_cons in Hj as [->|Hj].
    + exists (idx :: trail), (d :: ds). split; [by econstructor|done].
    + destruct (IH Hj) as (tr & dl & H1 & H2). exists tr, dl. split; [done|]. simpl. lia.
  - apply list_elem_of_singleton in Hj as ->. exists [idx], ds. split; [by econstructor|done].
Qed.

(** ... and so never through the same twice. *)
Lemma chain_nodup inner t sz idx trail ds : chain inner t sz idx trail ds -> NoDup trail /\ Forall (fun i => 0 <= i < sz) trail.
Proof.
  induction 1 as [inner t sz idx d Hi Hd Hind Hn|inner t sz idx d trail ds Hi Hd Hind Hn Hc [IH1 IH2]|t sz idx d n trail ds Hi Hd Hnt Hc IH].
  - split; [apply NoDup_singleton|by constructor].
  - split; [|by constructor]. apply NoDup_cons. split; [|done]. intros Hin.
    destruct (chain_suffix _ _ _ _ _ _ _ Hc Hin) as (tr & dl & H1 & H2).
    destruct (chain_unique inner t sz idx (idx :: trail) (d :: ds) ltac:(by econstructor) _ _ H1) as [E _].
    rewrite <- E in H2. simpl in H2. lia.
  - split; [apply NoDup_singleton|by constructor].
Qed.

Lemma nodup_bound (l : list Z) n : NoDup l -> Forall (fun i => 0 <= i < n) l -> Z.of_nat (length l) <= Z.max 0 n.
Proof.
  intros Hn Hf. assert (submseteq l (map Z.of_nat (seq 0 (Z.to_nat n)))) as Hs.
  { apply NoDup_submseteq; [done|]. intros x Hx. rewrite Forall_forall in Hf. pose proof (Hf x Hx).
    apply list_elem_of_fmap. exists (Z.to_nat x). split; [lia|]. apply elem_of_seq. lia. }
  apply submseteq_length in Hs. rewrite length_map, length_seq in Hs. lia.
Qed.

Lemma chain_bound inner t sz idx trail ds : chain inner t sz idx trail ds -> Z.of_nat (length trail) <= sz.
Proof.
  intros Hc. destruct (chain_nodup _ _ _ _ _ _ Hc) as [Hn Hf]. pose proof (nodup_bound _ _ Hn Hf).
  assert (0 < sz) by (inversion Hc; lia). lia.
Qed.

(** ** The walk of the code *)

Lemma le16_range b : Forall (inw 8) b -> inw 16 (get_le16 b).
Proof.
  intros Hb. assert (H : forall i, inw 8 (arr_get 0 b i)) by (intros i; apply (Forall_arr_get _ (inw 8)); [done|by apply inw_0]).
  unfold get_le16. apply inw_lor; [lia|apply (inw_mono 8); [lia|apply H]|].
  pose proof (H 1) as [? ?]. unfold inw. rewrite Z.shiftl_mul_pow2 by lia. lia.
Qed.
Lemma le32_range b : Forall (inw 8) b -> inw 32 (get_le32 b).
Proof.
  intros Hb. assert (H : forall i, inw 8 (arr_get 0 b i)) by (intros i; apply (Forall_arr_get _ (inw 8)); [done|by apply inw_0]).
  assert (Hs : forall i k, 0 <= k <= 24 -> inw 32 (Z.shiftl (arr_get 0 b i) k)).
  { intros i k Hk. destruct (H i). unfold inw. rewrite Z.shiftl_mul_pow2 by lia.
    assert (0 < 2 ^ k <= 2 ^ 24) by (split; [lia|apply Z.pow_le_mono_r; lia]). nia. }
  unfold get_le32. apply inw_lor; [lia| |by apply inw_uw]. apply inw_lor; [lia| |apply Hs; lia].
  apply inw_lor; [lia|apply (inw_mono 8); [lia|apply H]|apply Hs; lia].
Qed.

Lemma load_bytes p n : Forall (inw 8) (load mem p n).
Proof. revert p. induction n as [|n IH]; intros p; simpl; constructor; [by apply inw_uw|done]. Qed.
Lemma from_ram_bytes a n b : virtio_memcpy_from_ram mem a n = Some b -> Forall (inw 8) b.
Proof.
  unfold virtio_memcpy_from_ram. match goal with |- context [while_fuel ?k ?f ?s0] =>
    unshelve epose proof (while_fuel_inv (fun s => Forall (inw 8) s.1.1) (fun r => forall b, r = Some b -> Forall (inw 8) b) f
      _ k s0 (Forall_nil_2 _)) as Hi; [|destruct (while_fuel k f s0); [done|apply Hi]] end.
  intros [[buf a'] c] Hb. cbn [fst] in Hb. destruct (c <=? 0); [by intros ? [= <-]|].
  destruct (ram_ptr a' false); [|done]. apply Forall_app_2; [done|apply load_bytes].
Qed.

#[local] Opaque virtio_memcpy_from_ram.

(** The fields of a descriptor have their widths. *)
Lemma desc_at_range t idx d : desc_at t idx = Some d -> 0 <= d_len d < 2 ^ 32 /\ 0 <= d_next d < 2 ^ 16.
Proof.
  unfold desc_at. destruct (virtio_memcpy_from_ram _ _ _) as [b|] eqn:E; [|done]. intros [= <-]. apply from_ram_bytes in E. simpl.
  split; [apply le32_range|apply le16_range]; by apply Forall_drop.
Qed.

(** What lies behind the descriptor a walk is at. *)
Definition rest (w : DescWalk) (tl : list VIRTIODesc) : Prop :=
  if has_next (desc w) then exists trail, chain (indirect w) (table w) (table_size w) (d_next (desc w)) trail tl /\
                                     steps w + Z.of_nat (length trail) <= table_size w
  else tl = [].

(** The bounds every walk keeps, and the walks left to make: the measure that
    ends the loops. *)
Definition walk_ok (qnum : Z) (w : DescWalk) : Prop :=
  0 < steps w <= table_size w /\ (if indirect w then table_size w <= VIRTIO_MAX_INDIRECT else table_size w = qnum) /\
  0 <= d_len (desc w) < 2 ^ 32 /\ 0 <= d_next (desc w) < 2 ^ 16.
Definition walk_left (w : DescWalk) : Z := (if indirect w then 0 else 1025) + (table_size w - steps w).

Lemma names_table_dec d : negb (desc_has d VRING_DESC_F_NEXT || negb (nz (Z.land features VIRTIO_F_INDIRECT_DESC)) ||
    (d_len d =? 0) || nz (d_len d mod 16) || (VIRTIO_MAX_INDIRECT <? d_len d / 16)) = true ->
  0 <= d_len d -> has_indirect d = true -> names_table d (d_len d / 16).
Proof.
  rewrite !negb_orb, !andb_true_iff, !negb_true_iff, negb_false_iff. intros [[[[H1 H2] H3] H4] H5] Hl Hi.
  apply Z.eqb_neq in H3. unfold nz in H4. apply negb_false_iff, Z.eqb_eq in H4. apply Z.ltb_ge in H5.
  pose proof (Z.div_mod (d_len d) 16). split_and!; try done; lia.
Qed.
Lemma names_table_test d n : names_table d n -> desc_has d VRING_DESC_F_NEXT || negb (nz (Z.land features VIRTIO_F_INDIRECT_DESC)) ||
    (d_len d =? 0) || nz (d_len d mod 16) || (VIRTIO_MAX_INDIRECT <? d_len d / 16) = false /\ d_len d / 16 = n.
Proof.
  intros (_ & Hn & Hf & Hl & E). unfold has_next in Hn. rewrite Hn, Hf, E. cbn [negb orb].
  rewrite Z.mul_comm, Z.div_mul, Z.mod_mul by lia. split; [|done].
  destruct (Z.eqb_spec (n * 16) 0); [lia|]. destruct (Z.ltb_spec VIRTIO_MAX_INDIRECT n); [lia|done].
Qed.

(** One read of the walk, with the chain it stands for. *)
Lemma read_plain calls w idx : 0 <= steps w -> 0 <= idx -> forall d, desc_at (table w) idx = Some d -> has_indirect d = false ->
  desc_walk_read calls mem features w idx =
  if (idx <? table_size w) && (steps w <? table_size w) then Some (mkWalk (table w) (table_size w) (steps w + 1) (indirect w) d) else None.
Proof.
  intros Hs Hi d Hd Hind. unfold desc_at in Hd. destruct calls; cbn [desc_walk_read];
    (destruct (Z.leb_spec (table_size w) idx), (Z.ltb_spec idx (table_size w)); try lia; [done|]; cbn [andb];
     destruct (Z.ltb_spec (table_size w) (steps w + 1)), (Z.ltb_spec (steps w) (table_size w)); try lia; [done|];
     destruct (virtio_memcpy_from_ram _ _ _); [|done]; injection Hd as Hd; rewrite Hd; unfold has_indirect in Hind; by rewrite Hind).
Qed.
Lemma read_table w idx d n : 0 <= steps w -> 0 <= idx -> desc_at (table w) idx = Some d -> names_table d n -> indirect w = false ->
  desc_walk_read 1 mem features w idx =
  if (idx <? table_size w) && (steps w <? table_size w) then desc_walk_read 0 mem features (mkWalk (d_addr d) n 0 true d) 0 else None.
Proof.
  intros Hs Hi Hd Hn Hw. unfold desc_at in Hd. cbn [desc_walk_read]. destruct (names_table_test d n Hn) as [Ht <-].
  destruct (Z.leb_spec (table_size w) idx), (Z.ltb_spec idx (table_size w)); try lia; [done|]. cbn [andb].
  destruct (Z.ltb_spec (table_size w) (steps w + 1)), (Z.ltb_spec (steps w) (table_size w)); try lia; [done|].
  destruct (virtio_memcpy_from_ram mem (u64 (table w + idx * 16)) 16); [|done]. injection Hd as Hd. rewrite Hd.
  destruct Hn as (Hind & _). unfold has_indirect in Hind. rewrite Hind, Hw. cbn [negb]. by rewrite orb_false_l, Ht.
Qed.

(** What a read that succeeds has read. *)
Lemma read_inv calls w idx w' : 0 <= steps w -> 0 <= idx -> desc_walk_read calls mem features w idx = Some w' ->
  idx < table_size w /\ steps w < table_size w /\ exists d, desc_at (table w) idx = Some d /\
    ((has_indirect d = false /\ w' = mkWalk (table w) (table_size w) (steps w + 1) (indirect w) d) \/
     exists calls' n, names_table d n /\ indirect w = false /\ calls = S calls' /\
       desc_walk_read calls' mem features (mkWalk (d_addr d) n 0 true d) 0 = Some w').
Proof.
  intros Hs Hi Hr. destruct calls as [|calls]; cbn [desc_walk_read] in Hr;
    (destruct (Z.leb_spec (table_size w) idx); [done|]; destruct (Z.ltb_spec (table_size w) (steps w + 1)); [done|];
     split; [done|]; split; [lia|]; unfold desc_at; destruct (virtio_memcpy_from_ram _ _ _) as [b|] eqn:Eb; [|done];
     exists (desc_of_bytes b); split; [done|]; unfold has_indirect;
     destruct (desc_has (desc_of_bytes b) VRING_DESC_F_INDIRECT) eqn:Ei; cbn [negb] in Hr; [|left; split; [done|congruence]]).
  - by repeat case_match.
  - right. destruct (indirect w); [done|]. rewrite orb_false_l in Hr. destruct (_ || _) eqn:Et in Hr; [done|].
    exists calls, (d_len (desc_of_bytes b) / 16). split_and!; [|done|done|done].
    apply names_table_dec; [by rewrite Et| |done]. apply (desc_at_range (table w) idx). unfold desc_at. by rewrite Eb.
Qed.

(** A walk that reads goes on within its bounds, with less left. *)
Lemma read_ok calls qnum w idx w' : 0 <= steps w -> 0 <= idx ->
  (if indirect w then table_size w <= VIRTIO_MAX_INDIRECT else table_size w = qnum) ->
  desc_walk_read calls mem features w idx = Some w' -> walk_ok qnum w' /\ 0 <= walk_left w' < walk_left w.
Proof.
  revert w idx. induction calls as [|calls IH]; intros w idx Hs Hi Hb Hr;
    destruct (read_inv _ _ _ _ Hs Hi Hr) as (H1 & H2 & d & Hd & [[Hind ->]|(calls' & n & Hn & Hw & Ec & Hr')]); try done.
  1, 2: pose proof (desc_at_range _ _ _ Hd); unfold walk_ok, walk_left; simpl; destruct (indirect w); lia.
  injection Ec as <-. destruct Hn as (_ & _ & _ & Hn & _).
  destruct (IH (mkWalk (d_addr d) n 0 true d) 0 ltac:(done) ltac:(done) ltac:(simpl; lia) Hr') as [Ho Hl]. split; [done|].
  unfold walk_left in *. simpl in Hl. rewrite Hw. unfold VIRTIO_MAX_INDIRECT in *. lia.
Qed.

Lemma read_sound calls w idx w' tl : 0 <= steps w -> 0 <= idx -> desc_walk_read calls mem features w idx = Some w' -> rest w' tl ->
  exists trail, chain (indirect w) (table w) (table_size w) idx trail (desc w' :: tl) /\
    steps w + Z.of_nat (length trail) <= table_size w.
Proof.
  revert w idx. induction calls as [|calls IH]; intros w idx Hs Hi Hr Ht;
    destruct (read_inv _ _ _ _ Hs Hi Hr) as (H1 & H2 & d & Hd & [[Hind ->]|(calls' & n & Hn & Hw & Ec & Hr')]); try done.
  1, 2: unfold rest in Ht; simpl in Ht; destruct (has_next d) eqn:En;
    [destruct Ht as (trail & Hc & Hb); exists (idx :: trail); split; [by econstructor|simpl; lia]|
     subst tl; exists [idx]; split; [by constructor|simpl; lia]].
  injection Ec as <-. destruct (IH (mkWalk (d_addr d) n 0 true d) 0 ltac:(done) ltac:(done) Hr' Ht) as (trail & Hc & _). simpl in Hc.
  exists [idx]. rewrite Hw. split; [by econstructor|simpl; lia].
Qed.

Lemma read_complete_plain calls w idx trail ds : indirect w = true \/ (exists d, desc_at (table w) idx = Some d /\ has_indirect d = false) ->
  chain (indirect w) (table w) (table_size w) idx trail ds -> 0 <= steps w -> steps w + Z.of_nat (length trail) <= table_size w ->
  exists w' tl, desc_walk_read calls mem features w idx = Some w' /\ ds = desc w' :: tl /\ rest w' tl.
Proof.
  intros Hp Hc Hs Hb. inversion Hc as [? ? ? ? d Hi Hd Hind Hn|? ? ? ? d tr dl Hi Hd Hind Hn Hc2|? ? ? d n tr dl Hi Hd Hnt Hc2]; subst.
  - simpl in Hb. rewrite (read_plain calls w idx Hs ltac:(lia) d Hd Hind).
    destruct (Z.ltb_spec idx (table_size w)), (Z.ltb_spec (steps w) (table_size w)); try lia. simpl.
    eexists _, []. split_and!; [done|done|]. unfold rest. simpl. by rewrite Hn.
  - simpl in Hb. rewrite (read_plain calls w idx Hs ltac:(lia) d Hd Hind).
    destruct (Z.ltb_spec idx (table_size w)), (Z.ltb_spec (steps w) (table_size w)); try lia. simpl.
    eexists _, dl. split_and!; [done|done|]. unfold rest. simpl. rewrite Hn. exists tr. split; [done|lia].
  - destruct Hnt as (Hx & _). destruct Hp as [E|(d' & Hd' & E)]; congruence.
Qed.

Lemma read_complete w idx trail ds : chain (indirect w) (table w) (table_size w) idx trail ds -> 0 <= steps w ->
  steps w + Z.of_nat (length trail) <= table_size w ->
  exists w' tl, desc_walk_read 1 mem features w idx = Some w' /\ ds = desc w' :: tl /\ rest w' tl.
Proof.
  intros Hc Hs Hb. inversion Hc as [? ? ? ? d Hi Hd Hind Hn|? ? ? ? d tr dl Hi Hd Hind Hn Hc2|? ? ? d n tr dl Hi Hd Hnt Hc2 Ew]; subst.
  1, 2: eapply read_complete_plain; eauto.
  simpl in Hb. rewrite (read_table w idx d n Hs ltac:(lia) Hd Hnt) by done.
  destruct (Z.ltb_spec idx (table_size w)), (Z.ltb_spec (steps w) (table_size w)); try lia. simpl andb. cbv iota.
  pose proof (chain_bound _ _ _ _ _ _ Hc2) as Hcb.
  eapply (read_complete_plain 0 (mkWalk (d_addr d) n 0 true d)); [by left|exact Hc2|done|simpl; lia].
Qed.

(** * The sizes of a chain *)

Fixpoint measure (ds : list VIRTIODesc) (rd wr : Z) (writing : bool) : option (Z * Z * bool) :=
  match ds with
  | [] => Some (rd, wr, writing)
  | d :: ds => match size_step rd wr writing d with Some (rd, wr, writing) => measure ds rd wr writing | None => None end
  end.

Lemma measure_app ds ds' rd wr b : measure (ds ++ ds') rd wr b =
  match measure ds rd wr b with Some (rd, wr, b) => measure ds' rd wr b | None => None end.
Proof.
  revert rd wr b. induction ds as [|d ds IH]; intros rd wr b; simpl; [done|].
  destruct (size_step rd wr b d) as [[[rd' wr'] b']|]; [apply IH|done].
Qed.

Definition total (ds : list VIRTIODesc) : Z := foldr (fun d n => d_len d + n) 0 ds.

(** The readable descriptors come first, then the writable ones, and each part
    fits in an [int]. *)
Definition sized (ds : list VIRTIODesc) (rd wr : Z) : Prop :=
  exists rs ws, ds = rs ++ ws /\ Forall (fun d => has_write d = false) rs /\ Forall (fun d => has_write d = true) ws /\
    rd = total rs /\ wr = total ws /\ rd <= INT_MAX /\ wr <= INT_MAX.

Lemma total_nonneg ds : Forall (fun d => 0 <= d_len d) ds -> 0 <= total ds.
Proof. induction 1; simpl; lia. Qed.

Lemma measure_writes ds rd wr : Forall (fun d => 0 <= d_len d) ds -> forall r w b,
  measure ds rd wr true = Some (r, w, b) <-> Forall (fun d => has_write d = true) ds /\ r = rd /\ w = wr + total ds /\ b = true /\ (ds = [] \/ w <= INT_MAX).
Proof.
  intros Hl. revert wr. induction Hl as [|d ds Hd Hl IH]; intros wr r w b; simpl.
  - rewrite Z.add_0_r. split; [intros [= <- <- <-]|intros (_ & -> & -> & -> & _)]; auto 10.
  - pose proof (total_nonneg ds Hl). unfold size_step. fold (has_write d). destruct (has_write d) eqn:Ew; cbn [negb andb orb].
    + destruct (Z.ltb_spec INT_MAX (wr + d_len d)).
      * split; [done|]. intros (_ & _ & -> & _ & [?|?]); [done|lia].
      * rewrite IH. rewrite Z.add_assoc. split; [intros (H1 & -> & -> & -> & H2)|intros (H1 & -> & -> & -> & H2)].
        -- split_and!; [by constructor|done|done|done|]. right. destruct H2 as [->|]; [simpl; lia|done].
        -- apply Forall_cons in H1 as [_ H1]. destruct H2 as [?|]; [done|]. auto 10.
    + split; [done|]. intros (H1 & _). apply Forall_cons in H1 as [? _]. congruence.
Qed.

Lemma measure_sized ds : Forall (fun d => 0 <= d_len d) ds -> forall r w,
  (exists b, measure ds 0 0 false = Some (r, w, b)) <-> sized ds r w.
Proof.
  intros Hl. assert (H : forall rd, 0 <= rd <= INT_MAX -> forall r w, (exists b, measure ds rd 0 false = Some (r, w, b)) <->
    exists rs ws, ds = rs ++ ws /\ Forall (fun d => has_write d = false) rs /\ Forall (fun d => has_write d = true) ws /\
      r = rd + total rs /\ w = total ws /\ r <= INT_MAX /\ w <= INT_MAX); [|intros r w; exact (H 0 ltac:(by unfold INT_MAX) r w)].
  induction Hl as [|d ds Hd Hl IH]; intros rd Hrd r w; cbn [measure].
  - split.
    + intros [b [= <- <- <-]]. exists [], []. simpl. split_and!; try done; lia.
    + intros (rs & ws & E & _ & _ & -> & -> & _). symmetry in E. apply app_nil in E as [-> ->]. exists false. simpl. by rewrite Z.add_0_r.
  - unfold size_step. fold (has_write d). destruct (has_write d) eqn:Ew; cbn [negb andb orb].
    + pose proof (total_nonneg ds Hl). split.
      * intros [b Hm]. destruct (Z.ltb_spec INT_MAX (0 + d_len d)); [done|]. apply measure_writes in Hm as (H1 & -> & -> & -> & H2); [|done].
        exists [], (d :: ds). simpl. split_and!; try done; try lia; [by constructor|]. destruct H2 as [->|]; simpl; lia.
      * intros (rs & ws & E & H1 & H2 & -> & -> & H3 & H4). destruct rs as [|d' rs].
        -- simpl in E. subst ws. simpl in H4. destruct (Z.ltb_spec INT_MAX (0 + d_len d)); [lia|]. exists true.
           apply Forall_cons in H2 as [_ H2]. apply measure_writes; [done|]. simpl. split_and!; try done; lia.
        -- injection E as <- _. apply Forall_cons in H1 as [? _]. congruence.
    + split.
      * intros [b Hm]. destruct (Z.ltb_spec INT_MAX (rd + d_len d)); [done|].
        destruct (proj1 (IH (rd + d_len d) ltac:(lia) r w) (ex_intro _ b Hm)) as (rs & ws & -> & H1 & H2 & -> & -> & H3).
        exists (d :: rs), ws. simpl. split_and!; try done; try lia. by constructor.
      * intros (rs & ws & E & H1 & H2 & -> & -> & H3 & H4). destruct rs as [|d' rs].
        -- simpl in E. subst ws. apply Forall_cons in H2 as [? _]. congruence.
        -- injection E as <- ->. apply Forall_cons in H1 as [_ H1]. simpl in H3. assert (0 <= total rs).
           { apply total_nonneg. by apply Forall_app in Hl as [? _]. }
           destruct (Z.ltb_spec INT_MAX (rd + d_len d)); [lia|]. apply IH; [lia|]. exists rs, ws. simpl. split_and!; try done; lia.
Qed.

Lemma chain_lens inner t sz idx trail ds : chain inner t sz idx trail ds -> Forall (fun d => 0 <= d_len d) ds.
Proof.
  induction 1 as [inner t sz idx d Hi Hd|inner t sz idx d trail ds Hi Hd _ _ _ IH|]; [| |done];
    (apply Forall_cons; split; [by destruct (desc_at_range t idx d) as [[? _] _]|done]).
Qed.

(** * The loop *)

Section Loop.
Context (qdesc qnum desc_idx : Z) (Hq : 0 <= qnum <= MAX_QUEUE_NUM) (Hidx : 0 <= desc_idx).

Definition whole (ds : list VIRTIODesc) : Prop := exists trail, chain false qdesc qnum desc_idx trail ds.

Lemma start_ok w : desc_walk_start mem features qdesc qnum desc_idx = Some w ->
  walk_ok qnum w /\ walk_left w < 1025 + qnum /\ forall tl, rest w tl -> whole (desc w :: tl).
Proof.
  unfold desc_walk_start. set (w0 := mkWalk _ _ _ _ _). intros Hr.
  destruct (read_ok 1 qnum w0 desc_idx w ltac:(done) Hidx ltac:(done) Hr) as [Ho Hl].
  assert (walk_left w0 = 1025 + qnum) as Ew by (unfold walk_left, w0; simpl; lia). split_and!; [done|lia|].
  intros tl Ht. destruct (read_sound 1 w0 desc_idx w tl ltac:(done) Hidx Hr Ht) as (trail & Hc & _). by exists trail.
Qed.

Lemma start_complete ds : whole ds ->
  exists w tl, desc_walk_start mem features qdesc qnum desc_idx = Some w /\ ds = desc w :: tl /\ rest w tl.
Proof.
  intros [trail Hc]. pose proof (chain_bound _ _ _ _ _ _ Hc).
  apply (read_complete (mkWalk qdesc qnum 0 false desc0) desc_idx trail ds); simpl; [done|done|lia].
Qed.

Lemma next_ok w w' : walk_ok qnum w -> desc_walk_next mem features w = Some (Some w') ->
  walk_ok qnum w' /\ 0 <= walk_left w' < walk_left w /\ has_next (desc w) = true /\ forall tl, rest w' tl -> rest w (desc w' :: tl).
Proof.
  intros (Hs & Hb & Hl & Hn) Hr. unfold desc_walk_next in Hr. fold (has_next (desc w)) in Hr.
  destruct (has_next (desc w)) eqn:En; [|done]. cbn [negb] in Hr.
  destruct (desc_walk_read 1 mem features w (d_next (desc w))) as [w1|] eqn:Er; [|done]. injection Hr as <-.
  destruct (read_ok 1 qnum w (d_next (desc w)) w1 ltac:(lia) ltac:(lia) Hb Er) as [Ho Hl']. split_and!; [done|lia|lia|done|].
  intros tl Ht. destruct (read_sound 1 w (d_next (desc w)) w1 tl ltac:(lia) ltac:(lia) Er Ht) as (trail & Hc & Hbd).
  unfold rest. rewrite En. by exists trail.
Qed.

Lemma next_complete w tl : walk_ok qnum w -> rest w tl ->
  match tl with
  | [] => desc_walk_next mem features w = Some None
  | d :: tl => exists w', desc_walk_next mem features w = Some (Some w') /\ desc w' = d /\ rest w' tl
  end.
Proof.
  intros (Hs & _) Hr. unfold rest in Hr. unfold desc_walk_next. fold (has_next (desc w)).
  destruct (has_next (desc w)); cbn [negb]; [|by subst tl].
  destruct Hr as (trail & Hc & Hb). destruct (read_complete w (d_next (desc w)) trail tl Hc ltac:(lia) Hb) as (w' & tl' & -> & -> & Hr). by exists w'.
Qed.

(** The loop ends, whatever is in memory. *)
Lemma size_loop_ends w : desc_walk_start mem features qdesc qnum desc_idx = Some w ->
  exists r, while_fuel walk_fuel (size_turn mem features) (w, 0, 0, false) = inr r /\
    forall rd wr, r = Some (rd, wr) -> exists ds b, whole ds /\ measure ds 0 0 false = Some (rd, wr, b).
Proof.
  intros Hw. destruct (start_ok w Hw) as (Ho & Hl & Hc).
  apply (while_fuel_ends (fun '(w, rd, wr, b) => walk_ok qnum w /\ exists pre, measure pre 0 0 false = Some (rd, wr, b) /\
      forall tl, rest w tl -> whole (pre ++ desc w :: tl))
    (fun r => forall rd wr, r = Some (rd, wr) -> exists ds b, whole ds /\ measure ds 0 0 false = Some (rd, wr, b))
    (fun '(w, _, _, _) => walk_left w)).
  - intros [[[w1 rd] wr] b] (Ho1 & pre & Hm & Hp). cbn [size_turn].
    destruct (size_step rd wr b (desc w1)) as [[[rd' wr'] b']|] eqn:Es; [|done].
    destruct (desc_walk_next mem features w1) as [[w2|]|] eqn:En; [| |done].
    + destruct (next_ok w1 w2 Ho1 En) as (Ho2 & Hl2 & _ & Hr2). split; [split; [done|]|done].
      exists (pre ++ [desc w1]). split; [by rewrite measure_app, Hm; simpl; rewrite Es|].
      intros tl Ht. rewrite <- app_assoc. by apply Hp, Hr2.
    + intros ? ? [= <- <-]. exists (pre ++ [desc w1]), b'. split; [|by rewrite measure_app, Hm; simpl; rewrite Es].
      apply Hp. unfold rest. unfold desc_walk_next in En. fold (has_next (desc w1)) in En.
      destruct (has_next (desc w1)); [|done]. cbn [negb] in En. by destruct (desc_walk_read _ _ _ _ _).
  - split; [done|]. exists []. split; [done|exact Hc].
  - unfold walk_fuel, MAX_QUEUE_NUM in *. lia.
Qed.

(** A chain is measured to its end. *)
Lemma size_loop_complete w tl : walk_ok qnum w -> walk_left w < 1025 + qnum -> rest w tl ->
  while_fuel walk_fuel (size_turn mem features) (w, 0, 0, false) =
  inr (match measure (desc w :: tl) 0 0 false with Some (rd, wr, _) => Some (rd, wr) | None => None end).
Proof.
  intros Ho Hl Ht. set (res := match measure (desc w :: tl) 0 0 false with Some (rd, wr, _) => Some (rd, wr) | None => None end).
  destruct (while_fuel_ends (fun '(w, rd, wr, b) => walk_ok qnum w /\ exists tl, rest w tl /\
      match measure (desc w :: tl) rd wr b with Some (rd, wr, _) => Some (rd, wr) | None => None end = res)
    (fun r => r = res) (fun '(w, _, _, _) => walk_left w) (size_turn mem features) walk_fuel (w, 0, 0, false)) as (r & E & ->); [| | |done].
  - intros [[[w1 rd] wr] b] (Ho1 & tl1 & Ht1 & Hm). cbn [size_turn]. cbn [measure] in Hm.
    destruct (size_step rd wr b (desc w1)) as [[[rd' wr'] b']|]; [|done].
    pose proof (next_complete w1 tl1 Ho1 Ht1) as Hn. destruct tl1 as [|d tl1]; [by rewrite Hn|].
    destruct Hn as (w2 & E2 & Ed & Hr2). rewrite E2. destruct (next_ok w1 w2 Ho1 E2) as (Ho2 & Hl2 & _).
    split; [|done]. split; [done|]. exists tl1. split; [done|]. by rewrite Ed.
  - split; [done|]. by exists tl.
  - unfold walk_fuel, MAX_QUEUE_NUM in *. lia.
Qed.
End Loop.
End Walk.

(** C33: A descriptor chain is measured exactly, and every malformed one is
    refused.  For any contents of guest memory the walk ends; [get_desc_rw_size]
    succeeds just when the descriptors from the head form a finite chain inside
    the queue's table, ending there or in one indirect table the driver may use,
    readable descriptors before writable ones and each part at most [INT_MAX]
    bytes, and then gives the two sums.  So a chain that loops, leaves its table,
    nests tables or mixes the two kinds is an error, and none that does not. *)
Theorem desc_sizes_exact `{R : GuestRam} mem features qdesc qnum desc_idx : 0 <= qnum <= MAX_QUEUE_NUM -> 0 <= desc_idx ->
  (forall w, desc_walk_start mem features qdesc qnum desc_idx = Some w ->
     exists r, while_fuel walk_fuel (size_turn mem features) (w, 0, 0, false) = inr r) /\
  forall rd wr, get_desc_rw_size mem features qdesc qnum desc_idx = Some (rd, wr) <->
    exists trail ds, chain mem features false qdesc qnum desc_idx trail ds /\ sized ds rd wr.
Proof.
  intros Hq Hi. split.
  - intros w Hw. destruct (size_loop_ends mem features qdesc qnum desc_idx Hq Hi w Hw) as (r & E & _). by exists r.
  - intros rd wr. unfold get_desc_rw_size. split.
    + destruct (desc_walk_start _ _ _ _ _) as [w|] eqn:Ew; [|done].
      destruct (size_loop_ends mem features qdesc qnum desc_idx Hq Hi w Ew) as (r & -> & Hr). intros ->.
      destruct (Hr rd wr eq_refl) as (ds & b & [trail Hc] & Hm). exists trail, ds. split; [done|].
      apply measure_sized; [by eapply chain_lens|by exists b].
    + intros (trail & ds & Hc & Hz). destruct (start_complete mem features qdesc qnum desc_idx ds) as (w & tl & Ew & -> & Hr); [by exists trail|].
      rewrite Ew. destruct (start_ok mem features qdesc qnum desc_idx Hi w Ew) as (Ho & Hl & _).
      rewrite (size_loop_complete mem features qnum Hq w tl Ho Hl Hr).
      apply measure_sized in Hz as [b ->]; [done|]. by eapply chain_lens.
Qed.

(** A chain of two descriptors at 0x1000: 100 bytes to read, 200 to write. *)
#[local] Instance flat_ram : GuestRam := fun a _ => Some a.
Definition desc_bytes (d : VIRTIODesc) : list Z := put_le64 (d_addr d) ++ put_le32 (d_len d) ++ put_le16 (d_flags d) ++ put_le16 (d_next d).
Definition two_descs : host_mem :=
  store (fun _ => 0) 0x1000 (desc_bytes (mkDesc 0x2000 100 VRING_DESC_F_NEXT 1) ++ desc_bytes (mkDesc 0x3000 200 VRING_DESC_F_WRITE 0)).

Lemma desc_sizes_exact_witness :
  get_desc_rw_size two_descs 0 0x1000 8 0 = Some (100, 200) /\
  exists trail ds, chain two_descs 0 false 0x1000 8 0 trail ds /\ sized ds 100 200.
Proof.
  assert (E : get_desc_rw_size two_descs 0 0x1000 8 0 = Some (100, 200)) by by vm_compute.
  split; [exact E|].
  assert (H1 : 0 <= 8 <= MAX_QUEUE_NUM) by (unfold MAX_QUEUE_NUM; lia).
  assert (H2 : 0 <= 0) by lia.
  destruct (desc_sizes_exact two_descs 0 0x1000 8 0 H1 H2) as [_ Hx]. specialize (Hx 100 200).
  clear -Hx E. destruct Hx as [Hx _]. exact (Hx E).
Defined.

(** A descriptor that names itself next is refused. *)
Example desc_loop_refused :
  get_desc_rw_size (store (fun _ => 0) 0x1000 (desc_bytes (mkDesc 0x2000 100 VRING_DESC_F_NEXT 0))) 0 0x1000 8 0 = None.
Proof. by vm_compute. Qed.
