(* ===== verification/VirtioCopy.v ===== *)
(** Copies between a device and the buffers of a chain:
    [virtio_memcpy_from_ram], [virtio_memcpy_to_ram] and
    [memcpy_to_from_queue] of [src/bus/virtio/virtio.cpp] move the bytes at the
    addresses the descriptors list, page by page and descriptor by
    descriptor. *)

From stdpp Require Import base numbers list.
From S2P Require Import Prelude Bits Cutils Virtio VirtioWalk.
Local Open Scope Z_scope.

Section Copy.
Context `{R : GuestRam} {RP : GuestPages R}.

(** * Guest bytes *)

(** The guest addresses of [n] bytes from [a]. *)
Definition addrs (a n : Z) : list Z := map (fun k => u64 (a + k)) (seqZ 0 n).
Definition read_byte (mem : host_mem) (a : Z) : option Z := p ← ram_ptr a false; Some (u8 (mem p)).
Definition read_bytes (mem : host_mem) (l : list Z) : option (list Z) := mapM (read_byte mem) l.
(** Writes in order, up to the first byte that is not in RAM; a buffer may list
    an address twice. *)
Fixpoint write_run (mem : host_mem) (l bytes : list Z) : host_mem * bool :=
  match l, bytes with
  | a :: l, b :: bytes =>
    match ram_ptr a true with
    | Some p => write_run (fun x => if x =? p then b else mem x) l bytes
    | None => (mem, false)
    end
  | _, _ => (mem, true)
  end.

Lemma addrs_length a n : length (addrs a n) = Z.to_nat n.
Proof. unfold addrs. by rewrite length_map, length_seqZ. Qed.

Lemma addrs_split a m n : 0 <= m -> 0 <= n -> addrs a (m + n) = addrs a m ++ addrs (u64 (a + m)) n.
Proof.
  intros Hm Hn. unfold addrs. rewrite seqZ_app, map_app by done. f_equal. rewrite Z.add_0_l. rewrite <- (Z.add_0_r m) at 1.
  rewrite <- fmap_add_seqZ, map_map. apply map_ext. intros k. unfold u64. rewrite uw_add_l. f_equal. lia.
Qed.

Lemma addrs_cons a n : 0 < n -> addrs a n = u64 a :: addrs (u64 (a + 1)) (n - 1).
Proof.
  intros Hn. replace n with (1 + (n - 1)) at 1 by lia. rewrite addrs_split by lia. unfold addrs at 1. simpl. by rewrite Z.add_0_r.
Qed.

Lemma addrs_u64 a n : addrs (u64 a) n = addrs a n.
Proof. unfold addrs. apply map_ext. intros k. unfold u64. by rewrite uw_add_l. Qed.

(** A page at a time. *)
Lemma page_rest_ok a c : 0 < c -> let l := page_rest a c in 0 < l <= c /\ a mod 4096 + l <= 4096.
Proof.
  intros Hc l. unfold l, page_rest, VIRTIO_PAGE_SIZE. change (4096 - 1) with (Z.ones 12). rewrite Z.land_ones by lia.
  change (2 ^ 12) with 4096. pose proof (Z.mod_pos_bound a 4096). lia.
Qed.

(** The bytes of a page lie together in host memory. *)
Lemma page_addrs a rw p n : inw 64 a -> ram_ptr a rw = Some p -> 0 <= n -> a mod 4096 + n <= 4096 ->
  mapM (fun a => ram_ptr a rw) (addrs a n) = Some (seqZ p n).
Proof.
  intros Ha Hp Hn Hl. apply mapM_Some. unfold addrs. apply Forall2_fmap_l.
  replace (seqZ p n) with (map (fun k => p + k) (seqZ 0 n)) by (rewrite (fmap_add_seqZ p 0); by rewrite Z.add_0_r).
  apply Forall2_fmap_r, Forall_Forall2_diag, Forall_forall. intros k Hk. apply elem_of_seqZ in Hk. unfold compose. cbn beta.
  assert (u64 (a + k) = a + k) as ->.
  { apply uw_small. unfold inw in *. pose proof (Z.div_mod a 4096). pose proof (Z.mod_pos_bound a 4096).
    assert (a / 4096 < 2 ^ 52) by (apply Z.div_lt_upper_bound; lia). lia. }
  apply ram_page; [done|lia|lia].
Qed.

Lemma load_seqZ mem p n : load mem p n = map (fun x => u8 (mem x)) (seqZ p (Z.of_nat n)).
Proof.
  revert p. induction n as [|n IH]; intros p; [done|]. cbn [load]. rewrite IH. rewrite (seqZ_cons p (Z.of_nat (S n))) by lia.
  cbn [map]. do 3 f_equal; lia.
Qed.

Lemma read_bytes_page mem a p n : inw 64 a -> ram_ptr a false = Some p -> 0 <= n -> a mod 4096 + n <= 4096 ->
  read_bytes mem (addrs a n) = Some (load mem p (Z.to_nat n)).
Proof.
  intros Ha Hp Hn Hl. pose proof (page_addrs a false p n Ha Hp Hn Hl) as Hm. rewrite load_seqZ, Z2Nat.id by done.
  apply mapM_Some in Hm. apply mapM_Some, Forall2_fmap_r. eapply Forall2_impl; [exact Hm|].
  intros x y Hx. unfold read_byte. by rewrite Hx.
Qed.

Lemma read_bytes_app mem l l' : read_bytes mem (l ++ l') = b ← read_bytes mem l; b' ← read_bytes mem l'; Some (b ++ b').
Proof.
  unfold read_bytes. induction l as [|a l IH]; simpl; [by destruct (mapM _ l')|].
  destruct (read_byte mem a); simpl; [|done]. rewrite IH. destruct (mapM _ l); simpl; [|done]. by destruct (mapM _ l').
Qed.

Lemma pow31_pos : Zpos (2 ^ 31)%positive = 2 ^ 31.
Proof. done. Qed.

(** The bytes from an address, or failure at the first that is not in RAM. *)
Lemma from_ram_exact mem a n : inw 64 a -> 0 <= n <= INT_MAX -> virtio_memcpy_from_ram mem a n = read_bytes mem (addrs a n).
Proof.
  intros Ha Hn. unfold virtio_memcpy_from_ram. set (f := fun '(buf, addr, count) => _).
  destruct (while_fuel_ends (fun s : list Z * Z * Z => let '(buf, a', c) := s in inw 64 a' /\ 0 <= c <= n /\
      read_bytes mem (addrs a n) = b ← read_bytes mem (addrs a' c); Some (buf ++ b))
    (fun r => r = read_bytes mem (addrs a n)) (fun s => s.2) f (2 ^ 31)%positive ([], a, n)) as (r & -> & ->); [| | |done].
  - intros [[buf a'] c] (Ha' & Hc & E). unfold f. destruct (Z.leb_spec c 0).
    + assert (c = 0) as -> by lia. rewrite E. simpl. by rewrite app_nil_r.
    + destruct (page_rest_ok a' c ltac:(lia)) as [Hl Hp]. set (l := page_rest a' c) in *. cbv zeta.
      replace (addrs a' c) with (addrs a' l ++ addrs (u64 (a' + l)) (c - l)) in E.
      2: { rewrite <- addrs_split by lia. f_equal. lia. }
      destruct (ram_ptr a' false) as [p|] eqn:Ep.
      * split; [|simpl; lia]. split; [by apply inw_uw|]. split; [lia|]. rewrite E, read_bytes_app.
        rewrite (read_bytes_page mem a' p l Ha' Ep) by lia. simpl.
        destruct (read_bytes mem (addrs (u64 (a' + l)) (c - l))); simpl; [|done]. by rewrite app_assoc.
      * rewrite E, read_bytes_app, (addrs_cons a' l) by lia. change (u64 a') with (uw 64 a'). rewrite (uw_small 64 a') by done.
        assert (read_byte mem a' = None) as En by (unfold read_byte; by rewrite Ep). unfold read_bytes at 1. simpl. by rewrite En.
  - split_and!; [done|lia|lia|]. by destruct (read_bytes mem (addrs a n)).
  - rewrite pow31_pos. unfold INT_MAX in Hn. simpl. lia.
Qed.

Lemma write_run_app mem l l' b b' : length b = length l ->
  write_run mem (l ++ l') (b ++ b') = let '(m, ok) := write_run mem l b in if ok then write_run m l' b' else (m, false).
Proof.
  revert mem b. induction l as [|a l IH]; intros mem [|x b] E; try done. injection E as E. simpl.
  destruct (ram_ptr a true); [by apply IH|done].
Qed.

Lemma write_run_page mem l p bytes : Forall2 (fun a p => ram_ptr a true = Some p) l (seqZ p (Z.of_nat (length l))) -> length bytes = length l ->
  write_run mem l bytes = (store mem p bytes, true).
Proof.
  revert mem p bytes. induction l as [|a l IH]; intros mem p [|b bytes] Hm E; try done. injection E as E. cbn [write_run store].
  cbn [length] in Hm. rewrite (seqZ_cons p) in Hm by lia. apply Forall2_cons in Hm as [Hp Hm].
  rewrite Hp. apply IH; [|done]. by replace (Z.of_nat (length l)) with (Z.pred (Z.of_nat (S (length l)))) by lia.
Qed.

Lemma to_ram_exact mem a buf n : inw 64 a -> 0 <= n <= INT_MAX -> n <= Z.of_nat (length buf) ->
  virtio_memcpy_to_ram mem a buf n = write_run mem (addrs a n) (take (Z.to_nat n) buf).
Proof.
  intros Ha Hn Hb. unfold virtio_memcpy_to_ram. set (f := fun '(mem, addr, buf, count) => _).
  destruct (while_fuel_ends (fun s : host_mem * Z * list Z * Z => let '(m, a', b, c) := s in inw 64 a' /\ 0 <= c <= n /\ c <= Z.of_nat (length b) /\
      write_run mem (addrs a n) (take (Z.to_nat n) buf) = write_run m (addrs a' c) (take (Z.to_nat c) b))
    (fun r => r = write_run mem (addrs a n) (take (Z.to_nat n) buf)) (fun s => s.2) f (2 ^ 31)%positive (mem, a, buf, n)) as (r & -> & ->); [| | |done].
  - intros [[[m a'] b] c] (Ha' & Hc & Hcb & E). unfold f. destruct (Z.leb_spec c 0).
    + assert (c = 0) as -> by lia. rewrite E. done.
    + destruct (page_rest_ok a' c ltac:(lia)) as [Hl Hp]. set (l := page_rest a' c) in *. cbv zeta.
      replace (addrs a' c) with (addrs a' l ++ addrs (u64 (a' + l)) (c - l)) in E.
      2: { rewrite <- addrs_split by lia. f_equal. lia. }
      replace (take (Z.to_nat c) b) with (take (Z.to_nat l) b ++ take (Z.to_nat (c - l)) (drop (Z.to_nat l) b)) in E.
      2: { rewrite take_take_drop. f_equal. lia. }
      rewrite write_run_app in E by (rewrite length_take, addrs_length; lia).
      destruct (ram_ptr a' true) as [p|] eqn:Ep.
      * split; [|simpl; lia]. split; [by apply inw_uw|]. split; [lia|]. rewrite length_drop. split; [lia|].
        rewrite E, (write_run_page m (addrs a' l) p); [done| |rewrite length_take, addrs_length; lia].
        rewrite addrs_length, Z2Nat.id by lia. apply mapM_Some, page_addrs; [done|done|lia|lia].
      * rewrite E, (addrs_cons a' l) by lia. change (u64 a') with (uw 64 a'). rewrite (uw_small 64 a') by done.
        destruct b as [|x b]; [simpl in Hcb; lia|]. destruct (Z.to_nat l) eqn:El; [lia|]. simpl. by rewrite Ep.
  - split_and!; try lia; done.
  - rewrite pow31_pos. unfold INT_MAX in Hn. simpl. lia.
Qed.

#[local] Opaque virtio_memcpy_from_ram virtio_memcpy_to_ram.

(** * One transfer *)

(** [bytes] to the listed addresses, or their contents. *)
Definition xfer (write : bool) (mem : host_mem) (l bytes : list Z) : host_mem * option (list Z) :=
  if write then let '(m, ok) := write_run mem l bytes in (m, if ok then Some [] else None) else (mem, read_bytes mem l).

Lemma xfer_app write mem l l' b b' : (write = true -> length b = length l) ->
  xfer write mem (l ++ l') (b ++ b') =
  match xfer write mem l b with
  | (m, None) => (m, None)
  | (m, Some x) => let '(m', r) := xfer write m l' b' in (m', y ← r; Some (x ++ y))
  end.
Proof.
  intros Hb. unfold xfer. destruct write.
  - rewrite write_run_app by auto. destruct (write_run mem l b) as [m []]; [|done]. by destruct (write_run m l' b') as [m' []].
  - rewrite read_bytes_app. destruct (read_bytes mem l); simpl; [|done]. by destruct (read_bytes mem l').
Qed.

(** [count] bytes from the front of the listed addresses, after [acc] of them;
    an error if there are fewer. *)
Definition transfer (write : bool) (mem : host_mem) (l : list Z) (count : Z) (buf acc : list Z) : host_mem * option (list Z) :=
  let n := Z.to_nat count in
  let '(m, r) := xfer write mem (take n l) (take n buf) in
  (m, b ← r; if count <=? Z.of_nat (length l) then Some (acc ++ b) else None).

Lemma transfer_nil write mem count buf acc : 0 < count -> transfer write mem [] count buf acc = (mem, None).
Proof.
  intros Hc. unfold transfer. rewrite take_nil. unfold xfer. destruct write; simpl; by destruct (Z.leb_spec count (Z.of_nat 0)); [lia|].
Qed.

(** The copy of one descriptor's part, and the rest. *)
Lemma transfer_split write mem l l' count buf acc : 0 <= count -> (write = true -> count <= Z.of_nat (length buf)) ->
  transfer write mem (l ++ l') count buf acc =
  let n := Z.min count (Z.of_nat (length l)) in
  match xfer write mem (take (Z.to_nat n) l) (take (Z.to_nat n) buf) with
  | (m, None) => (m, None)
  | (m, Some b) =>
    if count - n =? 0 then (m, Some (acc ++ b)) else transfer write m l' (count - n) (drop (Z.to_nat n) buf) (acc ++ b)
  end.
Proof.
  intros Hc Hb. set (n := Z.min count (Z.of_nat (length l))). cbv zeta. unfold transfer. destruct (Z.le_ge_cases count (Z.of_nat (length l))) as [Hle|Hge].
  - assert (n = count) as -> by lia. rewrite take_app_le by lia. rewrite Z.sub_diag, length_app.
    destruct (xfer write mem (take (Z.to_nat count) l) (take (Z.to_nat count) buf)) as [m [b|]]; [|done]. simpl.
    destruct (Z.leb_spec count (Z.of_nat (length l + length l'))); [done|lia].
  - assert (n = Z.of_nat (length l)) as -> by lia. rewrite Nat2Z.id.
    assert (Z.to_nat count = length l + Z.to_nat (count - Z.of_nat (length l)))%nat as En by lia.
    rewrite En at 1 2. rewrite take_app_add, <- take_take_drop, firstn_all, xfer_app by (intros Ew; rewrite length_take; specialize (Hb Ew); lia).
    destruct (xfer write mem l (take (length l) buf)) as [m [b|]]; [|done]. rewrite length_app.
    destruct (Z.eqb_spec (count - Z.of_nat (length l)) 0) as [E0|].
    + rewrite E0. simpl. unfold xfer. destruct write; simpl; rewrite app_nil_r;
        (destruct (Z.leb_spec count (Z.of_nat (length l + length l'))); [done|lia]).
    + set (c := count - Z.of_nat (length l)) in *.
      replace (count <=? Z.of_nat (length l + length l')) with (c <=? Z.of_nat (length l')).
      2: { destruct (Z.leb_spec c (Z.of_nat (length l'))), (Z.leb_spec count (Z.of_nat (length l + length l'))); lia. }
      destruct (xfer write m (take (Z.to_nat c) l') (take (Z.to_nat c) (drop (length l) buf))) as [m' [y|]]; [|done]. simpl.
      destruct (c <=? _); [|done]. by rewrite app_assoc.
Qed.

(** * Memory written under a walk *)

Section Stable.
Context (features qdesc qnum : Z) (mem : host_mem).

(** The descriptors of the queue's table, and of the tables it names, are as
    they were. *)
Definition same_descs (mem' : host_mem) : Prop :=
  (forall i, 0 <= i < qnum -> desc_at mem' qdesc i = desc_at mem qdesc i) /\
  (forall i d n, 0 <= i < qnum -> desc_at mem qdesc i = Some d -> names_table features d n ->
     forall j, 0 <= j < n -> desc_at mem' (d_addr d) j = desc_at mem (d_addr d) j).
(** A walk is in one of them. *)
Definition within (w : DescWalk) : Prop :=
  if indirect w then exists i d, 0 <= i < qnum /\ desc_at mem qdesc i = Some d /\ names_table features d (table_size w) /\ table w = d_addr d
  else table w = qdesc /\ table_size w = qnum.

Lemma within_same mem' w j : same_descs mem' -> within w -> 0 <= j < table_size w -> desc_at mem' (table w) j = desc_at mem (table w) j.
Proof.
  intros [H1 H2] Hw Hj. unfold within in Hw. destruct (indirect w).
  - destruct Hw as (i & d & Hi & Hd & Hn & ->). by apply (H2 i d (table_size w)).
  - destruct Hw as [-> E]. apply H1. lia.
Qed.

Lemma read_same calls mem' w idx : same_descs mem' -> within w -> 0 <= idx ->
  desc_walk_read calls mem' features w idx = desc_walk_read calls mem features w idx.
Proof.
  revert w idx. induction calls as [|calls IH]; intros w idx Hs Hw Hi; cbn [desc_walk_read];
    (destruct (Z.leb_spec (table_size w) idx); [done|]); (destruct (table_size w <? steps w + 1); [done|]);
    pose proof (within_same mem' w idx Hs Hw ltac:(lia)) as E; pose proof (eq_refl (desc_at mem (table w) idx)) as Ed;
    unfold desc_at in E, Ed at 2;
    destruct (virtio_memcpy_from_ram mem' _ _) as [b'|], (virtio_memcpy_from_ram mem _ _) as [b|] eqn:Eb; try done;
    change (Some (desc_of_bytes b') = Some (desc_of_bytes b)) in E; apply (inj Some) in E; rewrite E; [done|].
  destruct (negb _) eqn:En; [done|]. apply negb_false_iff in En. destruct (_ || _) eqn:Et; [done|]. apply IH; [done| |done].
  unfold within in *. cbn [indirect table table_size]. apply orb_false_iff in Et as [Et E5]. apply orb_false_iff in Et as [Et E4].
  destruct (indirect w); [by rewrite !orb_true_l in Et|]. destruct Hw as [Et0 Es0]. exists idx, (desc_of_bytes b). rewrite Et0 in Eb, Ed.
  split; [lia|]. split; [done|]. split; [|done]. apply names_table_dec; [|by apply (desc_at_range mem qdesc idx)|done].
  rewrite orb_false_l in Et. by rewrite Et, E4, E5.
Qed.

Lemma next_same mem' w : same_descs mem' -> within w -> 0 <= d_next (desc w) ->
  desc_walk_next mem' features w = desc_walk_next mem features w.
Proof. intros Hs Hw Hn. unfold desc_walk_next. by rewrite (read_same 1 mem' w). Qed.

Lemma read_within calls w idx w' : 0 <= steps w -> 0 <= idx -> within w -> desc_walk_read calls mem features w idx = Some w' -> within w'.
Proof.
  revert w idx. induction calls as [|calls IH]; intros w idx Hs Hi Hw Hr;
    destruct (read_inv mem features _ _ _ _ Hs Hi Hr) as (H1 & H2 & d & Hd & [[Hind ->]|(calls' & n & Hn & Hi' & Ec & Hr')]); try done.
  injection Ec as <-. apply (IH (mkWalk (d_addr d) n 0 true d) 0 ltac:(done) ltac:(done)); [|done].
  unfold within in *. rewrite Hi' in Hw. destruct Hw as [Et Es]. simpl. exists idx, d. rewrite <- Et. split; [lia|done].
Qed.

(** ** Positions in the chain *)

Context (Hq : 0 <= qnum <= MAX_QUEUE_NUM).

(** The walk is at the first of the descriptors [l] that are left. *)
Definition at_descs (w : DescWalk) (l : list VIRTIODesc) : Prop :=
  walk_ok qnum w /\ within w /\ walk_left w < 1025 + qnum /\ exists tl, l = desc w :: tl /\ rest mem features w tl.

Lemma at_next w d l : at_descs w (d :: l) ->
  match l with
  | [] => desc_walk_next mem features w = Some None
  | d' :: l' => exists w', desc_walk_next mem features w = Some (Some w') /\ desc w' = d' /\ at_descs w' (d' :: l') /\
                  0 <= walk_left w' < walk_left w
  end.
Proof.
  intros (Ho & Hw & Hl & tl & E & Hr). injection E as -> ->. pose proof (next_complete mem features qnum w tl Ho Hr) as Hn.
  destruct tl as [|d' tl]; [done|]. destruct Hn as (w' & En & Ed & Hr'). exists w'.
  destruct (next_ok mem features qnum w w' Ho En) as (Ho' & Hl' & Hnx & _). split_and!; try done; try lia.
  split_and!; [done| |lia|exists tl; by rewrite Ed].
  unfold desc_walk_next in En. fold (has_next (desc w)) in En. rewrite Hnx in En. cbn [negb] in En.
  destruct (desc_walk_read 1 mem features w (d_next (desc w))) as [w1|] eqn:Er; [|done]. injection En as <-.
  destruct Ho as (? & _ & _ & ?). by eapply (read_within 1 w (d_next (desc w))); [lia|lia|..].
Qed.

Lemma at_start idx ds trail : 0 <= idx -> chain mem features false qdesc qnum idx trail ds ->
  exists w, desc_walk_start mem features qdesc qnum idx = Some w /\ at_descs w ds.
Proof.
  intros Hi Hc. destruct (start_complete mem features qdesc qnum idx ds) as (w & tl & Ew & -> & Hr); [by exists trail|].
  exists w. split; [done|]. destruct (start_ok mem features qdesc qnum idx Hi w Ew) as (Ho & Hl & _).
  split_and!; [done| |done|by exists tl]. by eapply (read_within 1 (mkWalk qdesc qnum 0 false desc0) idx).
Qed.

Definition span (d : VIRTIODesc) : list Z := addrs (d_addr d) (d_len d).
Definition spans (l : list VIRTIODesc) : list Z := concat (map span l).
Definition kind (write : bool) (l : list VIRTIODesc) : Prop := Forall (fun d => has_write d = write /\ 0 <= d_len d <= INT_MAX) l.
Definition other (write : bool) (l : list VIRTIODesc) : Prop := match l with [] => True | d :: _ => has_write d = negb write end.

Lemma fuel_enough w : walk_left w < 1025 + qnum -> walk_left w < Zpos walk_fuel.
Proof. unfold walk_fuel, MAX_QUEUE_NUM in *. lia. Qed.

Lemma find_write_ok w rs ws : at_descs w (rs ++ ws) -> kind false rs -> kind true ws ->
  match find_write mem features w with
  | None => ws = []
  | Some w' => at_descs w' ws
  end.
Proof.
  intros Ha Hrs Hws. unfold find_write. set (f := fun w => _).
  destruct (while_fuel_ends (fun w => exists rs, kind false rs /\ at_descs w (rs ++ ws))
    (fun r => match r with None => ws = [] | Some w' => at_descs w' ws end) walk_left f walk_fuel w) as (r & -> & Hr); [| | |done].
  - intros w1 (rs1 & Hrs1 & Ha1). unfold f. fold (has_write (desc w1)). destruct rs1 as [|d rs1].
    + simpl in Ha1. pose proof Ha1 as (_ & _ & _ & tl & -> & _). inversion Hws as [|? ? [Hd _] _]. by rewrite Hd.
    + assert (has_write (desc w1) = false) as ->.
      { destruct Ha1 as (_ & _ & _ & tl & E & _). injection E as <- _. by inversion Hrs1 as [|? ? [? _] _]. }
      pose proof (at_next w1 d (rs1 ++ ws) Ha1) as Hn. destruct (rs1 ++ ws) as [|d' l] eqn:El.
      * rewrite Hn. by apply app_nil in El as [_ ->].
      * destruct Hn as (w2 & -> & _ & Ha2 & Hl2). split; [|done]. exists rs1. rewrite El. split; [by inversion Hrs1|done].
  - by exists rs.
  - apply fuel_enough. by destruct Ha as (_ & _ & ? & _).
Qed.

Lemma span_length d : length (span d) = Z.to_nat (d_len d).
Proof. apply addrs_length. Qed.
Lemma spans_cons d l : spans (d :: l) = span d ++ spans l.
Proof. done. Qed.

(** Where a search for an offset ends. *)
Definition found (write : bool) (oth : list VIRTIODesc) (left : list Z) (r : option (DescWalk * Z)) : Prop :=
  match r with
  | None => left = []
  | Some (w, o) => exists cur, at_descs w (cur ++ oth) /\ kind write cur /\ cur <> [] /\ 0 <= o <= d_len (desc w) /\
                     left = drop (Z.to_nat o) (spans cur)
  end.

Lemma find_offset_ok write w o cur oth : at_descs w (cur ++ oth) -> kind write cur -> other write oth -> 0 <= o <= INT_MAX ->
  found write oth (drop (Z.to_nat o) (spans cur)) (find_offset mem features write w o).
Proof.
  intros Ha Hk Ho Hoff. unfold find_offset. set (f := fun '(w, offset) => _). set (left := drop _ _).
  destruct (while_fuel_ends (fun s : DescWalk * Z => exists cur, at_descs s.1 (cur ++ oth) /\ kind write cur /\ 0 <= s.2 <= INT_MAX /\
      left = drop (Z.to_nat s.2) (spans cur)) (found write oth left) (fun s => walk_left s.1) f walk_fuel (w, o)) as (r & -> & Hr); [| | |done].
  - intros [w1 o1] (c1 & Ha1 & Hk1 & Ho1 & El). cbn [fst snd] in *. unfold f. fold (has_write (desc w1)).
    pose proof Ha1 as (_ & _ & _ & tl & Et & _). destruct c1 as [|d c1].
    { simpl in Et. subst oth. simpl in Ho. rewrite Ho. change (spans []) with (@nil Z) in El. rewrite drop_nil in El. by destruct write. }
    injection Et as -> Et. pose proof Hk1 as [[Hd Hlen] Hk2]%Forall_cons. rewrite Hd.
    replace (Bool.eqb write write) with true by (by destruct write). cbn [negb].
    unfold u32. rewrite uw_small by (unfold inw; unfold INT_MAX in *; lia). destruct (Z.ltb_spec o1 (d_len (desc w1))).
    { exists (desc w1 :: c1). split_and!; try done; lia. }
    pose proof (at_next w1 (desc w1) (c1 ++ oth) Ha1) as Hn.
    assert (drop (Z.to_nat o1) (spans (desc w1 :: c1)) = drop (Z.to_nat (o1 - d_len (desc w1))) (spans c1)) as Edrop.
    { rewrite spans_cons, skipn_app, drop_ge by (rewrite span_length; lia). simpl. f_equal. rewrite span_length. lia. }
    destruct (c1 ++ oth) as [|d' l] eqn:Ecl.
    + rewrite Hn. apply app_nil in Ecl as [-> _]. cbn [found]. rewrite El, Edrop. apply drop_nil.
    + destruct Hn as (w2 & -> & _ & Ha2 & Hl2). split; [|done]. exists c1. cbn [fst snd]. rewrite Ecl. split_and!; [done|done| | |].
      1, 2: rewrite sw_small; unfold insw; unfold INT_MAX in *; lia.
      rewrite sw_small by (unfold insw; unfold INT_MAX in *; lia). by rewrite El, Edrop.
  - exists cur. done.
  - cbn [fst]. apply fuel_enough. by destruct Ha as (_ & _ & ? & _).
Qed.

(** ** The copy *)

Lemma xfer_outside write m l b p : (write = true -> forall a, a ∈ l -> ram_ptr a true <> Some p) -> (xfer write m l b).1 p = m p.
Proof.
  intros Hp. unfold xfer. destruct write; [|done]. specialize (Hp eq_refl).
  assert ((write_run m l b).1 p = m p) as E; [|by destruct (write_run m l b)].
  revert m b. induction l as [|a l IH]; intros m [|x b]; try done. cbn [write_run].
  destruct (ram_ptr a true) as [q|] eqn:Eq; [|done]. rewrite IH by (intros a' Ha'; apply Hp; by right).
  destruct (Z.eqb_spec p q) as [->|]; [|done]. by destruct (Hp a ltac:(by left)).
Qed.

Lemma drop_addrs a n o : 0 <= o <= n -> drop (Z.to_nat o) (addrs a n) = addrs (u64 (a + o)) (n - o).
Proof.
  intros Ho. replace n with (o + (n - o)) at 1 by lia. rewrite addrs_split by lia. rewrite <- (addrs_length a o) at 1. apply drop_app_length.
Qed.
Lemma take_addrs a n o : 0 <= o <= n -> take (Z.to_nat o) (addrs a n) = addrs a o.
Proof.
  intros Ho. replace n with (o + (n - o)) at 1 by lia. rewrite addrs_split by lia. rewrite <- (addrs_length a o) at 1. apply take_app_length.
Qed.

(** What is written stays clear of the descriptors. *)
Definition apart (write : bool) (l : list Z) : Prop :=
  forall m, (forall p, (write = true -> forall a, a ∈ l -> ram_ptr a true <> Some p) -> m p = mem p) -> same_descs m.

Section Loop.
Context (write : bool) (oth : list VIRTIODesc) (all : list Z) (Hoth : other write oth) (Hapart : apart write all).
Context (res : host_mem * option (list Z)).

(** The rest of the copy gives [res]. *)
Record copying (c : copy_state) : Prop := {
  cp_clear : forall p, (write = true -> forall a, a ∈ all -> ram_ptr a true <> Some p) -> c_mem c p = mem p;
  cp_count : 0 < c_count c <= INT_MAX;
  cp_buf : write = true -> c_count c <= Z.of_nat (length (c_buf c));
  cp_left : exists d cur, at_descs (c_walk c) ((d :: cur) ++ oth) /\ kind write (d :: cur) /\ 0 <= c_offset c <= d_len d /\
    (forall a, a ∈ drop (Z.to_nat (c_offset c)) (spans (d :: cur)) -> a ∈ all) /\
    transfer write (c_mem c) (drop (Z.to_nat (c_offset c)) (spans (d :: cur))) (c_count c) (c_buf c) (c_read c) = res;
}.

Lemma copy_turn_ok c : copying c ->
  match copy_turn features write c with
  | inl c' => copying c' /\ 0 <= walk_left (c_walk c') < walk_left (c_walk c)
  | inr r => r = res
  end.
Proof.
  intros [Hclear Hcount Hbuf (d & cur & Ha & Hk & Ho & Hin & Hres)]. unfold copy_turn.
  assert (desc (c_walk c) = d) as Ed by (destruct Ha as (_ & _ & _ & tl & E & _); by injection E as <- _). rewrite Ed.
  pose proof Hk as [[Hd Hlen] Hk2]%Forall_cons. unfold INT_MAX in *.
  rewrite (sw_small 32 (d_len d - c_offset c)) by (unfold insw; lia). set (a := u64 (d_addr d + c_offset c)).
  set (l := Z.min (c_count c) (d_len d - c_offset c)). cbv zeta.
  assert (Hspan : drop (Z.to_nat (c_offset c)) (spans (d :: cur)) = addrs a (d_len d - c_offset c) ++ spans cur).
  { rewrite spans_cons, drop_app_le by (rewrite span_length; lia). f_equal. by apply drop_addrs. }
  rewrite Hspan in Hres, Hin. rewrite transfer_split in Hres by (done || lia). cbv zeta in Hres.
  rewrite addrs_length, Z2Nat.id in Hres by lia. fold l in Hres. rewrite take_addrs in Hres by lia.
  replace (if write then let '(mem0, ok) := virtio_memcpy_to_ram (c_mem c) a (c_buf c) l in (mem0, if ok then Some [] else None)
           else (c_mem c, virtio_memcpy_from_ram (c_mem c) a l)) with (xfer write (c_mem c) (addrs a l) (take (Z.to_nat l) (c_buf c))).
  2: { unfold xfer. destruct write; [rewrite to_ram_exact|rewrite from_ram_exact]; try done; try (by apply inw_uw); unfold INT_MAX; lia. }
  assert (Hclear' : forall p, (write = true -> forall a, a ∈ all -> ram_ptr a true <> Some p) ->
    (xfer write (c_mem c) (addrs a l) (take (Z.to_nat l) (c_buf c))).1 p = mem p).
  { intros p Hp. rewrite xfer_outside; [by apply Hclear|]. intros Ew x Hx. apply Hp; [done|]. apply Hin, elem_of_app. left.
    rewrite <- (take_addrs a (d_len d - c_offset c) l) in Hx by lia. 
    rewrite <- (take_drop (Z.to_nat l) (addrs a (d_len d - c_offset c))). apply elem_of_app. by left. }
  destruct (xfer write (c_mem c) (addrs a l) (take (Z.to_nat l) (c_buf c))) as [m [b|]]; cbn [fst] in Hclear'; [|done].
  destruct (Z.eqb_spec (c_count c - l) 0) as [|Hmore]; [done|].
  assert (l = d_len d - c_offset c) as El by lia. unfold u32. rewrite uw_small by (unfold inw; lia).
  replace (c_offset c + l =? d_len d) with true by (symmetry; apply Z.eqb_eq; lia).
  destruct (Ha) as ((_ & _ & _ & Hn) & Hw & _). rewrite (next_same m) by (try apply Hapart; (done || lia)).
  pose proof (at_next (c_walk c) d (cur ++ oth) Ha) as Hnext. destruct (cur ++ oth) as [|d' rest'] eqn:Ecur.
  { apply app_nil in Ecur as [-> _]. rewrite Hnext. rewrite transfer_nil in Hres by lia. done. }
  destruct Hnext as (w' & -> & Ed' & Ha' & Hl'). rewrite Ed'. fold (has_write d'). destruct cur as [|d2 cur].
  { simpl in Ecur. pose proof Hoth as Hd'. rewrite Ecur in Hd'. simpl in Hd'. rewrite Hd'.
    rewrite transfer_nil in Hres by lia. by destruct write. }
  injection Ecur as -> Erest. rewrite <- Erest in Ha'. pose proof Hk2 as [[Hd' Hlen'] Hk3]%Forall_cons. rewrite Hd'.
  replace (Bool.eqb write write) with true by (by destruct write). cbn [negb]. split; [|done]. split; simpl; [done|unfold INT_MAX; lia| |].
  - intros Ew. rewrite length_drop. specialize (Hbuf Ew). lia.
  - exists d', cur. split_and!; [done|done|lia|lia| |done]. intros x Hx. apply Hin, elem_of_app. by right.
Qed.
End Loop.
End Stable.

(** * The whole copy *)

(** Memories with the same bytes have the same descriptors. *)
Lemma read_bytes_ext m m' l : (forall p, m p = m' p) -> read_bytes m l = read_bytes m' l.
Proof. intros E. unfold read_bytes. apply mapM_ext. intros a. unfold read_byte. destruct (ram_ptr a false); simpl; by rewrite ?E. Qed.
Lemma desc_at_ext m m' t i : (forall p, m p = m' p) -> desc_at m t i = desc_at m' t i.
Proof.
  intros E. unfold desc_at. rewrite !from_ram_exact by (by apply inw_uw || by unfold INT_MAX). by rewrite (read_bytes_ext m m').
Qed.
Lemma apart_read features qdesc qnum mem l : apart features qdesc qnum mem false l.
Proof. intros m Hm. split; intros; apply desc_at_ext; intros p; by apply Hm. Qed.

(** The buffers of a chain that are copied to, or from. *)
Definition buffers (write : bool) (ds : list VIRTIODesc) : list VIRTIODesc := filter (fun d => has_write d = write) ds.

Lemma filter_split (P : VIRTIODesc -> Prop) `{forall x, Decision (P x)} l l' : Forall P l -> Forall (fun x => ~ P x) l' ->
  filter P (l ++ l') = l /\ filter P (l' ++ l) = l.
Proof.
  intros Hl Hl'. assert (filter P l = l) as E1 by (induction Hl; [done|rewrite filter_cons_True by done; congruence]).
  assert (filter P l' = []) as E2 by (induction Hl'; [done|by rewrite filter_cons_False]).
  rewrite !filter_app, E1, E2. by rewrite app_nil_r.
Qed.

Lemma buffers_sized ds rd wr : Forall (fun d => 0 <= d_len d) ds -> sized ds rd wr ->
  ds = buffers false ds ++ buffers true ds /\ kind false (buffers false ds) /\ kind true (buffers true ds) /\
  rd = total (buffers false ds) /\ wr = total (buffers true ds).
Proof.
  intros Hl (rs & ws & -> & Hr & Hw & -> & -> & Hrd & Hwr). apply Forall_app in Hl as [Hl1 Hl2].
  assert (buffers false (rs ++ ws) = rs /\ buffers true (rs ++ ws) = ws) as [-> ->].
  { unfold buffers. split.
    - apply (filter_split (fun d => has_write d = false)); [done|]. eapply Forall_impl; [exact Hw|]. intros d ->. done.
    - apply (filter_split (fun d => has_write d = true)); [done|]. eapply Forall_impl; [exact Hr|]. intros d ->. done. }
  assert (Hk : forall b l, Forall (fun d => 0 <= d_len d) l -> Forall (fun d => has_write d = b) l -> total l <= INT_MAX -> kind b l).
  { intros b l Hl. induction Hl as [|d l Hd Hl IH]; intros Hb Ht; [constructor|]. apply Forall_cons in Hb as [Hb1 Hb2]. simpl in Ht.
    pose proof (total_nonneg l Hl). constructor; [split; [done|lia]|]. apply IH; [done|lia]. }
  split_and!; auto.
Qed.

Lemma copy_from features qdesc qnum mem write w o cur oth all count buf : 0 <= qnum <= MAX_QUEUE_NUM ->
  other write oth -> apart features qdesc qnum mem write all -> 0 < count <= INT_MAX -> (write = true -> count <= Z.of_nat (length buf)) ->
  found features qdesc qnum mem write oth (drop (Z.to_nat o) (spans cur)) (find_offset mem features write w o) ->
  (forall a, a ∈ drop (Z.to_nat o) (spans cur) -> a ∈ all) ->
  match find_offset mem features write w o with
  | None => (mem, None)
  | Some (w, o) =>
    match while_fuel walk_fuel (copy_turn features write) (mkCopy mem w o count buf []) with
    | inr r => r
    | inl c => (c_mem c, None)
    end
  end = transfer write mem (drop (Z.to_nat o) (spans cur)) count buf [].
Proof.
  intros Hq Hoth Hap Hc Hb Hf Hin. destruct (find_offset mem features write w o) as [[w' o']|]; cbn [found] in Hf.
  - destruct Hf as (cur' & Ha & Hk & Hne & Ho & E). destruct cur' as [|d cur']; [done|]. rewrite E in *.
    set (res := transfer _ _ _ _ _ _).
    destruct (while_fuel_ends (copying features qdesc qnum mem write oth all res) (fun r => r = res) (fun c => walk_left (c_walk c))
      (copy_turn features write) walk_fuel (mkCopy mem w' o' count buf [])) as (r & -> & ->); [| | |done].
    + intros c Hcp. by apply (copy_turn_ok features qdesc qnum mem write oth all Hoth Hap).
    + split; simpl; [done|done|done|]. exists d, cur'. split_and!; try done; try lia.
      assert (desc w' = d) as <-; [|lia]. destruct Ha as (_ & _ & _ & tl & Et & _). by injection Et as <- _.
    + cbn [c_walk]. apply (fuel_enough qnum Hq). by destruct Ha as (_ & _ & ? & _).
  - rewrite Hf. by rewrite transfer_nil by lia.
Qed.
End Copy.

(** C34: A device reads and writes exactly the buffers of a request.  For a chain
    that was measured, [memcpy_from_queue] gives the bytes of the readable
    buffers, laid end to end, from the offset on, and [memcpy_to_queue] writes to
    the writable ones likewise, in order; either is an error just when the
    buffers end before the count or a byte is not in guest memory, and what was
    written before that stays.  A write must not overlap the descriptors. *)
Theorem queue_copy_exact `{R : GuestRam} {RP : GuestPages R} mem features qdesc qnum desc_idx trail ds rd wr offset count write buf :
  0 <= qnum <= MAX_QUEUE_NUM -> 0 <= desc_idx -> chain mem features false qdesc qnum desc_idx trail ds -> sized ds rd wr ->
  0 <= offset <= INT_MAX -> 0 <= count <= INT_MAX -> (write = true -> count <= Z.of_nat (length buf)) ->
  let l := drop (Z.to_nat offset) (spans (buffers write ds)) in
  (write = true -> apart features qdesc qnum mem true l) ->
  memcpy_to_from_queue mem features qdesc qnum desc_idx offset count write buf = transfer write mem l count buf [].
Proof.
  intros Hq Hi Hc Hs Ho Hcnt Hb l Hap. unfold memcpy_to_from_queue. destruct (Z.eqb_spec count 0) as [->|Hnz].
  { unfold transfer. simpl. destruct write; simpl; by destruct (Z.leb_spec 0 (Z.of_nat (length l))); [|lia]. }
  destruct (buffers_sized ds rd wr (chain_lens mem features _ _ _ _ _ _ Hc) Hs) as (Eds & Hk0 & Hk1 & _).
  destruct (at_start features qdesc qnum mem desc_idx ds trail Hi Hc) as (w & -> & Ha). cbn [mbind option_bind].
  rewrite Eds in Ha. destruct write.
  - pose proof (find_write_ok features qdesc qnum mem Hq w _ _ Ha Hk0 Hk1) as Hf.
    destruct (find_write mem features w) as [w'|]; cbn [mbind option_bind].
    + apply (copy_from features qdesc qnum mem true w' offset (buffers true ds) [] l); [exact Hq|exact I|by apply Hap|lia|exact Hb| |auto].
      apply (find_offset_ok features qdesc qnum mem Hq); [by rewrite app_nil_r|exact Hk1|exact I|lia].
    + unfold l. rewrite Hf. change (spans []) with (@nil Z). rewrite drop_nil. by rewrite transfer_nil by lia.
  - cbn [mbind option_bind]. assert (Hoth : other false (buffers true ds)).
    { destruct (buffers true ds); [done|]. by apply Forall_cons in Hk1 as [[? _] _]. }
    apply (copy_from features qdesc qnum mem false w offset (buffers false ds) (buffers true ds) l);
      [exact Hq|exact Hoth|apply apart_read|lia|exact Hb| |auto].
    apply (find_offset_ok features qdesc qnum mem Hq); [exact Ha|exact Hk0|exact Hoth|lia].
Qed.

(** The chain of VirtioWalk.v: the 200 bytes to write start at 0x3000.  Eight of
    them, from the third on, overlap no descriptor. *)
#[local] Existing Instance flat_ram.
#[local] Instance flat_pages : GuestPages flat_ram.
Proof. intros a rw p k [= <-] _ _. done. Qed.

Lemma flat_chain : exists trail, chain two_descs 0 false 0x1000 8 0 trail [mkDesc 0x2000 100 1 1; mkDesc 0x3000 200 2 0].
Proof.
  exists [0; 1]. eapply chain_next; [done|by vm_compute|done|done|]. eapply chain_end; [done|by vm_compute|done|done].
Qed.

(** The descriptors are below what is written. *)
Lemma flat_apart : apart 0 0x1000 8 two_descs true (drop 2 (spans [mkDesc 0x3000 200 2 0])).
Proof.
  intros m Hm. assert (Hlow : forall p, p < 0x3000 -> m p = two_descs p).
  { intros p Hp. apply Hm. intros _ a Ha [= E]. subst a. apply (subseteq_drop 2) in Ha. rewrite spans_cons in Ha. change (spans []) with (@nil Z) in Ha.
    rewrite app_nil_r in Ha. unfold span, addrs in Ha. apply list_elem_of_fmap in Ha as (k & -> & Hk). apply elem_of_seqZ in Hk. cbn [d_addr d_len] in *.
    unfold u64 in Hp. rewrite uw_small in Hp by (unfold inw; lia). lia. }
  assert (Hd : forall i, 0 <= i < 8 -> desc_at m 0x1000 i = desc_at two_descs 0x1000 i).
  { intros i Hi. unfold desc_at. rewrite !from_ram_exact by (by apply inw_uw || by unfold INT_MAX). f_equal. apply Forall_mapM_ext, Forall_forall.
    intros a Ha. unfold addrs in Ha. apply list_elem_of_fmap in Ha as (k & -> & Hk). apply elem_of_seqZ in Hk.
    unfold read_byte. cbn [ram_ptr flat_ram mbind option_bind]. rewrite Hlow; [done|]. unfold u64. rewrite uw_add_l, uw_small by (unfold inw; lia). lia. }
  split; [done|]. intros i d n Hi Ed Hn. exfalso. revert Ed. intros Ed.
  assert (has_indirect d = false) as E; [|destruct Hn as (E' & _); congruence].
  assert (i = 0 \/ i = 1 \/ i = 2 \/ i = 3 \/ i = 4 \/ i = 5 \/ i = 6 \/ i = 7) as [->|[->|[->|[->|[->|[->|[->| ->]]]]]]] by lia;
    vm_compute in Ed; injection Ed as <-; done.
Qed.

Lemma queue_copy_exact_witness :
  let ds := [mkDesc 0x2000 100 1 1; mkDesc 0x3000 200 2 0] in
  memcpy_to_from_queue two_descs 0 0x1000 8 0 2 8 true [1; 2; 3; 4; 5; 6; 7; 8] =
  transfer true two_descs (drop (Z.to_nat 2) (spans (buffers true ds))) 8 [1; 2; 3; 4; 5; 6; 7; 8] [].
Proof.
  intros ds. destruct flat_chain as [trail Hc].
  apply (queue_copy_exact two_descs 0 0x1000 8 0 trail ds 100 200 2 8 true [1; 2; 3; 4; 5; 6; 7; 8]);
    [by unfold MAX_QUEUE_NUM|done|exact Hc| |by unfold INT_MAX|by unfold INT_MAX|done|intros _; exact flat_apart].
  exists [mkDesc 0x2000 100 1 1], [mkDesc 0x3000 200 2 0]. split_and!; [done|by repeat constructor|by repeat constructor|done..].
Defined.
