(* ===== verification/VirtioOk.v ===== *)
(** The registers of a virtio device ([src/bus/virtio/virtio.cpp]): what the
    driver can set stays well formed through any sequence of accesses, on
    either transport, and the guest memory a transport reaches is mapped a page
    at a time, as the copies of VirtioCopy.v assume. *)

From stdpp Require Import base numbers list.
From S2P Require Import Prelude Bits Cutils Pci Virtio.
Local Open Scope Z_scope.

(** * Well-formed devices *)

(** A vector is one the function has, or none. *)
Definition vector_ok (count v : Z) : Prop := v = PCI_MSIX_NO_VECTOR \/ 0 <= v < count.
Record queue_wf (count : Z) (q : QueueState) : Prop := {
  qw_ready : ready q = 0 \/ ready q = 1;
  qw_num : exists k, 0 <= k <= 5 /\ num q = 2 ^ k;
  qw_last : inw 16 (last_avail_idx q);
  qw_vector : vector_ok count (msix_vector q);
  qw_addrs : inw 64 (desc_addr q) /\ inw 64 (avail_addr q) /\ inw 64 (used_addr q);
}.

Section Ok.
Context `{R : GuestRam} {T : Type} (ops : VIRTIOType T).

Definition vectors (s : VIRTIODevice T) : Z := fVectorCount (msix (pci_dev s)).
Record virtio_wf (s : VIRTIODevice T) : Prop := {
  vw_count : 0 <= vectors s <= 2048;
  vw_queues : length (queue s) = MAX_QUEUE /\ 0 <= num_queues s <= 8;
  vw_queue : Forall (queue_wf (vectors s)) (queue s);
  vw_config : vector_ok (vectors s) (config_msix_vector s);
  vw_widths : inw 32 (status s) /\ inw 32 (device_features_sel s) /\ inw 32 (driver_features_sel s) /\
    inw 64 (driver_features s) /\ inw 32 (queue_sel s) /\ 0 <= int_status s < 4 /\ inw 32 (device_features s) /\ inw 32 (config_generation s);
  (** what was settled with FEATURES_OK was all offered *)
  vw_features : Z.testbit (status s) 3 = true -> forall i, Z.testbit (driver_features s) i = true ->
    Z.testbit (virtio_offered_features s) i = true;
}.

(** The methods of a device type keep it so. *)
Class TypeOk : Prop := {
  recv_wf : forall s i d r w, virtio_wf s -> virtio_wf (RecvRequest ops s i d r w).1;
  manual_wf : forall s i, virtio_wf s -> virtio_wf (ManualQueueNotify ops s i);
  config_wf : forall s, virtio_wf s -> virtio_wf (ConfigWrite ops s);
  reset_wf : forall s, virtio_wf s -> virtio_wf (Reset ops s);
}.

(** Changes that leave alone what the invariant reads. *)
Lemma wf_frame s s' : queue s' = queue s -> num_queues s' = num_queues s -> vectors s' = vectors s ->
  config_msix_vector s' = config_msix_vector s -> status s' = status s -> device_features_sel s' = device_features_sel s ->
  driver_features_sel s' = driver_features_sel s -> driver_features s' = driver_features s -> queue_sel s' = queue_sel s ->
  0 <= int_status s' < 4 -> device_features s' = device_features s -> inw 32 (config_generation s') -> virtio_wf s -> virtio_wf s'.
Proof.
  intros E1 E2 E3 E4 E5 E6 E7 E8 E9 E10 E11 E12 []. split; rewrite ?E1, ?E2, ?E3, ?E4, ?E5, ?E6, ?E7, ?E8, ?E9, ?E11; try done.
  - naive_solver.
  - intros H i. unfold virtio_offered_features. rewrite E11. by apply vw_features0.
Qed.

Lemma set_queue_wf s i q : virtio_wf s -> queue_wf (vectors s) q -> virtio_wf (set_queue s i q).
Proof.
  intros [] Hq. split; try done; simpl; [by rewrite length_arr_set|]. by apply Forall_arr_set.
Qed.

Lemma get_queue_wf s i : virtio_wf s -> 0 <= i < 8 -> queue_wf (vectors s) (get_queue s i).
Proof. intros [? [Hl _] Hq _ _ _] Hi. apply (Forall_arr_get_lt queue0 (queue_wf (vectors s))); [done|]. rewrite Hl. unfold MAX_QUEUE. lia. Qed.

Lemma sel_write_wf s f : virtio_wf s -> (forall q, queue_wf (vectors s) q -> queue_wf (vectors s) (f q)) -> virtio_wf (sel_write s f).
Proof.
  intros Hs Hf. unfold sel_write, virtio_selected_queue. destruct (Z.ltb_spec (queue_sel s) (num_queues s)); [|done].
  apply set_queue_wf; [done|]. apply Hf, get_queue_wf; [done|]. destruct Hs as [_ [_ ?] _ _ (_ & _ & _ & _ & [? _] & _) _]. lia.
Qed.

(** ** Interrupts *)

Lemma send_msi_msix d a x : msix (pci_device_send_msi d a x) = msix d.
Proof. unfold pci_device_send_msi. by destruct (negb _). Qed.
Lemma msix_Send_count d v : fVectorCount (msix (msix_Send d v)) = fVectorCount (msix d).
Proof.
  unfold msix_Send. destruct (_ || _); [done|]. cbv zeta. destruct (_ || _); [done|]. by rewrite send_msi_msix.
Qed.
Lemma TableWrite_count d off v n : fVectorCount (msix (TableWrite d off v n)) = fVectorCount (msix d).
Proof.
  unfold TableWrite. destruct (TableSlot _ _) as [[i w]|]; [|done]. cbv zeta. destruct (_ && _); [|done]. by rewrite msix_Send_count.
Qed.

Lemma raise_wf s t v : virtio_wf s -> t = VIRTIO_INT_USED_RING \/ t = VIRTIO_INT_CONFIG -> virtio_wf (virtio_raise_irq s t v).
Proof.
  intros Hs Ht. unfold virtio_raise_irq. pose proof (vw_widths s Hs) as (_ & _ & _ & _ & _ & Hi & _ & Hg).
  destruct (msix_Enabled _); [destruct (negb _); [|done]|]; apply (wf_frame s); try done; unfold vectors; simpl; [by rewrite msix_Send_count|].
  change 4 with (2 ^ 2). apply (inw_lor 2); [lia|done|]. destruct Ht as [-> | ->]; done.
Qed.

Lemma config_change_wf s : virtio_wf s -> virtio_wf (virtio_config_change_notify s).
Proof.
  intros Hs. unfold virtio_config_change_notify. set (s1 := s <| config_generation := _ |>).
  assert (virtio_wf s1) as H1.
  { apply (wf_frame s); try done; [by destruct (vw_widths s Hs) as (_ & _ & _ & _ & _ & ? & _)|by apply inw_uw]. }
  destruct (nz _); [|done]. apply raise_wf; [done|by right].
Qed.

(** The status register: FEATURES_OK only over features that were offered. *)
Lemma status_wf s val : virtio_wf s -> inw 32 val ->
  (Z.testbit val 3 = true -> Z.testbit (status s) 3 = true \/ forall i, Z.testbit (driver_features s) i = true ->
     Z.testbit (virtio_offered_features s) i = true) -> virtio_wf (s <| status := val |>).
Proof.
  intros [] Hv Hf. split; try done; simpl.
  - naive_solver.
  - intros H. destruct (Hf H); [|done]. by apply vw_features0.
Qed.

Lemma needs_reset_wf s : virtio_wf s -> virtio_wf (virtio_set_needs_reset s).
Proof.
  intros Hs. unfold virtio_set_needs_reset. destruct (nz _); [done|]. apply config_change_wf, status_wf; [done| |].
  - apply inw_lor; [lia|by destruct (vw_widths s Hs)|done].
  - rewrite Z.lor_spec. change (Z.testbit VIRTIO_STATUS_NEEDS_RESET 3) with false. rewrite orb_false_r. by left.
Qed.

(** ** Queues *)

Lemma mem_wf s m : virtio_wf s -> virtio_wf (s <| vmem := m |>).
Proof. intros Hs. apply (wf_frame s); try done; by destruct (vw_widths s Hs) as (_ & _ & _ & _ & _ & ? & _ & ?). Qed.

Lemma peek_wf s i : virtio_wf s -> virtio_wf (virtio_queue_peek s i).1.
Proof.
  intros Hs. unfold virtio_queue_peek. cbv zeta. destruct (negb _); [done|]. destruct (has_feature _ _).
  - destruct (_ =? _); by apply mem_wf.
  - by destruct (_ =? _).
Qed.

Lemma pop_wf s i : virtio_wf s -> 0 <= i < 8 -> virtio_wf (virtio_queue_pop s i).
Proof.
  intros Hs Hi. apply set_queue_wf; [done|]. destruct (get_queue_wf s i Hs Hi). split; try done. by apply inw_uw.
Qed.

Lemma consume_wf s i d n : virtio_wf s -> virtio_wf (virtio_consume_desc s i d n).
Proof.
  intros Hs. unfold virtio_consume_desc. cbv zeta. set (s1 := _ <| vmem := _ |>).
  assert (virtio_wf s1) as H1 by (apply (mem_wf s); done). destruct (virtio_used_notification_wanted _ _ _); [|done].
  apply raise_wf; [done|by left].
Qed.

Context {HT : TypeOk}.

Lemma notify_wf s i : virtio_wf s -> 0 <= i < 8 -> virtio_wf (queue_notify ops s i).
Proof.
  intros Hs Hi. unfold queue_notify.
  unshelve epose proof (while_fuel_inv virtio_wf virtio_wf (notify_turn ops i) _ (2 ^ 16)%positive s Hs) as Hw;
    [|destruct (while_fuel _ _ s); done].
  clear s Hs. intros s Hs. unfold notify_turn. pose proof (peek_wf s i Hs) as Hp.
  destruct (virtio_queue_peek s i) as [s1 [d|]]; [|done]. cbn [fst] in Hp. cbv zeta.
  destruct (get_desc_rw_size _ _ _ _ _) as [[r w]|]; [|by apply needs_reset_wf].
  pose proof (recv_wf s1 i d r w Hp) as Hr. destruct (RecvRequest ops s1 i d r w) as [s2 ret]. cbn [fst] in Hr.
  destruct (ret <? 0); [done|]. by apply pop_wf.
Qed.

Lemma notify_any_wf s i : virtio_wf s -> 0 <= i < 8 -> virtio_wf (queue_notify_any ops s i).
Proof.
  intros Hs Hi. unfold queue_notify_any. destruct (negb _); [done|]. destruct (manual_recv _); [by apply manual_wf|by apply notify_wf].
Qed.

(** ** Negotiation *)

Lemma nz_features_ok v : nz (Z.land v VIRTIO_STATUS_FEATURES_OK) = Z.testbit v 3.
Proof. change VIRTIO_STATUS_FEATURES_OK with (bit_at 32 3). by rewrite nz_bit_at by lia. Qed.

Lemma driver_features_wf s val : virtio_wf s -> inw 32 val -> virtio_wf (virtio_write_driver_features s val).
Proof.
  intros Hs Hv. unfold virtio_write_driver_features. rewrite nz_features_ok. destruct (Z.testbit (status s) 3) eqn:E; [done|].
  assert (H : forall f, inw 64 f -> virtio_wf (s <| driver_features := f |>)).
  { intros f Hf. destruct Hs. split; try done; simpl; [naive_solver|by rewrite E]. }
  pose proof (vw_widths s Hs) as (_ & _ & _ & Hd & _). repeat case_match; try done; apply H; (apply inw_lor; [lia| |]).
  - by apply inw_ldiff.
  - by apply (inw_mono 32).
  - by apply inw_land_l.
  - by apply inw_uw.
Qed.

Lemma virtio_reset_wf s : virtio_wf s -> virtio_wf (virtio_reset s).
Proof.
  intros [H1 [H2 H2'] H3 _ H5 _]. split; simpl; [done| | |by left| |done].
  - by rewrite length_map.
  - apply Forall_map. eapply Forall_impl; [exact H3|]. intros q Hq. split; simpl; [by left|exists 5; done|done|by left|done].
  - naive_solver (unfold inw; lia).
Qed.

Lemma write_status_wf s val : virtio_wf s -> inw 32 val -> virtio_wf (virtio_write_status ops s val).
Proof.
  intros Hs Hv. unfold virtio_write_status. cbv zeta. destruct (Z.eqb_spec val 0).
  - apply reset_wf, virtio_reset_wf. apply (wf_frame (s <| status := 0 |>)); try done.
    1, 2: by destruct (vw_widths s Hs) as (_ & _ & _ & _ & _ & ? & _ & ?). apply status_wf; [done|done|]. by rewrite Z.bits_0.
  - rewrite !nz_features_ok. set (v := if (_ : bool) then (_ : Z) else val).
    assert (Hvb : inw 32 v) by (unfold v; destruct (_ && _); [by apply inw_ldiff|done]).
    assert (Hs1 : virtio_wf (s <| status := v |>)).
    { apply status_wf; [done|done|]. unfold v. destruct (Z.testbit val 3) eqn:E3, (Z.testbit (status s) 3) eqn:Eo; cbn [andb negb].
      1, 3, 4: by rewrite ?E3; auto.
      destruct (nz (Z.ldiff _ _)) eqn:El; cbn [andb].
      - rewrite Z.ldiff_spec, E3. done.
      - intros _. right. intros i Hi. unfold nz in El. apply negb_false_iff, Z.eqb_eq in El.
        assert (Z.testbit (Z.ldiff (driver_features s) (virtio_offered_features s)) i = false) as Eb by (by rewrite El, Z.bits_0).
        rewrite Z.ldiff_spec, Hi in Eb. by apply negb_false_iff in Eb. }
    set (s1 := s <| status := v |>) in *. destruct (nz (Z.land v VIRTIO_STATUS_DRIVER_OK) && _); [|done].
    assert (Hn : 0 <= num_queues s1 <= 8) by (by destruct (vw_queues s1 Hs1)). set (nq := num_queues s1) in *. clearbody nq.
    apply (for_each_ind (fun _ s => virtio_wf s)); [|done]. intros j t Hj Ht. apply notify_any_wf; [done|lia].
Qed.

(** ** Registers *)

Lemma accept_ok s v : virtio_wf s -> vector_ok (vectors s) (AcceptVector (pci_dev s) (u32 v)).
Proof.
  intros Hs. unfold AcceptVector. fold (vectors s). destruct (vw_count s Hs). destruct (Z.ltb_spec (u32 v) (vectors s)); [|by left].
  right. unfold u32 in *. pose proof (inw_uw 32 v ltac:(lia)) as [? ?]. unfold u16. rewrite uw_small by (unfold inw; lia). lia.
Qed.

Lemma queue_num_wf s val : virtio_wf s -> virtio_wf (virtio_set_queue_num s val).
Proof.
  intros Hs. apply sel_write_wf; [done|]. intros q Hq. destruct (_ && _) eqn:E; [|done]. destruct Hq. split; try done; simpl.
  rewrite !andb_true_iff, Z.ltb_lt, Z.leb_le, Z.eqb_eq in E. destruct E as [[H0 H1] H2]. unfold MAX_QUEUE_NUM in H1.
  assert (Hall : forallb (fun n => implb (Z.land n (n - 1) =? 0) (existsb (fun k => n =? 2 ^ k) (seqZ 0 6))) (seqZ 1 32) = true) by done.
  rewrite forallb_forall in Hall. specialize (Hall val). rewrite H2 in Hall. cbn [implb Z.eqb] in Hall.
  assert (existsb (fun k => val =? 2 ^ k) (seqZ 0 6) = true) as Hk by (apply Hall, list_elem_of_In, elem_of_seqZ; lia).
  apply existsb_exists in Hk as (k & Hin & E). apply list_elem_of_In, elem_of_seqZ in Hin. apply Z.eqb_eq in E. exists k. split; [lia|done].
Qed.

(** A write of one of the selected queue's addresses, its vector or enable. *)
Lemma sel_field_wf s f : virtio_wf s ->
  (forall q, ready (f q) = ready q \/ exists v, ready (f q) = Z.land v 1) -> (forall q, num (f q) = num q) ->
  (forall q, last_avail_idx (f q) = last_avail_idx q) ->
  (forall q, msix_vector (f q) = msix_vector q \/ exists v, msix_vector (f q) = AcceptVector (pci_dev s) (u32 v)) ->
  (forall q, inw 64 (desc_addr q) -> inw 64 (desc_addr (f q))) -> (forall q, inw 64 (avail_addr q) -> inw 64 (avail_addr (f q))) ->
  (forall q, inw 64 (used_addr q) -> inw 64 (used_addr (f q))) -> virtio_wf (sel_write s f).
Proof.
  intros Hs H1 H2 H3 H4 H5 H6 H7. apply sel_write_wf; [done|]. intros q [Q1 Q2 Q3 Q4 (Q5 & Q6 & Q7)]. split.
  - destruct (H1 q) as [->|[v ->]]; [done|]. assert (Z.land v 1 = v mod 2) as -> by (change 1 with (Z.ones 1); by rewrite Z.land_ones).
    pose proof (Z.mod_pos_bound v 2). lia.
  - by rewrite H2.
  - by rewrite H3.
  - destruct (H4 q) as [->|[v ->]]; [done|]. by apply accept_ok.
  - auto.
Qed.

Ltac sel_field := apply sel_field_wf; [done|..]; intros q; simpl; try (by left); try (by right; eexists); try done;
  intros _; by apply inw_set_bits.

Ltac reg_cases off := repeat match goal with
  | |- virtio_wf (if off =? ?c then _ else _) => destruct (off =? c); [try done|]
  | |- virtio_wf (if ?c <=? off then _ else _) => destruct (c <=? off); [try done|]
  | |- virtio_wf (if negb (Nat.eqb ?n 2) then _ else _) => destruct (negb (Nat.eqb n 2)); [try done|]
  end; try done.

Lemma config_write_wf s off val n : virtio_wf s -> virtio_wf (virtio_config_write ops s off val n).
Proof.
  intros Hs. unfold virtio_config_write. destruct (_ <? _); [done|]. cbv zeta. apply config_wf.
  apply (wf_frame s); try done; by destruct (vw_widths s Hs) as (_ & _ & _ & _ & _ & ? & _ & ?).
Qed.

(** The select registers. *)
Lemma selectors_wf s v : virtio_wf s -> inw 32 v ->
  virtio_wf (s <| device_features_sel := v |>) /\ virtio_wf (s <| driver_features_sel := v |>) /\ virtio_wf (s <| queue_sel := v |>).
Proof. intros [] Hv. split_and!; (split; try done; simpl; naive_solver). Qed.

Lemma int_status_wf s v b : virtio_wf s -> 0 <= v < 4 -> virtio_wf (s <| int_status := v |> <| irq := b |>) /\ virtio_wf (s <| int_status := v |>).
Proof. intros Hs Hv. split; (apply (wf_frame s); try done; by destruct (vw_widths s Hs) as (_ & _ & _ & _ & _ & _ & _ & ?)). Qed.

Lemma notify_reg_wf s val : virtio_wf s -> 0 <= val -> virtio_wf (if val <? num_queues s then queue_notify_any ops s val else s).
Proof.
  intros Hs Hv. destruct (Z.ltb_spec val (num_queues s)); [|done]. destruct (vw_queues s Hs). apply notify_any_wf; [done|lia].
Qed.

Lemma mmio_write_wf s off val n : virtio_wf s -> 0 <= val -> virtio_wf (mmio_write ops s off val n).
Proof.
  intros Hs Hval. assert (Hv : inw 32 (u32 val)) by (by apply inw_uw). destruct (selectors_wf s (u32 val) Hs Hv) as (S1 & S2 & S3).
  unfold mmio_write. cbv zeta.
  reg_cases off; try sel_field.
  - by apply config_write_wf.
  - by apply driver_features_wf.
  - by apply queue_num_wf.
  - by apply write_status_wf.
  - by apply notify_reg_wf.
  - pose proof (vw_widths s Hs) as (_ & _ & _ & _ & _ & Hi & _). set (v := Z.ldiff _ _).
    assert (0 <= v < 4) as Hr by (change 4 with (2 ^ 2); by apply (inw_ldiff 2)).
    destruct (int_status_wf s v false Hs Hr) as [H1 H2]. by destruct (_ =? 0).
Qed.

Lemma pci_common_wf s off val n : virtio_wf s -> virtio_wf (pci_common_write ops s off val n).
Proof.
  intros Hs. assert (Hv : inw 32 (u32 val)) by (by apply inw_uw). destruct (selectors_wf s (u32 val) Hs Hv) as (S1 & S2 & S3).
  unfold pci_common_write. cbv zeta. destruct n as [|[|[|n]]]; [| | |done]; reg_cases off; try sel_field.
  - by apply write_status_wf.
  - by apply queue_num_wf.
  - pose proof (accept_ok s val Hs) as Ha. destruct Hs. by split.
  - by apply driver_features_wf.
Qed.

Lemma pci_write_wf s off val n : virtio_wf s -> 0 <= val -> virtio_wf (pci_write ops s off val n).
Proof.
  intros Hs Hval. unfold pci_write. cbv zeta. repeat match goal with |- virtio_wf (if ?p =? _ then _ else _) => destruct (p =? _) end; try done.
  - by apply pci_common_wf.
  - by apply config_write_wf.
  - apply (wf_frame s); try done; [|by destruct (vw_widths s Hs) as (_ & _ & _ & _ & _ & ? & _ & ?)..].
    unfold vectors. simpl. apply TableWrite_count.
  - by apply notify_reg_wf.
Qed.

Lemma pci_read_wf s off n : virtio_wf s -> virtio_wf (pci_read s off n).1.
Proof.
  intros Hs. unfold pci_read. cbv zeta. repeat case_match; try done. by apply int_status_wf.
Qed.

(** * Sequences of accesses *)

(** What the driver does on either transport, and what the device type does to
    the rings. *)
Inductive virtio_op :=
| VMmio (offset val : Z) (size_log2 : nat)
| VPciRead (offset : Z) (size_log2 : nat)
| VPci (offset val : Z) (size_log2 : nat)
| VCfgRead (cap : Z)
| VCfgWritten (cap : Z)
| VConsume (queue_idx desc_idx desc_len : Z)
| VChanged
| VNeedsReset.
Definition virtio_step (s : VIRTIODevice T) (o : virtio_op) : VIRTIODevice T :=
  match o with
  | VMmio off val n => mmio_write ops s off (u64 val) n
  | VPciRead off n => (pci_read s off n).1
  | VPci off val n => pci_write ops s off (u64 val) n
  | VCfgRead cap => ConfigRead s cap
  | VCfgWritten cap => ConfigWritten ops s cap
  | VConsume i d n => virtio_consume_desc s i d n
  | VChanged => virtio_config_change_notify s
  | VNeedsReset => virtio_set_needs_reset s
  end.

Lemma virtio_step_wf s o : virtio_wf s -> virtio_wf (virtio_step s o).
Proof.
  intros Hs. assert (H64 : forall v, 0 <= u64 v) by (intros v; by apply (inw_uw 64)).
  destruct o; cbn [virtio_step]; [by apply mmio_write_wf|by apply pci_read_wf|by apply pci_write_wf| | |by apply consume_wf|
    by apply config_change_wf|by apply needs_reset_wf].
  - unfold ConfigRead. destruct (PciCfgAccess s cap) as [[n off]|]; [|done]. pose proof (pci_read_wf s off n Hs) as Hr.
    destruct (pci_read s off n) as [s1 v]. cbn [fst] in Hr. apply (for_each_ind (fun _ s => virtio_wf s)); [|done].
    intros j t _ Ht. apply (wf_frame t); try done; by destruct (vw_widths t Ht) as (_ & _ & _ & _ & _ & ? & _ & ?).
  - unfold ConfigWritten. destruct (PciCfgAccess s cap) as [[n off]|]; [|done]. apply pci_write_wf; [done|].
    destruct (get_bits_nonneg 32 (pci_device_get_config (pci_dev s) (cap + 16) 2) 0 (Z.shiftl 8 (Z.of_nat n))); lia.
Qed.

Lemma virtio_init_wf id features space queues manual func mem t : inw 32 features -> 0 <= queues <= 8 -> length manual = MAX_QUEUE ->
  0 <= fVectorCount (msix func) <= 2048 -> virtio_wf (virtio_init id features space queues manual func mem t).
Proof.
  intros Hf Hn Hm Hv. split; simpl; [done|by rewrite !length_map| |by left| |done].
  - rewrite map_map. apply Forall_map, Forall_true. intros m. split; simpl; [by left|exists 5; done|done|by left|done].
  - split_and!; try done; unfold inw; lia.
Qed.
End Ok.


(** A device type that completes every request at once. *)
#[local] Instance no_ram : GuestRam := fun _ _ => None.
Definition null_type : VIRTIOType unit :=
  mkType unit (fun s i d _ _ => (virtio_consume_desc s i d 0, 0)) (fun s _ => s) (fun s => s) (fun s => s).
#[local] Instance null_ok : TypeOk null_type.
Proof. split; try done. intros s i d r w Hs. by apply consume_wf. Qed.
Definition bare_func : PCIFunc := mkFunc 0 0 [] [] msix_absent 0x40 0x100 [] (-1) [].

