(* ===== verification/VirtioRam.v ===== *)
(** The guest memory of the two virtio transports
    ([VIRTIOMMIOTransport::GetRamPtr], [VIRTIOPCITransport::GetRamPtr],
    [pci_device_get_dma_ptr]) as instances of the interface the copies are
    proved against, over the memory map of IoMem.v.  The dirty bits a write
    sets are those of IoMem.v. *)

From stdpp Require Import base numbers list.
From S2P Require Import Prelude Bits Cutils Pci Virtio VirtioWalk VirtioCopy IoMem.
Local Open Scope Z_scope.

Definition mmio_ram (m : PhysMemoryMap) : GuestRam := fun paddr is_rw => (GetRamPtr m paddr is_rw).1.
(** Without bus mastering a function reaches no memory. *)
Definition pci_device_get_dma_ptr (d : PCIFunc) (m : PhysMemoryMap) (paddr : Z) (is_rw : bool) : option Z :=
  if negb (nz (Z.land (cfg16 (config d) PCI_COMMAND) PCI_COMMAND_MASTER)) then None else (GetRamPtr m paddr is_rw).1.
Definition pci_ram (d : PCIFunc) (m : PhysMemoryMap) : GuestRam := pci_device_get_dma_ptr d m.

(** Ranges of whole pages. *)
Definition page_ranges (m : PhysMemoryMap) : Prop :=
  Forall (fun pr => addr pr mod 4096 = 0 /\ size pr mod 4096 = 0 /\ 0 <= addr pr /\ 0 <= size pr /\ addr pr + size pr < 2 ^ 64) (fRanges m).

Lemma covers_page pr a k : addr pr mod 4096 = 0 -> size pr mod 4096 = 0 -> 0 <= addr pr -> 0 <= size pr -> addr pr + size pr < 2 ^ 64 ->
  0 <= k -> a mod 4096 + k < 4096 -> covers (a + k) pr = covers a pr.
Proof.
  intros H1 H2 H3 H4 H5 Hk Ha. unfold covers, u64. rewrite uw_small by (unfold inw; lia).
  assert (E : (addr pr + size pr) mod 4096 = 0) by (rewrite Z.add_mod, H1, H2 by lia; done). set (e := addr pr + size pr) in *.
  pose proof (Z.div_mod (addr pr) 4096). pose proof (Z.div_mod e 4096). pose proof (Z.div_mod a 4096). pose proof (Z.mod_pos_bound a 4096).
  f_equal.
  - destruct (Z.leb_spec (addr pr) (a + k)), (Z.leb_spec (addr pr) a); lia.
  - destruct (Z.ltb_spec (a + k) e), (Z.ltb_spec a e); lia.
Qed.

Lemma find_range_page m a k : page_ranges m -> 0 <= k -> a mod 4096 + k < 4096 -> FindRange m (a + k) = FindRange m a.
Proof.
  intros Hm Hk Ha. unfold FindRange. assert (forall i, find_range (fRanges m) i (a + k) = find_range (fRanges m) i a) as H; [|apply H].
  unfold page_ranges in Hm.
  induction Hm as [|pr l (H1 & H2 & H3 & H4 & H5) Hl IH]; intros i; simpl; [done|]. rewrite covers_page by done. by rewrite IH.
Qed.

Lemma ram_ptr_page m a rw p k : page_ranges m -> (GetRamPtr m a rw).1 = Some p -> 0 <= k -> a mod 4096 + k < 4096 ->
  (GetRamPtr m (a + k) rw).1 = Some (p + k).
Proof.
  intros Hm Hp Hk Ha. unfold GetRamPtr in *. rewrite find_range_page by done. destruct (FindRange m a) as [i|]; [|done].
  destruct (is_ram _); [|done]. cbn [fst] in *. injection Hp as <-. f_equal. lia.
Qed.

(** Both transports map guest memory a page at a time. *)
#[export] Instance mmio_pages m (Hm : page_ranges m) : GuestPages (mmio_ram m).
Proof. intros a rw p k. by apply ram_ptr_page. Qed.
#[export] Instance pci_pages d m (Hm : page_ranges m) : GuestPages (pci_ram d m).
Proof.
  intros a rw p k. unfold ram_ptr, pci_ram, pci_device_get_dma_ptr. destruct (negb _); [done|]. by apply ram_ptr_page.
Qed.
