(* ===== verification/I8259.v ===== *)
(** The two cascaded interrupt controllers of a PC: [src/device/intc/i8259.h],
    [i8259.cpp].

    [intr] is the level of the processor's INTR line, as last set through
    [CPUIRQTarget].  The theorems show which interrupt the controllers want (the
    requested, unmasked input of the highest rotated priority, if it outranks all
    that is in service), what an acknowledge returns and changes, and that INTR
    follows the master's wish. *)

From stdpp Require Import base numbers list.
From S2P Require Import Prelude Bits.
Local Open Scope Z_scope.

Record PICState := mkPIC {
  last_irr : Z; irr : Z; imr : Z; isr : Z; priority_add : Z; irq_base : Z;
  read_reg_select : bool; special_mask : bool; init_state : Z; auto_eoi : bool; rotate_on_autoeoi : bool;
  init4 : bool; single : bool; sfnm : bool; poll : bool; is_master : bool; elcr : Z; elcr_mask : Z;
}.
#[export] Instance eta_PICState : Eta PICState := fun s =>
  mkPIC (last_irr s) (irr s) (imr s) (isr s) (priority_add s) (irq_base s)
    (read_reg_select s) (special_mask s) (init_state s) (auto_eoi s) (rotate_on_autoeoi s)
    (init4 s) (single s) (sfnm s) (poll s) (is_master s) (elcr s) (elcr_mask s).

Definition pic_reset (s : PICState) : PICState :=
  mkPIC 0 0 0 0 0 0 false false 0 false false false false false false (is_master s) (elcr s) (elcr_mask s).
Definition pic_init (mask : Z) (master : bool) : PICState :=
  pic_reset (mkPIC 0 0 0 0 0 0 false false 0 false false false false false false master 0 mask).

(** [~m] in an [int], kept to a [uint8_t] by what it is combined with *)
Definition pic_set_irq1 (s : PICState) (irq : Z) (level : bool) : PICState :=
  let mask := bit_at 32 irq in
  if nz (Z.land (elcr s) mask) then
    if level then s <| irr := Z.lor (irr s) mask |> <| last_irr := Z.lor (last_irr s) mask |>
    else s <| irr := Z.ldiff (irr s) mask |> <| last_irr := Z.ldiff (last_irr s) mask |>
  else
    if level then
      let s := if nz (Z.land (last_irr s) mask) then s else s <| irr := Z.lor (irr s) mask |> in
      s <| last_irr := Z.lor (last_irr s) mask |>
    else s <| last_irr := Z.ldiff (last_irr s) mask |>.

(** The search of [pic_get_priority]; a mask of eight bits that is not zero
    stops it within eight turns. *)
Fixpoint priority_loop (fuel : nat) (add mask priority : Z) : Z :=
  if nz (Z.land mask (Z.shiftl 1 (Z.land (priority + add) 7))) then priority
  else match fuel with O => priority | S fuel => priority_loop fuel add mask (priority + 1) end.
Definition pic_get_priority (s : PICState) (mask : Z) : Z :=
  if mask =? 0 then 8 else priority_loop 8 (priority_add s) mask 0.

Definition pic_get_irq (s : PICState) : Z :=
  let mask := Z.ldiff (irr s) (imr s) in
  let priority := pic_get_priority s mask in
  if priority =? 8 then -1
  else
    let mask := isr s in
    let mask := if special_mask s then Z.ldiff mask (imr s) else mask in
    let mask := if sfnm s && is_master s then set_bit 32 mask 2 false else mask in
    let cur_priority := pic_get_priority s mask in
    if priority <? cur_priority then Z.land (priority + priority_add s) 7 else -1.

Definition pic_intack (s : PICState) (irq : Z) : PICState :=
  let s := if auto_eoi s
           then if rotate_on_autoeoi s then s <| priority_add := Z.land (irq + 1) 7 |> else s
           else s <| isr := u8 (set_bit 32 (isr s) irq true) |> in
  if negb (get_bit 32 (elcr s) irq) then s <| irr := u8 (set_bit 32 (irr s) irq false) |> else s.

(** * Register accesses of one controller: the state and whether [Update] is called *)

Definition pic_command (s : PICState) (val : Z) : PICState :=
  if (val =? 0x00) || (val =? 0x80) then s <| rotate_on_autoeoi := get_bit 32 val 7 |>
  else if (val =? 0x20) || (val =? 0xa0) then
    let priority := pic_get_priority s (isr s) in
    if priority <? 8 then
      let irq := Z.land (priority + priority_add s) 7 in
      let s := s <| isr := u8 (set_bit 32 (isr s) irq false) |> in
      if val =? 0xa0 then s <| priority_add := Z.land (irq + 1) 7 |> else s
    else s
  else if (0x60 <=? val) && (val <=? 0x67) then s <| isr := u8 (set_bit 32 (isr s) (Z.land val 7) false) |>
  else if (0xc0 <=? val) && (val <=? 0xc7) then s <| priority_add := Z.land (val + 1) 7 |>
  else if (0xe0 <=? val) && (val <=? 0xe7) then
    let priority := Z.land val 7 in
    s <| isr := u8 (set_bit 32 (isr s) priority false) |> <| priority_add := Z.land (priority + 1) 7 |>
  else s.

Definition pic_write (s : PICState) (offset val : Z) : PICState * bool :=
  if negb (get_bit 32 offset 0) then
    if get_bit 32 val 4 then
      ((pic_reset s) <| init_state := 1 |> <| init4 := get_bit 32 val 0 |> <| single := get_bit 32 val 1 |>, false)
    else if get_bit 32 val 3 then
      let s := if get_bit 32 val 1 then s <| read_reg_select := get_bit 32 val 0 |> else s in
      let s := s <| poll := get_bit 32 val 2 |> in
      if get_bit 32 val 6 then (s <| special_mask := get_bit 32 val 5 |>, true) else (s, false)
    else (pic_command s val, true)
  else
    if init_state s =? 0 then (s <| imr := u8 val |>, true)
    else if init_state s =? 1 then
      let s := s <| irq_base := u8 (set_bits 32 val 0 3 0) |> in
      (s <| init_state := if negb (single s) then 2 else if init4 s then 3 else 0 |>, false)
    else if init_state s =? 2 then (s <| init_state := if init4 s then 3 else 0 |>, false)
    else if init_state s =? 3 then
      (s <| auto_eoi := get_bit 32 val 1 |> <| sfnm := get_bit 32 val 4 |> <| init_state := 0 |>, false)
    else (s, false).

Definition pic_read (s : PICState) (offset : Z) : Z * PICState * bool :=
  if poll s then
    let s := s <| poll := false |> in
    let ret := pic_get_irq s in
    if 0 <=? ret then (Z.lor ret 0x80, pic_intack s ret, true) else (0, s, true)
  else if negb (get_bit 32 offset 0) then (if read_reg_select s then isr s else irr s, s, false)
  else (imr s, s, false).

Definition pic_set_elcr (s : PICState) (e : Z) : PICState :=
  let level := Z.land e (elcr_mask s) in
  s <| irr := Z.lor (Z.ldiff (irr s) level) (Z.land (last_irr s) level) |> <| elcr := level |>.

(** * The pair *)

Record I8259Pair := mkPair { pic0 : PICState; pic1 : PICState; intr : bool }.
#[export] Instance eta_I8259Pair : Eta I8259Pair := fun p => mkPair (pic0 p) (pic1 p) (intr p).

Definition pair_init : I8259Pair := mkPair (pic_init 0xf8 true) (pic_init 0xde false) false.

Definition Update (p : I8259Pair) : I8259Pair :=
  let irq2 := pic_get_irq (pic1 p) in
  let p := if 0 <=? irq2 then p <| pic0 := pic_set_irq1 (pic_set_irq1 (pic0 p) 2 true) 2 false |> else p in
  let irq := pic_get_irq (pic0 p) in
  p <| intr := 0 <=? irq |>.

Definition pic (p : I8259Pair) (i : bool) : PICState := if i then pic1 p else pic0 p.
Definition set_pic (p : I8259Pair) (i : bool) (s : PICState) : I8259Pair := if i then p <| pic1 := s |> else p <| pic0 := s |>.
Definition update_if (u : bool) (p : I8259Pair) : I8259Pair := if u then Update p else p.

Definition Write (p : I8259Pair) (i : bool) (offset val : Z) : I8259Pair :=
  let '(s, u) := pic_write (pic p i) offset val in update_if u (set_pic p i s).
Definition Read (p : I8259Pair) (i : bool) (offset : Z) : Z * I8259Pair :=
  let '(ret, s, u) := pic_read (pic p i) offset in (ret, update_if u (set_pic p i s)).
Definition ElcrWrite (p : I8259Pair) (i : bool) (val : Z) : I8259Pair := Update (set_pic p i (pic_set_elcr (pic p i) (u8 val))).
Definition ElcrRead (p : I8259Pair) (i : bool) : Z := elcr (pic p i).
Definition SetElcr (p : I8259Pair) (e0 e1 : Z) : I8259Pair :=
  Update (mkPair (pic_set_elcr (pic0 p) e0) (pic_set_elcr (pic1 p) e1) (intr p)).
Definition SetIRQ (p : I8259Pair) (irq : Z) (level : bool) : I8259Pair :=
  let i := nz (Z.shiftr irq 3) in Update (set_pic p i (pic_set_irq1 (pic p i) (Z.land irq 7) level)).

Definition Acknowledge (p : I8259Pair) : Z * I8259Pair :=
  let irq := pic_get_irq (pic0 p) in
  if 0 <=? irq then
    let p := p <| pic0 := pic_intack (pic0 p) irq |> in
    if irq =? 2 then
      let irq2 := pic_get_irq (pic1 p) in
      if 0 <=? irq2 then
        let p := p <| pic1 := pic_intack (pic1 p) irq2 |> in (irq_base (pic1 p) + irq2, Update p)
      else (irq_base (pic1 p) + 7, Update p)
    else (irq_base (pic0 p) + irq, Update p)
  else (irq_base (pic0 p) + 7, Update p).

(** * The pair as a transition system *)

Inductive pic_op :=
| OpWrite (i : bool) (offset val : Z)
| OpRead (i : bool) (offset : Z)
| OpElcr (i : bool) (val : Z)
| OpSetElcr (e0 e1 : Z)
| OpIRQ (irq : Z) (level : bool)
| OpAck.

Definition pic_step (p : I8259Pair) (o : pic_op) : I8259Pair :=
  match o with
  | OpWrite i offset val => Write p i offset val
  | OpRead i offset => snd (Read p i offset)
  | OpElcr i val => ElcrWrite p i val
  | OpSetElcr e0 e1 => SetElcr p e0 e1
  | OpIRQ irq level => SetIRQ p irq level
  | OpAck => snd (Acknowledge p)
  end.

(** The inputs that exist; input 2 is the cascade, which no device drives. *)
Definition pic_op_ok (o : pic_op) : Prop :=
  match o with OpIRQ irq _ => 0 <= irq < 16 /\ irq <> 2 | _ => True end.

Record pic_wf (s : PICState) : Prop := {
  wf_last_irr : inw 8 (last_irr s);
  wf_irr : inw 8 (irr s);
  wf_imr : inw 8 (imr s);
  wf_isr : inw 8 (isr s);
  wf_priority_add : 0 <= priority_add s < 8;
  wf_elcr_mask : inw 8 (elcr_mask s);
  wf_elcr : inw 8 (elcr s);
}.

(** The cascade input is edge triggered, and low between the pulses [Update] makes. *)
Definition cascade (s : PICState) : Prop :=
  Z.testbit (elcr_mask s) 2 = false /\ Z.testbit (elcr s) 2 = false /\ Z.testbit (last_irr s) 2 = false.

Record pair_wf (p : I8259Pair) : Prop := {
  wf_pic0 : pic_wf (pic0 p);
  wf_pic1 : pic_wf (pic1 p);
  wf_slave : is_master (pic1 p) = false;
  wf_cascade : cascade (pic0 p);
}.

(** * What a controller wants *)

Definition rank (s : PICState) (i : Z) : Z := (i - priority_add s) mod 8.
Definition requested (s : PICState) (i : Z) : Prop :=
  0 <= i < 8 /\ Z.testbit (irr s) i = true /\ Z.testbit (imr s) i = false.
(** In service, and holding back what it outranks. *)
Definition holds (s : PICState) (j : Z) : Prop :=
  0 <= j < 8 /\ Z.testbit (isr s) j = true /\
  ~ (special_mask s = true /\ Z.testbit (imr s) j = true) /\
  ~ (sfnm s = true /\ is_master s = true /\ j = 2).
Definition wants (s : PICState) (i : Z) : Prop :=
  requested s i /\ (forall j, requested s j -> rank s i <= rank s j) /\
  (forall j, holds s j -> rank s i < rank s j).

Lemma land7 x : Z.land x 7 = x mod 8.
Proof. change 7 with (Z.ones 3). by rewrite Z.land_ones by lia. Qed.

Lemma nz_shiftl_bit m k : 0 <= k -> nz (Z.land m (Z.shiftl 1 k)) = Z.testbit m k.
Proof.
  intros Hk. rewrite <- (nz_bit_at (k + 1) m k) by lia. f_equal. f_equal.
  bits_at i Hi. rewrite bit_at_testbit by lia. rewrite Z.shiftl_1_l, testbit_pow2 by lia.
  repeat case_cmp; try lia; done.
Qed.

Lemma priority_loop_spec fuel add m : forall p q, 0 <= p -> p <= q -> q - p <= Z.of_nat fuel ->
  Z.testbit m ((q + add) mod 8) = true ->
  let r := priority_loop fuel add m p in
  p <= r <= q /\ Z.testbit m ((r + add) mod 8) = true /\
  forall k, p <= k < r -> Z.testbit m ((k + add) mod 8) = false.
Proof.
  induction fuel as [|fuel IH]; intros p q Hp Hq Hf Hb; cbn [priority_loop];
    rewrite land7, nz_shiftl_bit by (apply Z.mod_pos_bound; lia).
  - assert (q = p) as -> by lia. rewrite Hb. cbv zeta. split_and!; try done; try lia; intros; lia.
  - destruct (Z.testbit m ((p + add) mod 8)) eqn:E; cbv zeta.
    + split_and!; try done; try lia; intros; lia.
    + assert (p <> q) by congruence. destruct (IH (p + 1) q) as (H1 & H2 & H3); [lia..|done|].
      split_and!; try lia; [done|]. intros k Hk.
      destruct (decide (k = p)) as [->|]; [done|]. apply H3; lia.
Qed.

Lemma rank_range s i : 0 <= rank s i < 8.
Proof. apply Z.mod_pos_bound. lia. Qed.

Lemma rank_input s i : 0 <= i < 8 -> (rank s i + priority_add s) mod 8 = i.
Proof. intros. unfold rank. rewrite Z.add_mod_idemp_l, Z.sub_add by lia. by apply Z.mod_small. Qed.

Lemma input_rank s k : 0 <= k < 8 -> rank s ((k + priority_add s) mod 8) = k.
Proof. intros. unfold rank. rewrite Zminus_mod_idemp_l, Z.add_simpl_r. by apply Z.mod_small. Qed.

Lemma rank_inj s i j : 0 <= i < 8 -> 0 <= j < 8 -> rank s i = rank s j -> i = j.
Proof. intros Hi Hj E. rewrite <- (rank_input s i), <- (rank_input s j) by done. by rewrite E. Qed.

(** The rank of the best input of a mask, or 8. *)
Lemma pic_get_priority_spec s m : inw 8 m ->
  (pic_get_priority s m = 8 /\ m = 0) \/
  (exists i, 0 <= i < 8 /\ pic_get_priority s m = rank s i /\ Z.testbit m i = true /\
     forall j, 0 <= j < 8 -> Z.testbit m j = true -> rank s i <= rank s j).
Proof.
  intros Hm. unfold pic_get_priority. destruct (Z.eqb_spec m 0) as [|Hnz]; [by left|right].
  destruct (nonzero_bit 8 m) as (b & Hb & Hbit); [done..|].
  destruct (priority_loop_spec 8 (priority_add s) m 0 (rank s b)) as (H1 & H2 & H3);
    [lia|apply rank_range|pose proof (rank_range s b); lia|by rewrite rank_input|].
  set (r := priority_loop 8 (priority_add s) m 0) in *. pose proof (rank_range s b).
  exists ((r + priority_add s) mod 8). rewrite input_rank by lia.
  split_and!; try (apply Z.mod_pos_bound; lia); [done..|].
  intros j Hj Hjb. destruct (Z.le_gt_cases r (rank s j)) as [|Hlt]; [done|].
  exfalso. specialize (H3 (rank s j)). rewrite rank_input in H3 by done.
  rewrite H3 in Hjb; [done|]. pose proof (rank_range s j). lia.
Qed.

Definition hold_mask (s : PICState) : Z :=
  let mask := if special_mask s then Z.ldiff (isr s) (imr s) else isr s in
  if sfnm s && is_master s then set_bit 32 mask 2 false else mask.

Lemma hold_mask_testbit s j : pic_wf s -> 0 <= j ->
  Z.testbit (hold_mask s) j = true <-> holds s j.
Proof.
  intros Hwf Hj. pose proof (wf_isr s Hwf) as Hi.
  assert (Hh : 8 <= j -> Z.testbit (isr s) j = false) by (intros; by apply (inw_high 8)).
  unfold hold_mask, holds. cbv zeta.
  destruct (decide (j < 8)) as [|Hge].
  2: { split; [|lia]. destruct (special_mask s), (sfnm s && is_master s);
       autorewrite with bits; rewrite Hh by lia; simpl; rewrite ?andb_false_r; try done.
       all: destruct (Z.eqb_spec j 2); [lia|]; simpl; rewrite ?andb_false_r; done. }
  destruct (special_mask s), (sfnm s), (is_master s); simpl; autorewrite with bits;
    destruct (Z.testbit (isr s) j), (Z.testbit (imr s) j), (Z.eqb_spec j 2), (Z.ltb_spec j 32);
    simpl; try lia; naive_solver.
Qed.

Lemma inw_hold_mask s : pic_wf s -> inw 8 (hold_mask s).
Proof.
  intros Hwf. apply inw_bits; [lia|]. split.
  - unfold hold_mask. pose proof (wf_isr s Hwf) as [? _].
    destruct (sfnm s && is_master s); [apply (inw_nonneg 32); auto with inw|].
    destruct (special_mask s); [|done]. apply Z.ldiff_nonneg. by left.
  - intros j Hj. destruct (Z.testbit (hold_mask s) j) eqn:E; [|done].
    apply hold_mask_testbit in E as [? _]; [lia|done|lia].
Qed.

Lemma req_mask_testbit s i : 0 <= i < 8 ->
  Z.testbit (Z.ldiff (irr s) (imr s)) i = true <-> requested s i.
Proof.
  intros. rewrite Z.ldiff_spec. unfold requested.
  destruct (Z.testbit (irr s) i), (Z.testbit (imr s) i); naive_solver.
Qed.

Lemma pic_get_irq_cases s : pic_wf s ->
  (exists i, 0 <= i < 8 /\ pic_get_irq s = i /\ wants s i) \/
  (pic_get_irq s = -1 /\ forall i, ~ wants s i).
Proof.
  intros Hwf. unfold pic_get_irq. cbv zeta.
  change (if sfnm s && is_master s then _ else _) with (hold_mask s).
  destruct (pic_get_priority_spec s (Z.ldiff (irr s) (imr s))) as [[-> Hz]|(i & Hi & -> & Hb & Hmin)].
  { apply inw_ldiff; [lia|apply Hwf]. }
  { right. split; [done|]. intros i [Hr _]. pose proof Hr as [Hi _].
    apply req_mask_testbit in Hr; [|done]. rewrite Hz, Z.bits_0 in Hr. done. }
  pose proof (rank_range s i). destruct (Z.eqb_spec (rank s i) 8); [lia|].
  rewrite land7, rank_input by done.
  destruct (pic_get_priority_spec s (hold_mask s)) as [[-> Hz]|(j & Hj & -> & Hjb & Hjmin)];
    [by apply inw_hold_mask| |].
  - destruct (Z.ltb_spec (rank s i) 8); [|lia]. left. exists i. split_and!; try lia; try done.
    split_and!; [by apply req_mask_testbit| |].
    + intros k Hk. pose proof Hk as [? _]. apply Hmin; [lia|]. by apply req_mask_testbit.
    + intros k Hk. pose proof Hk as [? _]. apply hold_mask_testbit in Hk; [|done|lia].
      by rewrite Hz, Z.bits_0 in Hk.
  - destruct (Z.ltb_spec (rank s i) (rank s j)) as [Hlt|Hge].
    + left. exists i. split_and!; try lia; try done.
      split_and!; [by apply req_mask_testbit| |].
      * intros k Hk. pose proof Hk as [? _]. apply Hmin; [lia|]. by apply req_mask_testbit.
      * intros k Hk. pose proof Hk as [? _]. apply hold_mask_testbit in Hk; [|done|lia].
        specialize (Hjmin k ltac:(lia) Hk). lia.
    + right. split; [done|]. intros k (Hk & Hk1 & Hk2).
      apply hold_mask_testbit in Hjb; [|done|lia]. specialize (Hk2 j Hjb).
      pose proof Hk as [? _]. apply req_mask_testbit in Hk; [|done]. specialize (Hmin k ltac:(lia) Hk). lia.
Qed.

Lemma wants_range s i : wants s i -> 0 <= i < 8.
Proof. by intros [[? _] _]. Qed.

Lemma wants_unique s i j : wants s i -> wants s j -> i = j.
Proof.
  intros Hi Hj. pose proof (wants_range s i Hi). pose proof (wants_range s j Hj).
  destruct Hi as (Ri & Mi & _), Hj as (Rj & Mj & _).
  apply (rank_inj s); try done. specialize (Mi j Rj). specialize (Mj i Ri). lia.
Qed.

Lemma pic_get_irq_wants s i : pic_wf s -> wants s i -> pic_get_irq s = i.
Proof.
  intros Hwf Hi. destruct (pic_get_irq_cases s Hwf) as [(j & _ & -> & Hj)|[_ Hn]].
  - by apply (wants_unique s).
  - by destruct (Hn i).
Qed.

Lemma pic_get_irq_none s : pic_wf s -> (forall i, ~ wants s i) -> pic_get_irq s = -1.
Proof. intros Hwf Hn. destruct (pic_get_irq_cases s Hwf) as [(j & _ & _ & Hj)|[-> _]]; [by destruct (Hn j)|done]. Qed.

Lemma pic_get_irq_pos s : pic_wf s -> (0 <=? pic_get_irq s) = true <-> exists i, wants s i.
Proof.
  intros Hwf. destruct (pic_get_irq_cases s Hwf) as [(j & Hr & -> & Hj)|[-> Hn]].
  - split; [by exists j|]. intros _. destruct (Z.leb_spec 0 j); [done|lia].
  - split; [done|]. intros [i Hi]. by destruct (Hn i).
Qed.
Opaque pic_get_irq pic_get_priority.

(** * The invariant *)

(** What the commands and the acknowledge of one controller leave alone. *)
Definition keeps (s s' : PICState) : Prop :=
  pic_wf s' /\ is_master s' = is_master s /\ elcr_mask s' = elcr_mask s /\ elcr s' = elcr s /\
  (last_irr s' = last_irr s \/ last_irr s' = 0).

Lemma mod8_range x : 0 <= Z.land x 7 < 8.
Proof. rewrite land7. apply Z.mod_pos_bound. lia. Qed.

Create HintDb pic discriminated.
#[export] Hint Resolve inw_uw inw_0 mod8_range inw_lor inw_ldiff inw_land_l inw_land_r : pic.
#[export] Hint Extern 1 (0 <= 8) => lia : pic.
#[export] Hint Extern 1 (0 <= 0 < 8) => lia : pic.

Ltac pic_keeps := match goal with H : pic_wf _ |- _ => destruct H end;
  repeat case_match; split_and!; try match goal with |- pic_wf _ => constructor end; simpl; unfold u8; auto with pic.

Lemma pic_intack_keeps s irq : pic_wf s -> keeps s (pic_intack s irq).
Proof. intros. unfold pic_intack. pic_keeps. Qed.

Lemma pic_command_keeps s val : pic_wf s -> keeps s (pic_command s val).
Proof. intros. unfold pic_command. pic_keeps. Qed.

Lemma pic_write_keeps s offset val : pic_wf s -> keeps s (pic_write s offset val).1.
Proof.
  intros Hwf. unfold pic_write.
  destruct (negb (get_bit 32 offset 0)); [destruct (get_bit 32 val 4); [|destruct (get_bit 32 val 3)]|].
  3: by apply pic_command_keeps.
  all: pic_keeps.
Qed.

Lemma pic_read_keeps s offset : pic_wf s -> keeps s (pic_read s offset).1.2.
Proof.
  intros Hwf. unfold pic_read. assert (Hp : pic_wf (s <| poll := false |>)) by (destruct Hwf; by constructor).
  destruct (poll s); [destruct (0 <=? _)|]; [by apply (pic_intack_keeps _ _ Hp)| |]; pic_keeps.
Qed.

Lemma pic_set_irq1_wf s irq level : pic_wf s -> 0 <= irq < 8 -> pic_wf (pic_set_irq1 s irq level).
Proof.
  intros Hwf Hi. assert (inw 8 (bit_at 32 irq)).
  { apply inw_bits; [lia|]. split; [apply (inw_nonneg 32); auto with inw|].
    intros j Hj. rewrite bit_at_testbit by lia. repeat case_cmp; try lia; done. }
  unfold pic_set_irq1. destruct Hwf. repeat case_match; constructor; simpl; auto with pic.
Qed.

Lemma pic_set_elcr_wf s e : pic_wf s -> pic_wf (pic_set_elcr s e).
Proof. intros []. constructor; simpl; auto 7 with pic. Qed.

Lemma keeps_cascade s s' : keeps s s' -> cascade s -> cascade s'.
Proof. intros (_ & _ & E1 & E2 & E3) (? & ? & ?). unfold cascade. rewrite E1, E2. by destruct E3 as [-> | ->]. Qed.

Lemma pic_set_elcr_cascade s e : cascade s -> cascade (pic_set_elcr s e).
Proof. intros (H1 & H2 & H3). split_and!; try done. simpl. rewrite Z.land_spec, H1. by rewrite andb_false_r. Qed.

Lemma pic_set_irq1_cascade s irq level : 0 <= irq < 8 -> irq <> 2 -> cascade s -> cascade (pic_set_irq1 s irq level).
Proof.
  intros Hi Hne (H1 & H2 & H3). unfold pic_set_irq1.
  repeat case_match; split_and!; try done; simpl; autorewrite with bits; rewrite H3;
    destruct (Z.eqb_spec 2 irq); try lia; done.
Qed.

Lemma set_pic_wf p i s : pair_wf p -> pic_wf s -> is_master s = is_master (pic p i) ->
  (i = false -> cascade s) -> pair_wf (set_pic p i s).
Proof. intros [] Hs Hm Hc. destruct i; constructor; simpl in *; try done; [by rewrite Hm|by apply Hc]. Qed.

Lemma pic_wf_at p i : pair_wf p -> pic_wf (pic p i).
Proof. by intros []; destruct i. Qed.

Lemma set_pic_keeps p i s : pair_wf p -> keeps (pic p i) s -> pair_wf (set_pic p i s).
Proof.
  intros Hp Hk. apply set_pic_wf; [done|apply Hk|apply Hk|]. intros ->. apply (keeps_cascade _ _ Hk), Hp.
Qed.

(** INTR is what the master wants, and the master has the slave's request. *)
Definition agrees (p : I8259Pair) : Prop :=
  (intr p = true <-> exists i, wants (pic0 p) i) /\
  ((exists j, wants (pic1 p) j) -> Z.testbit (irr (pic0 p)) 2 = true).

(** The pulse [Update] puts on the cascade input. *)
Lemma cascade_pulse s : cascade s -> pic_set_irq1 (pic_set_irq1 s 2 true) 2 false =
  s <| irr := Z.lor (irr s) 4 |>.
Proof.
  intros (H1 & H2 & H3). unfold pic_set_irq1 at 2. cbv zeta.
  rewrite (nz_bit_at 32 (elcr s)), (nz_bit_at 32 (last_irr s)), H2, H3 by lia.
  unfold pic_set_irq1. simpl. rewrite (nz_bit_at 32 (elcr s)), H2 by lia.
  unfold set_with. simpl. f_equal. bits_at i Hi. autorewrite with bits.
  destruct (Z.eqb_spec i 2) as [->|]; simpl; rewrite ?andb_false_r, ?orb_false_r, ?H3; simpl; rewrite ?andb_true_r; done.
Qed.

Lemma Update_pic1 p : pic1 (Update p) = pic1 p.
Proof. unfold Update. cbv zeta. by destruct (0 <=? pic_get_irq (pic1 p)). Qed.

Lemma Update_pic0 p : pair_wf p ->
  pic0 (Update p) = pic0 p \/ pic0 (Update p) = (pic0 p) <| irr := Z.lor (irr (pic0 p)) 4 |>.
Proof.
  intros Hp. unfold Update. cbv zeta. destruct (0 <=? pic_get_irq (pic1 p)); [right|by left].
  simpl. apply cascade_pulse, Hp.
Qed.

Lemma Update_agrees p : pair_wf p -> pair_wf (Update p) /\ agrees (Update p).
Proof.
  intros Hp. assert (Hwf : pair_wf (Update p)).
  { pose proof (Update_pic1 p) as E1. destruct Hp as [H0 H1 H2 H3]. constructor; rewrite ?E1; try done;
      (destruct (Update_pic0 p) as [-> | ->]; [by constructor|done|]); [|done].
    destruct H0. constructor; simpl; auto with pic. apply inw_lor; [lia|done|in_range]. }
  split; [done|]. split.
  - rewrite <- pic_get_irq_pos by apply Hwf. unfold Update. cbv zeta. by destruct (0 <=? pic_get_irq (pic1 p)).
  - rewrite <- pic_get_irq_pos by apply Hwf. rewrite Update_pic1. unfold Update. cbv zeta. intros ->. simpl.
    rewrite cascade_pulse by apply Hp. simpl. rewrite Z.lor_spec. apply orb_true_r.
Qed.

Lemma update_if_wf u p : pair_wf p -> pair_wf (update_if u p).
Proof. intros. destruct u; [by apply Update_agrees|done]. Qed.

Lemma Acknowledge_wf p : pair_wf p -> pair_wf (Acknowledge p).2 /\ agrees (Acknowledge p).2.
Proof.
  intros Hp. unfold Acknowledge. cbv zeta.
  assert (Ha : forall irq, pair_wf (p <| pic0 := pic_intack (pic0 p) irq |>)).
  { intros. apply (set_pic_keeps p false); [done|]. apply pic_intack_keeps, Hp. }
  destruct (0 <=? _); [destruct (_ =? 2); [destruct (0 <=? _)|]|]; simpl; apply Update_agrees; try done.
  apply (set_pic_keeps _ true); [done|]. apply pic_intack_keeps, Hp.
Qed.

Lemma ElcrWrite_wf p i v : pair_wf p -> pair_wf (ElcrWrite p i v) /\ agrees (ElcrWrite p i v).
Proof.
  intros Hp. apply Update_agrees, set_pic_wf; [done|by apply pic_set_elcr_wf, pic_wf_at|done|].
  intros ->. apply pic_set_elcr_cascade, Hp.
Qed.

Lemma SetElcr_wf p e0 e1 : pair_wf p -> pair_wf (SetElcr p e0 e1) /\ agrees (SetElcr p e0 e1).
Proof.
  intros []. apply Update_agrees. constructor; simpl; try done; try by apply pic_set_elcr_wf.
  by apply pic_set_elcr_cascade.
Qed.

Lemma SetIRQ_wf p irq l : pair_wf p -> 0 <= irq < 16 -> irq <> 2 ->
  pair_wf (SetIRQ p irq l) /\ agrees (SetIRQ p irq l).
Proof.
  intros Hp Hr Hne. apply Update_agrees, set_pic_wf;
    [done|apply pic_set_irq1_wf; [by apply pic_wf_at|apply mod8_range]| |].
  - unfold pic_set_irq1. by repeat case_match.
  - intros E. rewrite E. assert (irq < 8 /\ Z.land irq 7 = irq) as [Hlt Hmod].
    { unfold nz in E. rewrite Z.shiftr_div_pow2, negb_false_iff, Z.eqb_eq in E by lia.
      change (2 ^ 3) with 8 in E. rewrite land7. Z.div_mod_to_equations. lia. }
    apply pic_set_irq1_cascade; [apply mod8_range|lia|apply Hp].
Qed.

Lemma pic_step_wf p o : pair_wf p -> pic_op_ok o -> pair_wf (pic_step p o).
Proof.
  intros Hp Ho. pose proof (fun i => pic_wf_at p i Hp) as Hi. destruct o as [i off v|i off|i v|e0 e1|irq l|]; simpl.
  - unfold Write. pose proof (pic_write_keeps _ off v (Hi i)) as Hk. destruct (pic_write _ _ _).
    by apply update_if_wf, set_pic_keeps.
  - unfold Read. pose proof (pic_read_keeps _ off (Hi i)) as Hk. destruct (pic_read _ _) as [[ret s] u].
    by apply update_if_wf, set_pic_keeps.
  - by apply ElcrWrite_wf.
  - by apply SetElcr_wf.
  - by apply SetIRQ_wf; destruct Ho.
  - by apply Acknowledge_wf.
Qed.

Lemma pair_init_wf : pair_wf pair_init.
Proof. repeat constructor; try in_range; done. Qed.

Lemma pic_reachable_wf ops : Forall pic_op_ok ops -> pair_wf (foldl pic_step pair_init ops).
Proof.
  intros H. assert (forall p, pair_wf p -> pair_wf (foldl pic_step p ops)) as Hp; [|apply Hp, pair_init_wf].
  induction H as [|o ops Ho _ IH]; intros p Hp; [done|]. by apply IH, pic_step_wf.
Qed.

(** * Acknowledging *)

(** What taking input [i] does to a controller: unless interrupts end by
    themselves, [i] is in service, and holds back all it outranks; the edge that
    asked for it is spent.  [master] leaves out input 2, which asks again at once
    when the slave wants more. *)
Record taken (master : bool) (s s' : PICState) (i : Z) : Prop := {
  taken_isr : forall k, 0 <= k < 8 ->
    Z.testbit (isr s') k = Z.testbit (isr s) k || ((k =? i) && negb (auto_eoi s));
  taken_irr : forall k, 0 <= k < 8 -> (master = true -> k <> 2) ->
    Z.testbit (irr s') k = Z.testbit (irr s) k && negb ((k =? i) && negb (Z.testbit (elcr s) i));
  taken_holds : auto_eoi s = false -> ~ (sfnm s = true /\ is_master s = true /\ i = 2) ->
    forall k, wants s' k -> rank s k < rank s i;
}.

Lemma pic_intack_taken s i m (c : Z) : 0 <= i < 8 -> Z.testbit (imr s) i = false -> (c = 0 \/ m = true /\ c = 4) ->
  let s' := pic_intack s i in taken m s (s' <| irr := Z.lor (irr s') c |>) i.
Proof.
  intros Hi Hmask Hc s'. split.
  - intros k Hk. unfold s', pic_intack, u8. destruct (auto_eoi s), (rotate_on_autoeoi s), (get_bit _ _ _); simpl;
      rewrite ?andb_false_r, ?orb_false_r, ?andb_true_r; try done; autorewrite with bits;
      repeat case_cmp; try lia; simpl; rewrite ?orb_false_r, ?orb_true_r, ?andb_true_r; done.
  - intros k Hk Hm. assert (Hck : Z.testbit c k = false).
    { destruct Hc as [-> | [-> ->]]; [apply Z.bits_0|]. change 4 with (2 ^ 2). rewrite testbit_pow2 by lia.
      specialize (Hm eq_refl). by destruct (Z.eqb_spec k 2). }
    simpl. rewrite Z.lor_spec, Hck, orb_false_r. unfold s', pic_intack, u8.
    rewrite <- (get_bit_testbit 32 (elcr s)) by lia.
    destruct (auto_eoi s), (rotate_on_autoeoi s); simpl;
      (destruct (get_bit 32 (elcr s) i); simpl; [by rewrite andb_false_r, andb_true_r|]); autorewrite with bits;
      repeat case_cmp; try lia; simpl; rewrite ?orb_false_r, ?andb_false_r, ?andb_true_r; done.
  - intros Ha Hn k (_ & _ & Hk).
    assert (Hp : forall x, rank (s' <| irr := Z.lor (irr s') c |>) x = rank s x)
      by (intros x; unfold s', pic_intack; rewrite Ha; by destruct (negb _)).
    rewrite <- !Hp. apply Hk. unfold s', pic_intack. rewrite Ha.
    assert (Hb : Z.testbit (u8 (set_bit 32 (isr s) i true)) i = true).
    { unfold u8. autorewrite with bits. repeat case_cmp; try lia; done. }
    destruct (negb _); split_and!; simpl; try done; try lia; try (rewrite Hmask; naive_solver); naive_solver.
Qed.

Lemma lor_0_irr s : s <| irr := Z.lor (irr s) 0 |> = s.
Proof. unfold set_with. simpl. rewrite Z.lor_0_r. by destruct s. Qed.

Lemma Update_taken s p i : pic0 p = pic_intack s i -> pair_wf p -> wants s i -> taken true s (pic0 (Update p)) i.
Proof.
  intros E Hp [(Hi & _ & Hm) _]. destruct (Update_pic0 p Hp) as [-> | ->]; rewrite E.
  - pose proof (pic_intack_taken s i true 0 Hi Hm (or_introl eq_refl)) as H. simpl in H. by rewrite lor_0_irr in H.
  - apply pic_intack_taken; [done..|]. right. done.
Qed.

(** C27: In every state the guest and the devices can bring the two interrupt
    controllers to, an acknowledge returns the vector of the input the master
    wants (requested, unmasked, of the least rotated rank, outranking all that is
    in service), or, for the cascade input, of the one the slave wants; a
    controller that wants nothing answers with its input 7, and changes nothing.
    Each input taken is in service until it is ended, unless it ends by itself,
    lets nothing through that it outranks, and its edge is spent; and the
    processor's INTR line is then up just when the master wants another. *)
Theorem acknowledge_exact ops : Forall pic_op_ok ops ->
  let p := foldl pic_step pair_init ops in let '(v, p') := Acknowledge p in
  agrees p' /\
  ((forall i, ~ wants (pic0 p) i) -> v = irq_base (pic0 p) + 7 /\ p' = Update p) /\
  (forall i, wants (pic0 p) i -> taken true (pic0 p) (pic0 p') i /\
     (i <> 2 -> v = irq_base (pic0 p) + i /\ pic1 p' = pic1 p) /\
     (i = 2 -> (forall j, wants (pic1 p) j -> v = irq_base (pic1 p) + j /\ taken false (pic1 p) (pic1 p') j) /\
               ((forall j, ~ wants (pic1 p) j) -> v = irq_base (pic1 p) + 7 /\ pic1 p' = pic1 p))).
Proof.
  intros Hops p. pose proof (pic_reachable_wf ops Hops) as Hp. fold p in Hp. clearbody p. clear ops Hops.
  destruct (Acknowledge p) as [v p'] eqn:E. split; [change p' with (v, p').2; rewrite <- E; by apply Acknowledge_wf|].
  assert (Ha : forall irq, pair_wf (p <| pic0 := pic_intack (pic0 p) irq |>)).
  { intros. apply (set_pic_keeps p false); [done|]. apply pic_intack_keeps, Hp. }
  assert (Hb : irq_base (pic_intack (pic0 p) (pic_get_irq (pic0 p))) = irq_base (pic0 p)
             /\ forall j, irq_base (pic_intack (pic1 p) j) = irq_base (pic1 p))
    by (split; intros; unfold pic_intack; by repeat case_match).
  destruct Hb as [Hb0 Hb1]. unfold Acknowledge in E. cbv zeta in E. split.
  - intros Hn. rewrite (pic_get_irq_none _ (wf_pic0 p Hp) Hn) in E. by injection E as <- <-.
  - intros i Hi. pose proof (wants_range _ _ Hi).
    rewrite (pic_get_irq_wants _ _ (wf_pic0 p Hp) Hi) in E, Hb0.
    destruct (Z.leb_spec 0 i); [|lia]. destruct (Z.eqb_spec i 2) as [Ei|Hne]; [subst i|].
    + simpl in E. destruct (pic_get_irq_cases _ (wf_pic1 p Hp)) as [(j & Hj & Ej & Hw)|[Ej Hn]]; rewrite Ej in E.
      * destruct (Z.leb_spec 0 j); [|lia]. simpl in E. rewrite Hb1 in E. injection E as <- <-. split_and!; [|done|].
        -- apply Update_taken; [done| |done]. apply (set_pic_keeps _ true); [apply Ha|]. apply pic_intack_keeps, Hp.
        -- intros _. split; [|intros Hn; by destruct (Hn j)]. intros k Hk.
           rewrite (wants_unique _ _ _ Hk Hw). split; [done|]. rewrite Update_pic1. simpl.
           destruct Hw as [(? & _ & Hm) _].
           pose proof (pic_intack_taken (pic1 p) j false 0 ltac:(lia) Hm (or_introl eq_refl)) as Ht.
           simpl in Ht. by rewrite lor_0_irr in Ht.
      * simpl in E. injection E as <- <-. split_and!; [by apply Update_taken|done|].
        intros _. split; [intros k Hk; by destruct (Hn k)|]. intros _. by rewrite Update_pic1.
    + simpl in E. rewrite Hb0 in E. injection E as <- <-. split_and!; [by apply Update_taken| |done].
      intros _. by rewrite Update_pic1.
Qed.

(** A timer tick on input 0 and a request of the slave's input 4, after the
    usual initialisation with the vectors at 0x20 and 0x28. *)
Definition boot_ops : list pic_op :=
  [OpWrite false 0 0x11; OpWrite false 1 0x20; OpWrite false 1 4; OpWrite false 1 1;
   OpWrite true 0 0x11; OpWrite true 1 0x28; OpWrite true 1 2; OpWrite true 1 1; OpIRQ 12 true; OpIRQ 0 true].

Lemma acknowledge_exact_witness : (Acknowledge (foldl pic_step pair_init boot_ops)).1 = 0x20 /\
  (Acknowledge (foldl pic_step pair_init (boot_ops ++ [OpAck; OpWrite false 0 0x20]))).1 = 0x2c /\
  agrees (Acknowledge (foldl pic_step pair_init (boot_ops ++ [OpAck; OpWrite false 0 0x20]))).2.
Proof.
  split; [by vm_compute|]. split; [by vm_compute|].
  assert (Forall pic_op_ok (boot_ops ++ [OpAck; OpWrite false 0 0x20])) as H
    by (repeat apply Forall_cons_2; simpl; try done; lia).
  pose proof (acknowledge_exact _ H) as Ha. cbv zeta in Ha.
  destruct (Acknowledge (foldl pic_step pair_init (boot_ops ++ _))) as [v p']. apply Ha.
Defined.

(** * The INTR line *)

(** A write that initialises the master: ICW1, or ICW4, the last of the sequence. *)
Definition reinit (p : I8259Pair) (o : pic_op) : bool :=
  match o with
  | OpWrite false offset val => if get_bit 32 offset 0 then init_state (pic0 p) =? 3 else get_bit 32 val 4
  | _ => false
  end.

Lemma wants_reset s i : ~ wants (pic_reset s) i.
Proof. intros [(_ & H & _) _]. simpl in H. by rewrite Z.bits_0 in H. Qed.

(** What the registers a controller's wishes depend on determine. *)
Lemma wants_ext s s' : irr s' = irr s -> imr s' = imr s -> isr s' = isr s -> priority_add s' = priority_add s ->
  special_mask s' = special_mask s -> is_master s' = is_master s -> (is_master s = true -> sfnm s' = sfnm s) ->
  forall i, wants s' i <-> wants s i.
Proof.
  intros E1 E2 E3 E4 E5 E6 E7 i. unfold wants, requested, holds, rank. rewrite E1, E2, E3, E4, E5, E6.
  destruct (is_master s); [by rewrite E7|].
  assert (forall b j, (b = true /\ false = true /\ j = 2) <-> False) as Hf by naive_solver.
  by setoid_rewrite Hf.
Qed.

(** A write after which the processor is not asked again leaves the wishes as
    they were, an initialisation word apart. *)
Lemma pic_write_quiet s offset val : (pic_write s offset val).2 = false ->
  (if get_bit 32 offset 0 then init_state s =? 3 else get_bit 32 val 4) = false ->
  (forall i, wants (pic_write s offset val).1 i <-> wants s i) /\ irr (pic_write s offset val).1 = irr s.
Proof.
  intros Hq Hr. unfold pic_write in *. destruct (get_bit 32 offset 0); simpl in *.
  - rewrite Hr in *. repeat case_match; simpl in *; try done; (split; [by apply wants_ext|done]).
  - rewrite Hr in *. repeat case_match; simpl in *; try done; (split; [by apply wants_ext|done]).
Qed.

Lemma slave_write_quiet s offset val i : (pic_write s offset val).2 = false -> is_master s = false ->
  wants (pic_write s offset val).1 i -> wants s i.
Proof.
  intros Hq Hm Hw.
  destruct (if get_bit 32 offset 0 then init_state s =? 3 else get_bit 32 val 4) eqn:E;
    [|by apply (pic_write_quiet s offset val)].
  unfold pic_write in *. destruct (get_bit 32 offset 0); simpl in *.
  - apply Z.eqb_eq in E. rewrite E in Hw. simpl in Hw. eapply wants_ext; [..|exact Hw]; simpl; try done.
    intros; congruence.
  - rewrite E in Hw. simpl in Hw. destruct (wants_reset s i). eapply wants_ext; [..|exact Hw]; done.
Qed.

Lemma pic_read_quiet s offset : (pic_read s offset).2 = false -> (pic_read s offset).1.2 = s.
Proof. unfold pic_read. by repeat case_match. Qed.

(** The processor's INTR line follows the master, and the master has the
    slave's request: true of the controllers at reset, and kept by every operation
    other than the two initialisation words of the master. *)
Theorem intr_follows ops o : Forall pic_op_ok ops -> pic_op_ok o ->
  let p := foldl pic_step pair_init ops in
  agrees pair_init /\ (agrees p -> reinit p o = false -> agrees (pic_step p o)).
Proof.
  intros Hops Ho p. pose proof (pic_reachable_wf ops Hops) as Hp. fold p in Hp. clearbody p.
  split; [split; [split; [done|]|]; intros [i [(_ & H & _) _]]; simpl in H; by rewrite Z.bits_0 in H|].
  intros Ha Hr. destruct o as [i off v|i off|i v|e0 e1|irq l|]; simpl in *.
  - unfold Write. pose proof (pic_write_keeps _ off v (pic_wf_at p i Hp)) as Hk.
    pose proof (pic_write_quiet (pic p i) off v) as Hq.
    pose proof (slave_write_quiet (pic p i) off v) as Hsl.
    destruct (pic_write (pic p i) off v) as [s u]. destruct u; [by apply Update_agrees, set_pic_keeps|].
    destruct Ha as [H1 H2], i; simpl in *.
    + split; [done|]. intros [j Hj]. apply H2. exists j. apply Hsl; [done|apply Hp|done].
    + destruct Hq as [Hq1 Hq2]; [done..|]. unfold agrees. simpl. setoid_rewrite Hq1. by rewrite Hq2.
  - unfold Read. pose proof (pic_read_keeps _ off (pic_wf_at p i Hp)) as Hk.
    pose proof (pic_read_quiet (pic p i) off) as Hq. destruct (pic_read (pic p i) off) as [[ret s] u]. simpl in *.
    destruct u; [by apply Update_agrees, set_pic_keeps|]. rewrite Hq by done. by destruct i, p.
  - by apply ElcrWrite_wf.
  - by apply SetElcr_wf.
  - by apply SetIRQ_wf; destruct Ho.
  - by apply Acknowledge_wf.
Qed.

Lemma intr_follows_witness : agrees (pic_step pair_init (OpIRQ 4 true)) /\
  intr (pic_step pair_init (OpIRQ 4 true)) = true.
Proof.
  assert (pic_op_ok (OpIRQ 4 true)) as Ho by (simpl; lia). split; [|by vm_compute].
  destruct (intr_follows [] (OpIRQ 4 true) (Forall_nil_2 _) Ho) as [H1 H2]. by apply H2.
Defined.

(** With a request pending, ICW1 clears the master but leaves INTR up, so the
    processor takes a spurious interrupt at vector 7. *)
Lemma icw1_leaves_intr :
  let p := foldl pic_step pair_init [OpIRQ 4 true; OpWrite false 0 0x11] in
  intr p = true /\ pic_get_irq (pic0 p) = -1 /\ (Acknowledge p).1 = 7.
Proof. by vm_compute. Qed.
