(* ===== verification/IoApic.v ===== *)
(** The I/O APIC of a PC: [src/device/intc/ioapic.h], [ioapic.cpp].

    [fSent] is the messages given to [PCIMsiTarget::SendMsi], oldest first.  The
    reference description changes the registers first and then lets every input
    that is due send at once; the theorem shows that each handler, which looks only
    at the inputs it touches, does the same, so that no level-triggered interrupt
    is lost or sent twice. *)

From stdpp Require Import base numbers list.
From S2P Require Import Prelude Bits.
Local Open Scope Z_scope.

Definition IOAPIC_PINS : Z := 24.
Definition IOREGSEL : Z := 0x00.
Definition IOWIN : Z := 0x10.
Definition IOAPICID : Z := 0x00.
Definition IOAPICVER : Z := 0x01.
Definition IOAPICARB : Z := 0x02.
Definition IOREDTBL : Z := 0x10.
Definition IOAPIC_VERSION : Z := 0x11.
Definition RTE_DELIVERY_STATUS : Z := bit_at 64 12.
Definition RTE_REMOTE_IRR : Z := bit_at 64 14.
Definition RTE_LEVEL : Z := bit_at 64 15.
Definition RTE_MASKED : Z := bit_at 64 16.
Definition RTE_READ_ONLY : Z := Z.lor RTE_DELIVERY_STATUS RTE_REMOTE_IRR.
Definition RTE_WRITABLE_LOW : Z := 0x0001afff.
Definition RTE_WRITABLE_HIGH : Z := 0xff000000.

Record IOAPIC := mkIOAPIC {
  fId : Z; fSelect : Z; fRedirection : list Z; fLevels : Z; fSent : list (Z * Z);
}.
#[export] Instance eta_IOAPIC : Eta IOAPIC := fun s =>
  mkIOAPIC (fId s) (fSelect s) (fRedirection s) (fLevels s) (fSent s).

Definition ioapic_init (id : Z) : IOAPIC := mkIOAPIC id 0 (replicate 24 RTE_MASKED) 0 [].

Definition rte_at (s : IOAPIC) (pin : Z) : Z := arr_get 0 (fRedirection s) pin.
Definition set_rte (s : IOAPIC) (pin v : Z) : IOAPIC := s <| fRedirection := arr_set (fRedirection s) pin v |>.

Definition Send (s : IOAPIC) (pin : Z) : IOAPIC :=
  let rte := rte_at s pin in
  let addr := Z.lor (Z.lor 0xfee00000 (u64 (Z.shiftl (get_bits 64 rte 56 8) 12)))
                    (Z.shiftl (Z_of_bool (get_bit 64 rte 11)) 2) in
  let data := u32 (get_bits 64 rte 0 11) in
  let '(data, s) :=
    if nz (Z.land rte RTE_LEVEL)
    then (Z.lor data (Z.lor (bit_at 32 15) (bit_at 32 14)), set_rte s pin (Z.lor (rte_at s pin) RTE_REMOTE_IRR))
    else (data, s) in
  s <| fSent := fSent s ++ [(addr, data)] |>.

Definition Service (s : IOAPIC) (pin : Z) : IOAPIC :=
  let rte := rte_at s pin in
  if nz (Z.land rte RTE_LEVEL) && negb (nz (Z.land rte (Z.lor RTE_MASKED RTE_REMOTE_IRR))) &&
     get_bit 32 (fLevels s) pin
  then Send s pin else s.

Definition SetIRQ (s : IOAPIC) (pin : Z) (level : bool) : IOAPIC :=
  let was := get_bit 32 (fLevels s) pin in
  let s := s <| fLevels := if level then Z.lor (fLevels s) (bit_at 32 pin) else Z.ldiff (fLevels s) (bit_at 32 pin) |> in
  if nz (Z.land (rte_at s pin) RTE_LEVEL) then Service s pin
  else if level && negb was && negb (nz (Z.land (rte_at s pin) RTE_MASKED)) then Send s pin
  else s.

Definition Eoi (s : IOAPIC) (vector : Z) : IOAPIC :=
  for_each 24 0 (fun pin s =>
    let rte := rte_at s pin in
    if nz (Z.land rte RTE_REMOTE_IRR) && (get_bits 64 rte 0 8 =? vector)
    then Service (set_rte s pin (Z.ldiff rte RTE_REMOTE_IRR)) pin
    else s) s.

Definition DeviceRead (s : IOAPIC) (offset : Z) : Z :=
  if offset =? IOREGSEL then fSelect s
  else if negb (offset =? IOWIN) then 0
  else if (fSelect s =? IOAPICID) || (fSelect s =? IOAPICARB) then u32 (Z.shiftl (fId s) 24)
  else if fSelect s =? IOAPICVER then Z.lor (Z.shiftl (IOAPIC_PINS - 1) 16) IOAPIC_VERSION
  else if (IOREDTBL <=? fSelect s) && (fSelect s <? IOREDTBL + 2 * IOAPIC_PINS) then
    let pin := (fSelect s - IOREDTBL) / 2 in
    Z.shiftr (rte_at s pin) (Z.land (fSelect s) 1 * 32)
  else 0.

(** An entry after one of its halves was written. *)
Definition write_rte (rte val : Z) (high : bool) : Z :=
  if high then Z.lor (Z.land rte 0xffffffff) (u64 (Z.shiftl (Z.land val RTE_WRITABLE_HIGH) 32))
  else
    let rte := Z.lor (Z.lor (Z.ldiff rte 0xffffffff) (Z.land rte RTE_READ_ONLY)) (Z.land val RTE_WRITABLE_LOW) in
    if negb (nz (Z.land rte RTE_LEVEL)) then Z.ldiff rte RTE_REMOTE_IRR else rte.

Definition DeviceWrite (s : IOAPIC) (offset val : Z) : IOAPIC :=
  if offset =? IOREGSEL then s <| fSelect := u8 val |>
  else if negb (offset =? IOWIN) then s
  else if fSelect s =? IOAPICID then s <| fId := get_bits 64 val 24 4 |>
  else if (IOREDTBL <=? fSelect s) && (fSelect s <? IOREDTBL + 2 * IOAPIC_PINS) then
    let pin := (fSelect s - IOREDTBL) / 2 in
    let rte := write_rte (rte_at s pin) val (nz (Z.land (fSelect s) 1)) in
    Service (set_rte s pin rte) pin
  else s.

(** * The controller as a transition system *)

Inductive ioapic_op := IoIrq (pin : Z) (level : bool) | IoEoi (vector : Z) | IoWrite (offset val : Z).
Definition ioapic_op_ok (o : ioapic_op) : Prop :=
  match o with IoIrq pin _ => 0 <= pin < IOAPIC_PINS | _ => True end.
Definition ioapic_step (s : IOAPIC) (o : ioapic_op) : IOAPIC :=
  match o with
  | IoIrq pin level => SetIRQ s pin level
  | IoEoi vector => Eoi s vector
  | IoWrite offset val => DeviceWrite s offset val
  end.

(** * The reference description *)

Definition level_triggered (rte : Z) : bool := Z.testbit rte 15.
Definition masked (rte : Z) : bool := Z.testbit rte 16.
Definition waiting (rte : Z) : bool := Z.testbit rte 14.
Definition vector_of (rte : Z) : Z := get_bits 64 rte 0 8.
(** A level-triggered input that is asserted, unmasked and not waiting for its EOI. *)
Definition due (levels : Z) (pin : Z) (rte : Z) : bool :=
  level_triggered rte && negb (masked rte) && negb (waiting rte) && Z.testbit levels pin.

(** The message of an entry: its destination and the low eleven bits, with the
    level and the assertion of a level-triggered one. *)
Definition message (rte : Z) : Z * Z :=
  (0xfee00000 + get_bits 64 rte 56 8 * 0x1000 + (if Z.testbit rte 11 then 4 else 0),
   rte mod 2048 + if level_triggered rte then 0xc000 else 0).

Definition pins : list Z := seqZ 0 24.

(** Every input that is due sends its message, in order, and waits. *)
Definition settle (s : IOAPIC) : IOAPIC :=
  let send := filter (fun pin => due (fLevels s) pin (rte_at s pin) = true) pins in
  s <| fRedirection := imap (fun i rte => if due (fLevels s) (Z.of_nat i) rte then Z.setbit rte 14 else rte)
                         (fRedirection s) |>
    <| fSent := fSent s ++ (message ∘ rte_at s <$> send) |>.

(** What an operation does before the inputs that are due send. *)
Definition change (s : IOAPIC) (o : ioapic_op) : IOAPIC :=
  match o with
  | IoIrq pin level =>
    let rte := rte_at s pin in
    let edge := negb (level_triggered rte) && level && negb (Z.testbit (fLevels s) pin) && negb (masked rte) in
    s <| fLevels := if level then Z.setbit (fLevels s) pin else Z.clearbit (fLevels s) pin |>
      <| fSent := fSent s ++ if edge then [message rte] else [] |>
  | IoEoi vector =>
    s <| fRedirection := (fun rte => if waiting rte && (vector_of rte =? vector) then Z.clearbit rte 14 else rte)
                           <$> fRedirection s |>
  | IoWrite offset val =>
    if offset =? IOREGSEL then s <| fSelect := val mod 256 |>
    else if negb (offset =? IOWIN) then s
    else if fSelect s =? IOAPICID then s <| fId := get_bits 64 val 24 4 |>
    else if decide (IOREDTBL <= fSelect s < IOREDTBL + 2 * IOAPIC_PINS) then
      let pin := (fSelect s - IOREDTBL) / 2 in
      set_rte s pin (write_rte (rte_at s pin) val (Z.odd (fSelect s)))
    else s
  end.

(** * Single inputs *)

Lemma nz_level rte : nz (Z.land rte RTE_LEVEL) = level_triggered rte.
Proof. apply nz_bit_at. lia. Qed.
Lemma nz_masked rte : nz (Z.land rte RTE_MASKED) = masked rte.
Proof. apply nz_bit_at. lia. Qed.
Lemma nz_waiting rte : nz (Z.land rte RTE_REMOTE_IRR) = waiting rte.
Proof. apply nz_bit_at. lia. Qed.
Lemma nz_blocked rte : nz (Z.land rte (Z.lor RTE_MASKED RTE_REMOTE_IRR)) = masked rte || waiting rte.
Proof. by rewrite Z.land_lor_distr_r, nz_lor, nz_masked, nz_waiting. Qed.

Lemma waiting_setbit rte : waiting (Z.setbit rte 14) = true.
Proof. unfold waiting. apply Z.setbit_eq. lia. Qed.
Lemma level_setbit rte : level_triggered (Z.setbit rte 14) = level_triggered rte.
Proof. unfold level_triggered. apply Z.setbit_neq; lia. Qed.
Lemma waiting_clearbit rte : waiting (Z.clearbit rte 14) = false.
Proof. unfold waiting. apply Z.clearbit_eq. Qed.

Lemma rte_set s pin q v : 0 <= pin < 24 -> 0 <= q -> length (fRedirection s) = 24%nat ->
  rte_at (set_rte s pin v) q = if q =? pin then v else rte_at s q.
Proof. intros. unfold rte_at, set_rte. simpl. apply arr_get_set; lia. Qed.

(** The message the code puts together. *)
Lemma send_message rte :
  (Z.lor (Z.lor 0xfee00000 (u64 (Z.shiftl (get_bits 64 rte 56 8) 12)))
     (Z.shiftl (Z_of_bool (get_bit 64 rte 11)) 2),
   let data := u32 (get_bits 64 rte 0 11) in
   if level_triggered rte then Z.lor data (Z.lor (bit_at 32 15) (bit_at 32 14)) else data) = message rte.
Proof.
  unfold message. rewrite (get_bits_0 64 rte 11) by lia. rewrite get_bit_testbit by lia. f_equal.
  - assert (Hd : inw 8 (get_bits 64 rte 56 8)) by (apply inw_get_bits; lia).
    set (d := get_bits 64 rte 56 8) in *. unfold u64. rewrite Z.shiftl_mul_pow2 by lia. unfold inw in Hd.
    rewrite (uw_small 64) by (unfold inw; lia).
    change 0xfee00000 with (0xfee * 2 ^ 20) at 1. rewrite lor_mul_pow2 by (unfold inw; lia).
    replace (0xfee * 2 ^ 20 + d * 2 ^ 12) with ((0xfee * 2 ^ 8 + d) * 2 ^ 12) by lia.
    assert (Z.shiftl (Z_of_bool (Z.testbit rte 11)) 2 = if Z.testbit rte 11 then 4 else 0) as ->
      by (by destruct (Z.testbit rte 11)).
    rewrite lor_mul_pow2 by (lia || (destruct (Z.testbit rte 11); unfold inw; lia)). lia.
  - unfold u32. assert (Hd : inw 11 (uw 11 rte)) by (apply inw_uw; lia).
    rewrite (uw_small 32) by (eapply inw_mono; [|exact Hd]; lia). unfold uw in *. change (2 ^ 11) with 2048 in *.
    destruct (level_triggered rte); [|lia]. rewrite Z.lor_comm. change (Z.lor (bit_at 32 15) _) with (3 * 2 ^ 14).
    rewrite lor_mul_pow2 by (lia || by eapply inw_mono; [|exact Hd]; lia). lia.
Qed.

Lemma Send_eq s pin : Send s pin =
  (if level_triggered (rte_at s pin) then set_rte s pin (Z.setbit (rte_at s pin) 14) else s)
    <| fSent := fSent s ++ [message (rte_at s pin)] |>.
Proof.
  rewrite <- send_message. unfold Send. cbv zeta. rewrite nz_level.
  destruct (level_triggered (rte_at s pin)); reflexivity.
Qed.

Lemma Service_eq s pin : 0 <= pin < 24 -> Service s pin =
  if due (fLevels s) pin (rte_at s pin)
  then (set_rte s pin (Z.setbit (rte_at s pin) 14)) <| fSent := fSent s ++ [message (rte_at s pin)] |>
  else s.
Proof.
  intros Hp. unfold Service, due. cbv zeta. rewrite nz_level, nz_blocked, get_bit_testbit, negb_orb, andb_assoc by lia.
  destruct (level_triggered (rte_at s pin)) eqn:E; simpl; [|done].
  destruct (_ && _ && _); [|done]. by rewrite Send_eq, E.
Qed.

(** * Settling one input, or all *)

Lemma imap_arr_set {A} (f : nat -> A -> A) l pin v : 0 <= pin ->
  arr_set (imap f l) pin v = imap (fun i x => if Z.of_nat i =? pin then v else f i x) l.
Proof.
  intros Hp. apply list_eq. intros i. unfold arr_set. rewrite list_lookup_imap.
  destruct (decide (i = Z.to_nat pin)) as [->|Hne].
  - rewrite Z2Nat.id, Z.eqb_refl by lia. destruct (decide (Z.to_nat pin < length l)%nat) as [Hlt|Hge].
    + rewrite list_lookup_insert_eq by (by rewrite length_imap).
      destruct (lookup_lt_is_Some_2 l _ Hlt) as [x ->]. done.
    + rewrite (lookup_ge_None_2 l) by lia. apply lookup_ge_None_2. rewrite length_insert, length_imap. lia.
  - rewrite list_lookup_insert_ne, list_lookup_imap by done. destruct (Z.eqb_spec (Z.of_nat i) pin); [lia|done].
Qed.

Lemma imap_ext_range {A B} (f g : nat -> A -> B) (l : list A) n d : length l = n ->
  (forall i, 0 <= i < Z.of_nat n -> f (Z.to_nat i) (arr_get d l i) = g (Z.to_nat i) (arr_get d l i)) ->
  imap f l = imap g l.
Proof.
  intros Hl H. apply imap_ext. intros i x Hx. pose proof (lookup_lt_Some _ _ _ Hx).
  specialize (H (Z.of_nat i) ltac:(lia)). unfold arr_get in H. rewrite Nat2Z.id in H.
  erewrite nth_lookup_Some in H by exact Hx. done.
Qed.

Lemma imap_id {A} (l : list A) : imap (fun _ x => x) l = l.
Proof. induction l as [|x l IH]; [done|]. simpl. f_equal. apply IH. Qed.

Lemma pins_split pin : 0 <= pin < 24 -> pins = seqZ 0 pin ++ pin :: seqZ (pin + 1) (23 - pin).
Proof.
  intros Hp. unfold pins. replace 24 with (pin + (24 - pin)) at 1 by lia.
  rewrite seqZ_app by lia. f_equal. rewrite Z.add_0_l, (seqZ_cons pin) by lia. by f_equal; f_equal; lia.
Qed.

Lemma filter_none {A} (P : A -> Prop) `{!forall x, Decision (P x)} (l : list A) :
  (forall x, x ∈ l -> ~ P x) -> filter P l = [].
Proof.
  induction l as [|x l IH]; intros Hn; [done|]. rewrite filter_cons_False by (apply Hn; left).
  apply IH. intros y Hy. apply Hn. by right.
Qed.

Lemma filter_only (f : Z -> bool) pin : 0 <= pin < 24 -> (forall q, 0 <= q < 24 -> q <> pin -> f q = false) ->
  filter (fun q => f q = true) pins = if f pin then [pin] else [].
Proof.
  intros Hp H. rewrite (pins_split pin Hp), filter_app, filter_cons.
  rewrite !filter_none by (intros q Hq%elem_of_seqZ; rewrite H by lia; done). by destruct (f pin).
Qed.

Lemma settle_only s pin : length (fRedirection s) = 24%nat -> 0 <= pin < 24 ->
  (forall q, 0 <= q < 24 -> q <> pin -> due (fLevels s) q (rte_at s q) = false) ->
  Service s pin = settle s.
Proof.
  intros Hl Hp H. rewrite Service_eq by done. unfold settle. cbv zeta.
  rewrite (filter_only (fun q => due (fLevels s) q (rte_at s q)) pin) by done.
  assert (E : imap (fun i rte => if due (fLevels s) (Z.of_nat i) rte then Z.setbit rte 14 else rte) (fRedirection s) =
    if due (fLevels s) pin (rte_at s pin) then fRedirection (set_rte s pin (Z.setbit (rte_at s pin) 14)) else fRedirection s).
  { unfold set_rte, rte_at in *. simpl.
    destruct (due (fLevels s) pin (arr_get 0 (fRedirection s) pin)) eqn:E.
    - rewrite <- (imap_id (fRedirection s)) at 2. rewrite imap_arr_set by lia. apply (imap_ext_range _ _ _ 24 0 Hl).
      intros q Hq. rewrite Z2Nat.id by lia. destruct (Z.eqb_spec q pin) as [->|]; [by rewrite E|]. by rewrite H.
    - rewrite <- (imap_id (fRedirection s)) at 2. apply (imap_ext_range _ _ _ 24 0 Hl). intros q Hq.
      rewrite Z2Nat.id by lia. destruct (decide (q = pin)) as [->|]; [by rewrite E|]. by rewrite H. }
  rewrite E. destruct (due _ _ _); unfold set_rte, set_with; simpl; [done|]. rewrite app_nil_r. by destruct s.
Qed.

Lemma settle_none s : length (fRedirection s) = 24%nat ->
  (forall q, 0 <= q < 24 -> due (fLevels s) q (rte_at s q) = false) -> settle s = s.
Proof.
  intros Hl H. rewrite <- (settle_only s 0) by (done || lia || (intros; by apply H)).
  rewrite Service_eq by lia. by rewrite H.
Qed.

(** ** The end of interrupt *)

Definition cleared (vector rte : Z) : Z :=
  if waiting rte && (vector_of rte =? vector) then Z.clearbit rte 14 else rte.
Definition resent (levels pin rte : Z) : Z := if due levels pin rte then Z.setbit rte 14 else rte.

Lemma pins_snoc j : 0 <= j -> seqZ 0 (j + 1) = seqZ 0 j ++ [j].
Proof. intros. by rewrite seqZ_app by lia. Qed.

Lemma filter_snoc (f : Z -> bool) j : 0 <= j -> filter (fun q => f q = true) (seqZ 0 (j + 1)) =
  filter (fun q => f q = true) (seqZ 0 j) ++ if f j then [j] else [].
Proof. intros. rewrite pins_snoc, filter_app, filter_cons by done. by destruct (f j). Qed.

Lemma clearbit_ldiff rte : Z.ldiff rte RTE_REMOTE_IRR = Z.clearbit rte 14.
Proof. reflexivity. Qed.

Lemma set_rte_twice s pin u v : set_rte (set_rte s pin u) pin v = set_rte s pin v.
Proof. unfold set_rte, set_with, arr_set. simpl. by rewrite list_insert_insert_eq. Qed.

(** The entries after the inputs below [j] were seen to. *)
Definition eoi_partial (s : IOAPIC) (vector j : Z) : IOAPIC :=
  let f pin := due (fLevels s) pin (cleared vector (rte_at s pin)) in
  s <| fRedirection := imap (fun i rte => if Z.of_nat i <? j then resent (fLevels s) (Z.of_nat i) (cleared vector rte)
                                          else rte) (fRedirection s) |>
    <| fSent := fSent s ++ (message ∘ cleared vector ∘ rte_at s <$> filter (fun q => f q = true) (seqZ 0 j)) |>.

Lemma eoi_partial_rte s v j pin : length (fRedirection s) = 24%nat -> 0 <= pin < 24 -> rte_at (eoi_partial s v j) pin =
  if pin <? j then resent (fLevels s) pin (cleared v (rte_at s pin)) else rte_at s pin.
Proof.
  intros Hl Hp. unfold rte_at at 1, eoi_partial, arr_get. simpl. rewrite nth_lookup, list_lookup_imap.
  destruct (lookup_lt_is_Some_2 (fRedirection s) (Z.to_nat pin)) as [x Hx]; [lia|]. rewrite Hx. simpl.
  rewrite Z2Nat.id by lia. unfold rte_at, arr_get. by rewrite (nth_lookup_Some _ _ _ _ Hx).
Qed.

Lemma set_rte_same s pin : 0 <= pin < 24 -> length (fRedirection s) = 24%nat -> set_rte s pin (rte_at s pin) = s.
Proof.
  intros Hp Hl. unfold set_rte, set_with, rte_at, arr_set, arr_get. simpl.
  destruct (lookup_lt_is_Some_2 (fRedirection s) (Z.to_nat pin)) as [x Hx]; [lia|].
  rewrite (nth_lookup_Some _ _ _ _ Hx), list_insert_id by done. by destruct s.
Qed.

Lemma eoi_partial_0 s v : eoi_partial s v 0 = s.
Proof.
  unfold eoi_partial, set_with. simpl. rewrite app_nil_r. destruct s. simpl. f_equal. etransitivity; [|apply imap_id]. apply imap_ext. intros i x _. by destruct (Z.ltb_spec (Z.of_nat i) 0); [lia|].
Qed.

Lemma eoi_partial_all s v : length (fRedirection s) = 24%nat -> eoi_partial s v 24 = settle (change s (IoEoi v)).
Proof.
  intros Hl. assert (E : forall q, 0 <= q < 24 -> rte_at (change s (IoEoi v)) q = cleared v (rte_at s q)).
  { intros q Hq. unfold rte_at, arr_get. simpl. rewrite nth_lookup, list_lookup_fmap.
    destruct (lookup_lt_is_Some_2 (fRedirection s) (Z.to_nat q)) as [x Hx]; [lia|].
    by rewrite (nth_lookup_Some _ _ _ _ Hx), Hx. }
  unfold eoi_partial, settle, set_with. cbv zeta. simpl fId. simpl fSelect. simpl fLevels. simpl fSent.
  f_equal.
  - simpl. rewrite imap_fmap. apply imap_ext. intros i x Hx%lookup_lt_Some. simpl.
    by destruct (Z.ltb_spec (Z.of_nat i) 24); [|lia].
  - f_equal. unfold pins. change (fun pin => due _ pin (rte_at (change s _) pin) = true) with
      (fun q => (fun pin => due (fLevels s) pin (rte_at (change s (IoEoi v)) pin)) q = true).
    assert (F : forall l, Forall (fun q => 0 <= q < 24) l ->
      message ∘ cleared v ∘ rte_at s <$> filter (fun q => due (fLevels s) q (cleared v (rte_at s q)) = true) l =
      message ∘ rte_at (change s (IoEoi v)) <$>
        filter (fun pin => due (fLevels s) pin (rte_at (change s (IoEoi v)) pin) = true) l).
    { induction 1 as [|q l Hq _ IH]; [done|]. rewrite !filter_cons, !(E q Hq).
      destruct (decide _); [|done]. rewrite !fmap_cons, IH. unfold compose. by rewrite (E q Hq). }
    apply F, Forall_forall. intros q Hq%elem_of_seqZ. lia.
Qed.

Lemma eoi_partial_step s v j : length (fRedirection s) = 24%nat -> 0 <= j < 24 ->
  let rte := cleared v (rte_at s j) in
  (set_rte (eoi_partial s v j) j (resent (fLevels s) j rte))
    <| fSent := fSent (eoi_partial s v j) ++ if due (fLevels s) j rte then [message rte] else [] |>
  = eoi_partial s v (j + 1).
Proof.
  intros Hl Hj rte. unfold eoi_partial, set_rte, set_with. simpl. f_equal.
  - rewrite imap_arr_set by lia. apply (imap_ext_range _ _ _ 24 0 Hl). intros q Hq. rewrite Z2Nat.id by lia.
    destruct (Z.eqb_spec q j) as [->|]; [|repeat case_cmp; try lia; done].
    destruct (Z.ltb_spec j (j + 1)); [done|lia].
  - rewrite <- app_assoc. f_equal.
    rewrite (filter_snoc (fun q => due (fLevels s) q (cleared v (rte_at s q)))), fmap_app by lia.
    fold rte. by destruct (due _ _ rte).
Qed.

Lemma Eoi_settle s v : length (fRedirection s) = 24%nat ->
  (forall q, 0 <= q < 24 -> due (fLevels s) q (rte_at s q) = false) -> Eoi s v = settle (change s (IoEoi v)).
Proof.
  intros Hl H. transitivity (eoi_partial s v 24).
  - unfold Eoi. change 24 with (0 + Z.of_nat 24) at 1. apply (for_each_ind (fun j t => t = eoi_partial s v j)).
    + intros j t Hj ->. rewrite <- eoi_partial_step by (done || lia). cbv zeta.
      assert (E : rte_at (eoi_partial s v j) j = rte_at s j)
        by (rewrite eoi_partial_rte by (done || lia); by destruct (Z.ltb_spec j j); [lia|]).
      rewrite E, nz_waiting, clearbit_ldiff. change (get_bits 64 (rte_at s j) 0 8) with (vector_of (rte_at s j)).
      unfold cleared. destruct (waiting (rte_at s j) && (vector_of (rte_at s j) =? v)).
      * rewrite Service_eq by lia. rewrite rte_set, Z.eqb_refl by (unfold eoi_partial; simpl; rewrite ?length_imap; lia).
        change (fLevels (set_rte _ _ _)) with (fLevels s). unfold resent.
        destruct (due _ _ _); [by rewrite set_rte_twice|]. unfold set_with. simpl. by rewrite app_nil_r.
      * unfold resent. rewrite H, <- E, set_rte_same by (unfold eoi_partial; simpl; rewrite ?length_imap; lia).
        unfold set_with. simpl. by rewrite app_nil_r.
    + symmetry. apply eoi_partial_0.
  - by apply eoi_partial_all.
Qed.

(** * The invariant, and the refinement *)

Definition entries_ok (s : IOAPIC) : Prop := length (fRedirection s) = 24%nat /\
  forall q, 0 <= q < 24 -> waiting (rte_at s q) = true -> level_triggered (rte_at s q) = true.
Definition settled (s : IOAPIC) : Prop := forall q, 0 <= q < 24 -> due (fLevels s) q (rte_at s q) = false.

Lemma settle_rte s q : length (fRedirection s) = 24%nat -> 0 <= q < 24 ->
  rte_at (settle s) q = resent (fLevels s) q (rte_at s q).
Proof.
  intros Hl Hq. unfold rte_at, settle, arr_get. simpl. rewrite nth_lookup, list_lookup_imap.
  destruct (lookup_lt_is_Some_2 (fRedirection s) (Z.to_nat q)) as [x Hx]; [lia|]. rewrite Hx. simpl.
  rewrite Z2Nat.id by lia. by rewrite (nth_lookup_Some _ _ _ _ Hx).
Qed.

Lemma settle_ok s : entries_ok s -> entries_ok (settle s) /\ settled (settle s).
Proof.
  intros [Hl Hw]. split; [split; [unfold settle; simpl; by rewrite length_imap|]|]; intros q Hq;
    rewrite settle_rte by done; unfold resent; (destruct (due (fLevels s) q (rte_at s q)) eqn:E; [|by auto]).
  - intros _. rewrite level_setbit. unfold due in E. by destruct (level_triggered _).
  - unfold due. rewrite waiting_setbit. by rewrite andb_false_r.
Qed.

Lemma bit_at_shiftl pin : 0 <= pin < 32 -> bit_at 32 pin = Z.shiftl 1 pin.
Proof.
  intros. unfold bit_at. apply uw_small. rewrite Z.shiftl_1_l. unfold inw. split; [lia|]. apply Z.pow_lt_mono_r; lia.
Qed.

Lemma set_rte_ok s pin v : entries_ok s -> (waiting v = true -> level_triggered v = true) -> 0 <= pin < 24 ->
  entries_ok (set_rte s pin v).
Proof.
  intros [Hl Hw] Hv Hp. split; [unfold set_rte; simpl; by rewrite length_arr_set|]. intros q Hq.
  rewrite rte_set by (done || lia). destruct (q =? pin); auto.
Qed.

(** A written entry keeps its remote IRR only while it is level triggered. *)
Lemma write_rte_ok rte val high : (waiting rte = true -> level_triggered rte = true) ->
  waiting (write_rte rte val high) = true -> level_triggered (write_rte rte val high) = true.
Proof.
  intros Hw. unfold write_rte. destruct high.
  - unfold waiting, level_triggered, u64 in *. autorewrite with bits. rewrite !(testbit_neg (_ - 32)) by lia. simpl.
    by rewrite ?andb_false_r, ?orb_false_r, ?andb_true_r.
  - cbv zeta. rewrite nz_level. set (r := Z.lor _ _). destruct (level_triggered r) eqn:E; simpl; [done|].
    rewrite clearbit_ldiff, waiting_clearbit. done.
Qed.

Lemma select_pin sel : IOREDTBL <= sel < IOREDTBL + 2 * IOAPIC_PINS -> 0 <= (sel - IOREDTBL) / 2 < 24.
Proof. unfold IOREDTBL, IOAPIC_PINS. intros. Z.div_mod_to_equations. lia. Qed.

Lemma change_ok s o : entries_ok s -> ioapic_op_ok o -> entries_ok (change s o).
Proof.
  intros Hs Ho. pose proof Hs as [Hl Hw]. destruct o as [pin level|v|offset val]; simpl.
  - by split.
  - split; [simpl; by rewrite length_fmap|]. intros q Hq. unfold rte_at, arr_get. simpl.
    rewrite nth_lookup, list_lookup_fmap.
    destruct (lookup_lt_is_Some_2 (fRedirection s) (Z.to_nat q)) as [x Hx]; [lia|]. rewrite Hx. simpl.
    specialize (Hw q Hq). unfold rte_at, arr_get in Hw. rewrite (nth_lookup_Some _ _ _ _ Hx) in Hw.
    destruct (waiting x && _) eqn:E; [|done]. by rewrite waiting_clearbit.
  - destruct (offset =? IOREGSEL); [done|]. destruct (negb _); [done|]. destruct (fSelect s =? IOAPICID); [done|].
    destruct (decide _) as [Hr|]; [|done]. apply select_pin in Hr. apply set_rte_ok; [done| |done].
    apply write_rte_ok. by apply Hw.
Qed.

Lemma SetIRQ_settle s pin level : entries_ok s -> settled s -> 0 <= pin < 24 ->
  SetIRQ s pin level = settle (change s (IoIrq pin level)).
Proof.
  intros [Hl _] Hd Hp. unfold SetIRQ. cbv zeta. rewrite nz_level, nz_masked, get_bit_testbit by lia.
  rewrite bit_at_shiftl by lia. fold (Z.setbit (fLevels s) pin). fold (Z.clearbit (fLevels s) pin).
  set (s' := s <| fLevels := _ |>). change (rte_at s' pin) with (rte_at s pin).
  assert (Hne : forall q, 0 <= q < 24 -> q <> pin -> due (fLevels s') q (rte_at s' q) = false).
  { intros q Hq Hne. rewrite <- (Hd q Hq). unfold due. simpl. f_equal.
    destruct level; [apply Z.setbit_neq|apply Z.clearbit_neq]; lia. }
  destruct (level_triggered (rte_at s pin)) eqn:E.
  - rewrite settle_only by done. f_equal. simpl. rewrite E. simpl. unfold s', set_with. simpl. by rewrite app_nil_r.
  - assert (Hnone : forall q, 0 <= q < 24 -> due (fLevels s') q (rte_at s' q) = false).
    { intros q Hq. destruct (decide (q = pin)) as [->|]; [|by apply Hne]. unfold due. change (rte_at s' pin) with (rte_at s pin). by rewrite E. }
    rewrite settle_none; [|done|exact Hnone]. simpl. rewrite E. simpl.
    destruct (level && negb (Z.testbit (fLevels s) pin) && negb (masked (rte_at s pin))).
    + rewrite Send_eq. change (rte_at s' pin) with (rte_at s pin). rewrite E. reflexivity.
    + unfold s', set_with. simpl. by rewrite app_nil_r.
Qed.

Lemma DeviceWrite_settle s offset val : entries_ok s -> settled s ->
  DeviceWrite s offset val = settle (change s (IoWrite offset val)).
Proof.
  intros [Hl _] Hd. unfold DeviceWrite. simpl.
  destruct (offset =? IOREGSEL); [by rewrite settle_none|].
  destruct (negb _); [by rewrite settle_none|]. destruct (fSelect s =? IOAPICID); [by rewrite settle_none|].
  destruct (decide _) as [Hr|Hr].
  - pose proof (select_pin _ Hr) as Hp. destruct (Z.leb_spec IOREDTBL (fSelect s)); [|lia].
    destruct (Z.ltb_spec (fSelect s) (IOREDTBL + 2 * IOAPIC_PINS)); [|lia]. simpl.
    assert (nz (Z.land (fSelect s) 1) = Z.odd (fSelect s)) as ->.
    { rewrite <- Z.bit0_odd. change 1 with (bit_at 8 0). apply nz_bit_at. lia. }
    apply settle_only; [unfold set_rte; simpl; by rewrite length_arr_set|done|].
    intros q Hq Hne. rewrite rte_set by (done || lia). destruct (Z.eqb_spec q ((fSelect s - IOREDTBL) / 2)); [done|].
    by apply Hd.
  - rewrite settle_none by done. destruct (Z.leb_spec IOREDTBL (fSelect s)),
      (Z.ltb_spec (fSelect s) (IOREDTBL + 2 * IOAPIC_PINS)); simpl; done || lia.
Qed.

Lemma ioapic_step_settle s o : entries_ok s -> settled s -> ioapic_op_ok o -> ioapic_step s o = settle (change s o).
Proof.
  intros Hs Hd Ho. destruct o; [by apply SetIRQ_settle|by apply Eoi_settle; [apply Hs|]|by apply DeviceWrite_settle].
Qed.

Lemma ioapic_init_ok id : entries_ok (ioapic_init id) /\ settled (ioapic_init id).
Proof.
  assert (forall q, 0 <= q < 24 -> rte_at (ioapic_init id) q = RTE_MASKED) as E.
  { intros q Hq. unfold rte_at, arr_get. rewrite nth_lookup. change (fRedirection (ioapic_init id)) with (replicate 24 RTE_MASKED). rewrite lookup_replicate_2 by lia. done. }
  split; [split; [done|]|]; intros q Hq; by rewrite E.
Qed.

Lemma ioapic_reachable id ops : Forall ioapic_op_ok ops ->
  entries_ok (foldl ioapic_step (ioapic_init id) ops) /\ settled (foldl ioapic_step (ioapic_init id) ops).
Proof.
  intros H. destruct (ioapic_init_ok id) as [Hs Hd]. revert Hs Hd. generalize (ioapic_init id) as s.
  induction H as [|o ops Ho _ IH]; intros s Hs Hd; [done|]. simpl. rewrite ioapic_step_settle by done.
  by apply IH; apply settle_ok, change_ok.
Qed.

(** C25: No interrupt of the I/O APIC is lost or repeated.  In every state the
    devices, the guest and the local APICs can bring it to, an entry waits for
    its EOI only if it is level triggered, no input that is level triggered,
    asserted and unmasked has failed to send; and each operation is exactly the
    change of the levels, of the entry or of the waiting entries it makes (and the
    message of a rising unmasked edge), followed by one message for every input
    that is then due, in order, which waits from there on. *)
Theorem ioapic_exact id ops o : Forall ioapic_op_ok ops -> ioapic_op_ok o ->
  let s := foldl ioapic_step (ioapic_init id) ops in
  entries_ok s /\ settled s /\ ioapic_step s o = settle (change s o).
Proof.
  intros Hops Ho s. destruct (ioapic_reachable id ops Hops) as [Hs Hd]. split_and!; [done..|].
  by apply ioapic_step_settle.
Qed.

(** Input 10 as a level-triggered entry with vector 0x31: asserted while masked,
    it is sent when unmasked, and again after its EOI while still asserted. *)
Lemma ioapic_exact_witness :
  let ops := [IoIrq 10 true; IoWrite 0 0x24; IoWrite 0x10 0x8031; IoIrq 10 false; IoIrq 10 true] in
  let s := foldl ioapic_step (ioapic_init 0) ops in
  fSent s = [(0xfee00000, 0xc031)] /\ ioapic_step s (IoEoi 0x31) = settle (change s (IoEoi 0x31)) /\
  fSent (ioapic_step s (IoEoi 0x31)) = [(0xfee00000, 0xc031); (0xfee00000, 0xc031)].
Proof.
  intros ops s. split; [by vm_compute|]. split; [|by vm_compute].
  apply (ioapic_exact 0 ops (IoEoi 0x31)); [|done].
  repeat apply Forall_cons_2; try done; unfold ioapic_op_ok, IOAPIC_PINS; lia.
Defined.
