(* ===== verification/Aplic.v ===== *)
(** The advanced interrupt controller of RISC-V machines:
    [src/device/intc/aplic.h], [aplic.cpp].

    [fDomains] is the machine level root domain [fM] and its one child, the
    supervisor level domain [fS]; a method's [Domain &d] is the boolean
    [supervisor].  [fHarts] is the level last given to
    [HartIrqTarget::SetExternalIrq] for each hart at machine ([2 * hart]) and
    supervisor ([2 * hart + 1]) level, and [fMsgs] the address and value of each
    write to the memory map, oldest first. *)

From stdpp Require Import base numbers list.
From S2P Require Import Prelude Bits.
Local Open Scope Z_scope.

Definition APLIC_SIZE : Z := 0x8000.
Definition APLIC_DOMAINCFG : Z := 0x0000.
Definition APLIC_SOURCECFG_BASE : Z := 0x0000.
Definition APLIC_MMSIADDRCFG : Z := 0x1bc0.
Definition APLIC_MMSIADDRCFGH : Z := 0x1bc4.
Definition APLIC_SMSIADDRCFG : Z := 0x1bc8.
Definition APLIC_SMSIADDRCFGH : Z := 0x1bcc.
Definition APLIC_SETIP_BASE : Z := 0x1c00.
Definition APLIC_SETIPNUM : Z := 0x1cdc.
Definition APLIC_IN_CLRIP_BASE : Z := 0x1d00.
Definition APLIC_CLRIPNUM : Z := 0x1ddc.
Definition APLIC_SETIE_BASE : Z := 0x1e00.
Definition APLIC_SETIENUM : Z := 0x1edc.
Definition APLIC_CLRIE_BASE : Z := 0x1f00.
Definition APLIC_CLRIENUM : Z := 0x1fdc.
Definition APLIC_SETIPNUM_LE : Z := 0x2000.
Definition APLIC_GENMSI : Z := 0x3000.
Definition APLIC_TARGET_BASE : Z := 0x3000.
Definition APLIC_IDC_BASE : Z := 0x4000.
Definition APLIC_IDC_SIZE : Z := 32.
Definition APLIC_BITMAP_WORDS : Z := 32.

Definition APLIC_IDC_IDELIVERY : Z := 0x00.
Definition APLIC_IDC_IFORCE : Z := 0x04.
Definition APLIC_IDC_ITHRESHOLD : Z := 0x08.
Definition APLIC_IDC_TOPI : Z := 0x18.
Definition APLIC_IDC_CLAIMI : Z := 0x1c.

Definition APLIC_DOMAINCFG_RO : Z := 0x80000000.
Definition APLIC_DOMAINCFG_IE : Z := bit_at 32 8.
Definition APLIC_DOMAINCFG_DM : Z := bit_at 32 2.
Definition APLIC_SOURCECFG_D : Z := bit_at 32 10.
Definition APLIC_SOURCECFG_SM : Z := bit_mask 32 3.

Definition APLIC_SM_INACTIVE : Z := 0.
Definition APLIC_SM_DETACHED : Z := 1.
Definition APLIC_SM_EDGE1 : Z := 4.
Definition APLIC_SM_EDGE0 : Z := 5.
Definition APLIC_SM_LEVEL1 : Z := 6.
Definition APLIC_SM_LEVEL0 : Z := 7.

Definition APLIC_TARGET_HART_SHIFT : Z := 18.
Definition APLIC_TARGET_HART_BITS : Z := 14.
Definition APLIC_TARGET_IPRIO_BITS : Z := 8.
Definition APLIC_TARGET_EIID_BITS : Z := 11.
Definition APLIC_GENMSI_MASK : Z :=
  Z.lor (field_mask 32 APLIC_TARGET_HART_SHIFT APLIC_TARGET_HART_BITS)
        (bit_mask 32 APLIC_TARGET_EIID_BITS).
Definition APLIC_MSIADDRCFGH_L : Z := bit_at 32 31.
Definition APLIC_MSIADDRCFGH_LHXW_SHIFT : Z := 12.

Definition bitmap_get (map : list Z) (n : Z) : bool :=
  get_bit 32 (arr_get 0 map (n / 32)) (n mod 32).

Definition bitmap_put (map : list Z) (n : Z) (val : bool) : list Z :=
  arr_set map (n / 32) (set_bit 32 (arr_get 0 map (n / 32)) (n mod 32) val).

Definition mode_is_level (mode : Z) : bool :=
  (mode =? APLIC_SM_LEVEL1) || (mode =? APLIC_SM_LEVEL0).

Record AplicMsiLayout := mkLayout {
  m_base : Z;
  s_base : Z;
  hart_index_bits : Z;
}.

Record Idc := mkIdc {
  idelivery : bool;
  iforce : bool;
  ithreshold : Z;
}.
#[export] Instance eta_Idc : Eta Idc := fun i => mkIdc (idelivery i) (iforce i) (ithreshold i).
Definition idc0 : Idc := mkIdc false false 0.

Record Domain := mkDomain {
  ie : bool;
  genmsi : Z;
  sourcecfg : list Z;
  target : list Z;
  pending : list Z;
  enable : list Z;
  idc : list Idc;
}.
#[export] Instance eta_Domain : Eta Domain := fun d =>
  mkDomain (ie d) (genmsi d) (sourcecfg d) (target d) (pending d) (enable d) (idc d).

Record APLIC := mkAPLIC {
  fMsgs : list (Z * Z);
  fHarts : list bool;
  fHartCount : nat;
  fNumSources : nat;
  fWords : Z;
  fMsiMode : bool;
  fMsi : AplicMsiLayout;
  fLevel : list Z;
  fM : Domain;
  fS : Domain;
}.
#[export] Instance eta_APLIC : Eta APLIC := fun s =>
  mkAPLIC (fMsgs s) (fHarts s) (fHartCount s) (fNumSources s) (fWords s) (fMsiMode s)
    (fMsi s) (fLevel s) (fM s) (fS s).

Definition domain0 (hart_count num_sources words : nat) : Domain := {|
  ie := false;
  genmsi := 0;
  sourcecfg := replicate (num_sources + 1) 0;
  target := replicate (num_sources + 1) 0;
  pending := replicate words 0;
  enable := replicate words 0;
  idc := replicate hart_count idc0;
|}.

(** The constructor; [msi] is null for direct delivery. *)
Definition init (hart_count num_sources : nat) (msi : option AplicMsiLayout) : APLIC :=
  let words := ((num_sources + 1 + 31) / 32)%nat in {|
  fMsgs := [];
  fHarts := replicate (2 * hart_count) false;
  fHartCount := hart_count;
  fNumSources := num_sources;
  fWords := Z.of_nat words;
  fMsiMode := bool_decide (is_Some msi);
  fMsi := default (mkLayout 0 0 0) msi;
  fLevel := replicate words 0;
  fM := domain0 hart_count num_sources words;
  fS := domain0 hart_count num_sources words;
|}.

Definition dom (s : APLIC) (supervisor : bool) : Domain := if supervisor then fS s else fM s.
Definition set_dom (supervisor : bool) (d : Domain) (s : APLIC) : APLIC :=
  if supervisor then s <| fS := d |> else s <| fM := d |>.

(** A source a domain's parent has not delegated to it looks unimplemented. *)
Definition Visible (s : APLIC) (supervisor : bool) (irq : Z) : bool :=
  if (irq =? 0) || (Z.of_nat (fNumSources s) <? irq) then false
  else if supervisor then nz (Z.land (arr_get 0 (sourcecfg (fM s)) irq) APLIC_SOURCECFG_D)
  else true.

(** The source mode, or inactive when the source is delegated further down. *)
Definition Mode (s : APLIC) (supervisor : bool) (irq : Z) : Z :=
  let cfg := arr_get 0 (sourcecfg (dom s supervisor)) irq in
  if negb (Visible s supervisor irq) || nz (Z.land cfg APLIC_SOURCECFG_D)
  then APLIC_SM_INACTIVE
  else Z.land cfg APLIC_SOURCECFG_SM.

Definition Rectified (s : APLIC) (supervisor : bool) (irq : Z) : bool :=
  let mode := Mode s supervisor irq in
  let inverted := (mode =? APLIC_SM_EDGE0) || (mode =? APLIC_SM_LEVEL0) in
  if mode <? APLIC_SM_EDGE1 then false
  else xorb (bitmap_get (fLevel s) irq) inverted.

Definition put_pending (supervisor : bool) (irq : Z) (val : bool) (s : APLIC) : APLIC :=
  let d := dom s supervisor in
  set_dom supervisor (d <| pending := bitmap_put (pending d) irq val |>) s.
Definition put_enable (supervisor : bool) (irq : Z) (val : bool) (s : APLIC) : APLIC :=
  let d := dom s supervisor in
  set_dom supervisor (d <| enable := bitmap_put (enable d) irq val |>) s.
Definition put_target (supervisor : bool) (irq val : Z) (s : APLIC) : APLIC :=
  let d := dom s supervisor in
  set_dom supervisor (d <| target := arr_set (target d) irq val |>) s.
Definition put_sourcecfg (supervisor : bool) (irq val : Z) (s : APLIC) : APLIC :=
  let d := dom s supervisor in
  set_dom supervisor (d <| sourcecfg := arr_set (sourcecfg d) irq val |>) s.

Definition Deactivate (supervisor : bool) (irq : Z) (s : APLIC) : APLIC :=
  put_target supervisor irq 0 (put_enable supervisor irq false (put_pending supervisor irq false s)).

Definition WriteSourcecfg (supervisor : bool) (irq val : Z) (s : APLIC) : APLIC :=
  if negb (Visible s supervisor irq) then s
  else
    let val :=
      if nz (Z.land val APLIC_SOURCECFG_D) then
        (* the one child is index 0; a leaf domain cannot delegate *)
        if supervisor then 0 else APLIC_SOURCECFG_D
      else
        let val := Z.land val APLIC_SOURCECFG_SM in
        if (val =? 2) || (val =? 3) then APLIC_SM_INACTIVE else val in
    let s := put_sourcecfg supervisor irq val s in
    let mode := Mode s supervisor irq in
    let s :=
      if mode =? APLIC_SM_INACTIVE then Deactivate supervisor irq s
      else if negb (fMsiMode s) &&
              (get_bits 32 (arr_get 0 (target (dom s supervisor)) irq) 0
                 APLIC_TARGET_IPRIO_BITS =? 0)
      then put_target supervisor irq 1 s
      else s in
    (* a source no longer delegated vanishes from the child *)
    let s :=
      if negb supervisor && negb (nz (Z.land val APLIC_SOURCECFG_D))
      then Deactivate true irq (put_sourcecfg true irq 0 s)
      else s in
    if mode_is_level mode then put_pending supervisor irq (Rectified s supervisor irq) s else s.

Definition WriteTarget (supervisor : bool) (irq val : Z) (s : APLIC) : APLIC :=
  let hart := get_bits 32 val APLIC_TARGET_HART_SHIFT APLIC_TARGET_HART_BITS in
  if Mode s supervisor irq =? APLIC_SM_INACTIVE then s
  else if fMsiMode s then
    put_target supervisor irq
      (Z.lor (u32 (Z.shiftl hart APLIC_TARGET_HART_SHIFT)) (get_bits 32 val 0 APLIC_TARGET_EIID_BITS)) s
  else
    let prio := get_bits 32 val 0 APLIC_TARGET_IPRIO_BITS in
    put_target supervisor irq
      (Z.lor (u32 (Z.shiftl hart APLIC_TARGET_HART_SHIFT)) (if nz prio then prio else 1)) s.

(** setip, setipnum *)
Definition SetPendingByWrite (supervisor : bool) (irq : Z) (s : APLIC) : APLIC :=
  let mode := Mode s supervisor irq in
  if mode =? APLIC_SM_INACTIVE then s
  else if mode_is_level mode && (negb (fMsiMode s) || negb (Rectified s supervisor irq)) then s
  else put_pending supervisor irq true s.

(** in_clrip, clripnum, and a claim *)
Definition ClearPendingByWrite (supervisor : bool) (irq : Z) (s : APLIC) : APLIC :=
  let mode := Mode s supervisor irq in
  if (mode =? APLIC_SM_INACTIVE) || (mode_is_level mode && negb (fMsiMode s)) then s
  else put_pending supervisor irq false s.

Definition SetEnable (supervisor : bool) (irq : Z) (val : bool) (s : APLIC) : APLIC :=
  if Mode s supervisor irq =? APLIC_SM_INACTIVE then s
  else put_enable supervisor irq val s.

(** The body of the loop of [Topi]: [best] and [best_prio] after source
    [irq]. *)
Definition topi_turn (d : Domain) (hart irq : Z) (b : Z * Z) : Z * Z :=
  let threshold := ithreshold (arr_get idc0 (idc d) hart) in
  let t := arr_get 0 (target d) irq in
  let prio := get_bits 32 t 0 APLIC_TARGET_IPRIO_BITS in
  if negb (bitmap_get (pending d) irq) || negb (bitmap_get (enable d) irq) then b
  else if negb (get_bits 32 t APLIC_TARGET_HART_SHIFT APLIC_TARGET_HART_BITS =? u32 hart) then b
  else if nz threshold && (threshold <=? prio) then b
  else if (b.1 =? 0) || (prio <? b.2) then (irq, prio) else b.

(** The top pending and enabled source directed at [hart] under its threshold,
    in topi format, or 0. *)
Definition Topi (s : APLIC) (supervisor : bool) (hart : Z) : Z :=
  let '(best, best_prio) :=
    for_each (fNumSources s) 1 (topi_turn (dom s supervisor) hart) (0, 0) in
  if nz best then Z.lor (u32 (Z.shiftl best 16)) best_prio else 0.

Definition MsiAddrCfg (s : APLIC) (offset : Z) : Z :=
  let m_ppn := Z.shiftr (m_base (fMsi s)) 12 in
  let s_ppn := Z.shiftr (s_base (fMsi s)) 12 in
  if offset =? APLIC_MMSIADDRCFG then u32 m_ppn
  else if offset =? APLIC_MMSIADDRCFGH then
    u32 (Z.lor (Z.lor APLIC_MSIADDRCFGH_L
                  (Z.shiftl (hart_index_bits (fMsi s)) APLIC_MSIADDRCFGH_LHXW_SHIFT))
           (get_bits 64 m_ppn 32 12))
  else if offset =? APLIC_SMSIADDRCFG then u32 s_ppn
  else if offset =? APLIC_SMSIADDRCFGH then u32 (get_bits 64 s_ppn 32 12)
  else 0.

(** The write a message is, as [SendMsi] makes it. *)
Definition msi_write (s : APLIC) (supervisor : bool) (hart eiid : Z) : Z * Z :=
  let base := if supervisor then s_base (fMsi s) else m_base (fMsi s) in
  let h := get_bits 32 hart 0 (hart_index_bits (fMsi s)) in
  (Z.lor base (u64 (Z.shiftl h 12)), eiid).

Definition SendMsi (supervisor : bool) (hart eiid : Z) (s : APLIC) : APLIC :=
  s <| fMsgs := fMsgs s ++ [msi_write s supervisor hart eiid] |>.

(** [HartIrqTarget::SetExternalIrq] *)
Definition SetExternalIrq (hart : Z) (supervisor level : bool) (s : APLIC) : APLIC :=
  s <| fHarts := arr_set (fHarts s) (2 * hart + Z_of_bool supervisor) level |>.

(** The bodies of the two loops of [Update]. *)
Definition forward_turn (supervisor : bool) (irq : Z) (s : APLIC) : APLIC :=
  let d := dom s supervisor in
  if negb (bitmap_get (pending d) irq) || negb (bitmap_get (enable d) irq) then s
  else
    let t := arr_get 0 (target d) irq in
    SendMsi supervisor (Z.shiftr t APLIC_TARGET_HART_SHIFT) (get_bits 32 t 0 APLIC_TARGET_EIID_BITS)
      (put_pending supervisor irq false s).

Definition line_turn (supervisor : bool) (hart : Z) (s : APLIC) : APLIC :=
  let d := dom s supervisor in
  let i := arr_get idc0 (idc d) hart in
  SetExternalIrq hart supervisor
    (ie d && idelivery i && (iforce i || nz (Topi s supervisor hart))) s.

Definition update_domain (supervisor : bool) (s : APLIC) : APLIC :=
  if fMsiMode s then
    if negb (ie (dom s supervisor)) then s
    else for_each (fNumSources s) 1 (forward_turn supervisor) s
  else for_each (fHartCount s) 0 (line_turn supervisor) s.

Definition Update (s : APLIC) : APLIC := update_domain true (update_domain false s).

Definition set_idc (supervisor : bool) (hart : Z) (i : Idc) (s : APLIC) : APLIC :=
  let d := dom s supervisor in set_dom supervisor (d <| idc := arr_set (idc d) hart i |>) s.

Definition in_bitmap (base offset : Z) : bool :=
  (base <=? offset) && (offset <? base + APLIC_BITMAP_WORDS * 4).

(** The branch of [Read] for the IDC structures. *)
Definition read_idc (supervisor : bool) (offset : Z) (s : APLIC) : APLIC * Z :=
  let hart := (offset - APLIC_IDC_BASE) / APLIC_IDC_SIZE in
  let reg := (offset - APLIC_IDC_BASE) mod APLIC_IDC_SIZE in
  let i := arr_get idc0 (idc (dom s supervisor)) hart in
  if Z.of_nat (fHartCount s) <=? hart then (s, 0)
  else if reg =? APLIC_IDC_IDELIVERY then (s, Z_of_bool (idelivery i))
  else if reg =? APLIC_IDC_IFORCE then (s, Z_of_bool (iforce i))
  else if reg =? APLIC_IDC_ITHRESHOLD then (s, ithreshold i)
  else if reg =? APLIC_IDC_TOPI then (s, Topi s supervisor hart)
  else if reg =? APLIC_IDC_CLAIMI then
    let topi := Topi s supervisor hart in
    (Update (if nz topi then ClearPendingByWrite supervisor (Z.shiftr topi 16) s
             else set_idc supervisor hart (i <| iforce := false |>) s), topi)
  else (s, 0).

Definition Read (supervisor : bool) (offset : Z) (s : APLIC) : APLIC * Z :=
  let d := dom s supervisor in
  if offset =? APLIC_DOMAINCFG then
    (s, Z.lor (Z.lor APLIC_DOMAINCFG_RO (if ie d then APLIC_DOMAINCFG_IE else 0))
          (if fMsiMode s then APLIC_DOMAINCFG_DM else 0))
  else if offset <? APLIC_MMSIADDRCFG then
    let irq := (offset - APLIC_SOURCECFG_BASE) / 4 in
    (s, if Visible s supervisor irq then arr_get 0 (sourcecfg d) irq else 0)
  else if offset <=? APLIC_SMSIADDRCFGH then
    (s, if fMsiMode s && negb supervisor then MsiAddrCfg s offset else 0)
  else if in_bitmap APLIC_SETIP_BASE offset then
    let k := (offset - APLIC_SETIP_BASE) / 4 in
    (s, if k <? fWords s then arr_get 0 (pending d) k else 0)
  else if in_bitmap APLIC_IN_CLRIP_BASE offset then
    let k := (offset - APLIC_IN_CLRIP_BASE) / 4 in
    (s, for_each 32 0 (fun bit val =>
          if Rectified s supervisor (k * 32 + bit) then set_bit 32 val bit true else val) 0)
  else if in_bitmap APLIC_SETIE_BASE offset then
    let k := (offset - APLIC_SETIE_BASE) / 4 in
    (s, if k <? fWords s then arr_get 0 (enable d) k else 0)
  else if offset =? APLIC_GENMSI then
    (s, if fMsiMode s then genmsi d else 0)
  else if (APLIC_TARGET_BASE <? offset) && (offset <? APLIC_IDC_BASE) then
    let irq := (offset - APLIC_TARGET_BASE) / 4 in
    (s, if nz (Mode s supervisor irq) then arr_get 0 (target d) irq else 0)
  else if (APLIC_IDC_BASE <=? offset) && negb (fMsiMode s) then read_idc supervisor offset s
  else (s, 0).

(** [for (bit = 0; bit < 32; bit++) if (get_bit(val, bit)) f(k * 32 + bit)] *)
Definition each_bit (k val : Z) (f : Z -> APLIC -> APLIC) (s : APLIC) : APLIC :=
  for_each 32 0 (fun bit s => if get_bit 32 val bit then f (k * 32 + bit) s else s) s.

Definition Write (supervisor : bool) (offset val : Z) (s : APLIC) : APLIC :=
  let d := dom s supervisor in
  if offset =? APLIC_DOMAINCFG then
    (* DM is fixed and BE is read-only zero *)
    Update (set_dom supervisor (d <| ie := nz (Z.land val APLIC_DOMAINCFG_IE) |>) s)
  else if offset <? APLIC_MMSIADDRCFG then
    Update (WriteSourcecfg supervisor ((offset - APLIC_SOURCECFG_BASE) / 4) val s)
  else if offset <=? APLIC_SMSIADDRCFGH then s (* locked *)
  else if in_bitmap APLIC_SETIP_BASE offset then
    Update (each_bit ((offset - APLIC_SETIP_BASE) / 4) val (SetPendingByWrite supervisor) s)
  else if (offset =? APLIC_SETIPNUM) || (offset =? APLIC_SETIPNUM_LE) then
    Update (SetPendingByWrite supervisor val s)
  else if in_bitmap APLIC_IN_CLRIP_BASE offset then
    Update (each_bit ((offset - APLIC_IN_CLRIP_BASE) / 4) val (ClearPendingByWrite supervisor) s)
  else if offset =? APLIC_CLRIPNUM then
    Update (ClearPendingByWrite supervisor val s)
  else if in_bitmap APLIC_SETIE_BASE offset then
    Update (each_bit ((offset - APLIC_SETIE_BASE) / 4) val
              (fun irq => SetEnable supervisor irq true) s)
  else if offset =? APLIC_SETIENUM then
    Update (SetEnable supervisor val true s)
  else if in_bitmap APLIC_CLRIE_BASE offset then
    Update (each_bit ((offset - APLIC_CLRIE_BASE) / 4) val
              (fun irq => SetEnable supervisor irq false) s)
  else if offset =? APLIC_CLRIENUM then
    Update (SetEnable supervisor val false s)
  else if offset =? APLIC_GENMSI then
    if negb (fMsiMode s) then s
    else
      (* sent at once, so it is never busy; IE does not apply *)
      let g := Z.land val APLIC_GENMSI_MASK in
      SendMsi supervisor (Z.shiftr g APLIC_TARGET_HART_SHIFT)
        (get_bits 32 g 0 APLIC_TARGET_EIID_BITS) (set_dom supervisor (d <| genmsi := g |>) s)
  else if (APLIC_TARGET_BASE <? offset) && (offset <? APLIC_IDC_BASE) then
    Update (WriteTarget supervisor ((offset - APLIC_TARGET_BASE) / 4) val s)
  else if (APLIC_IDC_BASE <=? offset) && negb (fMsiMode s) then
    let hart := (offset - APLIC_IDC_BASE) / APLIC_IDC_SIZE in
    let reg := (offset - APLIC_IDC_BASE) mod APLIC_IDC_SIZE in
    let i := arr_get idc0 (idc d) hart in
    if Z.of_nat (fHartCount s) <=? hart then s
    else if reg =? APLIC_IDC_IDELIVERY then
      Update (set_idc supervisor hart (i <| idelivery := get_bit 32 val 0 |>) s)
    else if reg =? APLIC_IDC_IFORCE then
      Update (set_idc supervisor hart (i <| iforce := get_bit 32 val 0 |>) s)
    else if reg =? APLIC_IDC_ITHRESHOLD then
      Update (set_idc supervisor hart
                (i <| ithreshold := get_bits 32 val 0 APLIC_TARGET_IPRIO_BITS |>) s)
    else s
  else s.

Definition DelegateAll (s : APLIC) : APLIC :=
  Update (for_each (fNumSources s) 1 (fun irq => WriteSourcecfg false irq APLIC_SOURCECFG_D) s).

(** [bitmap_put(fLevel, irq, level)] *)
Definition put_level (irq : Z) (level : bool) (s : APLIC) : APLIC :=
  s <| fLevel := bitmap_put (fLevel s) irq level |>.

(** The body of the loop of [SetIRQ] for a domain where [irq] is wired, up to
    [Update]. *)
Definition wire_turn (supervisor : bool) (irq : Z) (level : bool) (s : APLIC) : APLIC :=
  let mode := Mode s supervisor irq in
  let was := Rectified s supervisor irq in
  let s := put_level irq level s in
  let now := Rectified s supervisor irq in
  if mode_is_level mode && negb (fMsiMode s) then put_pending supervisor irq now s
  else if negb was && now then put_pending supervisor irq true s
  else if mode_is_level mode && negb now then put_pending supervisor irq false s
  else s.

Definition SetIRQ (irq_num : Z) (level : bool) (s : APLIC) : APLIC :=
  let irq := u32 irq_num in
  if (irq =? 0) || (Z.of_nat (fNumSources s) <? irq) then s
  else if APLIC_SM_EDGE1 <=? Mode s false irq then Update (wire_turn false irq level s)
  else if APLIC_SM_EDGE1 <=? Mode s true irq then Update (wire_turn true irq level s)
  else
    (* active nowhere: the wire is still recorded for when it becomes so *)
    put_level irq level s.
