(* ===== verification/AplicOk.v ===== *)
(** The interrupt controller of Aplic.v against the interrupt sources of the
    RISC-V advanced interrupt architecture: a source belongs to one domain, has a
    mode, a pending and an enable bit and a target, and every access changes the
    sources it names; pending and enabled sources are signalled to their harts or
    sent as messages. *)

From stdpp Require Import base numbers list.
From S2P Require Import Prelude Bits Aplic.
Local Open Scope Z_scope.

(** * The reference: sources *)

(** [low]: the wire is asserted when low, or on its falling edge. *)
Inductive source_mode := Inactive | Detached | Edge (low : bool) | Lvl (low : bool).
#[export] Instance source_mode_eq_dec : EqDecision source_mode.
Proof. solve_decision. Defined.

(** [ident] is the priority, or the identity of the message. *)
Record Source := mkSource {
  wire : bool;
  delegated : bool;
  how : source_mode;
  pend : bool;
  en : bool;
  to_hart : Z;
  ident : Z;
}.
#[export] Instance eta_Source : Eta Source := fun x =>
  mkSource (wire x) (delegated x) (how x) (pend x) (en x) (to_hart x) (ident x).

Definition is_level (m : source_mode) : bool := match m with Lvl _ => true | _ => false end.
Definition is_active (m : source_mode) : bool := match m with Inactive => false | _ => true end.

Definition asserted (x : Source) : bool :=
  match how x with Edge low | Lvl low => xorb (wire x) low | _ => false end.

Definition fresh (w del : bool) : Source := mkSource w del Inactive false false 0 0.

Definition mode_written (val : Z) : source_mode :=
  match val mod 8 with
  | 1 => Detached | 4 => Edge false | 5 => Edge true | 6 => Lvl false | 7 => Lvl true
  | _ => Inactive
  end.

Section Reference.
Context (direct : bool).

(** An inactive source is all zero; in direct delivery an active one has a
    priority; a level-sensitive source becomes pending with its wire. *)
Definition set_mode (m : source_mode) (x : Source) : Source :=
  match m with
  | Inactive => fresh (wire x) (delegated x)
  | _ =>
    let x := x <| how := m |> in
    let x := if direct then x <| ident := Z.max 1 (ident x) |> else x in
    if is_level m then x <| pend := asserted x |> else x
  end.

Definition write_cfg (supervisor : bool) (val : Z) (x : Source) : Source :=
  if supervisor && negb (delegated x) then x
  else if Z.testbit val 10 then
    if supervisor then set_mode Inactive x
    else if delegated x then x else fresh (wire x) true
  else if negb supervisor && delegated x then set_mode (mode_written val) (fresh (wire x) false)
  else set_mode (mode_written val) x.

(** Whether a domain's registers of the source are there. *)
Definition mine (supervisor : bool) (x : Source) : bool :=
  eqb (delegated x) supervisor && is_active (how x).

Definition set_ip (supervisor : bool) (x : Source) : Source :=
  if mine supervisor x && (negb (is_level (how x)) || (negb direct && asserted x))
  then x <| pend := true |> else x.

Definition clear_ip (supervisor : bool) (x : Source) : Source :=
  if mine supervisor x && negb (is_level (how x) && direct) then x <| pend := false |> else x.

Definition set_en (supervisor val : bool) (x : Source) : Source :=
  if mine supervisor x then x <| en := val |> else x.

Definition write_target (supervisor : bool) (val : Z) (x : Source) : Source :=
  if mine supervisor x
  then x <| to_hart := val / 2 ^ 18 |>
         <| ident := if direct then Z.max 1 (val mod 2 ^ 8) else val mod 2 ^ 11 |>
  else x.

Definition set_wire (level : bool) (x : Source) : Source :=
  let x' := x <| wire := level |> in
  if is_level (how x) && direct then x' <| pend := asserted x' |>
  else if negb (asserted x) && asserted x' then x' <| pend := true |>
  else if is_level (how x) && negb (asserted x') then x' <| pend := false |>
  else x'.

(** What every source of a reachable state has in common. *)
Record source_ok (x : Source) : Prop := {
  ok_hart : 0 <= to_hart x < 2 ^ 14;
  ok_ident : 0 <= ident x < 2 ^ 11;
  ok_inactive : how x = Inactive -> x = fresh (wire x) (delegated x);
  ok_prio : direct = true -> how x <> Inactive -> 1 <= ident x < 2 ^ 8;
  ok_level : is_level (how x) = true -> pend x = true -> asserted x = true;
  ok_follows : direct = true -> is_level (how x) = true -> pend x = asserted x;
}.
End Reference.

(** * The reference: the controller *)

Inductive op :=
| ORead (supervisor : bool) (offset : Z)
| OWrite (supervisor : bool) (offset val : Z)
| ODelegate
| OWire (irq_num : Z) (level : bool).

Definition op_ok (o : op) : Prop :=
  match o with
  | ORead _ offset => 0 <= offset < APLIC_SIZE
  | OWrite _ offset val => 0 <= offset < APLIC_SIZE /\ inw 32 val
  | _ => True
  end.

Definition step (s : APLIC) (o : op) : APLIC :=
  match o with
  | ORead sup offset => (Read sup offset s).1
  | OWrite sup offset val => Write sup offset val s
  | ODelegate => DelegateAll s
  | OWire irq level => SetIRQ irq level s
  end.

Record Spec := mkSpec {
  aie : bool -> bool;
  aidc : bool -> Z -> Idc;
  asrc : Z -> Source;
  amsgs : list (Z * Z);
}.

Definition spec0 : Spec :=
  mkSpec (fun _ => false) (fun _ _ => idc0) (fun _ => fresh false false) [].

Section Machine.
Context (hart_count num_sources : nat) (msi : option AplicMsiLayout).
Let direct : bool := bool_decide (msi = None).

Definition sources : list Z := Z.of_nat <$> seq 1 num_sources.

(** A source a hart is to be signalled for: pending and enabled in the domain,
    directed at the hart and under its threshold. *)
Definition eligible (a : Spec) (sup : bool) (hart irq : Z) : bool :=
  let x := asrc a irq in let th := ithreshold (aidc a sup hart) in
  eqb (delegated x) sup && pend x && en x && (to_hart x =? hart) &&
  ((th =? 0) || (ident x <? th)).

(** The eligible source of the lowest priority number, the lowest source of
    those, or 0. *)
Definition top (a : Spec) (sup : bool) (hart : Z) : Z :=
  foldr (fun irq best =>
    if eligible a sup hart irq &&
       ((best =? 0) || (ident (asrc a irq) <=? ident (asrc a best)))
    then irq else best) 0 sources.

Definition aline (a : Spec) (sup : bool) (hart : Z) : bool :=
  aie a sup && idelivery (aidc a sup hart) &&
  (iforce (aidc a sup hart) || nz (top a sup hart)).

(** The domain, hart and register an access to the IDC structures is to. *)
Definition idc_reg (o : op) : option (bool * Z * Z) :=
  match o with
  | ORead sup offset | OWrite sup offset _ =>
    let hart := (offset - APLIC_IDC_BASE) / APLIC_IDC_SIZE in
    if direct && (APLIC_IDC_BASE <=? offset) && (hart <? Z.of_nat hart_count)
    then Some (sup, hart, (offset - APLIC_IDC_BASE) mod APLIC_IDC_SIZE) else None
  | _ => None
  end.

(** The domain and hart of a claim. *)
Definition claims (o : op) : option (bool * Z) :=
  match o, idc_reg o with
  | ORead _ _, Some (sup, hart, reg) => if reg =? APLIC_IDC_CLAIMI then Some (sup, hart) else None
  | _, _ => None
  end.

Definition next_idc (a : Spec) (o : op) (sup : bool) (hart : Z) : Idc :=
  let i := aidc a sup hart in
  match o, idc_reg o with
  | OWrite _ _ val, Some (sup', hart', reg) =>
    if negb (eqb sup sup' && (hart =? hart')) then i
    else if reg =? APLIC_IDC_IDELIVERY then i <| idelivery := Z.testbit val 0 |>
    else if reg =? APLIC_IDC_IFORCE then i <| iforce := Z.testbit val 0 |>
    else if reg =? APLIC_IDC_ITHRESHOLD then i <| ithreshold := val mod 2 ^ 8 |>
    else i
  | _, _ =>
    match claims o with
    | Some (sup', hart') =>
      if eqb sup sup' && (hart =? hart') && (top a sup hart =? 0)
      then i <| iforce := false |> else i
    | None => i
    end
  end.

Definition next_ie (a : Spec) (o : op) (sup : bool) : bool :=
  match o with
  | OWrite sup' offset val =>
    if eqb sup sup' && (offset =? APLIC_DOMAINCFG) then Z.testbit val 8 else aie a sup
  | _ => aie a sup
  end.

(** Whether a write to a bitmap names [irq]. *)
Definition names (base offset val irq : Z) : bool :=
  in_bitmap base offset && ((offset - base) / 4 =? irq / 32) && Z.testbit val (irq mod 32).

(** What an operation does to the source [irq], before it is signalled. *)
Definition act (a : Spec) (o : op) (irq : Z) : Source -> Source :=
  match o with
  | ORead _ _ =>
    match claims o with
    | Some (sup, hart) => if top a sup hart =? irq then clear_ip direct sup else id
    | None => id
    end
  | OWrite sup offset val =>
    if (offset <? APLIC_MMSIADDRCFG) && (offset / 4 =? irq) then write_cfg direct sup val
    else if names APLIC_SETIP_BASE offset val irq ||
            (((offset =? APLIC_SETIPNUM) || (offset =? APLIC_SETIPNUM_LE)) && (val =? irq))
    then set_ip direct sup
    else if names APLIC_IN_CLRIP_BASE offset val irq || ((offset =? APLIC_CLRIPNUM) && (val =? irq))
    then clear_ip direct sup
    else if names APLIC_SETIE_BASE offset val irq || ((offset =? APLIC_SETIENUM) && (val =? irq))
    then set_en sup true
    else if names APLIC_CLRIE_BASE offset val irq || ((offset =? APLIC_CLRIENUM) && (val =? irq))
    then set_en sup false
    else if (APLIC_TARGET_BASE <? offset) && (offset <? APLIC_IDC_BASE) &&
            ((offset - APLIC_TARGET_BASE) / 4 =? irq)
    then write_target direct sup val
    else id
  | ODelegate => write_cfg direct false (2 ^ 10)
  | OWire irq_num level => if u32 irq_num =? irq then set_wire direct level else id
  end.

Definition message (sup : bool) (hart ident : Z) : list (Z * Z) :=
  match msi with
  | Some l => [((if sup then s_base l else m_base l) + 4096 * (hart mod 2 ^ hart_index_bits l), ident)]
  | None => []
  end.

(** A source whose message is due, and what sending it leaves. *)
Definition due (ies : bool -> bool) (sup : bool) (x : Source) : bool :=
  negb direct && ies sup && eqb (delegated x) sup && pend x && en x.
Definition deliver (ies : bool -> bool) (x : Source) : Source :=
  if due ies (delegated x) x then x <| pend := false |> else x.
Definition due_messages (ies : bool -> bool) (src : Z -> Source) (sup : bool) : list (Z * Z) :=
  flat_map (fun irq => if due ies sup (src irq)
                       then message sup (to_hart (src irq)) (ident (src irq)) else []) sources.

(** A write to genmsi sends a message of its own. *)
Definition generated (o : op) : list (Z * Z) :=
  match o with
  | OWrite sup offset val =>
    if offset =? APLIC_GENMSI then message sup (val / 2 ^ 18) (val mod 2 ^ 11) else []
  | _ => []
  end.

Definition astep (a : Spec) (o : op) : Spec :=
  let src irq := act a o irq (asrc a irq) in
  let ies := next_ie a o in {|
  aie := ies;
  aidc := next_idc a o;
  asrc := fun irq => deliver ies (src irq);
  amsgs := amsgs a ++ generated o ++ due_messages ies src false ++ due_messages ies src true;
|}.
End Machine.

(** * The registers of a source *)

Record Cell := mkCell { ccfg : Z; ctgt : Z; cpend : bool; cen : bool }.

Definition cell (d : Domain) (irq : Z) : Cell :=
  mkCell (arr_get 0 (sourcecfg d) irq) (arr_get 0 (target d) irq)
    (bitmap_get (pending d) irq) (bitmap_get (enable d) irq).

(** The wire and the two domains' registers of a source. *)
Definition view (s : APLIC) (irq : Z) : bool * Cell * Cell :=
  (bitmap_get (fLevel s) irq, cell (fM s) irq, cell (fS s) irq).

Definition cfg_of (m : source_mode) : Z :=
  match m with
  | Inactive => APLIC_SM_INACTIVE | Detached => APLIC_SM_DETACHED
  | Edge false => APLIC_SM_EDGE1 | Edge true => APLIC_SM_EDGE0
  | Lvl false => APLIC_SM_LEVEL1 | Lvl true => APLIC_SM_LEVEL0
  end.

Definition cell_of (x : Source) : Cell :=
  mkCell (cfg_of (how x)) (to_hart x * 2 ^ 18 + ident x) (pend x) (en x).

Definition conc (x : Source) : bool * Cell * Cell :=
  if delegated x then (wire x, mkCell APLIC_SOURCECFG_D 0 false false, cell_of x)
  else (wire x, cell_of x, mkCell 0 0 false false).

(** ** Everything but the sources *)

Definition dom_wf (n h : nat) (w : Z) (d : Domain) : Prop :=
  length (sourcecfg d) = S n /\ length (target d) = S n /\
  Z.of_nat (length (pending d)) = w /\ Z.of_nat (length (enable d)) = w /\ length (idc d) = h.

Record wf (s : APLIC) : Prop := {
  wf_M : dom_wf (fNumSources s) (fHartCount s) (fWords s) (fM s);
  wf_S : dom_wf (fNumSources s) (fHartCount s) (fWords s) (fS s);
  wf_level : Z.of_nat (length (fLevel s)) = fWords s;
  wf_words : Z.of_nat (fNumSources s) < 32 * fWords s;
  wf_harts : length (fHarts s) = (2 * fHartCount s)%nat;
  wf_num : (fNumSources s < 1024)%nat;
}.

Definition rest (s : APLIC) :=
  (fMsgs s, fHarts s, (fHartCount s, fNumSources s, fWords s), (fMsiMode s, fMsi s),
   (ie (fM s), idc (fM s), ie (fS s), idc (fS s))).

Definition valid (s : APLIC) (irq : Z) : Prop := 1 <= irq <= Z.of_nat (fNumSources s).

Lemma bitmap_get_put m n v k : 0 <= n < 32 * Z.of_nat (length m) -> 0 <= k ->
  bitmap_get (bitmap_put m n v) k = if k =? n then v else bitmap_get m k.
Proof.
  intros Hn Hk. unfold bitmap_get, bitmap_put.
  pose proof (Z.div_mod n 32 ltac:(lia)). pose proof (Z.mod_pos_bound n 32 ltac:(lia)).
  pose proof (Z.div_mod k 32 ltac:(lia)). pose proof (Z.mod_pos_bound k 32 ltac:(lia)).
  rewrite arr_get_set by lia.
  destruct (Z.eqb_spec k n) as [->|Hne]; [by rewrite Z.eqb_refl, get_set_bit by lia|].
  destruct (Z.eqb_spec (k / 32) (n / 32)) as [E|]; [|done].
  rewrite E. apply get_set_bit_other; lia.
Qed.

Lemma length_bitmap_put m n v : length (bitmap_put m n v) = length m.
Proof. apply length_arr_set. Qed.

(** [s'] is [s] with the registers of the source [irq0] changed by [f]. *)
Record changes (s s' : APLIC) (irq0 : Z) (f : bool * Cell * Cell -> bool * Cell * Cell) : Prop := {
  ch_wf : wf s';
  ch_rest : rest s' = rest s;
  ch_view : forall irq, valid s irq ->
    view s' irq = if irq =? irq0 then f (view s irq) else view s irq;
}.

Definition on_cell (sup : bool) (g : Cell -> Cell) (v : bool * Cell * Cell) : bool * Cell * Cell :=
  let '(w, m, c) := v in if sup then (w, m, g c) else (w, g m, c).

Ltac cell_change sup H :=
  destruct H as [(?&?&?&?&?) (?&?&?&?&?) ? ? ? ?];
  unfold valid in *;
  destruct sup;
  (split; [split; simpl; rewrite ?length_arr_set, ?length_bitmap_put;
           unfold dom_wf; simpl; rewrite ?length_arr_set, ?length_bitmap_put; tauto || lia
          |done
          |unfold valid; intros ??; unfold view, cell; simpl;
           rewrite ?bitmap_get_put, ?(arr_get_set 0) by lia; by case_match]).

Lemma put_pending_changes sup irq v s : wf s -> valid s irq ->
  changes s (put_pending sup irq v s) irq (on_cell sup (fun c => mkCell (ccfg c) (ctgt c) v (cen c))).
Proof. intros H ?. cell_change sup H. Qed.

Lemma put_enable_changes sup irq v s : wf s -> valid s irq ->
  changes s (put_enable sup irq v s) irq (on_cell sup (fun c => mkCell (ccfg c) (ctgt c) (cpend c) v)).
Proof. intros H ?. cell_change sup H. Qed.

Lemma put_target_changes sup irq v s : wf s -> valid s irq ->
  changes s (put_target sup irq v s) irq (on_cell sup (fun c => mkCell (ccfg c) v (cpend c) (cen c))).
Proof. intros H ?. cell_change sup H. Qed.

Lemma put_sourcecfg_changes sup irq v s : wf s -> valid s irq ->
  changes s (put_sourcecfg sup irq v s) irq (on_cell sup (fun c => mkCell v (ctgt c) (cpend c) (cen c))).
Proof. intros H ?. cell_change sup H. Qed.

Lemma put_level_changes irq v s : wf s -> valid s irq ->
  changes s (put_level irq v s) irq (fun '(_, m, c) => (v, m, c)).
Proof. intros H ?. cell_change v H. Qed.

Lemma rest_num s s' : rest s' = rest s -> fNumSources s' = fNumSources s.
Proof. unfold rest. congruence. Qed.
Lemma rest_mode s s' : rest s' = rest s -> fMsiMode s' = fMsiMode s.
Proof. unfold rest. congruence. Qed.
Lemma rest_valid s s' irq : rest s' = rest s -> valid s' irq <-> valid s irq.
Proof. intros H. unfold valid. by rewrite (rest_num s s' H). Qed.

Lemma changes_at s s' irq f : changes s s' irq f -> valid s irq -> view s' irq = f (view s irq).
Proof. intros H Hv. by rewrite (ch_view _ _ _ _ H irq Hv), Z.eqb_refl. Qed.

Lemma changes_refl s irq f : wf s -> (valid s irq -> f (view s irq) = view s irq) -> changes s s irq f.
Proof.
  intros Hw Hf. split; [done|done|]. intros k Hk.
  destruct (Z.eqb_spec k irq) as [->|]; [|done]. by rewrite Hf.
Qed.

Lemma changes_trans s1 s2 s3 irq f g :
  changes s1 s2 irq f -> changes s2 s3 irq g -> changes s1 s3 irq (fun v => g (f v)).
Proof.
  intros [H1 R1 V1] [H2 R2 V2]. split; [done|congruence|]. intros k Hk.
  rewrite V2, V1 by (done || by apply (rest_valid s1 s2)). by case_match.
Qed.

Lemma changes_ext s s' irq f g : changes s s' irq f ->
  (valid s irq -> f (view s irq) = g (view s irq)) -> changes s s' irq g.
Proof.
  intros [H R V] E. split; [done..|]. intros k Hk. rewrite V by done.
  destruct (Z.eqb_spec k irq) as [->|]; [by apply E|done].
Qed.

(** ** What the code looks at, from the registers of the source *)

Definition cell_at (sup : bool) (v : bool * Cell * Cell) : Cell := if sup then v.2 else v.1.2.

Definition mode_view (sup : bool) (v : bool * Cell * Cell) : Z :=
  let seen := if sup then nz (Z.land (ccfg v.1.2) APLIC_SOURCECFG_D) else true in
  if negb seen || nz (Z.land (ccfg (cell_at sup v)) APLIC_SOURCECFG_D) then APLIC_SM_INACTIVE
  else Z.land (ccfg (cell_at sup v)) APLIC_SOURCECFG_SM.

Definition rectified_view (sup : bool) (v : bool * Cell * Cell) : bool :=
  let mode := mode_view sup v in
  if mode <? APLIC_SM_EDGE1 then false
  else xorb v.1.1 ((mode =? APLIC_SM_EDGE0) || (mode =? APLIC_SM_LEVEL0)).

Lemma valid_dec s irq : valid s irq -> (irq =? 0) || (Z.of_nat (fNumSources s) <? irq) = false.
Proof. unfold valid. intros. apply orb_false_iff. lia. Qed.

Lemma Visible_view s sup irq : valid s irq ->
  Visible s sup irq = if sup then nz (Z.land (ccfg (view s irq).1.2) APLIC_SOURCECFG_D) else true.
Proof. intros H. unfold Visible. by rewrite (valid_dec s irq H). Qed.

Lemma Mode_view s sup irq : valid s irq -> Mode s sup irq = mode_view sup (view s irq).
Proof. intros H. unfold Mode. rewrite (Visible_view s sup irq H). by destruct sup. Qed.

Lemma Rectified_view s sup irq : valid s irq ->
  Rectified s sup irq = rectified_view sup (view s irq).
Proof. intros H. unfold Rectified. by rewrite (Mode_view s sup irq H). Qed.

Lemma Mode_invalid s sup irq : 0 <= irq -> ~ valid s irq -> Mode s sup irq = APLIC_SM_INACTIVE.
Proof.
  unfold valid, Mode, Visible. intros ? H.
  replace ((irq =? 0) || (Z.of_nat (fNumSources s) <? irq)) with true; [done|].
  symmetry. apply orb_true_iff. lia.
Qed.

(** ** The same, for a source of the reference *)

Lemma cfg_of_D m : nz (Z.land (cfg_of m) APLIC_SOURCECFG_D) = false.
Proof. by destruct m as [| |[]|[]]. Qed.
Lemma cfg_of_SM m : Z.land (cfg_of m) APLIC_SOURCECFG_SM = cfg_of m.
Proof. by destruct m as [| |[]|[]]. Qed.

Lemma mode_conc sup x :
  mode_view sup (conc x) = if eqb (delegated x) sup then cfg_of (how x) else APLIC_SM_INACTIVE.
Proof.
  unfold mode_view, conc, cell_at.
  destruct (delegated x), sup; simpl; rewrite ?cfg_of_D, ?cfg_of_SM; done.
Qed.

Lemma rectified_conc sup x :
  rectified_view sup (conc x) = eqb (delegated x) sup && asserted x.
Proof.
  unfold rectified_view. rewrite mode_conc. unfold conc, asserted.
  destruct (delegated x), sup, (how x) as [| |[]|[]]; simpl; done || by rewrite ?xorb_false_r.
Qed.

Lemma level_cfg_of m : mode_is_level (cfg_of m) = is_level m.
Proof. by destruct m as [| |[]|[]]. Qed.
Lemma inactive_cfg_of m : (cfg_of m =? APLIC_SM_INACTIVE) = negb (is_active m).
Proof. by destruct m as [| |[]|[]]. Qed.

(** [Mode(d, irq) == APLIC_SM_INACTIVE] *)
Lemma inactive_conc s sup irq x : valid s irq -> view s irq = conc x ->
  (Mode s sup irq =? APLIC_SM_INACTIVE) = negb (mine sup x).
Proof.
  intros Hv Hx. rewrite Mode_view, Hx, mode_conc by done. unfold mine.
  destruct (eqb _ _); [apply inactive_cfg_of|done].
Qed.
Lemma level_conc s sup irq x : valid s irq -> view s irq = conc x ->
  mode_is_level (Mode s sup irq) = eqb (delegated x) sup && is_level (how x).
Proof.
  intros Hv Hx. rewrite Mode_view, Hx, mode_conc by done.
  destruct (eqb _ _); [apply level_cfg_of|done].
Qed.
Lemma asserted_conc s sup irq x : valid s irq -> view s irq = conc x ->
  Rectified s sup irq = eqb (delegated x) sup && asserted x.
Proof. intros Hv Hx. by rewrite Rectified_view, Hx, rectified_conc. Qed.

(** A change of the domain that has the source. *)
Lemma on_cell_conc sup g x y : delegated x = sup -> delegated y = sup -> wire y = wire x ->
  g (cell_of x) = cell_of y -> on_cell sup g (conc x) = conc y.
Proof. unfold conc. intros -> -> -> E. destruct sup; simpl; by rewrite E. Qed.

Lemma mine_spec sup x : mine sup x = true -> delegated x = sup /\ how x <> Inactive.
Proof.
  unfold mine. intros [H1 H2]%andb_true_iff. split; [by apply eqb_prop|].
  intros E. by rewrite E in H2.
Qed.

(** * The operations on one source *)

Lemma set_ip_ok direct sup x : source_ok direct x -> source_ok direct (set_ip direct sup x).
Proof.
  intros H. unfold set_ip. destruct (mine sup x) eqn:Em; simpl; [|done].
  apply mine_spec in Em as [? ?]. case_match eqn:E; [|done].
  destruct H as [? ? ? ? ? Hf]. split; simpl; try done; unfold asserted; simpl.
  - intros Hl. rewrite Hl in E. simpl in E. by apply andb_true_iff in E as [_ ?].
  - intros -> Hl. by rewrite Hl in E.
Qed.

Lemma clear_ip_ok direct sup x : source_ok direct x -> source_ok direct (clear_ip direct sup x).
Proof.
  intros H. unfold clear_ip. destruct (mine sup x) eqn:Em; simpl; [|done].
  apply mine_spec in Em as [? ?]. case_match eqn:E; [|done].
  destruct H as [? ? ? ? ? Hf]. split; simpl; try done.
  intros -> Hl. by rewrite Hl in E.
Qed.

Lemma set_en_ok direct sup v x : source_ok direct x -> source_ok direct (set_en sup v x).
Proof.
  intros H. unfold set_en. destruct (mine sup x) eqn:Em; [|done].
  apply mine_spec in Em as [? ?]. destruct H. by split.
Qed.

Lemma write_target_ok direct sup v x : inw 32 v ->
  source_ok direct x -> source_ok direct (write_target direct sup v x).
Proof.
  intros Hv H. unfold write_target. destruct (mine sup x) eqn:Em; [|done].
  apply mine_spec in Em as [? ?]. unfold inw in Hv.
  assert (0 <= v / 2 ^ 18 < 2 ^ 14).
  { split; [apply Z.div_pos; lia|apply Z.div_lt_upper_bound; lia]. }
  pose proof (Z.mod_pos_bound v (2 ^ 8) ltac:(lia)).
  pose proof (Z.mod_pos_bound v (2 ^ 11) ltac:(lia)).
  destruct H. split; simpl; try done; destruct direct; try done; lia.
Qed.

Lemma set_wire_ok direct l x : source_ok direct x -> source_ok direct (set_wire direct l x).
Proof.
  intros [? ? Hi ? Hl Hf]. unfold set_wire.
  destruct (how x) as [| |low|low] eqn:E.
  { rewrite Hi by done. unfold asserted, fresh. simpl. by split. }
  all: unfold asserted in *; simpl; rewrite ?E in *; simpl in *.
  - by split; simpl; rewrite ?E.
  - repeat case_match; split; simpl; rewrite ?E; done.
  - destruct direct; simpl.
    + split; simpl; rewrite ?E; unfold asserted; simpl; rewrite ?E; done.
    + destruct (xorb (wire x) low) eqn:Ew, (xorb l low) eqn:En; simpl;
        (split; simpl; rewrite ?E; unfold asserted; simpl; rewrite ?E; try done; by intros _ ?%Hl).
Qed.

Lemma set_mode_ok direct m x : source_ok direct x -> source_ok direct (set_mode direct m x).
Proof.
  intros [? ? Hi Hp Hl Hf].
  destruct m; (split; simpl; destruct direct; simpl; unfold asserted; simpl; try done; try lia).
  all: destruct (decide (how x = Inactive)) as [E|E];
    [rewrite (Hi E); simpl; lia|specialize (Hp eq_refl E); lia].
Qed.

Lemma fresh_ok direct w d : source_ok direct (fresh w d).
Proof. by split. Qed.

Lemma write_cfg_ok direct sup v x : source_ok direct x -> source_ok direct (write_cfg direct sup v x).
Proof.
  intros. unfold write_cfg. repeat case_match; try done; auto using set_mode_ok, fresh_ok.
Qed.

(** ** What the code does to the registers *)

Definition direct_of (s : APLIC) : bool := negb (fMsiMode s).

(** The registers of every source are those of a source of the reference. *)
Definition Views (s : APLIC) (src : Z -> Source) : Prop :=
  wf s /\ forall irq, valid s irq -> view s irq = conc (src irq) /\ source_ok (direct_of s) (src irq).

(** [s'] is [s] with other sources. *)
Definition moves (s s' : APLIC) (src' : Z -> Source) : Prop :=
  rest s' = rest s /\ Views s' src'.

Definition at_irq (irq0 : Z) (h : Source -> Source) (src : Z -> Source) (irq : Z) : Source :=
  if irq =? irq0 then h (src irq) else src irq.

Lemma moves_at s s' src irq0 h : Views s src -> 0 <= irq0 ->
  (valid s irq0 -> changes s s' irq0 (fun _ => conc (h (src irq0)))) ->
  (~ valid s irq0 -> s' = s) ->
  (forall x, source_ok (direct_of s) x -> source_ok (direct_of s) (h x)) ->
  moves s s' (at_irq irq0 h src).
Proof.
  intros [Hw Hs] H0 Hc Hn Hh. destruct (decide (1 <= irq0 <= Z.of_nat (fNumSources s))) as [Hv|Hv].
  - destruct (Hc Hv) as [Hw' Hr Hvw]. split; [done|]. split; [done|]. intros irq Hirq.
    apply (rest_valid s) in Hirq; [|done]. destruct (Hs irq Hirq) as [E Hok].
    assert (direct_of s' = direct_of s) as -> by (unfold direct_of; by rewrite (rest_mode s)).
    rewrite Hvw by done. unfold at_irq. destruct (Z.eqb_spec irq irq0) as [->|]; auto.
  - rewrite (Hn Hv). split; [done|]. split; [done|]. intros irq Hirq. unfold at_irq.
    destruct (Z.eqb_spec irq irq0) as [->|]; [done|]. by apply Hs.
Qed.

Lemma SetPendingByWrite_moves sup irq s src : Views s src -> 0 <= irq ->
  moves s (SetPendingByWrite sup irq s) (at_irq irq (set_ip (direct_of s) sup) src).
Proof.
  intros HV H0. apply moves_at; [done..| | |apply set_ip_ok].
  2:{ intros Hv. unfold SetPendingByWrite. by rewrite Mode_invalid. }
  intros Hv. destruct HV as [Hw Hs]. destruct (Hs irq Hv) as [E _].
  unfold SetPendingByWrite, set_ip.
  rewrite (inactive_conc s sup irq _ Hv E), (level_conc s sup irq _ Hv E),
    (asserted_conc s sup irq _ Hv E).
  destruct (mine sup (src irq)) eqn:Em; simpl; [|by apply changes_refl].
  apply mine_spec in Em as [Hd Ha]. rewrite Hd, eqb_reflx. unfold direct_of. simpl.
  destruct (is_level (how (src irq))), (fMsiMode s), (asserted (src irq)); simpl;
    try (by apply changes_refl);
    (eapply changes_ext; [by apply put_pending_changes|]; intros _; rewrite E;
     by apply on_cell_conc).
Qed.

Lemma ClearPendingByWrite_moves sup irq s src : Views s src -> 0 <= irq ->
  moves s (ClearPendingByWrite sup irq s) (at_irq irq (clear_ip (direct_of s) sup) src).
Proof.
  intros HV H0. apply moves_at; [done..| | |apply clear_ip_ok].
  2:{ intros Hv. unfold ClearPendingByWrite. by rewrite Mode_invalid. }
  intros Hv. destruct HV as [Hw Hs]. destruct (Hs irq Hv) as [E _].
  unfold ClearPendingByWrite, clear_ip.
  rewrite (inactive_conc s sup irq _ Hv E), (level_conc s sup irq _ Hv E).
  destruct (mine sup (src irq)) eqn:Em; simpl; [|by apply changes_refl].
  apply mine_spec in Em as [Hd Ha]. rewrite Hd, eqb_reflx. unfold direct_of. simpl.
  destruct (is_level (how (src irq)) && negb (fMsiMode s)); [by apply changes_refl|].
  eapply changes_ext; [by apply put_pending_changes|]. intros _. rewrite E. by apply on_cell_conc.
Qed.

Lemma SetEnable_moves sup irq v s src : Views s src -> 0 <= irq ->
  moves s (SetEnable sup irq v s) (at_irq irq (set_en sup v) src).
Proof.
  intros HV H0. apply moves_at; [done..| | |apply set_en_ok].
  2:{ intros Hv. unfold SetEnable. by rewrite Mode_invalid. }
  intros Hv. destruct HV as [Hw Hs]. destruct (Hs irq Hv) as [E _].
  unfold SetEnable, set_en. rewrite (inactive_conc s sup irq _ Hv E).
  destruct (mine sup (src irq)) eqn:Em; simpl; [|by apply changes_refl].
  apply mine_spec in Em as [Hd Ha].
  eapply changes_ext; [by apply put_enable_changes|]. intros _. rewrite E. by apply on_cell_conc.
Qed.

(** The value the code puts into a target register. *)
Lemma target_value v n : inw 32 v -> 0 <= n < 2 ^ 11 ->
  Z.lor (u32 (Z.shiftl (get_bits 32 v 18 14) 18)) n = v / 2 ^ 18 * 2 ^ 18 + n.
Proof.
  intros Hv Hn. unfold inw in Hv. rewrite get_bits_mod by lia.
  assert (0 <= v / 2 ^ 18 < 2 ^ 14) by (split; [apply Z.div_pos|apply Z.div_lt_upper_bound]; lia).
  rewrite Z.mod_small by lia. rewrite Z.shiftl_mul_pow2 by lia. unfold u32.
  rewrite uw_small by (unfold inw; lia). apply lor_mul_pow2; [lia|]. unfold inw. lia.
Qed.

Lemma WriteTarget_moves sup irq v s src : Views s src -> 0 <= irq -> inw 32 v ->
  moves s (WriteTarget sup irq v s) (at_irq irq (write_target (direct_of s) sup v) src).
Proof.
  intros HV H0 Hr. apply moves_at; [done..| | |by intros; apply write_target_ok].
  2:{ intros Hv. unfold WriteTarget. by rewrite Mode_invalid. }
  intros Hv. destruct HV as [Hw Hs]. destruct (Hs irq Hv) as [E _].
  unfold WriteTarget, write_target. rewrite (inactive_conc s sup irq _ Hv E).
  destruct (mine sup (src irq)) eqn:Em; simpl; [|by apply changes_refl].
  apply mine_spec in Em as [Hd Ha].
  pose proof (Z.mod_pos_bound v (2 ^ 8) ltac:(lia)).
  pose proof (Z.mod_pos_bound v (2 ^ 11) ltac:(lia)).
  unfold direct_of. destruct (fMsiMode s); simpl;
    (eapply changes_ext; [by apply put_target_changes|]); intros _; rewrite E;
    apply on_cell_conc; try done; unfold cell_of; simpl; f_equal;
    unfold APLIC_TARGET_HART_SHIFT, APLIC_TARGET_HART_BITS, APLIC_TARGET_EIID_BITS,
      APLIC_TARGET_IPRIO_BITS; rewrite get_bits_0 by lia; unfold uw.
  - apply target_value; [done|lia].
  - replace (if nz (v mod 2 ^ 8) then v mod 2 ^ 8 else 1) with (Z.max 1 (v mod 2 ^ 8)).
    { apply target_value; [done|lia]. }
    unfold nz. destruct (Z.eqb_spec (v mod 2 ^ 8) 0); simpl; lia.
Qed.

(** ** Source configuration *)

Lemma Deactivate_changes sup irq s : wf s -> valid s irq ->
  changes s (Deactivate sup irq s) irq (on_cell sup (fun c => mkCell (ccfg c) 0 false false)).
Proof.
  intros Hw Hv. unfold Deactivate.
  pose proof (put_pending_changes sup irq false s Hw Hv) as H1.
  assert (Hv1 := Hv). apply (rest_valid s _ irq (ch_rest _ _ _ _ H1)) in Hv1.
  pose proof (put_enable_changes sup irq false _ (ch_wf _ _ _ _ H1) Hv1) as H2.
  assert (Hv2 := Hv1). apply (rest_valid _ _ irq (ch_rest _ _ _ _ H2)) in Hv2.
  pose proof (put_target_changes sup irq 0 _ (ch_wf _ _ _ _ H2) Hv2) as H3.
  eapply changes_ext; [apply (changes_trans _ _ _ _ _ _ H1 (changes_trans _ _ _ _ _ _ H2 H3))|].
  intros _. by destruct (view s irq) as [[? ?] ?], sup.
Qed.

(** What is stored for a value written to a sourcecfg register. *)
Definition cfg_stored (sup : bool) (val : Z) : Z :=
  if nz (Z.land val APLIC_SOURCECFG_D) then if sup then 0 else APLIC_SOURCECFG_D
  else let val := Z.land val APLIC_SOURCECFG_SM in
       if (val =? 2) || (val =? 3) then APLIC_SM_INACTIVE else val.

(** The registers of a source through the steps of [WriteSourcecfg]: the target
    or all of them are reset, the child loses the source, a level-sensitive
    source takes its wire. *)
Definition settle_view (direct sup : bool) (mode : Z) (v : bool * Cell * Cell) :=
  if mode =? APLIC_SM_INACTIVE then on_cell sup (fun c => mkCell (ccfg c) 0 false false) v
  else if direct && (get_bits 32 (ctgt (cell_at sup v)) 0 APLIC_TARGET_IPRIO_BITS =? 0)
  then on_cell sup (fun c => mkCell (ccfg c) 1 (cpend c) (cen c)) v else v.

Definition vanish_view (sup : bool) (val : Z) (v : bool * Cell * Cell) :=
  if negb sup && negb (nz (Z.land val APLIC_SOURCECFG_D))
  then on_cell true (fun _ => mkCell 0 0 false false) v else v.

Definition cfg_view (direct sup : bool) (val : Z) (v : bool * Cell * Cell) : bool * Cell * Cell :=
  let v := on_cell sup (fun c => mkCell val (ctgt c) (cpend c) (cen c)) v in
  let mode := mode_view sup v in
  let v := vanish_view sup val (settle_view direct sup mode v) in
  if mode_is_level mode
  then on_cell sup (fun c => mkCell (ccfg c) (ctgt c) (rectified_view sup v) (cen c)) v else v.

Lemma target_view s sup irq : arr_get 0 (target (dom s sup)) irq = ctgt (cell_at sup (view s irq)).
Proof. by destruct sup. Qed.

Lemma settle_changes sup irq mode s : wf s -> valid s irq ->
  changes s (if mode =? APLIC_SM_INACTIVE then Deactivate sup irq s
             else if negb (fMsiMode s) &&
                     (get_bits 32 (arr_get 0 (target (dom s sup)) irq) 0 APLIC_TARGET_IPRIO_BITS =? 0)
             then put_target sup irq 1 s else s) irq
    (settle_view (direct_of s) sup mode).
Proof.
  intros Hw Hv. rewrite target_view. unfold settle_view. fold (direct_of s).
  destruct (mode =? _) eqn:Em; [by apply Deactivate_changes|].
  destruct (direct_of s && _) eqn:E.
  - eapply changes_ext; [by apply put_target_changes|]. intros _. by rewrite E.
  - apply changes_refl; [done|]. intros _. by rewrite E.
Qed.

Lemma vanish_changes sup irq val s : wf s -> valid s irq ->
  changes s (if negb sup && negb (nz (Z.land val APLIC_SOURCECFG_D))
             then Deactivate true irq (put_sourcecfg true irq 0 s) else s) irq
    (vanish_view sup val).
Proof.
  intros Hw Hv. unfold vanish_view. destruct (negb sup && _); [|by apply changes_refl].
  pose proof (put_sourcecfg_changes true irq 0 s Hw Hv) as H1.
  eapply changes_ext;
    [eapply changes_trans; [apply H1|apply Deactivate_changes; [apply H1|]]|].
  - by apply (rest_valid s _ irq (ch_rest _ _ _ _ H1)).
  - intros _. by destruct (view s irq) as [[? ?] ?].
Qed.

Lemma WriteSourcecfg_changes sup irq val s : wf s -> valid s irq -> Visible s sup irq = true ->
  changes s (WriteSourcecfg sup irq val s) irq
    (cfg_view (direct_of s) sup (cfg_stored sup val)).
Proof.
  intros Hw Hv Hvis. unfold WriteSourcecfg. rewrite Hvis. simpl negb. cbv iota.
  fold (cfg_stored sup val). set (k := cfg_stored sup val).
  pose proof (put_sourcecfg_changes sup irq k s Hw Hv) as H1.
  set (s1 := put_sourcecfg sup irq k s) in *. cbv zeta.
  assert (Hv1 : valid s1 irq) by (by apply (rest_valid s _ irq (ch_rest _ _ _ _ H1))).
  pose proof (settle_changes sup irq (Mode s1 sup irq) s1 (ch_wf _ _ _ _ H1) Hv1) as H2.
  match type of H2 with changes _ ?t _ _ => set (s2 := t) in * end.
  pose proof (changes_trans _ _ _ _ _ _ H1 H2) as H12.
  assert (Hv2 : valid s2 irq) by (by apply (rest_valid s _ irq (ch_rest _ _ _ _ H12))).
  pose proof (vanish_changes sup irq k s2 (ch_wf _ _ _ _ H12) Hv2) as H3.
  match type of H3 with changes _ ?t _ _ => set (s3 := t) in * end.
  pose proof (changes_trans _ _ _ _ _ _ H12 H3) as H123.
  assert (Hv3 : valid s3 irq) by (by apply (rest_valid s _ irq (ch_rest _ _ _ _ H123))).
  assert (Emode : Mode s1 sup irq = mode_view sup
    (on_cell sup (fun c => mkCell k (ctgt c) (cpend c) (cen c)) (view s irq))).
  { rewrite Mode_view by done. by rewrite (changes_at _ _ _ _ H1 Hv). }
  assert (Hd : direct_of s1 = direct_of s).
  { unfold direct_of. by rewrite (rest_mode _ _ (ch_rest _ _ _ _ H1)). }
  rewrite Rectified_view, (changes_at _ _ _ _ H123 Hv), Hd by done.
  destruct (mode_is_level (Mode s1 sup irq)) eqn:El; rewrite Emode in El.
  - eapply changes_ext; [eapply changes_trans; [apply H123|by apply put_pending_changes; [apply H123|]]|].
    intros _. simpl. rewrite Hd. unfold cfg_view. by rewrite El, Emode.
  - eapply changes_ext; [apply H123|].
    intros _. simpl. rewrite Hd. unfold cfg_view. by rewrite El, Emode.
Qed.

Lemma cfg_stored_mode sup val : Z.testbit val 10 = false ->
  cfg_stored sup val = cfg_of (mode_written val).
Proof.
  intros Hb. unfold cfg_stored, APLIC_SOURCECFG_D. rewrite nz_bit_at, Hb by lia.
  replace (Z.land val APLIC_SOURCECFG_SM) with (val mod 8)
    by (symmetry; exact (Z.land_ones val 3 ltac:(lia))).
  unfold mode_written. pose proof (Z.mod_pos_bound val 8 ltac:(lia)).
  assert (val mod 8 ∈ [0; 1; 2; 3; 4; 5; 6; 7]) as Hin by (rewrite !elem_of_cons; lia).
  repeat (apply elem_of_cons in Hin as [->|Hin]; [done|]). by apply elem_of_nil in Hin.
Qed.

(** The priority the code finds in a target register. *)
Lemma prio_of_target h n : 0 <= n < 2 ^ 8 -> get_bits 32 (h * 2 ^ 18 + n) 0 APLIC_TARGET_IPRIO_BITS = n.
Proof.
  intros Hn. unfold APLIC_TARGET_IPRIO_BITS. rewrite get_bits_0 by lia. unfold uw.
  replace (h * 2 ^ 18 + n) with (n + (h * 2 ^ 10) * 2 ^ 8) by lia.
  rewrite Z_mod_plus_full. apply Z.mod_small. lia.
Qed.

(** Making a source active gives it a target in direct delivery. *)
Lemma settle_target direct x : source_ok direct x ->
  (if direct && (get_bits 32 (to_hart x * 2 ^ 18 + ident x) 0 APLIC_TARGET_IPRIO_BITS =? 0)
   then 1 else to_hart x * 2 ^ 18 + ident x) =
  to_hart x * 2 ^ 18 + (if direct then Z.max 1 (ident x) else ident x).
Proof.
  intros Hok. destruct direct; [|done]. simpl. destruct (decide (how x = Inactive)) as [Hi|Hi].
  - by rewrite (ok_inactive _ _ Hok Hi).
  - pose proof (ok_prio _ _ Hok eq_refl Hi). rewrite prio_of_target by lia.
    destruct (Z.eqb_spec (ident x) 0); lia.
Qed.

(** A mode given to a source the domain has. *)
Lemma cfg_view_mode direct sup m x : source_ok direct x -> delegated x = sup ->
  cfg_view direct sup (cfg_of m) (conc x) = conc (set_mode direct m x).
Proof.
  intros Hok Hd. pose proof (settle_target direct x Hok) as Ht.
  destruct x as [w del h p e t i]. simpl in Hd, Ht. subst del.
  set (y := mkSource w sup m p e t i).
  assert (E1 : on_cell sup (fun c => mkCell (cfg_of m) (ctgt c) (cpend c) (cen c))
    (conc (mkSource w sup h p e t i)) = conc y) by (by destruct sup).
  unfold cfg_view. cbv zeta. rewrite E1, mode_conc, eqb_reflx, level_cfg_of. simpl how.
  set (z := if is_active m
    then y <| ident := if direct then Z.max 1 i else i |> else fresh w sup).
  assert (E2 : settle_view direct sup (cfg_of m) (conc y) = conc z).
  { unfold settle_view, z. rewrite inactive_cfg_of. destruct (is_active m) eqn:Ea; simpl negb; cbv iota.
    2:{ destruct m; [|done..]. unfold y. by destruct sup. }
    replace (ctgt (cell_at sup (conc y))) with (t * 2 ^ 18 + i) by (by destruct sup).
    destruct (direct && _); destruct sup; unfold conc, cell_of; simpl; by rewrite <- Ht. }
  assert (E3 : vanish_view sup (cfg_of m) (conc z) = conc z).
  { unfold vanish_view. rewrite cfg_of_D, andb_true_r. destruct sup; [done|]. unfold z. by destruct (is_active m). }
  rewrite E2, E3, rectified_conc.
  destruct m as [| |low|low], direct; try (by destruct sup);
    unfold z; simpl is_active; cbv iota; simpl delegated; rewrite eqb_reflx; by destruct sup.
Qed.

(** A source taken back from the child forgets what the child had. *)
Lemma cfg_view_forget direct m w c c' t p e k k' :
  cfg_view direct false (cfg_of m) (w, mkCell c t p e, k) =
  cfg_view direct false (cfg_of m) (w, mkCell c' t p e, k').
Proof.
  unfold cfg_view, vanish_view. cbv zeta. rewrite cfg_of_D. simpl on_cell.
  change (mode_view false (w, mkCell (cfg_of m) t p e, k))
    with (mode_view false (w, mkCell (cfg_of m) t p e, k')).
  set (mode := mode_view false _). unfold settle_view. cbn [negb andb cell_at fst snd ctgt].
  destruct (mode =? APLIC_SM_INACTIVE); [done|]. by destruct (direct && _).
Qed.

(** A write to a sourcecfg register. *)
Lemma cfg_view_conc direct sup val x : source_ok direct x -> sup = false \/ delegated x = true ->
  cfg_view direct sup (cfg_stored sup val) (conc x) = conc (write_cfg direct sup val x).
Proof.
  intros Hok Hvis. unfold write_cfg. destruct (Z.testbit val 10) eqn:Eb.
  - unfold cfg_stored, APLIC_SOURCECFG_D at 1. rewrite nz_bit_at, Eb by lia.
    destruct sup, (delegated x) eqn:Ed; try (destruct Hvis; done); simpl.
    + by apply (cfg_view_mode direct true Inactive).
    + unfold conc. by rewrite Ed.
    + unfold conc. by rewrite Ed.
  - rewrite cfg_stored_mode by done.
    destruct sup, (delegated x) eqn:Ed; try (destruct Hvis; done); simpl.
    + by apply cfg_view_mode.
    + rewrite <- (cfg_view_mode _ false) by (done || apply fresh_ok). unfold conc. rewrite Ed.
      apply cfg_view_forget.
    + by apply cfg_view_mode.
Qed.

Lemma WriteSourcecfg_moves sup irq v s src : Views s src -> 0 <= irq ->
  moves s (WriteSourcecfg sup irq v s) (at_irq irq (write_cfg (direct_of s) sup v) src).
Proof.
  intros HV H0. apply moves_at; [done..| | |by intros; apply write_cfg_ok].
  2:{ intros Hv. unfold WriteSourcecfg, Visible, valid in *.
      replace ((irq =? 0) || (Z.of_nat (fNumSources s) <? irq)) with true; [done|].
      symmetry. apply orb_true_iff. lia. }
  intros Hv. destruct HV as [Hw Hs]. destruct (Hs irq Hv) as [E Hok].
  assert (Hvis : Visible s sup irq = negb sup || delegated (src irq)).
  { rewrite Visible_view, E by done. unfold conc. destruct sup; [|done].
    destruct (delegated (src irq)); simpl; [done|]. by rewrite cfg_of_D. }
  destruct (negb sup || delegated (src irq)) eqn:Ev.
  - eapply changes_ext; [by apply WriteSourcecfg_changes|]. intros _. rewrite E.
    apply cfg_view_conc; [done|]. apply orb_true_iff in Ev as [?%negb_true_iff|?]; auto.
  - unfold WriteSourcecfg. rewrite Hvis. simpl. apply changes_refl; [done|]. intros _. rewrite E.
    unfold write_cfg. apply orb_false_iff in Ev as [->%negb_false_iff ->]. done.
Qed.

(** ** The wires *)

Definition wired (m : source_mode) : bool := match m with Edge _ | Lvl _ => true | _ => false end.

Lemma wired_conc s sup irq x : valid s irq -> view s irq = conc x ->
  (APLIC_SM_EDGE1 <=? Mode s sup irq) = eqb (delegated x) sup && wired (how x).
Proof.
  intros Hv Hx. rewrite Mode_view, Hx, mode_conc by done.
  destruct (eqb _ _); [by destruct (how x) as [| |[]|[]]|done].
Qed.

(** Only the wire changes. *)
Lemma put_level_conc s irq l x : wf s -> valid s irq -> view s irq = conc x ->
  changes s (put_level irq l s) irq (fun _ => conc (x <| wire := l |>)).
Proof.
  intros Hw Hv E. eapply changes_ext; [by apply put_level_changes|]. intros _. rewrite E.
  unfold conc. simpl delegated. by destruct (delegated x).
Qed.

Lemma put_level_moves irq l s src : Views s src -> valid s irq -> wired (how (src irq)) = false ->
  moves s (put_level irq l s) (at_irq irq (set_wire (direct_of s) l) src).
Proof.
  intros HV Hv Hn. apply moves_at; [done|unfold valid in Hv; lia| |done|apply set_wire_ok].
  intros _. destruct HV as [Hw Hs]. destruct (Hs irq Hv) as [E _].
  eapply changes_ext; [by apply put_level_conc|]. intros _. f_equal.
  unfold set_wire, asserted. simpl. by destruct (how (src irq)).
Qed.

Lemma wire_turn_moves sup irq l s src : Views s src -> valid s irq ->
  delegated (src irq) = sup -> wired (how (src irq)) = true ->
  moves s (wire_turn sup irq l s) (at_irq irq (set_wire (direct_of s) l) src).
Proof.
  intros HV Hv Hd Ha. apply moves_at; [done|unfold valid in Hv; lia| |done|apply set_wire_ok].
  intros _. destruct HV as [Hw Hs]. destruct (Hs irq Hv) as [E _].
  set (x := src irq) in *. pose proof (put_level_conc s irq l x Hw Hv E) as H1.
  unfold wire_turn. set (s1 := put_level irq l s) in *.
  assert (Hv1 : valid s1 irq) by (by apply (rest_valid s _ irq (ch_rest _ _ _ _ H1))).
  pose proof (changes_at _ _ _ _ H1 Hv) as E1.
  rewrite (level_conc s sup irq x Hv E), (asserted_conc s sup irq x Hv E),
    (asserted_conc s1 sup irq _ Hv1 E1), (rest_mode _ _ (ch_rest _ _ _ _ H1)).
  simpl delegated. rewrite Hd, eqb_reflx. fold (direct_of s). unfold set_wire. simpl andb.
  assert (Hput : forall v, changes s (put_pending sup irq v s1) irq
    (fun _ => conc (x <| wire := l |> <| pend := v |>))).
  { intros v. eapply changes_ext;
      [eapply changes_trans; [apply H1|by apply put_pending_changes; [apply H1|]]|].
    intros _. simpl. by apply on_cell_conc. }
  destruct (is_level (how x) && direct_of s); [apply Hput|].
  destruct (negb (asserted x) && asserted (x <| wire := l |>)); [apply Hput|].
  destruct (is_level (how x) && negb (asserted (x <| wire := l |>))); [apply Hput|apply H1].
Qed.

(** ** Loops over the sources *)

Lemma Views_ext s src src' : (forall irq, valid s irq -> src' irq = src irq) ->
  Views s src -> Views s src'.
Proof. intros E [Hw Hs]. split; [done|]. intros irq Hv. rewrite E by done. by apply Hs. Qed.

Lemma moves_ext s s' src src' : (forall irq, valid s irq -> src' irq = src irq) ->
  moves s s' src -> moves s s' src'.
Proof.
  intros E [Hr HV]. split; [done|]. eapply Views_ext; [|done].
  intros irq Hv. apply E. by apply (rest_valid s s').
Qed.

Lemma moves_refl s src : Views s src -> moves s s src.
Proof. done. Qed.

Lemma moves_direct s s' src : moves s s' src -> direct_of s' = direct_of s.
Proof. intros [Hr _]. unfold direct_of. by rewrite (rest_mode s s'). Qed.

Lemma moves_trans s1 s2 s3 src src' : moves s1 s2 src -> moves s2 s3 src' -> moves s1 s3 src'.
Proof. intros [R1 _] [R2 ?]. split; [congruence|done]. Qed.

(** [f irq] does [h] to the source [irq]. *)
Definition does (direct : bool) (f : Z -> APLIC -> APLIC) (h : Source -> Source) : Prop :=
  forall irq s src, direct_of s = direct -> Views s src -> 0 <= irq ->
  moves s (f irq s) (at_irq irq h src).

Lemma each_bit_moves k val f h s src : does (direct_of s) f h -> Views s src -> 0 <= k ->
  moves s (each_bit k val f s)
    (fun irq => if (k =? irq / 32) && Z.testbit val (irq mod 32) then h (src irq) else src irq).
Proof.
  intros Hf HV Hk. unfold each_bit.
  pose (now j irq := if (k =? irq / 32) && (irq mod 32 <? j) && Z.testbit val (irq mod 32)
                     then h (src irq) else src irq).
  assert (H : moves s (for_each 32 0 (fun bit s => if get_bit 32 val bit then f (k * 32 + bit) s else s) s)
                (now (0 + Z.of_nat 32))).
  { apply (for_each_ind (fun j t => moves s t (now j))).
    - intros j t Hj Ht. rewrite get_bit_testbit by lia.
      assert (Hnow : forall irq, valid t irq -> now (j + 1) irq =
        if (irq =? k * 32 + j) && Z.testbit val j then h (now j irq) else now j irq).
      { intros irq Hirq. unfold now, valid in *.
        pose proof (Z.div_mod irq 32 ltac:(lia)). pose proof (Z.mod_pos_bound irq 32 ltac:(lia)).
        destruct (Z.eqb_spec irq (k * 32 + j)) as [->|Hne].
        - replace ((k * 32 + j) / 32) with k in * by lia.
          replace ((k * 32 + j) mod 32) with j in * by lia.
          rewrite Z.eqb_refl, Z.ltb_irrefl. replace (j <? j + 1) with true by lia.
          by destruct (Z.testbit val j).
        - destruct (Z.eqb_spec k (irq / 32)) as [->|]; [|done].
          replace (irq mod 32 <? j + 1) with (irq mod 32 <? j) by lia. done. }
      destruct (Z.testbit val j) eqn:Eb.
      + eapply moves_trans; [done|]. eapply moves_ext; [|apply Hf; [by apply (moves_direct s t _ Ht)|apply Ht|lia]].
        intros irq Hirq. rewrite Hnow by done. unfold at_irq. by rewrite andb_true_r.
      + eapply moves_ext; [|apply Ht]. intros irq Hirq.
        rewrite Hnow, andb_false_r; [done|]. by apply (rest_valid s t _ (proj1 Ht)).
    - eapply moves_ext; [|by apply moves_refl]. intros irq Hirq. unfold now.
      pose proof (Z.mod_pos_bound irq 32 ltac:(lia)). replace (irq mod 32 <? 0) with false by lia.
      by rewrite andb_false_r. }
  eapply moves_ext; [|apply H]. intros irq Hirq. unfold now.
  pose proof (Z.mod_pos_bound irq 32 ltac:(lia)).
  change (0 + Z.of_nat 32) with 32. destruct (Z.ltb_spec (irq mod 32) 32); [|lia]. by rewrite andb_true_r.
Qed.
