(* ===== verification/AplicSim.v ===== *)
(** The interrupt controller of Aplic.v implements the reference of AplicOk.v:
    through any sequence of accesses and changes of its wires it has the
    reference's sources, signals the harts the reference signals and sends its
    messages. *)

From stdpp Require Import base numbers list.
From S2P Require Import Prelude Bits Aplic AplicOk.
Local Open Scope Z_scope.

(** * The most urgent source *)

(** [b] is the first of the sources [lo..hi] that [el] picks, by [key] and then
    by number; 0 if there is none. *)
Definition is_first (el : Z -> bool) (key : Z -> Z) (lo hi b : Z) : Prop :=
  (b = 0 /\ forall irq, lo <= irq <= hi -> el irq = false) \/
  (lo <= b <= hi /\ el b = true /\
   forall irq, lo <= irq <= hi -> el irq = true -> key b < key irq \/ (key b = key irq /\ b <= irq)).

Lemma is_first_unique el key lo hi b b' : 0 < lo ->
  is_first el key lo hi b -> is_first el key lo hi b' -> b = b'.
Proof.
  intros Hlo [[-> H]|(Hb & He & H)] [[-> H']|(Hb' & He' & H')]; [done|..].
  - by rewrite H in He'.
  - by rewrite H' in He.
  - destruct (H b' Hb' He') as [?|[? ?]], (H' b Hb He) as [?|[? ?]]; lia.
Qed.

(** One more source at the end, or in front. *)
Lemma is_first_snoc el key lo hi b : 0 < lo <= hi + 1 -> is_first el key lo hi b ->
  is_first el key lo (hi + 1)
    (if el (hi + 1) && ((b =? 0) || (key (hi + 1) <? key b)) then hi + 1 else b).
Proof.
  intros Hlo Hb. destruct (el (hi + 1)) eqn:E; simpl.
  - destruct Hb as [[-> H]|(Hb & He & H)]; simpl.
    + right. split; [lia|]. split; [done|]. intros irq Hi Hel.
      destruct (decide (irq = hi + 1)) as [->|]; [lia|]. by rewrite H in Hel by lia.
    + destruct (Z.eqb_spec b 0); [lia|]. simpl. right.
      destruct (Z.ltb_spec (key (hi + 1)) (key b)); (split; [lia|]; split; [done|]);
        intros irq Hi Hel; (destruct (decide (irq = hi + 1)) as [->|]; [lia|]);
        specialize (H irq ltac:(lia) Hel); lia.
  - destruct Hb as [[-> H]|(Hb & He & H)]; [left|right].
    + split; [done|]. intros irq Hi. destruct (decide (irq = hi + 1)) as [->|]; [done|]. apply H. lia.
    + split; [lia|]. split; [done|]. intros irq Hi Hel.
      destruct (decide (irq = hi + 1)) as [->|]; [congruence|]. apply H; [lia|done].
Qed.

Lemma is_first_cons el key lo hi b : 0 < lo <= hi -> is_first el key (lo + 1) hi b ->
  is_first el key lo hi
    (if el lo && ((b =? 0) || (key lo <=? key b)) then lo else b).
Proof.
  intros Hlo Hb. destruct (el lo) eqn:E; simpl.
  - destruct Hb as [[-> H]|(Hb & He & H)]; simpl.
    + right. split; [lia|]. split; [done|]. intros irq Hi Hel.
      destruct (decide (irq = lo)) as [->|]; [lia|]. by rewrite H in Hel by lia.
    + destruct (Z.eqb_spec b 0); [lia|]. simpl. right.
      destruct (Z.leb_spec (key lo) (key b)); (split; [lia|]; split; [done|]);
        intros irq Hi Hel; (destruct (decide (irq = lo)) as [->|]; [lia|]);
        specialize (H irq ltac:(lia) Hel); lia.
  - destruct Hb as [[-> H]|(Hb & He & H)]; [left|right].
    + split; [done|]. intros irq Hi. destruct (decide (irq = lo)) as [->|]; [done|]. apply H. lia.
    + split; [lia|]. split; [done|]. intros irq Hi Hel.
      destruct (decide (irq = lo)) as [->|]; [congruence|]. apply H; [lia|done].
Qed.

Lemma first_empty el key lo hi : hi < lo -> is_first el key lo hi 0.
Proof. left. split; [done|]. intros. lia. Qed.

(** [top] gives the first eligible source. *)
Lemma top_first n a sup hart :
  is_first (eligible a sup hart) (fun irq => ident (asrc a irq)) 1 (Z.of_nat n) (top n a sup hart).
Proof.
  unfold top, sources.
  enough (forall k i, 1 <= Z.of_nat i -> is_first (eligible a sup hart) (fun irq => ident (asrc a irq))
    (Z.of_nat i) (Z.of_nat (i + k) - 1)
    (foldr (fun irq best => if eligible a sup hart irq &&
       ((best =? 0) || (ident (asrc a irq) <=? ident (asrc a best))) then irq else best) 0
       (Z.of_nat <$> seq i k))) as H.
  { specialize (H n 1%nat ltac:(lia)). by replace (Z.of_nat n) with (Z.of_nat (1 + n) - 1) by lia. }
  induction k as [|k IH]; intros i Hi; simpl.
  - apply first_empty. lia.
  - replace (Z.of_nat (i + S k)) with (Z.of_nat (S i + k)) by lia.
    apply (is_first_cons _ (fun irq => ident (asrc a irq))); [lia|].
    replace (Z.of_nat i + 1) with (Z.of_nat (S i)) by lia. apply IH. lia.
Qed.

(** * The registers of the controller *)

Section Controller.
Context (hc n : nat) (msi : option AplicMsiLayout).
Notation direct := (bool_decide (msi = None)).

(** What the machine chooses for the interrupt files: pages at bases aligned to
    all of them. *)
Definition layout_ok (l : AplicMsiLayout) : Prop :=
  0 <= hart_index_bits l <= 14 /\
  forall base, base = m_base l \/ base = s_base l ->
    0 <= base /\ base mod 2 ^ (hart_index_bits l + 12) = 0.

Definition config_ok : Prop :=
  (n < 1024)%nat /\ (hc <= 512)%nat /\ forall l, msi = Some l -> layout_ok l.

Record regs_are (s : APLIC) (a : Spec) : Prop := {
  re_views : Views s (asrc a);
  re_hc : fHartCount s = hc;
  re_n : fNumSources s = n;
  re_mode : fMsiMode s = negb direct;
  re_msi : fMsi s = default (mkLayout 0 0 0) msi;
  re_ie : forall sup, ie (dom s sup) = aie a sup;
  re_idc : forall sup hart, 0 <= hart < Z.of_nat hc ->
    arr_get idc0 (idc (dom s sup)) hart = aidc a sup hart;
  re_msgs : fMsgs s = amsgs a;
}.

(** The lines into the harts in direct delivery. *)
Definition lines_are (s : APLIC) (a : Spec) : Prop :=
  msi = None -> forall sup hart, 0 <= hart < Z.of_nat hc ->
  arr_get false (fHarts s) (2 * hart + Z_of_bool sup) = aline n a sup hart.

Lemma re_direct s a : regs_are s a -> direct_of s = direct.
Proof. intros H. unfold direct_of. by rewrite (re_mode s a H), negb_involutive. Qed.

Lemma re_valid s a irq : regs_are s a -> valid s irq <-> 1 <= irq <= Z.of_nat n.
Proof. intros H. unfold valid. by rewrite (re_n s a H). Qed.

Lemma regs_moves s s' a src' : regs_are s a -> moves s s' src' ->
  regs_are s' (mkSpec (aie a) (aidc a) src' (amsgs a)).
Proof.
  intros [? ? ? ? ? Hie Hidc ?] [Hr HV]. unfold rest in Hr.
  injection Hr as ? ? ? ? ? ? ? ? ? ? ?.
  split; simpl; try congruence.
  - intros sup. rewrite <- Hie. destruct sup; simpl; congruence.
  - intros sup hart Hh. rewrite <- Hidc by done. destruct sup; simpl; congruence.
Qed.

(** Only the sources and harts there are matter. *)
Definition spec_eq (a b : Spec) : Prop :=
  (forall sup, aie a sup = aie b sup) /\
  (forall sup hart, 0 <= hart < Z.of_nat hc -> aidc a sup hart = aidc b sup hart) /\
  (forall irq, 1 <= irq <= Z.of_nat n -> asrc a irq = asrc b irq) /\
  amsgs a = amsgs b.

#[local] Instance spec_eq_equiv : Equivalence spec_eq.
Proof.
  split.
  - by repeat split.
  - intros a b (H1 & H2 & H3 & H4). repeat split; intros; symmetry; auto.
  - intros a b c (H1 & H2 & H3 & H4) (K1 & K2 & K3 & K4).
    split_and!; intros; [by rewrite H1|by rewrite H2, K2|by rewrite H3, K3|congruence].
Qed.

#[local] Instance regs_are_proper s : Proper (spec_eq ==> iff) (regs_are s).
Proof.
  enough (forall a b, spec_eq a b -> regs_are s a -> regs_are s b) as H.
  { intros a b E. split; [by apply H|]. by apply H. }
  intros a b (H1 & H2 & H3 & H4) R. pose proof R as [? ? ? ? ? Hie Hidc ?].
  split; [|done..|intros; rewrite <- H1; apply Hie|intros; rewrite <- H2 by done; by apply Hidc|congruence].
  eapply Views_ext; [|done]. intros irq Hv%(re_valid s a irq R). by rewrite H3.
Qed.

Lemma eligible_ext a b sup hart irq : spec_eq a b -> 0 <= hart < Z.of_nat hc ->
  1 <= irq <= Z.of_nat n -> eligible a sup hart irq = eligible b sup hart irq.
Proof. intros (_ & H2 & H3 & _) Hh Hi. unfold eligible. by rewrite H2, H3. Qed.

(** The most urgent source depends on which are eligible and how urgent. *)
Lemma top_ext a b sup hart :
  (forall irq, 1 <= irq <= Z.of_nat n -> eligible a sup hart irq = eligible b sup hart irq /\
    ident (asrc a irq) = ident (asrc b irq)) ->
  top n a sup hart = top n b sup hart.
Proof.
  intros E. apply (is_first_unique (eligible b sup hart) (fun irq => ident (asrc b irq)) 1 (Z.of_nat n));
    [lia| |apply top_first].
  destruct (top_first n a sup hart) as [[-> H]|(Hb & He & H)]; [left|right].
  - split; [done|]. intros irq Hi. destruct (E irq Hi) as [<- _]. by apply H.
  - split; [done|]. destruct (E _ Hb) as [<- <-]. split; [done|]. intros irq Hi.
    destruct (E irq Hi) as [<- <-]. by apply H.
Qed.

Lemma lines_ext s s' a b : fHarts s' = fHarts s ->
  (forall sup, aie a sup = aie b sup) ->
  (forall sup hart, 0 <= hart < Z.of_nat hc -> aidc a sup hart = aidc b sup hart) ->
  (forall sup hart irq, 0 <= hart < Z.of_nat hc -> 1 <= irq <= Z.of_nat n ->
    eligible a sup hart irq = eligible b sup hart irq /\ ident (asrc a irq) = ident (asrc b irq)) ->
  lines_are s a -> lines_are s' b.
Proof.
  intros Hl H1 H2 H3 L Hm sup hart Hh. rewrite Hl, L by done. unfold aline.
  rewrite (top_ext a b sup hart) by auto. by rewrite H1, H2.
Qed.

#[local] Instance lines_are_proper s : Proper (spec_eq ==> iff) (lines_are s).
Proof.
  enough (forall a b, spec_eq a b -> lines_are s a -> lines_are s b) as H.
  { intros a b E. split; [by apply H|]. by apply H. }
  intros a b E. pose proof E as (H1 & H2 & H3 & _). apply lines_ext; [done..|].
  intros sup hart irq Hh Hi. split; [by apply eligible_ext|]. by rewrite H3.
Qed.

(** ** What the code reads of a source in a domain *)

Lemma re_cell s a irq : regs_are s a -> 1 <= irq <= Z.of_nat n ->
  view s irq = conc (asrc a irq) /\ source_ok direct (asrc a irq).
Proof.
  intros R Hi. rewrite <- (re_direct s a R). apply (re_views s a R). by apply (re_valid s a).
Qed.

Lemma pending_conc s a irq sup : regs_are s a -> 1 <= irq <= Z.of_nat n ->
  bitmap_get (pending (dom s sup)) irq = eqb (delegated (asrc a irq)) sup && pend (asrc a irq).
Proof.
  intros R Hi. destruct (re_cell s a irq R Hi) as [E _].
  replace (bitmap_get _ _) with (cpend (cell_at sup (view s irq))) by (by destruct sup).
  rewrite E. unfold conc. by destruct sup, (delegated _).
Qed.

Lemma enable_conc s a irq sup : regs_are s a -> 1 <= irq <= Z.of_nat n ->
  bitmap_get (enable (dom s sup)) irq = eqb (delegated (asrc a irq)) sup && en (asrc a irq).
Proof.
  intros R Hi. destruct (re_cell s a irq R Hi) as [E _].
  replace (bitmap_get _ _) with (cen (cell_at sup (view s irq))) by (by destruct sup).
  rewrite E. unfold conc. by destruct sup, (delegated _).
Qed.

Lemma target_conc s a irq sup : regs_are s a -> 1 <= irq <= Z.of_nat n ->
  delegated (asrc a irq) = sup ->
  arr_get 0 (target (dom s sup)) irq = to_hart (asrc a irq) * 2 ^ 18 + ident (asrc a irq).
Proof.
  intros R Hi Hd. destruct (re_cell s a irq R Hi) as [E _].
  rewrite target_view, E. unfold conc. rewrite Hd. by destruct sup.
Qed.

(** The fields of a target register. *)
Lemma target_fields h k : 0 <= h < 2 ^ 14 -> 0 <= k < 2 ^ 11 ->
  Z.shiftr (h * 2 ^ 18 + k) 18 = h /\ get_bits 32 (h * 2 ^ 18 + k) 18 14 = h /\
  get_bits 32 (h * 2 ^ 18 + k) 0 11 = k.
Proof.
  intros Hh Hk. assert (Ed : (h * 2 ^ 18 + k) / 2 ^ 18 = h).
  { rewrite Z.add_comm, Z.div_add, Z.div_small by lia. lia. }
  rewrite Z.shiftr_div_pow2, !get_bits_mod, Ed by lia. split; [done|].
  split; [by apply Z.mod_small|]. rewrite Z.div_1_r.
  replace (h * 2 ^ 18 + k) with (k + (h * 2 ^ 7) * 2 ^ 11) by lia.
  rewrite Z_mod_plus_full. by apply Z.mod_small.
Qed.

Lemma topi_turn_eligible s a sup hart irq b : regs_are s a -> msi = None ->
  0 <= hart < Z.of_nat hc -> (hc <= 512)%nat -> 1 <= irq <= Z.of_nat n ->
  topi_turn (dom s sup) hart irq b =
  if eligible a sup hart irq && ((b.1 =? 0) || (ident (asrc a irq) <? b.2))
  then (irq, ident (asrc a irq)) else b.
Proof.
  intros R Hm Hh Hhc Hi. unfold topi_turn, eligible.
  rewrite (pending_conc s a), (enable_conc s a), (re_idc s a R) by done.
  destruct (eqb (delegated (asrc a irq)) sup) eqn:Ed; cbn [andb orb negb]; [|reflexivity].
  destruct (pend (asrc a irq)) eqn:Ep; cbn [andb orb negb]; [|reflexivity].
  destruct (en (asrc a irq)); cbn [andb orb negb]; [|reflexivity].
  apply eqb_prop in Ed. rewrite (target_conc s a irq sup R Hi Ed).
  destruct (re_cell s a irq R Hi) as [_ Hok].
  destruct (target_fields (to_hart (asrc a irq)) (ident (asrc a irq)) (ok_hart _ _ Hok) (ok_ident _ _ Hok))
    as (_ & Eh & _).
  assert (1 <= ident (asrc a irq) < 2 ^ 8).
  { apply (ok_prio _ _ Hok); [by rewrite bool_decide_true|].
    intros Hf%(ok_inactive _ _ Hok). by rewrite Hf in Ep. }
  unfold APLIC_TARGET_HART_SHIFT, APLIC_TARGET_HART_BITS. rewrite Eh, prio_of_target by lia.
  unfold u32. rewrite uw_small by (unfold inw; lia).
  destruct (to_hart (asrc a irq) =? hart); cbn [andb orb negb]; [|reflexivity].
  unfold nz. destruct (ithreshold _ =? 0); cbn [andb orb negb]; [reflexivity|].
  rewrite Z.leb_antisym. by destruct (ident (asrc a irq) <? _).
Qed.

(** [Topi] finds the most urgent source. *)
Lemma Topi_top s a sup hart : config_ok -> regs_are s a -> msi = None -> 0 <= hart < Z.of_nat hc ->
  Topi s sup hart =
  let irq := top n a sup hart in if irq =? 0 then 0 else irq * 2 ^ 16 + ident (asrc a irq).
Proof.
  intros (Hn & Hhc & _) R Hm Hh. unfold Topi. rewrite (re_n s a R).
  pose (P j (b : Z * Z) := is_first (eligible a sup hart) (fun irq => ident (asrc a irq)) 1 (j - 1) b.1 /\
    (b.1 <> 0 -> b.2 = ident (asrc a b.1))).
  assert (HP : P (1 + Z.of_nat n) (for_each n 1 (topi_turn (dom s sup) hart) (0, 0))).
  { apply for_each_ind.
    - intros j [b p] Hj [Hb Hp]. rewrite (topi_turn_eligible s a) by (done || lia). simpl in *.
      pose proof (is_first_snoc _ _ 1 (j - 1) b ltac:(lia) Hb) as H'. replace (j - 1 + 1) with j in H' by lia.
      unfold P. replace (j + 1 - 1) with j by lia. simpl in H'.
      destruct (Z.eqb_spec b 0) as [->|Hne]; simpl in *.
      + destruct (eligible a sup hart j); done.
      + rewrite <- Hp in H' by done.
        destruct (eligible a sup hart j && (ident (asrc a j) <? p)); done.
    - split; [|done]. apply first_empty. lia. }
  destruct (for_each _ _ _ _) as [b p]. destruct HP as [Hb Hp]. simpl in *.
  replace (1 + Z.of_nat n - 1) with (Z.of_nat n) in Hb by lia.
  rewrite (is_first_unique _ _ 1 (Z.of_nat n) _ b ltac:(lia) (top_first n a sup hart) Hb).
  unfold nz. destruct (Z.eqb_spec b 0) as [|Hne]; [done|]. simpl. rewrite Hp by done.
  destruct Hb as [[]|(Hr & _)]; [done|].
  destruct (re_cell s a b R Hr) as [_ Hok]. pose proof (ok_ident _ _ Hok).
  unfold u32. rewrite Z.shiftl_mul_pow2, uw_small by (unfold inw; lia).
  apply lor_mul_pow2; [lia|]. unfold inw. lia.
Qed.

(** ** Signalling: messages *)

(** A domain's due messages go out. *)
Definition sent1 (sup : bool) (a : Spec) : Spec :=
  mkSpec (aie a) (aidc a)
    (fun irq => if due msi (aie a) sup (asrc a irq) then (asrc a irq) <| pend := false |> else asrc a irq)
    (amsgs a ++ due_messages n msi (aie a) (asrc a) sup).

Lemma due_direct ies sup x : msi = None -> due msi ies sup x = false.
Proof. intros ->. done. Qed.

Lemma not_due_messages ies src sup :
  (forall irq, 1 <= irq <= Z.of_nat n -> due msi ies sup (src irq) = false) ->
  due_messages n msi ies src sup = [].
Proof.
  intros H. unfold due_messages, sources.
  assert (Forall (fun irq => 1 <= irq <= Z.of_nat n) (Z.of_nat <$> seq 1 n)) as HF.
  { apply Forall_forall. intros irq (k & -> & Hk%elem_of_seq)%list_elem_of_fmap. lia. }
  induction HF as [|irq l Hi _ IH]; [done|]. simpl. by rewrite H, IH.
Qed.

Lemma sent1_idle sup a :
  (forall irq, 1 <= irq <= Z.of_nat n -> due msi (aie a) sup (asrc a irq) = false) ->
  spec_eq (sent1 sup a) a.
Proof.
  intros H. split_and!; simpl; [done..| |by rewrite not_due_messages, app_nil_r].
  intros irq Hi. by rewrite H.
Qed.

(** The message the code sends is the one the layout gives. *)
Lemma msi_write_message s a sup h k : config_ok -> regs_are s a -> msi <> None -> 0 <= h < 2 ^ 14 ->
  [msi_write s sup h k] = message msi sup h k.
Proof.
  intros (_ & _ & Hl) R Hm Hh. unfold msi_write, message. rewrite (re_msi s a R).
  destruct msi as [l|]; [|done]. destruct (Hl l eq_refl) as [Hb Hbase]. simpl default.
  set (base := if sup then s_base l else m_base l).
  destruct (Hbase base) as [H0 Hmod]; [destruct sup; auto|]. do 2 f_equal.
  rewrite get_bits_0 by lia. unfold uw. set (bits := hart_index_bits l) in *.
  pose proof (Z.mod_pos_bound h (2 ^ bits) ltac:(apply pow2_pos; lia)) as Hr.
  assert (2 ^ bits <= 2 ^ 14) by (apply Z.pow_le_mono_r; lia).
  rewrite Z.shiftl_mul_pow2 by lia. unfold u64. rewrite uw_small by (unfold inw; lia).
  pose proof (Z.div_mod base (2 ^ (bits + 12)) ltac:(pose proof (pow2_pos (bits + 12)); lia)) as Hd.
  rewrite Hmod in Hd. rewrite Z.add_0_r, Z.mul_comm in Hd. rewrite Hd.
  rewrite lor_mul_pow2 by (lia || (unfold inw; rewrite Z.pow_add_r by lia; lia)). lia.
Qed.

(** The sources below [j] of a domain have been gone through. *)
Definition sent_upto (sup : bool) (a : Spec) (j : Z) : Spec :=
  mkSpec (aie a) (aidc a)
    (fun irq => if (irq <? j) && due msi (aie a) sup (asrc a irq)
                then (asrc a irq) <| pend := false |> else asrc a irq)
    (amsgs a ++ flat_map (fun irq => if due msi (aie a) sup (asrc a irq)
       then message msi sup (to_hart (asrc a irq)) (ident (asrc a irq)) else [])
       (Z.of_nat <$> seq 1 (Z.to_nat (j - 1)))).

Lemma sent_upto_S sup a j : 1 <= j <= Z.of_nat n ->
  spec_eq (sent_upto sup a (j + 1))
    (let b := sent_upto sup a j in
     if due msi (aie a) sup (asrc b j)
     then mkSpec (aie b) (aidc b) (at_irq j (fun x => x <| pend := false |>) (asrc b))
            (amsgs b ++ message msi sup (to_hart (asrc b j)) (ident (asrc b j)))
     else b).
Proof.
  intros Hj. cbv zeta. simpl asrc. rewrite Z.ltb_irrefl. simpl andb. cbv iota.
  assert (E : seq 1 (Z.to_nat (j + 1 - 1)) = seq 1 (Z.to_nat (j - 1)) ++ [Z.to_nat j]).
  { replace (Z.to_nat (j + 1 - 1)) with (S (Z.to_nat (j - 1))) by lia. rewrite seq_S.
    do 2 f_equal. lia. }
  assert (F : forall irq, irq <> j -> (irq <? j + 1) = (irq <? j)) by lia.
  unfold sent_upto at 1. rewrite E, fmap_app, flat_map_app. simpl. rewrite Z2Nat.id, app_nil_r by lia.
  destruct (due msi (aie a) sup (asrc a j)) eqn:Ed;
    split_and!; simpl; try done; rewrite ?app_nil_r, ?(assoc_L (++)); try done;
    intros irq Hi; unfold at_irq; (destruct (Z.eqb_spec irq j) as [->|]; [|by rewrite F]).
  all: rewrite ?Z.ltb_irrefl, ?Ed; replace (j <? j + 1) with true by lia; done.
Qed.

Lemma drop_pend_ok x : msi <> None -> source_ok direct x -> source_ok direct (x <| pend := false |>).
Proof.
  intros Hm [? ? Hi ? ? ?]. rewrite bool_decide_false in * by done.
  split; simpl; try done. intros E. by rewrite (Hi E) at 1.
Qed.

Lemma SendMsi_regs sup h k s a : config_ok -> regs_are s a -> msi <> None -> 0 <= h < 2 ^ 14 ->
  regs_are (SendMsi sup h k s) (mkSpec (aie a) (aidc a) (asrc a) (amsgs a ++ message msi sup h k)).
Proof.
  intros Hc R Hm Hh. pose proof (msi_write_message s a sup h k Hc R Hm Hh) as E.
  destruct R as [HV ? ? ? ? Hie Hidc ?]. split; try done; [|simpl; congruence].
  destruct HV as [[] Hs]. by split.
Qed.

Lemma forward_turn_sent sup irq s a : config_ok -> regs_are s a -> msi <> None ->
  1 <= irq <= Z.of_nat n -> aie a sup = true ->
  regs_are (forward_turn sup irq s)
    (if due msi (aie a) sup (asrc a irq)
     then mkSpec (aie a) (aidc a) (at_irq irq (fun x => x <| pend := false |>) (asrc a))
            (amsgs a ++ message msi sup (to_hart (asrc a irq)) (ident (asrc a irq)))
     else a).
Proof.
  intros Hc R Hm Hi Hie. unfold forward_turn, due.
  rewrite (pending_conc s a), (enable_conc s a), Hie, (bool_decide_false (msi = None)) by done.
  destruct (eqb (delegated (asrc a irq)) sup) eqn:Ed; simpl; [|done].
  destruct (pend (asrc a irq)); simpl; [|done]. destruct (en (asrc a irq)); simpl; [|done].
  apply eqb_prop in Ed. rewrite (target_conc s a irq sup R Hi Ed).
  destruct (re_cell s a irq R Hi) as [E Hok].
  destruct (target_fields (to_hart (asrc a irq)) (ident (asrc a irq)) (ok_hart _ _ Hok) (ok_ident _ _ Hok))
    as (Eh & _ & Ek).
  unfold APLIC_TARGET_HART_SHIFT, APLIC_TARGET_EIID_BITS. rewrite Eh, Ek.
  assert (Hv : valid s irq) by (by apply (re_valid s a irq R)).
  assert (moves s (put_pending sup irq false s) (at_irq irq (fun x => x <| pend := false |>) (asrc a))) as M.
  { pose proof (re_views s a R) as HV. apply moves_at; [done|lia| |done|].
    - intros _. eapply changes_ext; [by apply put_pending_changes; [apply HV|]|].
      intros _. rewrite E. by apply on_cell_conc.
    - intros x. rewrite (re_direct s a R). by apply drop_pend_ok. }
  apply (SendMsi_regs sup _ _ _ _ Hc (regs_moves _ _ _ _ R M) Hm). apply (ok_hart _ _ Hok).
Qed.

Lemma update_messages sup s a : config_ok -> regs_are s a -> msi <> None ->
  regs_are (update_domain sup s) (sent1 sup a).
Proof.
  intros Hc R Hm. unfold update_domain. rewrite (re_mode s a R), (re_ie s a R), (re_n s a R).
  rewrite (bool_decide_false (msi = None)) by done. simpl.
  destruct (aie a sup) eqn:Eie; simpl.
  - assert (regs_are (for_each n 1 (forward_turn sup) s) (sent_upto sup a (1 + Z.of_nat n))) as H.
    { apply (for_each_ind (fun j t => regs_are t (sent_upto sup a j))).
      - intros j t Hj Ht. rewrite sent_upto_S by lia.
        by apply (forward_turn_sent sup j t (sent_upto sup a j)); [..|lia|].
      - eapply regs_are_proper; [|exact R]. split_and!; simpl; [done..| |by rewrite app_nil_r].
        intros irq Hi. by replace (irq <? 1) with false by lia. }
    eapply regs_are_proper; [|exact H]. split_and!; simpl; [done..| |].
    + intros irq Hi. by replace (irq <? 1 + Z.of_nat n) with true by lia.
    + unfold due_messages, sources. by replace (Z.to_nat (1 + Z.of_nat n - 1)) with n by lia.
  - rewrite sent1_idle; [done|]. intros irq _. unfold due. by rewrite Eie, andb_false_r.
Qed.

(** ** Signalling: lines *)

Lemma set_line_regs s a l : regs_are s a -> length l = (2 * hc)%nat ->
  regs_are (s <| fHarts := l |>) a.
Proof.
  intros [HV Hhc ? ? ? ? ? ?] Hl. split; try done.
  destruct HV as [[] Hs]. split; [|done]. split; try done. simpl. by rewrite Hhc.
Qed.

Lemma line_value s a sup hart : config_ok -> regs_are s a -> msi = None -> 0 <= hart < Z.of_nat hc ->
  ie (dom s sup) && idelivery (arr_get idc0 (idc (dom s sup)) hart) &&
  (iforce (arr_get idc0 (idc (dom s sup)) hart) || nz (Topi s sup hart)) = aline n a sup hart.
Proof.
  intros Hc R Hm Hh. rewrite (Topi_top s a), (re_ie s a R), (re_idc s a R) by done. unfold aline.
  cbv zeta. do 2 f_equal. unfold nz. destruct (Z.eqb_spec (top n a sup hart) 0) as [_|Hne]; [done|].
  destruct (top_first n a sup hart) as [[]|(Hr & _)]; [done|].
  destruct (re_cell s a _ R Hr) as [_ Hok]. pose proof (ok_ident _ _ Hok).
  destruct (Z.eqb_spec (top n a sup hart * 2 ^ 16 + ident (asrc a (top n a sup hart))) 0); [lia|done].
Qed.

Lemma update_lines sup s a : config_ok -> regs_are s a -> msi = None ->
  let s' := update_domain sup s in
  regs_are s' a /\ forall sup' hart, 0 <= hart < Z.of_nat hc ->
    arr_get false (fHarts s') (2 * hart + Z_of_bool sup') =
    if eqb sup' sup then aline n a sup hart else arr_get false (fHarts s) (2 * hart + Z_of_bool sup').
Proof.
  intros Hc R Hm. unfold update_domain. rewrite (re_mode s a R), (re_hc s a R).
  rewrite (bool_decide_true (msi = None)) by done. simpl.
  assert (Hlen : length (fHarts s) = (2 * hc)%nat).
  { rewrite <- (re_hc s a R). apply (wf_harts s), (re_views s a R). }
  pose (P j t := exists l, t = s <| fHarts := l |> /\ length l = (2 * hc)%nat /\
    forall sup' hart, 0 <= hart < Z.of_nat hc -> arr_get false l (2 * hart + Z_of_bool sup') =
      if eqb sup' sup && (hart <? j) then aline n a sup hart
      else arr_get false (fHarts s) (2 * hart + Z_of_bool sup')).
  assert (HP : P (0 + Z.of_nat hc) (for_each hc 0 (line_turn sup) s)).
  { apply for_each_ind.
    - intros j t Hj (l & -> & Hl & Hget).
      exists (arr_set l (2 * j + Z_of_bool sup) (aline n a sup j)).
      pose proof (set_line_regs s a l R Hl) as R'.
      split; [|split; [by rewrite length_arr_set|]].
      + unfold line_turn, SetExternalIrq. simpl fHarts. by rewrite (line_value _ a) by (done || lia).
      + intros sup' hart Hh. rewrite arr_get_set by (destruct sup, sup'; simpl; lia).
        rewrite Hget by done. destruct (Z.eqb_spec hart j) as [->|Hne].
        * replace (j <? j + 1) with true by lia. rewrite Z.ltb_irrefl.
          destruct sup, sup'; simpl; rewrite ?Z.eqb_refl; try done; case_cmp; done || lia.
        * replace (hart <? j + 1) with (hart <? j) by lia.
          destruct (Z.eqb_spec (2 * hart + Z_of_bool sup') (2 * j + Z_of_bool sup)) as [E|]; [|done].
          destruct sup, sup'; simpl in E; lia.
    - exists (fHarts s). split; [by destruct s|]. split; [done|]. intros sup' hart Hh.
      replace (hart <? 0) with false by lia. by rewrite andb_false_r. }
  destruct HP as (l & -> & Hl & Hget). split; [by apply set_line_regs|].
  intros sup' hart Hh. simpl. rewrite Hget by done.
  replace (hart <? 0 + Z.of_nat hc) with true by lia. by rewrite andb_true_r.
Qed.

(** ** [Update] *)

(** What a step of the reference leaves to be signalled. *)
Definition changed (a : Spec) (o : op) : Spec :=
  mkSpec (next_ie a o) (next_idc hc n msi a o) (fun irq => act hc n msi a o irq (asrc a irq))
    (amsgs a ++ generated msi o).

Definition sent (a : Spec) : Spec :=
  mkSpec (aie a) (aidc a) (fun irq => deliver msi (aie a) (asrc a irq))
    (amsgs a ++ due_messages n msi (aie a) (asrc a) false ++ due_messages n msi (aie a) (asrc a) true).

Lemma astep_sent a o : spec_eq (astep hc n msi a o) (sent (changed a o)).
Proof. split_and!; try done. simpl. by rewrite <- !(assoc_L (++)). Qed.

Definition idle (a : Spec) : Prop :=
  forall irq sup, 1 <= irq <= Z.of_nat n -> due msi (aie a) sup (asrc a irq) = false.

Lemma due_owner ies sup x : due msi ies sup x = true -> delegated x = sup.
Proof. unfold due. rewrite !andb_true_iff. intros ((((_ & _) & H) & _) & _). by apply eqb_prop. Qed.

(** The domains do not share a source. *)
Lemma sent_twice a : spec_eq (sent1 true (sent1 false a)) (sent a).
Proof.
  assert (H : forall x, due msi (aie a) true
    (if due msi (aie a) false x then x <| pend := false |> else x) = due msi (aie a) true x).
  { intros x. destruct (due msi (aie a) false x) eqn:E; [|done]. apply due_owner in E.
    unfold due. simpl. by rewrite E, !andb_false_r. }
  split_and!; simpl; [done..| |].
  - intros irq Hi. rewrite H. unfold deliver.
    destruct (due msi (aie a) true (asrc a irq)) eqn:E.
    + pose proof (due_owner _ _ _ E) as Hd. rewrite Hd, E.
      destruct (due msi (aie a) false (asrc a irq)) eqn:E'; [|done]. apply due_owner in E'. congruence.
    + destruct (delegated (asrc a irq)) eqn:Hd; [|done]. rewrite E.
      destruct (due msi (aie a) false (asrc a irq)) eqn:E'; [|done]. apply due_owner in E'. congruence.
  - rewrite <- (assoc_L (++)). f_equal. f_equal. unfold due_messages.
    apply flat_map_ext. intros irq. rewrite H.
    destruct (due msi (aie a) true (asrc a irq)) eqn:E; [|done]. apply due_owner in E.
    destruct (due msi (aie a) false (asrc a irq)) eqn:E'; [|done]. apply due_owner in E'. congruence.
Qed.

Lemma sent_idle a : idle (sent a).
Proof.
  intros irq sup Hi. simpl. unfold deliver.
  destruct (due msi (aie a) (delegated (asrc a irq)) (asrc a irq)) eqn:E.
  - unfold due. simpl. by rewrite andb_false_r.
  - destruct (due msi (aie a) sup (asrc a irq)) eqn:E'; [|done].
    pose proof (due_owner _ _ _ E'). congruence.
Qed.

Lemma idle_sent a : idle a -> spec_eq (sent a) a.
Proof.
  intros H. rewrite <- sent_twice.
  assert (E : spec_eq (sent1 false a) a) by (apply sent1_idle; intros; by apply H).
  rewrite <- E at 2. apply sent1_idle. intros irq Hi. destruct E as (H1 & _ & H3 & _).
  rewrite H3 by done. simpl aie. by apply H.
Qed.

(** The controller's registers and lines are the reference's, and nothing waits
    to be sent. *)
Record sim (s : APLIC) (a : Spec) : Prop := {
  sim_regs : regs_are s a;
  sim_lines : lines_are s a;
  sim_idle : idle a;
}.

#[local] Instance idle_proper : Proper (spec_eq ==> iff) idle.
Proof.
  enough (forall a b, spec_eq a b -> idle a -> idle b) as H.
  { intros a b E. split; [by apply H|]. by apply H. }
  intros a b (H1 & _ & H3 & _) I irq sup Hi. rewrite <- H3 by done.
  unfold due. rewrite <- H1. by apply I.
Qed.

#[local] Instance sim_proper s : Proper (spec_eq ==> iff) (sim s).
Proof.
  intros a b E. split; intros [R L I]; (split; [by rewrite E in *|by rewrite E in *|by rewrite E in *]).
Qed.

Lemma Update_sim s a : config_ok -> regs_are s a -> sim (Update s) (sent a).
Proof.
  intros Hc R. unfold Update. destruct (decide (msi = None)) as [Hm|Hm].
  - assert (I : idle a) by (intros irq sup _; by apply due_direct).
    rewrite (idle_sent a I). destruct (update_lines false s a Hc R Hm) as [R1 L1].
    destruct (update_lines true _ a Hc R1 Hm) as [R2 L2]. split; [done| |done].
    intros _ sup hart Hh. rewrite L2, L1 by done. by destruct sup.
  - split; [|by intros ?|apply sent_idle]. rewrite <- sent_twice.
    apply update_messages; [done| |done]. by apply update_messages.
Qed.

(** ** The sources change and are signalled *)

Lemma sim_update t a o : config_ok -> regs_are t (changed a o) -> sim (Update t) (astep hc n msi a o).
Proof. intros Hc R. rewrite astep_sent. by apply Update_sim. Qed.

Lemma sim_keep s a o : sim s a -> spec_eq (changed a o) a -> sim s (astep hc n msi a o).
Proof. intros S E. rewrite astep_sent, idle_sent; rewrite E; [done|]. apply S. Qed.

(** An operation that only moves sources. *)
Lemma changed_src a o src' : (forall sup, next_ie a o sup = aie a sup) ->
  (forall sup hart, next_idc hc n msi a o sup hart = aidc a sup hart) -> generated msi o = [] ->
  (forall irq, 1 <= irq <= Z.of_nat n -> act hc n msi a o irq (asrc a irq) = src' irq) ->
  spec_eq (changed a o) (mkSpec (aie a) (aidc a) src' (amsgs a)).
Proof. intros H1 H2 H3 H4. split_and!; simpl; try done. by rewrite H3, app_nil_r. Qed.

(** * The operations *)

Lemma in_bitmap_spec base offset : in_bitmap base offset = true <-> base <= offset < base + 128.
Proof. unfold in_bitmap, APLIC_BITMAP_WORDS. rewrite andb_true_iff, Z.leb_le, Z.ltb_lt. lia. Qed.

Lemma write_moves s t a sup offset val src' : config_ok -> regs_are s a ->
  0 < offset < APLIC_IDC_BASE -> offset <> APLIC_GENMSI -> moves s t src' ->
  (forall irq, 1 <= irq <= Z.of_nat n ->
    act hc n msi a (OWrite sup offset val) irq (asrc a irq) = src' irq) ->
  sim (Update t) (astep hc n msi a (OWrite sup offset val)).
Proof.
  intros Hc R Ho Hg M Ha. apply sim_update; [done|].
  rewrite (changed_src a _ src'); [by apply (regs_moves s t)|..|done].
  - intros sup'. simpl. unfold APLIC_DOMAINCFG. replace (offset =? 0) with false by lia.
    by rewrite andb_false_r.
  - intros sup' hart. unfold next_idc, claims, idc_reg.
    replace (APLIC_IDC_BASE <=? offset) with false by lia. by rewrite andb_false_r.
  - simpl. by replace (offset =? APLIC_GENMSI) with false by lia.
Qed.

(** The parts of [act] an offset decides. *)
Ltac at_offset offset :=
  unfold act, names, in_bitmap, APLIC_BITMAP_WORDS, APLIC_MMSIADDRCFG, APLIC_SETIP_BASE, APLIC_SETIPNUM,
    APLIC_SETIPNUM_LE, APLIC_IN_CLRIP_BASE, APLIC_CLRIPNUM, APLIC_SETIE_BASE, APLIC_SETIENUM,
    APLIC_CLRIE_BASE, APLIC_CLRIENUM, APLIC_TARGET_BASE, APLIC_IDC_BASE, APLIC_GENMSI,
    APLIC_SOURCECFG_BASE, APLIC_SMSIADDRCFGH in *;
  repeat match goal with
  | |- context [offset <? ?b] =>
    first [replace (offset <? b) with true by lia | replace (offset <? b) with false by lia]
  | |- context [?b <? offset] =>
    first [replace (b <? offset) with true by lia | replace (b <? offset) with false by lia]
  | |- context [?b <=? offset] =>
    first [replace (b <=? offset) with true by lia | replace (b <=? offset) with false by lia]
  | |- context [offset =? ?b] =>
    first [replace (offset =? b) with true by lia | replace (offset =? b) with false by lia]
  end; cbn [andb orb].

Section Write.
Context (s : APLIC) (a : Spec) (Hc : config_ok) (S : sim s a) (sup : bool) (offset val : Z).
Let R : regs_are s a := sim_regs s a S.

Lemma bitmap_moves f h k : does (direct_of s) f h -> 0 <= k ->
  moves s (each_bit k val f s)
    (fun irq => if (k =? irq / 32) && Z.testbit val (irq mod 32) then h (asrc a irq) else asrc a irq).
Proof. intros. apply each_bit_moves; [done|apply (re_views s a R)|done]. Qed.

Lemma write_sourcecfg_sim : 0 < offset < APLIC_MMSIADDRCFG ->
  sim (Update (WriteSourcecfg sup ((offset - APLIC_SOURCECFG_BASE) / 4) val s))
    (astep hc n msi a (OWrite sup offset val)).
Proof.
  intros Ho. apply (write_moves s _ a sup offset val
    (at_irq (offset / 4) (write_cfg direct sup val) (asrc a))); [done..| | | |].
  - unfold APLIC_MMSIADDRCFG, APLIC_IDC_BASE in *. lia.
  - unfold APLIC_MMSIADDRCFG, APLIC_GENMSI in *. lia.
  - rewrite <- (re_direct s a R). unfold APLIC_SOURCECFG_BASE. rewrite Z.sub_0_r.
    apply WriteSourcecfg_moves; [apply (re_views s a R)|]. apply Z.div_pos; lia.
  - intros irq Hi. at_offset offset. unfold at_irq. rewrite (Z.eqb_sym irq).
    by destruct (offset / 4 =? irq).
Qed.

Lemma write_bitmap_sim base f h : does (direct_of s) f h -> 0 < base -> base <= offset < base + 128 ->
  base + 128 <= APLIC_GENMSI ->
  (forall irq, 1 <= irq <= Z.of_nat n -> act hc n msi a (OWrite sup offset val) irq =
    if names base offset val irq then h else id) ->
  sim (Update (each_bit ((offset - base) / 4) val f s)) (astep hc n msi a (OWrite sup offset val)).
Proof.
  unfold APLIC_GENMSI. intros Hf Hb Ho Hg Ha. eapply (write_moves s _ a sup offset val);
    [done..| | |apply bitmap_moves; [done|apply Z.div_pos; lia]|].
  - unfold APLIC_IDC_BASE. lia.
  - unfold APLIC_GENMSI. lia.
  - intros irq Hi. rewrite Ha by done. unfold names.
    replace (in_bitmap base offset) with true by (symmetry; by apply in_bitmap_spec).
    simpl. by destruct ((offset - base) / 4 =? irq / 32), (Z.testbit val (irq mod 32)).
Qed.

Lemma write_number_sim f h : does (direct_of s) f h -> 0 <= val -> 0 < offset < APLIC_GENMSI ->
  (forall irq, 1 <= irq <= Z.of_nat n -> act hc n msi a (OWrite sup offset val) irq =
    if val =? irq then h else id) ->
  sim (Update (f val s)) (astep hc n msi a (OWrite sup offset val)).
Proof.
  unfold APLIC_GENMSI. intros Hf Hv Ho Ha. eapply (write_moves s _ a sup offset val);
    [done..| | |apply Hf; [done|apply (re_views s a R)|done]|].
  - unfold APLIC_IDC_BASE. lia.
  - unfold APLIC_GENMSI. lia.
  - intros irq Hi. rewrite Ha by done. unfold at_irq. rewrite (Z.eqb_sym irq). by destruct (val =? irq).
Qed.

Lemma write_target_sim : APLIC_TARGET_BASE < offset < APLIC_IDC_BASE -> inw 32 val ->
  sim (Update (WriteTarget sup ((offset - APLIC_TARGET_BASE) / 4) val s))
    (astep hc n msi a (OWrite sup offset val)).
Proof.
  unfold APLIC_TARGET_BASE, APLIC_IDC_BASE. intros Ho Hv. eapply (write_moves s _ a sup offset val);
    [done..| | |apply WriteTarget_moves; [apply (re_views s a R)| |done]|].
  - unfold APLIC_IDC_BASE. lia.
  - unfold APLIC_GENMSI. lia.
  - apply Z.div_pos; lia.
  - intros irq Hi. at_offset offset. unfold at_irq. rewrite (Z.eqb_sym irq), (re_direct s a R).
    by destruct ((offset - 12288) / 4 =? irq).
Qed.

Lemma does_set_ip : does (direct_of s) (SetPendingByWrite sup) (set_ip direct sup).
Proof.
  rewrite (re_direct s a R). intros irq t src <- HV Hi. by apply SetPendingByWrite_moves.
Qed.
Lemma does_clear_ip : does (direct_of s) (ClearPendingByWrite sup) (clear_ip direct sup).
Proof.
  rewrite (re_direct s a R). intros irq t src <- HV Hi. by apply ClearPendingByWrite_moves.
Qed.
Lemma does_set_en v : does (direct_of s) (fun irq => SetEnable sup irq v) (set_en sup v).
Proof. intros irq t src _ HV Hi. by apply SetEnable_moves. Qed.

(** ** The domain's own registers *)

Lemma set_dom_regs d ies idcs : dom_wf (fNumSources s) (fHartCount s) (fWords s) d ->
  (forall irq, cell d irq = cell (dom s sup) irq) ->
  (forall sup', ie (if eqb sup' sup then d else dom s sup') = ies sup') ->
  (forall sup' hart, 0 <= hart < Z.of_nat hc ->
    arr_get idc0 (idc (if eqb sup' sup then d else dom s sup')) hart = idcs sup' hart) ->
  regs_are (set_dom sup d s) (mkSpec ies idcs (asrc a) (amsgs a)).
Proof.
  intros Hd Hcell Hie Hidc. pose proof R as [[Hw Hs] ? ? ? ? _ _ ?].
  assert (Edom : forall sup', dom (set_dom sup d s) sup' = if eqb sup' sup then d else dom s sup')
    by (by intros []; destruct sup).
  assert (Eview : forall irq, view (set_dom sup d s) irq = view s irq).
  { intros irq. specialize (Hcell irq). unfold view. destruct sup; simpl in *; congruence. }
  split; simpl; try (by destruct sup).
  - split; [|intros irq Hv; rewrite Eview; unfold direct_of; destruct sup; by apply Hs].
    destruct Hw. destruct sup; by split.
  - intros sup'. by rewrite Edom.
  - intros sup' hart Hh. rewrite Edom. by apply Hidc.
Qed.

Lemma dom_wf_of : dom_wf (fNumSources s) (fHartCount s) (fWords s) (dom s sup).
Proof. destruct (re_views s a R) as [[] _]. by destruct sup. Qed.

Lemma changed_regs o : generated msi o = [] ->
  (forall irq, 1 <= irq <= Z.of_nat n -> act hc n msi a o irq (asrc a irq) = asrc a irq) ->
  spec_eq (changed a o) (mkSpec (next_ie a o) (next_idc hc n msi a o) (asrc a) (amsgs a)).
Proof. intros Hg Ha. split_and!; simpl; try done. by rewrite Hg, app_nil_r. Qed.

(** Elsewhere a write names no source. *)
Lemma act_none irq : 1 <= irq <= Z.of_nat n ->
  offset = APLIC_DOMAINCFG \/ offset = APLIC_GENMSI \/ APLIC_IDC_BASE <= offset ->
  act hc n msi a (OWrite sup offset val) irq = id.
Proof.
  unfold APLIC_DOMAINCFG, APLIC_GENMSI, APLIC_IDC_BASE. intros Hi [->|[->|Ho]].
  - unfold act. by replace (0 / 4 =? irq) with false by (change (0 / 4) with 0; lia).
  - done.
  - at_offset offset. done.
Qed.

Lemma write_domaincfg_sim : offset = APLIC_DOMAINCFG ->
  sim (Update (set_dom sup ((dom s sup) <| ie := nz (Z.land val APLIC_DOMAINCFG_IE) |>) s))
    (astep hc n msi a (OWrite sup offset val)).
Proof.
  intros Ho. apply sim_update; [done|].
  rewrite changed_regs; [|simpl; by rewrite Ho|by intros irq Hi; rewrite act_none by auto].
  apply set_dom_regs; [apply dom_wf_of|done|..].
  - intros sup'. unfold next_ie. rewrite Ho, Z.eqb_refl, andb_true_r.
    destruct (eqb sup' sup); [|apply (re_ie s a R)]. simpl. unfold APLIC_DOMAINCFG_IE.
    apply nz_bit_at. lia.
  - intros sup' hart Hh. unfold next_idc, claims, idc_reg. rewrite Ho, andb_false_r.
    simpl. destruct (eqb_spec sup' sup) as [->|]; apply (re_idc s a R); done.
Qed.

(** The IDC structures. *)
Lemma set_idc_regs hart i ies idcs : 0 <= hart < Z.of_nat hc ->
  (forall sup', aie a sup' = ies sup') ->
  (forall sup' hart', 0 <= hart' < Z.of_nat hc ->
    (if eqb sup' sup && (hart' =? hart) then i else aidc a sup' hart') = idcs sup' hart') ->
  regs_are (set_idc sup hart i s) (mkSpec ies idcs (asrc a) (amsgs a)).
Proof.
  intros Hh Hie Hidc. pose proof dom_wf_of as Hd.
  assert (Hlen : length (idc (dom s sup)) = hc) by (rewrite <- (re_hc s a R); apply Hd).
  apply set_dom_regs; [|done|..].
  - destruct Hd as (?&?&?&?&?). repeat split; try done. simpl. by rewrite length_arr_set.
  - intros sup'. rewrite <- Hie, <- (re_ie s a R). by destruct (eqb_spec sup' sup) as [->|].
  - intros sup' hart' Hh'. rewrite <- Hidc by done.
    destruct (eqb_spec sup' sup) as [->|]; simpl; [|by apply (re_idc s a R)].
    rewrite arr_get_set by lia. case_match; [done|]. by apply (re_idc s a R).
Qed.

Lemma write_idc_sim hart reg f : msi = None -> APLIC_IDC_BASE <= offset ->
  hart = (offset - APLIC_IDC_BASE) / APLIC_IDC_SIZE -> reg = (offset - APLIC_IDC_BASE) mod APLIC_IDC_SIZE ->
  0 <= hart < Z.of_nat hc ->
  (forall sup' hart', next_idc hc n msi a (OWrite sup offset val) sup' hart' =
    if eqb sup' sup && (hart' =? hart) then f (aidc a sup' hart') else aidc a sup' hart') ->
  sim (Update (set_idc sup hart (f (arr_get idc0 (idc (dom s sup)) hart)) s))
    (astep hc n msi a (OWrite sup offset val)).
Proof.
  intros Hm Ho Ehart Ereg Hh Hf. unfold APLIC_IDC_BASE in Ho. apply sim_update; [done|].
  rewrite changed_regs; [|simpl; by replace (offset =? APLIC_GENMSI) with false by (unfold APLIC_GENMSI; lia)
    |by intros irq Hi; rewrite act_none by auto].
  rewrite (re_idc s a R) by done. apply set_idc_regs; [done|..].
  - intros sup'. unfold next_ie, APLIC_DOMAINCFG. replace (offset =? 0) with false by lia.
    by rewrite andb_false_r.
  - intros sup' hart' Hh'. rewrite Hf. destruct (eqb_spec sup' sup) as [->|]; simpl; [|done].
    by destruct (Z.eqb_spec hart' hart) as [->|].
Qed.

Lemma write_keep_sim : offset <> APLIC_DOMAINCFG -> (offset = APLIC_GENMSI -> msi = None) ->
  (forall sup' hart, next_idc hc n msi a (OWrite sup offset val) sup' hart = aidc a sup' hart) ->
  (forall irq, 1 <= irq <= Z.of_nat n -> act hc n msi a (OWrite sup offset val) irq = id) ->
  sim s (astep hc n msi a (OWrite sup offset val)).
Proof.
  intros H0 Hg Hidc Ha. apply sim_keep; [done|]. apply changed_src.
  - intros sup'. simpl. replace (offset =? APLIC_DOMAINCFG) with false by lia. by rewrite andb_false_r.
  - done.
  - simpl. destruct (Z.eqb_spec offset APLIC_GENMSI) as [E|]; [|done]. unfold message. by rewrite Hg.
  - intros irq Hi. by rewrite Ha.
Qed.

Lemma low_next_idc sup' hart : offset < APLIC_IDC_BASE ->
  next_idc hc n msi a (OWrite sup offset val) sup' hart = aidc a sup' hart.
Proof.
  intros Ho. unfold next_idc, claims, idc_reg.
  replace (APLIC_IDC_BASE <=? offset) with false by lia. by rewrite andb_false_r.
Qed.

(** The fields of a value written to genmsi. *)
Lemma genmsi_fields : inw 32 val ->
  Z.shiftr (Z.land val APLIC_GENMSI_MASK) APLIC_TARGET_HART_SHIFT = val / 2 ^ 18 /\
  get_bits 32 (Z.land val APLIC_GENMSI_MASK) 0 APLIC_TARGET_EIID_BITS = val mod 2 ^ 11.
Proof.
  intros Hv. rewrite <- Z.shiftr_div_pow2, <- Z.land_ones by lia.
  unfold APLIC_GENMSI_MASK, APLIC_TARGET_HART_SHIFT, APLIC_TARGET_HART_BITS, APLIC_TARGET_EIID_BITS.
  split; bits_at i Hi.
  - rewrite !Z.shiftr_spec, Z.land_spec, Z.lor_spec, field_mask_testbit, bit_mask_testbit by lia.
    destruct (decide (i + 18 < 32)); [|by rewrite (inw_high 32 val) by (done || lia)].
    replace (i + 18 <? 32) with true by lia. replace (18 <=? i + 18) with true by lia.
    replace (i + 18 <? 18 + 14) with true by lia. apply andb_true_r.
  - rewrite get_bits_testbit, !Z.land_spec, Z.lor_spec, field_mask_testbit, bit_mask_testbit,
      Z.testbit_ones_nonneg by lia. rewrite Z.add_0_l.
    destruct (Z.ltb_spec i 11); [|simpl; by rewrite andb_false_r].
    replace (i <? 32) with true by lia. simpl. by rewrite orb_true_r.
Qed.

Lemma write_genmsi_sim : offset = APLIC_GENMSI -> msi <> None -> inw 32 val ->
  sim (SendMsi sup (Z.shiftr (Z.land val APLIC_GENMSI_MASK) APLIC_TARGET_HART_SHIFT)
        (get_bits 32 (Z.land val APLIC_GENMSI_MASK) 0 APLIC_TARGET_EIID_BITS)
        (set_dom sup ((dom s sup) <| genmsi := Z.land val APLIC_GENMSI_MASK |>) s))
    (astep hc n msi a (OWrite sup offset val)).
Proof.
  intros Ho Hm Hv. destruct (genmsi_fields Hv) as [-> ->].
  set (b := mkSpec (aie a) (aidc a) (asrc a) (amsgs a ++ message msi sup (val / 2 ^ 18) (val mod 2 ^ 11))).
  assert (E : spec_eq (changed a (OWrite sup offset val)) b).
  { unfold changed, b. split_and!; cbn [aie aidc asrc amsgs].
    - intros sup'. simpl. by rewrite Ho, andb_false_r.
    - intros sup' hart _. apply low_next_idc. by rewrite Ho.
    - intros irq Hi. by rewrite act_none by auto.
    - simpl. by rewrite Ho. }
  rewrite astep_sent, idle_sent; rewrite E; [|apply (sim_idle s a S)].
  split; [|by intros ?|apply (sim_idle s a S)].
  apply (SendMsi_regs sup _ _ _ a); [done| |done|].
  - apply (regs_are_proper _ a (mkSpec (aie a) (aidc a) (asrc a) (amsgs a)) ltac:(done)).
    apply set_dom_regs; [apply dom_wf_of|done|..].
    + intros sup'. destruct (eqb_spec sup' sup) as [->|]; apply (re_ie s _ R).
    + intros sup' hart Hh. destruct (eqb_spec sup' sup) as [->|]; apply (re_idc s _ R); done.
  - unfold inw in Hv. split; [apply Z.div_pos; lia|apply Z.div_lt_upper_bound; lia].
Qed.

Lemma idc_reg_write : msi = None -> APLIC_IDC_BASE <= offset ->
  idc_reg hc msi (OWrite sup offset val) =
  if (offset - APLIC_IDC_BASE) / APLIC_IDC_SIZE <? Z.of_nat hc
  then Some (sup, (offset - APLIC_IDC_BASE) / APLIC_IDC_SIZE, (offset - APLIC_IDC_BASE) mod APLIC_IDC_SIZE)
  else None.
Proof.
  intros Hm Ho. unfold idc_reg. rewrite (bool_decide_true (msi = None)) by done.
  by replace (APLIC_IDC_BASE <=? offset) with true by lia.
Qed.

(** The register a write to an IDC structure changes. *)
Lemma written_idc hart reg : idc_reg hc msi (OWrite sup offset val) = Some (sup, hart, reg) ->
  forall f, (forall i, f i =
      if reg =? APLIC_IDC_IDELIVERY then i <| idelivery := Z.testbit val 0 |>
      else if reg =? APLIC_IDC_IFORCE then i <| iforce := Z.testbit val 0 |>
      else if reg =? APLIC_IDC_ITHRESHOLD then i <| ithreshold := val mod 2 ^ 8 |> else i) ->
  forall sup' hart', next_idc hc n msi a (OWrite sup offset val) sup' hart' =
    if eqb sup' sup && (hart' =? hart) then f (aidc a sup' hart') else aidc a sup' hart'.
Proof.
  intros Er f Hf sup' hart'. unfold next_idc. rewrite Er, Hf. by destruct (eqb sup' sup && _).
Qed.

(** The writes to the IDC structures. *)
Lemma write_idcs_sim : 0 <= offset -> msi = None -> APLIC_IDC_BASE <= offset ->
  sim (Write sup offset val s) (astep hc n msi a (OWrite sup offset val)).
Proof.
  intros H0 Hm Ho. pose proof (idc_reg_write Hm Ho) as Er.
  assert (Hkeep : (forall sup' hart, next_idc hc n msi a (OWrite sup offset val) sup' hart = aidc a sup' hart) ->
    sim s (astep hc n msi a (OWrite sup offset val))).
  { intros Hn. apply write_keep_sim; [unfold APLIC_IDC_BASE, APLIC_DOMAINCFG in *; lia|done|done|].
    intros irq Hi. apply act_none; auto. }
  assert (0 <= (offset - APLIC_IDC_BASE) / APLIC_IDC_SIZE) by (apply Z.div_pos; unfold APLIC_IDC_SIZE; lia).
  unfold Write. cbv zeta.
  set (hart := (offset - APLIC_IDC_BASE) / APLIC_IDC_SIZE) in *.
  set (reg := (offset - APLIC_IDC_BASE) mod APLIC_IDC_SIZE) in *.
  rewrite (re_mode s a R), (bool_decide_true (msi = None)) by done. cbn [negb]. rewrite (re_hc s a R).
  replace (Z.of_nat hc <=? hart) with (negb (hart <? Z.of_nat hc)) by lia.
  unfold APLIC_IDC_BASE, APLIC_DOMAINCFG in *. at_offset offset. unfold APLIC_SMSIADDRCFGH.
  replace (offset <=? 7116) with false by lia. cbn [andb orb].
  destruct (Z.ltb_spec hart (Z.of_nat hc)) as [Hh|Hh]; cbn [negb].
  2:{ apply Hkeep. intros. unfold next_idc, claims. by rewrite Er. }
  pose proof (written_idc _ _ Er) as En.
  assert (Hw : forall f, _ -> sim (Update (set_idc sup hart (f (arr_get idc0 (idc (dom s sup)) hart)) s))
    (astep hc n msi a (OWrite sup offset val)))
    by (intros f Hf; apply (write_idc_sim hart reg f Hm Ho eq_refl eq_refl ltac:(lia) (En f Hf))).
  destruct (reg =? APLIC_IDC_IDELIVERY) eqn:E1.
  { apply (Hw (fun i => i <| idelivery := get_bit 32 val 0 |>)). intros i. by rewrite get_bit_testbit by lia. }
  destruct (reg =? APLIC_IDC_IFORCE) eqn:E2.
  { apply (Hw (fun i => i <| iforce := get_bit 32 val 0 |>)). intros i. by rewrite get_bit_testbit by lia. }
  destruct (reg =? APLIC_IDC_ITHRESHOLD) eqn:E3.
  { apply (Hw (fun i => i <| ithreshold := get_bits 32 val 0 APLIC_TARGET_IPRIO_BITS |>)).
    intros i. unfold APLIC_TARGET_IPRIO_BITS. by rewrite get_bits_0 by lia. }
  apply Hkeep. intros sup' hart'. rewrite (En (fun i => i)) by done. by destruct (eqb sup' sup && _).
Qed.

(** The writes to the bitmaps and number registers. *)
Lemma write_bits_sim : APLIC_SMSIADDRCFGH < offset < APLIC_GENMSI -> inw 32 val ->
  sim (Write sup offset val s) (astep hc n msi a (OWrite sup offset val)).
Proof.
  unfold APLIC_SMSIADDRCFGH, APLIC_GENMSI. intros Ho Hv. unfold Write.
  assert (H0 : 0 <= val) by (by eapply inw_nonneg).
  unfold APLIC_DOMAINCFG, APLIC_MMSIADDRCFG, APLIC_SMSIADDRCFGH.
  replace (offset =? 0) with false by lia. replace (offset <? 7104) with false by lia.
  replace (offset <=? 7116) with false by lia.
  destruct (in_bitmap APLIC_SETIP_BASE offset) eqn:E1.
  { apply in_bitmap_spec in E1.
    apply (write_bitmap_sim APLIC_SETIP_BASE _ (set_ip direct sup)); [apply does_set_ip|done|done|done|].
    intros irq Hi. unfold APLIC_SETIP_BASE in E1. at_offset offset. by rewrite orb_false_r. }
  destruct ((offset =? APLIC_SETIPNUM) || (offset =? APLIC_SETIPNUM_LE)) eqn:E2.
  { apply (write_number_sim _ (set_ip direct sup)); [apply does_set_ip|done|unfold APLIC_GENMSI; lia|].
    intros irq Hi. unfold act. rewrite E2.
    apply orb_true_iff in E2 as [->%Z.eqb_eq | ->%Z.eqb_eq]; by unfold names; destruct (val =? irq). }
  destruct (in_bitmap APLIC_IN_CLRIP_BASE offset) eqn:E3.
  { apply in_bitmap_spec in E3.
    apply (write_bitmap_sim APLIC_IN_CLRIP_BASE _ (clear_ip direct sup)); [apply does_clear_ip|done|done|done|].
    intros irq Hi. unfold APLIC_IN_CLRIP_BASE in E3. at_offset offset. by rewrite orb_false_r. }
  destruct (Z.eqb_spec offset APLIC_CLRIPNUM) as [E4|E4].
  { apply (write_number_sim _ (clear_ip direct sup)); [apply does_clear_ip|done|unfold APLIC_GENMSI; lia|].
    intros irq Hi. rewrite E4. unfold act, names. by destruct (val =? irq). }
  destruct (in_bitmap APLIC_SETIE_BASE offset) eqn:E5.
  { apply in_bitmap_spec in E5.
    apply (write_bitmap_sim APLIC_SETIE_BASE _ (set_en sup true)); [apply does_set_en|done|done|done|].
    intros irq Hi. unfold APLIC_SETIE_BASE in E5. at_offset offset. by rewrite orb_false_r. }
  destruct (Z.eqb_spec offset APLIC_SETIENUM) as [E6|E6].
  { apply (write_number_sim (fun irq => SetEnable sup irq true) (set_en sup true));
      [apply does_set_en|done|unfold APLIC_GENMSI; lia|].
    intros irq Hi. rewrite E6. unfold act, names. by destruct (val =? irq). }
  destruct (in_bitmap APLIC_CLRIE_BASE offset) eqn:E7.
  { apply in_bitmap_spec in E7.
    apply (write_bitmap_sim APLIC_CLRIE_BASE _ (set_en sup false)); [apply does_set_en|done|done|done|].
    intros irq Hi. unfold APLIC_CLRIE_BASE in E7. at_offset offset. by rewrite orb_false_r. }
  destruct (Z.eqb_spec offset APLIC_CLRIENUM) as [E8|E8].
  { apply (write_number_sim (fun irq => SetEnable sup irq false) (set_en sup false));
      [apply does_set_en|done|unfold APLIC_GENMSI; lia|].
    intros irq Hi. rewrite E8. unfold act, names. by destruct (val =? irq). }
  unfold APLIC_GENMSI, APLIC_TARGET_BASE, APLIC_IDC_BASE. replace (offset =? 12288) with false by lia.
  replace (12288 <? offset) with false by lia. replace (16384 <=? offset) with false by lia. cbn [andb].
  apply write_keep_sim; [unfold APLIC_DOMAINCFG; lia|unfold APLIC_GENMSI; lia| |].
  - intros sup' hart. apply low_next_idc. unfold APLIC_IDC_BASE. lia.
  - intros irq Hi. unfold act, names. rewrite E1, E2, E3, E5, E7. unfold APLIC_MMSIADDRCFG, APLIC_TARGET_BASE.
    replace (offset <? 7104) with false by lia. replace (12288 <? offset) with false by lia.
    apply Z.eqb_neq in E4, E6, E8. by rewrite E4, E6, E8.
Qed.

Lemma Write_sim : 0 <= offset < APLIC_SIZE -> inw 32 val ->
  sim (Write sup offset val s) (astep hc n msi a (OWrite sup offset val)).
Proof.
  intros Ho Hv. destruct (decide (APLIC_SMSIADDRCFGH < offset < APLIC_GENMSI)); [by apply write_bits_sim|].
  destruct (decide (APLIC_IDC_BASE <= offset /\ msi = None)) as [[]|]; [apply write_idcs_sim; lia || done|].
  unfold Write. rewrite (re_mode s a R).
  destruct (Z.eqb_spec offset APLIC_DOMAINCFG) as [E|E]; [by apply write_domaincfg_sim|].
  unfold APLIC_DOMAINCFG in E.
  destruct (Z.ltb_spec offset APLIC_MMSIADDRCFG); [apply write_sourcecfg_sim; lia|].
  destruct (Z.leb_spec offset APLIC_SMSIADDRCFGH).
  { unfold APLIC_MMSIADDRCFG, APLIC_SMSIADDRCFGH in *.
    apply write_keep_sim; [done|unfold APLIC_GENMSI; lia| |].
    - intros sup' hart. apply low_next_idc. unfold APLIC_IDC_BASE. lia.
    - intros irq Hi. at_offset offset. done. }
  assert (APLIC_GENMSI <= offset) as Hg by lia. unfold APLIC_GENMSI in Hg.
  at_offset offset. replace (offset =? 12288) with (offset =? APLIC_GENMSI) by done.
  destruct (Z.eqb_spec offset APLIC_GENMSI) as [Eg|Eg].
  { destruct (decide (msi = None)) as [Hm|Hm];
      [rewrite bool_decide_true by done|rewrite bool_decide_false by done; by apply write_genmsi_sim].
    apply write_keep_sim; [done|done| |intros irq Hi; apply act_none; auto].
    intros sup' hart. apply low_next_idc. by rewrite Eg. }
  unfold APLIC_GENMSI in Eg. replace (12288 <? offset) with true by lia. cbn [andb].
  destruct (Z.ltb_spec offset 16384); [apply write_target_sim; done || unfold APLIC_TARGET_BASE, APLIC_IDC_BASE; lia|].
  assert (msi <> None) as Hm by (intros ?; apply n1; split; done || lia).
  rewrite (bool_decide_false (msi = None)), andb_false_r by done.
  apply write_keep_sim; [done|unfold APLIC_GENMSI; lia| |intros irq Hi; apply act_none; auto].
  intros sup' hart. unfold next_idc, claims, idc_reg. by rewrite (bool_decide_false (msi = None)).
Qed.
End Write.

(** ** The other operations *)

Section Others.
Context (s : APLIC) (a : Spec) (Hc : config_ok) (S : sim s a).
Let R : regs_are s a := sim_regs s a S.

Lemma claims_none o : (forall sup offset, o = ORead sup offset -> claims hc msi o = None) ->
  (forall sup offset val, o <> OWrite sup offset val) ->
  forall sup hart, next_idc hc n msi a o sup hart = aidc a sup hart.
Proof.
  intros Hr Hw sup hart. unfold next_idc. destruct o as [sup' off|sup' off v| |];
    [by rewrite (Hr sup' off)|by destruct (Hw sup' off v)|done|done].
Qed.

Lemma Delegate_sim : sim (DelegateAll s) (astep hc n msi a ODelegate).
Proof.
  apply sim_update; [done|].
  assert (moves s (for_each (fNumSources s) 1 (fun irq => WriteSourcecfg false irq APLIC_SOURCECFG_D) s)
    (fun irq => if irq <? 1 + Z.of_nat (fNumSources s)
                then write_cfg direct false (2 ^ 10) (asrc a irq) else asrc a irq)) as M.
  { apply (for_each_ind (fun j t => moves s t (fun irq => if irq <? j
      then write_cfg direct false (2 ^ 10) (asrc a irq) else asrc a irq))).
    - intros j t Hj Ht. eapply moves_trans; [done|].
      eapply moves_ext; [|apply WriteSourcecfg_moves; [apply Ht|lia]].
      intros irq Hv. unfold at_irq. rewrite (moves_direct s t _ Ht), (re_direct s a R).
      destruct (Z.eqb_spec irq j) as [->|].
      + by replace (j <? j + 1) with true by lia; rewrite Z.ltb_irrefl.
      + by replace (irq <? j + 1) with (irq <? j) by lia.
    - eapply moves_ext; [|apply moves_refl, (re_views s a R)]. intros irq Hv. unfold valid in Hv.
      by replace (irq <? 1) with false by lia. }
  rewrite changed_src; [exact (regs_moves _ _ _ _ R M)|done|by apply claims_none|done|].
  intros irq Hi. rewrite (re_n s a R). by replace (irq <? 1 + Z.of_nat n) with true by lia.
Qed.

Lemma wire_changed irq_num level : spec_eq (changed a (OWire irq_num level))
  (mkSpec (aie a) (aidc a) (at_irq (u32 irq_num) (set_wire direct level) (asrc a)) (amsgs a)).
Proof.
  apply changed_src; [done|by apply claims_none|done|].
  intros irq Hi. simpl. unfold at_irq. rewrite (Z.eqb_sym irq). by destruct (u32 irq_num =? irq).
Qed.

(** A wire with no mode of its own is only recorded. *)
Lemma unwired_sim irq_num level : valid s (u32 irq_num) -> wired (how (asrc a (u32 irq_num))) = false ->
  sim (put_level (u32 irq_num) level s) (astep hc n msi a (OWire irq_num level)).
Proof.
  intros Hv Hn. pose proof (put_level_moves _ level s _ (re_views s a R) Hv Hn) as M.
  rewrite (re_direct s a R) in M. set (irq0 := u32 irq_num) in *.
  assert (E : forall irq, at_irq irq0 (set_wire direct level) (asrc a) irq =
    (asrc a irq) <| wire := if irq =? irq0 then level else wire (asrc a irq) |>).
  { intros irq. unfold at_irq. destruct (Z.eqb_spec irq irq0) as [->|]; [|by destruct (asrc a irq)].
    unfold set_wire, asserted. simpl. by destruct (how (asrc a irq0)). }
  assert (I : idle (changed a (OWire irq_num level))).
  { rewrite wire_changed. intros irq sup Hi. simpl. rewrite E. by apply (sim_idle s a S). }
  rewrite astep_sent, idle_sent by done. split; [|..|done]; rewrite wire_changed.
  - exact (regs_moves _ _ _ _ R M).
  - apply (lines_ext s _ a); [by destruct s|done|done| |apply (sim_lines s a S)].
    intros sup hart irq Hh Hi. unfold eligible. simpl. by rewrite E.
Qed.

Lemma Wire_sim irq_num level : sim (SetIRQ irq_num level s) (astep hc n msi a (OWire irq_num level)).
Proof.
  unfold SetIRQ. set (irq0 := u32 irq_num).
  destruct ((irq0 =? 0) || (Z.of_nat (fNumSources s) <? irq0)) eqn:Ev.
  { apply sim_keep; [done|]. rewrite wire_changed. fold irq0. split_and!; [done..| |done].
    intros irq Hi. simpl. unfold at_irq. rewrite (re_n s a R) in Ev. apply orb_true_iff in Ev.
    by replace (irq =? irq0) with false by lia. }
  assert (Hv : valid s irq0).
  { apply orb_false_iff in Ev. unfold valid. pose proof (inw_uw 32 irq_num ltac:(lia)) as Hr.
    unfold inw in Hr. fold (u32 irq_num) in Hr. fold irq0 in Hr. lia. }
  destruct (re_cell s a irq0 R (proj1 (re_valid s a irq0 R) Hv)) as [E _].
  rewrite !(wired_conc s _ irq0 _ Hv E).
  destruct (wired (how (asrc a irq0))) eqn:Ew; [|rewrite !andb_false_r; by apply unwired_sim].
  assert (Hw : forall sup, delegated (asrc a irq0) = sup ->
    sim (Update (wire_turn sup irq0 level s)) (astep hc n msi a (OWire irq_num level))).
  { intros sup Hd. apply sim_update; [done|]. rewrite wire_changed. apply (regs_moves s); [done|].
    rewrite <- (re_direct s a R). by apply wire_turn_moves; [apply (re_views s a R)|..]. }
  destruct (delegated (asrc a irq0)) eqn:Ed; simpl; by apply Hw.
Qed.

(** Only a claim changes anything. *)
Lemma Read_idle sup offset : 0 <= offset -> claims hc msi (ORead sup offset) = None ->
  (Read sup offset s).1 = s.
Proof.
  intros H0. unfold Read, claims, idc_reg, read_idc. rewrite (re_mode s a R), (re_hc s a R), negb_involutive.
  rewrite (Z.leb_antisym _ (Z.of_nat hc)).
  destruct (APLIC_IDC_BASE <=? offset), (bool_decide (msi = None)); cbn [andb];
    try (intros _; by repeat case_match).
  destruct (_ <? Z.of_nat hc); cbn [negb]; [|intros _; by repeat case_match].
  destruct (_ =? APLIC_IDC_CLAIMI); [done|]. intros _. by repeat case_match.
Qed.

Lemma Read_claims sup offset hart : 0 <= offset -> claims hc msi (ORead sup offset) = Some (sup, hart) ->
  Read sup offset s =
    (Update (if nz (Topi s sup hart) then ClearPendingByWrite sup (Z.shiftr (Topi s sup hart) 16) s
             else set_idc sup hart ((arr_get idc0 (idc (dom s sup)) hart) <| iforce := false |>) s),
     Topi s sup hart).
Proof.
  intros H0. unfold Read, claims, idc_reg, read_idc. rewrite (re_mode s a R), (re_hc s a R), negb_involutive.
  destruct (Z.leb_spec APLIC_IDC_BASE offset) as [Ho|Ho]; [|by rewrite andb_false_r].
  unfold APLIC_IDC_BASE in Ho. unfold APLIC_DOMAINCFG. at_offset offset.
  replace (offset =? 0) with false by lia. replace (offset <=? 7116) with false by lia.
  destruct (bool_decide (msi = None)); [|done]. cbn [andb]. rewrite Z.leb_antisym.
  destruct (_ <? Z.of_nat hc); [|done]. cbn [negb].
  destruct (Z.eqb_spec ((offset - 16384) mod APLIC_IDC_SIZE) APLIC_IDC_CLAIMI) as [->|]; [|done].
  by intros [= <-].
Qed.

Lemma claims_hart sup offset sup' hart : 0 <= offset ->
  claims hc msi (ORead sup offset) = Some (sup', hart) ->
  sup' = sup /\ msi = None /\ 0 <= hart < Z.of_nat hc.
Proof.
  intros H0. unfold claims, idc_reg.
  destruct (decide (msi = None)) as [Hm|]; [|by rewrite (bool_decide_false (msi = None))].
  rewrite (bool_decide_true (msi = None)) by done. cbn [andb].
  destruct (Z.leb_spec APLIC_IDC_BASE offset); [|done].
  destruct (Z.ltb_spec ((offset - APLIC_IDC_BASE) / APLIC_IDC_SIZE) (Z.of_nat hc)); [|done].
  cbn [andb]. case_match; [|done]. intros [= <- <-]. split; [done|]. split; [done|].
  split; [|done]. apply Z.div_pos; unfold APLIC_IDC_SIZE; lia.
Qed.

(** What a claim changes in the reference. *)
Lemma claim_changed sup offset hart : claims hc msi (ORead sup offset) = Some (sup, hart) ->
  spec_eq (changed a (ORead sup offset))
    (mkSpec (aie a)
       (fun sup' hart' => if eqb sup' sup && (hart' =? hart) && (top n a sup hart =? 0)
                          then (aidc a sup hart) <| iforce := false |> else aidc a sup' hart')
       (at_irq (top n a sup hart) (clear_ip direct sup) (asrc a)) (amsgs a)).
Proof.
  intros Hcl. unfold changed. split_and!; cbn [aie aidc asrc amsgs]; [done|..|by rewrite app_nil_r].
  - intros sup' hart' Hh'. unfold next_idc. rewrite Hcl.
    destruct (eqb_spec sup' sup) as [->|]; [|done].
    by destruct (Z.eqb_spec hart' hart) as [->|].
  - intros irq Hi. unfold act. rewrite Hcl. unfold at_irq. rewrite (Z.eqb_sym irq).
    by destruct (top n a sup hart =? irq).
Qed.

Lemma Read_sim sup offset : 0 <= offset < APLIC_SIZE ->
  sim (Read sup offset s).1 (astep hc n msi a (ORead sup offset)).
Proof.
  intros Ho. destruct (claims hc msi (ORead sup offset)) as [[sup' hart]|] eqn:Ecl.
  2:{ rewrite Read_idle by (done || lia). apply sim_keep; [done|]. rewrite (changed_src a _ (asrc a)); [done|done|by apply claims_none|done|].
      intros irq Hi. unfold act. by rewrite Ecl. }
  destruct (claims_hart _ _ _ _ (proj1 Ho) Ecl) as (-> & Hm & Hh).
  rewrite (Read_claims _ _ _ (proj1 Ho) Ecl). apply sim_update; [done|]. rewrite (claim_changed _ _ _ Ecl).
  rewrite (Topi_top s a) by done. cbv zeta.
  pose proof (top_first n a sup hart) as Hf. set (irq := top n a sup hart) in *.
  destruct (Z.eqb_spec irq 0) as [E0|Hne].
  - rewrite E0. simpl nz. cbv iota. rewrite (re_idc s a R) by done.
    eapply (regs_are_proper _ (mkSpec _ _ (asrc a) (amsgs a))).
    2:{ apply set_idc_regs; done. }
    split_and!; simpl; [done| | |done].
    + intros sup' hart' _. by rewrite andb_true_r.
    + intros k Hk. unfold at_irq. by replace (k =? 0) with false by lia.
  - destruct Hf as [[]|(Hr & _)]; [done|]. destruct (re_cell s a irq R Hr) as [_ Hok].
    pose proof (ok_ident _ _ Hok) as Hk.
    replace (nz (irq * 2 ^ 16 + ident (asrc a irq))) with true
      by (symmetry; apply negb_true_iff, Z.eqb_neq; lia).
    replace (Z.shiftr (irq * 2 ^ 16 + ident (asrc a irq)) 16) with irq
      by (rewrite Z.shiftr_div_pow2, Z.add_comm, Z.div_add, Z.div_small by lia; lia).
    rewrite <- (re_direct s a R).
    eapply (proj1 (regs_are_proper _ _ _ _)), (regs_moves _ _ _ _ R (ClearPendingByWrite_moves sup irq s _ (re_views s a R) _)).
    Unshelve. 2: lia. split_and!; [done| |done|done]. intros sup' hart' _. simpl. by rewrite andb_false_r.
Qed.
End Others.

Lemma init_sim : config_ok -> sim (init hc n msi) spec0.
Proof.
  intros (Hn & Hh & Hl).
  assert (Hw : Z.of_nat n < 32 * Z.of_nat ((n + 1 + 31) / 32)).
  { pose proof (Nat.div_mod (n + 1 + 31) 32 ltac:(lia)).
    pose proof (Nat.mod_upper_bound (n + 1 + 31) 32 ltac:(lia)). lia. }
  unfold init. set (w := ((n + 1 + 31) / 32)%nat) in *. clearbody w.
  assert (E0 : forall A (d : A) k i, arr_get d (replicate k d) i = d).
  { intros A d k i. apply (Forall_arr_get d (fun x => x = d)); [by apply Forall_replicate|done]. }
  split.
  - split; try done; [split|..].
    + split; simpl; unfold dom_wf; simpl; rewrite ?length_replicate; lia.
    + intros irq Hv. split; [|apply fresh_ok]. unfold view, cell, bitmap_get. simpl.
      by rewrite !E0, !get_bit_testbit, Z.bits_0 by (apply Z.mod_pos_bound; lia).
    + simpl. by destruct msi.
    + intros []; done.
    + intros sup hart Hh'. destruct sup; apply E0.
  - intros Hm sup hart Hh'. apply E0.
  - intros irq sup Hi. unfold due. simpl. by rewrite !andb_false_r.
Qed.

Lemma step_sim s a o : config_ok -> op_ok o -> sim s a -> sim (step s o) (astep hc n msi a o).
Proof.
  intros Hc Ho S. destruct o as [sup off|sup off v| |irq l]; simpl in *.
  - by apply Read_sim.
  - destruct Ho. by apply Write_sim.
  - by apply Delegate_sim.
  - by apply Wire_sim.
Qed.

Lemma steps_sim ops : config_ok -> Forall op_ok ops ->
  sim (foldl step (init hc n msi) ops) (foldl (astep hc n msi) spec0 ops).
Proof.
  intros Hc Hops. pose proof (init_sim Hc) as S. revert S.
  generalize (init hc n msi) spec0. induction Hops as [|o ops Ho _ IH]; intros s a S; [done|].
  simpl. apply IH. by apply step_sim.
Qed.
End Controller.

(** The condition of a line, without the search. *)
Lemma aline_spec n a sup hart : aline n a sup hart = true <->
  aie a sup = true /\ idelivery (aidc a sup hart) = true /\
  (iforce (aidc a sup hart) = true \/
   exists irq, 1 <= irq <= Z.of_nat n /\ eligible a sup hart irq = true).
Proof.
  unfold aline. rewrite !andb_true_iff, orb_true_iff, (and_assoc (aie a sup = true)).
  enough (nz (top n a sup hart) = true <->
    exists irq, 1 <= irq <= Z.of_nat n /\ eligible a sup hart irq = true) as -> by done.
  unfold nz. rewrite negb_true_iff, Z.eqb_neq.
  destruct (top_first n a sup hart) as [[-> H]|(Hb & He & _)].
  - split; [done|]. intros (irq & Hi & E). by rewrite H in E.
  - split; [by eauto|lia].
Qed.

(** C26: after any sequence of accesses, wire changes and delegations, from reset,
    the controller has the sources of the reference and each is well formed (an
    inactive source is all zero, an active one in direct delivery has a
    priority, a level-sensitive one is pending in step with its wire); the
    messages written to the memory map are exactly those the reference sends, in
    its order; and in direct delivery every hart's line and topi register are
    the reference's. *)
Theorem aplic_refines hc n msi ops : config_ok hc n msi -> Forall op_ok ops ->
  let s := foldl step (init hc n msi) ops in
  let a := foldl (astep hc n msi) spec0 ops in
  (forall irq, 1 <= irq <= Z.of_nat n ->
     view s irq = conc (asrc a irq) /\ source_ok (bool_decide (msi = None)) (asrc a irq)) /\
  fMsgs s = amsgs a /\
  (msi = None -> forall sup hart, 0 <= hart < Z.of_nat hc ->
     arr_get false (fHarts s) (2 * hart + Z_of_bool sup) = aline n a sup hart /\
     Topi s sup hart =
       let irq := top n a sup hart in if irq =? 0 then 0 else irq * 2 ^ 16 + ident (asrc a irq)).
Proof.
  intros Hc Hops s a. destruct (steps_sim hc n msi ops Hc Hops) as [R L _]. split_and!.
  - intros irq Hi. by apply (re_cell hc n msi).
  - apply (re_msgs _ _ _ _ _ R).
  - intros Hm sup hart Hh. split; [by apply L|]. by apply (Topi_top hc n msi).
Qed.

(** Where claimi is. *)
Lemma claimi_claims hc sup hart : 0 <= hart < Z.of_nat hc ->
  claims hc None (ORead sup (APLIC_IDC_BASE + APLIC_IDC_SIZE * hart + APLIC_IDC_CLAIMI)) = Some (sup, hart).
Proof.
  intros Hh. unfold claims, idc_reg, APLIC_IDC_BASE, APLIC_IDC_SIZE, APLIC_IDC_CLAIMI.
  replace (16384 + 32 * hart + 28 - 16384) with (28 + hart * 32) by lia.
  rewrite Z.div_add, Z_mod_plus_full by lia. change (28 / 32) with 0. change (28 mod 32) with 28.
  replace (16384 <=? 16384 + 32 * hart + 28) with true by lia.
  by replace (0 + hart <? Z.of_nat hc) with true by lia.
Qed.

(** A claim of an eligible source. *)
Lemma clear_eligible a sup hart irq : source_ok true (asrc a irq) -> eligible a sup hart irq = true ->
  clear_ip true sup (asrc a irq) =
  if is_level (how (asrc a irq)) then asrc a irq else (asrc a irq) <| pend := false |>.
Proof.
  unfold eligible. rewrite !andb_true_iff. intros Hok ((((Hd & Hp) & _) & _) & _).
  unfold clear_ip, mine. rewrite Hd, andb_true_r.
  destruct (how (asrc a irq)) eqn:E; simpl; try done.
  by rewrite (ok_inactive _ _ Hok E) in Hp.
Qed.

(** C29: in direct delivery a hart's external interrupt line is high exactly while
    its domain and delivery are enabled and an interrupt is forced or some source
    is pending, enabled, directed at it and under its threshold.  Reading claimi
    gives the one of these of the lowest priority number, the lowest source of
    equals, and clears its pending bit unless it is level sensitive, and no other
    source's; with none it gives 0, clears the force and changes no source. *)
Theorem aplic_claim_exact hc n ops sup hart : config_ok hc n None -> Forall op_ok ops ->
  0 <= hart < Z.of_nat hc ->
  let s := foldl step (init hc n None) ops in
  let a := foldl (astep hc n None) spec0 ops in
  let '(s', topi) := Read sup (APLIC_IDC_BASE + APLIC_IDC_SIZE * hart + APLIC_IDC_CLAIMI) s in
  (arr_get false (fHarts s) (2 * hart + Z_of_bool sup) = true <->
     aie a sup = true /\ idelivery (aidc a sup hart) = true /\
     (iforce (aidc a sup hart) = true \/
      exists irq, 1 <= irq <= Z.of_nat n /\ eligible a sup hart irq = true)) /\
  ((topi = 0 /\ (forall irq, 1 <= irq <= Z.of_nat n -> eligible a sup hart irq = false) /\
    iforce (arr_get idc0 (idc (dom s' sup)) hart) = false /\
    (forall irq, 1 <= irq <= Z.of_nat n -> view s' irq = view s irq)) \/
   (exists irq, 1 <= irq <= Z.of_nat n /\ eligible a sup hart irq = true /\
    topi = irq * 2 ^ 16 + ident (asrc a irq) /\
    (forall k, 1 <= k <= Z.of_nat n -> eligible a sup hart k = true ->
       ident (asrc a irq) < ident (asrc a k) \/ (ident (asrc a irq) = ident (asrc a k) /\ irq <= k)) /\
    (forall k, 1 <= k <= Z.of_nat n ->
       view s' k = if k =? irq then conc (if is_level (how (asrc a irq)) then asrc a irq
                                          else (asrc a irq) <| pend := false |>) else view s k))).
Proof.
  intros Hc Hops Hh s a. pose proof (steps_sim hc n None ops Hc Hops) as S. fold s a in S.
  set (offset := APLIC_IDC_BASE + APLIC_IDC_SIZE * hart + APLIC_IDC_CLAIMI).
  assert (Ho : 0 <= offset < APLIC_SIZE).
  { destruct Hc as (_ & ? & _). unfold offset, APLIC_SIZE, APLIC_IDC_BASE, APLIC_IDC_SIZE, APLIC_IDC_CLAIMI. lia. }
  pose proof (claimi_claims hc sup hart Hh) as Ecl. fold offset in Ecl.
  pose proof (step_sim hc n None s a (ORead sup offset) Hc Ho S) as S'. simpl step in S'.
  pose proof (Read_claims hc n None s a S sup offset hart (proj1 Ho) Ecl) as Er.
  rewrite (Topi_top hc n None s a) in Er by (done || apply S).
  destruct (Read sup offset s) as [s' topi] eqn:Erd. simpl in S'.
  injection Er as _ Et. split; [rewrite (sim_lines _ _ _ _ _ S) by done; apply aline_spec|].
  assert (Hv : forall k, 1 <= k <= Z.of_nat n -> view s' k =
    if k =? top n a sup hart then conc (clear_ip true sup (asrc a k)) else view s k).
  { intros k Hk. destruct (re_cell _ _ _ _ _ k (sim_regs _ _ _ _ _ S') Hk) as [-> _].
    destruct (re_cell _ _ _ _ _ k (sim_regs _ _ _ _ _ S) Hk) as [-> _].
    cbn [astep asrc]. unfold deliver. rewrite due_direct by done. unfold act. rewrite Ecl, (Z.eqb_sym k).
    by destruct (top n a sup hart =? k). }
  destruct (top_first n a sup hart) as [[E0 Hno]|(Hr & He & Hmin)]; [left|right].
  - rewrite E0 in *. split_and!; [done..| |].
    + rewrite (re_idc _ _ _ _ _ (sim_regs _ _ _ _ _ S')) by done. cbn [astep aidc]. unfold next_idc.
      by rewrite Ecl, eqb_reflx, Z.eqb_refl, E0.
    + intros k Hk. rewrite Hv by done. by replace (k =? 0) with false by lia.
  - destruct (re_cell _ _ _ _ _ _ (sim_regs _ _ _ _ _ S) Hr) as [_ Hok].
    replace (top n a sup hart =? 0) with false in Et by lia.
    exists (top n a sup hart). split_and!; [lia|lia|done|done|done|]. intros k Hk. rewrite Hv by done.
    destruct (Z.eqb_spec k (top n a sup hart)) as [->|]; [|done].
    by rewrite (clear_eligible _ _ _ _ Hok He).
Qed.

(** A source delegated to supervisors, sent to the interrupt file of hart 1. *)
Definition demo_msi : option AplicMsiLayout := Some (mkLayout 0x08000000 0x09000000 1).
Definition demo_msi_ops : list op :=
  [ODelegate; OWrite true 12 4; OWrite true 0x300c (Z.lor (Z.shiftl 1 18) 7); OWrite true 0x1edc 3;
   OWrite true 0 0x100; OWire 3 true].

Lemma aplic_refines_witness :
  let s := foldl step (init 2 5 demo_msi) demo_msi_ops in
  fMsgs s = [(0x09001000, 7)] /\
  forall irq, 1 <= irq <= 5 ->
    view s irq = conc (asrc (foldl (astep 2 5 demo_msi) spec0 demo_msi_ops) irq).
Proof.
  intros s. destruct (aplic_refines 2 5 demo_msi demo_msi_ops) as (Hs & _ & _).
  - split; [lia|]. split; [lia|]. intros l [= <-]. split; [simpl; lia|].
    intros base [-> | ->]; (split; [vm_compute; congruence|done]).
  - repeat constructor; vm_compute; congruence.
  - split; [by vm_compute|]. intros irq Hi. apply Hs. lia.
Defined.

(** Two sources of the same priority, one on a wire and one set by software. *)
Definition demo_direct_ops : list op :=
  [OWrite false 8 6; OWrite false 0x3008 3; OWrite false 0x1edc 2;
   OWrite false 16 1; OWrite false 0x3010 3; OWrite false 0x1edc 4; OWrite false 0x1cdc 4;
   OWrite false 0 0x100; OWrite false 0x4000 1; OWire 2 true].

Lemma aplic_claim_exact_witness :
  let s := foldl step (init 2 5 None) demo_direct_ops in
  (Read false 0x401c s).2 = 2 * 2 ^ 16 + 3 /\
  (arr_get false (fHarts s) 0 = true <->
   aie (foldl (astep 2 5 None) spec0 demo_direct_ops) false = true /\
   idelivery (aidc (foldl (astep 2 5 None) spec0 demo_direct_ops) false 0) = true /\
   (iforce (aidc (foldl (astep 2 5 None) spec0 demo_direct_ops) false 0) = true \/
    exists irq, 1 <= irq <= 5 /\
      eligible (foldl (astep 2 5 None) spec0 demo_direct_ops) false 0 irq = true)).
Proof.
  intros s. split; [by vm_compute|].
  pose proof (aplic_claim_exact 2 5 demo_direct_ops false 0) as H.
  change (2 * 0 + Z_of_bool false) with 0 in H. change (Z.of_nat 5) with 5 in H.
  cbv zeta in H. fold s in H. destruct (Read false _ s) as [s' topi]. apply H.
  - split; [lia|]. split; [lia|]. done.
  - repeat constructor; vm_compute; congruence.
  - lia.
Defined.
