(* ===== verification/Lapic.v ===== *)
(** The local APICs of a PC's processors and the bus between them:
    [src/device/intc/lapic.h], [lapic.cpp].

    [fLine] is what [LocalApicHost::SetApicInterrupt] was last told; the other
    calls to the host are [host_event]s.  [host_monotonic_us()] is an argument. *)

From stdpp Require Import base numbers list.
From S2P Require Import Prelude Bits Cutils.
Local Open Scope Z_scope.

Definition LAPIC_BASE : Z := 0xfee00000.
Definition LAPIC_EXTINT : Z := -1.
Definition LAPIC_MSR_BASE : Z := 0x800.
Definition LAPIC_BROADCAST : Z := 0xffffffff.
Definition LAPIC_VERSION : Z := 0x00060014.
Definition TIMER_HZ : Z := 1000000000.
Definition SVR_ENABLE : Z := 8.
Definition X2APIC_ICR_RESERVED : Z := 0xfff32000.

(** Registers, by offset in the page. *)
Definition REG_ID : Z := 0x20.
Definition REG_VERSION : Z := 0x30.
Definition REG_TPR : Z := 0x80.
Definition REG_PPR : Z := 0xa0.
Definition REG_EOI : Z := 0xb0.
Definition REG_LDR : Z := 0xd0.
Definition REG_DFR : Z := 0xe0.
Definition REG_SVR : Z := 0xf0.
Definition REG_ISR : Z := 0x100.
Definition REG_TMR : Z := 0x180.
Definition REG_IRR : Z := 0x200.
Definition REG_ESR : Z := 0x280.
Definition REG_LVT_CMCI : Z := 0x2f0.
Definition REG_ICR_LOW : Z := 0x300.
Definition REG_ICR_HIGH : Z := 0x310.
Definition REG_LVT_TIMER : Z := 0x320.
Definition REG_LVT_ERROR : Z := 0x370.
Definition REG_INITIAL_COUNT : Z := 0x380.
Definition REG_CURRENT_COUNT : Z := 0x390.
Definition REG_DIVIDE : Z := 0x3e0.
Definition REG_SELF_IPI : Z := 0x3f0.

Definition LVT_CMCI : Z := 0.
Definition LVT_TIMER : Z := 1.
Definition LVT_LINT0 : Z := 4.
Definition LVT_ERROR : Z := 6.

Definition DELIVERY_MODE : Z := 8.
Definition DELIVERY_STATUS : Z := 12.
Definition LEVEL_ASSERT : Z := 14.
Definition TRIGGER_LEVEL : Z := 15.
Definition LVT_MASKED : Z := 16.
Definition TIMER_PERIODIC : Z := 17.
Definition ICR_SHORTHAND : Z := 18.
Definition ICR_LOGICAL : Z := 11.

Definition MODE_FIXED : Z := 0.
Definition MODE_LOWEST : Z := 1.
Definition MODE_INIT : Z := 5.
Definition MODE_STARTUP : Z := 6.
Definition MODE_EXTINT : Z := 7.

Definition SHORTHAND_NONE : Z := 0.
Definition SHORTHAND_SELF : Z := 1.
Definition SHORTHAND_ALL : Z := 2.
Definition SHORTHAND_OTHERS : Z := 3.

Definition BASE_BSP : Z := 8.
Definition BASE_X2APIC : Z := 10.
Definition BASE_ENABLE : Z := 11.

Definition ESR_SEND_ILLEGAL_VECTOR : Z := bit_at 32 5.
Definition ESR_RECV_ILLEGAL_VECTOR : Z := bit_at 32 6.
Definition ESR_ILLEGAL_REGISTER : Z := bit_at 32 7.

Definition kLvtWritable : list Z :=
  [0x000107ff; 0x000300ff; 0x000107ff; 0x000107ff; 0x0001a7ff; 0x0001a7ff; 0x000100ff].

Record LocalApic := mkApic {
  fId : Z; fBase : Z; fTpr : Z; fLdr : Z; fDfr : Z; fSvr : Z; fIcrHigh : Z; fIcrLow : Z;
  fLvt : list Z; fDivide : Z; fIrr : list Z; fIsr : list Z; fTmr : list Z; fLint0 : bool;
  fEsr : Z; fEsrPending : Z; fInitialCount : Z; fTimerArmed : bool; fTimerStart : Z; fTimerFired : Z;
  fLine : bool;
}.
#[export] Instance eta_LocalApic : Eta LocalApic := fun a =>
  mkApic (fId a) (fBase a) (fTpr a) (fLdr a) (fDfr a) (fSvr a) (fIcrHigh a) (fIcrLow a)
    (fLvt a) (fDivide a) (fIrr a) (fIsr a) (fTmr a) (fLint0 a)
    (fEsr a) (fEsrPending a) (fInitialCount a) (fTimerArmed a) (fTimerStart a) (fTimerFired a) (fLine a).

Inductive host_event :=
| ApicEoi (vector : Z)
| ApicInit (id : Z)
| ApicStartup (id vector : Z)
| ApicTimerChanged (due : Z).

(** * What the registers mean *)

Definition Enabled (a : LocalApic) : bool := get_bit 64 (fBase a) BASE_ENABLE && get_bit 32 (fSvr a) SVR_ENABLE.
Definition X2Apic (a : LocalApic) : bool := get_bit 64 (fBase a) BASE_ENABLE && get_bit 64 (fBase a) BASE_X2APIC.
Definition X2ApicLdr (a : LocalApic) : Z := set_bits 32 (bit_at 32 (Z.land (fId a) 0xf)) 16 16 (Z.shiftr (fId a) 4).
Definition AcceptsExtInt (a : LocalApic) : bool :=
  let lint0 := arr_get 0 (fLvt a) LVT_LINT0 in
  negb (get_bit 64 (fBase a) BASE_ENABLE) ||
  (negb (get_bit 32 lint0 LVT_MASKED) && (get_bits 32 lint0 DELIVERY_MODE 3 =? MODE_EXTINT)).

Definition reserved_register (offset : Z) : bool :=
  (offset <=? 0x010) || ((0x040 <=? offset) && (offset <=? 0x070)) ||
  (offset =? 0x0c0) || ((0x290 <=? offset) && (offset <=? 0x2e0)) ||
  ((0x3a0 <=? offset) && (offset <=? 0x3d0)) || (offset =? 0x3f0).

Definition xapic_destination (dest : Z) (logical : bool) : Z :=
  if negb logical && (dest =? 0xff) then LAPIC_BROADCAST else dest.

Definition X2APIC_READ : Z := 1.
Definition X2APIC_WRITE : Z := 2.
Definition x2apic_access (offset : Z) : Z :=
  if (offset =? REG_ID) || (offset =? REG_VERSION) || (offset =? REG_PPR) || (offset =? REG_LDR) ||
     (offset =? REG_CURRENT_COUNT) then X2APIC_READ
  else if (offset =? REG_EOI) || (offset =? REG_SELF_IPI) then X2APIC_WRITE
  else if (offset =? REG_TPR) || (offset =? REG_SVR) || (offset =? REG_ESR) || (offset =? REG_LVT_CMCI) ||
     (offset =? REG_ICR_LOW) || (offset =? REG_INITIAL_COUNT) || (offset =? REG_DIVIDE)
  then Z.lor X2APIC_READ X2APIC_WRITE
  else if (REG_ISR <=? offset) && (offset <? REG_IRR + 0x80) then X2APIC_READ
  else if (REG_LVT_TIMER <=? offset) && (offset <=? REG_LVT_ERROR) then Z.lor X2APIC_READ X2APIC_WRITE
  else 0.

(** The loop of [highest_vector], from word [i - 1] down. *)
Fixpoint highest_loop (i : nat) (reg : list Z) : Z :=
  match i with
  | O => -1
  | S i =>
    let w := arr_get 0 reg (Z.of_nat i) in
    if negb (w =? 0) then Z.of_nat i * 32 + 31 - builtin_clz 32 w else highest_loop i reg
  end.
Definition highest_vector (reg : list Z) : Z := highest_loop 8 reg.

Definition Ppr (a : LocalApic) : Z :=
  let isr := highest_vector (fIsr a) in
  let isr_class := if isr <? 0 then 0 else Z.land isr 0xf0 in
  if isr_class <=? Z.land (fTpr a) 0xf0 then Z.land (fTpr a) 0xff else isr_class.
Definition Deliverable (a : LocalApic) : bool :=
  let irr := highest_vector (fIrr a) in
  (0 <=? irr) && Enabled a && (Z.land (Ppr a) 0xf0 <? Z.land irr 0xf0).

Definition Update (a : LocalApic) : LocalApic := a <| fLine := Deliverable a || (fLint0 a && AcceptsExtInt a) |>.

Definition set_vector (reg : list Z) (vector : Z) (on : bool) : list Z :=
  arr_set reg (vector / 32) (set_bit 32 (arr_get 0 reg (vector / 32)) (vector mod 32) on).

(** [Accept] and [Error] call each other; an error already recorded ends it. *)
Fixpoint accept_fuel (fuel : nat) (a : LocalApic) (vector : Z) (level : bool) : LocalApic :=
  if vector <? 16 then
    match fuel with O => a | S fuel => error_fuel fuel a ESR_RECV_ILLEGAL_VECTOR end
  else
    Update (a <| fIrr := set_vector (fIrr a) vector true |> <| fTmr := set_vector (fTmr a) vector level |>)
with error_fuel (fuel : nat) (a : LocalApic) (bit : Z) : LocalApic :=
  if nz (Z.land (fEsrPending a) bit) then a
  else
    let a := a <| fEsrPending := Z.lor (fEsrPending a) bit |> in
    if negb (get_bit 32 (arr_get 0 (fLvt a) LVT_ERROR) LVT_MASKED)
    then match fuel with O => a | S fuel => accept_fuel fuel a (get_bits 32 (arr_get 0 (fLvt a) LVT_ERROR) 0 8) false end
    else a.
Definition Accept : LocalApic -> Z -> bool -> LocalApic := accept_fuel 4.
Definition Error : LocalApic -> Z -> LocalApic := error_fuel 4.

Definition MatchesLogical (a : LocalApic) (dest : Z) : bool :=
  let ldr := get_bits 32 (fLdr a) 24 8 in
  if get_bits 32 (fDfr a) 28 4 =? 0xf then nz (Z.land ldr dest)
  else
    let cluster := get_bits 32 dest 4 4 in
    ((cluster =? 0xf) || (cluster =? get_bits 32 ldr 4 4)) &&
    nz (Z.land (get_bits 32 dest 0 4) (get_bits 32 ldr 0 4)).

Definition IsDestination (a : LocalApic) (dest : Z) (logical : bool) : bool :=
  if dest =? LAPIC_BROADCAST then true
  else if negb logical then dest =? fId a
  else if negb (X2Apic a) then MatchesLogical a (get_bits 32 dest 0 8)
  else
    let ldr := X2ApicLdr a in
    (get_bits 32 dest 16 16 =? get_bits 32 ldr 16 16) && nz (Z.land (get_bits 32 dest 0 16) ldr).

Definition Init (a : LocalApic) : LocalApic :=
  Update (mkApic (fId a) (fBase a) 0 0 0xffffffff 0xff 0 0
    (replicate 7 (bit_at 32 LVT_MASKED)) 0 (replicate 8 0) (replicate 8 0) (replicate 8 0) (fLint0 a)
    0 0 0 false (fTimerStart a) (fTimerFired a) (fLine a)).

Definition Reset (a : LocalApic) : LocalApic :=
  let a := Init (a <| fBase := Z.lor (Z.lor LAPIC_BASE (bit_at 32 BASE_ENABLE))
                                 (if fId a =? 0 then bit_at 32 BASE_BSP else 0) |>) in
  if fId a =? 0
  then Update (a <| fLvt := arr_set (fLvt a) LVT_LINT0 (set_bits 32 0 DELIVERY_MODE 3 MODE_EXTINT) |>)
  else a.

Definition apic_new (id : Z) : LocalApic :=
  Reset (mkApic id 0 0 0 0xffffffff 0xff 0 0 (replicate 7 0) 0 (replicate 8 0) (replicate 8 0) (replicate 8 0)
    false 0 0 0 false 0 0 false).

Definition Receive (a : LocalApic) (mode vector : Z) (level assert : bool) : LocalApic * list host_event :=
  if (mode =? MODE_FIXED) || (mode =? MODE_LOWEST) then (Accept a vector level, [])
  else if mode =? MODE_INIT then
    if level && negb assert then (a, []) else (Init a, [ApicInit (fId a)])
  else if mode =? MODE_STARTUP then (a, [ApicStartup (fId a) vector])
  else (a, []).

Definition SetLint0 (a : LocalApic) (level : bool) : LocalApic := Update (a <| fLint0 := level |>).

Definition Acknowledge (a : LocalApic) : LocalApic * Z :=
  if Deliverable a then
    let vector := highest_vector (fIrr a) in
    (Update (a <| fIrr := set_vector (fIrr a) vector false |> <| fIsr := set_vector (fIsr a) vector true |>), vector)
  else if fLint0 a && AcceptsExtInt a then (a, LAPIC_EXTINT)
  else (a, get_bits 32 (fSvr a) 0 8).

Definition SetBase (a : LocalApic) (val : Z) : LocalApic * bool :=
  let addr := Z.ldiff val 0xfff in
  let enable := get_bit 64 val BASE_ENABLE in
  let x2apic := get_bit 64 val BASE_X2APIC in
  if negb (addr =? LAPIC_BASE) ||
     nz (Z.ldiff (Z.land val 0xfff) (Z.lor (Z.lor (bit_at 32 BASE_BSP) (bit_at 32 BASE_ENABLE)) (bit_at 32 BASE_X2APIC)))
  then (a, false)
  else if (x2apic && negb enable) || (x2apic && negb (get_bit 64 (fBase a) BASE_ENABLE)) ||
          (X2Apic a && enable && negb x2apic)
  then (a, false)
  else
    let a := a <| fBase := set_bit 64 (fBase a) BASE_ENABLE enable |> in
    let a := a <| fBase := set_bit 64 (fBase a) BASE_X2APIC x2apic |> in
    (Update a, true).

Definition SetTaskPriority (a : LocalApic) (cr8 : Z) : LocalApic := Update (a <| fTpr := u32 (Z.shiftl cr8 4) |>).

(** * The timer *)

Definition TimerDivisor (a : LocalApic) : Z :=
  let n := Z.lor (get_bits 32 (fDivide a) 0 2) (Z.shiftl (Z_of_bool (get_bit 32 (fDivide a) 3)) 2) in
  if n =? 7 then 1 else Z.shiftl 2 n.
Definition TimerTicks (a : LocalApic) (now : Z) : Z :=
  u64 (u64 (now - fTimerStart a) * (TIMER_HZ / 1000000)) / TimerDivisor a.
Definition timer_periodic (a : LocalApic) : bool := get_bit 32 (arr_get 0 (fLvt a) LVT_TIMER) TIMER_PERIODIC.
Definition CurrentCount (a : LocalApic) (now : Z) : Z :=
  if fInitialCount a =? 0 then 0
  else
    let ticks := TimerTicks a now in
    if timer_periodic a then u32 (fInitialCount a - ticks mod fInitialCount a)
    else if fInitialCount a <=? ticks then 0 else u32 (fInitialCount a - ticks).
Definition TimerDue (a : LocalApic) : Z :=
  if negb (fTimerArmed a) then 2 ^ 64 - 1
  else
    let ticks := u64 (u64 (u64 (fTimerFired a + 1) * fInitialCount a) * TimerDivisor a) in
    u64 (fTimerStart a + u64 (ticks + TIMER_HZ / 1000000 - 1) / (TIMER_HZ / 1000000)).

Definition RunTimer (a : LocalApic) (now : Z) : LocalApic * Z :=
  if negb (fTimerArmed a) then (a, -1)
  else
    let periods := TimerTicks a now / fInitialCount a in
    let periodic := timer_periodic a in
    let wait a := let due := TimerDue a in (a, if now <? due then sw 64 (due - now) else 0) in
    if fTimerFired a <? periods then
      let a := a <| fTimerFired := periods |> in
      let a := if negb (get_bit 32 (arr_get 0 (fLvt a) LVT_TIMER) LVT_MASKED)
               then Accept a (get_bits 32 (arr_get 0 (fLvt a) LVT_TIMER) 0 8) false else a in
      if negb periodic then (a <| fTimerArmed := false |>, -1) else wait a
    else wait a.

(** * The bus *)

Record LocalApicBus := mkBus { fApics : list LocalApic; events : list host_event }.
#[export] Instance eta_LocalApicBus : Eta LocalApicBus := fun b => mkBus (fApics b) (events b).
Definition bus_new (count : nat) : LocalApicBus := mkBus ((fun i => apic_new (Z.of_nat i)) <$> seq 0 count) [].

(** [Apic(id)], with the default no caller reaches *)
Definition apic (b : LocalApicBus) (i : nat) : LocalApic := nth i (fApics b) (apic_new 0).
Definition set_apic (b : LocalApicBus) (i : nat) (a : LocalApic) : LocalApicBus := b <| fApics := <[i := a]> (fApics b) |>.
Definition emit (b : LocalApicBus) (e : list host_event) : LocalApicBus := b <| events := events b ++ e |>.

Definition send_target (a : LocalApic) (source shorthand dest : Z) (logical : bool) : bool :=
  if shorthand =? SHORTHAND_SELF then fId a =? source
  else if shorthand =? SHORTHAND_ALL then true
  else if shorthand =? SHORTHAND_OTHERS then negb (fId a =? source)
  else IsDestination a dest logical.

Definition receive_at (b : LocalApicBus) (i : nat) (mode vector : Z) (level assert : bool) : LocalApicBus :=
  let '(a, e) := Receive (apic b i) mode vector level assert in emit (set_apic b i a) e.

(** The loop of [Send] over the APICs from the [i]-th, with the lowest so far. *)
Fixpoint send_loop (n i : nat) (b : LocalApicBus) (lowest : option nat) (source shorthand dest : Z) (logical : bool)
    (mode vector : Z) (level assert : bool) : LocalApicBus * option nat :=
  match n with
  | O => (b, lowest)
  | S n =>
    if negb (send_target (apic b i) source shorthand dest logical)
    then send_loop n (S i) b lowest source shorthand dest logical mode vector level assert
    else if negb (mode =? MODE_LOWEST)
    then send_loop n (S i) (receive_at b i mode vector level assert) lowest source shorthand dest logical mode vector level assert
    else
      let lowest := match lowest with
                    | None => Some i
                    | Some l => if Ppr (apic b i) <? Ppr (apic b l) then Some i else Some l
                    end in
      send_loop n (S i) b lowest source shorthand dest logical mode vector level assert
  end.
Definition Send (b : LocalApicBus) (source shorthand dest : Z) (logical : bool) (mode vector : Z) (level assert : bool)
    : LocalApicBus :=
  match send_loop (length (fApics b)) 0 b None source shorthand dest logical mode vector level assert with
  | (b, Some l) => receive_at b l mode vector level assert
  | (b, None) => b
  end.

Definition Deliver (b : LocalApicBus) (addr data : Z) : LocalApicBus :=
  let logical := get_bit 64 addr 2 in
  Send b 0 SHORTHAND_NONE (xapic_destination (u32 (get_bits 64 addr 12 8)) logical) logical
    (get_bits 32 data DELIVERY_MODE 3) (get_bits 32 data 0 8)
    (get_bit 32 data TRIGGER_LEVEL) (get_bit 32 data LEVEL_ASSERT).

Definition SendIpi (b : LocalApicBus) (i : nat) : LocalApicBus :=
  let a := apic b i in
  let mode := get_bits 32 (fIcrLow a) DELIVERY_MODE 3 in
  if ((mode =? MODE_FIXED) || (mode =? MODE_LOWEST)) && (get_bits 32 (fIcrLow a) 0 8 <? 16)
  then set_apic b i (Error a ESR_SEND_ILLEGAL_VECTOR)
  else
    let logical := get_bit 32 (fIcrLow a) ICR_LOGICAL in
    let dest := if X2Apic a then fIcrHigh a else xapic_destination (get_bits 32 (fIcrHigh a) 24 8) logical in
    Send b (fId a) (get_bits 32 (fIcrLow a) ICR_SHORTHAND 2) dest logical
      (get_bits 32 (fIcrLow a) DELIVERY_MODE 3) (get_bits 32 (fIcrLow a) 0 8)
      (get_bit 32 (fIcrLow a) TRIGGER_LEVEL) (get_bit 32 (fIcrLow a) LEVEL_ASSERT).

(** * Registers *)

Definition ReadRegister (a : LocalApic) (offset now : Z) : Z :=
  if offset =? REG_ID then if X2Apic a then fId a else u32 (Z.shiftl (fId a) 24)
  else if offset =? REG_VERSION then LAPIC_VERSION
  else if offset =? REG_TPR then fTpr a
  else if offset =? REG_PPR then Ppr a
  else if offset =? REG_LDR then if X2Apic a then X2ApicLdr a else fLdr a
  else if offset =? REG_DFR then fDfr a
  else if offset =? REG_SVR then fSvr a
  else if offset =? REG_ICR_LOW then set_bit 32 (fIcrLow a) DELIVERY_STATUS false
  else if offset =? REG_ICR_HIGH then Z.land (fIcrHigh a) 0xff000000
  else if offset =? REG_LVT_CMCI then arr_get 0 (fLvt a) LVT_CMCI
  else if offset =? REG_INITIAL_COUNT then fInitialCount a
  else if offset =? REG_CURRENT_COUNT then CurrentCount a now
  else if offset =? REG_DIVIDE then fDivide a
  else if (REG_ISR <=? offset) && (offset <? REG_ISR + 0x80) then arr_get 0 (fIsr a) ((offset - REG_ISR) / 16)
  else if (REG_TMR <=? offset) && (offset <? REG_TMR + 0x80) then arr_get 0 (fTmr a) ((offset - REG_TMR) / 16)
  else if (REG_IRR <=? offset) && (offset <? REG_IRR + 0x80) then arr_get 0 (fIrr a) ((offset - REG_IRR) / 16)
  else if (REG_LVT_TIMER <=? offset) && (offset <=? REG_LVT_ERROR)
  then arr_get 0 (fLvt a) (LVT_TIMER + (offset - REG_LVT_TIMER) / 16)
  else if offset =? REG_ESR then fEsr a
  else 0.

(** All but the interrupt command register, which is the bus's. *)
Definition write_register (a : LocalApic) (offset val now : Z) : LocalApic * list host_event :=
  if offset =? REG_TPR then (Update (a <| fTpr := get_bits 32 val 0 8 |>), [])
  else if offset =? REG_EOI then
    let vector := highest_vector (fIsr a) in
    if vector <? 0 then (a, [])
    else
      let a := a <| fIsr := set_vector (fIsr a) vector false |> in
      (Update a, if get_bit 32 (arr_get 0 (fTmr a) (vector / 32)) (vector mod 32) then [ApicEoi vector] else [])
  else if offset =? REG_LDR then (a <| fLdr := Z.land val 0xff000000 |>, [])
  else if offset =? REG_DFR then (a <| fDfr := Z.lor val 0x0fffffff |>, [])
  else if offset =? REG_SVR then
    let a := a <| fSvr := Z.land val 0x3ff |> in
    let a := if negb (get_bit 32 (fSvr a) SVR_ENABLE)
             then a <| fLvt := (fun lvt => set_bit 32 lvt LVT_MASKED true) <$> fLvt a |> else a in
    (Update a, [])
  else if offset =? REG_ICR_HIGH then (a <| fIcrHigh := Z.land val 0xff000000 |>, [])
  else if offset =? REG_ESR then (a <| fEsr := fEsrPending a |> <| fEsrPending := 0 |>, [])
  else if offset =? REG_INITIAL_COUNT then
    let a := a <| fInitialCount := val |> <| fTimerArmed := nz val |> <| fTimerStart := now |> <| fTimerFired := 0 |> in
    (a, [ApicTimerChanged (TimerDue a)])
  else if offset =? REG_DIVIDE then
    let a := a <| fDivide := Z.land val 0xb |> in
    if fTimerArmed a then
      let a := a <| fTimerStart := now |> <| fTimerFired := 0 |> in (a, [ApicTimerChanged (TimerDue a)])
    else (a, [])
  else
    let lvt := if offset =? REG_LVT_CMCI then LVT_CMCI
               else if (REG_LVT_TIMER <=? offset) && (offset <=? REG_LVT_ERROR)
               then LVT_TIMER + (offset - REG_LVT_TIMER) / 16 else -1 in
    if 0 <=? lvt then
      let val := Z.land val (arr_get 0 kLvtWritable lvt) in
      let val := if negb (get_bit 32 (fSvr a) SVR_ENABLE) then set_bit 32 val LVT_MASKED true else val in
      let a := Update (a <| fLvt := arr_set (fLvt a) lvt val |>) in
      (a, if lvt =? LVT_TIMER then [ApicTimerChanged (TimerDue a)] else [])
    else (a, []).

Definition WriteRegister (b : LocalApicBus) (i : nat) (offset val now : Z) : LocalApicBus :=
  if offset =? REG_ICR_LOW then SendIpi (set_apic b i ((apic b i) <| fIcrLow := val |>)) i
  else let '(a, e) := write_register (apic b i) offset val now in emit (set_apic b i a) e.

Definition DeviceRead (a : LocalApic) (offset now : Z) : LocalApic * Z :=
  if X2Apic a then (a, 0)
  else
    let offset := Z.land offset 0xff0 in
    if reserved_register offset then (Error a ESR_ILLEGAL_REGISTER, 0) else (a, ReadRegister a offset now).

Definition DeviceWrite (b : LocalApicBus) (i : nat) (offset val now : Z) : LocalApicBus :=
  if X2Apic (apic b i) then b
  else
    let offset := Z.land offset 0xff0 in
    if reserved_register offset then set_apic b i (Error (apic b i) ESR_ILLEGAL_REGISTER)
    else WriteRegister b i offset (u32 val) now.

Definition MsrRead (a : LocalApic) (msr now : Z) : option Z :=
  let offset := u32 (Z.shiftl (u32 (msr - LAPIC_MSR_BASE)) 4) in
  if negb (X2Apic a) || negb (nz (Z.land (x2apic_access offset) X2APIC_READ)) then None
  else
    let val := ReadRegister a offset now in
    Some (if offset =? REG_ICR_LOW then Z.lor val (Z.shiftl (fIcrHigh a) 32) else val).

Definition MsrWrite (b : LocalApicBus) (i : nat) (msr val now : Z) : LocalApicBus * bool :=
  let offset := u32 (Z.shiftl (u32 (msr - LAPIC_MSR_BASE)) 4) in
  let a := apic b i in
  if negb (X2Apic a) || negb (nz (Z.land (x2apic_access offset) X2APIC_WRITE)) then (b, false)
  else if offset =? REG_ICR_LOW then
    if nz (Z.land val X2APIC_ICR_RESERVED) then (b, false)
    else (SendIpi (set_apic b i (a <| fIcrLow := u32 val |> <| fIcrHigh := u32 (Z.shiftr val 32) |>)) i, true)
  else if offset =? REG_SELF_IPI then
    if 0xff <? val then (b, false)
    else (set_apic b i (if val <? 16 then Error a ESR_SEND_ILLEGAL_VECTOR else Accept a val false), true)
  else if ((offset =? REG_EOI) || (offset =? REG_ESR)) && nz val then (b, false)
  else if 0xffffffff <? val then (b, false)
  else (WriteRegister b i offset (u32 val) now, true).

Fixpoint run_timers_loop (n i : nat) (b : LocalApicBus) (now : nat -> Z) (delay : Z) : LocalApicBus * Z :=
  match n with
  | O => (b, delay)
  | S n =>
    let '(a, d) := RunTimer (apic b i) (now i) in
    run_timers_loop n (S i) (set_apic b i a) now
      (if (0 <=? d) && ((delay <? 0) || (d <? delay)) then d else delay)
  end.
(** [now i] is the clock as the [i]-th APIC reads it. *)
Definition RunTimers (b : LocalApicBus) (now : nat -> Z) : LocalApicBus * Z :=
  run_timers_loop (length (fApics b)) 0 b now (-1).
