(* ===== verification/LapicOk.v ===== *)
(** The local APICs deliver by priority: what a processor is told of and takes,
    in every state of the model of Lapic.v, and when a timer fires. *)

From stdpp Require Import base numbers list.
From S2P Require Import Prelude Bits Cutils Lapic.
Local Open Scope Z_scope.

(** * 256 bit registers *)

(** Vector [v] is set. *)
Definition has (reg : list Z) (v : Z) : bool := Z.testbit (arr_get 0 reg (v / 32)) (v mod 32).
Definition reg_ok (reg : list Z) : Prop := length reg = 8%nat /\ Forall (inw 32) reg.

Lemma word_bit v : 0 <= v < 256 -> 0 <= v / 32 < 8 /\ 0 <= v mod 32 < 32 /\ v = v / 32 * 32 + v mod 32.
Proof. intros. Z.div_mod_to_equations. lia. Qed.

Lemma reg_word reg i : reg_ok reg -> inw 32 (arr_get 0 reg i).
Proof. intros [_ H]. apply Forall_arr_get; [done|]. auto with inw. Qed.

Lemma set_vector_ok reg v on : reg_ok reg -> reg_ok (set_vector reg v on).
Proof.
  intros [Hl Hw]. unfold set_vector. split; [by rewrite length_arr_set|].
  apply Forall_arr_set; [done|]. auto with inw.
Qed.

Lemma has_set reg v on u : reg_ok reg -> 0 <= v < 256 -> 0 <= u < 256 ->
  has (set_vector reg v on) u = if u =? v then on else has reg u.
Proof.
  intros [Hl _] Hv Hu. unfold has, set_vector.
  destruct (word_bit v Hv) as (? & ? & ?), (word_bit u Hu) as (? & ? & ?).
  rewrite arr_get_set by lia. destruct (Z.eqb_spec (u / 32) (v / 32)) as [E|E].
  - rewrite set_bit_testbit by lia. destruct (Z.eqb_spec (u mod 32) (v mod 32)), (Z.eqb_spec u v); try lia.
    + destruct (Z.ltb_spec (u mod 32) 32); [done|lia].
    + destruct (Z.ltb_spec (u mod 32) 32); [by rewrite E|lia].
  - destruct (Z.eqb_spec u v); [congruence|done].
Qed.

(** [clz] finds the top bit of a word. *)
Lemma top_bit w : inw 32 w -> w <> 0 -> let t := 31 - builtin_clz 32 w in
  0 <= t < 32 /\ Z.testbit w t = true /\ forall k, t < k -> Z.testbit w k = false.
Proof.
  intros [Hw Hw'] Hnz t. unfold t, builtin_clz. replace (31 - (32 - 1 - Z.log2 w)) with (Z.log2 w) by lia.
  split_and!; [apply Z.log2_nonneg|apply Z.log2_lt_pow2; lia|apply Z.bit_log2; lia|].
  intros k Hk. by apply Z.bits_above_log2.
Qed.

Lemma highest_loop_spec reg n : reg_ok reg -> (n <= 8)%nat ->
  (highest_loop n reg = -1 /\ forall v, 0 <= v < Z.of_nat n * 32 -> has reg v = false) \/
  (0 <= highest_loop n reg < Z.of_nat n * 32 /\ has reg (highest_loop n reg) = true /\
   forall v, highest_loop n reg < v < Z.of_nat n * 32 -> has reg v = false).
Proof.
  intros Hr. induction n as [|n IH]; intros Hn; [left; split; [done|]; intros; lia|].
  cbn [highest_loop]. cbv zeta. pose proof (reg_word reg (Z.of_nat n) Hr) as Hw.
  set (w := arr_get 0 reg (Z.of_nat n)) in *.
  assert (Hup : forall v, Z.of_nat n * 32 <= v < Z.of_nat (S n) * 32 -> has reg v = Z.testbit w (v - Z.of_nat n * 32)).
  { intros v Hv. unfold has, w. assert (v / 32 = Z.of_nat n) as -> by (Z.div_mod_to_equations; lia).
    f_equal. Z.div_mod_to_equations. lia. }
  destruct (Z.eqb_spec w 0) as [E|Hnz]; simpl.
  - assert (Hz : forall v, Z.of_nat n * 32 <= v < Z.of_nat (S n) * 32 -> has reg v = false)
      by (intros v Hv; by rewrite Hup, E, Z.bits_0 by done).
    destruct IH as [[-> H]|(H1 & H2 & H3)]; [lia|left|right]; split_and!; try done; try lia; intros v Hv.
    + destruct (Z.lt_ge_cases v (Z.of_nat n * 32)); [apply H|apply Hz]; lia.
    + destruct (Z.lt_ge_cases v (Z.of_nat n * 32)); [apply H3|apply Hz]; lia.
  - destruct (top_bit w Hw Hnz) as (H1 & H2 & H3). right.
    set (t := 31 - builtin_clz 32 w) in *. replace (Z.of_nat n * 32 + 31 - builtin_clz 32 w) with (Z.of_nat n * 32 + t) by lia.
    split; [lia|]. rewrite Hup by lia. split; [by rewrite Z.add_simpl_l|].
    intros v Hv. rewrite Hup by lia. apply H3. lia.
Qed.

Lemma highest_vector_spec reg : reg_ok reg ->
  (highest_vector reg = -1 /\ forall v, 0 <= v < 256 -> has reg v = false) \/
  (0 <= highest_vector reg < 256 /\ has reg (highest_vector reg) = true /\
   forall v, highest_vector reg < v < 256 -> has reg v = false).
Proof. intros Hr. apply (highest_loop_spec reg 8 Hr). lia. Qed.

(** * Priorities *)

Definition class (v : Z) : Z := v / 16.
Definition task_class (a : LocalApic) : Z := fTpr a / 16 mod 16.
(** The processor may be interrupted by [v]. *)
Definition can_take (a : LocalApic) (v : Z) : Prop :=
  0 <= v < 256 /\ Enabled a = true /\ has (fIrr a) v = true /\ task_class a < class v /\
  forall u, 0 <= u < 256 -> has (fIsr a) u = true -> class u < class v.

Lemma land_f0 x : Z.land x 0xf0 = 16 * (x / 16 mod 16).
Proof.
  change 0xf0 with (Z.shiftl (Z.ones 4) 4).
  bits_at i Hi. rewrite Z.land_spec, Z.shiftl_spec by lia. rewrite (Z.mul_comm 16). change 16 with (2 ^ 4).
  rewrite <- Z.shiftl_mul_pow2, Z.shiftl_spec, <- Z.land_ones, Z.land_spec, <- Z.shiftr_div_pow2 by lia.
  destruct (Z.lt_ge_cases i 4).
  - rewrite !(testbit_neg (i - 4)) by lia. by rewrite andb_false_r.
  - rewrite Z.shiftr_spec by lia. by rewrite Z.sub_add.
Qed.

Lemma land_class v : 0 <= v < 256 -> Z.land v 0xf0 = 16 * class v.
Proof. intros. rewrite land_f0. unfold class. rewrite Z.mod_small; [done|]. Z.div_mod_to_equations. lia. Qed.

Lemma land_ff_f0 x : Z.land (Z.land x 0xff) 0xf0 = Z.land x 0xf0.
Proof. by rewrite <- Z.land_assoc. Qed.

(** The class of the processor priority. *)
Lemma Ppr_class a : reg_ok (fIsr a) -> Z.land (Ppr a) 0xf0 =
  16 * Z.max (task_class a) (if highest_vector (fIsr a) <? 0 then 0 else class (highest_vector (fIsr a))).
Proof.
  intros Hi. unfold Ppr. cbv zeta.
  assert (Ht : Z.land (fTpr a) 0xf0 = 16 * task_class a) by apply land_f0.
  assert (0 <= task_class a) by (apply Z.mod_pos_bound; lia).
  assert (Hc : forall x, 0 <= x < 256 -> Z.land (Z.land x 0xf0) 0xf0 = Z.land x 0xf0) by (intros; by rewrite <- Z.land_assoc).
  destruct (Z.ltb_spec (highest_vector (fIsr a)) 0) as [|Hge].
  - rewrite Ht. destruct (Z.leb_spec 0 (16 * task_class a)); [|lia]. rewrite land_ff_f0, Ht. lia.
  - destruct (highest_vector_spec _ Hi) as [[E _]|(Hr & _)]; [lia|].
    set (h := highest_vector (fIsr a)) in *. rewrite Ht, (land_class h) by done.
    destruct (Z.leb_spec (16 * class h) (16 * task_class a)); [rewrite land_ff_f0, Ht; lia|].
    rewrite <- (land_class h), Hc, land_class by done. lia.
Qed.

Lemma class_mono u v : u <= v -> class u <= class v.
Proof. intros. apply Z.div_le_mono; lia. Qed.

(** The highest request can be taken as soon as any can. *)
Lemma Deliverable_spec a : reg_ok (fIrr a) -> reg_ok (fIsr a) ->
  (Deliverable a = true /\ can_take a (highest_vector (fIrr a)) /\
   forall u, 0 <= u < 256 -> has (fIrr a) u = true -> u <= highest_vector (fIrr a)) \/
  (Deliverable a = false /\ forall v, ~ can_take a v).
Proof.
  intros Hr Hs. assert (Ht0 : 0 <= task_class a) by (apply Z.mod_pos_bound; lia).
  unfold Deliverable. cbv zeta. rewrite (Ppr_class a Hs).
  destruct (highest_vector_spec _ Hr) as [[E Hn]|(Hv & Hb & Hmax)].
  { right. rewrite E. split; [done|]. intros v (Hv & _ & Hh & _). by rewrite Hn in Hh. }
  set (h := highest_vector (fIrr a)) in *. destruct (Z.leb_spec 0 h); [|lia]. simpl.
  rewrite (land_class h) by done. destruct (Enabled a) eqn:He; simpl.
  2: { right. split; [done|]. intros v (_ & Hh & _). congruence. }
  assert (Hle : forall u, 0 <= u < 256 -> has (fIrr a) u = true -> u <= h).
  { intros u Hu Hh. destruct (Z.le_gt_cases u h); [done|]. by rewrite Hmax in Hh by lia. }
  destruct (highest_vector_spec _ Hs) as [[E Hn]|(Hw & Hwb & Hwmax)].
  - rewrite E. simpl. destruct (Z.ltb_spec (16 * (task_class a `max` 0)) (16 * class h)); [left|right].
    + split_and!; try done; try lia. split_and!; try done; try lia. intros u Hu Hh. by rewrite Hn in Hh.
    + split; [done|]. intros v (Hvr & _ & Hh & Hc & _). pose proof (class_mono _ _ (Hle v Hvr Hh)). lia.
  - set (w := highest_vector (fIsr a)) in *. destruct (Z.ltb_spec w 0); [lia|].
    assert (Hwle : forall u, 0 <= u < 256 -> has (fIsr a) u = true -> u <= w).
    { intros u Hu Hh. destruct (Z.le_gt_cases u w); [done|]. by rewrite Hwmax in Hh by lia. }
    destruct (Z.ltb_spec (16 * (task_class a `max` class w)) (16 * class h)); [left|right].
    + split_and!; try done; try lia. split_and!; try done; try lia. intros u Hu Hh.
      pose proof (class_mono _ _ (Hwle u Hu Hh)). lia.
    + split; [done|]. intros v (Hvr & _ & Hh & Hc & Hcs). pose proof (class_mono _ _ (Hle v Hvr Hh)).
      specialize (Hcs w Hw Hwb). lia.
Qed.

(** * The invariant *)

Record apic_wf (a : LocalApic) : Prop := {
  wf_irr : reg_ok (fIrr a);
  wf_isr : reg_ok (fIsr a);
  wf_tmr : reg_ok (fTmr a);
  wf_lvt : length (fLvt a) = 7%nat;
  wf_armed : fTimerArmed a = true -> 0 < fInitialCount a < 2 ^ 32;
}.
(** The processor is told just when there is an interrupt for it to take. *)
Definition told (a : LocalApic) : Prop := fLine a = Deliverable a || (fLint0 a && AcceptsExtInt a).
Definition apic_ok (a : LocalApic) : Prop := apic_wf a /\ told a.

Lemma lapic_update_ok a : apic_wf a -> apic_ok (Update a).
Proof. intros []. split; [by constructor|reflexivity]. Qed.

Lemma zero_reg_ok : reg_ok (replicate 8 0).
Proof. split; [done|]. apply Forall_replicate. auto with inw. Qed.

Lemma accept_error_ok fuel : (forall a v l, apic_ok a -> apic_ok (accept_fuel fuel a v l)) /\
  (forall a b, apic_ok a -> apic_ok (error_fuel fuel a b)).
Proof.
  induction fuel as [|fuel [IHa IHe]]; split.
  1,3: intros a v l Ha; cbn [accept_fuel]; destruct (v <? 16); [by auto|]; apply lapic_update_ok;
    destruct Ha as [[] _]; constructor; simpl; try done; by apply set_vector_ok.
  all: intros a b Ha; cbn [error_fuel]; destruct (nz _); [done|]; cbv zeta;
    assert (apic_ok (a <| fEsrPending := Z.lor (fEsrPending a) b |>)) by (destruct Ha as [[] ?]; split; [by constructor|done]);
    destruct (negb _); [|done]; auto.
Qed.

Lemma Accept_ok a v l : apic_ok a -> apic_ok (Accept a v l).
Proof. apply (accept_error_ok 4). Qed.
Lemma Error_ok a b : apic_ok a -> apic_ok (Error a b).
Proof. apply (accept_error_ok 4). Qed.

(** The calls between [Accept] and [Error] come to an end: more fuel changes nothing. *)
Lemma error_recorded n p a : p <> 0 -> error_fuel n (a <| fEsrPending := Z.lor (fEsrPending a) p |>) p =
  a <| fEsrPending := Z.lor (fEsrPending a) p |>.
Proof.
  intros Hp. assert (nz (Z.land (Z.lor (fEsrPending a) p) p) = true) as E.
  { unfold nz. rewrite negb_true_iff, Z.eqb_neq. rewrite Z.land_comm, Z.lor_comm, Z.land_lor_distr_r, Z.land_diag.
    intros H. apply Z.lor_eq_0_iff in H. naive_solver. }
  destruct n; cbn [error_fuel];
    change (fEsrPending (a <| fEsrPending := Z.lor (fEsrPending a) p |>)) with (Z.lor (fEsrPending a) p); by rewrite E.
Qed.

Lemma accept_S n a v l : accept_fuel (S n) a v l =
  if v <? 16 then error_fuel n a ESR_RECV_ILLEGAL_VECTOR else accept_fuel 0 a v l.
Proof. cbn [accept_fuel]. by destruct (v <? 16). Qed.

Lemma error_S n a b : error_fuel (S n) a b =
  if nz (Z.land (fEsrPending a) b) then a
  else let a := a <| fEsrPending := Z.lor (fEsrPending a) b |> in
    if negb (get_bit 32 (arr_get 0 (fLvt a) LVT_ERROR) LVT_MASKED)
    then accept_fuel n a (get_bits 32 (arr_get 0 (fLvt a) LVT_ERROR) 0 8) false else a.
Proof. reflexivity. Qed.

Lemma error_recv_ends n a : error_fuel (2 + n) a ESR_RECV_ILLEGAL_VECTOR = error_fuel 2 a ESR_RECV_ILLEGAL_VECTOR.
Proof. cbn [Nat.add]. rewrite !error_S. cbv zeta. by rewrite !accept_S, !error_recorded. Qed.

Lemma accept_error_ends n a : (forall v l, accept_fuel (4 + n) a v l = Accept a v l) /\
  (forall b, error_fuel (4 + n) a b = Error a b).
Proof.
  unfold Accept, Error. split; intros.
  - cbn [Nat.add]. rewrite !accept_S. by rewrite (error_recv_ends (S n)), (error_recv_ends 1).
  - cbn [Nat.add]. rewrite !error_S. cbv zeta. by rewrite !accept_S, (error_recv_ends n).
Qed.

Lemma Init_ok a : apic_ok (Init a).
Proof. apply lapic_update_ok. constructor; simpl; try done; apply zero_reg_ok. Qed.

Lemma apic_new_ok id : apic_ok (apic_new id).
Proof.
  unfold apic_new, Reset. cbv zeta. destruct (fId _ =? 0); [|apply Init_ok].
  apply lapic_update_ok. destruct (Init_ok (mkApic id 0 0 0 0xffffffff 0xff 0 0 (replicate 7 0) 0 (replicate 8 0)
    (replicate 8 0) (replicate 8 0) false 0 0 0 false 0 0 false)) as [[] _]. constructor; done.
Qed.

Lemma Receive_ok a mode v l s : apic_ok a -> apic_ok (Receive a mode v l s).1.
Proof.
  intros Ha. unfold Receive. destruct (_ || _); [by apply Accept_ok|]. destruct (_ =? MODE_INIT); [|by destruct (_ =? _)].
  destruct (_ && _); [done|]. apply Init_ok.
Qed.

Lemma Acknowledge_ok a : apic_ok a -> apic_ok (Acknowledge a).1.
Proof.
  intros Ha. unfold Acknowledge. destruct (Deliverable a); [|by destruct (_ && _)]. apply lapic_update_ok.
  destruct Ha as [[] _]. constructor; simpl; try done; by apply set_vector_ok.
Qed.

Lemma SetBase_ok a v : apic_ok a -> apic_ok (SetBase a v).1.
Proof.
  intros Ha. unfold SetBase. cbv zeta. destruct (_ || _); [done|]. destruct (_ || _ || _); [done|].
  apply lapic_update_ok. destruct Ha as [[] _]. by constructor.
Qed.

Lemma write_register_ok a off v now : apic_ok a -> inw 32 v -> apic_ok (write_register a off v now).1.
Proof.
  intros [Hwf Ht] Hv. assert (apic_ok a) by done. unfold write_register.
  repeat match goal with |- context [if off =? ?r then _ else _] => destruct (off =? r) end; cbv zeta.
  - destruct Hwf. apply lapic_update_ok. by constructor.
  - destruct (_ <? 0); [done|]. destruct Hwf. apply lapic_update_ok. constructor; simpl; try done. by apply set_vector_ok.
  - destruct Hwf. split; [by constructor|done].
  - destruct Hwf. split; [by constructor|done].
  - destruct Hwf. apply lapic_update_ok. destruct (negb _); constructor; simpl; try done. by rewrite length_fmap.
  - destruct Hwf. split; [by constructor|done].
  - destruct Hwf. split; [by constructor|done].
  - destruct Hwf. split; [|done]. constructor; simpl; try done. intros Hnz. unfold nz in Hnz.
    destruct (Z.eqb_spec v 0); [done|]. unfold inw in Hv. lia.
  - destruct (fTimerArmed _); destruct Hwf; (split; [by constructor|done]).
  - destruct Hwf. destruct (0 <=? _); [|done]. apply lapic_update_ok. constructor; simpl; try done. by rewrite length_arr_set.
  - destruct Hwf. destruct (0 <=? _); [|done]. apply lapic_update_ok. constructor; simpl; try done. by rewrite length_arr_set.
Qed.

(** Nothing but the request registers, the error register and the line change. *)
Definition accepted (a : LocalApic) (irr tmr : list Z) (esr : Z) (line : bool) : LocalApic :=
  a <| fIrr := irr |> <| fTmr := tmr |> <| fEsrPending := esr |> <| fLine := line |>.
Lemma accept_error_frame n : (forall a v l, exists i t e b, accept_fuel n a v l = accepted a i t e b) /\
  (forall a p, exists i t e b, error_fuel n a p = accepted a i t e b).
Proof.
  assert (Hid : forall a, exists i t e b, a = accepted a i t e b)
    by (intros a; exists (fIrr a), (fTmr a), (fEsrPending a), (fLine a); by destruct a).
  induction n as [|n [IHa IHe]]; split.
  - intros a v l. cbn [accept_fuel]. destruct (v <? 16); [done|].
    exists (set_vector (fIrr a) v true), (set_vector (fTmr a) v l), (fEsrPending a). eexists. reflexivity.
  - intros a p. cbn [error_fuel]. cbv zeta. destruct (nz _); [done|]. destruct (negb _);
      by exists (fIrr a), (fTmr a), (Z.lor (fEsrPending a) p), (fLine a).
  - intros a v l. cbn [accept_fuel]. destruct (v <? 16); [done|].
    exists (set_vector (fIrr a) v true), (set_vector (fTmr a) v l), (fEsrPending a). eexists. reflexivity.
  - intros a p. rewrite error_S. cbv zeta. destruct (nz _); [done|]. destruct (negb _);
      [|by exists (fIrr a), (fTmr a), (Z.lor (fEsrPending a) p), (fLine a)].
    destruct (IHa (a <| fEsrPending := Z.lor (fEsrPending a) p |>)
      (get_bits 32 (arr_get 0 (fLvt a) LVT_ERROR) 0 8) false) as (i & t & e & b & E).
    exists i, t, e, b. exact E.
Qed.

Lemma Accept_frame a v l : exists i t e b, Accept a v l = accepted a i t e b.
Proof. apply (accept_error_frame 4). Qed.

Lemma RunTimer_ok a now : apic_ok a -> apic_ok (RunTimer a now).1.
Proof.
  intros Ha. unfold RunTimer. destruct (negb _); [done|]. cbv zeta. destruct (_ <? _); [|done].
  set (a1 := a <| fTimerFired := _ |>). assert (H1 : apic_ok a1) by (destruct Ha as [[] ?]; split; [by constructor|done]).
  set (a2 := if negb _ then _ else a1). assert (H2 : apic_ok a2) by (unfold a2; destruct (negb _); [by apply Accept_ok|done]).
  destruct (negb (timer_periodic a)); [|done]. destruct H2 as [[] ?]. split; [by constructor|done].
Qed.

(** * The bus as a transition system *)

Inductive lapic_op :=
| LRead (i : nat) (offset now : Z)
| LWrite (i : nat) (offset val now : Z)
| LMsrWrite (i : nat) (msr val now : Z)
| LSetBase (i : nat) (val : Z)
| LSetTpr (i : nat) (cr8 : Z)
| LLint0 (i : nat) (level : bool)
| LAck (i : nat)
| LDeliver (addr data : Z)
| LReset (i : nat)
| LTimers (now : nat -> Z).

Definition lapic_step (b : LocalApicBus) (o : lapic_op) : LocalApicBus :=
  match o with
  | LRead i offset now => set_apic b i (DeviceRead (apic b i) offset now).1
  | LWrite i offset val now => DeviceWrite b i offset val now
  | LMsrWrite i msr val now => (MsrWrite b i msr val now).1
  | LSetBase i val => set_apic b i (SetBase (apic b i) val).1
  | LSetTpr i cr8 => set_apic b i (SetTaskPriority (apic b i) cr8)
  | LLint0 i level => set_apic b i (SetLint0 (apic b i) level)
  | LAck i => set_apic b i (Acknowledge (apic b i)).1
  | LDeliver addr data => Deliver b addr data
  | LReset i => set_apic b i (Reset (apic b i))
  | LTimers now => (RunTimers b now).1
  end.

Definition bus_ok (b : LocalApicBus) : Prop := Forall apic_ok (fApics b).

Lemma apic_at_ok b i : bus_ok b -> apic_ok (apic b i).
Proof.
  intros Hb. unfold apic. rewrite nth_lookup. destruct (fApics b !! i) eqn:E; simpl; [|apply apic_new_ok].
  by eapply Forall_lookup_1.
Qed.

Lemma set_apic_ok b i a : bus_ok b -> apic_ok a -> bus_ok (set_apic b i a).
Proof. intros. by apply Forall_insert. Qed.

Lemma receive_at_ok b i mode v l s : bus_ok b -> bus_ok (receive_at b i mode v l s).
Proof.
  intros Hb. unfold receive_at. pose proof (Receive_ok (apic b i) mode v l s (apic_at_ok b i Hb)) as H.
  destruct (Receive _ _ _ _ _). by apply set_apic_ok.
Qed.

Lemma Send_ok b src sh dest lg mode v l s : bus_ok b -> bus_ok (Send b src sh dest lg mode v l s).
Proof.
  intros Hb. unfold Send. assert (Hl : forall n i b lo, bus_ok b -> bus_ok (send_loop n i b lo src sh dest lg mode v l s).1).
  { clear b Hb. induction n as [|n IH]; intros i b lo Hb; [done|]. cbn [send_loop].
    destruct (negb _); [by apply IH|]. destruct (negb _); [by apply IH, receive_at_ok|]. by apply IH. }
  specialize (Hl (length (fApics b)) 0%nat b None Hb). destruct (send_loop _ _ _ _ _ _ _ _ _ _ _ _) as [b' [i|]];
    [by apply receive_at_ok|done].
Qed.

Lemma SendIpi_ok b i : bus_ok b -> bus_ok (SendIpi b i).
Proof.
  intros Hb. unfold SendIpi. cbv zeta. destruct (_ && _); [|by apply Send_ok].
  apply set_apic_ok; [done|]. by apply Error_ok, apic_at_ok.
Qed.

Lemma WriteRegister_ok b i off v now : bus_ok b -> inw 32 v -> bus_ok (WriteRegister b i off v now).
Proof.
  intros Hb Hv. pose proof (apic_at_ok b i Hb) as Ha. unfold WriteRegister. destruct (_ =? _).
  - apply SendIpi_ok, set_apic_ok; [done|]. destruct Ha as [[] ?]. split; [by constructor|done].
  - pose proof (write_register_ok (apic b i) off v now Ha Hv) as H. destruct (write_register _ _ _ _).
    by apply set_apic_ok.
Qed.

Lemma Reset_ok a : apic_ok (Reset a).
Proof.
  unfold Reset. cbv zeta. set (a' := a <| fBase := _ |>). pose proof (Init_ok a') as Ha. destruct (fId _ =? 0); [|done].
  apply lapic_update_ok. destruct Ha as [[] _]. constructor; done.
Qed.

Lemma MsrWrite_ok b i msr v now : bus_ok b -> bus_ok (MsrWrite b i msr v now).1.
Proof.
  intros Hb. pose proof (apic_at_ok b i Hb) as Ha. unfold MsrWrite. cbv zeta.
  destruct (_ || _); [done|]. destruct (_ =? REG_ICR_LOW).
  { destruct (nz _); [done|]. apply SendIpi_ok, set_apic_ok; [done|]. destruct Ha as [[] ?]. split; [by constructor|done]. }
  destruct (_ =? REG_SELF_IPI).
  { destruct (_ <? v); [done|]. apply set_apic_ok; [done|].
    destruct (v <? 16); [by apply Error_ok|by apply Accept_ok]. }
  destruct (_ && _); [done|]. destruct (_ <? v); [done|]. apply WriteRegister_ok; [done|]. by apply inw_uw.
Qed.

Lemma lapic_step_ok b o : bus_ok b -> bus_ok (lapic_step b o).
Proof.
  intros Hb. pose proof (fun i => apic_at_ok b i Hb) as Ha.
  destruct o as [i off now|i off v now|i msr v now|i v|i v|i v|i|addr data|i|now]; cbn [lapic_step].
  - apply set_apic_ok; [done|]. unfold DeviceRead. destruct (X2Apic _); [by apply Ha|]. cbv zeta.
    destruct (reserved_register _); [by apply Error_ok|by apply Ha].
  - unfold DeviceWrite. destruct (X2Apic _); [done|]. cbv zeta. destruct (reserved_register _).
    + apply set_apic_ok; [done|]. by apply Error_ok.
    + apply WriteRegister_ok; [done|]. by apply inw_uw.
  - by apply MsrWrite_ok.
  - by apply set_apic_ok, SetBase_ok.
  - apply set_apic_ok, lapic_update_ok; [done|]. destruct (Ha i) as [[] ?]. by constructor.
  - apply set_apic_ok, lapic_update_ok; [done|]. destruct (Ha i) as [[] ?]. by constructor.
  - by apply set_apic_ok, Acknowledge_ok.
  - by apply Send_ok.
  - apply set_apic_ok; [done|]. apply Reset_ok.
  - unfold RunTimers. generalize (length (fApics b)), 0%nat, (-1). intros n. clear Ha. revert b Hb.
    induction n as [|n IH]; intros b Hb i d; [done|]. cbn [run_timers_loop].
    pose proof (RunTimer_ok (apic b i) (now i) (apic_at_ok b i Hb)) as Hr. destruct (RunTimer _ _). by apply IH, set_apic_ok.
Qed.

Lemma bus_new_ok n : bus_ok (bus_new n).
Proof. unfold bus_ok, bus_new. simpl. apply Forall_fmap, Forall_true. intros. apply apic_new_ok. Qed.

Lemma lapic_reachable n ops : bus_ok (foldl lapic_step (bus_new n) ops).
Proof.
  generalize (bus_new_ok n). generalize (bus_new n) as b.
  induction ops as [|o ops IH]; intros b Hb; [done|]. by apply IH, lapic_step_ok.
Qed.

(** * Taking an interrupt *)

Opaque Deliverable highest_vector AcceptsExtInt.

Lemma can_take_dec a : apic_wf a ->
  (Deliverable a = true /\ can_take a (highest_vector (fIrr a)) /\
   forall u, can_take a u -> u <= highest_vector (fIrr a)) \/
  (Deliverable a = false /\ forall v, ~ can_take a v).
Proof.
  intros []. destruct (Deliverable_spec a) as [(? & ? & H)|]; [done..|left|by right].
  split_and!; [done..|]. intros u (Hu & _ & Hh & _). by apply H.
Qed.

(** The end of interrupt is for the highest vector in service. *)
Lemma eoi_highest a v now : apic_wf a -> 0 <= v < 256 -> has (fIsr a) v = true ->
  (forall u, 0 <= u < 256 -> has (fIsr a) u = true -> u <= v) ->
  write_register a REG_EOI 0 now =
    (Update (a <| fIsr := set_vector (fIsr a) v false |>), if has (fTmr a) v then [ApicEoi v] else []).
Proof.
  intros [] Hv Hh Hmax. assert (highest_vector (fIsr a) = v) as E.
  { destruct (highest_vector_spec _ wf_isr0) as [[_ Hn]|(Hr & Hb & Hn)]; [by rewrite Hn in Hh|].
    pose proof (Hmax _ Hr Hb). destruct (Z.lt_ge_cases (highest_vector (fIsr a)) v); [|lia].
    by rewrite Hn in Hh by lia. }
  unfold write_register. change (REG_EOI =? REG_TPR) with false. change (REG_EOI =? REG_EOI) with true. cbv zeta.
  rewrite E. destruct (Z.ltb_spec v 0); [lia|]. f_equal. unfold has. rewrite get_bit_testbit; [done|].
  destruct (word_bit v Hv) as (_ & ? & _). lia.
Qed.

(** C24: In every state the guest, the devices and the other processors can bring
    a local APIC to, the processor is told of an interrupt just when there is a
    vector it can take (requested, in a higher class than the task priority and
    than all in service) or the 8259s ask and are let through.  Acknowledging
    takes the highest such vector, moves it from requested to in service, and
    changes no other vector; until it is ended, only a vector of a higher class
    interrupts.  The end of interrupt then takes just that vector out of service,
    and tells the I/O APIC when it was level triggered.  With no vector to take,
    the answer is the 8259s' or the spurious vector, and nothing changes. *)
Theorem lapic_exact n ops i : let a := apic (foldl lapic_step (bus_new n) ops) i in
  (fLine a = true <-> (exists v, can_take a v) \/ (fLint0 a = true /\ AcceptsExtInt a = true)) /\
  let '(a', v) := Acknowledge a in
  ((exists u, can_take a u) ->
     can_take a v /\ (forall u, can_take a u -> u <= v) /\
     (forall u, 0 <= u < 256 -> has (fIrr a') u = has (fIrr a) u && negb (u =? v) /\
                                has (fIsr a') u = has (fIsr a) u || (u =? v)) /\
     (forall u, can_take a' u -> class v < class u) /\
     forall now, let '(a'', e) := write_register a' REG_EOI 0 now in
       (forall u, 0 <= u < 256 -> has (fIsr a'') u = has (fIsr a) u) /\
       e = if has (fTmr a) v then [ApicEoi v] else []) /\
  ((forall u, ~ can_take a u) -> a' = a /\
     v = if fLint0 a && AcceptsExtInt a then LAPIC_EXTINT else get_bits 32 (fSvr a) 0 8).
Proof.
  intros a. destruct (apic_at_ok _ i (lapic_reachable n ops)) as [Hwf Ht]. fold a in Hwf, Ht. clearbody a.
  unfold told in Ht. unfold Acknowledge.
  destruct (can_take_dec a Hwf) as [(Hd & Hc & Hmax)|[Hd Hn]]; rewrite Hd in *; simpl orb in Ht.
  2: { split; [rewrite Ht, andb_true_iff; naive_solver|]. destruct (fLint0 a && AcceptsExtInt a);
       (split; [|done]); intros [u Hu]; by destruct (Hn u). }
  split; [rewrite Ht; naive_solver|]. set (v := highest_vector (fIrr a)) in *.
  pose proof Hc as (Hv & _ & Hh & _ & Hs). destruct Hwf.
  set (a' := Update _). split; [intros _|intros Hn; by destruct (Hn v)].
  assert (Hisr : forall u, 0 <= u < 256 -> has (fIsr a') u = has (fIsr a) u || (u =? v)).
  { intros u Hu. unfold a'. simpl fIsr. rewrite has_set by done. destruct (u =? v); by rewrite ?orb_true_r, ?orb_false_r. }
  split_and!; try done.
  - intros u Hu. split; [|by apply Hisr]. unfold a'. simpl fIrr. rewrite has_set by done.
    destruct (u =? v); by rewrite ?andb_false_r, ?andb_true_r.
  - intros u (_ & _ & _ & _ & Hu). apply Hu; [done|]. rewrite Hisr by done. by rewrite Z.eqb_refl, orb_true_r.
  - intros now. rewrite (eoi_highest a' v); [|constructor; try done; by apply set_vector_ok|done| |].
    + split; [|done]. intros u Hu. unfold a'. simpl fIsr. rewrite !has_set by (done || by apply set_vector_ok).
      destruct (Z.eqb_spec u v) as [->|]; [|done]. destruct (has (fIsr a) v) eqn:E; [|done]. specialize (Hs v Hv E). lia.
    + rewrite Hisr by done. by rewrite Z.eqb_refl, orb_true_r.
    + intros u Hu. rewrite Hisr by done. destruct (Z.eqb_spec u v); [lia|]. rewrite orb_false_r. intros E.
      specialize (Hs u Hu E). destruct (Z.le_gt_cases u v); [done|]. pose proof (class_mono v u). lia.
Qed.

(** * The timer *)

(** The count runs on a clock that has not gone back, nor run for 2^53 microseconds. *)
Definition timer_sane (a : LocalApic) (now : Z) : Prop :=
  fTimerArmed a = true /\ 0 <= fTimerStart a <= now /\ now < 2 ^ 53 /\ 0 <= fTimerFired a /\
  fTimerFired a * (fInitialCount a * TimerDivisor a) <= 1000 * (now - fTimerStart a).

Lemma TimerDivisor_range a : 1 <= TimerDivisor a <= 128.
Proof.
  unfold TimerDivisor. assert (inw 2 (get_bits 32 (fDivide a) 0 2)) as [H1 H2] by (apply inw_get_bits; lia).
  set (g := get_bits 32 (fDivide a) 0 2) in *. assert (g = 0 \/ g = 1 \/ g = 2 \/ g = 3) as Hg by lia.
  destruct (get_bit 32 (fDivide a) 3), Hg as [-> | [-> | [-> | ->]]]; vm_compute; split; discriminate.
Qed.

Lemma timer_times a now : apic_wf a -> timer_sane a now ->
  let due := fTimerStart a + ((fTimerFired a + 1) * (fInitialCount a * TimerDivisor a) + 999) / 1000 in
  TimerTicks a now / fInitialCount a = 1000 * (now - fTimerStart a) / (fInitialCount a * TimerDivisor a) /\
  TimerDue a = due /\ due < 2 ^ 54.
Proof.
  intros [_ _ _ _ Hi] (Ha & Hs & Hn & Hf & Hp). specialize (Hi Ha). pose proof (TimerDivisor_range a).
  unfold TimerTicks, TimerDue. rewrite Ha. change (TIMER_HZ / 1000000) with 1000. cbv zeta. simpl negb.
  set (I := fInitialCount a) in *. set (D := TimerDivisor a) in *. set (F := fTimerFired a) in *.
  set (t := now - fTimerStart a) in *. assert (0 < I * D <= 2 ^ 39) by nia.
  assert (0 <= F < 2 ^ 63) by nia.
  assert (F <= F * I <= F * (I * D)) by nia.
  assert (0 <= (F + 1) * (I * D) < 2 ^ 63 + 2 ^ 40) by lia. split_and!.
  - unfold u64. rewrite (uw_small 64 t), (uw_small 64) by (unfold inw; lia).
    rewrite Z.div_div by lia. f_equal; lia.
  - cbv iota. unfold u64. rewrite (uw_small 64 (F + 1)), (uw_small 64 ((F + 1) * I)) by (unfold inw; lia).
    rewrite (uw_small 64 ((F + 1) * I * D)) by (unfold inw; lia).
    replace ((F + 1) * I * D + 1000 - 1) with ((F + 1) * (I * D) + 999) by lia.
    rewrite (uw_small 64 (_ + 999)) by (unfold inw; lia). apply uw_small.
    pose proof (Z.div_lt_upper_bound ((F + 1) * (I * D) + 999) 1000 (2 ^ 55)).
    pose proof (Z.div_pos ((F + 1) * (I * D) + 999) 1000). unfold inw. lia.
  - assert (((F + 1) * (I * D) + 999) / 1000 < t + 2 ^ 38) by (apply Z.div_lt_upper_bound; lia). lia.
Qed.

Lemma timer_due_iff a now : apic_wf a -> timer_sane a now ->
  TimerDue a <= now <-> fTimerFired a < TimerTicks a now / fInitialCount a.
Proof.
  intros Hwf Hs. destruct (timer_times a now Hwf Hs) as (-> & -> & _). destruct Hs as (Ha & Hs & _).
  pose proof (wf_armed a Hwf Ha). pose proof (TimerDivisor_range a).
  set (P := fInitialCount a * TimerDivisor a) in *. assert (0 < P) by nia. set (F := fTimerFired a) in *.
  split; intros Hx.
  - assert (F + 1 <= 1000 * (now - fTimerStart a) / P); [|lia]. apply Z.div_le_lower_bound; [lia|].
    pose proof (Z.div_mod ((F + 1) * P + 999) 1000). pose proof (Z.mod_pos_bound ((F + 1) * P + 999) 1000). lia.
  - assert (((F + 1) * P + 999) / 1000 < now - fTimerStart a + 1); [|lia]. apply Z.div_lt_upper_bound; [lia|].
    pose proof (Z.mul_div_le (1000 * (now - fTimerStart a)) P). nia.
Qed.

(** A count that has just been brought up to date is not due. *)
Lemma timer_caught_up a now : apic_wf a -> timer_sane a now ->
  fTimerFired a = TimerTicks a now / fInitialCount a -> now < TimerDue a < 2 ^ 54.
Proof.
  intros Hwf Hs E. pose proof (timer_due_iff a now Hwf Hs) as Hd. destruct (timer_times a now Hwf Hs) as (_ & -> & ?).
  split; [|done]. destruct (Z.lt_ge_cases now (TimerDue a)) as [|Hge]; [|apply Hd in Hge; lia].
  by destruct (timer_times a now Hwf Hs) as (_ & <- & _).
Qed.

Definition timer_vector (a : LocalApic) : Z := get_bits 32 (arr_get 0 (fLvt a) LVT_TIMER) 0 8.
Definition timer_masked (a : LocalApic) : bool := get_bit 32 (arr_get 0 (fLvt a) LVT_TIMER) LVT_MASKED.

Lemma Accept_has a v l : reg_ok (fIrr a) -> 16 <= v < 256 -> has (fIrr (Accept a v l)) v = true.
Proof.
  intros Hr Hv. unfold Accept. cbn [accept_fuel]. destruct (Z.ltb_spec v 16); [lia|]. unfold Update. simpl fIrr.
  rewrite has_set by (done || lia). by rewrite Z.eqb_refl.
Qed.


(** A periodic count of 1000 at the full rate, started at 100 microseconds. *)
Definition timer_ops : list lapic_op :=
  [LWrite 0 REG_SVR 0x1ff 0; LWrite 0 REG_LVT_TIMER 0x20031 0; LWrite 0 REG_DIVIDE 0xb 0;
   LWrite 0 REG_INITIAL_COUNT 1000 100].

(** * The bus *)

(** Who a message is for. *)
Definition addressed (b : LocalApicBus) (source shorthand dest : Z) (logical : bool) (i : nat) : Prop :=
  (i < length (fApics b))%nat /\ send_target (apic b i) source shorthand dest logical = true.

Section Sending.
Context (source shorthand dest : Z) (logical : bool) (mode vector : Z) (level assert : bool).
Let target (a : LocalApic) : bool := send_target a source shorthand dest logical.
Let recv (a : LocalApic) := Receive a mode vector level assert.
Let loop n i b lowest := send_loop n i b lowest source shorthand dest logical mode vector level assert.

Lemma send_loop_fixed n pre l ev : mode <> MODE_LOWEST -> length l = n ->
  loop n (length pre) (mkBus (pre ++ l) ev) None =
    (mkBus (pre ++ ((fun a => if target a then (recv a).1 else a) <$> l))
           (ev ++ concat ((fun a => if target a then (recv a).2 else []) <$> l)), None).
Proof.
  intros Hm. unfold loop. revert pre l ev. induction n as [|n IH]; intros pre [|a l] ev Hl; try done.
  { simpl. by rewrite !app_nil_r. }
  cbn [send_loop]. assert (apic (mkBus (pre ++ a :: l) ev) (length pre) = a) as ->
    by (unfold apic; simpl; by rewrite nth_lookup, list_lookup_middle).
  assert (mode =? MODE_LOWEST = false) as -> by by apply Z.eqb_neq.
  fold (target a). destruct (target a) eqn:E; cbn [negb].
  - unfold receive_at. assert (apic (mkBus (pre ++ a :: l) ev) (length pre) = a) as ->
      by (unfold apic; simpl; by rewrite nth_lookup, list_lookup_middle).
    fold (recv a). destruct (recv a) as [a' e] eqn:Er.
    assert (emit (set_apic (mkBus (pre ++ a :: l) ev) (length pre) a') e = mkBus ((pre ++ [a']) ++ l) (ev ++ e)) as ->.
    { unfold emit, set_apic, set_with. cbn. f_equal. rewrite insert_app_r_alt, Nat.sub_diag by lia. cbn. by rewrite <- app_assoc. }
    replace (S (length pre)) with (length (pre ++ [a'])) by (rewrite length_app; simpl; lia).
    rewrite IH by (simpl in Hl; lia). rewrite !fmap_cons, E, Er. cbn [concat fst snd]. by rewrite <- !app_assoc.
  - replace (pre ++ a :: l) with ((pre ++ [a]) ++ l) by by rewrite <- app_assoc.
    replace (S (length pre)) with (length (pre ++ [a])) by (rewrite length_app; simpl; lia).
    rewrite IH by (simpl in Hl; lia). rewrite !fmap_cons, E. cbn [concat]. by rewrite <- !app_assoc.
Qed.

(** [l] is the first of lowest priority among the addressed below [i]. *)
Definition lowest_below (b : LocalApicBus) (i : nat) (l : option nat) : Prop :=
  match l with
  | None => forall j, (j < i)%nat -> target (apic b j) = false
  | Some l => (l < i)%nat /\ target (apic b l) = true /\
      forall j, (j < i)%nat -> target (apic b j) = true ->
        Ppr (apic b l) < Ppr (apic b j) \/ Ppr (apic b l) = Ppr (apic b j) /\ (l <= j)%nat
  end.

Lemma send_loop_lowest n i b l : mode = MODE_LOWEST -> lowest_below b i l ->
  exists l', loop n i b l = (b, l') /\ lowest_below b (i + n) l'.
Proof.
  intros Hm. unfold loop. revert i l. induction n as [|n IH]; intros i l Hl; [exists l; by rewrite Nat.add_0_r|].
  cbn [send_loop]. rewrite Nat.add_succ_r, <- Nat.add_succ_l. fold (target (apic b i)). rewrite Hm, Z.eqb_refl.
  destruct (target (apic b i)) eqn:E; cbn [negb]; rewrite <- Hm; apply IH.
  - destruct l as [l|]; simpl in *.
    + destruct Hl as (H1 & H2 & H3). destruct (Z.ltb_spec (Ppr (apic b i)) (Ppr (apic b l))); simpl; split_and!; try done; try lia;
        intros j Hj Ht; destruct (decide (j = i)) as [->|]; try lia; specialize (H3 j ltac:(lia) Ht); lia.
    + split_and!; [lia|done|]. intros j Hj Ht. destruct (decide (j = i)) as [->|]; [lia|]. by rewrite Hl in Ht by lia.
  - destruct l as [l|]; simpl in *.
    + destruct Hl as (H1 & H2 & H3). split_and!; [lia|done|]. intros j Hj Ht.
      destruct (decide (j = i)) as [->|]; [congruence|]. apply H3; [lia|done].
    + intros j Hj. destruct (decide (j = i)) as [->|]; [done|]. apply Hl. lia.
Qed.
End Sending.

(** A message on the bus of the local APICs is received by every APIC it is
    addressed to, in order and by no other; one for the lowest priority is
    received by exactly one of them, the first whose processor priority is the
    least, and by none when it is addressed to none. *)
Theorem lapic_send_exact b source shorthand dest logical mode vector level assert :
  let target a := send_target a source shorthand dest logical in
  let recv a := Receive a mode vector level assert in
  let b' := Send b source shorthand dest logical mode vector level assert in
  (mode <> MODE_LOWEST ->
     fApics b' = ((fun a => if target a then (recv a).1 else a) <$> fApics b) /\
     events b' = events b ++ concat ((fun a => if target a then (recv a).2 else []) <$> fApics b)) /\
  (mode = MODE_LOWEST ->
     ((forall i, ~ addressed b source shorthand dest logical i) -> b' = b) /\
     (forall i, addressed b source shorthand dest logical i ->
        (forall j, addressed b source shorthand dest logical j ->
           Ppr (apic b i) < Ppr (apic b j) \/ Ppr (apic b i) = Ppr (apic b j) /\ (i <= j)%nat) ->
        b' = receive_at b i mode vector level assert)).
Proof.
  intros target recv b'. unfold b', Send. split; intros Hm.
  - pose proof (send_loop_fixed source shorthand dest logical mode vector level assert
      (length (fApics b)) [] (fApics b) (events b) Hm eq_refl) as E. simpl in E.
    replace (mkBus (fApics b) (events b)) with b in E by (by destruct b). rewrite E. done.
  - destruct (send_loop_lowest source shorthand dest logical mode vector level assert
      (length (fApics b)) 0 b None Hm) as (l & -> & Hl); [simpl; intros; lia|]. simpl in Hl. split.
    + intros Hn. destruct l as [l|]; [|done]. destruct Hl as (H1 & H2 & _). by destruct (Hn l).
    + intros i [Hi Ht] Hmin. destruct l as [l|]; simpl in Hl.
      * destruct Hl as (H1 & H2 & H3). f_equal. specialize (Hmin l (conj H1 H2)). specialize (H3 i Hi Ht). lia.
      * by rewrite Hl in Ht.
Qed.
