(* ===== verification/Clint.v ===== *)
(** The core-local interruptor: [src/device/timer/clint.h], [clint.cpp].

    The host's side of [ClintHost] is kept beside the fields: [mtime], the lines
    [SetClintIrq] drives, and the deadlines [ClintTimerChanged] was given.  The
    theorem shows that the timer line is never up before its time, and is up from
    then on once the timers are run. *)

From stdpp Require Import base numbers list.
From S2P Require Import Prelude Bits.
Local Open Scope Z_scope.

Definition CLINT_MSIP_BASE : Z := 0x0000.
Definition CLINT_MTIMECMP_BASE : Z := 0x4000.
Definition CLINT_MTIME : Z := 0xbff8.

Record Clint := mkClint {
  fHartCount : nat; fTimecmp : list Z; fSoftIrq : list bool; fTimerIrq : list bool;
  mtime : Z; soft_line : list bool; timer_line : list bool; deadlines : list Z;
}.
#[export] Instance eta_Clint : Eta Clint := fun c =>
  mkClint (fHartCount c) (fTimecmp c) (fSoftIrq c) (fTimerIrq c) (mtime c) (soft_line c) (timer_line c) (deadlines c).

Definition clint_init (n : nat) (time : Z) : Clint :=
  mkClint n (replicate n 0) (replicate n false) (replicate n false) time (replicate n false) (replicate n false) [].

Definition SetIrq (c : Clint) (hart : Z) (timer level : bool) : Clint :=
  if timer
  then c <| fTimerIrq := arr_set (fTimerIrq c) hart level |> <| timer_line := arr_set (timer_line c) hart level |>
  else c <| fSoftIrq := arr_set (fSoftIrq c) hart level |> <| soft_line := arr_set (soft_line c) hart level |>.

Definition RunTimer (c : Clint) (hart now : Z) : Clint * Z :=
  if arr_get false (fTimerIrq c) hart then (c, 2 ^ 64 - 1)
  else if arr_get 0 (fTimecmp c) hart <=? now then (SetIrq c hart true true, 2 ^ 64 - 1)
  else (c, arr_get 0 (fTimecmp c) hart).

Definition hart_count (c : Clint) : Z := Z.of_nat (fHartCount c).

Definition MswiRead (c : Clint) (offset : Z) : Z :=
  let hart := offset / 4 in if hart <? hart_count c then Z_of_bool (arr_get false (fSoftIrq c) hart) else 0.

Definition MswiWrite (c : Clint) (offset val : Z) : Clint :=
  let hart := offset / 4 in if hart <? hart_count c then SetIrq c hart false (nz (Z.land val 1)) else c.

Definition MtimerRead (c : Clint) (offset : Z) : Z :=
  let offset := u32 (offset + CLINT_MTIMECMP_BASE) in
  if offset =? CLINT_MTIME then mtime c
  else
    let hart := u32 (offset - CLINT_MTIMECMP_BASE) / 8 in
    if hart <? hart_count c then arr_get 0 (fTimecmp c) hart else 0.

Definition MtimerWrite (c : Clint) (offset val : Z) : Clint :=
  let offset := u32 (offset + CLINT_MTIMECMP_BASE) in
  if offset =? CLINT_MTIME then
    (for_each (fHartCount c) 0 (fun hart c => SetIrq c hart true false) c) <| mtime := val |>
  else
    let hart := u32 (offset - CLINT_MTIMECMP_BASE) / 8 in
    if hart_count c <=? hart then c
    else
      let c := c <| fTimecmp := arr_set (fTimecmp c) hart val |> in
      let c := SetIrq c hart true false in
      c <| deadlines := deadlines c ++ [val] |>.

(** * The CLINT as a transition system *)

Inductive clint_op :=
| CMswi (offset val : Z)
| CMtimer (offset val : Z)
| CRun (hart : Z)
| CTick (time : Z).

(** The counter runs on, and its timers are run for the harts there are. *)
Definition clint_op_ok (c : Clint) (o : clint_op) : Prop :=
  match o with
  | CMswi offset _ => 0 <= offset < 0x4000
  | CMtimer offset val => 0 <= offset < 0xc000
  | CRun hart => 0 <= hart < hart_count c
  | CTick time => mtime c <= time
  end.

Definition clint_step (c : Clint) (o : clint_op) : Clint :=
  match o with
  | CMswi offset val => MswiWrite c offset val
  | CMtimer offset val => MtimerWrite c offset val
  | CRun hart => (RunTimer c hart (mtime c)).1
  | CTick time => c <| mtime := time |>
  end.

Inductive clint_reach (n : nat) (t0 : Z) : Clint -> Prop :=
| clint_start : clint_reach n t0 (clint_init n t0)
| clint_next c o : clint_reach n t0 c -> clint_op_ok c o -> clint_reach n t0 (clint_step c o).

(** * The invariant *)

Record clint_wf (c : Clint) : Prop := {
  wf_timecmp : length (fTimecmp c) = fHartCount c;
  wf_timer : length (fTimerIrq c) = fHartCount c;
  wf_soft : length (fSoftIrq c) = fHartCount c;
  wf_timer_line : timer_line c = fTimerIrq c;
  wf_soft_line : soft_line c = fSoftIrq c;
  wf_due : forall h, 0 <= h < hart_count c -> arr_get false (fTimerIrq c) h = true ->
    arr_get 0 (fTimecmp c) h <= mtime c;
}.

Lemma SetIrq_wf c hart timer level : clint_wf c -> 0 <= hart < hart_count c ->
  (timer = true -> level = true -> arr_get 0 (fTimecmp c) hart <= mtime c) -> clint_wf (SetIrq c hart timer level).
Proof.
  intros [] Hh Hd. unfold SetIrq, hart_count in *. destruct timer; constructor; simpl; rewrite ?length_arr_set; try done; try congruence.
  intros h Hr. rewrite arr_get_set by (simpl in *; lia). destruct (Z.eqb_spec h hart) as [->|]; [by intros ->; apply Hd|].
  by apply wf_due0.
Qed.

Lemma SetIrq_frame c hart timer level : fHartCount (SetIrq c hart timer level) = fHartCount c /\
  fTimecmp (SetIrq c hart timer level) = fTimecmp c /\ mtime (SetIrq c hart timer level) = mtime c.
Proof. by destruct timer. Qed.

Lemma clear_all c : clint_wf c ->
  let c' := for_each (fHartCount c) 0 (fun hart c => SetIrq c hart true false) c in
  clint_wf c' /\ fHartCount c' = fHartCount c /\ fTimecmp c' = fTimecmp c /\
  forall h, 0 <= h < hart_count c -> arr_get false (fTimerIrq c') h = false.
Proof.
  intros Hc. pose proof (for_each_ind (fun j c' => clint_wf c' /\ fHartCount c' = fHartCount c /\ fTimecmp c' = fTimecmp c /\
    forall h, 0 <= h < j -> arr_get false (fTimerIrq c') h = false) (fHartCount c) 0
    (fun hart c => SetIrq c hart true false) c) as H. cbv beta in H. apply H; clear H.
  - intros j t Hj (Ht & En & Ec & Hz). destruct (SetIrq_frame t j true false) as (E1 & E2 & _).
    split_and!; [apply SetIrq_wf; [done|unfold hart_count; lia|done]|congruence|congruence|].
    intros h Hh. simpl. pose proof (wf_timer t Ht). rewrite arr_get_set by lia.
    destruct (Z.eqb_spec h j); [done|]. apply Hz. lia.
  - split_and!; try done. intros; lia.
Qed.

Lemma clint_step_wf c o : clint_wf c -> clint_op_ok c o -> clint_wf (clint_step c o).
Proof.
  intros Hc Ho. destruct o as [off v|off v|h|t]; simpl in *.
  - unfold MswiWrite. cbv zeta. destruct (Z.ltb_spec (off / 4) (hart_count c)); [|done].
    apply SetIrq_wf; [done| |done]. split; [|done]. apply Z.div_pos; lia.
  - unfold MtimerWrite. cbv zeta. unfold CLINT_MTIMECMP_BASE, CLINT_MTIME, u32.
    rewrite (uw_small 32 (off + _)) by (unfold inw; lia).
    destruct (Z.eqb_spec (off + 0x4000) 0xbff8).
    + destruct (clear_all c Hc) as (Hw & En & _ & Hz). set (c' := for_each _ _ _ _) in *. clearbody c'.
      destruct Hw. constructor; try done. simpl. intros h Hh. rewrite Hz by (unfold hart_count in *; simpl in *; lia). done.
    + rewrite uw_small by (unfold inw; lia). rewrite Z.add_simpl_r.
      destruct (Z.leb_spec (hart_count c) (off / 8)); [done|]. assert (0 <= off / 8) by (apply Z.div_pos; lia).
      destruct Hc. unfold hart_count in *. constructor; simpl; rewrite ?length_arr_set; try done; try congruence.
      intros h Hh. rewrite !arr_get_set by (simpl in *; lia). destruct (h =? off / 8); [done|]. by apply wf_due0.
  - unfold RunTimer. destruct (arr_get false _ h); [done|].
    destruct (Z.leb_spec (arr_get 0 (fTimecmp c) h) (mtime c)); [|done]. by apply SetIrq_wf.
  - destruct Hc. constructor; try done. simpl. intros h Hh Hi. specialize (wf_due0 h Hh Hi). lia.
Qed.

Lemma clint_reach_wf n t0 c : clint_reach n t0 c -> clint_wf c.
Proof.
  induction 1 as [|c o _ IH Ho]; [|by apply clint_step_wf].
  constructor; simpl; rewrite ?length_replicate; try done. intros h Hh. unfold arr_get.
  rewrite nth_lookup, lookup_replicate_2; [done|]. unfold hart_count in Hh. simpl in Hh. lia.
Qed.

(** The timer interrupt line of a hart is never up before the counter reaches
    the hart's compare register, whatever is written to either; and once the
    hart's timer is run it is up exactly from that moment on, the answer being
    the moment while it lies ahead.  The lines driven into the harts are the
    levels the registers show. *)
Theorem clint_timer n t0 c h : clint_reach n t0 c -> 0 <= h < hart_count c ->
  (arr_get false (timer_line c) h = true -> arr_get 0 (fTimecmp c) h <= mtime c) /\
  soft_line c = fSoftIrq c /\
  let '(c', d) := RunTimer c h (mtime c) in
  (arr_get false (timer_line c') h = true <-> arr_get 0 (fTimecmp c) h <= mtime c) /\
  (mtime c < arr_get 0 (fTimecmp c) h -> c' = c /\ d = arr_get 0 (fTimecmp c) h) /\
  (arr_get 0 (fTimecmp c) h <= mtime c -> d = 2 ^ 64 - 1) /\
  (forall h', 0 <= h' -> h' <> h -> arr_get false (timer_line c') h' = arr_get false (timer_line c) h').
Proof.
  intros Hr Hh. destruct (clint_reach_wf n t0 c Hr). unfold hart_count in *. rewrite wf_timer_line0.
  split; [by apply wf_due0|]. split; [done|]. unfold RunTimer.
  destruct (arr_get false (fTimerIrq c) h) eqn:E.
  - pose proof (wf_due0 h Hh E). rewrite wf_timer_line0. split_and!; try done; lia.
  - destruct (Z.leb_spec (arr_get 0 (fTimecmp c) h) (mtime c)); simpl; rewrite wf_timer_line0.
    + rewrite arr_get_set, Z.eqb_refl by lia. split_and!; try done; try lia.
      intros h' H0 H1. apply arr_get_set_ne; [lia|done|done].
    + rewrite E. split_and!; try done; try lia.
Qed.

(** Hart 1 of two, with its compare register at 50. *)
Lemma clint_timer_witness : let c := foldl clint_step (clint_init 2 40) [CMtimer 8 50; CTick 60] in
  arr_get false (timer_line (RunTimer c 1 (mtime c)).1) 1 = true /\
  (arr_get false (timer_line (RunTimer c 1 (mtime c)).1) 1 = true <-> arr_get 0 (fTimecmp c) 1 <= mtime c).
Proof.
  intros c. split; [reflexivity|].
  assert (clint_reach 2 40 c) as Hr.
  { apply (clint_next 2 40 (clint_step (clint_init 2 40) (CMtimer 8 50)) (CTick 60));
      [apply (clint_next 2 40 _ (CMtimer 8 50)); [apply clint_start|]|]; simpl; lia. }
  assert (0 <= 1 < hart_count c) as Hh by (vm_compute; split; congruence).
  destruct (clint_timer 2 40 c 1 Hr Hh) as (_ & _ & H). destruct (RunTimer c 1 (mtime c)) as [c' d]. apply H.
Defined.
