(* ===== verification/Resource.v ===== *)
(** The allocator of address ranges and interrupt lines, [core/resource.h] and
    [core/resource.cpp].  [fEntries] is the list of the [fCount] entries in use;
    messages are left out. *)

From Stdlib Require Import Sorted.
From stdpp Require Import base numbers list strings.
From S2P Require Import Prelude.
Local Open Scope Z_scope.

Definition ALLOCATOR_MAX_ENTRIES : Z := 128.

Inductive ResourceTypeEnum := RES_NONE | RES_MMIO | RES_IO | RES_IRQ | RES_MDIO_ADDR | RES_I2C_ADDR.

Record Resource := mkResource {
  r_type : ResourceTypeEnum; r_name : option string; r_base : Z; r_size : Z; r_align : Z;
  r_fixed : bool; r_high : bool; r_assigned : bool }.
Definition End_ (r : Resource) : Z := u64 (r_base r + r_size r).

Record AllocEntry := mkEntry { e_base : Z; e_size : Z; e_owner : string }.

Record RangeAllocator := mkAlloc {
  fWindowBase : Z; fWindowSize : Z; fHighBase : Z; fHighSize : Z; fEntries : list AllocEntry }.
Definition fCount (a : RangeAllocator) : Z := Z.of_nat (length (fEntries a)).

Definition RangeAllocator_new : RangeAllocator := mkAlloc 0 0 0 0 [].
Definition SetWindow (a : RangeAllocator) (base size : Z) : RangeAllocator :=
  mkAlloc base size (fHighBase a) (fHighSize a) (fEntries a).
Definition SetHighWindow (a : RangeAllocator) (base size : Z) : RangeAllocator :=
  mkAlloc (fWindowBase a) (fWindowSize a) base size (fEntries a).
Definition set_entries (a : RangeAllocator) (l : list AllocEntry) : RangeAllocator :=
  mkAlloc (fWindowBase a) (fWindowSize a) (fHighBase a) (fHighSize a) l.

Fixpoint insert_index (l : list AllocEntry) (base : Z) : nat :=
  match l with
  | e :: l => if e_base e <? base then S (insert_index l base) else O
  | [] => O
  end.
Definition InsertIndex (a : RangeAllocator) (base : Z) : nat := insert_index (fEntries a) base.

Definition overlaps (base size : Z) (e : AllocEntry) : bool :=
  (base <? u64 (e_base e + e_size e)) && (e_base e <? u64 (base + size)).
Definition FindOverlap (a : RangeAllocator) (base size : Z) : option AllocEntry :=
  if size =? 0 then None else snd <$> list_find (fun e => overlaps base size e = true) (fEntries a).

Definition Insert (a : RangeAllocator) (index : nat) (base size : Z) (owner : string) : bool * RangeAllocator :=
  if ALLOCATOR_MAX_ENTRIES <=? fCount a then (false, a)
  else (true, set_entries a (take index (fEntries a) ++ [mkEntry base size owner] ++ drop index (fEntries a))).

Definition Claim (a : RangeAllocator) (base size : Z) (owner : string) : bool * RangeAllocator :=
  if size =? 0 then (true, a)
  else match FindOverlap a base size with
  | Some _ => (false, a)
  | None => Insert a (InsertIndex a base) base size owner
  end.

(** [(x + align - 1) & ~(align - 1)] *)
Definition align_up (align x : Z) : Z := Z.land (u64 (x + align - 1)) (u64 (Z.lnot (align - 1))).

(** The walk over the entries from the [i]th on: the candidate it stops at. *)
Fixpoint alloc_walk (align size window_end : Z) (l : list AllocEntry) (candidate : Z) : option Z :=
  let gap_end := match l with e :: _ => e_base e | [] => window_end end in
  let gap_end := if window_end <? gap_end then window_end else gap_end in
  if u64 (candidate + size) <=? gap_end then Some candidate
  else match l with
  | e :: l =>
    let next := u64 (e_base e + e_size e) in
    alloc_walk align size window_end l (if candidate <? next then align_up align next else candidate)
  | [] => None
  end.

(** The base is [None] where the code leaves [*base_out] alone. *)
Definition Alloc (a : RangeAllocator) (size align : Z) (owner : string) (high : bool) : bool * option Z * RangeAllocator :=
  let window_base := if high then fHighBase a else fWindowBase a in
  let window_size := if high then fHighSize a else fWindowSize a in
  if size =? 0 then (true, Some 0, a)
  else
    let align := if align =? 0 then size else align in
    let candidate := align_up align window_base in
    let window_end := u64 (window_base + window_size) in
    match alloc_walk align size window_end (fEntries a) candidate with
    | Some c =>
      let '(ok, a') := Insert a (InsertIndex a c) c size owner in
      if ok then (true, Some c, a') else (false, None, a')
    | None => (false, None, a)
    end.

Definition Assign (a : RangeAllocator) (res : Resource) (owner : string) : bool * Resource * RangeAllocator :=
  let owner := default owner (r_name res) in
  if r_fixed res then
    let '(ok, a) := Claim a (r_base res) (r_size res) owner in
    if ok then (true, mkResource (r_type res) (r_name res) (r_base res) (r_size res) (r_align res) (r_fixed res) (r_high res) true, a)
    else (false, res, a)
  else
    let '(ok, base, a) := Alloc a (r_size res) (r_align res) owner (r_high res) in
    let res := mkResource (r_type res) (r_name res) (default (r_base res) base) (r_size res) (r_align res) (r_fixed res) (r_high res) (r_assigned res) in
    if ok then (true, mkResource (r_type res) (r_name res) (r_base res) (r_size res) (r_align res) (r_fixed res) (r_high res) true, a)
    else (false, res, a).

(** * The invariant: sorted and disjoint *)

Definition e_end (e : AllocEntry) : Z := e_base e + e_size e.
Definition LIMIT : Z := 2 ^ 62.
Definition entry_ok (e : AllocEntry) : Prop := 0 <= e_base e /\ 0 < e_size e /\ e_end e <= LIMIT.
Definition before (e f : AllocEntry) : Prop := e_end e <= e_base f.
Definition ranges_ok (l : list AllocEntry) : Prop := Forall entry_ok l /\ StronglySorted before l.
Definition alloc_ok (a : RangeAllocator) : Prop := ranges_ok (fEntries a) /\ fCount a <= ALLOCATOR_MAX_ENTRIES.

(** [size] cells at [c] touch no entry of [l]. *)
Definition free (l : list AllocEntry) (c size : Z) : Prop := Forall (fun e => c + size <= e_base e \/ e_end e <= c) l.

(** * Lemmas *)

Lemma u64_small x : 0 <= x < 2 ^ 64 -> u64 x = x.
Proof. apply Z.mod_small. Qed.

Lemma align_up_value k x : 0 <= k <= 62 -> 0 <= x <= 2 ^ 63 -> align_up (2 ^ k) x = (x + 2 ^ k - 1) / 2 ^ k * 2 ^ k.
Proof.
  intros Hk Hx. pose proof (Z.pow_le_mono_r 2 k 62 ltac:(lia) ltac:(lia)). pose proof (Z.pow_pos_nonneg 2 k ltac:(lia) ltac:(lia)).
  unfold align_up. rewrite u64_small by lia. set (y := x + 2 ^ k - 1). assert (Hy : inw 64 y) by (unfold inw; lia).
  replace (2 ^ k - 1) with (Z.ones k) by (rewrite Z.ones_equiv; lia).
  transitivity (Z.ldiff y (Z.ones k)); [|by rewrite Z.ldiff_ones_r, Z.shiftl_mul_pow2, Z.shiftr_div_pow2 by lia].
  bits_at i Hi. unfold u64. rewrite Z.land_spec, uw_testbit, Z.lnot_spec, Z.ldiff_spec by lia. destruct (Z.ltb_spec i 64); [done|].
  by rewrite (inw_high 64 y) by (done || lia).
Qed.

Lemma align_up_spec k x : 0 <= k <= 62 -> 0 <= x <= 2 ^ 63 ->
  let r := align_up (2 ^ k) x in (2 ^ k | r) /\ x <= r < x + 2 ^ k /\ forall c, (2 ^ k | c) -> x <= c -> r <= c.
Proof.
  intros Hk Hx. cbv zeta. rewrite align_up_value by done. pose proof (Z.pow_pos_nonneg 2 k ltac:(lia) ltac:(lia)) as Hp. set (a := 2 ^ k) in *. clearbody a.
  pose proof (Z.div_mod (x + a - 1) a ltac:(lia)) as Hd. pose proof (Z.mod_pos_bound (x + a - 1) a Hp) as Hm. split_and!; [apply Z.divide_factor_r|nia|nia|].
  intros c [q ->] Hc. apply Z.mul_le_mono_nonneg_r; [lia|]. assert (Hq : (x + a - 1) / a < q + 1); [|lia]. apply Z.div_lt_upper_bound; nia.
Qed.

Lemma find_overlap_none a base size : Forall entry_ok (fEntries a) -> 0 < size -> 0 <= base -> base + size <= LIMIT ->
  FindOverlap a base size = None <-> free (fEntries a) base size.
Proof.
  intros Hok Hs Hb Hl. unfold FindOverlap. rewrite (proj2 (Z.eqb_neq size 0)) by lia. rewrite fmap_None, list_find_None. unfold free.
  rewrite !Forall_forall in *. split; intros H e He; specialize (H e He); pose proof (Hok e He) as (H0 & H1 & H2); unfold overlaps, e_end, LIMIT in *;
    rewrite !u64_small in * by lia; rewrite andb_true_iff, !Z.ltb_lt in *; lia.
Qed.

Lemma insert_ranges l c size owner : ranges_ok l -> 0 <= c -> 0 < size -> c + size <= LIMIT -> free l c size ->
  ranges_ok (take (insert_index l c) l ++ [mkEntry c size owner] ++ drop (insert_index l c) l).
Proof.
  intros [Hok Hs] Hc Hsz Hl Hf. split.
  - rewrite !Forall_app. split_and!; [by apply Forall_take|by repeat constructor|by apply Forall_drop].
  - induction l as [|e l IH]; [by repeat constructor|]. inversion Hok as [|?? He Hoks]; subst. inversion Hs as [|?? Hss He']; subst. inversion Hf as [|?? Hef Hfs]; subst.
    destruct He as (H0 & H1 & H2). cbn [insert_index]. destruct (Z.ltb_spec (e_base e) c) as [Hlt|Hge].
    + cbn [take drop app]. constructor; [by apply IH|]. rewrite Forall_app, Forall_cons. split; [by apply Forall_take|split; [|by apply Forall_drop]].
      unfold before, e_end in *. cbn. lia.
    + cbn [take drop app]. constructor; [done|]. assert (Hbe : c + size <= e_base e) by (unfold e_end in *; lia).
      constructor; [done|]. eapply Forall_impl; [exact He'|]. intros f Hfb. unfold before, e_end in *. cbn in *. lia.
Qed.

(** [size] cells at [c]: aligned, inside the window, free. *)
Definition place (l : list AllocEntry) (k wb we size c : Z) : Prop :=
  (2 ^ k | c) /\ wb <= c /\ c + size <= we /\ free l c size.

Lemma walk_ok k size we : 0 <= k <= 62 -> 0 < size <= LIMIT -> we <= LIMIT -> forall l cand, ranges_ok l -> (2 ^ k | cand) -> 0 <= cand <= 2 ^ 63 ->
  match alloc_walk (2 ^ k) size we l cand with
  | Some c => place l k cand we size c /\ forall c', place l k cand we size c' -> c <= c'
  | None => forall c', ~ place l k cand we size c'
  end.
Proof.
  intros Hk Hs Hwe. unfold LIMIT in *. induction l as [|e l IH]; intros cand [Hok Hso] Ha Hc; cbn [alloc_walk]; rewrite u64_small by lia.
  - rewrite Z.ltb_irrefl. destruct (Z.leb_spec (cand + size) we).
    + split; [split_and!; [done|lia|done|by constructor]|]. intros c' (_ & ? & _). done.
    + intros c' (_ & ? & ? & _). lia.
  - inversion Hok as [|?? He Hoks]; subst. inversion Hso as [|?? Hss Hbe]; subst. destruct He as (H0 & H1 & H2). unfold LIMIT, e_end in H2.
    rewrite u64_small by lia. destruct (Z.leb_spec (cand + size) (if we <? e_base e then we else e_base e)) as [Hle|Hgt].
    + assert (cand + size <= e_base e /\ cand + size <= we) as [Hb Hw] by (destruct (Z.ltb_spec we (e_base e)); lia).
      split; [|by intros c' (_ & ? & _)]. split_and!; [done|lia|done|]. constructor; [by left|]. eapply Forall_impl; [exact Hbe|].
      intros f Hf. unfold before, e_end in *. left. lia.
    + assert (Hskip : forall c', place (e :: l) k cand we size c' -> e_end e <= c').
      { intros c' (_ & Hc' & Hw & Hf). inversion Hf as [|?? [?|?] _]; subst; [|done]. destruct (Z.ltb_spec we (e_base e)); lia. }
      set (cand' := if cand <? e_base e + e_size e then align_up (2 ^ k) (e_base e + e_size e) else cand).
      destruct (align_up_spec k (e_base e + e_size e) Hk ltac:(lia)) as (Hal & Hr & Hmin). pose proof (Z.pow_le_mono_r 2 k 62 ltac:(lia) ltac:(lia)).
      assert (Hcand' : (2 ^ k | cand') /\ 0 <= cand' <= 2 ^ 63 /\ cand <= cand' /\ e_end e <= cand' /\ (forall c', place (e :: l) k cand we size c' -> cand' <= c')).
      { unfold cand', e_end. destruct (Z.ltb_spec cand (e_base e + e_size e)); (split_and!; [done|lia..|]); intros c' Hp; [|by destruct Hp as (_ & ? & _)].
        apply Hmin; [apply Hp|by apply Hskip]. }
      clearbody cand'. destruct Hcand' as (Ha' & Hb' & Hge & Hend & Hall). specialize (IH cand' (conj Hoks Hss) Ha' Hb').
      assert (Hsub : forall c', place (e :: l) k cand we size c' <-> place l k cand' we size c').
      { intros c'. split; intros Hp; pose proof Hp as (? & ? & ? & Hf).
        - split_and!; [done|by apply Hall|done|by inversion Hf].
        - split_and!; [done|lia|done|]. constructor; [right; lia|done]. }
      destruct (alloc_walk (2 ^ k) size we l cand') as [c|].
      * destruct IH as [Hp Hlow]. split; [by apply Hsub|]. intros c' Hc'. by apply Hlow, Hsub.
      * intros c' Hc'. by eapply IH, Hsub.
Qed.

Lemma Insert_ok a c size owner : alloc_ok a -> 0 <= c -> 0 < size -> c + size <= LIMIT -> free (fEntries a) c size ->
  let '(ok, a') := Insert a (InsertIndex a c) c size owner in
  alloc_ok a' /\ (ok = true -> fEntries a' ≡ₚ mkEntry c size owner :: fEntries a) /\ (ok = false -> a' = a /\ fCount a = ALLOCATOR_MAX_ENTRIES).
Proof.
  intros [Hr Hn] Hc Hs Hl Hf. unfold Insert. destruct (Z.leb_spec ALLOCATOR_MAX_ENTRIES (fCount a)) as [Hge|Hlt].
  - split_and!; [done|done|]. intros _. split; [done|lia].
  - set (l' := take _ _ ++ _). assert (Hp : l' ≡ₚ mkEntry c size owner :: fEntries a).
    { unfold l'. cbn [app]. by rewrite <- Permutation_middle, take_drop. }
    split; [|by split]. split; [by apply insert_ranges|]. unfold fCount in *. cbn [fEntries set_entries]. rewrite Hp. cbn [length]. lia.
Qed.

Definition fits_limits (a : RangeAllocator) : Prop :=
  0 <= fWindowBase a /\ 0 <= fWindowSize a /\ fWindowBase a + fWindowSize a <= LIMIT /\
  0 <= fHighBase a /\ 0 <= fHighSize a /\ fHighBase a + fHighSize a <= LIMIT.
Definition window (a : RangeAllocator) (high : bool) : Z * Z :=
  if high then (fHighBase a, fHighBase a + fHighSize a) else (fWindowBase a, fWindowBase a + fWindowSize a).

Lemma Alloc_ok a size align owner high k : alloc_ok a -> fits_limits a -> 0 < size <= LIMIT -> 0 <= k <= 62 -> (if align =? 0 then size else align) = 2 ^ k ->
  let '(wb, we) := window a high in
  let '(ok, base, a') := Alloc a size align owner high in
  alloc_ok a' /\
  (ok = true -> exists c, base = Some c /\ place (fEntries a) k wb we size c /\ (forall c', place (fEntries a) k wb we size c' -> c <= c') /\
    fEntries a' ≡ₚ mkEntry c size owner :: fEntries a) /\
  (ok = false -> base = None /\ a' = a /\ (fCount a = ALLOCATOR_MAX_ENTRIES \/ forall c, ~ place (fEntries a) k wb we size c)).
Proof.
  intros Hok Hw Hs Hk Hal. destruct Hw as (W1 & W2 & W3 & W4 & W5 & W6). unfold Alloc. rewrite (proj2 (Z.eqb_neq size 0)), Hal by lia.
  destruct (window a high) as [wb we] eqn:Ew. assert (0 <= wb <= we /\ we <= LIMIT /\ (if high then fHighBase a else fWindowBase a) = wb /\
    u64 ((if high then fHighBase a else fWindowBase a) + (if high then fHighSize a else fWindowSize a)) = we) as (Hwb & Hwe & -> & ->).
  { unfold window in Ew. destruct high; injection Ew as <- <-; rewrite u64_small by (unfold LIMIT in *; lia); lia. }
  destruct (align_up_spec k wb Hk ltac:(unfold LIMIT in *; lia)) as (Ha & Hr & Hmin). pose proof (Z.pow_le_mono_r 2 k 62 ltac:(lia) ltac:(lia)).
  set (c0 := align_up (2 ^ k) wb) in *. clearbody c0. destruct Hok as [Hro Hn].
  pose proof (walk_ok k size we Hk Hs Hwe (fEntries a) c0 Hro Ha ltac:(unfold LIMIT in *; lia)) as Hwalk.
  assert (Hsame : forall c, place (fEntries a) k wb we size c <-> place (fEntries a) k c0 we size c).
  { intros c. split; intros (H1 & H2 & H3 & H4); (split_and!; [done| |done..]); [by apply Hmin|lia]. }
  destruct (alloc_walk (2 ^ k) size we (fEntries a) c0) as [c|].
  - destruct Hwalk as [Hp Hlow]. pose proof Hp as (_ & Hc & Hcw & Hf).
    pose proof (Insert_ok a c size owner (conj Hro Hn) ltac:(lia) ltac:(lia) ltac:(lia) Hf) as Hi.
    destruct (Insert a (InsertIndex a c) c size owner) as [ok a']. destruct Hi as (Hok' & Ht & Hfalse). destruct ok.
    + split_and!; [done| |done]. intros _. exists c. split_and!; [done|by apply Hsame| |by apply Ht]. intros c' Hc'. by apply Hlow, Hsame.
    + destruct (Hfalse eq_refl) as [-> Hfull]. split_and!; [done..|]. intros _. split_and!; [done|done|by left].
  - split_and!; [done..|]. intros _. split_and!; [done|done|]. right. intros c Hc. by eapply Hwalk, Hsame.
Qed.

Lemma Claim_ok a base size owner : alloc_ok a -> 0 <= base -> 0 < size -> base + size <= LIMIT ->
  let '(ok, a') := Claim a base size owner in
  alloc_ok a' /\ (ok = true -> free (fEntries a) base size /\ fEntries a' ≡ₚ mkEntry base size owner :: fEntries a) /\
  (ok = false -> a' = a /\ (fCount a = ALLOCATOR_MAX_ENTRIES \/ ~ free (fEntries a) base size)).
Proof.
  intros Hok Hb Hs Hl. unfold Claim. rewrite (proj2 (Z.eqb_neq size 0)) by lia.
  pose proof (find_overlap_none a base size (proj1 (proj1 Hok)) Hs Hb Hl) as Hf. destruct (FindOverlap a base size) as [e|].
  - split_and!; [done|done|]. intros _. split; [done|]. right. intros Hfree. by apply Hf in Hfree.
  - assert (Hfree : free (fEntries a) base size) by (by apply Hf). pose proof (Insert_ok a base size owner Hok Hb Hs Hl Hfree) as Hi.
    destruct (Insert a (InsertIndex a base) base size owner) as [ok a']. destruct Hi as (Hok' & Ht & Hfalse).
    split; [done|]. split; intros ->; [split; [done|by apply Ht]|]. destruct (Hfalse eq_refl) as [-> ?]. split; [done|by left].
Qed.


