(* ===== verification/Fdt.v ===== *)
(** The flattened device tree builder, [core/fdt.h] and [core/fdt.cpp].

    The tables are their bytes in memory, on a little endian host; a table's
    growth is left out.  A [const char *] is the characters before its zero. *)

From stdpp Require Import base numbers list.
From S2P Require Import Prelude Cutils Bytes.
Local Open Scope Z_scope.

Definition FDT_MAX_RESERVATIONS : Z := 8.
Definition FDT_MAGIC : Z := 0xd00dfeed.
Definition FDT_VERSION : Z := 17.
Definition FDT_BEGIN_NODE : Z := 1.
Definition FDT_END_NODE : Z := 2.
Definition FDT_PROP : Z := 3.
Definition FDT_END : Z := 9.

#[projections(primitive)]
Record FDTBuilder := mkFDT {
  fTab : list Z; fOpenNodeCount : Z; fStringTable : list Z; fCells : list Z; fNextPhandle : Z;
  fReservations : list (Z * Z) }.
Definition FDTBuilder_new : FDTBuilder := mkFDT [] 0 [] [] 1 [].

Definition set_fTab (b : FDTBuilder) (t : list Z) : FDTBuilder :=
  mkFDT t (fOpenNodeCount b) (fStringTable b) (fCells b) (fNextPhandle b) (fReservations b).
Definition set_open (b : FDTBuilder) (n : Z) : FDTBuilder :=
  mkFDT (fTab b) n (fStringTable b) (fCells b) (fNextPhandle b) (fReservations b).
Definition set_strings (b : FDTBuilder) (t : list Z) : FDTBuilder :=
  mkFDT (fTab b) (fOpenNodeCount b) t (fCells b) (fNextPhandle b) (fReservations b).
Definition set_cells (b : FDTBuilder) (c : list Z) : FDTBuilder :=
  mkFDT (fTab b) (fOpenNodeCount b) (fStringTable b) c (fNextPhandle b) (fReservations b).

Definition AllocPhandle (b : FDTBuilder) : Z * FDTBuilder :=
  (fNextPhandle b, mkFDT (fTab b) (fOpenNodeCount b) (fStringTable b) (fCells b) (u32 (fNextPhandle b + 1)) (fReservations b)).

Definition Put32 (b : FDTBuilder) (v : Z) : FDTBuilder := set_fTab b (fTab b ++ put_le32 (cpu_to_be32 (u32 v))).
Definition PutData (b : FDTBuilder) (data : list Z) : FDTBuilder :=
  let len := Z.of_nat (length data) in
  set_fTab b (fTab b ++ data ++ replicate (Z.to_nat (Z.land (- len) 3)) 0).

Definition AddReservation (b : FDTBuilder) (address size : Z) : FDTBuilder :=
  if size =? 0 then b
  else if FDT_MAX_RESERVATIONS <=? Z.of_nat (length (fReservations b)) then b
  else mkFDT (fTab b) (fOpenNodeCount b) (fStringTable b) (fCells b) (fNextPhandle b) (fReservations b ++ [(address, size)]).

Definition BeginNode (b : FDTBuilder) (name : list Z) : FDTBuilder :=
  let b := Put32 b FDT_BEGIN_NODE in
  let b := PutData b (name ++ [0]) in
  set_open b (fOpenNodeCount b + 1).

(** [%x] *)
Definition hex_digit (d : Z) : Z := if d <? 10 then 48 + d else 87 + d.
Fixpoint hex_digits (fuel : nat) (n : Z) (acc : list Z) : list Z :=
  match fuel with
  | O => acc
  | S fuel => let acc := hex_digit (n mod 16) :: acc in if n / 16 =? 0 then acc else hex_digits fuel (n / 16) acc
  end.
Definition BeginNodeNum (b : FDTBuilder) (name : list Z) (n : Z) : FDTBuilder :=
  BeginNode b (take 255 (name ++ [64] ++ hex_digits 16 n [])).

Definition EndNode (b : FDTBuilder) : FDTBuilder :=
  let b := Put32 b FDT_END_NODE in set_open b (fOpenNodeCount b - 1).

Fixpoint find_string (fuel : nat) (tab : list Z) (pos : Z) (name : list Z) : option Z :=
  if pos <? Z.of_nat (length tab) then
    if bool_decide (c_string (drop (Z.to_nat pos) tab) = name) then Some pos
    else match fuel with
    | O => None
    | S fuel => find_string fuel tab (pos + strlen (drop (Z.to_nat pos) tab) + 1) name
    end
  else None.
Definition StringOffset (b : FDTBuilder) (name : list Z) : Z * FDTBuilder :=
  match find_string (length (fStringTable b)) (fStringTable b) 0 name with
  | Some pos => (pos, b)
  | None => (Z.of_nat (length (fStringTable b)), set_strings b (fStringTable b ++ name ++ [0]))
  end.

Definition Prop_ (b : FDTBuilder) (prop_name data : list Z) : FDTBuilder :=
  let b := Put32 b FDT_PROP in
  let b := Put32 b (Z.of_nat (length data)) in
  let '(off, b) := StringOffset b prop_name in
  let b := Put32 b off in
  PutData b data.

Definition AddCellData (b : FDTBuilder) (data : list Z) : FDTBuilder := set_cells b (fCells b ++ data).
Definition AddCellU32 (b : FDTBuilder) (val : Z) : FDTBuilder := AddCellData b (put_le32 (cpu_to_be32 val)).
Definition AddCellU64 (b : FDTBuilder) (val : Z) : FDTBuilder := AddCellData b (put_le64 (cpu_to_be64 val)).
Definition AddCellString (b : FDTBuilder) (str : list Z) : FDTBuilder := AddCellData b (str ++ [0]).
Definition PropCells (b : FDTBuilder) (prop_name : list Z) : FDTBuilder := set_cells (Prop_ b prop_name (fCells b)) [].
Definition PropEmpty (b : FDTBuilder) (prop_name : list Z) : FDTBuilder := Prop_ b prop_name [].
Definition PropU32 (b : FDTBuilder) (prop_name : list Z) (val : Z) : FDTBuilder := PropCells (AddCellU32 b val) prop_name.
Definition PropU64 (b : FDTBuilder) (prop_name : list Z) (v0 : Z) : FDTBuilder := PropCells (AddCellU64 b v0) prop_name.
Definition PropU64Range (b : FDTBuilder) (prop_name : list Z) (addr size : Z) : FDTBuilder :=
  PropCells (AddCellU64 (AddCellU64 b addr) size) prop_name.
Definition PropStr (b : FDTBuilder) (prop_name str : list Z) : FDTBuilder := Prop_ b prop_name (str ++ [0]).
Definition PropStrList (b : FDTBuilder) (prop_name : list Z) (strs : list (list Z)) : FDTBuilder :=
  PropCells (foldl AddCellString b strs) prop_name.

(** [while ((pos & 7) != 0) dst[pos++] = 0;] *)
Fixpoint align8 (fuel : nat) (dst : list Z) : list Z :=
  match fuel with
  | O => dst
  | S fuel => if Z.land (Z.of_nat (length dst)) 7 =? 0 then dst else align8 fuel (dst ++ [0])
  end.

Definition be32 (v : Z) : list Z := put_le32 (cpu_to_be32 (u32 v)).
Definition be64 (v : Z) : list Z := put_le64 (cpu_to_be64 v).

(** The blob; [None] when the assertion on the open nodes fails.  The blocks are
    laid out first, then the header, whose fields need their offsets. *)
Definition Output (b : FDTBuilder) : option (list Z) :=
  if negb (fOpenNodeCount b =? 0) then None
  else
    let b := Put32 b FDT_END in
    let dt_struct_size := Z.of_nat (length (fTab b)) in
    let dt_strings_size := Z.of_nat (length (fStringTable b)) in
    let dst := replicate 40 0 in
    let dst := align8 8 dst in
    let off_mem_rsvmap := Z.of_nat (length dst) in
    let dst := dst ++ concat (map (fun '(address, size) => be64 address ++ be64 size) (fReservations b)) in
    let dst := dst ++ replicate 16 0 in
    let off_dt_struct := Z.of_nat (length dst) in
    let dst := dst ++ fTab b in
    let off_dt_strings := Z.of_nat (length dst) in
    let dst := dst ++ fStringTable b in
    let dst := align8 8 dst in
    let totalsize := Z.of_nat (length dst) in
    Some (be32 FDT_MAGIC ++ be32 totalsize ++ be32 off_dt_struct ++ be32 off_dt_strings ++ be32 off_mem_rsvmap ++
      be32 FDT_VERSION ++ be32 16 ++ be32 0 ++ be32 dt_strings_size ++ be32 dt_struct_size ++ drop 40 dst).
