(* ===== verification/FdtOk.v ===== *)
(** A reader of flattened device trees, from the Devicetree Specification
    (version 17 of the format), and that it recovers every tree written with the
    builder. *)

From stdpp Require Import base numbers list.
From S2P Require Import Prelude Cutils Bytes Fdt.
Local Open Scope Z_scope.

(** * The format *)

Module Dtb.
Inductive node := Node (name : list Z) (props : list (list Z * list Z)) (children : list node).

Definition word (l : list Z) : option (Z * list Z) :=
  match l with
  | a :: b :: c :: d :: l => Some (get_be32 [a; b; c; d], l)
  | _ => None
  end.
(** Data in the structure block is padded to four bytes. *)
Definition padded (n : nat) : nat := (4 * ((n + 3) / 4))%nat.
Definition string_at (strings : list Z) (off : Z) : list Z := c_string (drop (Z.to_nat off) strings).

Fixpoint read_props (fuel : nat) (strings l : list Z) : option (list (list Z * list Z) * list Z) :=
  match fuel, word l with
  | S fuel, Some (3, l) =>
    '(len, l) ← word l;
    '(nameoff, l) ← word l;
    let n := Z.to_nat len in
    '(ps, l') ← read_props fuel strings (drop (padded n) l);
    Some ((string_at strings nameoff, take n l) :: ps, l')
  | _, _ => Some ([], l)
  end.

(** The nodes one after the other, up to something that does not begin one. *)
Fixpoint read_nodes (fuel : nat) (strings l : list Z) : option (list node * list Z) :=
  match fuel, word l with
  | S fuel, Some (1, l) =>
    let name := c_string l in
    '(props, l) ← read_props fuel strings (drop (padded (length name + 1)) l);
    '(children, l) ← read_nodes fuel strings l;
    '(t, l) ← word l;
    if t =? 2 then '(ns, l) ← read_nodes fuel strings l; Some (Node name props children :: ns, l) else None
  | _, _ => Some ([], l)
  end.

Definition dword (l : list Z) : option (Z * list Z) :=
  '(hi, l) ← word l; '(lo, l) ← word l; Some (hi * 2 ^ 32 + lo, l).
Fixpoint read_reservations (fuel : nat) (l : list Z) : option (list (Z * Z)) :=
  match fuel with
  | O => None
  | S fuel =>
    '(address, l) ← dword l; '(size, l) ← dword l;
    if (address =? 0) && (size =? 0) then Some []
    else rs ← read_reservations fuel l; Some ((address, size) :: rs)
  end.

Definition field (blob : list Z) (k : nat) : option Z := fst <$> word (drop (4 * k) blob).

(** The reservations and the root node. *)
Definition read (blob : list Z) : option (list (Z * Z) * node) :=
  magic ← field blob 0; totalsize ← field blob 1; off_dt_struct ← field blob 2; off_dt_strings ← field blob 3;
  off_mem_rsvmap ← field blob 4; version ← field blob 5; last_comp ← field blob 6;
  size_dt_strings ← field blob 8; size_dt_struct ← field blob 9;
  if (magic =? 0xd00dfeed) && (totalsize =? Z.of_nat (length blob)) && (last_comp <=? 17) && (17 <=? version) &&
     (off_mem_rsvmap mod 8 =? 0) && (off_dt_struct mod 4 =? 0) then
    let strings := take (Z.to_nat size_dt_strings) (drop (Z.to_nat off_dt_strings) blob) in
    let struct_ := take (Z.to_nat size_dt_struct) (drop (Z.to_nat off_dt_struct) blob) in
    rs ← read_reservations (length blob) (drop (Z.to_nat off_mem_rsvmap) blob);
    '(ns, l) ← read_nodes (length struct_) strings struct_;
    '(t, l) ← word l;
    match ns, l with
    | [n], [] => if t =? 9 then Some (rs, n) else None
    | _, _ => None
    end
  else None.
End Dtb.

(** A tree, written with the builder's calls. *)
Fixpoint write_node (b : FDTBuilder) (n : Dtb.node) : FDTBuilder :=
  match n with
  | Dtb.Node name props children =>
    let b := BeginNode b name in
    let b := foldl (fun b p => Prop_ b p.1 p.2) b props in
    EndNode (foldl write_node b children)
  end.
Definition write (rs : list (Z * Z)) (n : Dtb.node) : FDTBuilder :=
  write_node (foldl (fun b r => AddReservation b r.1 r.2) FDTBuilder_new rs) n.

(** * Words in the blob *)

Lemma bswap_byte n v k j m : (0 <= k < Z.of_nat n) -> j = 8 * k -> m = 8 * (Z.of_nat n - 1 - k) ->
  u8 (Z.shiftr (builtin_bswap n v) j) = u8 (Z.shiftr v m).
Proof.
  intros Hk -> ->. unfold u8. bits_at i Hi. rewrite !uw_testbit by lia. destruct (Z.ltb_spec i 8); [|done]. cbn [andb].
  rewrite !Z.shiftr_spec, builtin_bswap_testbit by lia. rewrite (proj2 (Z.ltb_lt _ _)) by lia. cbn [andb]. f_equal.
  assert ((i + 8 * k) / 8 = k /\ (i + 8 * k) mod 8 = i) as [-> ->] by (Z.div_mod_to_equations; lia). lia.
Qed.

Lemma be32_bytes v : put_le32 (cpu_to_be32 v) = put_be32 v.
Proof.
  unfold put_le32, cpu_to_be32, bswap_32, put_be32. replace (builtin_bswap 4 v) with (Z.shiftr (builtin_bswap 4 v) 0) at 1 by apply Z.shiftr_0_r.
  replace (u8 v) with (u8 (Z.shiftr v 0)) by (by rewrite Z.shiftr_0_r).
  by rewrite (bswap_byte 4 v 0 0 24), (bswap_byte 4 v 1 8 16), (bswap_byte 4 v 2 16 8), (bswap_byte 4 v 3 24 0).
Qed.

Lemma byte_low v s : 0 <= s <= 24 -> u8 (Z.shiftr (u32 v) s) = u8 (Z.shiftr v s).
Proof.
  intros Hs. unfold u8, u32. bits_at i Hi. rewrite !uw_testbit by lia. destruct (Z.ltb_spec i 8); [|done].
  rewrite !Z.shiftr_spec, uw_testbit by lia. by rewrite (proj2 (Z.ltb_lt _ _)) by lia.
Qed.

Lemma put_le32_low v : put_le32 (u32 v) = [u8 (Z.shiftr v 0); u8 (Z.shiftr v 8); u8 (Z.shiftr v 16); u8 (Z.shiftr v 24)].
Proof. unfold put_le32. replace (u8 (u32 v)) with (u8 (Z.shiftr (u32 v) 0)) by (by rewrite Z.shiftr_0_r). by rewrite !byte_low by lia. Qed.
Lemma put_be32_low v : put_be32 (u32 v) = [u8 (Z.shiftr v 24); u8 (Z.shiftr v 16); u8 (Z.shiftr v 8); u8 (Z.shiftr v 0)].
Proof. unfold put_be32. replace (u8 (u32 v)) with (u8 (Z.shiftr (u32 v) 0)) by (by rewrite Z.shiftr_0_r). by rewrite !byte_low by lia. Qed.

Lemma be64_bytes v : be64 v = put_be32 (u32 (Z.shiftr v 32)) ++ put_be32 (u32 v).
Proof.
  unfold be64, put_le64, cpu_to_be64, bswap_64. rewrite !put_le32_low, !put_be32_low, !Z.shiftr_shiftr by lia.
  by rewrite (bswap_byte 8 v 0 0 (32 + 24)), (bswap_byte 8 v 1 8 (32 + 16)), (bswap_byte 8 v 2 16 (32 + 8)), (bswap_byte 8 v 3 24 (32 + 0)),
    (bswap_byte 8 v 4 (32 + 0) 24), (bswap_byte 8 v 5 (32 + 8) 16), (bswap_byte 8 v 6 (32 + 16) 8), (bswap_byte 8 v 7 (32 + 24) 0).
Qed.

Lemma word_be32 v l : inw 32 v -> Dtb.word (put_be32 v ++ l) = Some (v, l).
Proof. intros Hv. cbn [put_be32 app Dtb.word]. fold (put_be32 v). by rewrite get_put_be32. Qed.

Lemma be32_put v : be32 v = put_be32 (u32 v).
Proof. apply be32_bytes. Qed.

Lemma word_be32' v l : 0 <= v < 2 ^ 32 -> Dtb.word (be32 v ++ l) = Some (v, l).
Proof. intros Hv. rewrite be32_put. unfold u32. rewrite uw_small by done. by apply word_be32. Qed.

Lemma dword_be64 v l : inw 64 v -> Dtb.dword (be64 v ++ l) = Some (v, l).
Proof.
  intros Hv. rewrite be64_bytes, <- app_assoc. unfold Dtb.dword. rewrite word_be32 by (apply inw_uw; lia). cbn [mbind option_bind].
  rewrite word_be32 by (apply inw_uw; lia). cbn [mbind option_bind]. do 2 f_equal. unfold u32, uw, inw in *. rewrite Z.shiftr_div_pow2 by lia.
  rewrite (Z.mod_small (v / _)) by (split; [apply Z.div_pos; lia|apply Z.div_lt_upper_bound; lia]). pose proof (Z.div_mod v (2 ^ 32) ltac:(lia)). lia.
Qed.

Lemma padding n : (n + Z.to_nat (Z.land (- Z.of_nat n) 3))%nat = Dtb.padded n.
Proof.
  unfold Dtb.padded. change 3 with (Z.ones 2). rewrite Z.land_ones by lia. change (2 ^ 2) with 4.
  pose proof (Z.mod_pos_bound (- Z.of_nat n) 4). apply Nat2Z.inj. rewrite Nat2Z.inj_add, Z2Nat.id, Nat2Z.inj_mul, Nat2Z.inj_div, Nat2Z.inj_add by lia.
  cbn [Z.of_nat Pos.of_succ_nat Pos.succ]. Z.div_mod_to_equations; lia.
Qed.

(** * The string table *)

Definition c_name (s : list Z) : Prop := Forall (fun c => c <> 0) s.
Definition terminated (ss : list (list Z)) : list Z := concat (map (fun s => s ++ [0]) ss).
Definition table_ok (tab : list Z) : Prop := exists ss, Forall c_name ss /\ tab = terminated ss.

(** [off] names [name], however the table grows. *)
Definition names (tab : list Z) (off : Z) (name : list Z) : Prop :=
  0 <= off < Z.of_nat (length tab) /\ forall more, Dtb.string_at (tab ++ more) off = name.

Lemma terminated_app ss ts : terminated (ss ++ ts) = terminated ss ++ terminated ts.
Proof. unfold terminated. by rewrite map_app, concat_app. Qed.

Lemma string_here pre s post more : c_name s -> Dtb.string_at ((terminated pre ++ (s ++ [0]) ++ post) ++ more) (Z.of_nat (length (terminated pre))) = s.
Proof.
  intros Hs. unfold Dtb.string_at. rewrite Nat2Z.id, <- !app_assoc, drop_app_length. cbn [app]. by apply c_string_app.
Qed.

Lemma find_string_ok fuel : forall pre post name off, Forall c_name post ->
  find_string fuel (terminated pre ++ terminated post) (Z.of_nat (length (terminated pre))) name = Some off ->
  names (terminated pre ++ terminated post) off name.
Proof.
  induction fuel as [|fuel IH]; intros pre post name off Hp E; cbn [find_string] in E.
  all: destruct (Z.ltb_spec (Z.of_nat (length (terminated pre))) (Z.of_nat (length (terminated pre ++ terminated post)))) as [Hlt|]; [|done].
  all: destruct post as [|s post]; [cbn in Hlt; rewrite app_nil_r in Hlt; lia|]. all: inversion Hp as [|?? Hs Hps]; subst.
  all: change (terminated (s :: post)) with ((s ++ [0]) ++ terminated post) in *.
  all: pose proof (fun more => string_here pre s (terminated post) more Hs) as Hat; pose proof (Hat []) as Hc; rewrite app_nil_r in Hc.
  all: change (c_string (drop (Z.to_nat (Z.of_nat (length (terminated pre)))) _)) with
    (Dtb.string_at (terminated pre ++ (s ++ [0]) ++ terminated post) (Z.of_nat (length (terminated pre)))) in E; rewrite Hc in E.
  all: case_bool_decide as Hn; [injection E as <-; subst name; split; [lia|exact Hat]|try done].
  unfold strlen in E. change (c_string (drop _ _)) with (Dtb.string_at (terminated pre ++ (s ++ [0]) ++ terminated post) (Z.of_nat (length (terminated pre)))) in E. rewrite Hc in E.
  replace (terminated pre ++ (s ++ [0]) ++ terminated post) with (terminated (pre ++ [s]) ++ terminated post) in *
    by (rewrite terminated_app; unfold terminated at 2; cbn; by rewrite app_nil_r, <- !app_assoc).
  apply IH; [done|]. rewrite <- E. f_equal. rewrite terminated_app, length_app. change (terminated [s]) with ((s ++ [0]) ++ []). rewrite !length_app. cbn [length]. lia.
Qed.

Lemma StringOffset_ok b name : table_ok (fStringTable b) -> c_name name ->
  exists off ext, StringOffset b name = (off, set_strings b (fStringTable b ++ ext)) /\
    table_ok (fStringTable b ++ ext) /\ names (fStringTable b ++ ext) off name.
Proof.
  intros (ss & Hss & Et) Hn. unfold StringOffset. destruct (find_string _ _ 0 name) as [off|] eqn:E.
  - exists off, []. rewrite app_nil_r. split_and!; [by destruct b|by exists ss|]. rewrite Et in *. by apply (find_string_ok _ [] ss name off) in E.
  - exists (Z.of_nat (length (fStringTable b))), (name ++ [0]). split_and!; [done| |].
    + exists (ss ++ [name]). rewrite terminated_app, <- Et. split; [by apply Forall_app; split; [|constructor]|]. unfold terminated. cbn. by rewrite app_nil_r.
    + split; [rewrite !length_app; cbn; lia|]. intros more. unfold Dtb.string_at. rewrite Nat2Z.id, <- !app_assoc, drop_app_length. by apply c_string_app.
Qed.

(** * Writing a tree *)

Section NodeInd.
Context (P : Dtb.node -> Prop) (HN : forall name props children, Forall P children -> P (Dtb.Node name props children)).
Fixpoint node_ind' (n : Dtb.node) : P n :=
  match n with
  | Dtb.Node name props children =>
    HN name props children ((fix go (l : list Dtb.node) : Forall P l :=
      match l with [] => Forall_nil_2 P | x :: l => Forall_cons_2 P x l (node_ind' x) (go l) end) children)
  end.
End NodeInd.

(** Names without zeros, data below 2 GB. *)
Definition wf_prop (p : list Z * list Z) : Prop := c_name p.1 /\ Z.of_nat (length p.2) < 2 ^ 31.
Inductive wf_node : Dtb.node -> Prop :=
| wf_Node name props children : c_name name -> Forall wf_prop props -> Forall wf_node children -> wf_node (Dtb.Node name props children).

(** [b] with [bytes] and the strings [ext] added. *)
Definition grown (b : FDTBuilder) (bytes ext : list Z) : FDTBuilder :=
  mkFDT (fTab b ++ bytes) (fOpenNodeCount b) (fStringTable b ++ ext) (fCells b) (fNextPhandle b) (fReservations b).

Lemma grown_grown b x e y f : grown (grown b x e) y f = grown b (x ++ y) (e ++ f).
Proof. unfold grown. cbn [fTab fOpenNodeCount fStringTable fCells fNextPhandle fReservations]. by rewrite !app_assoc. Qed.

Definition not_prop (l : list Z) : Prop := forall l', Dtb.word l <> Some (3, l').
Definition padding_of (data : list Z) : list Z := replicate (Z.to_nat (Z.land (- Z.of_nat (length data)) 3)) 0.

Lemma drop_padded data rest : drop (Dtb.padded (length data)) (data ++ padding_of data ++ rest) = rest.
Proof. rewrite app_assoc. apply drop_app_length'. rewrite length_app. unfold padding_of. rewrite length_replicate. symmetry. apply padding. Qed.

Lemma Prop_ok b p : table_ok (fStringTable b) -> c_name p.1 ->
  exists off ext, Prop_ b p.1 p.2 = grown b (be32 FDT_PROP ++ be32 (Z.of_nat (length p.2)) ++ be32 off ++ p.2 ++ padding_of p.2) ext /\
    table_ok (fStringTable b ++ ext) /\ names (fStringTable b ++ ext) off p.1.
Proof.
  intros Ht Hn. unfold Prop_. set (b2 := Put32 (Put32 b FDT_PROP) (Z.of_nat (length p.2))).
  destruct (StringOffset_ok b2 p.1 Ht Hn) as (off & ext & E & Ht' & Hnames). exists off, ext. rewrite E. split_and!; [|done..].
  unfold b2, Put32, PutData, set_fTab, set_strings, grown, be32, padding_of. cbn [fTab fOpenNodeCount fStringTable fCells fNextPhandle fReservations].
  by rewrite <- !app_assoc.
Qed.

Lemma props_ok props : forall b, table_ok (fStringTable b) -> Forall wf_prop props ->
  exists bytes ext, foldl (fun b p => Prop_ b p.1 p.2) b props = grown b bytes ext /\ table_ok (fStringTable b ++ ext) /\
    (Z.of_nat (length (fStringTable b ++ ext)) < 2 ^ 31 -> forall more rest fuel, not_prop rest -> (length bytes <= fuel)%nat ->
      Dtb.read_props fuel ((fStringTable b ++ ext) ++ more) (bytes ++ rest) = Some (props, rest)).
Proof.
  induction props as [|p props IH]; intros b Ht Hw.
  - exists [], []. split_and!; [destruct b; unfold grown; cbn; by rewrite !app_nil_r|by rewrite app_nil_r|]. intros _ more rest fuel Hnp _. cbn [app].
    destruct fuel as [|fuel]; cbn [Dtb.read_props]; [done|]. destruct (Dtb.word rest) as [[t l]|] eqn:E; [|done].
    assert (t <> 3) by (intros ->; by eapply Hnp). repeat (destruct t as [|t|t]; try done).
  - inversion Hw as [|?? [Hn Hd] Hws]; subst. destruct (Prop_ok b p Ht Hn) as (off & ext & E & Ht' & Hnames). cbn [foldl]. rewrite E.
    set (here := be32 FDT_PROP ++ _). destruct (IH (grown b here ext) Ht' Hws) as (bytes & ext' & E' & Ht'' & Hread). rewrite E', grown_grown.
    exists (here ++ bytes), (ext ++ ext'). cbn [grown fStringTable] in *. rewrite app_assoc. split_and!; [done..|].
    intros Hlen more rest fuel Hnp Hf. unfold here in *. clear here. rewrite !length_app in Hf. destruct fuel as [|fuel]; [cbn in Hf; lia|].
    destruct Hnames as [Hoff Hat]. rewrite !length_app in Hlen. cbn [Dtb.read_props]. rewrite <- !app_assoc, word_be32' by done. rewrite length_app in Hoff.
    unfold FDT_PROP at 1. rewrite word_be32' by lia. cbn [mbind option_bind]. rewrite word_be32' by lia. cbn [mbind option_bind].
    rewrite Nat2Z.id, drop_padded, take_app_length, !app_assoc. rewrite Hread; [|rewrite !length_app; lia|done|cbn in Hf; lia]. cbn [mbind option_bind].
    rewrite <- !app_assoc in *. rewrite (app_assoc (fStringTable b)), Hat. by destruct p.
Qed.

Lemma not_prop_other t l : 0 <= t < 2 ^ 32 -> t <> 3 -> not_prop (be32 t ++ l).
Proof. intros Ht Hne l'. rewrite word_be32' by done. congruence. Qed.

Lemma read_stop t tab l fuel : 0 <= t < 2 ^ 32 -> t <> 1 -> Dtb.read_nodes fuel tab (be32 t ++ l) = Some ([], be32 t ++ l).
Proof.
  intros Ht Hne. destruct fuel as [|fuel]; [done|]. cbn [Dtb.read_nodes]. rewrite word_be32' by done. by destruct t as [|[]|].
Qed.

(** What reading [bytes] adds in front of whatever follows. *)
Definition reads (tab bytes : list Z) (ns : list Dtb.node) : Prop :=
  forall rest ms r, (forall fuel, (length rest <= fuel)%nat -> Dtb.read_nodes fuel tab rest = Some (ms, r)) ->
    forall fuel, (length (bytes ++ rest) <= fuel)%nat -> Dtb.read_nodes fuel tab (bytes ++ rest) = Some (ns ++ ms, r).

Definition written (b b' : FDTBuilder) (ns : list Dtb.node) : Prop :=
  exists bytes ext, b' = grown b bytes ext /\ table_ok (fStringTable b ++ ext) /\
    (Z.of_nat (length (fStringTable b ++ ext)) < 2 ^ 31 -> forall more, reads ((fStringTable b ++ ext) ++ more) bytes ns) /\
    (ns <> [] -> not_prop bytes /\ exists l, bytes = be32 1 ++ l).

Lemma forest_ok ns : Forall (fun n => forall b, table_ok (fStringTable b) -> wf_node n -> written b (write_node b n) [n]) ns ->
  forall b, table_ok (fStringTable b) -> Forall wf_node ns -> written b (foldl write_node b ns) ns.
Proof.
  induction 1 as [|n ns Hn Hns IH]; intros b Ht Hw.
  - exists [], []. rewrite app_nil_r. split_and!; [destruct b; unfold grown; cbn; by rewrite !app_nil_r|done| |done]. intros _ more rest ms r Hr fuel Hf. by apply Hr.
  - inversion Hw as [|?? Hwn Hwns]; subst. destruct (Hn b Ht Hwn) as (x & e & E & Ht' & Hx & Hs). cbn [foldl]. rewrite E.
    destruct (IH (grown b x e) Ht' Hwns) as (y & f & E' & Ht'' & Hy & _). rewrite E', grown_grown. cbn [grown fStringTable] in *.
    exists (x ++ y), (e ++ f). rewrite app_assoc. split_and!; [done..| |].
    + intros Hl more rest ms r Hr fuel Hf. rewrite <- (app_assoc x y rest) in Hf |- *. specialize (Hy Hl more). rewrite !length_app in Hl. rewrite <- (app_assoc _ f more) in *.
      apply (Hx ltac:(rewrite length_app; lia) (f ++ more) (y ++ rest) (ns ++ ms) r); [|done]. intros fuel' Hf'. by apply Hy.
    + intros _. destruct (Hs ltac:(done)) as [_ [l ->]]. rewrite <- app_assoc. split; [by apply not_prop_other|by eexists].
Qed.

Lemma node_ok n : forall b, table_ok (fStringTable b) -> wf_node n -> written b (write_node b n) [n].
Proof.
  induction n as [name props children IH] using node_ind'. intros b Ht Hw. inversion Hw as [??? Hname Hprops Hch]; subst. cbn [write_node].
  set (b1 := BeginNode b name). destruct (props_ok props b1 Ht Hprops) as (px & pe & E1 & Ht1 & Hpx). rewrite E1. set (b2 := grown b1 px pe) in *.
  destruct (forest_ok children IH b2 Ht1 Hch) as (cx & ce & E2 & Ht2 & Hcx & Hcs). rewrite E2.
  exists (be32 1 ++ (name ++ [0]) ++ padding_of (name ++ [0]) ++ px ++ cx ++ be32 2), (pe ++ ce).
  split_and!.
  - unfold b2, b1, EndNode, BeginNode, Put32, PutData, grown, set_fTab, set_open. cbn [fTab fOpenNodeCount fStringTable fCells fNextPhandle fReservations].
    unfold be32, FDT_BEGIN_NODE, FDT_END_NODE, padding_of. rewrite <- !app_assoc. f_equal. lia.
  - unfold b2 in Ht2. cbn [grown fStringTable] in Ht2. by rewrite app_assoc.
  - cbn [b2 b1 grown BeginNode Put32 PutData set_fTab set_open fStringTable] in *. rewrite app_assoc. intros Hl more rest ms r Hr fuel Hf.
    rewrite <- (app_assoc _ ce more) in *. rewrite !length_app in Hl. specialize (Hpx ltac:(rewrite length_app; lia) (ce ++ more)).
    specialize (Hcx ltac:(rewrite !length_app; lia) more). rewrite <- (app_assoc _ ce more) in Hcx. set (tab := (fStringTable b ++ pe) ++ ce ++ more) in *. clearbody tab.
    rewrite <- !app_assoc in Hf |- *. rewrite !length_app in Hf. destruct fuel as [|fuel]; [cbn in Hf; lia|]. cbn [Dtb.read_nodes].
    rewrite word_be32' by lia. replace (c_string _) with name by (symmetry; apply c_string_app; done).
    replace (length name + 1)%nat with (length (name ++ [0])) by (rewrite length_app; done).
    assert (Hnp : not_prop (cx ++ be32 2 ++ rest)).
    { destruct children as [|c cs]; [|destruct (Hcs ltac:(done)) as [_ [l ->]]; rewrite <- app_assoc; by apply not_prop_other].
      cbn [foldl] in E2. apply (f_equal (fun b => length (fTab b))) in E2. unfold grown in E2. cbn [fTab] in E2.
      rewrite length_app in E2. destruct cx; [by apply not_prop_other|cbn in E2; lia]. }
    rewrite (app_assoc name [0]), drop_padded, Hpx by (done || cbn in Hf; lia). cbn [mbind option_bind].
    rewrite (Hcx (be32 2 ++ rest) [] (be32 2 ++ rest)); [|by intros; apply read_stop|rewrite !length_app; cbn in Hf |- *; lia]. cbn [mbind option_bind].
    rewrite word_be32' by lia. cbn [mbind option_bind Z.eqb Pos.eqb]. rewrite Hr by (cbn in Hf; lia). cbn [mbind option_bind]. by rewrite app_nil_r.
  - intros _. split; [by apply not_prop_other|by eexists].
Qed.

(** * The blob *)

Lemma length_be32 v : length (be32 v) = 4%nat.
Proof. done. Qed.
Lemma length_be64 v : length (be64 v) = 8%nat.
Proof. done. Qed.

Lemma field_at hs rest k v : hs !! k = Some v -> 0 <= v < 2 ^ 32 -> Dtb.field (concat (map be32 hs) ++ rest) k = Some v.
Proof.
  intros Hk Hv. unfold Dtb.field. assert (E : drop (4 * k) (concat (map be32 hs) ++ rest) = concat (map be32 (drop k hs)) ++ rest).
  { clear Hv. revert hs Hk. induction k as [|k IH]; intros [|h hs] Hk; try done. cbn [map concat]. replace (4 * S k)%nat with (length (be32 h) + 4 * k)%nat by (cbn; lia).
    rewrite <- drop_drop, <- app_assoc, drop_app_length. by apply IH. }
  rewrite E, (drop_S hs v k Hk). cbn [map concat]. rewrite <- app_assoc, word_be32' by done. done.
Qed.

Lemma align8_ok fuel : forall dst, exists k, align8 fuel dst = dst ++ replicate k 0.
Proof.
  induction fuel as [|fuel IH]; intros dst; cbn [align8]; [exists 0%nat; by rewrite app_nil_r|].
  destruct (_ =? 0); [exists 0%nat; by rewrite app_nil_r|]. destruct (IH (dst ++ [0])) as [k ->]. exists (S k). by rewrite <- app_assoc.
Qed.

(** The reservations a tree keeps: the first eight that are not empty. *)
Definition kept (rs : list (Z * Z)) : list (Z * Z) := take 8 (filter (fun r => r.2 <> 0) rs).

Lemma reservations_ok rs : forall b acc, fReservations b = kept acc ->
  exists rs', foldl (fun b r => AddReservation b r.1 r.2) b rs = mkFDT (fTab b) (fOpenNodeCount b) (fStringTable b) (fCells b) (fNextPhandle b) rs' /\ rs' = kept (acc ++ rs).
Proof.
  induction rs as [|r rs IH]; intros b acc Hb; cbn [foldl].
  - exists (fReservations b). rewrite app_nil_r. by destruct b.
  - replace (acc ++ r :: rs) with ((acc ++ [r]) ++ rs) by (by rewrite <- app_assoc).
    assert (Hadd : fReservations (AddReservation b r.1 r.2) = kept (acc ++ [r])).
    { unfold AddReservation, kept in *. rewrite filter_app, Hb, length_take. destruct (Z.eqb_spec r.2 0) as [E|E].
      - rewrite filter_cons_False, app_nil_r by (intros H; by apply H). done.
      - rewrite filter_cons_True by done. cbn [filter list_filter]. unfold FDT_MAX_RESERVATIONS. set (l := filter _ acc) in *.
        destruct (Z.leb_spec 8 (Z.of_nat (8 `min` length l))).
        + rewrite take_app_le by lia. done.
        + cbn [fReservations]. rewrite !take_ge by (rewrite ?length_app; cbn; lia). by destruct r. }
    destruct (IH _ _ Hadd) as (rs' & -> & ->). eexists. split; [|done]. unfold AddReservation. by repeat case_match.
Qed.

Lemma read_kept rs rest fuel : Forall (fun r => inw 64 r.1 /\ inw 64 r.2 /\ r.2 <> 0) rs -> (length rs < fuel)%nat ->
  Dtb.read_reservations fuel (concat (map (fun '(address, size) => be64 address ++ be64 size) rs) ++ replicate 16 0 ++ rest) = Some rs.
Proof.
  intros Hrs. revert fuel. induction Hrs as [|[a s] rs (Ha & Hs & Hne) Hrs IH]; intros [|fuel] Hf; try (cbn in Hf; lia); cbn [map concat Dtb.read_reservations].
  - change (replicate 16 0) with (be64 0 ++ be64 0). cbn [app]. rewrite <- app_assoc, dword_be64 by (by apply inw_0). cbn [mbind option_bind].
    rewrite dword_be64 by (by apply inw_0). done.
  - rewrite <- !app_assoc, dword_be64 by done. cbn [mbind option_bind]. rewrite dword_be64 by done. cbn [mbind option_bind].
    cbn in Hne. rewrite (proj2 (Z.eqb_neq s 0)), andb_false_r by done. rewrite IH by (cbn in Hf; lia). done.
Qed.

(** The blocks behind one another, read back through the header. *)
Lemma read_blocks rs bytes strings k n :
  let rsv := concat (map (fun '(address, size) => be64 address ++ be64 size) rs) in
  let hs total := [FDT_MAGIC; total; Z.of_nat (40 + length rsv + 16); Z.of_nat (40 + length rsv + 16 + length bytes + 4); 40; FDT_VERSION; 16; 0;
    Z.of_nat (length strings); Z.of_nat (length bytes + 4)] in
  let body := rsv ++ replicate 16 0 ++ (bytes ++ be32 FDT_END) ++ strings ++ replicate k 0 in
  let blob := concat (map be32 (hs (Z.of_nat (40 + length body)))) ++ body in
  Forall (fun r => inw 64 r.1 /\ inw 64 r.2 /\ r.2 <> 0) rs -> reads strings bytes [n] -> Z.of_nat (length blob) < 2 ^ 31 ->
  Dtb.read blob = Some (rs, n).
Proof.
  intros rsv hs body blob Hrs Hn Hlen. assert (Hrl : length rsv = (16 * length rs)%nat).
  { unfold rsv. clear. induction rs as [|[a s] rs IH]; [done|]. cbn [map concat]. rewrite !length_app, IH, !length_be64. cbn. lia. }
  assert (Hbl : length blob = (40 + length body)%nat) by (unfold blob; rewrite length_app; done).
  assert (Hbody : length body = (length rsv + (16 + (length bytes + 4 + (length strings + k))))%nat) by (unfold body; rewrite !length_app, !length_replicate; done).
  assert (Hf : forall i v, hs (Z.of_nat (40 + length body)) !! i = Some v -> 0 <= v < 2 ^ 32 -> Dtb.field blob i = Some v) by (intros; by apply field_at).
  assert (Hb : 0 <= Z.of_nat (length body) < 2 ^ 31 - 40) by lia. clear Hlen. unfold Dtb.read.
  rewrite (Hf 0%nat FDT_MAGIC), (Hf 1%nat (Z.of_nat (40 + length body))), (Hf 2%nat (Z.of_nat (40 + length rsv + 16))), (Hf 3%nat (Z.of_nat (40 + length rsv + 16 + length bytes + 4))),
    (Hf 4%nat 40), (Hf 5%nat 17), (Hf 6%nat 16), (Hf 8%nat (Z.of_nat (length strings))), (Hf 9%nat (Z.of_nat (length bytes + 4))) by (done || lia).
  cbn [mbind option_bind]. rewrite Hbl, !Z.eqb_refl. change (FDT_MAGIC =? 0xd00dfeed) with true. change (16 <=? 17) with true. change (17 <=? 17) with true.
  change (40 mod 8 =? 0) with true. replace (Z.of_nat (40 + length rsv + 16) mod 4 =? 0) with true
    by (symmetry; apply Z.eqb_eq; rewrite Hrl; Z.div_mod_to_equations; lia). cbn [andb]. rewrite !Nat2Z.id.
  assert (E40 : drop (Z.to_nat 40) blob = body) by (apply drop_app_length'; done).
  assert (Es : drop (40 + length rsv + 16) blob = (bytes ++ be32 FDT_END) ++ strings ++ replicate k 0).
  { replace (40 + length rsv + 16)%nat with (Z.to_nat 40 + (length rsv + 16))%nat by (cbn; lia). rewrite <- drop_drop, E40. unfold body.
    rewrite <- drop_drop, drop_app_length. by rewrite (drop_app_length' (replicate 16 0)). }
  assert (Ett : drop (40 + length rsv + 16 + length bytes + 4) blob = strings ++ replicate k 0).
  { replace (40 + length rsv + 16 + length bytes + 4)%nat with (40 + length rsv + 16 + (length bytes + 4))%nat by lia. rewrite <- drop_drop, Es.
    apply drop_app_length'. by rewrite length_app. }
  rewrite E40, Es, Ett, take_app_length. rewrite (take_app_length' (bytes ++ be32 FDT_END)) by (by rewrite length_app).
  unfold body at 2. unfold rsv at 1. rewrite (read_kept rs) by (done || rewrite Hbody, Hrl; lia). cbn [mbind option_bind].
  rewrite (Hn (be32 FDT_END) [] (be32 FDT_END)); [|intros fuel _; rewrite <- (app_nil_r (be32 FDT_END)); by apply read_stop|done].
  cbn [mbind option_bind app]. rewrite <- (app_nil_r (be32 FDT_END)), word_be32' by done. done.
Qed.

(** C22: every tree whose names have no zero byte, written with the builder's calls
    together with any reservations, is output, and a reader of the Devicetree
    Specification's format recovers exactly that tree, with its properties and
    their data in order, and the first eight non-empty reservations, as long as
    the blob is below 2 GB. *)
Theorem fdt_roundtrip rs n : wf_node n -> Forall (fun r => inw 64 r.1 /\ inw 64 r.2) rs ->
  exists blob, Output (write rs n) = Some blob /\ (Z.of_nat (length blob) < 2 ^ 31 -> Dtb.read blob = Some (kept rs, n)).
Proof.
  intros Hw Hrs. unfold write. destruct (reservations_ok rs FDTBuilder_new [] eq_refl) as (rs' & -> & ->). cbn [app].
  cbn [fTab fOpenNodeCount fStringTable fCells fNextPhandle FDTBuilder_new]. set (b0 := mkFDT _ _ _ _ _ _).
  destruct (node_ok n b0 ltac:(exists []; split; done) Hw) as (bytes & ext & -> & _ & Hread & _). unfold Output. cbn [grown b0 fTab fOpenNodeCount fStringTable fReservations Put32 set_fTab app Z.eqb negb] in *.
  fold (be32 FDT_END). change (align8 8 (replicate 40 0)) with (replicate 40 0). set (rsv := concat _). set (dst := (((replicate 40 0 ++ rsv) ++ _) ++ _) ++ ext).
  destruct (align8_ok 8 dst) as [k Ek]. rewrite Ek. eexists. split; [done|]. intros Hl.
  set (body := rsv ++ replicate 16 0 ++ (bytes ++ be32 FDT_END) ++ ext ++ replicate k 0).
  assert (Ed : drop 40 (dst ++ replicate k 0) = body) by (unfold dst, body; rewrite <- !app_assoc; by apply drop_app_length').
  assert (El : length (dst ++ replicate k 0) = (40 + length body)%nat) by (rewrite <- Ed, length_drop; unfold dst; rewrite !length_app, length_replicate; lia).
  pose proof (read_blocks (kept rs) bytes ext k n) as H. cbv zeta in H. fold rsv body in H. rewrite Ed, El in *.
  rewrite !length_app, !length_replicate, length_be32, Nat.add_assoc in *. cbn [map concat] in H. rewrite <- !app_assoc in H. cbn [app] in H. rewrite app_nil_l in H || idtac.
  rewrite !length_be32 in Hl. assert (Hext : (length ext <= length body)%nat) by (unfold body; rewrite !length_app; lia).
  apply H.
  - clear -Hrs. unfold kept. apply Forall_take, Forall_forall. intros r [Hne Hr]%list_elem_of_filter. rewrite Forall_forall in Hrs. destruct (Hrs r Hr). done.
  - rewrite <- (app_nil_r ext). apply Hread. lia.
  - rewrite !length_app, !length_be32. cbn [length]. lia.
Qed.

Lemma fdt_roundtrip_witness :
  let t := Dtb.Node [] [([97; 98], [1; 2; 3])] [Dtb.Node [120] [([97; 98], [])] []; Dtb.Node [121] [] []] in
  exists blob, Output (write [(0x80000000, 0x1000); (5, 0)] t) = Some blob /\ Dtb.read blob = Some ([(0x80000000, 0x1000)], t).
Proof.
  cbv zeta. set (t := Dtb.Node [] _ _).
  assert (Hn : forall s, forallb (fun c => negb (c =? 0)) s = true -> c_name s).
  { intros s Hs. apply Forall_forall. intros c Hc ->. rewrite forallb_forall in Hs. by apply list_elem_of_In, Hs in Hc. }
  assert (Hw : wf_node t).
  { unfold t. constructor; [by apply Hn|repeat constructor; (by apply Hn) || (cbn; lia)|].
    repeat apply Forall_cons_2; try done; (constructor; [by apply Hn| |done]); repeat constructor; (by apply Hn) || (cbn; lia). }
  destruct (fdt_roundtrip [(0x80000000, 0x1000); (5, 0)] t Hw) as (blob & E & Hr).
  { repeat apply Forall_cons_2; try done; split; unfold inw; cbn; lia. }
  exists blob. split; [exact E|]. apply Hr. vm_compute in E. injection E as <-. by vm_compute.
Defined.
