(* ===== verification/RvAlu.v ===== *)
(** Integer arithmetic of the RISC-V instructions: the helpers at the head of
    [src/cpu/riscv/riscv_cpu_interp.h].

    A template parameter [U] or [S] is its width [w]; unsigned operands are in
    [0, 2^w), signed ones are the integers they stand for.  The theorems
    relate each helper to the arithmetic it implements. *)

From stdpp Require Import base numbers list.
From S2P Require Import Prelude Bits Cutils.
Local Open Scope Z_scope.

(** * Division *)

Definition rv_div (w a b : Z) : Z :=
  if b =? 0 then -1
  else if (a =? - 2 ^ (w - 1)) && (b =? -1) then a
  else Z.quot a b.

Definition rv_divu (w a b : Z) : Z :=
  if b =? 0 then uw w (-1) else a / b.

Definition rv_rem (w a b : Z) : Z :=
  if b =? 0 then a
  else if (a =? - 2 ^ (w - 1)) && (b =? -1) then 0
  else Z.rem a b.

Definition rv_remu (w a b : Z) : Z :=
  if b =? 0 then a else a mod b.

(** * High half of a product *)

Definition rv_mulhu_halves (w a b : Z) : Z :=
  let h := w / 2 in
  let a0 := uw h a in
  let a1 := uw h (Z.shiftr a h) in
  let b0 := uw h b in
  let b1 := uw h (Z.shiftr b h) in
  let r00 := uw w (a0 * b0) in
  let r01 := uw w (a0 * b1) in
  let r10 := uw w (a1 * b0) in
  let r11 := uw w (a1 * b1) in
  let c := uw w (Z.shiftr r00 h + uw h r01 + uw h r10) in
  let c := uw w (Z.shiftr c h + Z.shiftr r01 h + Z.shiftr r10 h + uw h r11) in
  let r2 := uw h c in
  let r3 := uw h (Z.shiftr c h + Z.shiftr r11 h) in
  Z.lor (uw w (Z.shiftl r3 h)) r2.

(** [int128] is whether the host compiler has the type ([HAVE_INT128]); the
    product goes through a type twice as wide where there is one. *)
Definition rv_mulhu (int128 : bool) (w a b : Z) : Z :=
  if w =? 32 then uw 32 (Z.shiftr (uw 64 (a * b)) 32)
  else if (w =? 64) && int128 then uw 64 (Z.shiftr (uw 128 (a * b)) 64)
  else rv_mulhu_halves w a b.

Definition rv_mulh (int128 : bool) (w a b : Z) : Z :=
  if w =? 32 then uw 32 (Z.shiftr (sw 64 (a * b)) 32)
  else if (w =? 64) && int128 then uw 64 (Z.shiftr (sw 128 (a * b)) 64)
  else
    let r1 := rv_mulhu_halves w (uw w a) (uw w b) in
    let r1 := if a <? 0 then uw w (r1 - a) else r1 in
    if b <? 0 then uw w (r1 - b) else r1.

Definition rv_mulhsu (int128 : bool) (w a b : Z) : Z :=
  if w =? 32 then uw 32 (Z.shiftr (sw 64 (a * b)) 32)
  else if (w =? 64) && int128 then uw 64 (Z.shiftr (sw 128 (a * b)) 64)
  else
    let r1 := rv_mulhu_halves w (uw w a) b in
    if a <? 0 then uw w (r1 - a) else r1.

(** * Zbb primitives, [w] 32 or 64 *)

Definition rv_clz (w a : Z) : Z := if a =? 0 then w else builtin_clz w a.
Definition rv_ctz (w a : Z) : Z := if a =? 0 then w else builtin_ctz (Z.to_nat w) a.
Definition rv_cpop (w a : Z) : Z := builtin_popcount (Z.to_nat w) a.

(** [shamt] is an [unsigned int]. *)
Definition rv_rol (w a shamt : Z) : Z :=
  let shamt := Z.land shamt (w - 1) in
  if shamt =? 0 then a
  else Z.lor (uw w (Z.shiftl a shamt)) (Z.shiftr a (w - shamt)).
Definition rv_ror (w a shamt : Z) : Z := rv_rol w a (u32 (- shamt)).

Definition rv_rev8 (w a : Z) : Z := builtin_bswap (Z.to_nat (w / 8)) a.

Definition rv_orc_b (w a : Z) : Z :=
  for_each (Z.to_nat (w / 8)) 0 (fun k r =>
    let i := 8 * k in
    if nz (Z.land (Z.shiftr a i) 0xff) then Z.lor r (uw w (Z.shiftl 0xff i)) else r) 0.

(** * The bit manipulation instructions

    [None] for an encoding that is none of theirs. *)

(** The case labels [funct7 << 3 | funct3]. *)
Definition op_case (funct7 funct3 : Z) : Z := Z.lor (Z.shiftl funct7 3) funct3.

Definition rv_bitmanip_op (w insn a b : Z) : option Z :=
  let bit := uw w (Z.shiftl 1 (Z.land b (w - 1))) in
  let op := op_case (get_bits 32 insn 25 7) (get_bits 32 insn 12 3) in
  if op =? op_case 0x10 2 then (* sh1add *) Some (uw w (b + uw w (Z.shiftl a 1)))
  else if op =? op_case 0x10 4 then (* sh2add *) Some (uw w (b + uw w (Z.shiftl a 2)))
  else if op =? op_case 0x10 6 then (* sh3add *) Some (uw w (b + uw w (Z.shiftl a 3)))
  else if op =? op_case 0x20 4 then (* xnor *) Some (uw w (Z.lnot (Z.lxor a b)))
  else if op =? op_case 0x20 6 then (* orn *) Some (Z.lor a (uw w (Z.lnot b)))
  else if op =? op_case 0x20 7 then (* andn *) Some (Z.ldiff a b)
  else if op =? op_case 0x05 4 then (* min *) Some (if sw w a <? sw w b then a else b)
  else if op =? op_case 0x05 5 then (* minu *) Some (if a <? b then a else b)
  else if op =? op_case 0x05 6 then (* max *) Some (if sw w a <? sw w b then b else a)
  else if op =? op_case 0x05 7 then (* maxu *) Some (if a <? b then b else a)
  else if op =? op_case 0x30 1 then (* rol *) Some (rv_rol w a (u32 b))
  else if op =? op_case 0x30 5 then (* ror *) Some (rv_ror w a (u32 b))
  else if op =? op_case 0x14 1 then (* bset *) Some (Z.lor a bit)
  else if op =? op_case 0x24 1 then (* bclr *) Some (Z.ldiff a bit)
  else if op =? op_case 0x24 5 then (* bext *) Some (Z_of_bool (nz (Z.land a bit)))
  else if op =? op_case 0x34 1 then (* binv *) Some (Z.lxor a bit)
  else if op =? op_case 0x04 4 then (* zext.h *)
    if negb (w =? 32) || nz (get_bits 32 insn 20 5) then None else Some (u16 a)
  else None.

Definition rv_bitmanip_op_imm (w insn a : Z) : option Z :=
  let imm := get_bits 32 insn 20 12 in
  let shamt := Z.land imm 0x3f in
  let bit := uw w (Z.shiftl 1 (Z.land shamt (w - 1))) in
  if get_bits 32 insn 12 3 =? 1 then
    if imm =? 0x600 then (* clz *) Some (rv_clz w a)
    else if imm =? 0x601 then (* ctz *) Some (rv_ctz w a)
    else if imm =? 0x602 then (* cpop *) Some (rv_cpop w a)
    else if imm =? 0x604 then (* sext.b *) Some (uw w (sw 8 a))
    else if imm =? 0x605 then (* sext.h *) Some (uw w (sw 16 a))
    else if w <=? shamt then None
    else if Z.shiftr imm 6 =? 0x0a then (* bseti *) Some (Z.lor a bit)
    else if Z.shiftr imm 6 =? 0x12 then (* bclri *) Some (Z.ldiff a bit)
    else if Z.shiftr imm 6 =? 0x1a then (* binvi *) Some (Z.lxor a bit)
    else None
  else
    if imm =? 0x287 then (* orc.b *) Some (rv_orc_b w a)
    else if imm =? (if w =? 32 then 0x698 else 0x6b8) then (* rev8 *) Some (rv_rev8 w a)
    else if w <=? shamt then None
    else if Z.shiftr imm 6 =? 0x12 then (* bexti *) Some (Z_of_bool (nz (Z.land a bit)))
    else if Z.shiftr imm 6 =? 0x18 then (* rori *) Some (rv_ror w a shamt)
    else None.

Definition rv_bitmanip_op_32 (insn a b : Z) : option Z :=
  let op := op_case (get_bits 32 insn 25 7) (get_bits 32 insn 12 3) in
  if op =? op_case 0x04 0 then (* add.uw *) Some (u64 (b + u32 a))
  else if op =? op_case 0x04 4 then (* zext.h *)
    if nz (get_bits 32 insn 20 5) then None else Some (u16 a)
  else if op =? op_case 0x10 2 then (* sh1add.uw *) Some (u64 (b + Z.shiftl (u32 a) 1))
  else if op =? op_case 0x10 4 then (* sh2add.uw *) Some (u64 (b + Z.shiftl (u32 a) 2))
  else if op =? op_case 0x10 6 then (* sh3add.uw *) Some (u64 (b + Z.shiftl (u32 a) 3))
  else if op =? op_case 0x30 1 then (* rolw *)
    Some (u64 (sw 32 (rv_rol 32 (u32 a) (u32 b))))
  else if op =? op_case 0x30 5 then (* rorw *)
    Some (u64 (sw 32 (rv_ror 32 (u32 a) (u32 b))))
  else None.

Definition rv_bitmanip_op_imm_32 (insn a : Z) : option Z :=
  let imm := get_bits 32 insn 20 12 in
  if get_bits 32 insn 12 3 =? 1 then
    if imm =? 0x600 then (* clzw *) Some (rv_clz 32 (u32 a))
    else if imm =? 0x601 then (* ctzw *) Some (rv_ctz 32 (u32 a))
    else if imm =? 0x602 then (* cpopw *) Some (rv_cpop 32 (u32 a))
    else if Z.shiftr imm 6 =? 0x02 then (* slli.uw *)
      Some (u64 (Z.shiftl (u32 a) (Z.land imm 0x3f)))
    else None
  else if Z.shiftr imm 5 =? 0x30 then (* roriw *)
    Some (u64 (sw 32 (rv_ror 32 (u32 a) (Z.land imm 0x1f))))
  else None.

(** * Products *)

(** A value of [2 h] bits as two halves. *)
Lemma halves h v : 0 <= h -> inw (2 * h) v ->
  v = uw h (Z.shiftr v h) * 2 ^ h + uw h v /\ 0 <= uw h (Z.shiftr v h) < 2 ^ h /\
  0 <= uw h v < 2 ^ h.
Proof.
  intros Hh Hv. pose proof (pow2_pos h Hh). unfold uw, inw in *.
  rewrite Z.shiftr_div_pow2 by lia. replace (2 * h) with (h + h) in Hv by lia.
  rewrite Z.pow_add_r in Hv by lia.
  assert (0 <= v / 2 ^ h < 2 ^ h).
  { split; [apply Z.div_pos; lia|apply Z.div_lt_upper_bound; lia]. }
  rewrite (Z.mod_small (v / 2 ^ h)) by lia.
  pose proof (Z.div_mod v (2 ^ h)). pose proof (Z.mod_pos_bound v (2 ^ h)). lia.
Qed.

(** The long multiplication, over a base [B]: the carries of the four half
    width products add up to the high half. *)
Lemma long_mul B a1 a0 b1 b0 : 4 <= B -> 0 <= a1 < B -> 0 <= a0 < B ->
  0 <= b1 < B -> 0 <= b0 < B ->
  let c := a0 * b0 / B + (a0 * b1) mod B + (a1 * b0) mod B in
  let c' := c / B + (a0 * b1) / B + (a1 * b0) / B + (a1 * b1) mod B in
  let hi := (a1 * B + a0) * (b1 * B + b0) / (B * B) in
  0 <= c < B * B /\ 0 <= c' < B * B /\ 0 <= c' / B + (a1 * b1) / B < B /\
  hi = (c' / B + (a1 * b1) / B) * B + c' mod B.
Proof.
  intros HB Ha1 Ha0 Hb1 Hb0 c c' hi.
  assert (Hq : forall x y, 0 <= x < B -> 0 <= y < B ->
    x * y = B * (x * y / B) + (x * y) mod B /\ 0 <= (x * y) mod B < B /\ 0 <= x * y / B < B).
  { intros x y Hx Hy. split; [apply Z.div_mod; lia|]. split; [apply Z.mod_pos_bound; lia|].
    split; [apply Z.div_pos|apply Z.div_lt_upper_bound]; nia. }
  destruct (Hq a0 b0) as (E00 & ? & ?), (Hq a0 b1) as (E01 & ? & ?),
    (Hq a1 b0) as (E10 & ? & ?), (Hq a1 b1) as (E11 & ? & ?); try done. clear Hq.
  assert (4 * B <= B * B) by (apply Z.mul_le_mono_nonneg_r; lia).
  assert (Hc : 0 <= c < 3 * B) by (unfold c; lia).
  assert (0 <= c / B < 3) by (split; [apply Z.div_pos|apply Z.div_lt_upper_bound]; lia).
  pose proof (Z.div_mod c B ltac:(lia)) as Ec. pose proof (Z.mod_pos_bound c B ltac:(lia)).
  assert (Hc' : 0 <= c' < 4 * B) by (unfold c'; lia).
  pose proof (Z.div_mod c' B ltac:(lia)) as Ec'. pose proof (Z.mod_pos_bound c' B ltac:(lia)).
  assert (Hhi : hi = c' + (a1 * b1) / B * B).
  { unfold hi. symmetry. apply (Z.div_unique_pos _ _ _ (B * (c mod B) + (a0 * b0) mod B)).
    - pose proof (Z.mul_le_mono_nonneg_l (c mod B) (B - 1) B).
      pose proof (Z.mul_nonneg_nonneg B (c mod B)). lia.
    - replace (c mod B) with (c - B * (c / B)) by lia.
      transitivity (B * B * (B * (a1 * b1 / B) + (a1 * b1) mod B) +
        B * (B * (a1 * b0 / B) + (a1 * b0) mod B) + B * (B * (a0 * b1 / B) + (a0 * b1) mod B) +
        (B * (a0 * b0 / B) + (a0 * b0) mod B)).
      + rewrite <- E00, <- E01, <- E10, <- E11. ring.
      + unfold c', c. ring. }
  assert (hi < B * B).
  { unfold hi. apply Z.div_lt_upper_bound; [lia|].
    pose proof (Z.mul_le_mono_nonneg_r a1 (B - 1) B). pose proof (Z.mul_nonneg_nonneg a1 B).
    pose proof (Z.mul_le_mono_nonneg_r b1 (B - 1) B). pose proof (Z.mul_nonneg_nonneg b1 B).
    apply Z.mul_lt_mono_nonneg; lia. }
  assert (0 <= c' / B) by (apply Z.div_pos; lia).
  assert (hi = (c' / B + a1 * b1 / B) * B + c' mod B) by lia.
  repeat split; try lia. apply (Z.mul_lt_mono_pos_r B); lia.
Qed.

Lemma rv_mulhu_halves_high h a b : 2 <= h -> inw (2 * h) a -> inw (2 * h) b ->
  rv_mulhu_halves (2 * h) a b = a * b / 2 ^ (2 * h).
Proof.
  intros Hh Ha Hb. unfold rv_mulhu_halves.
  rewrite (Z.mul_comm 2 h), Z.div_mul, (Z.mul_comm h 2) by lia.
  destruct (halves h a) as (Ea & Ha1 & Ha0); [lia|done|].
  destruct (halves h b) as (Eb & Hb1 & Hb0); [lia|done|].
  set (a1 := uw h (Z.shiftr a h)) in *. set (a0 := uw h a) in *.
  set (b1 := uw h (Z.shiftr b h)) in *. set (b0 := uw h b) in *.
  assert (HB : 4 <= 2 ^ h) by (change 4 with (2 ^ 2); apply Z.pow_le_mono_r; lia).
  assert (HW : 2 ^ (2 * h) = 2 ^ h * 2 ^ h) by (rewrite <- Z.pow_add_r by lia; f_equal; lia).
  destruct (long_mul (2 ^ h) a1 a0 b1 b0) as (Hc & Hc' & Hr3 & Hhi); [done..|].
  unfold uw. rewrite !Z.shiftr_div_pow2, HW by lia. 
  rewrite (Z.mod_small (a0 * b0)), (Z.mod_small (a0 * b1) (_ * _)),
    (Z.mod_small (a1 * b0) (_ * _)), (Z.mod_small (a1 * b1) (_ * _)) by nia.
  rewrite (Z.mod_small (a0 * b0 / _ + _ + _)) by exact Hc.
  rewrite (Z.mod_small (_ + a0 * b1 / _ + _ + _) (_ * _)) by exact Hc'.
  rewrite (Z.mod_small (_ + a1 * b1 / _)) by exact Hr3.
  rewrite Z.shiftl_mul_pow2, Z.mod_small by nia.
  rewrite lor_mul_pow2 by (lia || by apply Z.mod_pos_bound; lia).
  rewrite Ea at 1. rewrite Eb at 1. by rewrite Hhi.
Qed.

Lemma rv_mulhu_high int128 w a b : w = 32 \/ w = 64 \/ w = 128 -> inw w a -> inw w b ->
  rv_mulhu int128 w a b = a * b / 2 ^ w.
Proof.
  intros Hw Ha Hb. unfold rv_mulhu.
  assert (Hwide : 0 <= a * b < 2 ^ (2 * w)).
  { unfold inw in *. replace (2 * w) with (w + w) by lia. rewrite Z.pow_add_r by lia. nia. }
  assert (Hhigh : 0 <= a * b / 2 ^ w < 2 ^ w).
  { unfold inw in *. split; [apply Z.div_pos; nia|apply Z.div_lt_upper_bound; nia]. }
  destruct Hw as [-> | [-> | ->]]; simpl.
  - rewrite Z.shiftr_div_pow2, !uw_small; try done. by rewrite uw_small.
  - destruct int128; [|by apply (rv_mulhu_halves_high 32)].
    rewrite Z.shiftr_div_pow2, !uw_small; try done. by rewrite uw_small.
  - by apply (rv_mulhu_halves_high 64).
Qed.

(** The unsigned high half, given the signed operands. *)
Lemma high_signed w a b : 0 < w -> insw w a ->
  uw w (uw w a * b / 2 ^ w) = uw w (a * b / 2 ^ w + if a <? 0 then b else 0).
Proof.
  intros Hw Ha. rewrite (uw_signed w a) by done. pose proof (pow2_pos w ltac:(lia)).
  destruct (a <? 0).
  - replace ((a + 2 ^ w) * b) with (a * b + b * 2 ^ w) by ring. by rewrite Z.div_add by lia.
  - by rewrite Z.add_0_r.
Qed.

(** The products that go through a wider type. *)
Lemma wide_high w x : 0 < w -> insw (2 * w) x ->
  uw w (Z.shiftr (sw (2 * w) x) w) = uw w (x / 2 ^ w).
Proof. intros Hw Hx. by rewrite sw_small, Z.shiftr_div_pow2 by (lia || done). Qed.

Lemma insw_mul w a b : 0 < w -> insw w a -> insw w b \/ inw w b -> insw (2 * w) (a * b).
Proof.
  unfold insw, inw. intros Hw Ha Hb. pose proof (pow2_half w Hw).
  replace (2 * w - 1) with (w + (w - 1)) by lia. rewrite Z.pow_add_r by lia.
  pose proof (pow2_pos (w - 1) ltac:(lia)). nia.
Qed.

Lemma rv_mulh_high int128 w a b : w = 32 \/ (w = 64 /\ int128 = true) ->
  insw w a -> insw w b -> rv_mulh int128 w a b = uw w (a * b / 2 ^ w).
Proof.
  intros Hw Ha Hb. unfold rv_mulh. destruct Hw as [-> | [-> ->]]; simpl.
  - apply (wide_high 32); [lia|]. apply insw_mul; auto; lia.
  - apply (wide_high 64); [lia|]. apply insw_mul; auto; lia.
Qed.

Lemma rv_mulhsu_high int128 w a b : w = 32 \/ (w = 64 /\ int128 = true) ->
  insw w a -> inw w b -> rv_mulhsu int128 w a b = uw w (a * b / 2 ^ w).
Proof.
  intros Hw Ha Hb. unfold rv_mulhsu. destruct Hw as [-> | [-> ->]]; simpl.
  - apply (wide_high 32); [lia|]. apply insw_mul; auto; lia.
  - apply (wide_high 64); [lia|]. apply insw_mul; auto; lia.
Qed.

(** What the half width path computes for signed operands: [a] and [b] are
    subtracted where the other one should be. *)
Lemma mulh_halves_value h a b : 2 <= h -> insw (2 * h) a -> insw (2 * h) b ->
  uw (2 * h) (rv_mulhu_halves (2 * h) (uw (2 * h) a) (uw (2 * h) b)) =
  uw (2 * h) (a * b / 2 ^ (2 * h) + (if a <? 0 then b else 0) + if b <? 0 then a else 0).
Proof.
  intros Hh Ha Hb. rewrite rv_mulhu_halves_high by (lia || apply inw_uw; lia).
  rewrite high_signed by (done || lia). rewrite <- uw_add_l, (Z.mul_comm a).
  rewrite high_signed by (done || lia). rewrite uw_add_l, (Z.mul_comm b).
  rewrite (uw_signed (2 * h) b) by (done || lia).
  destruct (a <? 0), (b <? 0); rewrite ?Z.add_0_r; try done.
  rewrite <- (uw_add_mul _ (_ + b + a) 1) by lia. f_equal. lia.
Qed.

Lemma rv_mulh_halves int128 w a b : w = 64 /\ int128 = false \/ w = 128 ->
  insw w a -> insw w b ->
  uw w (rv_mulh int128 w a b) =
  uw w (a * b / 2 ^ w + (if a <? 0 then b - a else 0) + if b <? 0 then a - b else 0).
Proof.
  intros Hw Ha Hb. unfold rv_mulh.
  assert (exists h, w = 2 * h /\ 2 <= h /\ ((w =? 32) = false) /\ ((w =? 64) && int128 = false))
    as (h & -> & Hh & -> & ->) by (destruct Hw as [[-> ->] | ->]; [exists 32|exists 64]; done).
  set (r1 := rv_mulhu_halves _ _ _).
  transitivity (uw (2 * h) (r1 - (if a <? 0 then a else 0) - if b <? 0 then b else 0)).
  { destruct (a <? 0), (b <? 0); rewrite ?uw_sub_l, ?Z.sub_0_r; try done;
      rewrite uw_small by (apply inw_uw; lia); by rewrite ?uw_sub_l. }
  rewrite <- Z.sub_add_distr, <- uw_sub_l. unfold r1. rewrite mulh_halves_value by done.
  rewrite uw_sub_l. f_equal. destruct (a <? 0), (b <? 0); lia.
Qed.

Lemma rv_mulhsu_halves int128 w a b : w = 64 /\ int128 = false \/ w = 128 ->
  insw w a -> inw w b ->
  uw w (rv_mulhsu int128 w a b) =
  uw w (a * b / 2 ^ w + if a <? 0 then b - a else 0).
Proof.
  intros Hw Ha Hb. unfold rv_mulhsu.
  assert (exists h, w = 2 * h /\ 2 <= h /\ ((w =? 32) = false) /\ ((w =? 64) && int128 = false))
    as (h & -> & Hh & -> & ->) by (destruct Hw as [[-> ->] | ->]; [exists 32|exists 64]; done).
  rewrite rv_mulhu_halves_high by (done || apply inw_uw; lia).
  set (r1 := _ / _).
  transitivity (uw (2 * h) (r1 - if a <? 0 then a else 0)).
  { destruct (a <? 0); rewrite ?Z.sub_0_r; [apply uw_small, inw_uw; lia|done]. }
  rewrite <- uw_sub_l. unfold r1. rewrite high_signed by (done || lia).
  rewrite uw_sub_l. f_equal. destruct (a <? 0); lia.
Qed.

(** * Division *)

Lemma rv_div_range w a b : 0 < w -> insw w a -> insw w b ->
  insw w (rv_div w a b) /\ insw w (rv_rem w a b).
Proof.
  unfold insw, rv_div, rv_rem. intros Hw Ha Hb. pose proof (pow2_pos (w - 1) ltac:(lia)).
  destruct (Z.eqb_spec b 0) as [|Hb0]; [lia|].
  destruct (Z.eqb_spec a (- 2 ^ (w - 1))), (Z.eqb_spec b (-1)); simpl; try lia;
    pose proof (Z.quot_rem' a b); pose proof (Z.rem_bound_abs a b Hb0);
    pose proof (Z.rem_sign_mul a b Hb0); pose proof (Z.quot_abs a b Hb0);
    assert (Z.abs a ÷ Z.abs b <= Z.abs a) by (apply Z.quot_le_upper_bound; nia); nia.
Qed.

(** * Bit manipulation *)

Lemma land_low w shamt k : 0 <= k -> w = 2 ^ k -> Z.land shamt (w - 1) = shamt mod w.
Proof.
  intros Hk ->. rewrite <- Z.land_ones by done. by rewrite Z.ones_equiv, Z.sub_1_r.
Qed.

Lemma rv_rol_testbit w a n i : w = 32 \/ w = 64 -> inw w a -> 0 <= i < w ->
  Z.testbit (rv_rol w a n) i = Z.testbit a ((i - n) mod w).
Proof.
  intros Hw Ha Hi. unfold rv_rol.
  assert (Z.land n (w - 1) = n mod w) as ->.
  { destruct Hw as [-> | ->]; [apply (land_low _ _ 5)|apply (land_low _ _ 6)]; lia. }
  rewrite <- Zminus_mod_idemp_r. pose proof (Z.mod_pos_bound n w ltac:(lia)).
  set (k := n mod w) in *. destruct (Z.eqb_spec k 0) as [->|].
  { by rewrite Z.sub_0_r, Z.mod_small by lia. }
  rewrite Z.lor_spec, uw_testbit, Z.shiftl_spec, Z.shiftr_spec by lia.
  destruct (Z.ltb_spec i w); [|lia]. simpl. destruct (decide (i < k)).
  - rewrite testbit_neg by lia. simpl. f_equal.
    rewrite <- (Z.mod_small (i + (w - k)) w) by lia.
    rewrite <- (Z_mod_plus_full (i - k) 1 w). f_equal. lia.
  - rewrite (inw_high w a (i + (w - k))), orb_false_r, Z.mod_small by (done || lia). done.
Qed.

Lemma rv_ror_testbit w a n i : w = 32 \/ w = 64 -> inw w a -> 0 <= i < w ->
  Z.testbit (rv_ror w a n) i = Z.testbit a ((i + n) mod w).
Proof.
  intros Hw Ha Hi. unfold rv_ror. rewrite rv_rol_testbit by done. f_equal.
  rewrite <- Zminus_mod_idemp_r. unfold u32, uw.
  assert ((- n) mod 2 ^ 32 mod w = (- n) mod w) as ->.
  { apply Z.mod_mod_divide. destruct Hw as [-> | ->]; [by exists (2 ^ 27)|by exists (2 ^ 26)]. }
  rewrite Zminus_mod_idemp_r. f_equal. lia.
Qed.

Lemma rv_orc_b_testbit w a i : w = 32 \/ w = 64 -> 0 <= i < w ->
  Z.testbit (rv_orc_b w a) i = nz (Z.land (Z.shiftr a (8 * (i / 8))) 0xff).
Proof.
  intros Hw Hi. unfold rv_orc_b.
  pose (P j r := forall i, 0 <= i < w -> Z.testbit r i =
    (i / 8 <? j) && nz (Z.land (Z.shiftr a (8 * (i / 8))) 0xff)).
  set (r := for_each _ _ _ _).
  assert (P (0 + Z.of_nat (Z.to_nat (w / 8))) r) as Hr.
  { apply for_each_ind; unfold P.
    - intros j t Hj Ht k Hk.
      assert (Hset : Z.testbit (uw w (Z.shiftl 0xff (8 * j))) k = (k / 8 =? j)).
      { rewrite uw_testbit, Z.shiftl_spec by lia. change 0xff with (Z.ones 8).
        destruct (decide (k - 8 * j < 0)).
        - rewrite testbit_neg, andb_false_r by lia. case_cmp; [|done].
          Z.div_mod_to_equations; lia.
        - rewrite Z.testbit_ones_nonneg by lia.
          repeat case_cmp; simpl; try lia; try done; Z.div_mod_to_equations; lia. }
      destruct (decide (k / 8 = j)) as [<- | Hne]; case_match eqn:Hb;
        rewrite ?Z.lor_spec, ?Hset, Ht by done; repeat (case_cmp; try lia); simpl;
        rewrite ?Hb, ?orb_false_r; done.
    - intros k Hk. rewrite Z.bits_0. case_cmp; [|done]. Z.div_mod_to_equations; lia. }
  rewrite (Hr i Hi). case_cmp; [done|].
  destruct Hw as [-> | ->]; Z.div_mod_to_equations; lia.
Qed.

(** The number of bits set among the first [n]. *)
Definition count_bits (n : nat) (a : Z) : Z :=
  Z.of_nat (length (filter (fun i => Z.testbit a (Z.of_nat i) = true) (seq 0 n))).

Lemma popcount_count n a : builtin_popcount n a = count_bits n a.
Proof.
  unfold builtin_popcount.
  pose (P j r := r = count_bits (Z.to_nat j) a).
  enough (P (0 + Z.of_nat n) (for_each n 0 (fun i k => k + Z_of_bool (Z.testbit a i)) 0))
    as Hn by (unfold P in Hn; rewrite Hn; f_equal; lia).
  apply for_each_ind; unfold P; [|done]. intros j r Hj ->. unfold count_bits.
  replace (Z.to_nat (j + 1)) with (S (Z.to_nat j)) by lia.
  rewrite seq_S, filter_app, length_app. simpl.
  rewrite filter_cons, filter_nil. rewrite Z2Nat.id by lia.
  destruct (Z.testbit a j); simpl; lia.
Qed.

Lemma rv_clz_spec w a : 0 < w -> inw w a -> a <> 0 ->
  0 <= rv_clz w a < w /\ Z.testbit a (w - 1 - rv_clz w a) = true /\
  forall i, w - 1 - rv_clz w a < i -> Z.testbit a i = false.
Proof.
  intros Hw Ha Hnz. unfold rv_clz, builtin_clz. destruct (Z.eqb_spec a 0); [done|].
  unfold inw in Ha. pose proof (Z.log2_nonneg a).
  assert (Z.log2 a < w) by (apply Z.log2_lt_pow2; lia).
  replace (w - 1 - (w - 1 - Z.log2 a)) with (Z.log2 a) by lia.
  repeat split; try lia; [apply Z.bit_log2; lia|]. intros i Hi. apply Z.bits_above_log2; lia.
Qed.

(** * Properties *)

(** the high half of a product.  [rv_mulhu] is exact at every XLEN, with
    or without a host type twice as wide; [rv_mulh] and [rv_mulhsu] are exact
    wherever the product goes through such a type. *)
Theorem mul_high_exact int128 w a b ua ub :
  w = 32 \/ w = 64 \/ w = 128 -> inw w ua -> inw w ub -> insw w a -> insw w b ->
  rv_mulhu int128 w ua ub = ua * ub / 2 ^ w /\
  (w = 32 \/ (w = 64 /\ int128 = true) ->
   rv_mulh int128 w a b = uw w (a * b / 2 ^ w) /\
   rv_mulhsu int128 w a ub = uw w (a * ub / 2 ^ w)).
Proof.
  intros. split; [by apply rv_mulhu_high|]. intros.
  split; [by apply rv_mulh_high|by apply rv_mulhsu_high].
Qed.

Lemma mul_high_exact_witness :
  rv_mulhu false 128 (2 ^ 128 - 1) (2 ^ 128 - 1) = (2 ^ 128 - 1) * (2 ^ 128 - 1) / 2 ^ 128 /\
  rv_mulh true 64 (-5) 7 = uw 64 (-5 * 7 / 2 ^ 64).
Proof.
  split.
  - refine (proj1 (mul_high_exact false 128 0 0 _ _ _ _ _ _ _)); [tauto|in_range..].
  - refine (proj1 (proj2 (mul_high_exact true 64 (-5) 7 0 0 _ _ _ _ _) _));
      [tauto|in_range..|tauto].
Defined.

(** where the product does not go through a wider type (RV128, and RV64 on
    a host without 128-bit integers) [rv_mulh] and [rv_mulhsu] correct the
    unsigned product by the wrong operand: a negative [a] has [a] subtracted
    instead of [b] and a negative [b] has [b] instead of [a], so the result is
    off by their difference. *)
Theorem mulh_halves_off int128 w a b ub :
  w = 64 /\ int128 = false \/ w = 128 -> insw w a -> insw w b -> inw w ub ->
  uw w (rv_mulh int128 w a b) =
    uw w (a * b / 2 ^ w + (if a <? 0 then b - a else 0) + if b <? 0 then a - b else 0) /\
  uw w (rv_mulhsu int128 w a ub) = uw w (a * ub / 2 ^ w + if a <? 0 then ub - a else 0).
Proof.
  intros. split; [by apply rv_mulh_halves|by apply rv_mulhsu_halves].
Qed.

(** The high half of -1 * 1 is -1, and comes out as 1. *)
Lemma mulh_halves_off_witness :
  uw 64 (rv_mulh false 64 (-1) 1) = 1 /\ uw 64 (-1 * 1 / 2 ^ 64) = 2 ^ 64 - 1.
Proof.
  split; [|reflexivity].
  destruct (mulh_halves_off false 64 (-1) 1 0) as [H _]; [tauto|in_range..|].
  rewrite H. reflexivity.
Defined.

(** division as RISC-V defines it, for every operand: quotient and
    remainder are values of the operands' width and the dividend is
    divisor * quotient + remainder modulo the width.  The remainder is smaller
    than a nonzero divisor and has the dividend's sign; dividing by zero gives
    -1 and the dividend, and the most negative value divided by -1 itself and
    0.  The unsigned versions likewise, where the equation is exact. *)
Theorem div_rem_exact w a b ua ub :
  0 < w -> insw w a -> insw w b -> inw w ua -> inw w ub ->
  (insw w (rv_div w a b) /\ insw w (rv_rem w a b) /\
   uw w a = uw w (b * rv_div w a b + rv_rem w a b) /\
   (b = 0 -> rv_div w a b = -1 /\ rv_rem w a b = a) /\
   (b <> 0 -> Z.abs (rv_rem w a b) < Z.abs b /\ 0 <= rv_rem w a b * a)) /\
  (inw w (rv_divu w ua ub) /\ inw w (rv_remu w ua ub) /\
   (ub = 0 -> rv_divu w ua ub = 2 ^ w - 1 /\ rv_remu w ua ub = ua) /\
   (ub <> 0 -> ua = ub * rv_divu w ua ub + rv_remu w ua ub /\ rv_remu w ua ub < ub)).
Proof.
  intros Hw Ha Hb Hua Hub. pose proof (rv_div_range w a b Hw Ha Hb) as [Hq Hr].
  split; [do 2 (split; [done|])|].
  - unfold rv_div, rv_rem. pose proof (pow2_half w Hw).
    destruct (Z.eqb_spec b 0) as [-> | Hb0]; [by split; [f_equal; lia|]|].
    destruct (Z.eqb_spec a (- 2 ^ (w - 1))), (Z.eqb_spec b (-1)); simpl.
    { subst. split; [|lia]. rewrite <- (uw_add_mul w (- 2 ^ (w - 1)) 1) by lia. f_equal. lia. }
    all: pose proof (Z.quot_rem' a b); pose proof (Z.rem_bound_abs a b Hb0);
      pose proof (Z.rem_sign_mul a b Hb0); split; [by f_equal|lia].
  - unfold rv_divu, rv_remu, inw in *. destruct (Z.eqb_spec ub 0) as [-> | Hb0].
    + unfold uw. rewrite <- (Z_mod_plus_full (-1) 1), Z.mod_small by lia. lia.
    + pose proof (Z.div_mod ua ub Hb0). pose proof (Z.mod_pos_bound ua ub).
      pose proof (Z.div_pos ua ub). assert (ua / ub <= ua) by (apply Z.div_le_upper_bound; nia).
      lia.
Qed.

Lemma div_rem_exact_witness :
  uw 64 (- 2 ^ 63) = uw 64 (-1 * rv_div 64 (- 2 ^ 63) (-1) + rv_rem 64 (- 2 ^ 63) (-1)) /\
  rv_divu 32 7 0 = 2 ^ 32 - 1.
Proof.
  split.
  - refine (proj1 (proj2 (proj2 (proj1 (div_rem_exact 64 (- 2 ^ 63) (-1) 0 0 _ _ _ _ _)))));
      [lia|in_range..].
  - refine (proj1 (proj1 (proj2 (proj2 (proj2 (div_rem_exact 32 0 0 7 0 _ _ _ _ _)))) _));
      [lia|in_range..|reflexivity].
Defined.

(** the Zbb primitives, bit by bit: rotations move bit [i] to [i + n] and
    [i - n] modulo the width, [rev8] reverses the bytes, [orc.b] fills every
    byte that is not zero, [clz] and [ctz] find the highest and the lowest bit
    set (the width, when there is none) and [cpop] counts the bits set. *)
Theorem zbb_bits w a n i : w = 32 \/ w = 64 -> inw w a -> 0 <= i < w ->
  Z.testbit (rv_rol w a n) i = Z.testbit a ((i - n) mod w) /\
  Z.testbit (rv_ror w a n) i = Z.testbit a ((i + n) mod w) /\
  Z.testbit (rv_rev8 w a) i = Z.testbit a (w - 8 - 8 * (i / 8) + i mod 8) /\
  Z.testbit (rv_orc_b w a) i = nz (Z.land (Z.shiftr a (8 * (i / 8))) 0xff) /\
  (a = 0 -> rv_clz w a = w /\ rv_ctz w a = w) /\
  (a <> 0 -> lowest_bit a (rv_ctz w a) /\ Z.testbit a (w - 1 - rv_clz w a) = true /\
             forall k, w - 1 - rv_clz w a < k -> Z.testbit a k = false) /\
  rv_cpop w a = count_bits (Z.to_nat w) a.
Proof.
  intros Hw Ha Hi. split; [by apply rv_rol_testbit|]. split; [by apply rv_ror_testbit|].
  split; [|split; [by apply rv_orc_b_testbit|split; [by intros ->|split]]].
  - unfold rv_rev8. rewrite builtin_bswap_testbit by lia.
    assert (Z.of_nat (Z.to_nat (w / 8)) = w / 8) as -> by (destruct Hw as [-> | ->]; done).
    assert (8 * (w / 8) = w) as -> by (destruct Hw as [-> | ->]; done).
    destruct (Z.ltb_spec i w); [|lia]. simpl. f_equal.
    destruct Hw as [-> | ->]; Z.div_mod_to_equations; lia.
  - intros Hnz. split; [|by apply rv_clz_spec; [lia|..]].
    unfold rv_ctz. destruct (Z.eqb_spec a 0); [done|].
    apply builtin_ctz_lowest; [by rewrite Z2Nat.id by lia|done].
  - apply popcount_count.
Qed.

Lemma zbb_bits_witness :
  Z.testbit (rv_ror 32 0x80000001 4) 28 = Z.testbit 0x80000001 ((28 + 4) mod 32) /\
  rv_ror 32 0x80000001 4 = 0x18000000.
Proof.
  split; [|reflexivity].
  refine (proj1 (proj2 (zbb_bits 32 0x80000001 4 28 _ _ _))); [tauto|in_range|lia].
Defined.
