(* ===== verification/RvState.v ===== *)
(** The state of a RISC-V hart: [src/cpu/riscv/riscv_cpu_priv.h], [riscv_cpu.h]
    and the parts of [riscv_cpu_impl.h] that only look at it.

    [RISCVCPUState<MaxXlen>] is the record [RISCVCPUState], for any maximum
    XLEN: the width is the class parameter [MaxXlen] and [target_ulong] values
    are integers of [max_xlen] bits.  What other threads or devices reach (RAM,
    the memory map, the TLBs they flush, the atomics they post to, the device
    states) is the sub-record [Shared]; [others] is what the other threads do
    to it at the next points where they can come in between. *)

From stdpp Require Import base numbers list gmap.
From S2P Require Import Prelude Bits Cutils IoMem.
Local Open Scope Z_scope.

(** * Widths *)

(** The template parameter [MaxXlen]: 32, 64 or 128. *)
Class MaxXlen := max_xlen : Z.

Definition valid_xlen (x : Z) : Prop := x = 32 \/ x = 64 \/ x = 128.

Definition FLEN `{MaxXlen} : Z := if max_xlen =? 128 then 128 else 64.
Definition MLEN `{MaxXlen} : Z := FLEN.

(** Conversion to [target_ulong], and its value as a [target_long]. *)
Definition tu `{MaxXlen} (x : Z) : Z := uw max_xlen x.
Definition ts `{MaxXlen} (x : Z) : Z := sw max_xlen x.

(** [(intx_t)v] stored in a [target_ulong]. *)
Definition sx `{MaxXlen} (xlen v : Z) : Z := tu (sw xlen v).

(** * Constants *)

Definition TLB_BITS : Z := 8.
Definition TLB_SIZE : nat := 256.

Definition CAUSE_MISALIGNED_FETCH : Z := 0x0.
Definition CAUSE_FAULT_FETCH : Z := 0x1.
Definition CAUSE_ILLEGAL_INSTRUCTION : Z := 0x2.
Definition CAUSE_BREAKPOINT : Z := 0x3.
Definition CAUSE_FAULT_LOAD : Z := 0x5.
Definition CAUSE_FAULT_STORE : Z := 0x7.
Definition CAUSE_USER_ECALL : Z := 0x8.
Definition CAUSE_SUPERVISOR_ECALL : Z := 0x9.
Definition CAUSE_MACHINE_ECALL : Z := 0xb.
Definition CAUSE_FETCH_PAGE_FAULT : Z := 0xc.
Definition CAUSE_LOAD_PAGE_FAULT : Z := 0xd.
Definition CAUSE_STORE_PAGE_FAULT : Z := 0xf.
Definition CAUSE_INTERRUPT : Z := bit_at 32 31.

Definition PRV_U : Z := 0.
Definition PRV_S : Z := 1.
Definition PRV_H : Z := 2.
Definition PRV_M : Z := 3.

Definition MIP_SSIP : Z := bit_at 32 1.
Definition MIP_MSIP : Z := bit_at 32 3.
Definition MIP_STIP : Z := bit_at 32 5.
Definition MIP_MTIP : Z := bit_at 32 7.
Definition MIP_SEIP : Z := bit_at 32 9.
Definition MIP_MEIP : Z := bit_at 32 11.

(** [bit_at(c - 'A')] *)
Definition MCPUID_A : Z := bit_at 32 0.
Definition MCPUID_C : Z := bit_at 32 2.
Definition MCPUID_D : Z := bit_at 32 3.
Definition MCPUID_F : Z := bit_at 32 5.
Definition MCPUID_I : Z := bit_at 32 8.
Definition MCPUID_M : Z := bit_at 32 12.
Definition MCPUID_Q : Z := bit_at 32 16.
Definition MCPUID_SUPER : Z := bit_at 32 18.
Definition MCPUID_USER : Z := bit_at 32 20.

Definition MSTATUS_SIE_SHIFT : Z := 1.
Definition MSTATUS_MIE_SHIFT : Z := 3.
Definition MSTATUS_SPIE_SHIFT : Z := 5.
Definition MSTATUS_MPIE_SHIFT : Z := 7.
Definition MSTATUS_SPP_SHIFT : Z := 8.
Definition MSTATUS_MPP_SHIFT : Z := 11.
Definition MSTATUS_FS_SHIFT : Z := 13.
Definition MSTATUS_UXL_SHIFT : Z := 32.
Definition MSTATUS_SXL_SHIFT : Z := 34.
Definition MSTATUS_UXL_MASK : Z := field_mask 64 MSTATUS_UXL_SHIFT 2.
Definition MSTATUS_SXL_MASK : Z := field_mask 64 MSTATUS_SXL_SHIFT 2.

Definition ENVCFG_FIOM : Z := bit_at 64 0.
Definition MENVCFG_ADUE : Z := bit_at 64 61.
Definition MENVCFG_STCE : Z := bit_at 64 63.
Definition PG_SHIFT : Z := 12.

Section Masks.
Context `{MaxXlen}.

Definition PTE_RESERVED_MASK : Z :=
  if 64 <=? max_xlen then field_mask max_xlen 54 10 else 0.

Definition MSTATUS_SIE : Z := bit_at max_xlen MSTATUS_SIE_SHIFT.
Definition MSTATUS_MIE : Z := bit_at max_xlen MSTATUS_MIE_SHIFT.
Definition MSTATUS_SPIE : Z := bit_at max_xlen MSTATUS_SPIE_SHIFT.
Definition MSTATUS_MPIE : Z := bit_at max_xlen MSTATUS_MPIE_SHIFT.
Definition MSTATUS_SPP : Z := bit_at max_xlen MSTATUS_SPP_SHIFT.
Definition MSTATUS_MPP : Z := field_mask max_xlen MSTATUS_MPP_SHIFT 2.
Definition MSTATUS_FS : Z := field_mask max_xlen MSTATUS_FS_SHIFT 2.
Definition MSTATUS_XS : Z := field_mask max_xlen 15 2.
Definition MSTATUS_MPRV : Z := bit_at max_xlen 17.
Definition MSTATUS_SUM : Z := bit_at max_xlen 18.
Definition MSTATUS_MXR : Z := bit_at max_xlen 19.
Definition MSTATUS_TVM : Z := bit_at max_xlen 20.
Definition MSTATUS_TW : Z := bit_at max_xlen 21.
Definition MSTATUS_TSR : Z := bit_at max_xlen 22.

(** [a | b | ...] *)
Definition lors (l : list Z) : Z := fold_right Z.lor 0 l.

Definition SSTATUS_MASK : Z :=
  lors [MSTATUS_SIE; MSTATUS_SPIE; MSTATUS_SPP; MSTATUS_FS; MSTATUS_XS;
        MSTATUS_SUM; MSTATUS_MXR; if 64 <=? max_xlen then MSTATUS_UXL_MASK else 0].
Definition MSTATUS_MASK : Z :=
  lors [MSTATUS_SIE; MSTATUS_MIE; MSTATUS_SPIE; MSTATUS_MPIE; MSTATUS_SPP; MSTATUS_MPP;
        MSTATUS_FS; MSTATUS_MPRV; MSTATUS_SUM; MSTATUS_MXR; MSTATUS_TVM; MSTATUS_TW;
        MSTATUS_TSR].

Definition PG_MASK : Z := bit_mask max_xlen PG_SHIFT.
End Masks.

Definition RISCV_IMSIC_NUM_IDS : Z := 255.
Definition IMSIC_WORDS : nat := 4.
Definition IMSIC_FILE_M : Z := 0.
Definition IMSIC_FILE_S : Z := 1.

(** * Data *)

Inductive RISCVInterruptArch := RISCV_INTR_BASE | RISCV_INTR_AIA | RISCV_INTR_AIA_IMSIC.
#[export] Instance intr_arch_eq_dec : EqDecision RISCVInterruptArch.
Proof. solve_decision. Defined.

Inductive RISCVHsmState :=
  RISCV_HSM_STARTED | RISCV_HSM_STOPPED | RISCV_HSM_START_PENDING | RISCV_HSM_SUSPENDED.
#[export] Instance hsm_state_eq_dec : EqDecision RISCVHsmState.
Proof. solve_decision. Defined.

(** An IMSIC interrupt file.  Bit n of the arrays is identity n. *)
Record ImsicFile := mkImsic {
  eidelivery : Z;
  eithreshold : Z;
  eip : list Z;
  eie : list Z;
}.
#[export] Instance eta_imsic : Eta ImsicFile := fun f =>
  mkImsic (eidelivery f) (eithreshold f) (eip f) (eie f).

Definition imsic0 : ImsicFile :=
  mkImsic 0 0 (replicate IMSIC_WORDS 0) (replicate IMSIC_WORDS 0).

Record TLBEntry := mkTLB { vaddr : Z; mem_addend : Z }.
Definition tlb0 : TLBEntry := mkTLB 0 0.

#[local] Set Primitive Projections.

(** What other threads and the devices reach. *)
Record Shared (D : Type) := mkShared {
  (** host RAM, a byte per host address *)
  mem : gmap Z Z;
  mem_map : PhysMemoryMap;
  tlb_read : list TLBEntry;
  tlb_write : list TLBEntry;
  tlb_code : list TLBEntry;
  (** posted from other threads and taken in by [process_inbox] *)
  inbox_pending : bool;
  exit_request : bool;
  stimer_deadline : Z;
  irq_lines : Z;
  msi_pending : list (list Z);
  hsm_state : RISCVHsmState;
  hsm_addr : Z;
  hsm_opaque : Z;
  hsm_start_posted : bool;
  ssip_posted : bool;
  tlb_flush_req : Z;
  tlb_flush_done : Z;
  (** what [RtcTime] (or the host clock, without a source) returns now *)
  rtc_now : Z;
  (** the calls of [STimerChanged], latest first *)
  stimer_changed : list Z;
  (** the calls of [MachineTrap], latest first *)
  traps_unhandled : list (Z * Z * Z);
  (** the devices *)
  dev : D;
}.
Arguments mem {D} _.
Arguments mem_map {D} _.
Arguments tlb_read {D} _.
Arguments tlb_write {D} _.
Arguments tlb_code {D} _.
Arguments inbox_pending {D} _.
Arguments exit_request {D} _.
Arguments stimer_deadline {D} _.
Arguments irq_lines {D} _.
Arguments msi_pending {D} _.
Arguments hsm_state {D} _.
Arguments hsm_addr {D} _.
Arguments hsm_opaque {D} _.
Arguments hsm_start_posted {D} _.
Arguments ssip_posted {D} _.
Arguments tlb_flush_req {D} _.
Arguments tlb_flush_done {D} _.
Arguments rtc_now {D} _.
Arguments stimer_changed {D} _.
Arguments traps_unhandled {D} _.
Arguments dev {D} _.

Record RISCVCPUState (D : Type) := mkCPU {
  pc : Z;
  reg : list Z;
  fp_reg : list Z;
  fflags : Z;
  frm : Z;
  (** current XLEN value, [<= max_xlen] *)
  cur_xlen : Z;
  (** see [PRV_x] *)
  priv : Z;
  (** MSTATUS_FS value *)
  fs : Z;
  (** MXL field in MISA register *)
  mxl : Z;
  n_cycles : Z;
  insn_counter : Z;
  (** While a counter runs its base holds the difference between the counter and [insn_counter]; while [mcountinhibit] freezes it, the counter's value outright. *)
  mcycle_base : Z;
  minstret_base : Z;
  power_down_flag : bool;
  (** used during MMU exception handling *)
  pending_exception : Z;
  (** whether there is one *)
  rtc_time_source : bool;
  pending_tval : Z;
  mstatus : Z;
  mtvec : Z;
  mscratch : Z;
  mepc : Z;
  mcause : Z;
  mtval : Z;
  mhartid : Z;
  misa : Z;
  mie : Z;
  mip : Z;
  medeleg : Z;
  mideleg : Z;
  mcounteren : Z;
  mcountinhibit : Z;
  menvcfg : Z;
  stvec : Z;
  sscratch : Z;
  sepc : Z;
  scause : Z;
  stval : Z;
  satp : Z;
  scounteren : Z;
  senvcfg : Z;
  stimecmp : Z;
  intr_arch : RISCVInterruptArch;
  miselect : Z;
  siselect : Z;
  (** [IMSIC_FILE_M], [IMSIC_FILE_S] *)
  imsic : list ImsicFile;
  (** the [mip] bits [irq_lines] drives *)
  irq_line_mask : Z;
  (** an SBI handler is set; no firmware runs in M-mode *)
  sbi : bool;
  hsm_stopped : bool;
  hsm_suspended : bool;
  hsm_resume : bool;
  (** for atomic LR/SC *)
  load_res : Z;
  load_val : Z;
  smp : bool;
  sh : Shared D;
  (** what other threads do next *)
  others : list (Shared D -> Shared D);
}.
Arguments pc {D} _.
Arguments reg {D} _.
Arguments fp_reg {D} _.
Arguments fflags {D} _.
Arguments frm {D} _.
Arguments cur_xlen {D} _.
Arguments priv {D} _.
Arguments fs {D} _.
Arguments mxl {D} _.
Arguments n_cycles {D} _.
Arguments insn_counter {D} _.
Arguments mcycle_base {D} _.
Arguments minstret_base {D} _.
Arguments power_down_flag {D} _.
Arguments pending_exception {D} _.
Arguments rtc_time_source {D} _.
Arguments pending_tval {D} _.
Arguments mstatus {D} _.
Arguments mtvec {D} _.
Arguments mscratch {D} _.
Arguments mepc {D} _.
Arguments mcause {D} _.
Arguments mtval {D} _.
Arguments mhartid {D} _.
Arguments misa {D} _.
Arguments mie {D} _.
Arguments mip {D} _.
Arguments medeleg {D} _.
Arguments mideleg {D} _.
Arguments mcounteren {D} _.
Arguments mcountinhibit {D} _.
Arguments menvcfg {D} _.
Arguments stvec {D} _.
Arguments sscratch {D} _.
Arguments sepc {D} _.
Arguments scause {D} _.
Arguments stval {D} _.
Arguments satp {D} _.
Arguments scounteren {D} _.
Arguments senvcfg {D} _.
Arguments stimecmp {D} _.
Arguments intr_arch {D} _.
Arguments miselect {D} _.
Arguments siselect {D} _.
Arguments imsic {D} _.
Arguments irq_line_mask {D} _.
Arguments sbi {D} _.
Arguments hsm_stopped {D} _.
Arguments hsm_suspended {D} _.
Arguments hsm_resume {D} _.
Arguments load_res {D} _.
Arguments load_val {D} _.
Arguments smp {D} _.
Arguments sh {D} _.
Arguments others {D} _.
#[local] Unset Primitive Projections.

#[export] Instance eta_shared D : Eta (Shared D) := fun r =>
  mkShared D (mem r) (mem_map r) (tlb_read r) (tlb_write r) (tlb_code r) (inbox_pending r)
    (exit_request r) (stimer_deadline r) (irq_lines r) (msi_pending r) (hsm_state r)
    (hsm_addr r) (hsm_opaque r) (hsm_start_posted r) (ssip_posted r) (tlb_flush_req r)
    (tlb_flush_done r) (rtc_now r) (stimer_changed r) (traps_unhandled r) (dev r).
#[export] Instance upd_mem {D} : Setter (mem : Shared D -> _) := ltac:(solve_setter).
#[export] Instance upd_mem_map {D} : Setter (mem_map : Shared D -> _) := ltac:(solve_setter).
#[export] Instance upd_tlb_read {D} : Setter (tlb_read : Shared D -> _) := ltac:(solve_setter).
#[export] Instance upd_tlb_write {D} : Setter (tlb_write : Shared D -> _) := ltac:(solve_setter).
#[export] Instance upd_tlb_code {D} : Setter (tlb_code : Shared D -> _) := ltac:(solve_setter).
#[export] Instance upd_inbox_pending {D} : Setter (inbox_pending : Shared D -> _) := ltac:(solve_setter).
#[export] Instance upd_exit_request {D} : Setter (exit_request : Shared D -> _) := ltac:(solve_setter).
#[export] Instance upd_stimer_deadline {D} : Setter (stimer_deadline : Shared D -> _) := ltac:(solve_setter).
#[export] Instance upd_irq_lines {D} : Setter (irq_lines : Shared D -> _) := ltac:(solve_setter).
#[export] Instance upd_msi_pending {D} : Setter (msi_pending : Shared D -> _) := ltac:(solve_setter).
#[export] Instance upd_hsm_state {D} : Setter (hsm_state : Shared D -> _) := ltac:(solve_setter).
#[export] Instance upd_hsm_addr {D} : Setter (hsm_addr : Shared D -> _) := ltac:(solve_setter).
#[export] Instance upd_hsm_opaque {D} : Setter (hsm_opaque : Shared D -> _) := ltac:(solve_setter).
#[export] Instance upd_hsm_start_posted {D} : Setter (hsm_start_posted : Shared D -> _) := ltac:(solve_setter).
#[export] Instance upd_ssip_posted {D} : Setter (ssip_posted : Shared D -> _) := ltac:(solve_setter).
#[export] Instance upd_tlb_flush_req {D} : Setter (tlb_flush_req : Shared D -> _) := ltac:(solve_setter).
#[export] Instance upd_tlb_flush_done {D} : Setter (tlb_flush_done : Shared D -> _) := ltac:(solve_setter).
#[export] Instance upd_rtc_now {D} : Setter (rtc_now : Shared D -> _) := ltac:(solve_setter).
#[export] Instance upd_stimer_changed {D} : Setter (stimer_changed : Shared D -> _) := ltac:(solve_setter).
#[export] Instance upd_traps_unhandled {D} : Setter (traps_unhandled : Shared D -> _) := ltac:(solve_setter).
#[export] Instance upd_dev {D} : Setter (dev : Shared D -> _) := ltac:(solve_setter).

#[export] Instance eta_cpu D : Eta (RISCVCPUState D) := fun r =>
  mkCPU D (pc r) (reg r) (fp_reg r) (fflags r) (frm r) (cur_xlen r) (priv r) (fs r) (mxl
    r) (n_cycles r) (insn_counter r) (mcycle_base r) (minstret_base r) (power_down_flag r)
    (pending_exception r) (rtc_time_source r) (pending_tval r) (mstatus r) (mtvec r)
    (mscratch r) (mepc r) (mcause r) (mtval r) (mhartid r) (misa r) (mie r) (mip r)
    (medeleg r) (mideleg r) (mcounteren r) (mcountinhibit r) (menvcfg r) (stvec r)
    (sscratch r) (sepc r) (scause r) (stval r) (satp r) (scounteren r) (senvcfg r)
    (stimecmp r) (intr_arch r) (miselect r) (siselect r) (imsic r) (irq_line_mask r) (sbi
    r) (hsm_stopped r) (hsm_suspended r) (hsm_resume r) (load_res r) (load_val r) (smp r)
    (sh r) (others r).
#[export] Instance upd_pc {D} : Setter (pc : RISCVCPUState D -> _) := ltac:(solve_setter).
#[export] Instance upd_reg {D} : Setter (reg : RISCVCPUState D -> _) := ltac:(solve_setter).
#[export] Instance upd_fp_reg {D} : Setter (fp_reg : RISCVCPUState D -> _) := ltac:(solve_setter).
#[export] Instance upd_fflags {D} : Setter (fflags : RISCVCPUState D -> _) := ltac:(solve_setter).
#[export] Instance upd_frm {D} : Setter (frm : RISCVCPUState D -> _) := ltac:(solve_setter).
#[export] Instance upd_cur_xlen {D} : Setter (cur_xlen : RISCVCPUState D -> _) := ltac:(solve_setter).
#[export] Instance upd_priv {D} : Setter (priv : RISCVCPUState D -> _) := ltac:(solve_setter).
#[export] Instance upd_fs {D} : Setter (fs : RISCVCPUState D -> _) := ltac:(solve_setter).
#[export] Instance upd_mxl {D} : Setter (mxl : RISCVCPUState D -> _) := ltac:(solve_setter).
#[export] Instance upd_n_cycles {D} : Setter (n_cycles : RISCVCPUState D -> _) := ltac:(solve_setter).
#[export] Instance upd_insn_counter {D} : Setter (insn_counter : RISCVCPUState D -> _) := ltac:(solve_setter).
#[export] Instance upd_mcycle_base {D} : Setter (mcycle_base : RISCVCPUState D -> _) := ltac:(solve_setter).
#[export] Instance upd_minstret_base {D} : Setter (minstret_base : RISCVCPUState D -> _) := ltac:(solve_setter).
#[export] Instance upd_power_down_flag {D} : Setter (power_down_flag : RISCVCPUState D -> _) := ltac:(solve_setter).
#[export] Instance upd_pending_exception {D} : Setter (pending_exception : RISCVCPUState D -> _) := ltac:(solve_setter).
#[export] Instance upd_rtc_time_source {D} : Setter (rtc_time_source : RISCVCPUState D -> _) := ltac:(solve_setter).
#[export] Instance upd_pending_tval {D} : Setter (pending_tval : RISCVCPUState D -> _) := ltac:(solve_setter).
#[export] Instance upd_mstatus {D} : Setter (mstatus : RISCVCPUState D -> _) := ltac:(solve_setter).
#[export] Instance upd_mtvec {D} : Setter (mtvec : RISCVCPUState D -> _) := ltac:(solve_setter).
#[export] Instance upd_mscratch {D} : Setter (mscratch : RISCVCPUState D -> _) := ltac:(solve_setter).
#[export] Instance upd_mepc {D} : Setter (mepc : RISCVCPUState D -> _) := ltac:(solve_setter).
#[export] Instance upd_mcause {D} : Setter (mcause : RISCVCPUState D -> _) := ltac:(solve_setter).
#[export] Instance upd_mtval {D} : Setter (mtval : RISCVCPUState D -> _) := ltac:(solve_setter).
#[export] Instance upd_mhartid {D} : Setter (mhartid : RISCVCPUState D -> _) := ltac:(solve_setter).
#[export] Instance upd_misa {D} : Setter (misa : RISCVCPUState D -> _) := ltac:(solve_setter).
#[export] Instance upd_mie {D} : Setter (mie : RISCVCPUState D -> _) := ltac:(solve_setter).
#[export] Instance upd_mip {D} : Setter (mip : RISCVCPUState D -> _) := ltac:(solve_setter).
#[export] Instance upd_medeleg {D} : Setter (medeleg : RISCVCPUState D -> _) := ltac:(solve_setter).
#[export] Instance upd_mideleg {D} : Setter (mideleg : RISCVCPUState D -> _) := ltac:(solve_setter).
#[export] Instance upd_mcounteren {D} : Setter (mcounteren : RISCVCPUState D -> _) := ltac:(solve_setter).
#[export] Instance upd_mcountinhibit {D} : Setter (mcountinhibit : RISCVCPUState D -> _) := ltac:(solve_setter).
#[export] Instance upd_menvcfg {D} : Setter (menvcfg : RISCVCPUState D -> _) := ltac:(solve_setter).
#[export] Instance upd_stvec {D} : Setter (stvec : RISCVCPUState D -> _) := ltac:(solve_setter).
#[export] Instance upd_sscratch {D} : Setter (sscratch : RISCVCPUState D -> _) := ltac:(solve_setter).
#[export] Instance upd_sepc {D} : Setter (sepc : RISCVCPUState D -> _) := ltac:(solve_setter).
#[export] Instance upd_scause {D} : Setter (scause : RISCVCPUState D -> _) := ltac:(solve_setter).
#[export] Instance upd_stval {D} : Setter (stval : RISCVCPUState D -> _) := ltac:(solve_setter).
#[export] Instance upd_satp {D} : Setter (satp : RISCVCPUState D -> _) := ltac:(solve_setter).
#[export] Instance upd_scounteren {D} : Setter (scounteren : RISCVCPUState D -> _) := ltac:(solve_setter).
#[export] Instance upd_senvcfg {D} : Setter (senvcfg : RISCVCPUState D -> _) := ltac:(solve_setter).
#[export] Instance upd_stimecmp {D} : Setter (stimecmp : RISCVCPUState D -> _) := ltac:(solve_setter).
#[export] Instance upd_intr_arch {D} : Setter (intr_arch : RISCVCPUState D -> _) := ltac:(solve_setter).
#[export] Instance upd_miselect {D} : Setter (miselect : RISCVCPUState D -> _) := ltac:(solve_setter).
#[export] Instance upd_siselect {D} : Setter (siselect : RISCVCPUState D -> _) := ltac:(solve_setter).
#[export] Instance upd_imsic {D} : Setter (imsic : RISCVCPUState D -> _) := ltac:(solve_setter).
#[export] Instance upd_irq_line_mask {D} : Setter (irq_line_mask : RISCVCPUState D -> _) := ltac:(solve_setter).
#[export] Instance upd_sbi {D} : Setter (sbi : RISCVCPUState D -> _) := ltac:(solve_setter).
#[export] Instance upd_hsm_stopped {D} : Setter (hsm_stopped : RISCVCPUState D -> _) := ltac:(solve_setter).
#[export] Instance upd_hsm_suspended {D} : Setter (hsm_suspended : RISCVCPUState D -> _) := ltac:(solve_setter).
#[export] Instance upd_hsm_resume {D} : Setter (hsm_resume : RISCVCPUState D -> _) := ltac:(solve_setter).
#[export] Instance upd_load_res {D} : Setter (load_res : RISCVCPUState D -> _) := ltac:(solve_setter).
#[export] Instance upd_load_val {D} : Setter (load_val : RISCVCPUState D -> _) := ltac:(solve_setter).
#[export] Instance upd_smp {D} : Setter (smp : RISCVCPUState D -> _) := ltac:(solve_setter).
#[export] Instance upd_sh {D} : Setter (sh : RISCVCPUState D -> _) := ltac:(solve_setter).
#[export] Instance upd_others {D} : Setter (others : RISCVCPUState D -> _) := ltac:(solve_setter).

(** * Access *)

Section Basics.
Context `{MaxXlen} {D : Type}.
Notation cpu := (RISCVCPUState D).

(** [s->reg[i]] and [s->reg[i] = v]; likewise the floating point registers. *)
Definition greg (s : cpu) (i : Z) : Z := arr_get 0 (reg s) i.
Definition set_greg (i v : Z) (s : cpu) : cpu := s <| reg := arr_set (reg s) i v |>.
Definition freg (s : cpu) (i : Z) : Z := arr_get 0 (fp_reg s) i.
Definition set_freg (i v : Z) (s : cpu) : cpu := s <| fp_reg := arr_set (fp_reg s) i v |>.

Definition on_sh (f : Shared D -> Shared D) (s : cpu) : cpu := s <| sh := f (sh s) |>.

(** A point where another thread may come in between. *)
Definition interleave (s : cpu) : cpu :=
  match others s with
  | [] => s
  | f :: rest => s <| sh := f (sh s) |> <| others := rest |>
  end.

(** ** Host memory *)

Definition mem_byte (m : gmap Z Z) (a : Z) : Z := uw 8 (default 0 (m !! a)).

(** [*(T * )ptr] for a [T] of [n] bytes, little endian. *)
Definition host_read (n : nat) (m : gmap Z Z) (ptr : Z) : Z := le_val (mem_byte m) ptr n.

Fixpoint host_write (n : nat) (ptr v : Z) (m : gmap Z Z) : gmap Z Z :=
  match n with
  | O => m
  | S n => host_write n (ptr + 1) (Z.shiftr v 8) (<[ptr := uw 8 v]> m)
  end.

(** Replace what RAM at [ptr] holds if it is still [old], as one atomic
    step; otherwise what it holds. *)
Definition host_cmpxchg (n : nat) (ptr old v : Z) (m : gmap Z Z) : gmap Z Z * option Z :=
  let cur := host_read n m ptr in
  if cur =? old then (host_write n ptr v m, None) else (m, Some cur).

Definition on_mem (f : gmap Z Z -> gmap Z Z) : cpu -> cpu :=
  on_sh (fun h => h <| mem := f (mem h) |>).

(** ** Interrupt bits and the supervisor timer *)

Definition riscv_cpu_rtc_time (s : cpu) : Z := rtc_now (sh s).

Definition wake_on_irq (s : cpu) : cpu :=
  if power_down_flag s && nz (Z.land (mip s) (mie s)) && negb (hsm_stopped s)
  then s <| power_down_flag := false |> else s.

Definition set_mip (mask : Z) (s : cpu) : cpu :=
  wake_on_irq (s <| mip := Z.lor (mip s) mask |>).

Definition UINT64_MAX : Z := 2 ^ 64 - 1.

Definition update_stimer (s : cpu) : Z * cpu :=
  let '(deadline, s) :=
    if nz (Z.land (menvcfg s) MENVCFG_STCE) then
      if stimecmp s <=? riscv_cpu_rtc_time s
      then (UINT64_MAX, set_mip MIP_STIP s)
      else (stimecmp s, s <| mip := Z.ldiff (mip s) MIP_STIP |>)
    else (UINT64_MAX, s) in
  let old := stimer_deadline (sh s) in
  (deadline,
   if deadline =? old then s
   else
     let s := on_sh (fun h => h <| stimer_deadline := deadline |>) s in
     if (deadline <? old) && rtc_time_source s
     then on_sh (fun h => h <| stimer_changed := deadline :: stimer_changed h |>) s
     else s).

(** ** TLB flushes *)

Definition flush_entry (e : TLBEntry) : TLBEntry := mkTLB (tu (-1)) (mem_addend e).

Definition tlb_init : cpu -> cpu :=
  on_sh (fun h => h <| tlb_read := map flush_entry (tlb_read h) |>
                    <| tlb_write := map flush_entry (tlb_write h) |>
                    <| tlb_code := map flush_entry (tlb_code h) |>).

Definition tlb_flush_all (s : cpu) : cpu := tlb_init s.

Definition tlb_flush_vaddr (va : Z) (s : cpu) : cpu := tlb_flush_all s.

(** The loop body is per entry: a valid entry whose page's host address lies
    in the range goes. *)
Definition tlb_flush_ram_range (tlb : list TLBEntry) (ram_ptr ram_end : Z) : list TLBEntry :=
  map (fun e =>
    if vaddr e =? tu (-1) then e
    else
      let ptr := u64 (mem_addend e + u64 (vaddr e)) in
      if (ram_ptr <=? ptr) && (ptr <? ram_end) then flush_entry e else e) tlb.

Definition flush_tlb_write_range_ram (ram_ptr ram_size : Z) (h : Shared D) : Shared D :=
  let ram_end := u64 (ram_ptr + ram_size) in
  h <| tlb_write := tlb_flush_ram_range (tlb_write h) ram_ptr ram_end |>
    <| tlb_read := tlb_flush_ram_range (tlb_read h) ram_ptr ram_end |>
    <| tlb_code := tlb_flush_ram_range (tlb_code h) ram_ptr ram_end |>.

Definition FlushTlbWriteRangeRam := flush_tlb_write_range_ram.

(** ** A new hart *)

Definition get_base_from_xlen (xlen : Z) : Z :=
  if xlen =? 32 then 1 else if xlen =? 64 then 2 else 3.

Definition shared_init (map : PhysMemoryMap) (m : gmap Z Z) (d : D) : Shared D :=
  let tlb := replicate TLB_SIZE tlb0 in
  mkShared D m map tlb tlb tlb false false UINT64_MAX 0
    (replicate 2 (replicate IMSIC_WORDS 0)) RISCV_HSM_STARTED 0 0 false false 0 0 0 [] [] d.

(** [new RISCVCPUState()] zeroes the state. *)
Definition riscv_cpu_init (hart_id : Z) (h : Shared D) : cpu :=
  let mxl := get_base_from_xlen max_xlen in
  let misa := lors [MCPUID_SUPER; MCPUID_USER; MCPUID_I; MCPUID_M; MCPUID_A;
                    MCPUID_F; MCPUID_D; (if 128 <=? FLEN then MCPUID_Q else 0); MCPUID_C] in
  tlb_init (mkCPU D 0x1000 (replicate 32 0) (replicate 32 0) 0 0
    max_xlen PRV_M 0 mxl 0 0 0 0 false 0 false 0
    (tu (Z.lor (u64 (Z.shiftl mxl MSTATUS_UXL_SHIFT)) (u64 (Z.shiftl mxl MSTATUS_SXL_SHIFT))))
    0 0 0 0 0 (tu hart_id)
    misa 0 0 0 0 0 0 0
    0 0 0 0 0 0 0 0 UINT64_MAX
    RISCV_INTR_BASE 0 0 [imsic0; imsic0]
    (lors [MIP_MSIP; MIP_MTIP; MIP_MEIP; MIP_SEIP])
    false false false false (tu (-1)) 0 false h []).
End Basics.

(** * Host memory *)

Lemma mem_byte_range m a : inw 8 (mem_byte m a).
Proof. apply inw_uw. lia. Qed.

Lemma host_read_testbit n m ptr i : 0 <= i ->
  Z.testbit (host_read n m ptr) i =
  (i <? 8 * Z.of_nat n) && Z.testbit (mem_byte m (ptr + i / 8)) (i mod 8).
Proof.
  intros Hi. unfold host_read. rewrite le_val_testbit by (done || apply mem_byte_range).
  by rewrite byte_bit_shift.
Qed.

Lemma host_read_range n m ptr : inw (8 * Z.of_nat n) (host_read n m ptr).
Proof.
  apply inw_bits; [lia|]. split.
  - unfold host_read. revert ptr. induction n as [|n IH]; intros ptr; cbn [le_val]; [done|].
    apply Z.lor_nonneg. split; [apply (inw_nonneg 8), mem_byte_range|by apply Z.shiftl_nonneg].
  - intros i Hi. rewrite host_read_testbit by lia. case_cmp; [lia|done].
Qed.

Lemma mem_byte_insert m p v a :
  mem_byte (<[p := v]> m) a = if a =? p then uw 8 v else mem_byte m a.
Proof.
  unfold mem_byte. destruct (Z.eqb_spec a p) as [->|Hne].
  - by rewrite lookup_insert_eq.
  - by rewrite lookup_insert_ne.
Qed.

Lemma mem_byte_write n ptr v m a : mem_byte (host_write n ptr v m) a =
  if (ptr <=? a) && (a <? ptr + Z.of_nat n) then uw 8 (Z.shiftr v (8 * (a - ptr))) else mem_byte m a.
Proof.
  revert ptr v m. induction n as [|n IH]; intros ptr v m; cbn [host_write].
  { repeat case_cmp; done || lia. }
  rewrite IH, mem_byte_insert.
  repeat (case_cmp; cbn [andb]; try lia); try done.
  - rewrite Z.shiftr_shiftr by lia. do 2 f_equal. lia.
  - subst. rewrite Z.sub_diag. change (8 * 0) with 0. rewrite Z.shiftr_0_r.
    apply uw_small, inw_uw. lia.
Qed.

(** What is written is read back. *)
Lemma host_read_write n ptr v m :
  host_read n (host_write n ptr v m) ptr = uw (8 * Z.of_nat n) v.
Proof.
  bits_at i Hi. rewrite host_read_testbit, uw_testbit by lia.
  destruct (Z.ltb_spec i (8 * Z.of_nat n)) as [Hlt|]; [|done]. cbn [andb].
  pose proof (Z.div_mod i 8). pose proof (Z.mod_pos_bound i 8). rewrite mem_byte_write.
  repeat case_cmp; try lia. cbn [andb].
  rewrite uw_testbit, Z.shiftr_spec by lia. case_cmp; [|lia]. cbn [andb]. f_equal. lia.
Qed.

(** Nothing else changes. *)
Lemma host_read_write_other n k ptr q v m : 
  q + Z.of_nat k <= ptr \/ ptr + Z.of_nat n <= q ->
  host_read k (host_write n ptr v m) q = host_read k m q.
Proof.
  intros Hd. bits_at i Hi. rewrite !host_read_testbit by lia.
  destruct (Z.ltb_spec i (8 * Z.of_nat k)); [|done]. cbn [andb].
  pose proof (Z.div_mod i 8). pose proof (Z.mod_pos_bound i 8). rewrite mem_byte_write.
  repeat case_cmp; done || lia.
Qed.
