(* ===== verification/RvMem.v ===== *)
(** Address translation, the TLBs and memory accesses of a RISC-V hart:
    [src/cpu/riscv/riscv_cpu_impl.h] (from [phys_write] to
    [target_read_insn_u16]) and the inline accessors of [riscv_cpu_priv.h].

    The functions that return 0 or -1 are in the monad [M]: a state
    transformer that gives a value or, for -1, nothing.  Host pointers are
    64-bit integers into [mem]. *)

From stdpp Require Import base numbers list gmap.
From S2P Require Import Prelude Bits Cutils IoMem RvState.
Local Open Scope Z_scope.

(** The rest of the machine: the device behind an [io] pointer, which may do
    anything to what is shared, and the handler of SBI calls, given the hart,
    its XLEN and a0 to a7. *)
Class Platform (D : Type) := {
  dev_io : Z -> DeviceIO (Shared D);
  sbi_Ecall : RISCVCPUState D -> Z -> list Z -> RISCVCPUState D * list Z;
}.

Definition ACCESS_READ : Z := 0.
Definition ACCESS_WRITE : Z := 1.
Definition ACCESS_CODE : Z := 2.

Definition PTE_V_MASK : Z := bit_at 32 0.
Definition PTE_U_MASK : Z := bit_at 32 4.
Definition PTE_A_MASK : Z := bit_at 32 6.
Definition PTE_D_MASK : Z := bit_at 32 7.

(** * The monad of fallible accesses *)

Definition M (D A : Type) : Type := RISCVCPUState D -> RISCVCPUState D * option A.

Definition mret {D A} (a : A) : M D A := fun s => (s, Some a).
Definition mfail {D A} : M D A := fun s => (s, None).
Definition mbind {D A B} (m : M D A) (k : A -> M D B) : M D B := fun s =>
  match m s with
  | (s, Some a) => k a s
  | (s, None) => (s, None)
  end.
Definition mget {D A} (f : RISCVCPUState D -> A) : M D A := fun s => (s, Some (f s)).
Definition mput {D} (f : RISCVCPUState D -> RISCVCPUState D) : M D unit :=
  fun s => (f s, Some tt).

Notation "'let*' x := m 'in' k" := (mbind m (fun x => k))
  (at level 10, x name, k at level 200) : emu_scope.
Notation "'do*' m 'in' k" := (mbind m (fun _ => k))
  (at level 10, k at level 200) : emu_scope.

(** The failing return of an access: the exception it leaves pending. *)
Definition fault {D A} (cause tval : Z) : M D A := fun s =>
  (s <| pending_tval := tval |> <| pending_exception := cause |>, None).

Create HintDb frame.

Section Mem.
Context `{MaxXlen} `{Platform D}.
Notation cpu := (RISCVCPUState D).

(** * Physical memory *)

Definition RangeOf (s : cpu) (i : Z) : PhysMemoryRange := RangeAt (mem_map (sh s)) i.

(** [pr->phys_mem + (uintptr_t)(paddr - pr->addr)] *)
Definition range_ptr (pr : PhysMemoryRange) (paddr : Z) : Z :=
  u64 (phys_mem pr + u64 (paddr - IoMem.addr pr)).

(** The host address of RAM at a physical address. *)
Definition ram_ptr (s : cpu) (paddr : Z) : option Z :=
  match FindRange (mem_map (sh s)) (u64 paddr) with
  | Some i => if is_ram (RangeOf s i) then Some (range_ptr (RangeOf s i) paddr) else None
  | None => None
  end.

Definition phys_write (n : nat) (paddr val : Z) (s : cpu) : cpu :=
  match ram_ptr s paddr with
  | Some ptr => on_mem (host_write n ptr val) s
  | None => s
  end.

Definition phys_read (n : nat) (s : cpu) (paddr : Z) : Z :=
  match ram_ptr s paddr with
  | Some ptr => host_read n (mem (sh s)) ptr
  | None => 0
  end.

(** * Translation *)

(** False when another hart changed the PTE meanwhile. *)
Definition update_pte (pte_addr old pte : Z) (pte_size_log2 : nat) (s : cpu) : cpu * bool :=
  let n := (2 ^ pte_size_log2)%nat in
  if negb (smp s) then (phys_write n pte_addr pte s, true)
  else
    let s := interleave s in
    match ram_ptr s pte_addr with
    | None => (s, true)
    | Some ptr =>
      let '(m, r) := host_cmpxchg n ptr (uw (8 * Z.of_nat n) old) pte (mem (sh s)) in
      (on_mem (fun _ => m) s, match r with None => true | Some _ => false end)
    end.

Inductive walk_result := WFault | WRestart | WDone (paddr : Z).

(** The part of the walk's body that follows the non-leaf case. *)
Definition leaf (prv access va pte_addr pte vaddr_shift : Z) (pte_size_log2 : nat) (s : cpu) :
  cpu * walk_result :=
  let paddr := tu (Z.shiftl (Z.shiftr pte 10) PG_SHIFT) in
  let xwr := get_bits max_xlen pte 1 3 in
  if (xwr =? 2) || (xwr =? 6) then (s, WFault)
  (* privilege check *)
  else if (if prv =? PRV_S
           then nz (Z.land pte PTE_U_MASK) && negb (nz (Z.land (mstatus s) MSTATUS_SUM))
           else negb (nz (Z.land pte PTE_U_MASK))) then (s, WFault)
  else
    (* protection check *)
    let xwr := if nz (Z.land (mstatus s) MSTATUS_MXR)
               then Z.lor xwr (Z.shiftr xwr 2) else xwr in
    if negb (get_bit 32 xwr access) then (s, WFault)
    else
      let vaddr_mask := bit_mask max_xlen vaddr_shift in
      if nz (Z.land paddr vaddr_mask) then (s, WFault)
      else
        let result := Z.lor (Z.land va vaddr_mask) (Z.ldiff paddr vaddr_mask) in
        if negb (nz (Z.land pte PTE_A_MASK)) ||
           (negb (nz (Z.land pte PTE_D_MASK)) && (access =? ACCESS_WRITE)) then
          if negb (nz (Z.land (menvcfg s) MENVCFG_ADUE)) then (s, WFault)
          else
            let pte' := Z.lor pte PTE_A_MASK in
            let pte' := if access =? ACCESS_WRITE then Z.lor pte' PTE_D_MASK else pte' in
            match update_pte pte_addr pte pte' pte_size_log2 s with
            | (s, true) => (s, WDone result)
            | (s, false) => (s, WRestart)
            end
        else (s, WDone result).

(** The loop over the levels; [n] are left, this one included. *)
Fixpoint pte_walk (n : nat) (prv access va : Z) (pte_size_log2 : nat) (pte_addr : Z) (s : cpu) :
  cpu * walk_result :=
  match n with
  | O => (s, WFault)
  | S n =>
    let pte_bits := 12 - Z.of_nat pte_size_log2 in
    let vaddr_shift := PG_SHIFT + pte_bits * Z.of_nat n in
    let pte_idx := get_bits max_xlen va vaddr_shift pte_bits in
    let pte_addr := tu (pte_addr + Z.shiftl pte_idx (Z.of_nat pte_size_log2)) in
    let pte := phys_read (2 ^ pte_size_log2) s pte_addr in
    if nz (Z.land pte PTE_RESERVED_MASK) then (s, WFault)
    else if negb (nz (Z.land pte PTE_V_MASK)) then (s, WFault)
    else
      let paddr := tu (Z.shiftl (Z.shiftr pte 10) PG_SHIFT) in
      let xwr := get_bits max_xlen pte 1 3 in
      if xwr =? 0 then
        if nz (Z.land pte (lors [PTE_D_MASK; PTE_A_MASK; PTE_U_MASK])) then (s, WFault)
        else pte_walk n prv access va pte_size_log2 paddr s
      else leaf prv access va pte_addr pte vaddr_shift pte_size_log2 s
  end.

(** From [restart:] on.  A restart needs another thread to have come in
    between, so [fuel] beyond the number of times one can is enough. *)
Fixpoint walk_restart (fuel : nat) (levels : nat) (prv access va : Z) (pte_size_log2 : nat)
  (pte_addr_bits : Z) (s : cpu) : cpu * option Z :=
  match fuel with
  | O => (s, None)
  | S fuel =>
    let pte_addr := tu (Z.shiftl (get_bits 64 (satp s) 0 pte_addr_bits) PG_SHIFT) in
    match pte_walk levels prv access va pte_size_log2 pte_addr s with
    | (s, WDone paddr) => (s, Some paddr)
    | (s, WFault) => (s, None)
    | (s, WRestart) => walk_restart fuel levels prv access va pte_size_log2 pte_addr_bits s
    end
  end.

(** The privilege an access is made with. *)
Definition access_priv (s : cpu) (access : Z) : Z :=
  if nz (Z.land (mstatus s) MSTATUS_MPRV) && negb (access =? ACCESS_CODE)
  then get_bits max_xlen (mstatus s) MSTATUS_MPP_SHIFT 2 else priv s.

Definition get_phys_addr (va access : Z) : M D Z := fun s =>
  let prv := access_priv s access in
  let walk levels pte_size_log2 pte_addr_bits :=
    walk_restart (S (length (others s))) levels prv access va pte_size_log2 pte_addr_bits s in
  if prv =? PRV_M then
    (s, Some (if cur_xlen s <? max_xlen then get_bits max_xlen va 0 (cur_xlen s) else va))
  else if max_xlen =? 32 then
    if get_bit 32 (satp s) 31 then walk 2%nat 2%nat 22 else (s, Some va)
  else
    let mode := get_bits 64 (satp s) 60 4 in
    if mode =? 0 then (s, Some va)
    else
      let levels := mode - 8 + 3 in
      let vaddr_shift := max_xlen - (PG_SHIFT + levels * 9) in
      if negb (tu (sign_extend max_xlen va (max_xlen - vaddr_shift)) =? va) then (s, None)
      else walk (Z.to_nat levels) 3%nat 44.

(** * TLBs *)

Definition tlb_index (va : Z) : Z := get_bits max_xlen va PG_SHIFT TLB_BITS.
Definition page_of_va (va : Z) : Z := Z.ldiff va PG_MASK.

(** The page tag an access of [2^sz] bytes hits: an access that crosses its
    page matches no TLB entry. *)
Definition tlb_access_tag (sz : nat) (va : Z) : Z :=
  Z.ldiff va (Z.ldiff PG_MASK (2 ^ Z.of_nat sz - 1)).

Definition tlb_ptr (e : TLBEntry) (va : Z) : Z := u64 (mem_addend e + u64 va).

(** The entry that maps the page of [va] at host address [ptr]. *)
Definition tlb_entry (va ptr : Z) : TLBEntry := mkTLB (page_of_va va) (u64 (ptr - va)).

(** A device range found without the lock may have moved since. *)
Definition device_maps (pr : PhysMemoryRange) (paddr : Z) : bool :=
  (IoMem.addr pr <=? paddr) && (paddr - IoMem.addr pr <? size pr).

(** Map the page of [va] for writing onto RAM range [i], recording the write
    in its dirty bits, and return the host pointer. *)
Definition tlb_fill_write (va i paddr : Z) (s : cpu) : Z * cpu :=
  let idx := tlb_index va in
  let pr := RangeOf s i in
  let ptr := range_ptr pr paddr in
  let offset := u64 (paddr - IoMem.addr pr) in
  let s := on_sh (fun h => h <| mem_map := upd_range i (SetDirtyBit offset) (mem_map h) |>) s in
  let s := interleave s in
  let s := on_sh (fun h => h <| tlb_write := arr_set (tlb_write h) idx (tlb_entry va ptr) |>) s in
  let s :=
    match dirty_bits (RangeOf s i) with
    | None => s
    | Some _ =>
      let s := interleave s in
      if IsDirtyBit offset (RangeOf s i) then s
      else on_sh (fun h => h <| tlb_write :=
             arr_set (tlb_write h) idx (flush_entry (arr_get tlb0 (tlb_write h) idx)) |>) s
    end in
  (ptr, s).

(** * Reads *)

(** The aligned case of [target_read_slow]. *)
Definition read_aligned (sz : nat) (va : Z) : M D Z :=
  fun s =>
  match get_phys_addr va ACCESS_READ s with
  | (s, None) => fault CAUSE_LOAD_PAGE_FAULT va s
  | (s, Some paddr) =>
    match FindRange (mem_map (sh s)) (u64 paddr) with
    | None => fault CAUSE_FAULT_LOAD va s
    | Some i =>
      let pr := RangeOf s i in
      if is_ram pr then
        let ptr := range_ptr pr paddr in
        let s := on_sh (fun h => h <| tlb_read :=
                   arr_set (tlb_read h) (tlb_index va) (tlb_entry va ptr) |>) s in
        (s, Some (host_read (2 ^ sz) (mem (sh s)) ptr))
      else
        (* the device lock is taken *)
        let s := interleave s in
        let pr := RangeOf s i in
        if negb (device_maps pr paddr) || negb (Z.of_nat sz <=? 3) then (s, Some 0)
        else
          let '(h, v) := DeviceRead (dev_io (default 0 (io pr))) (devio_flags pr) (sh s)
                           (u32 (paddr - IoMem.addr pr)) sz in
          (s <| sh := h |>, Some (default 0 v))
    end
  end.

(** [target_read] of an address aligned to the access, which is how
    [target_read_slow] calls it. *)
Definition target_read_al (sz : nat) (va : Z) : M D Z := fun s =>
  let e := arr_get tlb0 (tlb_read (sh s)) (tlb_index va) in
  if vaddr e =? tlb_access_tag sz va then (s, Some (host_read (2 ^ sz) (mem (sh s)) (tlb_ptr e va)))
  else (let* v := read_aligned sz va in mret (uw (8 * 2 ^ Z.of_nat sz) v)) s.

Definition target_read_slow (sz : nat) (va : Z) : M D Z :=
  let bytes := 2 ^ Z.of_nat sz in
  let bits := 8 * bytes in
  let al := Z.land va (bytes - 1) in
  if al =? 0 then read_aligned sz va
  else if (sz =? 1)%nat then
    let* v0 := target_read_al 0 va in
    let* v1 := target_read_al 0 (tu (va + 1)) in
    mret (Z.lor v0 (Z.shiftl v1 8))
  else
    let va := tu (va - al) in
    let* v0 := target_read_al sz va in
    let* v1 := target_read_al sz (tu (va + bytes)) in
    mret (Z.lor (Z.shiftr v0 (al * 8)) (uw bits (Z.shiftl v1 (bits - al * 8)))).

Definition target_read (sz : nat) (va : Z) : M D Z := fun s =>
  let e := arr_get tlb0 (tlb_read (sh s)) (tlb_index va) in
  if vaddr e =? tlb_access_tag sz va then (s, Some (host_read (2 ^ sz) (mem (sh s)) (tlb_ptr e va)))
  else (let* v := target_read_slow sz va in mret (uw (8 * 2 ^ Z.of_nat sz) v)) s.

(** * Writes *)

Definition device_write (i paddr val : Z) (sz : nat) (s : cpu) : cpu :=
  (* the device lock is taken *)
  let s := interleave s in
  let pr := RangeOf s i in
  if negb (device_maps pr paddr) || negb (Z.of_nat sz <=? 3) then s
  else
    let '(h, _) := DeviceWrite (dev_io (default 0 (io pr))) (devio_flags pr) (sh s)
                     (u32 (paddr - IoMem.addr pr)) (u64 val) sz in
    s <| sh := h |>.

(** The aligned case of [target_write_slow]. *)
Definition write_aligned (sz : nat) (va val : Z) : M D unit := fun s =>
  match get_phys_addr va ACCESS_WRITE s with
  | (s, None) => fault CAUSE_STORE_PAGE_FAULT va s
  | (s, Some paddr) =>
    match FindRange (mem_map (sh s)) (u64 paddr) with
    | None => fault CAUSE_FAULT_STORE va s
    | Some i =>
      let pr := RangeOf s i in
      if is_ram pr && nz (Z.land (devram_flags pr) DEVRAM_FLAG_ROM) then
        (match io pr with Some _ => device_write i paddr val sz s | None => s end, Some tt)
      else if is_ram pr then
        let '(ptr, s) := tlb_fill_write va i paddr s in
        (on_mem (host_write (2 ^ sz) ptr val) s, Some tt)
      else (device_write i paddr val sz s, Some tt)
    end
  end.

(** [target_write] of an address aligned to the access. *)
Definition target_write_al (sz : nat) (va val : Z) : M D unit := fun s =>
  let e := arr_get tlb0 (tlb_write (sh s)) (tlb_index va) in
  if vaddr e =? tlb_access_tag sz va then
    (on_mem (host_write (2 ^ sz) (tlb_ptr e va) val) s, Some tt)
  else write_aligned sz va val s.

(** [for (i = 0; i < size; i++)] of the unaligned case, with [n] left. *)
Fixpoint write_bytes (n : nat) (i va val : Z) : M D unit :=
  match n with
  | O => mret tt
  | S n =>
    do* target_write_al 0 (tu (va + i)) (get_bits MLEN val (8 * i) 8) in
    write_bytes n (i + 1) va val
  end.

Definition target_write_slow (sz : nat) (va val : Z) : M D unit :=
  if negb (Z.land va (2 ^ Z.of_nat sz - 1) =? 0) then write_bytes (2 ^ sz) 0 va val
  else write_aligned sz va val.

Definition target_write (sz : nat) (va val : Z) : M D unit := fun s =>
  let e := arr_get tlb0 (tlb_write (sh s)) (tlb_index va) in
  if vaddr e =? tlb_access_tag sz va then
    (on_mem (host_write (2 ^ sz) (tlb_ptr e va) val) s, Some tt)
  else target_write_slow sz va (uw (8 * 2 ^ Z.of_nat sz) val) s.

(** * Atomics *)

(** The host address of an operand an AMO or SC updates in place; [None] for
    any other operand. *)
Definition target_rmw_ptr (va : Z) (sz : nat) : M D (option Z) := fun s =>
  let e := arr_get tlb0 (tlb_write (sh s)) (tlb_index va) in
  if (3 <? sz)%nat || nz (Z.land va (2 ^ Z.of_nat sz - 1)) then (s, Some None)
  else if vaddr e =? page_of_va va then (s, Some (Some (tlb_ptr e va)))
  else
    match get_phys_addr va ACCESS_WRITE s with
    | (s, None) => fault CAUSE_STORE_PAGE_FAULT va s
    | (s, Some paddr) =>
      match FindRange (mem_map (sh s)) (u64 paddr) with
      | Some i =>
        if is_ram (RangeOf s i) then
          let '(ptr, s) := tlb_fill_write va i paddr s in (s, Some (Some ptr))
        else (s, Some None)
      | None => (s, Some None)
      end
    end.

Definition rmw_ptr (va : Z) (sz : nat) : M D (option Z) := fun s =>
  if negb (smp s) then (s, Some None) else target_rmw_ptr va sz s.

(** * Instruction fetch *)

Definition target_read_insn_slow (va : Z) : M D Z := fun s =>
  match get_phys_addr va ACCESS_CODE s with
  | (s, None) => fault CAUSE_FETCH_PAGE_FAULT va s
  | (s, Some paddr) =>
    match ram_ptr s paddr with
    | None => fault CAUSE_FAULT_FETCH va s
    | Some ptr =>
      (on_sh (fun h => h <| tlb_code :=
         arr_set (tlb_code h) (tlb_index va) (tlb_entry va ptr) |>) s, Some ptr)
    end
  end.

Definition target_read_insn_u16 (va : Z) : M D Z := fun s =>
  let e := arr_get tlb0 (tlb_code (sh s)) (tlb_index va) in
  if vaddr e =? page_of_va va then (s, Some (host_read 2 (mem (sh s)) (tlb_ptr e va)))
  else
    match target_read_insn_slow va s with
    | (s, None) => (s, None)
    | (s, Some ptr) => (s, Some (host_read 2 (mem (sh s)) ptr))
    end.

(** * For the SBI: one XLEN wide word of virtual memory *)

Definition ReadVirtual (va : Z) : M D Z := fun s =>
  let '(s', r) := target_read_slow (if cur_xlen s =? 32 then 2%nat else 3%nat) (tu va) s in
  let s'' := s' <| pending_exception := pending_exception s |>
                <| pending_tval := pending_tval s |> in
  (s'', match r with
        | None => None
        | Some v => Some (if cur_xlen s' =? 32 then u32 v else u64 v)
        end).

(** * What an access leaves alone

    Whatever a memory access does, of the hart's own state it changes only
    the pending exception. *)

Definition mem_frame (s s' : cpu) : Prop :=
  exists h o e t, s' = s <| sh := h |> <| others := o |> <| pending_exception := e |>
                         <| pending_tval := t |>.

Lemma mem_frame_refl s : mem_frame s s.
Proof. exists (sh s), (others s), (pending_exception s), (pending_tval s). reflexivity. Qed.

Lemma mem_frame_trans s1 s2 s3 : mem_frame s1 s2 -> mem_frame s2 s3 -> mem_frame s1 s3.
Proof.
  intros (h & o & e & t & ->) (h' & o' & e' & t' & ->). exists h', o', e', t'. reflexivity.
Qed.

#[local] Instance mem_frame_preorder : PreOrder mem_frame.
Proof. split; [exact mem_frame_refl|exact mem_frame_trans]. Qed.

Lemma mem_frame_sh h s : mem_frame s (s <| sh := h |>).
Proof. exists h, (others s), (pending_exception s), (pending_tval s). reflexivity. Qed.

Lemma mem_frame_on_sh f s : mem_frame s (on_sh f s).
Proof. apply mem_frame_sh. Qed.

Lemma mem_frame_on_mem f s : mem_frame s (on_mem f s).
Proof. apply mem_frame_sh. Qed.

Lemma mem_frame_interleave s : mem_frame s (interleave s).
Proof.
  unfold interleave. destruct (others s) as [|f l]; [reflexivity|].
  exists (f (sh s)), l, (pending_exception s), (pending_tval s). reflexivity.
Qed.

(** A computation that keeps the frame. *)
Definition framed {A} (m : cpu -> cpu * A) : Prop := forall s, mem_frame s (m s).1.

Lemma framed_eq {A} (m : cpu -> cpu * A) s s' r : framed m -> m s = (s', r) -> mem_frame s s'.
Proof. intros Hm E. specialize (Hm s). rewrite E in Hm. exact Hm. Qed.

Lemma framed_bind {A B} (m : M D A) (k : A -> M D B) :
  framed m -> (forall a, framed (k a)) -> framed (mbind m k).
Proof.
  intros Hm Hk s. unfold mbind. destruct (m s) as [s1 [a|]] eqn:E.
  - transitivity s1; [eapply framed_eq, E; exact Hm|apply Hk].
  - eapply framed_eq, E. exact Hm.
Qed.

Lemma framed_ret {A} (a : A) : framed (mret a : M D A).
Proof. intros s. reflexivity. Qed.

Lemma framed_fault {A} cause tval : framed (fault cause tval : M D A).
Proof. intros s. exists (sh s), (others s), cause, tval. reflexivity. Qed.

(** Splits on what the computation looks at, then follows the frame back
    through the updates. *)
Ltac frame_split :=
  repeat match goal with
  | |- context [match ?x with _ => _ end] =>
      lazymatch x with context [match _ with _ => _ end] => fail | _ => destruct x eqn:? end
  end.
Ltac frame_back :=
  repeat match goal with
  | |- mem_frame ?s ?s => reflexivity
  | |- mem_frame _ (on_sh _ ?t) => transitivity t; [|apply mem_frame_on_sh]
  | |- mem_frame _ (on_mem _ ?t) => transitivity t; [|apply mem_frame_on_mem]
  | |- mem_frame _ (interleave ?t) => transitivity t; [|apply mem_frame_interleave]
  | |- mem_frame _ (set_with sh _ ?t) => transitivity t; [|apply mem_frame_sh]
  | |- mem_frame _ (fault ?c ?v ?t).1 => transitivity t; [|apply framed_fault]
  | E : ?m ?t = (?s1, _) |- mem_frame _ ?s1 =>
      transitivity t; [|refine (framed_eq _ _ _ _ _ E); auto with frame]
  end.
Ltac frame := intros ?; cbn [fst snd]; frame_split; cbn [fst snd]; simplify_eq; frame_back.

Lemma framed_update_pte a old pte n : framed (update_pte a old pte n).
Proof. unfold update_pte, phys_write. frame. Qed.
#[local] Hint Resolve framed_update_pte : frame.

Lemma framed_leaf prv access va a pte vs n : framed (leaf prv access va a pte vs n).
Proof. unfold leaf. frame. Qed.
#[local] Hint Resolve framed_leaf : frame.

Lemma framed_pte_walk n prv access va k a : framed (pte_walk n prv access va k a).
Proof.
  revert a. induction n as [|n IH]; intros a; [intros s; reflexivity|]. cbn [pte_walk].
  intros s. repeat case_match; try reflexivity; [apply IH|apply framed_leaf].
Qed.
#[local] Hint Resolve framed_pte_walk : frame.

Lemma framed_walk_restart f n prv access va k b : framed (walk_restart f n prv access va k b).
Proof.
  induction f as [|f IH]; [intros s; reflexivity|]. cbn [walk_restart]. intros s.
  destruct (pte_walk _ _ _ _ _ _ s) as [s1 [| |p]] eqn:E; cbn [fst]; frame_back.
  transitivity s1; [frame_back|apply IH].
Qed.
#[local] Hint Resolve framed_walk_restart : frame.

Lemma framed_get_phys_addr va access : framed (get_phys_addr va access).
Proof.
  intros s. unfold get_phys_addr. repeat case_match; try reflexivity; apply framed_walk_restart.
Qed.
#[local] Hint Resolve framed_get_phys_addr : frame.

Lemma framed_tlb_fill_write va i paddr s : mem_frame s (tlb_fill_write va i paddr s).2.
Proof. unfold tlb_fill_write. cbn [snd]. frame_split; frame_back. Qed.

Lemma framed_read_aligned sz va : framed (read_aligned sz va).
Proof. unfold read_aligned. frame. Qed.
#[local] Hint Resolve framed_read_aligned framed_bind framed_ret : frame.

Lemma framed_target_read_al sz va : framed (target_read_al sz va).
Proof.
  intros s. unfold target_read_al. case_match; [reflexivity|].
  apply framed_bind; auto with frame.
Qed.
#[local] Hint Resolve framed_target_read_al : frame.

Lemma framed_target_read_slow sz va : framed (target_read_slow sz va).
Proof. unfold target_read_slow. repeat case_match; auto 7 with frame. Qed.

Lemma framed_target_read sz va : framed (target_read sz va).
Proof.
  intros s. unfold target_read. case_match; [reflexivity|].
  apply framed_bind; auto using framed_target_read_slow with frame.
Qed.

Lemma framed_device_write i paddr val sz s : mem_frame s (device_write i paddr val sz s).
Proof. unfold device_write. frame_split; simplify_eq; frame_back. Qed.

Lemma framed_write_aligned sz va val : framed (write_aligned sz va val).
Proof.
  intros s. unfold write_aligned. destruct (get_phys_addr va ACCESS_WRITE s) as [s1 [p|]] eqn:E.
  2: { transitivity s1; [frame_back|apply framed_fault]. }
  transitivity s1; [frame_back|].
  destruct (FindRange _ _) as [i|]; [|apply framed_fault].
  repeat case_match; cbn [fst]; try apply framed_device_write; try reflexivity.
  match goal with E : tlb_fill_write _ _ _ _ = (_, ?t) |- _ =>
    transitivity t; [|apply mem_frame_on_mem];
    pose proof (framed_tlb_fill_write va i p s1) as Hf; rewrite E in Hf; exact Hf end.
Qed.
#[local] Hint Resolve framed_write_aligned : frame.

Lemma framed_target_write_al sz va val : framed (target_write_al sz va val).
Proof.
  intros s. unfold target_write_al. case_match; [apply mem_frame_on_mem|].
  apply framed_write_aligned.
Qed.
#[local] Hint Resolve framed_target_write_al : frame.

Lemma framed_write_bytes n i va val : framed (write_bytes n i va val).
Proof.
  revert i. induction n as [|n IH]; intros i; cbn [write_bytes]; auto with frame.
Qed.
#[local] Hint Resolve framed_write_bytes : frame.

Lemma framed_target_write sz va val : framed (target_write sz va val).
Proof.
  intros s. unfold target_write, target_write_slow.
  repeat case_match; [apply mem_frame_on_mem|apply framed_write_bytes|apply framed_write_aligned].
Qed.

Lemma framed_rmw_ptr va sz : framed (rmw_ptr va sz).
Proof.
  intros s. unfold rmw_ptr, target_rmw_ptr. repeat case_match; try reflexivity; cbn [fst].
  all: try (frame_back; reflexivity).
  match goal with E : tlb_fill_write ?v ?i ?p ?s1 = (_, ?t) |- _ =>
    transitivity s1; [frame_back|];
    pose proof (framed_tlb_fill_write v i p s1) as Hf; rewrite E in Hf; exact Hf end.
Qed.

Lemma framed_read_insn_slow va : framed (target_read_insn_slow va).
Proof. unfold target_read_insn_slow. frame. Qed.
#[local] Hint Resolve framed_read_insn_slow : frame.

Lemma framed_read_insn_u16 va : framed (target_read_insn_u16 va).
Proof. unfold target_read_insn_u16. frame. Qed.
End Mem.
#[export] Hint Resolve framed_get_phys_addr framed_target_read framed_target_write framed_rmw_ptr
  framed_read_insn_slow framed_read_insn_u16 framed_bind framed_ret : frame.

(** * A hart to evaluate on: 64 bits, no devices *)

Definition demo_xlen : MaxXlen := 64.
Definition demo_platform : Platform unit :=
  {| dev_io := fun _ => mkDeviceIO (Shared unit) (fun h _ _ => (h, 0)) (fun h _ _ _ => h);
     sbi_Ecall := fun s _ a => (s, a) |}.

Lemma demo_valid : valid_xlen (@max_xlen demo_xlen).
Proof. right. left. reflexivity. Qed.
