(* ===== verification/RvWalk.v ===== *)
(** Address translation of a RISC-V hart against the page tables of the
    privileged architecture: [get_phys_addr] of
    [src/cpu/riscv/riscv_cpu_impl.h].

    The architecture's side is [translates], an inductive relation over the
    levels of a table, written with quotients and remainders; the code walks
    with shifts and masks. *)

From stdpp Require Import base numbers list gmap.
From S2P Require Import Prelude Bits Cutils IoMem RvState RvMem.
Local Open Scope Z_scope.

(** * The architecture *)

(** The bits of a PTE. *)
Definition pte_V (pte : Z) : bool := Z.testbit pte 0.
Definition pte_R (pte : Z) : bool := Z.testbit pte 1.
Definition pte_W (pte : Z) : bool := Z.testbit pte 2.
Definition pte_X (pte : Z) : bool := Z.testbit pte 3.
Definition pte_U (pte : Z) : bool := Z.testbit pte 4.
Definition pte_A (pte : Z) : bool := Z.testbit pte 6.
Definition pte_D (pte : Z) : bool := Z.testbit pte 7.

(** A scheme: levels of a table and the log2 size of a PTE. *)
Record scheme := { sv_levels : nat; sv_pte_log2 : nat }.
Definition Sv32 : scheme := {| sv_levels := 2; sv_pte_log2 := 2 |}.
Definition Sv39 : scheme := {| sv_levels := 3; sv_pte_log2 := 3 |}.
Definition Sv48 : scheme := {| sv_levels := 4; sv_pte_log2 := 3 |}.
Definition Sv57 : scheme := {| sv_levels := 5; sv_pte_log2 := 3 |}.

Section Arch.
Context `{MaxXlen} `{Platform D}.
Notation cpu := (RISCVCPUState D).

(** Bits of a virtual page number that index one level. *)
Definition vpn_bits (sv : scheme) : Z := 12 - Z.of_nat (sv_pte_log2 sv).
(** What a PTE at level [i] covers. *)
Definition page_bits (sv : scheme) (i : nat) : Z := 12 + vpn_bits sv * Z.of_nat i.
Definition page_size (sv : scheme) (i : nat) : Z := 2 ^ page_bits sv i.

(** The address of the PTE for [va] in the table at [base]. *)
Definition pte_address (sv : scheme) (i : nat) (base va : Z) : Z :=
  (base + (va / page_size sv i) mod 2 ^ vpn_bits sv * 2 ^ Z.of_nat (sv_pte_log2 sv)) mod 2 ^ max_xlen.

(** The physical address a PTE holds; the hart's are as wide as its
    registers. *)
Definition pte_target (pte : Z) : Z := (pte / 2 ^ 10 * 2 ^ 12) mod 2 ^ max_xlen.

(** Neither reserved bits nor a reserved combination. *)
Definition pte_pointer (pte : Z) : bool :=
  pte_V pte && negb (pte_R pte || pte_W pte || pte_X pte) &&
  negb (pte_U pte || pte_A pte || pte_D pte).
Definition pte_leaf (pte : Z) : bool :=
  pte_V pte && (pte_R pte || pte_X pte) && negb (pte_W pte && negb (pte_R pte)).
(** No extension claims the top bits of a 64 bit PTE. *)
Definition pte_plain (pte : Z) : bool :=
  if 64 <=? max_xlen then (pte / 2 ^ 54) mod 2 ^ 10 =? 0 else true.

(** Who may do what with the page, as the architecture has it: S mode reaches
    user pages only for data, and only with SUM. *)
Definition arch_permits (s : cpu) (prv access pte : Z) : bool :=
  (if prv =? PRV_S
   then negb (pte_U pte) || (Z.testbit (mstatus s) 18 && negb (access =? ACCESS_CODE))
   else pte_U pte) &&
  (if access =? ACCESS_READ then pte_R pte || (Z.testbit (mstatus s) 19 && pte_X pte)
   else if access =? ACCESS_WRITE then pte_W pte
   else pte_X pte).

(** The same as the hart has it: SUM opens user pages to fetches too. *)
Definition permits (s : cpu) (prv access pte : Z) : bool :=
  (if prv =? PRV_S then negb (pte_U pte) || Z.testbit (mstatus s) 18 else pte_U pte) &&
  (if access =? ACCESS_READ then pte_R pte || (Z.testbit (mstatus s) 19 && pte_X pte)
   else if access =? ACCESS_WRITE then pte_W pte
   else pte_X pte).

(** A and D as the access leaves them, and whether they are so already. *)
Definition ad_needed (access pte : Z) : bool :=
  negb (pte_A pte) || ((access =? ACCESS_WRITE) && negb (pte_D pte)).
Definition ad_set (access pte : Z) : Z :=
  Z.lor pte (if access =? ACCESS_WRITE then 2 ^ 6 + 2 ^ 7 else 2 ^ 6).

(** The walk from level [i] of the table at [base] finds the leaf [pte] at
    [a], which maps [va] to [pa] for this access. *)
Inductive translates (sv : scheme) (s : cpu) (prv access va : Z) :
  nat -> Z -> Z -> Z -> Z -> Prop :=
  | at_leaf i base a pte pa :
      a = pte_address sv i base va ->
      pte = phys_read (2 ^ sv_pte_log2 sv) s a ->
      pte_plain pte = true -> pte_leaf pte = true ->
      permits s prv access pte = true ->
      (ad_needed access pte = true -> Z.testbit (menvcfg s) 61 = true) ->
      pte_target pte mod page_size sv i = 0 ->
      pa = pte_target pte + va mod page_size sv i ->
      translates sv s prv access va i base a pte pa
  | at_pointer i base a pte pa next :
      next = phys_read (2 ^ sv_pte_log2 sv) s (pte_address sv (S i) base va) ->
      pte_plain next = true -> pte_pointer next = true ->
      translates sv s prv access va i (pte_target next) a pte pa ->
      translates sv s prv access va (S i) base a pte pa.

(** What the walk then does: A and D are set where they have to be. *)
Definition leaf_done (k : nat) (access a pte pa : Z) (s : cpu) : cpu * walk_result :=
  if ad_needed access pte then
    match update_pte a pte (ad_set access pte) k s with
    | (s', true) => (s', WDone pa)
    | (s', false) => (s', WRestart)
    end
  else (s, WDone pa).
End Arch.

(** * The code's tests *)

Section Walk.
Context `{MaxXlen} `{Platform D} (Hx : valid_xlen max_xlen).
Notation cpu := (RISCVCPUState D).

Lemma xlen_32 : 32 <= max_xlen.
Proof. destruct Hx as [E | [E | E]]; rewrite E; lia. Qed.

(** The permissions as the three bits. *)
Lemma xwr_bits pte :
  get_bits max_xlen pte 1 3 =
  Z_of_bool (pte_R pte) + 2 * Z_of_bool (pte_W pte) + 4 * Z_of_bool (pte_X pte).
Proof.
  pose proof xlen_32. unfold pte_R, pte_W, pte_X. set (x := get_bits max_xlen pte 1 3).
  assert (Hb : forall i, 0 <= i < 3 -> Z.testbit pte (1 + i) = Z.testbit x i).
  { intros i Hi. unfold x. rewrite get_bits_testbit by lia. repeat case_cmp; done || lia. }
  assert (Hr : inw 3 x) by (apply inw_get_bits; lia). unfold inw in Hr.
  change 1 with (1 + 0) at 1. change 2 with (1 + 1) at 2. change 3 with (1 + 2).
  rewrite !Hb by lia. clearbody x.
  assert (x = 0 \/ x = 1 \/ x = 2 \/ x = 3 \/ x = 4 \/ x = 5 \/ x = 6 \/ x = 7)
    as [-> | [-> | [-> | [-> | [-> | [-> | [-> | ->]]]]]]] by lia; reflexivity.
Qed.

(** The reserved bits. *)
Lemma reserved_bits pte : inw 64 pte -> nz (Z.land pte PTE_RESERVED_MASK) = negb (pte_plain pte).
Proof.
  intros Hp. unfold PTE_RESERVED_MASK, pte_plain. destruct (Z.leb_spec 64 max_xlen).
  2: { by rewrite Z.land_0_r. }
  unfold nz. f_equal. apply Bool.eq_iff_eq_true. rewrite !Z.eqb_eq.
  rewrite <- (get_bits_mod 64) by lia. split; intros E.
  - bits_at i Hi. rewrite Z.bits_0, get_bits_testbit by lia.
    destruct (Z.ltb_spec i 10); [|done]. destruct (Z.ltb_spec (54 + i) 64); [|done]. cbn [andb].
    apply (f_equal (fun z => Z.testbit z (54 + i))) in E. revert E.
    rewrite Z.bits_0, Z.land_spec, field_mask_testbit by lia.
    repeat case_cmp; try lia. by rewrite andb_true_r.
  - bits_at i Hi. rewrite Z.bits_0, Z.land_spec, field_mask_testbit by lia.
    destruct (Z.leb_spec 54 i); [|by rewrite !andb_false_r].
    destruct (Z.ltb_spec i (54 + 10)); [|by rewrite !andb_false_r].
    apply (f_equal (fun z => Z.testbit z (i - 54))) in E. revert E.
    rewrite Z.bits_0, get_bits_testbit by lia. replace (54 + (i - 54)) with i by lia.
    repeat case_cmp; try lia. cbn [andb]. intros ->. done.
Qed.

Lemma target_code pte : tu (Z.shiftl (Z.shiftr pte 10) PG_SHIFT) = pte_target pte.
Proof. unfold PG_SHIFT. rewrite Z.shiftl_mul_pow2, Z.shiftr_div_pow2 by lia. done. Qed.

Lemma mask_code w x n : 0 <= n <= w -> Z.land x (bit_mask w n) = x mod 2 ^ n.
Proof. intros Hn. rewrite bit_mask_ones, Z.min_r, Z.land_ones by lia. done. Qed.

Lemma paddr_code va paddr n : 0 <= n <= max_xlen -> paddr mod 2 ^ n = 0 ->
  Z.lor (Z.land va (bit_mask max_xlen n)) (Z.ldiff paddr (bit_mask max_xlen n)) =
  paddr + va mod 2 ^ n.
Proof.
  intros Hn Hp. rewrite mask_code, bit_mask_ones, Z.min_r, Z.ldiff_ones_r by lia.
  rewrite Z.shiftl_mul_pow2, Z.shiftr_div_pow2 by lia.
  pose proof (pow2_pos n ltac:(lia)) as H2.
  rewrite Z.lor_comm, lor_mul_pow2; [|lia|unfold inw; apply Z.mod_pos_bound; lia].
  pose proof (Z.div_mod paddr (2 ^ n)). lia.
Qed.

(** What a leaf has to be. *)
Definition leaf_ok (s : cpu) (prv access pte n : Z) : bool :=
  pte_leaf pte && permits s prv access pte &&
  implb (ad_needed access pte) (Z.testbit (menvcfg s) 61) && (pte_target pte mod 2 ^ n =? 0).

Lemma ad_set_code access pte :
  (if access =? ACCESS_WRITE then Z.lor (Z.lor pte PTE_A_MASK) PTE_D_MASK else Z.lor pte PTE_A_MASK)
  = ad_set access pte.
Proof. unfold ad_set. case_match; [by rewrite <- Z.lor_assoc|done]. Qed.

Lemma ad_needed_code access pte :
  negb (nz (Z.land pte PTE_A_MASK)) || (negb (nz (Z.land pte PTE_D_MASK)) && (access =? ACCESS_WRITE))
  = ad_needed access pte.
Proof.
  unfold PTE_A_MASK, PTE_D_MASK. rewrite !nz_bit_at by lia. unfold ad_needed, pte_A, pte_D.
  by rewrite (andb_comm (access =? _)).
Qed.

(** The permission bits as the code tests them. *)
Lemma perm_code (r w x mxr : bool) access : 0 <= access <= 2 ->
  let xwr := Z_of_bool r + 2 * Z_of_bool w + 4 * Z_of_bool x in
  (xwr =? 2) || (xwr =? 6) = w && negb r /\ (xwr =? 0) = negb (r || w || x) /\
  get_bit 32 (if mxr then Z.lor xwr (Z.shiftr xwr 2) else xwr) access =
  if access =? ACCESS_READ then r || (mxr && x) else if access =? ACCESS_WRITE then w else x.
Proof.
  intros Ha. assert (access = 0 \/ access = 1 \/ access = 2) as [-> | [-> | ->]] by lia;
    destruct r, w, x, mxr; repeat split.
Qed.

Lemma leaf_code prv access va a pte n k (s : cpu) : 0 <= n <= max_xlen ->
  0 <= access <= 2 -> pte_V pte = true -> pte_R pte || pte_W pte || pte_X pte = true ->
  leaf prv access va a pte n k s =
  if leaf_ok s prv access pte n then leaf_done k access a pte (pte_target pte + va mod 2 ^ n) s
  else (s, WFault).
Proof.
  intros Hn Ha HV Hl. pose proof xlen_32 as H32.
  unfold leaf, leaf_ok, leaf_done, pte_leaf. rewrite HV, xwr_bits, target_code, ad_needed_code.
  rewrite ad_set_code, mask_code by lia.
  unfold PTE_U_MASK, MSTATUS_SUM, MSTATUS_MXR, MENVCFG_ADUE. rewrite !nz_bit_at by lia.
  destruct (perm_code (pte_R pte) (pte_W pte) (pte_X pte) (Z.testbit (mstatus s) 19) access Ha)
    as (-> & _ & ->).
  unfold permits, pte_U.
  set (acc := if access =? ACCESS_READ then _ else _). clearbody acc.
  set (who := if prv =? PRV_S then _ && _ else _).
  replace (if prv =? PRV_S then _ else _) with (negb who).
  2: { unfold who. case_match; [by rewrite negb_andb, negb_involutive|by rewrite negb_involutive]. }
  clearbody who. unfold nz. destruct (Z.eqb_spec (pte_target pte mod 2 ^ n) 0) as [Et|Et].
  - rewrite paddr_code by lia. destruct (pte_R pte), (pte_W pte), (pte_X pte); try done;
      destruct who, acc, (ad_needed access pte), (Z.testbit (menvcfg s) 61); done.
  - rewrite andb_false_r. destruct (pte_R pte), (pte_W pte), (pte_X pte); try done;
      destruct who, acc; done.
Qed.

Lemma phys_read_range n (s : cpu) a : inw (8 * Z.of_nat n) (phys_read n s a).
Proof.
  unfold phys_read. case_match; [apply host_read_range|]. apply inw_0. lia.
Qed.

(** The scheme fits the hart. *)
Definition sv_fits (sv : scheme) : Prop :=
  (sv_pte_log2 sv <= 3)%nat /\ page_bits sv (sv_levels sv) <= max_xlen.

Lemma page_bits_mono sv i j : (sv_pte_log2 sv <= 3)%nat -> (i <= j)%nat ->
  0 <= page_bits sv i <= page_bits sv j.
Proof. intros Hk Hij. unfold page_bits, vpn_bits. nia. Qed.

Section Levels.
Context (sv : scheme) (Hsv : sv_fits sv) (prv access va : Z) (Hacc : 0 <= access <= 2).

Lemma pte_address_code i base : (i < sv_levels sv)%nat ->
  tu (base + Z.shiftl (get_bits max_xlen va (PG_SHIFT + (12 - Z.of_nat (sv_pte_log2 sv)) * Z.of_nat i)
    (12 - Z.of_nat (sv_pte_log2 sv))) (Z.of_nat (sv_pte_log2 sv))) = pte_address sv i base va.
Proof.
  destruct Hsv as [Hk Hl]. intros Hi. pose proof (page_bits_mono sv i i Hk).
  pose proof (page_bits_mono sv (S i) (sv_levels sv) Hk ltac:(lia)).
  unfold pte_address, page_size, page_bits, vpn_bits, PG_SHIFT in *.
  rewrite Z.shiftl_mul_pow2, get_bits_mod by lia. done.
Qed.

(** One level. *)
Lemma level_code i base (s : cpu) : (i < sv_levels sv)%nat ->
  let a := pte_address sv i base va in
  let pte := phys_read (2 ^ sv_pte_log2 sv) s a in
  pte_walk (S i) prv access va (sv_pte_log2 sv) base s =
  if negb (pte_plain pte) || negb (pte_V pte) then (s, WFault)
  else if negb (pte_R pte || pte_W pte || pte_X pte) then
    if pte_U pte || pte_A pte || pte_D pte then (s, WFault)
    else pte_walk i prv access va (sv_pte_log2 sv) (pte_target pte) s
  else if leaf_ok s prv access pte (page_bits sv i)
  then leaf_done (sv_pte_log2 sv) access a pte (pte_target pte + va mod page_size sv i) s
  else (s, WFault).
Proof.
  intros Hi a pte. destruct Hsv as [Hk Hl]. cbn [pte_walk].
  rewrite pte_address_code by done. fold a. fold pte.
  assert (Hr : inw 64 pte).
  { apply (inw_mono (8 * Z.of_nat (2 ^ sv_pte_log2 sv))); [|apply phys_read_range].
    pose proof (Nat.pow_le_mono_r 2 (sv_pte_log2 sv) 3 ltac:(lia) Hk). simpl (2 ^ 3)%nat in *. lia. }
  rewrite reserved_bits, target_code, xwr_bits by done.
  destruct (perm_code (pte_R pte) (pte_W pte) (pte_X pte) false access Hacc) as (_ & -> & _).
  cbn [lors fold_right]. rewrite !Z.land_lor_distr_r, !nz_lor, Z.land_0_r.
  unfold PTE_V_MASK, PTE_D_MASK, PTE_A_MASK, PTE_U_MASK. rewrite !nz_bit_at by lia.
  fold (pte_V pte) (pte_U pte) (pte_A pte) (pte_D pte).
  destruct (pte_plain pte); [|done]. destruct (pte_V pte) eqn:HV; [|done]. cbn [negb orb].
  destruct (pte_R pte || pte_W pte || pte_X pte) eqn:Hp; cbn [negb].
  - pose proof (page_bits_mono sv i (sv_levels sv) Hk ltac:(lia)).
    change (PG_SHIFT + _) with (page_bits sv i). by rewrite leaf_code by (done || lia).
  - destruct (pte_U pte), (pte_A pte), (pte_D pte); done.
Qed.

(** The first PTE of a walk decides. *)
Lemma translates_iff i base (s : cpu) a' pte' pa' :
  let a := pte_address sv i base va in
  let pte := phys_read (2 ^ sv_pte_log2 sv) s a in
  translates sv s prv access va i base a' pte' pa' <->
  pte_plain pte = true /\
  (leaf_ok s prv access pte (page_bits sv i) = true /\ a' = a /\ pte' = pte /\
     pa' = pte_target pte + va mod page_size sv i \/
   pte_pointer pte = true /\ exists j, i = S j /\
     translates sv s prv access va j (pte_target pte) a' pte' pa').
Proof.
  unfold leaf_ok. split.
  - intros Ht. destruct Ht as [i base a pte pa -> -> Hp Hl Hperm Had Hal ->|].
    + split; [done|]. left. split_and!; try done. rewrite Hl, Hperm. cbn [andb].
      apply andb_true_iff. split; [|by apply Z.eqb_eq].
      destruct (ad_needed _ _); [by apply Had|done].
    + subst. eauto 6.
  - intros (Hp & [(Hl & -> & -> & ->)|(Hptr & j & -> & Ht)]).
    + apply andb_true_iff in Hl as [[[Hl Hperm]%andb_true_iff Had]%andb_true_iff Hal%Z.eqb_eq].
      apply at_leaf; try done. intros E. by rewrite E in Had.
    + by eapply at_pointer.
Qed.

Lemma leaf_ok_bits (s : cpu) pte n : leaf_ok s prv access pte n = true ->
  pte_V pte = true /\ pte_R pte || pte_W pte || pte_X pte = true.
Proof.
  unfold leaf_ok, pte_leaf. destruct (pte_V pte), (pte_R pte), (pte_W pte), (pte_X pte); done.
Qed.

Lemma walk_spec i : (i < sv_levels sv)%nat -> forall base (s : cpu),
  (exists a pte pa, translates sv s prv access va i base a pte pa /\
     pte_walk (S i) prv access va (sv_pte_log2 sv) base s =
     leaf_done (sv_pte_log2 sv) access a pte pa s) \/
  (~ (exists a pte pa, translates sv s prv access va i base a pte pa) /\
   pte_walk (S i) prv access va (sv_pte_log2 sv) base s = (s, WFault)).
Proof.
  induction i as [i IH] using (well_founded_induction lt_wf). intros Hi base s.
  rewrite level_code by done. setoid_rewrite translates_iff.
  set (a := pte_address _ _ base va). set (pte := phys_read _ s a).
  pose proof (leaf_ok_bits s pte (page_bits sv i)) as Hlb.
  destruct (negb (pte_plain pte) || negb (pte_V pte)) eqn:Hv.
  { right. split; [|done]. intros (a' & pte' & pa' & Hp & Hc). rewrite Hp in Hv.
    apply negb_true_iff in Hv. destruct Hc as [(Hl & _)|(Hptr & _)].
    - destruct (Hlb Hl). congruence.
    - unfold pte_pointer in Hptr. by rewrite Hv in Hptr. }
  apply orb_false_iff in Hv as [Hp%negb_false_iff HV%negb_false_iff].
  destruct (pte_R pte || pte_W pte || pte_X pte) eqn:Hx'; cbn [negb].
  - assert (Hnp : pte_pointer pte = false) by (unfold pte_pointer; by rewrite HV, Hx').
    destruct (leaf_ok s prv access pte (page_bits sv i)) eqn:Hl.
    + left. exists a, pte, (pte_target pte + va mod page_size sv i). auto 7.
    + right. split; [|done]. intros (a' & pte' & pa' & _ & [(Hl' & _)|(Hptr & _)]); congruence.
  - assert (Hnl : leaf_ok s prv access pte (page_bits sv i) = false).
    { destruct (leaf_ok _ _ _ _ _); [|done]. by destruct (Hlb eq_refl). }
    destruct (pte_U pte || pte_A pte || pte_D pte) eqn:Hu.
    + right. split; [|done]. intros (a' & pte' & pa' & _ & [(Hl' & _)|(Hptr & _)]); [congruence|].
      unfold pte_pointer in Hptr. by rewrite HV, Hx', Hu in Hptr.
    + assert (Hptr : pte_pointer pte = true) by (unfold pte_pointer; by rewrite HV, Hx', Hu).
      destruct i as [|i].
      { right. split; [|done].
        intros (a' & pte' & pa' & _ & [(Hl' & _)|(_ & j & Hj & _)]); [congruence|done]. }
      destruct (IH i ltac:(lia) ltac:(lia) (pte_target pte) s) as [(a' & pte' & pa' & Ht & E)|[Hn E]].
      * left. exists a', pte', pa'. eauto 9.
      * right. split; [|done]. intros (a' & pte' & pa' & _ & [(Hl' & _)|(_ & j & [= ->] & Ht)]);
          [congruence|]. apply Hn. eauto.
Qed.
End Levels.

(** * Setting A and D *)

(** Some of what other threads do has happened. *)
Inductive after_others : cpu -> cpu -> Prop :=
  | others_none s : after_others s s
  | others_more s s' : after_others (interleave s) s' -> after_others s s'.

(** The leaf at [a], still [pte], has A and D set as one atomic step, perhaps
    after another thread came in between.  Outside RAM nothing is written. *)
Definition ad_exchanged (k : nat) (access a pte : Z) (s s' : cpu) : Prop :=
  let s1 := if smp s then interleave s else s in
  match ram_ptr s1 a with
  | None => s' = s1
  | Some ptr => (smp s = true -> host_read (2 ^ k) (mem (sh s1)) ptr = pte) /\
                s' = on_mem (host_write (2 ^ k) ptr (ad_set access pte)) s1
  end.

Lemma update_pte_cases k access a (s : cpu) :
  let pte := phys_read (2 ^ k) s a in
  match update_pte a pte (ad_set access pte) k s with
  | (s', true) => ad_exchanged k access a pte s s'
  | (s', false) => s' = interleave s /\ others s <> []
  end.
Proof.
  intros pte. unfold update_pte, ad_exchanged. destruct (smp s) eqn:Es; cbn [negb].
  2: { unfold phys_write. by destruct (ram_ptr s a). }
  destruct (ram_ptr (interleave s) a) as [ptr|] eqn:Ep; [|done].
  rewrite (uw_small _ pte) by apply phys_read_range. unfold host_cmpxchg.
  destruct (Z.eqb_spec (host_read (2 ^ k) (mem (sh (interleave s))) ptr) pte) as [E|E]; [done|].
  split; [done|]. intros Ho. apply E. unfold pte, phys_read.
  assert (Ei : interleave s = s) by (unfold interleave; by rewrite Ho).
  rewrite Ei in *. by rewrite Ep.
Qed.

Lemma length_interleave (s : cpu) : others s <> [] ->
  (length (others (interleave s)) < length (others s))%nat.
Proof. unfold interleave. destruct (others s) as [|f l]; [done|]. cbn. lia. Qed.

Lemma translates_read sv (s : cpu) prv access va i base a pte pa :
  translates sv s prv access va i base a pte pa -> pte = phys_read (2 ^ sv_pte_log2 sv) s a.
Proof. by induction 1. Qed.

(** * The whole translation *)

(** The physical address of the root table. *)
Definition root_table (bits : Z) (s : cpu) : Z := (satp s mod 2 ^ bits * 2 ^ 12) mod 2 ^ max_xlen.

Lemma root_interleave bits s : root_table bits (interleave s) = root_table bits s.
Proof. unfold root_table, interleave. by destruct (others s). Qed.

(** What a walk may give that starts in [s]: the translation of a state [s1]
    that other threads reach from there, with A and D set; or a fault, in a
    state without a translation. *)
Definition walk_result_ok (sv : scheme) (bits prv access va : Z) (s : cpu)
  (r : cpu * option Z) : Prop :=
  match r with
  | (s', Some pa) => exists s1 a pte, after_others s s1 /\
      translates sv s1 prv access va (pred (sv_levels sv)) (root_table bits s) a pte pa /\
      (if ad_needed access pte then ad_exchanged (sv_pte_log2 sv) access a pte s1 s' else s' = s1)
  | (s', None) => after_others s s' /\
      ~ (exists a pte pa, translates sv s' prv access va (pred (sv_levels sv))
           (root_table bits s) a pte pa)
  end.

Lemma restart_spec sv bits prv access va fuel s : sv_fits sv -> 0 <= access <= 2 ->
  (0 < sv_levels sv)%nat -> 0 <= bits <= 64 -> (length (others s) < fuel)%nat ->
  walk_result_ok sv bits prv access va s
    (walk_restart fuel (sv_levels sv) prv access va (sv_pte_log2 sv) bits s).
Proof.
  intros Hsv Ha Hl Hb. revert s. induction fuel as [|fuel IH]; intros s Hf; [lia|].
  cbn [walk_restart].
  assert (Er : tu (Z.shiftl (get_bits 64 (satp s) 0 bits) PG_SHIFT) = root_table bits s).
  { unfold PG_SHIFT. rewrite Z.shiftl_mul_pow2, get_bits_mod, Z.div_1_r by lia. done. }
  rewrite Er. set (base := root_table bits s). 
  destruct (sv_levels sv) as [|i] eqn:El; [lia|].
  destruct (walk_spec sv Hsv prv access va Ha i ltac:(lia) base s)
    as [(a & pte & pa & Ht & ->)|[Hn ->]].
  2: { unfold walk_result_ok. rewrite El. split; [constructor|done]. }
  unfold leaf_done. destruct (ad_needed access pte) eqn:Ead.
  2: { exists s, a, pte. rewrite El, Ead. split; [constructor|done]. }
  pose proof (update_pte_cases (sv_pte_log2 sv) access a s) as Hu. cbv zeta in Hu.
  rewrite <- (translates_read _ _ _ _ _ _ _ _ _ _ Ht) in Hu.
  destruct (update_pte a pte (ad_set access pte) (sv_pte_log2 sv) s) as [s1 []].
  { exists s, a, pte. rewrite El, Ead. split; [constructor|done]. }
  destruct Hu as [-> Ho]. pose proof (length_interleave s Ho).
  specialize (IH (interleave s) ltac:(lia)). unfold walk_result_ok in *. rewrite El in *.
  rewrite root_interleave in IH. fold base in IH.
  destruct (walk_restart _ _ _ _ _ _ _ _) as [s' [pa'|]].
  - destruct IH as (s1 & a1 & pte1 & Hafter & Hrest). exists s1, a1, pte1.
    split; [by apply others_more|done].
  - destruct IH as [Hafter Hn]. split; [by apply others_more|done].
Qed.

(** The scheme [satp] selects, with the bits of its root. *)
Definition satp_scheme (s : cpu) : option (scheme * Z) :=
  if max_xlen =? 32 then if Z.testbit (satp s) 31 then Some (Sv32, 22) else None
  else
    let mode := (satp s / 2 ^ 60) mod 2 ^ 4 in
    if mode =? 0 then None
    else if mode =? 8 then Some (Sv39, 44)
    else if mode =? 9 then Some (Sv48, 44)
    else Some (Sv57, 44).

(** [satp] holds a mode that exists. *)
Definition satp_ok (s : cpu) : Prop :=
  64 <= max_xlen -> let mode := get_bits 64 (satp s) 60 4 in mode = 0 \/ 8 <= mode <= 10.

(** The bits above the ones translated are copies of the highest. *)
Definition canonical (sv : scheme) (va : Z) : bool :=
  (max_xlen =? 32) || (sw (page_bits sv (sv_levels sv)) va =? ts va).

Lemma canonical_code n va : 0 < n <= max_xlen -> inw max_xlen va ->
  (tu (sign_extend max_xlen va n) =? va) = (sw n va =? ts va).
Proof.
  intros Hn Hv. rewrite sign_extend_sw by lia. unfold tu, ts.
  apply Bool.eq_iff_eq_true. rewrite !Z.eqb_eq. split; intros E.
  - assert (Hr : insw max_xlen (sw n va)).
    { pose proof (sw_range n va ltac:(lia)) as [? ?]. unfold insw.
      assert (2 ^ (n - 1) <= 2 ^ (max_xlen - 1)) by (apply Z.pow_le_mono_r; lia). lia. }
    rewrite <- E at 2. rewrite sw_uw by lia. symmetry. apply sw_small; [lia|done].
  - rewrite E, uw_sw by lia. by apply uw_small.
Qed.

(** The part of [get_phys_addr] for 64 bit PTEs, with [mode] of [satp]. *)
Definition walk64 (mode prv access va : Z) (s : cpu) : cpu * option Z :=
  let levels := mode - 8 + 3 in
  let vaddr_shift := max_xlen - (PG_SHIFT + levels * 9) in
  if negb (tu (sign_extend max_xlen va (max_xlen - vaddr_shift)) =? va) then (s, None)
  else walk_restart (S (length (others s))) (Z.to_nat levels) prv access va 3 44 s.

Lemma walk64_ok sv mode prv access va (s : cpu) : 64 <= max_xlen -> inw max_xlen va ->
  0 <= access <= 2 -> sv_pte_log2 sv = 3%nat -> (0 < sv_levels sv <= 5)%nat ->
  Z.of_nat (sv_levels sv) = mode - 8 + 3 ->
  if canonical sv va then walk_result_ok sv 44 prv access va s (walk64 mode prv access va s)
  else walk64 mode prv access va s = (s, None).
Proof.
  intros H64 Hva Ha E3 Hl Hm. unfold canonical, walk64. cbv zeta.
  assert (Hpb : page_bits sv (sv_levels sv) = 12 + 9 * Z.of_nat (sv_levels sv))
    by (unfold page_bits, vpn_bits; rewrite E3; lia).
  replace (max_xlen - (max_xlen - (PG_SHIFT + (mode - 8 + 3) * 9)))
    with (page_bits sv (sv_levels sv)) by (unfold PG_SHIFT; lia).
  rewrite canonical_code, (proj2 (Z.eqb_neq max_xlen 32)) by (done || lia). cbn [orb].
  destruct (sw _ va =? ts va); cbn [negb]; [|done]. rewrite <- Hm, Nat2Z.id, <- E3.
  apply restart_spec; [|lia..]. split; lia.
Qed.
End Walk.

(** * Properties *)


(** Permissions are the architecture's but for one case: with SUM set, S
    mode fetches instructions from user pages, which the architecture always
    forbids. *)
Theorem permits_but_sum_fetch `{MaxXlen} `{Platform D} (s : RISCVCPUState D) prv access pte :
  permits s prv access pte =
  arch_permits s prv access pte ||
  ((prv =? PRV_S) && (access =? ACCESS_CODE) && pte_U pte && pte_X pte && Z.testbit (mstatus s) 18).
Proof.
  unfold permits, arch_permits. set (sum := Z.testbit (mstatus s) 18).
  set (acc := if access =? ACCESS_READ then _ else _).
  destruct (prv =? PRV_S); [|by rewrite orb_false_r].
  destruct (Z.eqb_spec access ACCESS_CODE) as [E|E].
  - assert (acc = pte_X pte) as -> by (unfold acc; by rewrite E).
    destruct (pte_U pte), (pte_X pte), sum; done.
  - destruct (pte_U pte), sum, acc; done.
Qed.

(** ** Witness: a gigapage of Sv39 *)

#[local] Existing Instance demo_xlen.
#[local] Existing Instance demo_platform.

(** 8 KB of RAM at 0, with a root table at 0x1000 whose entry 1 maps a
    gigapage at 0x80000000 for reading, its A bit clear. *)
Definition demo_pte : Z := Z.lor (Z.shiftl 0x80000 10) 3.
Definition demo_ram : PhysMemoryRange :=
  mkRange 0 0x2000 0x2000 true 0 0x100000 0 None [] 0 None 0.
Definition demo_hart : RISCVCPUState unit :=
  (riscv_cpu_init 0 (shared_init (mkMap [demo_ram] false []) (host_write 8 0x101008 demo_pte ∅) tt))
    <| priv := PRV_S |> <| satp := 8 * 2 ^ 60 + 1 |> <| menvcfg := MENVCFG_ADUE |>.

Lemma va_range : inw max_xlen 0x40000123.
Proof. in_range. Qed.

