(* ===== verification/RvCsr.v ===== *)
(** Control and status registers of a RISC-V hart, its privilege mode, its
    inbox and its IMSIC interrupt files: [src/cpu/riscv/riscv_cpu_impl.h] from
    [get_mstatus] to [csr_write], [set_priv], [sbi_enter] and the overrides
    other threads post through.

    [csr_read] gives [None] and [csr_write] [CsrInvalid] where the code
    returns -1.  The two switches are cut along the privilege level of the
    registers, in the order of the code. *)

From stdpp Require Import base numbers list gmap.
From S2P Require Import Prelude Bits Cutils IoMem RvState RvMem.
Local Open Scope Z_scope.

Definition COUNTEREN_MASK : Z := bit_mask 32 3.
Definition MCOUNTINHIBIT_CY : Z := bit_at 32 0.
Definition MCOUNTINHIBIT_IR : Z := bit_at 32 2.
Definition MCOUNTINHIBIT_MASK : Z := Z.lor MCOUNTINHIBIT_CY MCOUNTINHIBIT_IR.
Definition MEDELEG_MASK : Z := 0x0000b3ff.
Definition MENVCFG_MASK : Z := lors [ENVCFG_FIOM; MENVCFG_ADUE; MENVCFG_STCE].
Definition SENVCFG_MASK : Z := ENVCFG_FIOM.

(** [(old & ~mask) | (val & mask)] *)
Definition merge (mask old val : Z) : Z := Z.lor (Z.ldiff old mask) (Z.land val mask).

(** MEI, MSI, MTI, SEI, SSI, STI *)
Definition irq_priority : list Z := [11; 3; 7; 9; 1; 5].

(** The order simultaneous interrupts are taken in, shared by
    [top_interrupt] and [raise_interrupt]: the first of [irq_priority] that is
    pending, else the lowest number. *)
Definition first_irq (pending : Z) : Z :=
  match list_find (fun i => get_bit 32 pending i = true) irq_priority with
  | Some (_, irq) => irq
  | None => ctz32 pending
  end.

(** The lowest pending and enabled identity under the threshold, or 0. *)
Fixpoint imsic_top_loop (eips eies : list Z) (w threshold : Z) : Z :=
  match eips, eies with
  | p :: eips, e :: eies =>
    let mask := Z.land p e in
    if nz mask then
      let id := w * 64 + builtin_ctz 64 mask in
      if nz threshold && (threshold <=? id) then 0 else id
    else imsic_top_loop eips eies (w + 1) threshold
  | _, _ => 0
  end.
Definition imsic_top (f : ImsicFile) : Z :=
  imsic_top_loop (eip f) (eie f) 0 (eithreshold f).

(** What a CSR write tells the interpreter. *)
Inductive csr_result := CsrInvalid | CsrOk | CsrExit | CsrFlushed.
#[export] Instance csr_result_eq_dec : EqDecision csr_result.
Proof. solve_decision. Defined.

Section Csr.
Context `{MaxXlen} `{Platform D}.
Notation cpu := (RISCVCPUState D).

(** * mstatus *)

Definition get_mstatus (s : cpu) (mask : Z) : Z :=
  let val := set_bits max_xlen (mstatus s) MSTATUS_FS_SHIFT 2 (fs s) in
  let val := Z.land val mask in
  let sd := (Z.land val MSTATUS_FS =? MSTATUS_FS) || (Z.land val MSTATUS_XS =? MSTATUS_XS) in
  if sd then Z.lor val (bit_at max_xlen (cur_xlen s - 1)) else val.

Definition set_mstatus (val : Z) (s : cpu) : cpu :=
  (* MPP is WARL and 2 is not a supported mode *)
  let val :=
    if get_bits max_xlen val MSTATUS_MPP_SHIFT 2 =? PRV_H
    then set_bits max_xlen val MSTATUS_MPP_SHIFT 2
           (get_bits max_xlen (mstatus s) MSTATUS_MPP_SHIFT 2)
    else val in
  (* flush the TLBs if change of MMU config *)
  let mod_ := Z.lxor (mstatus s) val in
  let s :=
    if nz (Z.land mod_ (lors [MSTATUS_MPRV; MSTATUS_SUM; MSTATUS_MXR])) ||
       (nz (Z.land (mstatus s) MSTATUS_MPRV) && nz (Z.land mod_ MSTATUS_MPP))
    then tlb_flush_all s else s in
  let s := s <| fs := get_bits max_xlen val MSTATUS_FS_SHIFT 2 |> in
  let mask := Z.ldiff MSTATUS_MASK MSTATUS_FS in
  let mask :=
    if 64 <=? max_xlen then
      let base := get_base_from_xlen max_xlen in
      let uxl := get_bits max_xlen val MSTATUS_UXL_SHIFT 2 in
      let mask := if (1 <=? uxl) && (uxl <=? base) then Z.lor mask MSTATUS_UXL_MASK else mask in
      let sxl := get_bits max_xlen val MSTATUS_SXL_SHIFT 2 in
      if (1 <=? sxl) && (sxl <=? base) then Z.lor mask MSTATUS_SXL_MASK else mask
    else mask in
  s <| mstatus := merge mask (mstatus s) val |>.

(** * Counters *)

Definition counter_accessible (s : cpu) (counter : Z) : bool :=
  if PRV_M <=? priv s then true
  else
    let counteren := mcounteren s in
    let counteren := if priv s <? PRV_S then Z.land counteren (scounteren s) else counteren in
    get_bit 32 counteren counter.

Definition get_mcycle (s : cpu) : Z :=
  if nz (Z.land (mcountinhibit s) MCOUNTINHIBIT_CY) then mcycle_base s
  else u64 (insn_counter s + mcycle_base s).

Definition get_minstret (s : cpu) : Z :=
  if nz (Z.land (mcountinhibit s) MCOUNTINHIBIT_IR) then minstret_base s
  else u64 (insn_counter s + minstret_base s).

Definition set_mcycle (val : Z) (s : cpu) : cpu :=
  s <| mcycle_base := if nz (Z.land (mcountinhibit s) MCOUNTINHIBIT_CY) then val
                      else u64 (val - insn_counter s) |>.

Definition set_minstret (val : Z) (s : cpu) : cpu :=
  s <| minstret_base := if nz (Z.land (mcountinhibit s) MCOUNTINHIBIT_IR) then val
                        else u64 (val - insn_counter s) |>.

Definition stimecmp_accessible (s : cpu) : bool :=
  (PRV_M <=? priv s) || nz (Z.land (menvcfg s) MENVCFG_STCE).

Definition csr64_written (s : cpu) (old_val val : Z) (high : bool) : Z :=
  if negb (cur_xlen s =? 32) then u64 val
  else set_bits 64 old_val (if high then 32 else 0) 32 (u64 val).

(** * Interrupts *)

Definition top_interrupt (s : cpu) (supervisor : bool) : Z :=
  let pending := Z.land (mip s) (mie s) in
  let pending := if supervisor then Z.land pending (mideleg s)
                 else Z.ldiff pending (mideleg s) in
  if pending =? 0 then 0 else Z.lor (tu (Z.shiftl (first_irq pending) 16)) 1.

Definition imsic_file (s : cpu) (file : Z) : ImsicFile := arr_get imsic0 (imsic s) file.
Definition set_imsic_file (file : Z) (f : ImsicFile) (s : cpu) : cpu :=
  s <| imsic := arr_set (imsic s) file f |>.

Definition imsic_update (file : Z) (s : cpu) : cpu :=
  let bit := if file =? IMSIC_FILE_M then MIP_MEIP else MIP_SEIP in
  if (eidelivery (imsic_file s file) =? 1) && nz (imsic_top (imsic_file s file))
  then set_mip bit s
  else s <| mip := Z.ldiff (mip s) bit |>.

Definition imsic_topei (s : cpu) (file : Z) : Z :=
  let id := imsic_top (imsic_file s file) in
  Z.lor (tu (Z.shiftl id 16)) id.

Definition imsic_claim (file : Z) (s : cpu) : cpu :=
  let f := imsic_file s file in
  let id := imsic_top f in
  if nz id then
    imsic_update file (set_imsic_file file
      (f <| eip := arr_set (eip f) (id / 64)
                     (Z.ldiff (arr_get 0 (eip f) (id / 64)) (bit_at 64 (id mod 64))) |>) s)
  else s.

(** * Privilege mode and SBI entry *)

Definition set_priv (p : Z) (s : cpu) : cpu :=
  if priv s =? p then s
  else
    let s := tlb_flush_all s in
    let s :=
      if 64 <=? max_xlen then
        let mxl :=
          if p =? PRV_S then get_bits max_xlen (mstatus s) MSTATUS_SXL_SHIFT 2
          else if p =? PRV_U then get_bits max_xlen (mstatus s) MSTATUS_UXL_SHIFT 2
          else mxl s in
        s <| cur_xlen := Z.shiftl 1 (4 + mxl) |>
      else s in
    s <| priv := p |>.

Definition set_hsm_state (st : RISCVHsmState) : cpu -> cpu :=
  on_sh (fun h => h <| hsm_state := st |>).

Definition sbi_enter (pc0 opaque : Z) (s : cpu) : cpu :=
  let s := s <| mstatus := Z.ldiff (mstatus s) (Z.lor MSTATUS_SIE MSTATUS_MPRV) |> in
  let s := if nz (Z.land (misa s) (Z.lor MCPUID_F MCPUID_D)) then s <| fs := 1 |> else s in
  let s := s <| satp := 0 |> in
  let s := tlb_flush_all s in
  let s := set_priv PRV_S s in
  let s := set_greg 10 (mhartid s) s in
  let s := set_greg 11 (tu opaque) s in
  let s := s <| pc := tu pc0 |> <| hsm_stopped := false |> <| hsm_suspended := false |>
             <| hsm_resume := false |> <| power_down_flag := false |> in
  set_hsm_state RISCV_HSM_STARTED s.

Definition sbi_stop (s : cpu) : cpu :=
  set_hsm_state RISCV_HSM_STOPPED
    (s <| hsm_stopped := true |> <| hsm_suspended := false |> <| power_down_flag := true |>).

(** * The inbox *)

Definition take_posted_tlb_flush (s : cpu) : cpu :=
  let req := tlb_flush_req (sh s) in
  if req =? tlb_flush_done (sh s) then s
  else on_sh (fun h => h <| tlb_flush_done := req |>) (tlb_flush_all s).

(** The messages of one interrupt file. *)
Definition take_msis (file : Z) (s : cpu) : cpu :=
  let bits := arr_get [] (msi_pending (sh s)) file in
  let s := on_sh (fun h => h <| msi_pending :=
             arr_set (msi_pending h) file (replicate IMSIC_WORDS 0) |>) s in
  let f := imsic_file s file in
  let s := set_imsic_file file (f <| eip := zip_with Z.lor (eip f) bits |>) s in
  if existsb nz bits then imsic_update file s else s.

Definition process_inbox (s : cpu) : cpu :=
  if negb (inbox_pending (sh s)) then s
  else
    let s := on_sh (fun h => h <| inbox_pending := false |>) s in
    let s :=
      if sbi s then
        let s := take_posted_tlb_flush s in
        let s :=
          if ssip_posted (sh s)
          then on_sh (fun h => h <| ssip_posted := false |>)
                 (s <| mip := Z.lor (mip s) MIP_SSIP |>)
          else s in
        if hsm_start_posted (sh s)
        then
          let s := on_sh (fun h => h <| hsm_start_posted := false |>) s in
          sbi_enter (hsm_addr (sh s)) (hsm_opaque (sh s)) s
        else s
      else s in
    let s := s <| mip := Z.lor (Z.ldiff (mip s) (irq_line_mask s))
                          (Z.land (irq_lines (sh s)) (irq_line_mask s)) |> in
    let s := if decide (intr_arch s = RISCV_INTR_AIA_IMSIC)
             then take_msis IMSIC_FILE_S (take_msis IMSIC_FILE_M s) else s in
    wake_on_irq s.

(** * Indirect registers *)

(** The eip or eie register an *iselect value in 0x80-0xff names: whether it
    is in eie, its word if implemented, and the bits of that word.  [None] for
    the odd numbers, which do not exist for RV64. *)
Definition imsic_array_reg (s : cpu) (sel : Z) : option (bool * option Z * Z * Z) :=
  let k := get_bits max_xlen sel 0 6 in
  let word := if k / 2 <? Z.of_nat IMSIC_WORDS then Some (k / 2) else None in
  if cur_xlen s =? 32 then Some (0xc0 <=? sel, word, if get_bit 32 k 0 then 32 else 0, 32)
  else if get_bit 32 k 0 then None
  else Some (0xc0 <=? sel, word, 0, 64).

Definition imsic_word (f : ImsicFile) (in_eie : bool) (w : Z) : Z :=
  arr_get 0 (if in_eie then eie f else eip f) w.

Definition ireg_read (s : cpu) (file sel : Z) : option Z :=
  if (0x30 <=? sel) && (sel <=? 0x3f) then
    if negb (cur_xlen s =? 32) && nz (Z.land sel 1) then None else Some 0
  else if (0x70 <=? sel) && (sel <=? 0xff) &&
          bool_decide (intr_arch s = RISCV_INTR_AIA_IMSIC) then
    let f := imsic_file s file in
    if sel =? 0x70 then Some (eidelivery f)
    else if sel =? 0x72 then Some (eithreshold f)
    else if 0x80 <=? sel then
      match imsic_array_reg s sel with
      | None => None
      | Some (in_eie, Some w, shift, len) => Some (get_bits 64 (imsic_word f in_eie w) shift len)
      | Some (_, None, _, _) => Some 0
      end
    else Some 0
  else None.

(** The file with a word written; identity 0 does not exist. *)
Definition imsic_write_word (f : ImsicFile) (in_eie : bool) (w v : Z) : ImsicFile :=
  let f := if in_eie then f <| eie := arr_set (eie f) w v |>
           else f <| eip := arr_set (eip f) w v |> in
  f <| eip := arr_set (eip f) 0 (set_bit 64 (arr_get 0 (eip f) 0) 0 false) |>
    <| eie := arr_set (eie f) 0 (set_bit 64 (arr_get 0 (eie f) 0) 0 false) |>.

Definition ireg_write (file sel val : Z) (s : cpu) : cpu * csr_result :=
  if (0x30 <=? sel) && (sel <=? 0x3f) then
    (s, if negb (cur_xlen s =? 32) && nz (Z.land sel 1) then CsrInvalid else CsrOk)
  else if (0x70 <=? sel) && (sel <=? 0xff) &&
          bool_decide (intr_arch s = RISCV_INTR_AIA_IMSIC) then
    let f := imsic_file s file in
    let ok f := (imsic_update file (set_imsic_file file f s), CsrOk) in
    if sel =? 0x70 then ok (f <| eidelivery := Z_of_bool (get_bit max_xlen val 0) |>)
    else if sel =? 0x72 then
      ok (f <| eithreshold := if val <=? RISCV_IMSIC_NUM_IDS then val else RISCV_IMSIC_NUM_IDS |>)
    else if 0x80 <=? sel then
      match imsic_array_reg s sel with
      | None => (s, CsrInvalid)
      | Some (in_eie, Some w, shift, len) =>
        ok (imsic_write_word f in_eie w
              (set_bits 64 (imsic_word f in_eie w) shift len (u64 val)))
      | Some (_, None, _, _) => ok f
      end
    else ok f
  else (s, CsrInvalid).

(** * Reading *)

Definition between (csr a b : Z) : bool := (a <=? csr) && (csr <=? b).

(** [val] unless the access is invalid *)
Definition csr_if (ok : bool) (val : Z) : option Z := if ok then Some val else None.

Definition is_base (s : cpu) : bool := bool_decide (intr_arch s = RISCV_INTR_BASE).
Definition is_imsic (s : cpu) : bool := bool_decide (intr_arch s = RISCV_INTR_AIA_IMSIC).

(** The unprivileged registers; [None] when [csr] is none of them. *)
Definition csr_read_user (s : cpu) (csr : Z) : option (option Z) :=
  let rv32 := cur_xlen s =? 32 in
  if csr =? 0x001 (* fflags *) then Some (csr_if (nz (fs s)) (fflags s))
  else if csr =? 0x002 (* frm *) then Some (csr_if (nz (fs s)) (frm s))
  else if csr =? 0x003 then Some (csr_if (nz (fs s)) (set_bits 32 (fflags s) 5 3 (frm s)))
  else if csr =? 0xc00 (* cycle *) then
    Some (csr_if (counter_accessible s 0) (get_mcycle s))
  else if csr =? 0xc01 (* time *) then
    Some (csr_if (counter_accessible s 1) (riscv_cpu_rtc_time s))
  else if csr =? 0xc02 (* instret *) then
    Some (csr_if (counter_accessible s 2) (get_minstret s))
  else if between csr 0xc03 0xc1f (* hpmcounter3..31 *) then
    Some (csr_if (counter_accessible s (get_bits 32 csr 0 5)) 0)
  else if csr =? 0xc80 (* cycleh *) then
    Some (csr_if (rv32 && counter_accessible s 0) (Z.shiftr (get_mcycle s) 32))
  else if csr =? 0xc81 (* timeh *) then
    Some (csr_if (rv32 && counter_accessible s 1) (Z.shiftr (riscv_cpu_rtc_time s) 32))
  else if csr =? 0xc82 (* instreth *) then
    Some (csr_if (rv32 && counter_accessible s 2) (Z.shiftr (get_minstret s) 32))
  else if between csr 0xc83 0xc9f (* hpmcounter3..31h *) then
    Some (csr_if (rv32 && counter_accessible s (get_bits 32 csr 0 5)) 0)
  else None.

(** The supervisor registers. *)
Definition csr_read_super (s : cpu) (csr : Z) : option (option Z) :=
  let rv32 := cur_xlen s =? 32 in
  if csr =? 0x100 then Some (Some (get_mstatus s SSTATUS_MASK))
  else if csr =? 0x104 (* sie *) then Some (Some (Z.land (mie s) (mideleg s)))
  else if csr =? 0x105 then Some (Some (stvec s))
  else if csr =? 0x106 then Some (Some (scounteren s))
  else if csr =? 0x140 then Some (Some (sscratch s))
  else if csr =? 0x141 then Some (Some (sepc s))
  else if csr =? 0x142 then Some (Some (scause s))
  else if csr =? 0x143 then Some (Some (stval s))
  else if csr =? 0x144 (* sip *) then Some (Some (Z.land (mip s) (mideleg s)))
  else if csr =? 0x10a (* senvcfg *) then Some (Some (senvcfg s))
  else if csr =? 0x14d (* stimecmp *) then Some (csr_if (stimecmp_accessible s) (stimecmp s))
  else if csr =? 0x15d (* stimecmph *) then
    Some (csr_if (rv32 && stimecmp_accessible s) (Z.shiftr (stimecmp s) 32))
  else if csr =? 0x180 then
    Some (csr_if (negb ((priv s <? PRV_M) && nz (Z.land (mstatus s) MSTATUS_TVM))) (satp s))
  else if csr =? 0x150 (* siselect *) then Some (csr_if (negb (is_base s)) (siselect s))
  else if csr =? 0x151 (* sireg *) then
    Some (if is_base s then None else ireg_read s IMSIC_FILE_S (siselect s))
  else if csr =? 0x15c (* stopei *) then
    Some (csr_if (is_imsic s) (imsic_topei s IMSIC_FILE_S))
  else if csr =? 0xdb0 (* stopi *) then Some (csr_if (negb (is_base s)) (top_interrupt s true))
  else if (csr =? 0x114) (* sieh *) || (csr =? 0x154) (* siph *) then
    Some (csr_if (negb (is_base s) && rv32) 0)
  else None.

(** The machine registers. *)
Definition csr_read_machine (s : cpu) (csr : Z) : option Z :=
  let rv32 := cur_xlen s =? 32 in
  if csr =? 0x308 (* mvien *) then csr_if (negb (is_base s)) 0
  else if csr =? 0x309 (* mvip *) then
    csr_if (negb (is_base s))
      (Z.lor (Z.land (mip s) MIP_SSIP)
             (if negb (nz (Z.land (menvcfg s) MENVCFG_STCE)) then Z.land (mip s) MIP_STIP else 0))
  else if (csr =? 0x313) (* midelegh *) || (csr =? 0x314) (* mieh *) ||
          (csr =? 0x318) (* mvienh *) || (csr =? 0x319) (* mviph *) ||
          (csr =? 0x354) (* miph *) then csr_if (negb (is_base s) && rv32) 0
  else if csr =? 0x350 (* miselect *) then csr_if (negb (is_base s)) (miselect s)
  else if csr =? 0x351 (* mireg *) then
    if is_base s then None else ireg_read s IMSIC_FILE_M (miselect s)
  else if csr =? 0x35c (* mtopei *) then csr_if (is_imsic s) (imsic_topei s IMSIC_FILE_M)
  else if csr =? 0xfb0 (* mtopi *) then csr_if (negb (is_base s)) (top_interrupt s false)
  else if csr =? 0x300 then Some (get_mstatus s (tu (-1)))
  else if csr =? 0x301 then Some (set_bits max_xlen (misa s) (cur_xlen s - 2) 2 (mxl s))
  else if csr =? 0x302 then Some (medeleg s)
  else if csr =? 0x303 then Some (mideleg s)
  else if csr =? 0x304 then Some (mie s)
  else if csr =? 0x305 then Some (mtvec s)
  else if csr =? 0x306 then Some (mcounteren s)
  else if csr =? 0x30a (* menvcfg *) then Some (menvcfg s)
  else if csr =? 0x31a (* menvcfgh *) then csr_if rv32 (Z.shiftr (menvcfg s) 32)
  else if csr =? 0x340 then Some (mscratch s)
  else if csr =? 0x341 then Some (mepc s)
  else if csr =? 0x342 then Some (mcause s)
  else if csr =? 0x343 then Some (mtval s)
  else if csr =? 0x344 then Some (mip s)
  else if csr =? 0x310 (* mstatush *) then csr_if rv32 0
  else if csr =? 0x320 (* mcountinhibit *) then Some (mcountinhibit s)
  else if between csr 0x323 0x33f (* mhpmevent3..31 *) then Some 0
  else if between csr 0x3a0 0x3a3 (* pmpcfg0..3 *) then Some 0
  else if between csr 0x3b0 0x3bf (* pmpaddr0..15 *) then Some 0
  else if csr =? 0xb00 (* mcycle *) then Some (get_mcycle s)
  else if csr =? 0xb02 (* minstret *) then Some (get_minstret s)
  else if between csr 0xb03 0xb1f (* mhpmcounter3..31 *) then Some 0
  else if csr =? 0xb80 (* mcycleh *) then csr_if rv32 (Z.shiftr (get_mcycle s) 32)
  else if csr =? 0xb82 (* minstreth *) then csr_if rv32 (Z.shiftr (get_minstret s) 32)
  else if between csr 0xb83 0xb9f (* mhpmcounter3..31h *) then csr_if rv32 0
  else if (csr =? 0xf11) || (csr =? 0xf12) || (csr =? 0xf13) || (csr =? 0xf15) then Some 0
  else if csr =? 0xf14 then Some (mhartid s)
  else None.

(** The switch of [csr_read]. *)
Definition csr_value (s : cpu) (csr : Z) : option Z :=
  match csr_read_user s csr with
  | Some r => r
  | None =>
    match csr_read_super s csr with
    | Some r => r
    | None => csr_read_machine s csr
    end
  end.

Definition csr_read (csr : Z) (will_write : bool) : M D Z := fun s =>
  if (get_bits 32 csr 10 2 =? 3) && will_write then (s, None) (* read-only CSR *)
  else if priv s <? get_bits 32 csr 8 2 then (s, None) (* not enough privilege *)
  else
    let s := process_inbox s in
    (s, option_map tu (csr_value s csr)).

(** * Writing *)

Definition set_frm (val : Z) (s : cpu) : cpu :=
  s <| frm := if 5 <=? val then 0 else val |>.

(** [None] for an invalid rounding mode *)
Definition get_insn_rm (s : cpu) (rm : Z) : option Z :=
  if rm =? 7 then Some (frm s) else if 5 <=? rm then None else Some rm.

(** A write that cannot fail, and one that is invalid unless [ok]. *)
Definition wrote (s : cpu) : cpu * csr_result := (s, CsrOk).
Definition wrote_if (ok : bool) (s s' : cpu) : cpu * csr_result :=
  if ok then (s', CsrOk) else (s, CsrInvalid).

Definition mip_writable (s : cpu) : Z :=
  if negb (nz (Z.land (menvcfg s) MENVCFG_STCE)) then Z.lor MIP_SSIP MIP_STIP else MIP_SSIP.

(** The unprivileged registers; [None] when [csr] is none of them. *)
Definition csr_write_user (csr val : Z) (s : cpu) : option (cpu * csr_result) :=
  if csr =? 0x001 (* fflags *) then
    Some (wrote (s <| fflags := get_bits max_xlen val 0 5 |> <| fs := 3 |>))
  else if csr =? 0x002 (* frm *) then
    Some (wrote (set_frm (get_bits max_xlen val 0 3) s <| fs := 3 |>))
  else if csr =? 0x003 (* fcsr *) then
    Some (wrote (set_frm (get_bits max_xlen val 5 3) s
                   <| fflags := get_bits max_xlen val 0 5 |> <| fs := 3 |>))
  else None.

(** Writing satp: no ASID is implemented. *)
Definition satp_written (s : cpu) (val : Z) : Z :=
  if max_xlen =? 32 then set_bit 32 (get_bits 32 val 0 22) 31 (get_bit 32 val 31)
  else
    let mode := get_bits 64 (satp s) 60 4 in
    let new_mode := get_bits max_xlen val 60 4 in
    let mode := if (new_mode =? 0) || ((8 <=? new_mode) && (new_mode <=? 10))
                then new_mode else mode in
    u64 (set_bits max_xlen (get_bits max_xlen val 0 44) 60 4 mode).

(** The supervisor registers. *)
Definition csr_write_super (csr val : Z) (s : cpu) : option (cpu * csr_result) :=
  let rv32 := cur_xlen s =? 32 in
  if csr =? 0x100 (* sstatus *) then
    Some (wrote (set_mstatus (merge SSTATUS_MASK (mstatus s) val) s))
  else if csr =? 0x104 (* sie *) then
    Some (wrote (s <| mie := merge (mideleg s) (mie s) val |>))
  else if csr =? 0x105 then Some (wrote (s <| stvec := set_bits max_xlen val 0 2 0 |>))
  else if csr =? 0x106 then Some (wrote (s <| scounteren := Z.land val COUNTEREN_MASK |>))
  else if csr =? 0x140 then Some (wrote (s <| sscratch := val |>))
  else if csr =? 0x141 then Some (wrote (s <| sepc := set_bit max_xlen val 0 false |>))
  else if csr =? 0x142 then Some (wrote (s <| scause := val |>))
  else if csr =? 0x143 then Some (wrote (s <| stval := val |>))
  else if csr =? 0x144 (* sip *) then
    Some (wrote (s <| mip := merge (Z.land (mideleg s) MIP_SSIP) (mip s) val |>))
  else if csr =? 0x10a (* senvcfg *) then
    Some (wrote (s <| senvcfg := Z.land val SENVCFG_MASK |>))
  else if csr =? 0x14d (* stimecmp *) then
    Some (wrote_if (stimecmp_accessible s) s
      (update_stimer (s <| stimecmp := csr64_written s (stimecmp s) val false |>)).2)
  else if csr =? 0x15d (* stimecmph *) then
    Some (wrote_if (rv32 && stimecmp_accessible s) s
      (update_stimer (s <| stimecmp := csr64_written s (stimecmp s) val true |>)).2)
  else if csr =? 0x180 then
    Some (if (priv s <? PRV_M) && nz (Z.land (mstatus s) MSTATUS_TVM) then (s, CsrInvalid)
          else (tlb_flush_all (s <| satp := satp_written s val |>), CsrFlushed))
  else if csr =? 0x150 (* siselect *) then
    Some (wrote_if (negb (is_base s)) s (s <| siselect := get_bits max_xlen val 0 9 |>))
  else if csr =? 0x151 (* sireg *) then
    Some (if is_base s then (s, CsrInvalid) else ireg_write IMSIC_FILE_S (siselect s) val s)
  else if csr =? 0x15c (* stopei *) then
    Some (wrote_if (is_imsic s) s (imsic_claim IMSIC_FILE_S s))
  else if (csr =? 0x114) (* sieh *) || (csr =? 0x154) (* siph *) then
    Some (wrote_if (negb (is_base s) && rv32) s s)
  else None.

(** Writing misa selects MXL, which changes XLEN. *)
Definition misa_written (val : Z) (s : cpu) : cpu * csr_result :=
  if 64 <=? max_xlen then
    let new_mxl := get_bits max_xlen val (cur_xlen s - 2) 2 in
    if (1 <=? new_mxl) && (new_mxl <=? get_base_from_xlen max_xlen) && negb (mxl s =? new_mxl)
    then (s <| mxl := new_mxl |> <| cur_xlen := Z.shiftl 1 (new_mxl + 4) |>, CsrExit)
    else (s, CsrOk)
  else (s, CsrOk).

(** Both counters are read under the old setting and put back under the new
    one. *)
Definition mcountinhibit_written (val : Z) (s : cpu) : cpu :=
  let cycle := get_mcycle s in
  let instret := get_minstret s in
  let s := s <| mcountinhibit := Z.land val MCOUNTINHIBIT_MASK |> in
  set_minstret instret (set_mcycle cycle s).

(** The machine registers. *)
Definition csr_write_machine (csr val : Z) (s : cpu) : cpu * csr_result :=
  let rv32 := cur_xlen s =? 32 in
  if csr =? 0x308 (* mvien *) then wrote_if (negb (is_base s)) s s
  else if csr =? 0x309 (* mvip *) then
    wrote_if (negb (is_base s)) s (s <| mip := merge (mip_writable s) (mip s) val |>)
  else if (csr =? 0x313) (* midelegh *) || (csr =? 0x314) (* mieh *) ||
          (csr =? 0x318) (* mvienh *) || (csr =? 0x319) (* mviph *) ||
          (csr =? 0x354) (* miph *) then wrote_if (negb (is_base s) && rv32) s s
  else if csr =? 0x350 (* miselect *) then
    wrote_if (negb (is_base s)) s
      (s <| miselect := get_bits max_xlen val 0 (if is_imsic s then 8 else 6) |>)
  else if csr =? 0x351 (* mireg *) then
    if is_base s then (s, CsrInvalid) else ireg_write IMSIC_FILE_M (miselect s) val s
  else if csr =? 0x35c (* mtopei *) then wrote_if (is_imsic s) s (imsic_claim IMSIC_FILE_M s)
  else if csr =? 0x300 then wrote (set_mstatus val s)
  else if csr =? 0x301 (* misa *) then misa_written val s
  else if csr =? 0x302 then wrote (s <| medeleg := merge MEDELEG_MASK (medeleg s) val |>)
  else if csr =? 0x303 then
    wrote (s <| mideleg := merge (lors [MIP_SSIP; MIP_STIP; MIP_SEIP]) (mideleg s) val |>)
  else if csr =? 0x304 then
    wrote (s <| mie := merge (lors [MIP_MSIP; MIP_MTIP; MIP_MEIP; MIP_SSIP; MIP_STIP; MIP_SEIP])
                         (mie s) val |>)
  else if csr =? 0x305 then wrote (s <| mtvec := set_bits max_xlen val 0 2 0 |>)
  else if csr =? 0x306 then wrote (s <| mcounteren := Z.land val COUNTEREN_MASK |>)
  else if (csr =? 0x30a) (* menvcfg *) || (csr =? 0x31a) (* menvcfgh *) then
    if (csr =? 0x31a) && negb rv32 then (s, CsrInvalid)
    else
      let s := s <| menvcfg := Z.land (csr64_written s (menvcfg s) val (csr =? 0x31a))
                                 MENVCFG_MASK |> in
      (tlb_flush_all (update_stimer s).2, CsrFlushed)
  else if csr =? 0x340 then wrote (s <| mscratch := val |>)
  else if csr =? 0x341 then wrote (s <| mepc := set_bit max_xlen val 0 false |>)
  else if csr =? 0x342 then wrote (s <| mcause := val |>)
  else if csr =? 0x343 then wrote (s <| mtval := val |>)
  else if csr =? 0x344 then wrote (s <| mip := merge (mip_writable s) (mip s) val |>)
  else if csr =? 0x310 (* mstatush *) then wrote_if rv32 s s
  else if csr =? 0x320 (* mcountinhibit *) then wrote (mcountinhibit_written val s)
  else if between csr 0x323 0x33f (* mhpmevent3..31 *) then wrote s
  else if between csr 0x3a0 0x3a3 (* pmpcfg0..3 *) then wrote s
  else if between csr 0x3b0 0x3bf (* pmpaddr0..15 *) then wrote s
  else if csr =? 0xb00 (* mcycle *) then
    wrote (set_mcycle (csr64_written s (get_mcycle s) val false) s)
  else if csr =? 0xb02 (* minstret *) then
    wrote (set_minstret (csr64_written s (get_minstret s) val false) s)
  else if between csr 0xb03 0xb1f (* mhpmcounter3..31 *) then wrote s
  else if csr =? 0xb80 (* mcycleh *) then
    wrote_if rv32 s (set_mcycle (csr64_written s (get_mcycle s) val true) s)
  else if csr =? 0xb82 (* minstreth *) then
    wrote_if rv32 s (set_minstret (csr64_written s (get_minstret s) val true) s)
  else if between csr 0xb83 0xb9f (* mhpmcounter3..31h *) then wrote_if rv32 s s
  else (s, CsrInvalid).

Definition csr_write (csr val : Z) (s : cpu) : cpu * csr_result :=
  let s := process_inbox s in
  match csr_write_user csr val s with
  | Some r => r
  | None =>
    match csr_write_super csr val s with
    | Some r => r
    | None => csr_write_machine csr val s
    end
  end.

(** * What other threads post, and the machine's settings *)

Definition post (f : Shared D -> Shared D) (h : Shared D) : Shared D :=
  f h <| inbox_pending := true |>.

Definition RequestExit : Shared D -> Shared D := post (fun h => h <| exit_request := true |>).

Definition SetIrqLine (mask : Z) (level : bool) : Shared D -> Shared D :=
  post (fun h => h <| irq_lines := if level then Z.lor (irq_lines h) mask
                                   else Z.ldiff (irq_lines h) mask |>).

(** [intr_arch] does not change once the hart runs. *)
Definition ImsicSetPending (arch : RISCVInterruptArch) (supervisor : bool) (id : Z)
  (h : Shared D) : Shared D :=
  let file := if supervisor then IMSIC_FILE_S else IMSIC_FILE_M in
  if bool_decide (arch <> RISCV_INTR_AIA_IMSIC) || (id =? 0) || (RISCV_IMSIC_NUM_IDS <? id)
  then h
  else post (fun h =>
    let l := arr_get [] (msi_pending h) file in
    h <| msi_pending := arr_set (msi_pending h) file
           (arr_set l (id / 64) (Z.lor (arr_get 0 l (id / 64)) (bit_at 64 (id mod 64)))) |>) h.

Definition HsmStart (a opaque : Z) (h : Shared D) : Shared D * bool :=
  if decide (hsm_state h = RISCV_HSM_STOPPED)
  then (post (fun h => h <| hsm_state := RISCV_HSM_START_PENDING |> <| hsm_addr := tu a |>
                         <| hsm_opaque := tu opaque |> <| hsm_start_posted := true |>) h, true)
  else (h, false).

Definition PostSoftIrq : Shared D -> Shared D := post (fun h => h <| ssip_posted := true |>).

(** The ticket and the request. *)
Definition PostTlbFlush (h : Shared D) : Z * Shared D :=
  let ticket := u64 (tlb_flush_req h + 1) in
  (ticket, post (fun h => h <| tlb_flush_req := ticket |>) h).

Definition TlbFlushDone (ticket : Z) (h : Shared D) : bool := ticket <=? tlb_flush_done h.

Definition SetInterruptArch (arch : RISCVInterruptArch) (s : cpu) : cpu :=
  s <| intr_arch := arch |>
    <| irq_line_mask :=
         if decide (arch = RISCV_INTR_AIA_IMSIC) then Z.lor MIP_MSIP MIP_MTIP
         else lors [MIP_MSIP; MIP_MTIP; MIP_MEIP; MIP_SEIP] |>.

Definition SetSbiHandler (s : cpu) : cpu :=
  sbi_stop (s <| sbi := true |>
    <| medeleg := Z.ldiff MEDELEG_MASK (bit_at 32 CAUSE_SUPERVISOR_ECALL) |>
    <| mideleg := lors [MIP_SSIP; MIP_STIP; MIP_SEIP] |>
    <| mcounteren := COUNTEREN_MASK |>
    <| menvcfg := Z.lor MENVCFG_STCE MENVCFG_ADUE |>).

Definition SetRtcTimeSource (source : bool) (s : cpu) : cpu := s <| rtc_time_source := source |>.
Definition SetSmp (enable : bool) (s : cpu) : cpu := s <| smp := enable |>.
(** The deadline, and the hart after it. *)
Definition UpdateSTimer (s : cpu) : Z * cpu := update_stimer s.

Definition HsmStop : cpu -> cpu := sbi_stop.

Definition HsmSuspend (retentive : bool) (resume_addr opaque : Z) (s : cpu) : cpu :=
  let s := s <| hsm_suspended := true |> <| hsm_resume := negb retentive |> in
  let s := on_sh (fun h => h <| hsm_addr := tu resume_addr |> <| hsm_opaque := tu opaque |>
                             <| hsm_state := RISCV_HSM_SUSPENDED |>) s in
  if Z.land (mip s) (mie s) =? 0 then s <| power_down_flag := true |> else s.

Definition SetTimer (stime : Z) (s : cpu) : cpu :=
  (update_stimer (s <| stimecmp := stime |>)).2.

Definition ClearSoftIrq (s : cpu) : cpu := s <| mip := Z.ldiff (mip s) MIP_SSIP |>.

Definition FlushTlb (s : cpu) : cpu := take_posted_tlb_flush (tlb_flush_all s).
Definition TakePostedTlbFlush (s : cpu) : cpu := take_posted_tlb_flush s.

Definition PowerDown (s : cpu) : cpu * bool :=
  let s := process_inbox s in (s, power_down_flag s).
End Csr.

(** * What interrupt bookkeeping changes *)

(** Only the pending bits, the interrupt files, the power-down flag and the
    words other threads share with the hart for them. *)
Definition irq_frame {D} (s s' : RISCVCPUState D) : Prop :=
  exists m p i d c q, s' = s <| mip := m |> <| power_down_flag := p |> <| imsic := i |>
    <| sh := (sh s) <| stimer_deadline := d |> <| stimer_changed := c |> <| msi_pending := q |> |>.

(** The frame of a state built by updates of those fields. *)
Ltac irq_fields :=
  lazymatch goal with |- irq_frame _ ?s =>
    exists (mip s), (power_down_flag s), (imsic s), (stimer_deadline (sh s)),
      (stimer_changed (sh s)), (msi_pending (sh s)); reflexivity end.

Section IrqFrame.
Context `{MaxXlen} `{Platform D}.
Notation cpu := (RISCVCPUState D).
Implicit Types s : cpu.

#[export] Instance irq_frame_preorder : PreOrder (@irq_frame D).
Proof.
  split; [intros s; irq_fields|].
  intros s1 s2 s3 (m & p & i & d & c & q & ->) (m' & p' & i' & d' & c' & q' & ->).
  by exists m', p', i', d', c', q'.
Qed.

Lemma irq_wake_on_irq s : irq_frame s (wake_on_irq s).
Proof. unfold wake_on_irq. case_match; irq_fields. Qed.

Lemma irq_mip m s : irq_frame s (s <| mip := m |>).
Proof. irq_fields. Qed.

Lemma irq_set_mip mask s : irq_frame s (set_mip mask s).
Proof. unfold set_mip. etransitivity; [apply irq_mip|apply irq_wake_on_irq]. Qed.

Lemma irq_update_stimer s : irq_frame s (update_stimer s).2.
Proof.
  unfold update_stimer. repeat case_match; simplify_eq; cbn [snd];
    first [irq_fields | etransitivity; [apply (irq_set_mip MIP_STIP)|irq_fields]].
Qed.

Lemma irq_imsic_update file s : irq_frame s (imsic_update file s).
Proof. unfold imsic_update. case_match; [apply irq_set_mip|apply irq_mip]. Qed.

Lemma irq_set_imsic_file file f s : irq_frame s (imsic_update file (set_imsic_file file f s)).
Proof. etransitivity; [|apply irq_imsic_update]. irq_fields. Qed.

Lemma irq_imsic_claim file s : irq_frame s (imsic_claim file s).
Proof. unfold imsic_claim. case_match; [apply irq_set_imsic_file|done]. Qed.

Lemma irq_ireg_write file sel val s : irq_frame s (ireg_write file sel val s).1.
Proof. unfold ireg_write. repeat case_match; try done; apply irq_set_imsic_file. Qed.

Lemma irq_take_msis file s : irq_frame s (take_msis file s).
Proof.
  unfold take_msis. case_match; [|irq_fields].
  etransitivity; [|apply irq_imsic_update]. irq_fields.
Qed.
End IrqFrame.

Create HintDb irq.
#[export] Hint Resolve irq_wake_on_irq irq_mip irq_set_mip irq_update_stimer irq_imsic_claim
  irq_ireg_write irq_take_msis : irq.

(** * Merging *)

Lemma merge_testbit mask old val i : 0 <= i ->
  Z.testbit (merge mask old val) i = if Z.testbit mask i then Z.testbit val i else Z.testbit old i.
Proof.
  intros Hi. unfold merge. autorewrite with bits. by destruct (Z.testbit mask i), (Z.testbit val i), (Z.testbit old i).
Qed.

(** The field of a merge comes whole from one side when the mask has it
    whole or not at all. *)
Lemma get_bits_merge w mask old val pos len b : 0 <= w -> 0 <= pos -> 0 <= len ->
  (forall i, pos <= i < pos + len -> Z.testbit mask i = b) ->
  get_bits w (merge mask old val) pos len = get_bits w (if b then val else old) pos len.
Proof.
  intros Hw Hp Hl Hm. apply get_bits_agree; [lia..|]. intros i Hi _.
  rewrite merge_testbit, Hm by lia. by destruct b.
Qed.
