(* ===== verification/RvTrap.v ===== *)
(** Traps of a RISC-V hart: [src/cpu/riscv/riscv_cpu_impl.h] from [sbi_arg] to
    [raise_interrupt]. *)

From stdpp Require Import base numbers list gmap.
From S2P Require Import Prelude Bits Cutils IoMem RvState RvMem RvCsr.
Local Open Scope Z_scope.

Section Trap.
Context `{MaxXlen} `{Platform D}.
Notation cpu := (RISCVCPUState D).

(** * SBI calls *)

Definition sbi_arg (s : cpu) (r : Z) : Z :=
  if cur_xlen s =? 32 then u32 (greg s r) else u64 (greg s r).

Definition sbi_result (s : cpu) (val : Z) : Z :=
  if cur_xlen s =? 32 then tu (sw 32 val) else tu (sw 64 val).

Definition sbi_ecall (s : cpu) : cpu :=
  let a := map (fun i => sbi_arg s (10 + Z.of_nat i)) (seq 0 8) in
  let s := s <| pc := tu (pc s + 4) |> in
  let '(s, a) := sbi_Ecall s (cur_xlen s) a in
  if negb (hsm_resume s) then
    let s := set_greg 10 (sbi_result s (arr_get 0 a 0)) s in
    set_greg 11 (sbi_result s (arr_get 0 a 1)) s
  else s.

(** * Taking a trap *)

(** Whether a trap taken from S or U mode goes to S mode. *)
Definition delegated (s : cpu) (cause : Z) : bool :=
  if priv s <=? PRV_S then
    if nz (Z.land cause CAUSE_INTERRUPT)
    then get_bit 32 (mideleg s) (Z.land cause (max_xlen - 1))
    else get_bit 32 (medeleg s) cause
  else false.

(** The cause as [mcause] and [scause] hold it. *)
Definition cause_reg (s : cpu) (cause : Z) : Z :=
  let causel := get_bits 32 cause 0 31 in
  if nz (Z.land cause CAUSE_INTERRUPT)
  then Z.lor causel (bit_at max_xlen (cur_xlen s - 1)) else causel.

Definition trap_to_s (causel tval : Z) (s : cpu) : cpu :=
  let s := s <| scause := causel |> <| sepc := pc s |> <| stval := tval |> in
  let s := s <| mstatus := set_bit max_xlen (mstatus s) MSTATUS_SPIE_SHIFT
                             (get_bit max_xlen (mstatus s) MSTATUS_SIE_SHIFT) |> in
  let s := s <| mstatus := set_bits max_xlen (mstatus s) MSTATUS_SPP_SHIFT 1 (priv s) |> in
  let s := s <| mstatus := Z.ldiff (mstatus s) MSTATUS_SIE |> in
  let s := set_priv PRV_S s in
  s <| pc := stvec s |>.

Definition trap_to_m (causel tval : Z) (s : cpu) : cpu :=
  let s := s <| mcause := causel |> <| mepc := pc s |> <| mtval := tval |> in
  let s := s <| mstatus := set_bit max_xlen (mstatus s) MSTATUS_MPIE_SHIFT
                             (get_bit max_xlen (mstatus s) MSTATUS_MIE_SHIFT) |> in
  let s := s <| mstatus := set_bits max_xlen (mstatus s) MSTATUS_MPP_SHIFT 2 (priv s) |> in
  let s := s <| mstatus := Z.ldiff (mstatus s) MSTATUS_MIE |> in
  let s := set_priv PRV_M s in
  s <| pc := mtvec s |>.

Definition raise_exception2 (cause tval : Z) (s : cpu) : cpu :=
  if (cause =? CAUSE_SUPERVISOR_ECALL) && sbi s then sbi_ecall s
  else
    let deleg := delegated s cause in
    let causel := cause_reg s cause in
    if negb deleg && sbi s then
      sbi_stop (on_sh (fun h => h <| traps_unhandled :=
        (u64 causel, u64 (pc s), u64 tval) :: traps_unhandled h |>) s)
    else if deleg then trap_to_s causel tval s
    else trap_to_m causel tval s.

Definition raise_exception (cause : Z) (s : cpu) : cpu := raise_exception2 cause 0 s.

(** * Returning from one *)

Definition clear_mprv_on_return (new_priv : Z) (s : cpu) : cpu :=
  if negb (new_priv =? PRV_M) && nz (Z.land (mstatus s) MSTATUS_MPRV)
  then tlb_flush_all (s <| mstatus := Z.ldiff (mstatus s) MSTATUS_MPRV |>) else s.

Definition handle_sret (s : cpu) : cpu :=
  let spp := Z_of_bool (get_bit max_xlen (mstatus s) MSTATUS_SPP_SHIFT) in
  let spie := get_bit max_xlen (mstatus s) MSTATUS_SPIE_SHIFT in
  let s := s <| mstatus := set_bit max_xlen (mstatus s) MSTATUS_SIE_SHIFT spie |> in
  let s := s <| mstatus := Z.lor (mstatus s) MSTATUS_SPIE |> in
  let s := s <| mstatus := Z.ldiff (mstatus s) MSTATUS_SPP |> in
  let s := clear_mprv_on_return spp s in
  let s := set_priv spp s in
  s <| pc := sepc s |>.

Definition handle_mret (s : cpu) : cpu :=
  let mpp := get_bits max_xlen (mstatus s) MSTATUS_MPP_SHIFT 2 in
  let mpie := get_bit max_xlen (mstatus s) MSTATUS_MPIE_SHIFT in
  let s := s <| mstatus := set_bit max_xlen (mstatus s) MSTATUS_MIE_SHIFT mpie |> in
  let s := s <| mstatus := Z.lor (mstatus s) MSTATUS_MPIE |> in
  let s := s <| mstatus := Z.ldiff (mstatus s) MSTATUS_MPP |> in
  let s := clear_mprv_on_return mpp s in
  let s := set_priv mpp s in
  s <| pc := mepc s |>.

(** * Interrupts *)

Definition get_pending_irq_mask (s : cpu) : Z :=
  let pending_ints := Z.land (mip s) (mie s) in
  if pending_ints =? 0 then 0
  else
    let not_deleg := u32 (Z.lnot (mideleg s)) in
    let enabled_ints :=
      if priv s =? PRV_M then if nz (Z.land (mstatus s) MSTATUS_MIE) then not_deleg else 0
      else if priv s =? PRV_S then
        if nz (Z.land (mstatus s) MSTATUS_SIE) then Z.lor not_deleg (mideleg s) else not_deleg
      else u32 (-1) in
    Z.land pending_ints enabled_ints.

(** The interrupt taken, if any. *)
Definition raise_interrupt (s : cpu) : cpu * bool :=
  let mask := get_pending_irq_mask s in
  if mask =? 0 then (s, false)
  else (raise_exception (Z.lor (first_irq mask) CAUSE_INTERRUPT) s, true).
End Trap.

(** * What a trap does *)

(** The stack of one interrupt enable in [mstatus]: its bit [ie], the bit
    [pie] that holds the one before the trap, and the [len] bits at [pp] that
    hold the mode before it. *)
Record ie_stack := { ie_bit : Z; pie_bit : Z; pp_pos : Z; pp_len : Z }.
Definition s_stack : ie_stack := {| ie_bit := 1; pie_bit := 5; pp_pos := 8; pp_len := 1 |}.
Definition m_stack : ie_stack := {| ie_bit := 3; pie_bit := 7; pp_pos := 11; pp_len := 2 |}.

(** A trap from mode [p] pushes. *)
Definition pushed (k : ie_stack) (p m : Z) (i : Z) : bool :=
  if i =? ie_bit k then false
  else if i =? pie_bit k then Z.testbit m (ie_bit k)
  else if (pp_pos k <=? i) && (i <? pp_pos k + pp_len k) then Z.testbit p (i - pp_pos k)
  else Z.testbit m i.

(** A return pops; leaving M mode clears MPRV. *)
Definition popped (k : ie_stack) (p m : Z) (i : Z) : bool :=
  if i =? ie_bit k then Z.testbit m (pie_bit k)
  else if i =? pie_bit k then true
  else if (pp_pos k <=? i) && (i <? pp_pos k + pp_len k) then false
  else if (i =? 17) && negb (p =? PRV_M) then false
  else Z.testbit m i.

(** [m] has the bits [f], at the machine's width. *)
Definition has_bits `{MaxXlen} (m : Z) (f : Z -> bool) : Prop :=
  forall i, 0 <= i < max_xlen -> Z.testbit m i = f i.

(** The architecture's choice of an interrupt: whether interrupt [i] is
    pending, enabled and taken in the current mode, and the first of those
    for M mode, then of those for S mode, in the order of priority. *)
Definition irq_taken {D} (s : RISCVCPUState D) (i : Z) : bool :=
  Z.testbit (mip s) i && Z.testbit (mie s) i &&
  (if Z.testbit (mideleg s) i then (priv s <? PRV_S) || ((priv s =? PRV_S) && Z.testbit (mstatus s) 1)
   else (priv s <? PRV_M) || Z.testbit (mstatus s) 3).
Definition arch_irq {D} (s : RISCVCPUState D) : option Z :=
  let for_s i := Z.testbit (mideleg s) i in
  find (irq_taken s) (List.filter (fun i => negb (for_s i)) irq_priority ++ List.filter for_s irq_priority).

(** Only the supervisor's interrupts are delegated, and all of them or none. *)
Definition deleg_uniform {D} (s : RISCVCPUState D) : Prop :=
  exists d, forall i, In i irq_priority ->
    Z.testbit (mideleg s) i = (d && bool_decide (i = 9 \/ i = 1 \/ i = 5)).

Section TrapFacts.
Context `{MaxXlen} `{Platform D} (Hx : valid_xlen max_xlen).
Notation cpu := (RISCVCPUState D).
Implicit Types s : cpu.

Lemma xlen_bits : 32 <= max_xlen.
Proof. destruct Hx as [E | [E | E]]; rewrite E; lia. Qed.

(** What [set_priv] leaves alone. *)
Lemma set_priv_fields p s :
  priv (set_priv p s) = p /\ mstatus (set_priv p s) = mstatus s /\
  (set_priv p s) <| priv := priv s |> <| cur_xlen := cur_xlen s |> <| sh := sh s |> = s.
Proof.
  unfold set_priv. destruct (Z.eqb_spec (priv s) p) as [<-|]; [done|]. by case_match.
Qed.

Ltac stack_bits := intros i Hi; unfold MSTATUS_SIE, MSTATUS_MIE, MSTATUS_SPIE, MSTATUS_MPIE,
    MSTATUS_SPP, MSTATUS_MPP, MSTATUS_SIE_SHIFT, MSTATUS_MIE_SHIFT, MSTATUS_SPIE_SHIFT,
    MSTATUS_MPIE_SHIFT, MSTATUS_SPP_SHIFT, MSTATUS_MPP_SHIFT;
  autorewrite with bits; rewrite ?get_bit_testbit by lia; unfold pushed;
  cbn [ie_bit pie_bit pp_pos pp_len s_stack m_stack];
  repeat (case_cmp; try lia; cbn [andb orb negb]); subst;
  rewrite ?andb_true_r, ?andb_false_r, ?orb_true_r, ?orb_false_r; try done.

Lemma push_s m p : has_bits (Z.ldiff (set_bits max_xlen
    (set_bit max_xlen m MSTATUS_SPIE_SHIFT (get_bit max_xlen m MSTATUS_SIE_SHIFT))
    MSTATUS_SPP_SHIFT 1 p) MSTATUS_SIE) (pushed s_stack p m).
Proof. pose proof xlen_bits. stack_bits. Qed.

Lemma push_m m p : has_bits (Z.ldiff (set_bits max_xlen
    (set_bit max_xlen m MSTATUS_MPIE_SHIFT (get_bit max_xlen m MSTATUS_MIE_SHIFT))
    MSTATUS_MPP_SHIFT 2 p) MSTATUS_MIE) (pushed m_stack p m).
Proof. pose proof xlen_bits. stack_bits. Qed.

Lemma pop_s m p : has_bits (Z.ldiff (Z.lor (set_bit max_xlen m MSTATUS_SIE_SHIFT
    (get_bit max_xlen m MSTATUS_SPIE_SHIFT)) MSTATUS_SPIE) MSTATUS_SPP)
  (fun i => if (i =? 17) && negb (p =? PRV_M) then Z.testbit m 17 else popped s_stack p m i).
Proof. pose proof xlen_bits. unfold popped. stack_bits. Qed.

Lemma pop_m m p : has_bits (Z.ldiff (Z.lor (set_bit max_xlen m MSTATUS_MIE_SHIFT
    (get_bit max_xlen m MSTATUS_MPIE_SHIFT)) MSTATUS_MPIE) MSTATUS_MPP)
  (fun i => if (i =? 17) && negb (p =? PRV_M) then Z.testbit m 17 else popped m_stack p m i).
Proof. pose proof xlen_bits. unfold popped. stack_bits. Qed.

(** The end of a return: MPRV, the mode and the program counter. *)
Lemma pop_finish k p f s v :
  has_bits (mstatus s) (fun i => if (i =? 17) && negb (p =? PRV_M) then f else popped k p v i) ->
  (k = s_stack \/ k = m_stack) ->
  has_bits (mstatus (set_priv p (clear_mprv_on_return p s))) (popped k p v).
Proof.
  pose proof xlen_bits. intros Hb Hk i Hi.
  rewrite (proj1 (proj2 (set_priv_fields p (clear_mprv_on_return p s)))).
  specialize (Hb i Hi). cbn beta in Hb. unfold clear_mprv_on_return.
  assert (H17 : forall q, negb (q =? PRV_M) = true -> popped k q v 17 = false).
  { intros q Hq. unfold popped. rewrite Hq. by destruct Hk as [-> | ->]. }
  destruct (negb (p =? PRV_M)) eqn:Ep; cbn [andb]; [|by rewrite andb_false_r in Hb].
  rewrite andb_true_r in Hb. unfold MSTATUS_MPRV. rewrite nz_bit_at by lia.
  destruct (Z.eqb_spec i 17) as [->|Hne].
  - rewrite H17 by done. case_match eqn:E; [|done].
    change (mstatus (tlb_flush_all _)) with (Z.ldiff (mstatus s) (bit_at max_xlen 17)).
    rewrite Z.ldiff_spec, bit_at_testbit by lia.
    repeat (case_cmp; try lia); apply andb_false_r.
  - rewrite <- Hb. case_match; [|done].
    change (mstatus (tlb_flush_all _)) with (Z.ldiff (mstatus s) (bit_at max_xlen 17)).
    rewrite Z.ldiff_spec, bit_at_testbit by lia.
    repeat (case_cmp; try lia); apply andb_true_r.
Qed.

Lemma clear_mprv_fields p s :
  sepc (clear_mprv_on_return p s) = sepc s /\ mepc (clear_mprv_on_return p s) = mepc s.
Proof. unfold clear_mprv_on_return. by case_match. Qed.

Lemma set_priv_epc p s : sepc (set_priv p s) = sepc s /\ mepc (set_priv p s) = mepc s.
Proof. unfold set_priv. by repeat case_match. Qed.

Lemma sret_exact s :
  let p := Z.b2z (Z.testbit (mstatus s) 8) in let s' := handle_sret s in
  priv s' = p /\ pc s' = sepc s /\ has_bits (mstatus s') (popped s_stack p (mstatus s)).
Proof.
  pose proof xlen_bits. cbv zeta. unfold handle_sret. cbv zeta.
  rewrite (get_bit_testbit _ _ MSTATUS_SPP_SHIFT) by (unfold MSTATUS_SPP_SHIFT; lia).
  change Z_of_bool with Z.b2z. set (p := Z.b2z _). set (s3 := s <| mstatus := _ |> <| mstatus := _ |> <| mstatus := _ |>).
  cbv zeta. set (s4 := set_priv p _). change (mstatus (s4 <| pc := _ |>)) with (mstatus s4).
  split_and!; [exact (proj1 (set_priv_fields p _))| |].
  - change (sepc s4 = sepc s). unfold s4.
    by rewrite (proj1 (set_priv_epc _ _)), (proj1 (clear_mprv_fields _ _)).
  - eapply pop_finish; [exact (pop_s (mstatus s) p)|by left].
Qed.

Lemma mret_exact s :
  let p := get_bits max_xlen (mstatus s) 11 2 in let s' := handle_mret s in
  priv s' = p /\ pc s' = mepc s /\ has_bits (mstatus s') (popped m_stack p (mstatus s)).
Proof.
  cbv zeta. unfold handle_mret. cbv zeta. change MSTATUS_MPP_SHIFT with 11.
  set (p := get_bits _ _ 11 2). set (s3 := s <| mstatus := _ |> <| mstatus := _ |> <| mstatus := _ |>).
  cbv zeta. set (s4 := set_priv p _). change (mstatus (s4 <| pc := _ |>)) with (mstatus s4).
  split_and!; [exact (proj1 (set_priv_fields p _))| |].
  - change (mepc s4 = mepc s). unfold s4.
    by rewrite (proj2 (set_priv_epc _ _)), (proj2 (clear_mprv_fields _ _)).
  - eapply pop_finish; [exact (pop_m (mstatus s) p)|by right].
Qed.

(** The trap of [raise_exception2] without an SBI handler. *)
Lemma raise_traps s cause tval : sbi s = false -> raise_exception2 cause tval s =
  if delegated s cause then trap_to_s (cause_reg s cause) tval s
  else trap_to_m (cause_reg s cause) tval s.
Proof. intros Hs. unfold raise_exception2. by rewrite Hs, !andb_false_r. Qed.

Lemma set_priv_regs p s (s' := set_priv p s) :
  stvec s' = stvec s /\ mtvec s' = mtvec s /\ (sepc s', scause s', stval s') = (sepc s, scause s, stval s) /\
  (mepc s', mcause s', mtval s') = (mepc s, mcause s, mtval s).
Proof. unfold s', set_priv. by repeat case_match. Qed.

Lemma trap_to_s_exact c tval s (s' := trap_to_s c tval s) :
  priv s' = PRV_S /\ pc s' = stvec s /\ (sepc s', scause s', stval s') = (pc s, c, tval) /\
  (mepc s', mcause s', mtval s') = (mepc s, mcause s, mtval s) /\
  has_bits (mstatus s') (pushed s_stack (priv s) (mstatus s)).
Proof.
  unfold s', trap_to_s. cbv zeta.
  set (s4 := s <| scause := _ |> <| sepc := _ |> <| stval := _ |> <| mstatus := _ |>
               <| mstatus := _ |> <| mstatus := _ |>).
  pose proof (set_priv_fields PRV_S s4) as (Hp & Hm & _).
  pose proof (set_priv_regs PRV_S s4) as (Ht & _ & Hs & Hr).
  split_and!; [exact Hp|exact Ht|exact Hs|exact Hr|].
  change (mstatus (_ <| pc := _ |>)) with (mstatus (set_priv PRV_S s4)). rewrite Hm.
  exact (push_s (mstatus s) (priv s)).
Qed.

Lemma trap_to_m_exact c tval s (s' := trap_to_m c tval s) :
  priv s' = PRV_M /\ pc s' = mtvec s /\ (mepc s', mcause s', mtval s') = (pc s, c, tval) /\
  (sepc s', scause s', stval s') = (sepc s, scause s, stval s) /\
  has_bits (mstatus s') (pushed m_stack (priv s) (mstatus s)).
Proof.
  unfold s', trap_to_m. cbv zeta.
  set (s4 := s <| mcause := _ |> <| mepc := _ |> <| mtval := _ |> <| mstatus := _ |>
               <| mstatus := _ |> <| mstatus := _ |>).
  pose proof (set_priv_fields PRV_M s4) as (Hp & Hm & _).
  pose proof (set_priv_regs PRV_M s4) as (_ & Ht & Hs & Hr).
  split_and!; [exact Hp|exact Ht|exact Hr|exact Hs|].
  change (mstatus (_ <| pc := _ |>)) with (mstatus (set_priv PRV_M s4)). rewrite Hm.
  exact (push_m (mstatus s) (priv s)).
Qed.


(** C8: returning from the trap handler resumes the interrupted instruction in
    its mode, with the interrupt enable it had: of [mstatus] only the saved
    enable is then set, the saved mode cleared, and MPRV cleared unless the
    trap was taken in M mode. *)
Theorem trap_returns s cause tval : sbi s = false ->
  priv s = PRV_U \/ priv s = PRV_S \/ priv s = PRV_M ->
  let to_s := delegated s cause in
  let k := if to_s then s_stack else m_stack in
  let s' := (if to_s then handle_sret else handle_mret) (raise_exception2 cause tval s) in
  priv s' = priv s /\ pc s' = pc s /\
  has_bits (mstatus s') (fun i =>
    if i =? pie_bit k then true
    else if (pp_pos k <=? i) && (i <? pp_pos k + pp_len k) then false
    else if (i =? 17) && negb (priv s =? PRV_M) then false else Z.testbit (mstatus s) i).
Proof.
  pose proof xlen_bits. intros Hs Hp. cbv zeta. rewrite raise_traps by done.
  destruct (delegated s cause) eqn:E.
  - destruct (trap_to_s_exact (cause_reg s cause) tval s) as (_ & _ & Hr & _ & Hb).
    set (t := trap_to_s _ _ _) in *. destruct (sret_exact t) as (Hpr & Hpc & Hst).
    assert (Ep : Z.b2z (Z.testbit (mstatus t) 8) = priv s).
    { rewrite Hb by lia. unfold delegated in E.
      destruct Hp as [Hp|[Hp|Hp]]; rewrite Hp in *; done. }
    rewrite Ep in Hpr, Hst. split_and!; [done|congruence|]. intros i Hi. rewrite Hst by done.
    unfold popped. rewrite !Hb by (done || unfold s_stack; cbn; lia). unfold pushed.
    cbn [s_stack ie_bit pie_bit pp_pos pp_len]. repeat (case_cmp; try lia; try done); by subst.
  - destruct (trap_to_m_exact (cause_reg s cause) tval s) as (_ & _ & Hr & _ & Hb).
    set (t := trap_to_m _ _ _) in *. destruct (mret_exact t) as (Hpr & Hpc & Hst).
    assert (Ep : get_bits max_xlen (mstatus t) 11 2 = priv s).
    { bits_at i Hi. autorewrite with bits. case_cmp; cbn [andb];
        [|by destruct Hp as [Hp|[Hp|Hp]]; rewrite Hp; rewrite (inw_high 2) by done].
      rewrite Hb by lia. unfold pushed. cbn [m_stack ie_bit pie_bit pp_pos pp_len].
      repeat (case_cmp; try lia). by replace (11 + i - 11) with i by lia. }
    rewrite Ep in Hpr, Hst. split_and!; [done|congruence|]. intros i Hi. rewrite Hst by done.
    unfold popped. rewrite !Hb by (done || unfold m_stack; cbn; lia). unfold pushed.
    cbn [m_stack ie_bit pie_bit pp_pos pp_len]. repeat (case_cmp; try lia; try done); by subst.
Qed.

(** * Interrupts *)

Lemma pending_mask_bit s i : priv s = PRV_U \/ priv s = PRV_S \/ priv s = PRV_M -> 0 <= i < 32 ->
  Z.testbit (get_pending_irq_mask s) i = irq_taken s i.
Proof.
  pose proof xlen_bits. intros Hp Hi. unfold get_pending_irq_mask, irq_taken. cbv zeta.
  unfold MSTATUS_MIE, MSTATUS_SIE, MSTATUS_MIE_SHIFT, MSTATUS_SIE_SHIFT. rewrite !nz_bit_at by lia.
  destruct (Z.eqb_spec (Z.land (mip s) (mie s)) 0) as [E|E].
  { apply (f_equal (fun x => Z.testbit x i)) in E. rewrite Z.land_spec, Z.bits_0 in E.
    by rewrite E, Z.bits_0. }
  rewrite !Z.land_spec. f_equal.
  destruct Hp as [-> | [-> | ->]]; cbn; destruct (Z.testbit (mstatus s) 1), (Z.testbit (mstatus s) 3), (Z.testbit (mideleg s) i) eqn:E';
    unfold u32; rewrite ?Z.lor_spec, ?uw_testbit, ?Z.lnot_spec, ?Z.bits_0, ?Z.bits_m1, ?E' by lia;
    repeat (case_cmp; try lia); done.
Qed.
Lemma first_irq_find m : first_irq m =
  match find (fun i => get_bit 32 m i) irq_priority with Some i => i | None => ctz32 m end.
Proof.
  unfold first_irq, irq_priority. cbn [list_find find]. unfold decide, decide_rel, bool_eq_dec.
  repeat (match goal with |- context [if get_bit 32 m ?i then _ else _] =>
            destruct (get_bit 32 m i) end; [done|]; cbn). done.
Qed.
Lemma arch_irq_uniform s : deleg_uniform s -> arch_irq s = find (irq_taken s) irq_priority.
Proof.
  intros [d Hd]. unfold arch_irq. cbv zeta.
  pose proof (fun i H => Hd i H) as Hd'. unfold irq_priority in *. cbn [List.filter].
  rewrite !Hd' by (cbn; tauto). by destruct d.
Qed.

Lemma find_ext {A} (f g : A -> bool) l : (forall x, In x l -> f x = g x) -> find f l = find g l.
Proof.
  induction l as [|x l IH]; [done|]. intros Hf. cbn. rewrite (Hf x) by (by left).
  rewrite IH; [done|]. intros y Hy. apply Hf. by right.
Qed.

Lemma irq_priority_range i : In i irq_priority -> 0 <= i < 32.
Proof. unfold irq_priority. cbn. lia. Qed.

(** Interrupt [i] is delegated as its bit of [mideleg] says. *)
Lemma delegated_irq s i : 0 <= i < 32 ->
  delegated s (Z.lor i CAUSE_INTERRUPT) = (priv s <=? PRV_S) && Z.testbit (mideleg s) i.
Proof.
  pose proof xlen_bits as Hl. intros Hi. unfold delegated. destruct (priv s <=? PRV_S); [|done]. cbn [andb].
  assert (Hi' : inw 5 i) by done.
  unfold CAUSE_INTERRUPT. rewrite nz_bit_at, Z.lor_spec, bit_at_testbit by lia.
  replace ((31 =? 31) && _) with true by done. rewrite orb_true_r.
  replace (Z.land (Z.lor i (bit_at 32 31)) (max_xlen - 1)) with i; [by rewrite get_bit_testbit by lia|].
  assert (Hm : exists n, 5 <= n <= 7 /\ max_xlen - 1 = Z.ones n).
  { destruct Hx as [E | [E | E]]; rewrite E; [exists 5|exists 6|exists 7]; done. }
  destruct Hm as (n & Hn & ->). symmetry. bits_at j Hj. autorewrite with bits.
  destruct (Z.ltb_spec j 5); repeat (case_cmp; try lia); cbn [andb orb];
    rewrite ?andb_true_r, ?andb_false_r, ?orb_false_r; try done; by rewrite (inw_high 5) by (done || lia).
Qed.

End TrapFacts.

(** * Instances *)

#[local] Existing Instance demo_xlen.
#[local] Existing Instance demo_platform.

Definition trap_hart : RISCVCPUState unit :=
  (riscv_cpu_init 0 (shared_init (mkMap [] false []) ∅ tt))
    <| priv := PRV_S |> <| pc := 0x4000 |> <| stvec := 0x8000 |> <| mstatus := 2 ^ 1 + 2 ^ 18 |>
    <| medeleg := 2 ^ 13 |> <| mie := MIP_SEIP + MIP_SSIP + MIP_MTIP |>
    <| mip := MIP_SEIP + MIP_SSIP |>
    <| mideleg := MIP_SEIP + MIP_SSIP + MIP_STIP |>.

Lemma trap_hart_mie i : Z.testbit (mie trap_hart) i = true -> In i irq_priority.
Proof.
  change (mie trap_hart) with (Z.lor (Z.lor (2 ^ 1) (2 ^ 7)) (2 ^ 9)).
  rewrite !Z.lor_spec, !testbit_pow2, !orb_true_iff, !Z.eqb_eq by lia.
  intros [[-> | ->] | ->]; unfold irq_priority; cbn; tauto.
Qed.

(** when [mideleg] delegates SEI and not SSI and both are pending, the hart
    takes SEI in S mode although the architecture takes SSI, which is for M
    mode, first. *)
Theorem interrupt_order_off : exists s : RISCVCPUState unit,
  sbi s = false /\ priv s = PRV_S /\
  (forall i, Z.testbit (mie s) i = true -> In i irq_priority) /\
  arch_irq s = Some 1 /\ Z.testbit (mideleg s) 1 = false /\
  (raise_interrupt s).2 = true /\ priv (raise_interrupt s).1 = PRV_S /\
  scause (raise_interrupt s).1 = 2 ^ 63 + 9.
Proof.
  exists (trap_hart <| mideleg := MIP_SEIP |>). split_and!; try (vm_compute; reflexivity).
  exact trap_hart_mie.
Qed.


Lemma trap_returns_witness :
  let s' := handle_sret (raise_exception2 CAUSE_LOAD_PAGE_FAULT 0x1234 trap_hart) in
  priv s' = PRV_S /\ pc s' = 0x4000 /\ Z.testbit (mstatus s') 1 = true.
Proof.
  assert (E : delegated trap_hart CAUSE_LOAD_PAGE_FAULT = true) by (vm_compute; reflexivity).
  pose proof (trap_returns demo_valid trap_hart CAUSE_LOAD_PAGE_FAULT 0x1234 eq_refl
    (or_intror (or_introl eq_refl))) as Hr.
  rewrite E in Hr. destruct Hr as (Hp & Hc & Hb). cbv zeta.
  split; [exact Hp|]. split; [exact Hc|]. rewrite (Hb 1) by in_range. vm_compute. reflexivity.
Defined.

