(* ===== verification/RvTlb.v ===== *)
(** The TLBs of a RISC-V hart: when an access hits, that a filled entry
    answers for its whole page, that a flush leaves nothing to hit, and that
    what changes translation flushes ([src/cpu/riscv/riscv_cpu_impl.h],
    [riscv_cpu_priv.h]). *)

From stdpp Require Import base numbers list gmap.
From S2P Require Import Prelude Bits Cutils IoMem RvState RvMem RvCsr RvTrap.
Local Open Scope Z_scope.

(** What translation depends on: the privilege of data accesses and of
    fetches, SUM, MXR, [satp], whether A and D are set in place, and XLEN. *)
Definition mmu_ctx `{MaxXlen} `{Platform D} (s : RISCVCPUState D) : Z * Z * bool * bool * Z * bool * Z :=
  (access_priv s ACCESS_READ, access_priv s ACCESS_CODE, Z.testbit (mstatus s) 18,
   Z.testbit (mstatus s) 19, satp s, Z.testbit (menvcfg s) 61, cur_xlen s).

Definition no_entry `{MaxXlen} (e : TLBEntry) : Prop := vaddr e = tu (-1).

(** No entry is valid. *)
Definition tlb_empty `{MaxXlen} {D} (s : RISCVCPUState D) : Prop :=
  Forall no_entry (tlb_read (sh s)) /\ Forall no_entry (tlb_write (sh s)) /\
  Forall no_entry (tlb_code (sh s)).

Section Tlb.
Context `{MaxXlen} `{Platform D} (Hx : valid_xlen max_xlen).
Notation cpu := (RISCVCPUState D).

Lemma xlen_ge : 32 <= max_xlen.
Proof. destruct Hx as [E | [E | E]]; rewrite E; lia. Qed.

(** * Hits *)

Lemma page_of_va_mod va : page_of_va va = va - va mod 2 ^ 12.
Proof.
  pose proof xlen_ge. unfold page_of_va, PG_MASK, PG_SHIFT.
  rewrite bit_mask_ones, Z.min_r, Z.ldiff_ones_r by lia.
  rewrite Z.shiftl_mul_pow2, Z.shiftr_div_pow2 by lia. pose proof (Z.div_mod va (2 ^ 12)). lia.
Qed.

Lemma tag_value sz va : (sz <= 4)%nat ->
  tlb_access_tag sz va = page_of_va va + va mod 2 ^ Z.of_nat sz.
Proof.
  intros Hs. pose proof xlen_ge. rewrite page_of_va_mod.
  pose proof (Z.div_mod va (2 ^ 12)) as Hd.
  assert (Hr : inw (Z.of_nat sz) (va mod 2 ^ Z.of_nat sz)).
  { apply Z.mod_pos_bound, pow2_pos. lia. }
  replace (va - va mod 2 ^ 12) with (va / 2 ^ 12 * 2 ^ 12) by lia.
  rewrite <- lor_mul_pow2 by first [lia | apply (inw_mono (Z.of_nat sz)); [lia|done]].
  rewrite <- Z.shiftl_mul_pow2, <- Z.shiftr_div_pow2 by lia.
  unfold tlb_access_tag, PG_MASK, PG_SHIFT.
  rewrite bit_mask_ones, Z.min_r by lia. replace (2 ^ Z.of_nat sz - 1) with (Z.ones (Z.of_nat sz))
    by (rewrite Z.ones_equiv; lia).
  bits_at i Hi. rewrite Z.lor_spec, !Z.ldiff_spec, Z.shiftl_spec, Z.testbit_mod_pow2 by lia.
  rewrite !Z.testbit_ones_nonneg by lia. destruct (Z.leb_spec 12 i).
  - rewrite Z.shiftr_spec by lia. replace (i - 12 + 12) with i by lia.
    repeat case_cmp; try lia. cbn. by rewrite andb_true_r, orb_false_r.
  - rewrite (testbit_neg (i - 12)) by lia. repeat case_cmp; try lia; cbn;
      by rewrite ?andb_true_r, ?andb_false_r.
Qed.

(** A tag is a page exactly for an access that is aligned in it. *)
Lemma tag_page sz va page : (sz <= 4)%nat -> page mod 2 ^ 12 = 0 ->
  page = tlb_access_tag sz va <-> page = page_of_va va /\ va mod 2 ^ Z.of_nat sz = 0.
Proof.
  intros Hs Hp. rewrite tag_value by done. split; [|lia]. intros E.
  assert (Hr : 0 <= va mod 2 ^ Z.of_nat sz < 2 ^ 12).
  { pose proof (Z.mod_pos_bound va (2 ^ Z.of_nat sz)). pose proof (pow2_pos (Z.of_nat sz)).
    assert (2 ^ Z.of_nat sz <= 2 ^ 4) by (apply Z.pow_le_mono_r; lia). lia. }
  assert (Hq : page_of_va va mod 2 ^ 12 = 0).
  { rewrite page_of_va_mod, Zminus_mod_idemp_r, Z.sub_diag. done. }
  rewrite E, Z.add_mod, Hq, Z.add_0_l, Z.mod_mod, Z.mod_small in Hp by lia. lia.
Qed.

Lemma tlb_index_range va : 0 <= tlb_index va < 256.
Proof.
  pose proof xlen_ge.
  assert (Hr : inw 8 (tlb_index va)) by (apply inw_get_bits; [lia|done|unfold TLB_BITS; lia]).
  done.
Qed.

(** Addresses of a page share the entry. *)
Lemma tlb_index_page va va' : inw max_xlen va -> inw max_xlen va' ->
  page_of_va va' = page_of_va va -> tlb_index va' = tlb_index va.
Proof.
  pose proof xlen_ge. intros Hv Hv' Hp. unfold tlb_index, PG_SHIFT, TLB_BITS.
  rewrite !get_bits_mod by lia. rewrite !page_of_va_mod in Hp.
  replace (va' / 2 ^ 12) with (va / 2 ^ 12); [done|].
  pose proof (Z.div_mod va (2 ^ 12)). pose proof (Z.div_mod va' (2 ^ 12)). lia.
Qed.

(** * Flushes *)

Lemma tlb_empty_flush (s : cpu) : tlb_empty (tlb_flush_all s).
Proof.
  unfold tlb_empty, tlb_flush_all, tlb_init, on_sh. cbn.
  split_and!; apply Forall_map, Forall_true; intros e; reflexivity.
Qed.

(** An invalid entry has no page. *)
Lemma no_entry_tag sz va : (sz <= 4)%nat -> tu (-1) <> tlb_access_tag sz va.
Proof.
  intros Hs E. pose proof xlen_ge. apply (f_equal (fun x => Z.testbit x 11)) in E.
  revert E. unfold tu, tlb_access_tag, PG_MASK, PG_SHIFT.
  rewrite uw_testbit, !Z.ldiff_spec, bit_mask_testbit by lia.
  replace (2 ^ Z.of_nat sz - 1) with (Z.ones (Z.of_nat sz)) by (rewrite Z.ones_equiv; lia).
  rewrite Z.testbit_ones_nonneg by lia.
  repeat (case_cmp; try lia). cbn. by rewrite andb_false_r.
Qed.

Lemma no_entry_miss tlb sz va : (sz <= 4)%nat -> length tlb = TLB_SIZE -> Forall no_entry tlb ->
  (vaddr (arr_get tlb0 tlb (tlb_index va)) =? tlb_access_tag sz va) = false.
Proof.
  intros Hs Hl Ht. apply Z.eqb_neq. pose proof (tlb_index_range va).
  assert (Hn : no_entry (arr_get tlb0 tlb (tlb_index va))).
  { apply Forall_arr_get_lt; [done|]. by rewrite Hl. }
  rewrite Hn. by apply no_entry_tag.
Qed.

Lemma page_tag va : page_of_va va = tlb_access_tag 0 va.
Proof. rewrite tag_value by lia. rewrite Z.mod_1_r. lia. Qed.

(** What the hart keeps of its translations: either the TLBs are empty, or
    they and what they depend on are as before. *)
Definition tlbs (s : cpu) := (tlb_read (sh s), tlb_write (sh s), tlb_code (sh s)).
Definition tlb_lens (s : cpu) :=
  (length (tlb_read (sh s)), length (tlb_write (sh s)), length (tlb_code (sh s))).
Definition flushed_from (s s' : cpu) : Prop := tlb_empty s' /\ tlb_lens s' = tlb_lens s.
Definition tlb_ok (s s' : cpu) : Prop :=
  flushed_from s s' \/ (mmu_ctx s' = mmu_ctx s /\ tlbs s' = tlbs s).

Lemma flushed_flush s : flushed_from s (tlb_flush_all s).
Proof.
  split; [apply tlb_empty_flush|]. unfold tlb_lens, tlb_flush_all, tlb_init, on_sh. cbn.
  by rewrite !length_map.
Qed.

Lemma tlb_ok_lens s s' : tlb_ok s s' -> tlb_lens s' = tlb_lens s.
Proof. intros [[_ ?]|[_ E]]; [done|]. unfold tlbs, tlb_lens in *. congruence. Qed.

#[local] Instance tlb_ok_preorder : PreOrder tlb_ok.
Proof.
  split; [by right|]. intros a b c Hab Hbc. pose proof (tlb_ok_lens _ _ Hab) as Hl.
  destruct Hbc as [[Hc Hc']|[Hc Hc']]; [left; split; congruence|].
  destruct Hab as [[Hb Hb']|[Hb Hb']]; [left|right; split; congruence].
  unfold flushed_from, tlb_empty, tlb_lens, tlbs in *. split; congruence.
Qed.

Lemma tlb_ok_flush s : tlb_ok s (tlb_flush_all s).
Proof. left. apply flushed_flush. Qed.

Lemma nz_mprv m : nz (Z.land m MSTATUS_MPRV) = Z.testbit m 17.
Proof. pose proof xlen_ge. apply nz_bit_at. lia. Qed.

(** The bits of [mstatus] that translation depends on. *)
Definition same_mmu_bits (m m' : Z) : Prop :=
  forall i, i = 17 \/ i = 18 \/ i = 19 \/ (Z.testbit m 17 = true /\ 11 <= i <= 12) ->
  Z.testbit m' i = Z.testbit m i.

Lemma tlb_ok_mstatus m s : same_mmu_bits (mstatus s) m -> tlb_ok s (s <| mstatus := m |>).
Proof.
  intros Hm. right. split; [|done]. pose proof xlen_ge.
  unfold mmu_ctx, access_priv. cbn [mstatus satp menvcfg cur_xlen priv].
  change (mstatus (s <| mstatus := m |>)) with m. change (priv (s <| mstatus := m |>)) with (priv s).
  rewrite !nz_mprv, !Hm by auto. destruct (Z.testbit (mstatus s) 17) eqn:E; [|done].
  cbn [andb negb]. do 6 f_equal. unfold MSTATUS_MPP_SHIFT.
  assert (Hg : get_bits max_xlen m 11 2 = get_bits max_xlen (mstatus s) 11 2).
  { apply get_bits_agree; [lia..|]. intros i Hi _. apply Hm. rewrite E. lia. }
  by rewrite Hg.
Qed.

Lemma lxor_agree a b m i : 0 <= i -> Z.testbit m i = true -> nz (Z.land (Z.lxor a b) m) = false ->
  Z.testbit b i = Z.testbit a i.
Proof.
  intros Hi Hm Hz. unfold nz in Hz. apply negb_false_iff, Z.eqb_eq in Hz.
  apply (f_equal (fun x => Z.testbit x i)) in Hz. revert Hz.
  rewrite Z.land_spec, Z.lxor_spec, Hm, Z.bits_0, andb_true_r. by destruct (Z.testbit a i), (Z.testbit b i).
Qed.

Lemma tlb_ok_set_mstatus val s : tlb_ok s (set_mstatus val s).
Proof.
  pose proof xlen_ge. unfold set_mstatus.
  set (val' := if _ =? PRV_H then _ else val). set (mask := if 64 <=? max_xlen then _ else _).
  clearbody mask val'. case_match eqn:E; [left; exact (flushed_flush s)|].
  apply orb_false_iff in E as [E1 E2].
  etransitivity; [apply (tlb_ok_mstatus (merge mask (mstatus s) val'))|by right].
  intros i Hi. rewrite merge_testbit by lia. destruct (Z.testbit mask i); [|done].
  rewrite nz_mprv in E2. destruct Hi as [Hi|[Hi|[Hi|[Hm Hi]]]].
  1-3: refine (lxor_agree _ _ _ i ltac:(lia) _ E1); unfold lors, MSTATUS_MPRV, MSTATUS_SUM, MSTATUS_MXR;
    cbn [fold_right]; autorewrite with bits; repeat case_cmp; lia || done.
  rewrite Hm in E2. refine (lxor_agree _ _ _ i ltac:(lia) _ E2).
  unfold MSTATUS_MPP, MSTATUS_MPP_SHIFT. rewrite field_mask_testbit by lia. repeat case_cmp; lia || done.
Qed.

(** * What flushes *)

(** Translations and what they depend on. *)
Definition mmu (s : cpu) := (mmu_ctx s, tlbs s).

Lemma tlb_ok_same s s' : mmu s' = mmu s -> tlb_ok s s'.
Proof. unfold mmu. intros E. right. split; congruence. Qed.

Lemma tlb_ok_irq s0 s s' : irq_frame s s' -> mmu s = mmu s0 -> tlb_ok s0 s'.
Proof. intros (m & p & i & d & c & q & ->) E. by apply tlb_ok_same. Qed.

Lemma tlb_ok_set_priv p s : tlb_ok s (set_priv p s).
Proof.
  unfold set_priv. case_match; [reflexivity|]. left.
  case_match; exact (flushed_flush s).
Qed.

Lemma tlb_ok_sbi_enter pc0 opaque s : tlb_ok s (sbi_enter pc0 opaque s).
Proof.
  unfold sbi_enter. set (s1 := if nz _ then _ else _). set (s2 := tlb_flush_all _).
  transitivity s2; [left; unfold s2, s1; case_match; exact (flushed_flush s)|].
  transitivity (set_priv PRV_S s2); [apply tlb_ok_set_priv|by apply tlb_ok_same].
Qed.

Lemma tlb_ok_process_inbox s : tlb_ok s (process_inbox s).
Proof.
  unfold process_inbox. destruct (inbox_pending (sh s)); [|reflexivity]. cbn [negb].
  set (s1 := on_sh _ s). set (s2 := if sbi s1 then _ else s1).
  assert (H2 : tlb_ok s1 s2).
  { unfold s2. case_match; [|reflexivity].
    set (t1 := take_posted_tlb_flush s1). set (t2 := if ssip_posted (sh t1) then _ else t1).
    transitivity t1; [unfold t1, take_posted_tlb_flush; case_match; [done|left; exact (flushed_flush s1)]|].
    transitivity t2; [unfold t2; case_match; by apply tlb_ok_same|].
    case_match; [|reflexivity].
    transitivity (on_sh (fun h => h <| hsm_start_posted := false |>) t2); [by apply tlb_ok_same|].
    apply tlb_ok_sbi_enter. }
  transitivity s1; [by apply tlb_ok_same|]. transitivity s2; [done|].
  clearbody s2. set (s3 := s2 <| mip := _ |>).
  apply (tlb_ok_irq s2 s3 _); [|done]. etransitivity; [|apply irq_wake_on_irq].
  case_match; [|reflexivity]. etransitivity; apply irq_take_msis.
Qed.

Lemma tlb_ok_csr_write csr val s : csr <> 0x301 -> tlb_ok s (csr_write csr val s).1.
Proof.
  intros Hc. transitivity (process_inbox s); [apply tlb_ok_process_inbox|]. unfold csr_write.
  generalize (process_inbox s). clear s. intros s.
  destruct (csr_write_user csr val s) as [r|] eqn:E.
  { unfold csr_write_user, wrote in E. repeat case_match; simplify_eq; by apply tlb_ok_same. }
  clear E. destruct (csr_write_super csr val s) as [r|] eqn:E.
  { unfold csr_write_super, wrote, wrote_if in E. cbv zeta in E.
    repeat (case_match; simplify_eq; cbn [fst];
      try (by apply tlb_ok_same); try (by eapply tlb_ok_irq; [auto with irq|])).
    - apply tlb_ok_set_mstatus.
    - left. exact (flushed_flush s). }
  clear E. unfold csr_write_machine, wrote, wrote_if. cbv zeta.
  repeat (case_match; cbn [fst];
    try (by apply tlb_ok_same); try (by eapply tlb_ok_irq; [auto with irq|])).
  - apply tlb_ok_set_mstatus.
  - lia.
  - left. set (t := s <| menvcfg := _ |>).
    destruct (irq_update_stimer t) as (m & p & i & d & c & q & ->). exact (flushed_flush s).
Qed.

(** ** Traps *)

(** [mstatus] with a bit or a field written that translation does not use. *)
Lemma tlb_ok_set_bits pos len v s : 0 <= pos -> 0 <= len -> pos + len <= 11 ->
  tlb_ok s (s <| mstatus := set_bits max_xlen (mstatus s) pos len v |>).
Proof.
  pose proof xlen_ge. intros. apply tlb_ok_mstatus. intros i Hi.
  rewrite set_bits_testbit by lia. repeat case_cmp; lia || done.
Qed.

Lemma tlb_ok_set_bit pos v s : 0 <= pos < 11 ->
  tlb_ok s (s <| mstatus := set_bit max_xlen (mstatus s) pos v |>).
Proof.
  pose proof xlen_ge. intros. apply tlb_ok_mstatus. intros i Hi.
  rewrite set_bit_testbit by lia. repeat case_cmp; lia || done.
Qed.

Lemma tlb_ok_clear pos s : 0 <= pos < 11 ->
  tlb_ok s (s <| mstatus := Z.ldiff (mstatus s) (bit_at max_xlen pos) |>).
Proof.
  pose proof xlen_ge. intros. apply tlb_ok_mstatus. intros i Hi.
  rewrite Z.ldiff_spec, bit_at_testbit by lia. repeat case_cmp; try lia. apply andb_true_r.
Qed.

Lemma tlb_ok_set pos s : 0 <= pos < 11 ->
  tlb_ok s (s <| mstatus := Z.lor (mstatus s) (bit_at max_xlen pos) |>).
Proof.
  pose proof xlen_ge. intros. apply tlb_ok_mstatus. intros i Hi.
  rewrite Z.lor_spec, bit_at_testbit by lia. repeat case_cmp; try lia. apply orb_false_r.
Qed.

Lemma tlb_ok_trap_to_s causel tval s : tlb_ok s (trap_to_s causel tval s).
Proof.
  unfold trap_to_s. set (s1 := s <| scause := _ |> <| sepc := _ |> <| stval := _ |>).
  set (s2 := s1 <| mstatus := _ |>). set (s3 := s2 <| mstatus := _ |>).
  set (s4 := s3 <| mstatus := _ |>).
  transitivity s1; [by apply tlb_ok_same|]. transitivity s2; [by apply tlb_ok_set_bit|].
  transitivity s3; [by apply tlb_ok_set_bits|]. transitivity s4; [by apply tlb_ok_clear|].
  transitivity (set_priv PRV_S s4); [apply tlb_ok_set_priv|by apply tlb_ok_same].
Qed.

(** A trap to M mode changes MPP, and the privilege of data accesses with it
    if MPRV is set; the TLBs are flushed if the trap is taken from S or U. *)
Lemma tlb_ok_trap_to_m causel tval s : (priv s = PRV_M -> Z.testbit (mstatus s) 17 = false) ->
  tlb_ok s (trap_to_m causel tval s).
Proof.
  pose proof xlen_ge. intros Hm. unfold trap_to_m.
  set (s1 := s <| mcause := _ |> <| mepc := _ |> <| mtval := _ |>).
  set (s2 := s1 <| mstatus := _ |>). set (s3 := s2 <| mstatus := _ |>).
  set (s4 := s3 <| mstatus := _ |>). change (priv s2) with (priv s) in s3.
  destruct (Z.eq_dec (priv s) PRV_M) as [E|E].
  - assert (H2 : tlb_ok s1 s2) by (by apply tlb_ok_set_bit).
    assert (Hb : Z.testbit (mstatus s2) 17 = false).
    { change (mstatus s2) with (set_bit max_xlen (mstatus s) MSTATUS_MPIE_SHIFT
        (get_bit max_xlen (mstatus s) MSTATUS_MIE_SHIFT)).
      unfold MSTATUS_MPIE_SHIFT. rewrite set_bit_testbit, Hm by (lia || done). repeat case_cmp; lia || done. }
    transitivity s1; [by apply tlb_ok_same|]. transitivity s2; [done|]. clearbody s2.
    transitivity s3.
    { apply tlb_ok_mstatus. intros i Hi. unfold MSTATUS_MPP_SHIFT.
      rewrite Hb in Hi. rewrite set_bits_testbit by lia. repeat case_cmp; try done; lia. }
    transitivity s4; [by apply tlb_ok_clear|].
    transitivity (set_priv PRV_M s4); [apply tlb_ok_set_priv|by apply tlb_ok_same].
  - left. unfold set_priv. change (priv s4) with (priv s). rewrite (proj2 (Z.eqb_neq _ _)) by done.
    case_match; exact (flushed_flush s).
Qed.

Lemma tlb_ok_raise_exception2 cause tval s : sbi s = false ->
  (priv s = PRV_M -> Z.testbit (mstatus s) 17 = false) -> tlb_ok s (raise_exception2 cause tval s).
Proof.
  intros Hs Hm. unfold raise_exception2. rewrite Hs, !andb_false_r. cbv iota zeta.
  case_match; [apply tlb_ok_trap_to_s|by apply tlb_ok_trap_to_m].
Qed.

(** ** Returns *)

(** Leaving M mode with MPRV set clears it; a return that stays in M mode
    leaves it. *)
Lemma tlb_ok_clear_mprv p s : p <> PRV_M -> 
  tlb_ok s (clear_mprv_on_return p s) /\
  (flushed_from s (clear_mprv_on_return p s) \/ Z.testbit (mstatus s) 17 = false).
Proof.
  intros Hp. unfold clear_mprv_on_return. rewrite (proj2 (Z.eqb_neq p _)), nz_mprv by done.
  cbn [negb andb]. case_match; [|split; [done|by right]].
  split; left; exact (flushed_flush s).
Qed.

Lemma tlb_ok_handle_sret s : tlb_ok s (handle_sret s).
Proof.
  unfold handle_sret. set (spp := Z_of_bool _).
  assert (Hp : spp <> PRV_M) by (unfold spp; by destruct (get_bit _ _ _)).
  set (s1 := s <| mstatus := _ |>). set (s2 := s1 <| mstatus := _ |>).
  set (s3 := s2 <| mstatus := _ |>).
  transitivity s1; [by apply tlb_ok_set_bit|]. transitivity s2; [by apply tlb_ok_set|].
  transitivity s3; [by apply tlb_ok_clear|].
  etransitivity; [by apply (tlb_ok_clear_mprv spp)|].
  etransitivity; [apply (tlb_ok_set_priv spp)|by apply tlb_ok_same].
Qed.

Lemma tlb_ok_clear_mpp s : Z.testbit (mstatus s) 17 = false ->
  tlb_ok s (s <| mstatus := Z.ldiff (mstatus s) MSTATUS_MPP |>).
Proof.
  pose proof xlen_ge. intros E. apply tlb_ok_mstatus. intros i Hi. rewrite E in Hi.
  assert (17 <= i) by (destruct Hi as [?|[?|[?|[? ?]]]]; lia || done). unfold MSTATUS_MPP, MSTATUS_MPP_SHIFT.
  rewrite Z.ldiff_spec, field_mask_testbit by lia. repeat (case_cmp; try lia). apply andb_true_r.
Qed.

Lemma tlb_ok_handle_mret s :
  (get_bits max_xlen (mstatus s) MSTATUS_MPP_SHIFT 2 = PRV_M -> Z.testbit (mstatus s) 17 = false) ->
  tlb_ok s (handle_mret s).
Proof.
  pose proof xlen_ge. intros Hm. unfold handle_mret. set (mpp := get_bits _ _ _ 2) in *.
  set (s1 := s <| mstatus := _ |>). set (s2 := s1 <| mstatus := _ |>).
  set (s3 := s2 <| mstatus := _ |>).
  assert (Hb : Z.testbit (mstatus s2) 17 = Z.testbit (mstatus s) 17).
  { change (mstatus s2) with (Z.lor (set_bit max_xlen (mstatus s) MSTATUS_MIE_SHIFT
      (get_bit max_xlen (mstatus s) MSTATUS_MPIE_SHIFT)) MSTATUS_MPIE).
    unfold MSTATUS_MPIE, MSTATUS_MPIE_SHIFT, MSTATUS_MIE_SHIFT.
    autorewrite with bits. repeat (case_cmp; try lia). by rewrite orb_false_r. }
  assert (Hb' : Z.testbit (mstatus s3) 17 = Z.testbit (mstatus s2) 17).
  { change (mstatus s3) with (Z.ldiff (mstatus s2) MSTATUS_MPP). unfold MSTATUS_MPP, MSTATUS_MPP_SHIFT.
    rewrite Z.ldiff_spec, field_mask_testbit by lia. repeat (case_cmp; try lia). apply andb_true_r. }
  transitivity (clear_mprv_on_return mpp s3);
    [|etransitivity; [apply (tlb_ok_set_priv mpp)|by apply tlb_ok_same]].
  destruct (Z.testbit (mstatus s) 17) eqn:E17.
  - assert (Hp : mpp <> PRV_M) by (intros Hp; by specialize (Hm Hp)).
    destruct (tlb_ok_clear_mprv mpp s3 Hp) as [_ [He|He]]; [by left|congruence].
  - unfold clear_mprv_on_return. rewrite nz_mprv, Hb', Hb, andb_false_r.
    transitivity s1; [by apply tlb_ok_set_bit|]. transitivity s2; [by apply tlb_ok_set|].
    by apply tlb_ok_clear_mpp.
Qed.

(** * What the hart relies on *)

(** Every access looks the page up again. *)
Definition walks (s : cpu) : Prop := forall sz va, (sz <= 4)%nat ->
  target_read sz va s = (let* v := target_read_slow sz va in mret (uw (8 * 2 ^ Z.of_nat sz) v)) s /\
  (forall val, target_write sz va val s = target_write_slow sz va (uw (8 * 2 ^ Z.of_nat sz) val) s) /\
  target_read_insn_u16 va s =
    (let* ptr := target_read_insn_slow va in fun s => (s, Some (host_read 2 (mem (sh s)) ptr))) s.

Lemma empty_walks s : tlb_lens s = (TLB_SIZE, TLB_SIZE, TLB_SIZE) -> tlb_empty s -> walks s.
Proof.
  intros Hl (Hr & Hw & Hc) sz va Hs. unfold tlb_lens in Hl. injection Hl as Hlr Hlw Hlc.
  unfold target_read, target_write, target_read_insn_u16.
  rewrite (no_entry_miss _ sz va Hs Hlr Hr), (no_entry_miss _ sz va Hs Hlw Hw), page_tag,
    (no_entry_miss _ 0 va ltac:(lia) Hlc Hc). done.
Qed.

(** What the hart does of its own that can change how it translates. *)
Inductive mmu_op : cpu -> cpu -> Prop :=
| op_csr s csr val : csr <> 0x301 -> mmu_op s (csr_write csr val s).1
| op_inbox s : mmu_op s (process_inbox s)
| op_sret s : mmu_op s (handle_sret s)
| op_mret s : 
    (get_bits max_xlen (mstatus s) MSTATUS_MPP_SHIFT 2 = PRV_M -> Z.testbit (mstatus s) 17 = false) ->
    mmu_op s (handle_mret s)
| op_trap s cause tval : sbi s = false ->
    (priv s = PRV_M -> Z.testbit (mstatus s) 17 = false) ->
    mmu_op s (raise_exception2 cause tval s).


(** with MPRV set, a trap taken in M mode changes MPP and so the privilege
    of loads and stores, and every TLB entry stays: the handler's accesses,
    which are to be made as M mode, use the translations of the mode MPP named
    before the trap. *)
Theorem mprv_trap_keeps_tlb s cause tval : sbi s = false -> priv s = PRV_M ->
  Z.testbit (mstatus s) 17 = true -> get_bits max_xlen (mstatus s) MSTATUS_MPP_SHIFT 2 <> PRV_M ->
  let s' := raise_exception2 cause tval s in
  access_priv s' ACCESS_READ = PRV_M /\ access_priv s ACCESS_READ <> PRV_M /\ tlbs s' = tlbs s.
Proof.
  pose proof xlen_ge. intros Hs Hp Hm Hmpp. cbv zeta. unfold raise_exception2, delegated.
  rewrite Hs, !andb_false_r, Hp. change (PRV_M <=? PRV_S) with false. cbv iota zeta.
  unfold trap_to_m, set_priv. cbv zeta.
  set (s4 := s <| mcause := _ |> <| mepc := _ |> <| mtval := _ |> <| mstatus := _ |>
               <| mstatus := _ |> <| mstatus := _ |>).
  change (priv s4) with (priv s). rewrite Hp, Z.eqb_refl.
  split_and!; [|unfold access_priv; by rewrite nz_mprv, Hm|done].
  unfold access_priv. change (mstatus (s4 <| pc := _ |>)) with (mstatus s4). rewrite nz_mprv.
  change (mstatus s4) with (Z.ldiff (set_bits max_xlen (set_bit max_xlen (mstatus s) MSTATUS_MPIE_SHIFT
    (get_bit max_xlen (mstatus s) MSTATUS_MIE_SHIFT)) MSTATUS_MPP_SHIFT 2 (priv s)) MSTATUS_MIE).
  unfold MSTATUS_MIE, MSTATUS_MPP_SHIFT, MSTATUS_MPIE_SHIFT, MSTATUS_MIE_SHIFT.
  set (m := set_bit max_xlen _ 7 _). rewrite Hp.
  assert (Hm' : Z.testbit m 17 = true).
  { unfold m. rewrite set_bit_testbit by lia. repeat (case_cmp; try lia); done. }
  replace (Z.testbit _ 17) with true.
  - cbn [andb negb]. transitivity (get_bits max_xlen (set_bits max_xlen m 11 2 PRV_M) 11 2).
    + apply get_bits_agree; [lia..|]. intros i Hi _.
      rewrite Z.ldiff_spec, bit_at_testbit by lia. repeat (case_cmp; try lia). apply andb_true_r.
    + by rewrite get_set_bits by lia.
  - rewrite Z.ldiff_spec, bit_at_testbit, set_bits_testbit, Hm' by lia.
    repeat (case_cmp; try lia); done.
Qed.

Lemma page_of_va_low va : page_of_va va mod 2 ^ 12 = 0.
Proof. by rewrite page_of_va_mod, Zminus_mod_idemp_r, Z.sub_diag. Qed.

(** When a filled entry answers. *)
Lemma tlb_entry_hit tlb va ptr sz va' : (sz <= 4)%nat -> length tlb = TLB_SIZE ->
  tlb_index va' = tlb_index va ->
  let e := arr_get tlb0 (arr_set tlb (tlb_index va) (tlb_entry va ptr)) (tlb_index va') in
  (vaddr e =? tlb_access_tag sz va') =
    (page_of_va va' =? page_of_va va) && (va' mod 2 ^ Z.of_nat sz =? 0) /\
  tlb_ptr e va' = u64 (ptr + (va' - va)).
Proof.
  intros Hs Hl Hi. cbv zeta. pose proof (tlb_index_range va).
  rewrite Hi, arr_get_set, Z.eqb_refl by (rewrite ?Hl; unfold TLB_SIZE; lia). split.
  - change (vaddr (tlb_entry va ptr)) with (page_of_va va).
    pose proof (tag_page sz va' (page_of_va va) Hs (page_of_va_low va)) as Ht.
    apply eq_true_iff_eq. rewrite andb_true_iff, !Z.eqb_eq, Ht. intuition congruence.
  - unfold tlb_ptr, tlb_entry, u64, uw. cbn [mem_addend].
    rewrite <- Zplus_mod. f_equal. lia.
Qed.

(** the load that brings a page of RAM into the TLB makes every access to
    that page that does not cross an alignment boundary, and no other that
    shares its entry, be answered from host memory at the page's place; the
    others look the page up again. *)
Theorem tlb_fill_hits s va sz t paddr i sz' va' : (sz <= 4)%nat -> (sz' <= 4)%nat ->
  va mod 2 ^ Z.of_nat sz = 0 ->
  get_phys_addr va ACCESS_READ s = (t, Some paddr) ->
  FindRange (mem_map (sh t)) (u64 paddr) = Some i -> is_ram (RangeOf t i) = true ->
  length (tlb_read (sh t)) = TLB_SIZE -> tlb_index va' = tlb_index va ->
  let s' := (target_read_slow sz va s).1 in
  let ptr := range_ptr (RangeOf t i) paddr in
  (target_read_slow sz va s).2 = Some (host_read (2 ^ sz) (mem (sh t)) ptr) /\
  target_read sz' va' s' =
    if (page_of_va va' =? page_of_va va) && (va' mod 2 ^ Z.of_nat sz' =? 0)
    then (s', Some (host_read (2 ^ sz') (mem (sh t)) (u64 (ptr + (va' - va)))))
    else (let* v := target_read_slow sz' va' in mret (uw (8 * 2 ^ Z.of_nat sz') v)) s'.
Proof.
  intros Hs Hs' Ha Hg Hf Hr Hl Hi. cbv zeta. pose proof (pow2_pos (Z.of_nat sz)).
  assert (E : target_read_slow sz va = read_aligned sz va).
  { unfold target_read_slow. cbv zeta. replace (Z.land va (2 ^ Z.of_nat sz - 1)) with 0; [done|].
    rewrite <- Ha, Z.sub_1_r, <- Z.ones_equiv, Z.land_ones; lia. }
  rewrite E. unfold read_aligned. rewrite Hg, Hf, Hr. cbn [fst snd]. split; [done|].
  unfold target_read. cbv zeta.
  set (s' := on_sh _ t). change (tlb_read (sh s')) with
    (arr_set (tlb_read (sh t)) (tlb_index va) (tlb_entry va (range_ptr (RangeOf t i) paddr))).
  destruct (tlb_entry_hit (tlb_read (sh t)) va (range_ptr (RangeOf t i) paddr) sz' va' Hs' Hl Hi)
    as [-> ->]. by case_match.
Qed.
End Tlb.

(** * Instances *)

#[local] Existing Instance demo_xlen.
#[local] Existing Instance demo_platform.

Definition tlb_hart : RISCVCPUState unit :=
  riscv_cpu_init 0 (shared_init (mkMap [mkRange 0 0x2000 0x2000 true 0 0x100000 0 None [] 0 None 0]
    false []) (host_write 8 0x101008 0x1122334455667788 ∅) tt).

(** MPRV set in M mode with MPP = U. *)
Definition mprv_hart : RISCVCPUState unit := tlb_hart <| mstatus := 2 ^ 17 |>.


Lemma mprv_trap_keeps_tlb_witness :
  let s' := raise_exception2 CAUSE_BREAKPOINT 0 mprv_hart in
  access_priv s' ACCESS_READ = PRV_M /\ access_priv mprv_hart ACCESS_READ <> PRV_M /\
  tlbs s' = tlbs mprv_hart.
Proof.
  apply (mprv_trap_keeps_tlb demo_valid); vm_compute; congruence.
Defined.

Lemma tlb_fill_hits_witness :
  let s' := (target_read_slow 3 0x1008 tlb_hart).1 in
  (target_read_slow 3 0x1008 tlb_hart).2 = Some 0x1122334455667788 /\
  target_read 1 0x100a s' = (s', Some 0x5566) /\
  target_read 1 0x100b s' =
    (let* v := target_read_slow 1 0x100b in mret (uw 16 v)) s'.
Proof.
  assert (Hg : get_phys_addr 0x1008 ACCESS_READ tlb_hart = (tlb_hart, Some 0x1008))
    by (vm_compute; reflexivity).
  assert (Hf : FindRange (mem_map (sh tlb_hart)) (u64 0x1008) = Some 0) by (vm_compute; reflexivity).
  assert (Hr : is_ram (RangeOf tlb_hart 0) = true) by (vm_compute; reflexivity).
  assert (Hl : length (tlb_read (sh tlb_hart)) = TLB_SIZE) by (vm_compute; reflexivity).
  pose proof (fun va' => tlb_fill_hits demo_valid tlb_hart 0x1008 3 _ _ _ 1 va'
    ltac:(lia) ltac:(lia) eq_refl Hg Hf Hr Hl) as Hh.
  destruct (Hh 0x100a eq_refl) as [Hv Ha]. destruct (Hh 0x100b eq_refl) as [_ Hb].
  cbv zeta. split; [rewrite Hv; vm_compute; reflexivity|]. split; [exact Ha|exact Hb].
Defined.
