(* ===== verification/RvFence.v ===== *)
(** Remote fences between harts: [RISCVSbi::RemoteSfence] of
    [src/cpu/riscv/riscv_interp_sbi.cpp] as it runs on several harts at once,
    over [PostTlbFlush], [TlbFlushDone] and [TakePostedTlbFlush] of the
    harts.  A fence returns only after every hart it names has flushed its
    TLBs, and harts that fence each other all return. *)

From stdpp Require Import base numbers list gmap.
From S2P Require Import Prelude Bits Cutils IoMem RvState RvMem RvCsr RvTrap RvTlb.
Local Open Scope Z_scope.

(** What a hart is doing: running the guest, in the loop that posts the
    flushes, with the harts left and the tickets so far, or in the loop that
    waits for them. *)
Inductive activity :=
| Running
| Posting (todo : list nat) (tickets : list (nat * Z))
| Waiting (tickets : list (nat * Z)).

Record hart (D : Type) := mkHart { hart_cpu : RISCVCPUState D; doing : activity }.
Arguments mkHart {D}.
Arguments hart_cpu {D} _.
Arguments doing {D} _.
#[export] Instance eta_hart D : Eta (hart D) := fun h => mkHart (hart_cpu h) (doing h).

Section Fence.
Context `{MaxXlen} `{Platform D}.
Notation cpu := (RISCVCPUState D).
Notation machine := (list (hart D)).
Implicit Types (m : machine) (h : hart D) (s : cpu).

Definition hart_words h : Shared D := sh (hart_cpu h).
Definition req h : Z := tlb_flush_req (hart_words h).
Definition flushes h : Z := tlb_flush_done (hart_words h).

(** What hart [i] does next by itself.  A running hart takes in what was
    posted to it; [interp_turn] does before every block of instructions. *)
Definition turn (i : nat) m : machine :=
  match m !! i with
  | None => m
  | Some h =>
    match doing h with
    | Running => <[i := h <| hart_cpu := process_inbox (hart_cpu h) |>]> m
    | Posting [] tickets => <[i := h <| doing := Waiting tickets |>]> m
    | Posting (j :: todo) tickets =>
      if bool_decide (j = i)
      then <[i := h <| hart_cpu := FlushTlb (hart_cpu h) |> <| doing := Posting todo tickets |>]> m
      else
        match m !! j with
        | None => m
        | Some hj =>
          let '(ticket, w) := PostTlbFlush (hart_words hj) in
          <[i := h <| doing := Posting todo (tickets ++ [(j, ticket)]) |>]>
            (<[j := hj <| hart_cpu := (hart_cpu hj) <| sh := w |> |>]> m)
        end
    | Waiting [] => <[i := h <| doing := Running |>]> m
    | Waiting ((j, ticket) :: tickets) =>
      match m !! j with
      | None => m
      | Some hj =>
        if TlbFlushDone ticket (hart_words hj)
        then <[i := h <| doing := Waiting tickets |>]> m
        else <[i := h <| hart_cpu := TakePostedTlbFlush (hart_cpu h) |>]> m
      end
    end
  end.

(** The requests are numbered with 64 bits. *)
Definition room (k : nat) m : Prop := Forall (fun h => req h + Z.of_nat k < 2 ^ 64) m.

(** A running hart may also execute instructions, which may fill its TLBs but
    not touch the words of the fence, and may call for a fence of its own. *)
Inductive smp_step m : machine -> Prop :=
| step_turn i : room 1 m -> smp_step m (turn i m)
| step_run i h c : m !! i = Some h -> doing h = Running -> sbi c = sbi (hart_cpu h) ->
    tlb_flush_req (sh c) = req h -> tlb_flush_done (sh c) = flushes h ->
    inbox_pending (sh c) = inbox_pending (hart_words h) ->
    smp_step m (<[i := h <| hart_cpu := c |>]> m)
| step_fence i h todo : m !! i = Some h -> doing h = Running ->
    Forall (fun j => (j < length m)%nat) todo ->
    smp_step m (<[i := h <| doing := Posting todo [] |>]> m).

(** [visits m l m']: the machine goes from [m] to [m'] through the states [l]. *)
Inductive visits : machine -> list machine -> machine -> Prop :=
| visits_nil m : visits m [] m
| visits_step m m1 l m' : smp_step m m1 -> visits m1 l m' -> visits m (m1 :: l) m'.

(** The tickets and the flushes of hart [h] that are left. *)
Definition tickets_of h : list (nat * Z) :=
  match doing h with Running => [] | Posting _ tickets => tickets | Waiting tickets => tickets end.
Definition todo_of h : list nat := match doing h with Posting todo _ => todo | _ => [] end.

(** The counters of a hart: what it was asked for and has not done is in its
    inbox. *)
Definition words_ok h : Prop :=
  sbi (hart_cpu h) = true /\ 0 <= flushes h <= req h /\ req h < 2 ^ 64 /\
  (flushes h <> req h -> inbox_pending (hart_words h) = true).

(** The ticket is of a request that was posted. *)
Definition ticket_ok m (p : nat * Z) : Prop := exists hj, m !! p.1 = Some hj /\ p.2 <= req hj.
Definition tickets_ok m h : Prop :=
  Forall (ticket_ok m) (tickets_of h) /\
  Forall (fun j => (j < length m)%nat) (todo_of h).

Definition fence_wf m : Prop := Forall (fun h => words_ok h /\ tickets_ok m h) m.

(** * The hart's own operations *)

(** Neither the fence's words change nor are the TLBs filled. *)
Definition fence_frame (s s' : cpu) : Prop :=
  sbi s' = sbi s /\ tlb_flush_req (sh s') = tlb_flush_req (sh s) /\
  tlb_flush_done (sh s') = tlb_flush_done (sh s) /\ (tlb_empty s -> tlb_empty s').

(** Updates of other fields. *)
Ltac frame_fields := unfold fence_frame; split_and!; done.

#[local] Instance fence_frame_preorder : PreOrder fence_frame.
Proof.
  split; [intros s; frame_fields|]. unfold fence_frame. intros a b c (?&?&?&?) (?&?&?&?).
  split_and!; try congruence. auto.
Qed.

Lemma fence_irq s s' : irq_frame s s' -> fence_frame s s'.
Proof. intros (m & p & i & d & c & q & ->). frame_fields. Qed.

Lemma fence_flush s : fence_frame s (tlb_flush_all s).
Proof. unfold fence_frame. split_and!; try done. intros. apply tlb_empty_flush. Qed.

Lemma fence_set_priv p s : fence_frame s (set_priv p s).
Proof.
  unfold set_priv. case_match; [done|]. etransitivity; [apply fence_flush|]. case_match; frame_fields.
Qed.

Lemma fence_sbi_enter pc0 opaque s : fence_frame s (sbi_enter pc0 opaque s).
Proof.
  unfold sbi_enter. set (s1 := if nz _ then _ else _). set (s2 := s1 <| satp := 0 |>).
  transitivity s2; [unfold s2, s1; case_match; frame_fields|].
  transitivity (tlb_flush_all s2); [apply fence_flush|].
  transitivity (set_priv PRV_S (tlb_flush_all s2)); [apply fence_set_priv|frame_fields].
Qed.

Lemma take_posted_words s (s' := take_posted_tlb_flush s) :
  sbi s' = sbi s /\ tlb_flush_req (sh s') = tlb_flush_req (sh s) /\
  tlb_flush_done (sh s') = tlb_flush_req (sh s) /\
  (tlb_flush_done (sh s') <> tlb_flush_done (sh s) -> tlb_empty s').
Proof.
  unfold s', take_posted_tlb_flush. cbv zeta.
  destruct (Z.eqb_spec (tlb_flush_req (sh s)) (tlb_flush_done (sh s))) as [E|E]; [by split_and!|].
  split_and!; try done. intros _. exact (tlb_empty_flush s).
Qed.

Lemma process_inbox_words s (s' := process_inbox s) : sbi s = true ->
  sbi s' = true /\ tlb_flush_req (sh s') = tlb_flush_req (sh s) /\
  tlb_flush_done (sh s') =
    (if inbox_pending (sh s) then tlb_flush_req (sh s) else tlb_flush_done (sh s)) /\
  (tlb_flush_done (sh s') <> tlb_flush_done (sh s) -> tlb_empty s').
Proof.
  intros Hs. unfold s', process_inbox. destruct (inbox_pending (sh s)); [|by split_and!]. cbn [negb]. cbv zeta.
  set (s1 := on_sh _ s). change (sbi s1) with (sbi s). rewrite Hs. cbv iota.
  pose proof (take_posted_words s1) as (T1 & T2 & T3 & T4). set (t1 := take_posted_tlb_flush s1) in *.
  set (t2 := if ssip_posted (sh t1) then _ else t1).
  assert (F2 : fence_frame t1 t2) by (unfold t2; case_match; frame_fields).
  set (t3 := if hsm_start_posted (sh t2) then _ else t2).
  assert (F3 : fence_frame t2 t3).
  { unfold t3. case_match; [|done].
    transitivity (on_sh (fun w => w <| hsm_start_posted := false |>) t2); [frame_fields|apply fence_sbi_enter]. }
  set (t4 := t3 <| mip := _ |>). set (t5 := if decide _ then _ else t4).
  assert (F5 : fence_frame t3 (wake_on_irq t5)).
  { transitivity t4; [frame_fields|]. apply fence_irq. etransitivity; [|apply irq_wake_on_irq].
    unfold t5. case_match; [|reflexivity]. etransitivity; apply irq_take_msis. }
  destruct (transitivity F2 (transitivity F3 F5)) as (E1 & E2 & E3 & E4). rewrite E1, E2, E3.
  split_and!; [by rewrite T1|done|done|]. rewrite T3. intros Hne. apply E4, T4. by rewrite T3.
Qed.

Lemma flush_words s (s' := FlushTlb s) :
  sbi s' = sbi s /\ tlb_flush_req (sh s') = tlb_flush_req (sh s) /\
  tlb_flush_done (sh s') = tlb_flush_req (sh s) /\ tlb_empty s'.
Proof.
  unfold s', FlushTlb. destruct (take_posted_words (tlb_flush_all s)) as (E1 & E2 & E3 & _).
  split_and!; [exact E1|exact E2|exact E3|]. unfold take_posted_tlb_flush. cbv zeta.
  case_match; [apply tlb_empty_flush|exact (tlb_empty_flush (tlb_flush_all s))].
Qed.

(** * How a hart's words change *)

Definition evolves h h' : Prop :=
  words_ok h' /\ req h <= req h' <= req h + 1 /\ flushes h <= flushes h' /\
  (flushes h' <> flushes h -> tlb_empty (hart_cpu h')).

Lemma evolves_same h h' : words_ok h -> hart_cpu h' = hart_cpu h -> evolves h h'.
Proof.
  unfold evolves, words_ok, req, flushes, hart_words. intros Hw ->. split_and!; try done; try lia; apply Hw.
Qed.

Lemma evolves_inbox h a : words_ok h -> evolves h (mkHart (process_inbox (hart_cpu h)) a).
Proof.
  intros (Hs & Hf & Hr & Hi). unfold evolves, words_ok, req, flushes, hart_words in *. cbn [hart_cpu].
  destruct (process_inbox_words (hart_cpu h) Hs) as (E1 & E2 & E3 & E4). rewrite E2.
  assert (Hd : tlb_flush_done (sh (process_inbox (hart_cpu h))) = tlb_flush_req (sh (hart_cpu h))).
  { rewrite E3. case_match; [done|]. destruct (Z.eq_dec (tlb_flush_done (sh (hart_cpu h)))
      (tlb_flush_req (sh (hart_cpu h)))); [done|]. by discriminate Hi. }
  rewrite Hd in *. split_and!; try done; lia.
Qed.

Lemma evolves_take h : words_ok h -> evolves h (h <| hart_cpu := TakePostedTlbFlush (hart_cpu h) |>).
Proof.
  intros (Hs & Hf & Hr & Hi). unfold evolves, words_ok, req, flushes, hart_words in *.
  change (hart_cpu (h <| hart_cpu := TakePostedTlbFlush (hart_cpu h) |>)) with (take_posted_tlb_flush (hart_cpu h)).
  destruct (take_posted_words (hart_cpu h)) as (E1 & E2 & E3 & E4). rewrite E1, E2, E3 in *.
  split_and!; try done; lia.
Qed.

Lemma evolves_flush h a : words_ok h -> evolves h (mkHart (FlushTlb (hart_cpu h)) a).
Proof.
  intros (Hs & Hf & Hr & Hi). unfold evolves, words_ok, req, flushes, hart_words in *. cbn [hart_cpu].
  destruct (flush_words (hart_cpu h)) as (E1 & E2 & E3 & E4). rewrite E1, E2, E3 in *.
  split_and!; try done; lia.
Qed.

Lemma post_words h (w := (PostTlbFlush (hart_words h)).2) : words_ok h -> req h + 1 < 2 ^ 64 ->
  evolves h (h <| hart_cpu := (hart_cpu h) <| sh := w |> |>) /\
  req (h <| hart_cpu := (hart_cpu h) <| sh := w |> |>) = req h + 1 /\
  flushes (h <| hart_cpu := (hart_cpu h) <| sh := w |> |>) = flushes h /\
  (PostTlbFlush (hart_words h)).1 = req h + 1.
Proof.
  intros (Hs & Hf & Hr & Hi) Hlt.
  assert (Et : u64 (tlb_flush_req (hart_words h) + 1) = req h + 1) by (apply uw_small; split; unfold req in *; lia).
  set (h' := h <| hart_cpu := _ |>).
  assert (Er : req h' = req h + 1) by exact Et. assert (Ef : flushes h' = flushes h) by done.
  unfold evolves, words_ok. rewrite Er, Ef. split_and!; try done; try lia.
Qed.

Lemma length_turn i m : length (turn i m) = length m.
Proof.
  unfold turn. repeat case_match; rewrite ?length_insert; done.
Qed.

(** What hart [i] does when it posts to another. *)
Lemma turn_evolves i m k h : Forall words_ok m -> room 1 m -> m !! k = Some h ->
  exists h', turn i m !! k = Some h' /\ evolves h h' /\ (k <> i -> doing h' = doing h).
Proof.
  intros Hm Hr Hk.
  assert (Hh : words_ok h) by (by eapply Forall_lookup_1).
  assert (Hsame : evolves h h) by (by apply evolves_same).
  unfold turn. destruct (m !! i) as [hi|] eqn:Ei; [|by exists h].
  assert (Hone : forall h', (k = i -> h = hi -> evolves hi h') ->
    exists h'', <[i := h']> m !! k = Some h'' /\ evolves h h'' /\ (k <> i -> doing h'' = doing h)).
  { intros h' He. destruct (decide (k = i)) as [->|Hne].
    - rewrite list_lookup_insert_eq by (by eapply lookup_lt_Some). simplify_eq. eexists. split_and!; auto. done.
    - rewrite list_lookup_insert_ne by done. eauto. }
  destruct (doing hi) as [|[|j todo] tickets|[|[j t] tickets]] eqn:Ed.
  - apply Hone. intros -> ->. by apply evolves_inbox.
  - apply Hone. intros -> ->. by apply evolves_same.
  - case_bool_decide as Ej; [apply Hone; intros -> ->; by apply evolves_flush|].
    destruct (m !! j) as [hj|] eqn:Ehj; [|by exists h].
    assert (Hj : words_ok hj) by (by eapply Forall_lookup_1).
    assert (Hlt : req hj + 1 < 2 ^ 64) by (apply (Forall_lookup_1 _ _ _ _ Hr Ehj)).
    destruct (post_words hj Hj Hlt) as (He & _).
    destruct (PostTlbFlush (hart_words hj)) as [tk w]. cbn [snd] in He.
    destruct (decide (k = i)) as [->|Hne].
    + rewrite list_lookup_insert_eq by (rewrite length_insert; by eapply lookup_lt_Some).
      simplify_eq. eexists. split_and!; [done|by apply evolves_same|done].
    + rewrite list_lookup_insert_ne by done. destruct (decide (k = j)) as [->|Hne'].
      * rewrite list_lookup_insert_eq by (by eapply lookup_lt_Some). simplify_eq. eauto.
      * rewrite list_lookup_insert_ne by done. eauto.
  - apply Hone. intros -> ->. by apply evolves_same.
  - destruct (m !! j) as [hj|]; [|by exists h].
    case_match; apply Hone; intros -> ->; [by apply evolves_same|by apply evolves_take].
Qed.

(** * Safety *)

Lemma step_evolves m m' k h : Forall words_ok m -> smp_step m m' -> m !! k = Some h ->
  exists h', m' !! k = Some h' /\ evolves h h' /\
    (doing h' = doing h \/ doing h = Running \/ m' = turn k m).
Proof.
  intros Hm Hs Hk. assert (Hh : words_ok h) by (by eapply Forall_lookup_1).
  assert (Hsame : evolves h h) by (by apply evolves_same).
  destruct Hs as [i Hr|i hi c Hi Hd Hsbi Hq Hf Hb|i hi todo Hi Hd Ht].
  - destruct (turn_evolves i m k h Hm Hr Hk) as (h' & E & He & Hdo). exists h'. split_and!; [done..|].
    destruct (decide (k = i)) as [->|]; auto.
  - destruct (decide (k = i)) as [->|Hne]; [|rewrite list_lookup_insert_ne by done; eauto].
    rewrite list_lookup_insert_eq by (by eapply lookup_lt_Some).
    assert (hi = h) as -> by congruence. eexists. split; [done|]. split; [|by left]. unfold evolves, words_ok, req, flushes, hart_words in *.
    change (hart_cpu (h <| hart_cpu := c |>)) with c.
    rewrite Hsbi, Hq, Hf, Hb. split_and!; try done; try lia; apply Hh.
  - destruct (decide (k = i)) as [->|Hne]; [|rewrite list_lookup_insert_ne by done; eauto].
    rewrite list_lookup_insert_eq by (by eapply lookup_lt_Some). simplify_eq. eexists. split; [done|].
    split; [by apply evolves_same|auto].
Qed.

Lemma step_length m m' : smp_step m m' -> length m' = length m.
Proof. intros []; rewrite ?length_insert; [apply length_turn|done..]. Qed.

Lemma step_words m m' : Forall words_ok m -> smp_step m m' -> Forall words_ok m'.
Proof.
  intros Hm Hs. apply Forall_lookup_2. intros k h' Hk'.
  assert (k < length m)%nat as [h Hk]%lookup_lt_is_Some_2
    by (rewrite <- (step_length _ _ Hs); by eapply lookup_lt_Some).
  destruct (step_evolves m m' k h Hm Hs Hk) as (h'' & E & [He _] & _). by simplify_eq.
Qed.

(** Hart [i] still waits for ticket [t] of hart [j], which has not flushed
    since it was posted. *)
Definition owes (i j : nat) (t : Z) m : Prop :=
  exists hi hj, m !! i = Some hi /\ m !! j = Some hj /\ (j, t) ∈ tickets_of hi /\ flushes hj < t.
Definition has_flushed (j : nat) m : Prop := exists hj, m !! j = Some hj /\ tlb_empty (hart_cpu hj).

(** The waiting hart's own turn keeps the ticket. *)
Lemma turn_tickets i m hi hi' hj j t : m !! i = Some hi -> turn i m !! i = Some hi' -> m !! j = Some hj ->
  (j, t) ∈ tickets_of hi -> flushes hj < t -> (j, t) ∈ tickets_of hi'.
Proof.
  intros Hi Hi' Hj Ht Hf. unfold turn in Hi'. rewrite Hi in Hi'.
  assert (Hlen : (i < length m)%nat) by (by eapply lookup_lt_Some).
  unfold tickets_of in *. destruct (doing hi) as [|[|k todo] tickets|[|[k tk] tickets]] eqn:Ed; [by apply not_elem_of_nil in Ht| | | |].
  - rewrite list_lookup_insert_eq in Hi' by done. by simplify_eq.
  - case_bool_decide; [rewrite list_lookup_insert_eq in Hi' by done; by simplify_eq|].
    destruct (m !! k) as [hk|]; [|simplify_eq; by rewrite Ed].
    destruct (PostTlbFlush _). rewrite list_lookup_insert_eq in Hi' by (by rewrite length_insert).
    simplify_eq. cbn. apply elem_of_app. by left.
  - by apply not_elem_of_nil in Ht.
  - destruct (m !! k) as [hk|] eqn:Ek; [|simplify_eq; by rewrite Ed].
    destruct (TlbFlushDone tk (hart_words hk)) eqn:Et; rewrite list_lookup_insert_eq in Hi' by done; simplify_eq; cbn; [|by rewrite Ed].
    apply elem_of_cons in Ht as [[= -> ->]|Ht]; [|done]. simplify_eq.
    unfold TlbFlushDone in Et. apply Z.leb_le in Et. unfold flushes in Hf. lia.
Qed.

Lemma owes_step i j t m m' : Forall words_ok m -> smp_step m m' -> owes i j t m ->
  owes i j t m' \/ has_flushed j m'.
Proof.
  intros Hm Hs (hi & hj & Hi & Hj & Ht & Hf).
  destruct (step_evolves m m' j hj Hm Hs Hj) as (hj' & Hj' & (_ & _ & _ & He) & _).
  destruct (Z.eq_dec (flushes hj') (flushes hj)) as [Ef|Ef]; [left|right; exists hj'; auto].
  destruct (step_evolves m m' i hi Hm Hs Hi) as (hi' & Hi' & _ & Hd).
  exists hi', hj'. split_and!; [done..| |by rewrite Ef].
  destruct Hd as [Hd|[Hd|Hd]].
  - unfold tickets_of in *. by rewrite Hd.
  - unfold tickets_of in Ht. rewrite Hd in Ht. by apply not_elem_of_nil in Ht.
  - subst m'. exact (turn_tickets i m hi hi' hj j t Hi Hi' Hj Ht Hf).
Qed.


(** * Liveness *)

(** The turns a hart needs at least until it runs again. *)
Definition work h : nat :=
  match doing h with
  | Running => 0
  | Posting todo tickets => 2 * length todo + length tickets + 2
  | Waiting tickets => length tickets + 1
  end.
Definition total_work m : nat := sum_list (map work m).

Lemma total_work_insert m i h h' : m !! i = Some h ->
  (total_work (<[i := h']> m) + work h = total_work m + work h')%nat.
Proof.
  unfold total_work. revert i. induction m as [|h0 m IH]; intros [|i] Hi; simplify_eq/=; [lia|].
  specialize (IH i Hi). lia.
Qed.

(** Every hart takes a turn. *)
Definition round m : machine := foldl (fun m i => turn i m) m (seq 0 (length m)).

Lemma tickets_mono m m' l :
  (forall j hj, m !! j = Some hj -> exists hj', m' !! j = Some hj' /\ req hj <= req hj') ->
  Forall (ticket_ok m) l -> Forall (ticket_ok m') l.
Proof.
  intros Hm Hl. apply (Forall_impl _ _ _ Hl). intros [j t] (hj & Hj & Ht). destruct (Hm j hj Hj) as (hj' & Hj' & Hle).
  exists hj'. cbn in *. split; [done|lia].
Qed.

Lemma fence_wf_words m : fence_wf m -> Forall words_ok m.
Proof. intros Hm. apply (Forall_impl _ _ _ Hm). by intros h [Hw _]. Qed.

Lemma turn_reqs i m : Forall words_ok m -> room 1 m ->
  forall j hj, m !! j = Some hj -> exists hj', turn i m !! j = Some hj' /\ req hj <= req hj'.
Proof.
  intros Hm Hr j hj Hj. destruct (turn_evolves i m j hj Hm Hr Hj) as (hj' & Hj' & (_ & [Hle _] & _) & _). eauto.
Qed.

(** The hart whose turn it is keeps its tickets and its list of harts legal. *)
Lemma turn_own i m h h' : fence_wf m -> room 1 m -> m !! i = Some h -> turn i m !! i = Some h' ->
  Forall (ticket_ok (turn i m)) (tickets_of h') /\ Forall (fun j => (j < length m)%nat) (todo_of h').
Proof.
  intros Hm Hr Hi Hi'. pose proof (fence_wf_words m Hm) as Hw.
  pose proof (turn_reqs i m Hw Hr) as Hmono.
  destruct (Forall_lookup_1 _ _ _ _ Hm Hi) as [Hh [Ht Hd]].
  apply (tickets_mono _ _ _ Hmono) in Ht.
  assert (Hlen : (i < length m)%nat) by (by eapply lookup_lt_Some).
  revert Hi' Ht Hmono. unfold turn at 1. rewrite Hi. unfold tickets_of, todo_of in Hd |- *.
  destruct (doing h) as [|[|j todo] tickets|[|[j t] tickets]] eqn:Ed.
  - rewrite list_lookup_insert_eq by done. intros [= <-]. cbn. rewrite Ed. auto.
  - rewrite list_lookup_insert_eq by done. intros [= <-]. cbn. auto.
  - apply Forall_cons in Hd as [Hj Hd].
    case_bool_decide as Ej; [rewrite list_lookup_insert_eq by done; intros [= <-]; cbn; auto|].
    destruct (m !! j) as [hj|] eqn:Ehj; [|by apply lookup_ge_None in Ehj; lia].
    destruct (post_words hj (Forall_lookup_1 _ _ _ _ Hw Ehj) (Forall_lookup_1 _ _ _ _ Hr Ehj)) as (_ & Er & _ & Et).
    assert (Hp : forall u, turn i m !! j = Some u -> req hj + 1 <= req u).
    { intros u. unfold turn. rewrite Hi, Ed, bool_decide_eq_false_2, Ehj by done.
      destruct (PostTlbFlush _). rewrite list_lookup_insert_ne, list_lookup_insert_eq
        by (done || by eapply lookup_lt_Some). intros [= <-]. cbn [snd] in Er. lia. }
    destruct (PostTlbFlush (hart_words hj)) as [tk w]. cbn [fst snd] in *.
    rewrite list_lookup_insert_eq by (by rewrite length_insert). intros [= <-] Ht Hmono. cbn. split; [|done].
    apply Forall_app. split; [done|]. apply Forall_singleton.
    destruct (Hmono j hj Ehj) as (hj' & Hj' & _). exists hj'. cbn. split; [done|]. rewrite Et. auto.
  - rewrite list_lookup_insert_eq by done. intros [= <-]. cbn. auto.
  - destruct (m !! j) as [hj|]; [|intros E; simplify_eq; rewrite Ed; auto].
    case_match; rewrite list_lookup_insert_eq by done; intros [= <-]; cbn; rewrite ?Ed; [|auto].
    intros Ht. apply Forall_cons in Ht as [_ Ht]. auto.
Qed.

Lemma turn_wf i m : fence_wf m -> room 1 m -> fence_wf (turn i m).
Proof.
  intros Hm Hr. pose proof (fence_wf_words m Hm) as Hw. apply Forall_lookup_2. intros k h' Hk'.
  assert (k < length m)%nat as [h Hk]%lookup_lt_is_Some_2
    by (rewrite <- (length_turn i); by eapply lookup_lt_Some).
  destruct (turn_evolves i m k h Hw Hr Hk) as (h'' & E & [He _] & Hd).
  assert (h'' = h') as -> by congruence. split; [done|]. unfold tickets_ok. rewrite length_turn.
  destruct (decide (k = i)) as [->|Hne]; [by eapply turn_own|].
  destruct (Forall_lookup_1 _ _ _ _ Hm Hk) as [_ [Ht Ho]].
  unfold tickets_of, todo_of in *. rewrite Hd by done. split; [|done].
  eapply tickets_mono; [|done]. by apply turn_reqs.
Qed.

(** A turn either gets the hart on, or leaves it where it is and caught up
    with what was posted to it. *)
Definition caught_up i m m' : Prop := exists h h', m !! i = Some h /\ m' = <[i := h']> m /\
  doing h' = doing h /\ req h' = req h /\ flushes h' = req h'.

Lemma inbox_caught_up h a : words_ok h ->
  let h' := mkHart (process_inbox (hart_cpu h)) a in req h' = req h /\ flushes h' = req h'.
Proof.
  intros (Hs & Hf & Hr & Hi). unfold req, flushes, hart_words in *. cbn [hart_cpu].
  destruct (process_inbox_words (hart_cpu h) Hs) as (_ & E2 & E3 & _). rewrite E2, E3. split; [done|].
  case_match; [done|]. destruct (Z.eq_dec (tlb_flush_done (sh (hart_cpu h)))
    (tlb_flush_req (sh (hart_cpu h)))); [done|]. by discriminate Hi.
Qed.

Lemma turn_progress i m : fence_wf m -> room 1 m -> (i < length m)%nat ->
  (total_work (turn i m) < total_work m)%nat \/ caught_up i m (turn i m).
Proof.
  intros Hm Hr [h Hi]%lookup_lt_is_Some_2.
  destruct (Forall_lookup_1 _ _ _ _ Hm Hi) as [Hw [Ht Hd]].
  assert (Hone : forall h', (work h' < work h)%nat -> (total_work (<[i := h']> m) < total_work m)%nat).
  { intros h' Hlt. pose proof (total_work_insert m i h h' Hi). lia. }
  unfold turn, tickets_of, todo_of in *. rewrite Hi.
  destruct (doing h) as [|[|j todo] tickets|[|[j t] tickets]] eqn:Ed.
  - right. eexists h, _. split_and!; [done|done|done| |]; apply (inbox_caught_up h (doing h) Hw).
  - left. apply Hone. unfold work. rewrite Ed. cbn. lia.
  - left. apply Forall_cons in Hd as [Hj Hd].
    case_bool_decide; [apply Hone; unfold work; rewrite Ed; cbn; lia|].
    destruct (m !! j) as [hj|] eqn:Ehj; [|by apply lookup_ge_None in Ehj; lia].
    destruct (PostTlbFlush _) as [tk w]. set (hj' := hj <| hart_cpu := _ |>).
    set (h' := h <| doing := _ |>).
    pose proof (total_work_insert m j hj hj' Ehj) as Ew. change (work hj') with (work hj) in Ew.
    assert (Hi' : <[j := hj']> m !! i = Some h) by (by rewrite list_lookup_insert_ne).
    pose proof (total_work_insert (<[j := hj']> m) i h h' Hi') as Ew'.
    unfold work at 1 2 in Ew'. rewrite Ed in Ew'. cbn in Ew'. rewrite length_app in Ew'. cbn in Ew'. lia.
  - left. apply Hone. unfold work. rewrite Ed. cbn. lia.
  - apply Forall_cons in Ht as [(hj & Hj & _) _]. cbn in Hj. rewrite Hj.
    case_match; [left; apply Hone; unfold work; rewrite Ed; cbn; lia|].
    right. eexists h, _. split_and!; [done|done|by rewrite Ed| |];
      destruct (take_posted_words (hart_cpu h)) as (_ & E2 & E3 & _); unfold req, flushes, hart_words;
      [exact E2|]. etransitivity; [exact E3|symmetry; exact E2].
Qed.

(** The requests a turn posts are paid for by the work it does. *)
Lemma turn_room i m : fence_wf m -> (i < length m)%nat -> room (S (total_work m)) m ->
  room (S (total_work (turn i m))) (turn i m).
Proof.
  intros Hm Hi Hr. pose proof (fence_wf_words m Hm) as Hw.
  assert (Hr1 : room 1 m) by (apply (Forall_impl _ _ _ Hr); intros; lia).
  assert (Hle : forall k h', turn i m !! k = Some h' -> exists h, m !! k = Some h /\ req h' <= req h + 1).
  { intros k h' Hk'. assert (k < length m)%nat as [h Hk]%lookup_lt_is_Some_2
      by (rewrite <- (length_turn i); by eapply lookup_lt_Some).
    destruct (turn_evolves i m k h Hw Hr1 Hk) as (h'' & E & (_ & Hq & _) & _). simplify_eq. eauto with lia. }
  apply Forall_lookup_2. intros k h' Hk'.
  destruct (turn_progress i m Hm Hr1 Hi) as [Hlt|(h & u & Hh & E & Ed & Eq & _)].
  - destruct (Hle k h' Hk') as (h & Hk & Hq). pose proof (Forall_lookup_1 _ _ _ _ Hr Hk) as Hb. cbn beta in *. lia.
  - rewrite E in Hk' |- *. pose proof (total_work_insert m i h u Hh) as Ew.
    assert (work u = work h) as Eu by (unfold work; by rewrite Ed).
    destruct (decide (k = i)) as [->|Hne].
    + rewrite list_lookup_insert_eq in Hk' by done. injection Hk' as <-.
      pose proof (Forall_lookup_1 _ _ _ _ Hr Hh) as Hb. cbn beta in *. rewrite Eq. lia.
    + rewrite list_lookup_insert_ne in Hk' by done.
      pose proof (Forall_lookup_1 _ _ _ _ Hr Hk') as Hb. cbn beta in *. lia.
Qed.

Lemma room_le k k' m : (k' <= k)%nat -> room k m -> room k' m.
Proof. intros Hk Hr. apply (Forall_impl _ _ _ Hr). intros; lia. Qed.

(** Nothing but flushes happened. *)
Definition same_fences m m' : Prop := forall k h, m !! k = Some h ->
  exists h', m' !! k = Some h' /\ doing h' = doing h /\ req h' = req h /\ flushes h <= flushes h'.

#[local] Instance same_fences_preorder : PreOrder same_fences.
Proof.
  split; [intros m k h Hk; exists h; by split_and!|]. intros a b c Hab Hbc k h Hk.
  destruct (Hab k h Hk) as (h1 & Hk1 & E1 & E2 & E3). destruct (Hbc k h1 Hk1) as (h2 & Hk2 & F1 & F2 & F3).
  exists h2. split_and!; [done|congruence..|lia].
Qed.

Lemma caught_up_same i m m' : fence_wf m -> caught_up i m m' ->
  same_fences m m' /\ total_work m' = total_work m.
Proof.
  intros Hm (h & h' & Hi & -> & Ed & Er & Ef). split.
  - intros k u Hk. destruct (decide (k = i)) as [->|Hne].
    + rewrite list_lookup_insert_eq by (by eapply lookup_lt_Some). simplify_eq. exists h'. split_and!; [done..|].
      destruct (Forall_lookup_1 _ _ _ _ Hm Hi) as [(_ & ? & _) _]. lia.
    + rewrite list_lookup_insert_ne by done. exists u. by split_and!.
  - pose proof (total_work_insert m i h h' Hi) as Ew.
    assert (work h' = work h) by (unfold work; by rewrite Ed). lia.
Qed.

Definition all_caught_up (ks : list nat) m : Prop :=
  forall i h, i ∈ ks -> m !! i = Some h -> flushes h = req h.

Lemma turns_progress ks m (m' := foldl (fun m i => turn i m) m ks) :
  Forall (fun i => (i < length m)%nat) ks -> fence_wf m -> room (S (total_work m)) m ->
  length m' = length m /\ fence_wf m' /\ room (S (total_work m')) m' /\
  ((total_work m' < total_work m)%nat \/
   total_work m' = total_work m /\ same_fences m m' /\ all_caught_up ks m').
Proof.
  revert m m'. induction ks as [|i ks IH]; intros m m' Hin Hm Hr.
  { split_and!; try done. right. split_and!; [done|reflexivity|by intros i h Hi%not_elem_of_nil]. }
  apply Forall_cons in Hin as [Hi Hin]. unfold m'. cbn [foldl]. clear m'.
  assert (Hr1 : room 1 m) by (by eapply room_le; [|done]; lia).
  pose proof (turn_wf i m Hm Hr1) as Hm1. pose proof (turn_room i m Hm Hi Hr) as Hroom.
  assert (Hin1 : Forall (fun i0 => (i0 < length (turn i m))%nat) ks) by (by rewrite length_turn).
  destruct (IH (turn i m) Hin1 Hm1 Hroom) as (El & Hwf & Hroom' & Hp). rewrite length_turn in El.
  split_and!; [done..|]. destruct (turn_progress i m Hm Hr1 Hi) as [Hlt|Hc].
  { left. destruct Hp as [?|[? _]]; lia. }
  destruct (caught_up_same i m _ Hm Hc) as [Hs Ew]. rewrite Ew in Hp.
  destruct Hp as [?|(Ew' & Hs' & Hall)]; [by left|right]. split_and!; [done|by etransitivity|].
  intros k h Hk Hh. apply elem_of_cons in Hk as [->|Hk]; [|by apply (Hall k h)].
  destruct Hc as (h0 & h1 & Hi0 & E & _ & _ & Ef).
  assert (Hi1 : turn i m !! i = Some h1) by (by rewrite E, list_lookup_insert_eq).
  destruct (Hs' i h1 Hi1) as (h2 & Hi2 & _ & Er & Hle). assert (h2 = h) as -> by congruence.
  destruct (Forall_lookup_1 _ _ _ _ Hwf Hh) as [(_ & ? & _) _]. lia.
Qed.

Lemma round_progress m : fence_wf m -> room (S (total_work m)) m ->
  length (round m) = length m /\ fence_wf (round m) /\ room (S (total_work (round m))) (round m) /\
  ((total_work (round m) < total_work m)%nat \/
   total_work (round m) = total_work m /\ same_fences m (round m) /\
   (forall k h, round m !! k = Some h -> flushes h = req h)).
Proof.
  intros Hm Hr. assert (Hin : Forall (fun i => (i < length m)%nat) (seq 0 (length m))).
  { apply Forall_forall. intros i Hi. apply elem_of_seq in Hi. lia. }
  destruct (turns_progress _ m Hin Hm Hr) as (El & Hwf & Hroom & Hp).
  split_and!; [done..|]. destruct Hp as [?|(? & ? & Hall)]; [by left|right]. split_and!; [done..|].
  intros k h Hk. apply (Hall k h); [|done]. apply elem_of_seq. apply lookup_lt_Some in Hk. unfold round in Hk. lia.
Qed.

(** With nothing left to flush, no hart waits. *)
Lemma turn_moves i m h : fence_wf m -> room 1 m -> (forall k u, m !! k = Some u -> flushes u = req u) ->
  m !! i = Some h -> work h <> 0%nat -> (total_work (turn i m) < total_work m)%nat.
Proof.
  intros Hm Hr Hall Hi Hw. destruct (turn_progress i m Hm Hr (lookup_lt_Some _ _ _ Hi)) as [?|Hc]; [done|exfalso].
  destruct Hc as (h0 & h' & Hi0 & E & Ed & _ & _). assert (h0 = h) as -> by congruence.
  destruct (Forall_lookup_1 _ _ _ _ Hm Hi) as [_ [Ht Hd]].
  assert (Ei : turn i m !! i = Some h') by (rewrite E, list_lookup_insert_eq; [done|by eapply lookup_lt_Some]).
  assert (Hlen : (i < length m)%nat) by (by eapply lookup_lt_Some).
  unfold turn in Ei. rewrite Hi in Ei. unfold work, tickets_of, todo_of in *.
  destruct (doing h) as [|[|j todo] tickets|[|[j t] tickets]] eqn:Ed'; [done| | | |].
  - rewrite list_lookup_insert_eq in Ei by done. by injection Ei as <-.
  - case_bool_decide.
    { rewrite list_lookup_insert_eq in Ei by done. injection Ei as <-. cbn in Ed. injection Ed as Ed.
      by apply (f_equal length) in Ed; cbn in Ed; lia. }
    apply Forall_cons in Hd as [Hj _]. apply lookup_lt_is_Some_2 in Hj as [hj Hj]. rewrite Hj in Ei. destruct (PostTlbFlush _).
    rewrite list_lookup_insert_eq in Ei by (by rewrite length_insert). injection Ei as <-. cbn in Ed. injection Ed as Ed _.
    by apply (f_equal length) in Ed; cbn in Ed; lia.
  - rewrite list_lookup_insert_eq in Ei by done. by injection Ei as <-.
  - apply Forall_cons in Ht as [(hj & Hj & Hle) _]. cbn in *. rewrite Hj in Ei.
    assert (Hf : TlbFlushDone t (hart_words hj) = true).
    { apply Z.leb_le. pose proof (Hall j hj Hj) as Ef. unfold flushes in Ef. lia. }
    rewrite Hf, list_lookup_insert_eq in Ei by done. injection Ei as <-. cbn in Ed. injection Ed as Ed.
    by apply (f_equal length) in Ed; cbn in Ed; lia.
Qed.

Lemma turns_move ks i m h : Forall (fun i => (i < length m)%nat) ks -> fence_wf m ->
  room (S (total_work m)) m -> (forall k u, m !! k = Some u -> flushes u = req u) ->
  m !! i = Some h -> work h <> 0%nat -> i ∈ ks ->
  (total_work (foldl (fun m i => turn i m) m ks) < total_work m)%nat.
Proof.
  revert m h. induction ks as [|k ks IH]; intros m h Hin Hm Hr Hall Hi Hw Hk; [by apply not_elem_of_nil in Hk|].
  apply Forall_cons in Hin as [Hk' Hin]. cbn [foldl].
  assert (Hr1 : room 1 m) by (by eapply room_le; [|done]; lia).
  pose proof (turn_wf k m Hm Hr1) as Hm1. pose proof (turn_room k m Hm Hk' Hr) as Hroom.
  assert (Hin1 : Forall (fun i0 => (i0 < length (turn k m))%nat) ks) by (by rewrite length_turn).
  destruct (turn_progress k m Hm Hr1 Hk') as [Hlt|Hc].
  { destruct (turns_progress ks (turn k m) Hin1 Hm1 Hroom) as (_ & _ & _ & [?|[? _]]); lia. }
  destruct (caught_up_same k m _ Hm Hc) as [Hs Ew].
  apply elem_of_cons in Hk as [->|Hk]; [pose proof (turn_moves k m h Hm Hr1 Hall Hi Hw); lia|].
  rewrite <- Ew. destruct (Hs i h Hi) as (h' & Hi' & Ed & _). apply (IH (turn k m) h'); try done.
  - intros j u Hu. destruct (lookup_lt_is_Some_2 m j) as [v Hv];
      [rewrite <- (length_turn k); by eapply lookup_lt_Some|].
    destruct (Hs j v Hv) as (u' & Hu' & _ & Er & Hle). assert (u' = u) as -> by congruence.
    pose proof (Hall j v Hv). destruct (Forall_lookup_1 _ _ _ _ Hm1 Hu) as [(_ & ? & _) _]. lia.
  - unfold work in *. by rewrite Ed.
Qed.

Lemma some_work m : total_work m <> 0%nat -> exists i h, m !! i = Some h /\ work h <> 0%nat.
Proof.
  unfold total_work. induction m as [|h m IH]; cbn; [done|]. intros Hw.
  destruct (decide (work h = 0%nat)) as [E|]; [|by exists 0%nat, h].
  destruct IH as (i & u & Hi & Hu); [lia|]. by exists (S i), u.
Qed.

(** Two rounds get at least one hart on, if any is left. *)
Lemma rounds_progress m : fence_wf m -> room (S (total_work m)) m -> total_work m <> 0%nat ->
  (total_work (round (round m)) < total_work m)%nat.
Proof.
  intros Hm Hr Hw. destruct (round_progress m Hm Hr) as (El & Hm1 & Hr1 & Hp).
  destruct (round_progress (round m) Hm1 Hr1) as (_ & _ & _ & Hp2).
  destruct Hp as [?|(Ew & _ & Hc)]; [destruct Hp2 as [?|[? _]]; lia|].
  rewrite <- Ew in Hw |- *. destruct (some_work _ Hw) as (i & h & Hi & Hh).
  apply (turns_move _ i _ h); try done.
  - apply Forall_forall. intros k Hk. apply elem_of_seq in Hk. lia.
  - apply elem_of_seq. apply lookup_lt_Some in Hi. lia.
Qed.

Lemma rounds_end n m : fence_wf m -> room (S (total_work m)) m -> (total_work m <= n)%nat ->
  let m' := Nat.iter (2 * n) round m in length m' = length m /\ total_work m' = 0%nat.
Proof.
  revert m. induction n as [|n IH]; intros m Hm Hr Hw.
  { cbv zeta. change (Nat.iter (2 * 0) round m) with m. split; [done|lia]. }
  replace (2 * S n)%nat with (2 * n + 1 + 1)%nat by lia. cbv zeta. rewrite !Nat.iter_add.
  change (Nat.iter 1 round (Nat.iter 1 round m)) with (round (round m)).
  destruct (round_progress m Hm Hr) as (El & Hm1 & Hr1 & Hp).
  destruct (round_progress (round m) Hm1 Hr1) as (El2 & Hm2 & Hr2 & Hp2).
  rewrite <- El, <- El2. apply IH; [done..|].
  destruct (decide (total_work m = 0%nat)) as [E|E].
  - destruct Hp as [?|[? _]], Hp2 as [?|[? _]]; lia.
  - pose proof (rounds_progress m Hm Hr E). lia.
Qed.

End Fence.

(** * Instances: two harts that fence each other *)

#[local] Existing Instance demo_xlen.
#[local] Existing Instance demo_platform.

Definition fence_hart (i : Z) (a : activity) : hart unit :=
  mkHart (SetSbiHandler (riscv_cpu_init i (shared_init (mkMap [] false []) ∅ tt))) a.
Definition fence_pair : list (hart unit) :=
  [fence_hart 0 (Posting [1%nat] []); fence_hart 1 (Posting [0%nat] [])].

Lemma fence_pair_wf : fence_wf fence_pair.
Proof.
  assert (Hw : forall i a, words_ok (fence_hart i a)) by (intros; split_and!; done).
  repeat (apply Forall_cons; split; [split; [apply Hw|split; repeat constructor]|]). constructor.
Qed.

Lemma fence_pair_room : room (S (total_work fence_pair)) fence_pair.
Proof. repeat constructor. Qed.


(** Hart 0 posts, hart 1 runs on and takes its inbox in, hart 0 waits and
    returns. *)
Definition fence_start : list (hart unit) := [fence_hart 0 (Posting [1%nat] []); fence_hart 1 Running].
Definition fence_trace : list (list (hart unit)) :=
  let m1 := turn 0 fence_start in let m2 := turn 1 m1 in let m3 := turn 0 m2 in
  let m4 := turn 0 m3 in let m5 := turn 0 m4 in [m2; m3; m4; m5].

