(* ===== verification/Softfp.v ===== *)
(** Software floating point: [lib/softfp/softfp_template.h],
    [softfp_template_icvt.h] and [softfp.cpp].

    The template's [F_SIZE] is the argument [F] (32, 64 or 128) and
    [ICVT_SIZE] is [I].  A float is its bits; the accumulated exception flags
    ([*pfflags]) are threaded through.  [int128] is whether the host has
    128-bit integers ([HAVE_INT128]), which decides between the two versions
    of the double width routines. *)

From stdpp Require Import base numbers list.
From S2P Require Import Prelude Bits Cutils.
Local Open Scope Z_scope.

Inductive RoundingMode := RM_RNE | RM_RTZ | RM_RDN | RM_RUP | RM_RMM.
#[export] Instance rm_eq_dec : EqDecision RoundingMode.
Proof. solve_decision. Defined.

(** The C enumeration's numbers. *)
Definition rm_of (n : Z) : RoundingMode :=
  if n =? 0 then RM_RNE else if n =? 1 then RM_RTZ else if n =? 2 then RM_RDN
  else if n =? 3 then RM_RUP else RM_RMM.

Definition FFLAG_INVALID_OP : Z := 16.
Definition FFLAG_DIVIDE_ZERO : Z := 8.
Definition FFLAG_OVERFLOW : Z := 4.
Definition FFLAG_UNDERFLOW : Z := 2.
Definition FFLAG_INEXACT : Z := 1.

Inductive MinMaxType := FMINMAX_PROP | FMINMAX_IEEE754_2008 | FMINMAX_IEEE754_201X.

(** [clz32], [clz64], [clz128] *)
Definition clz (F a : Z) : Z := if a =? 0 then F else builtin_clz F a.

Section Format.
Context (int128 : bool) (F : Z).

Definition MANT_SIZE : Z := if F =? 32 then 23 else if F =? 64 then 52 else 112.
Definition EXP_SIZE : Z := if F =? 32 then 8 else if F =? 64 then 11 else 15.
(** [F_ULONG] is defined *)
Definition has_ulong : bool := (F =? 32) || ((F =? 64) && int128).

Definition EXP_MASK : Z := 2 ^ EXP_SIZE - 1.
Definition MANT_MASK : Z := 2 ^ MANT_SIZE - 1.
Definition SIGN_MASK : Z := 2 ^ (F - 1).
Definition IMANT_SIZE : Z := F - 2.
Definition RND_SIZE : Z := IMANT_SIZE - MANT_SIZE.
Definition QNAN_MASK : Z := 2 ^ (MANT_SIZE - 1).
Definition F_QNAN : Z := Z.lor (Z.shiftl EXP_MASK MANT_SIZE) (Z.shiftl 1 (MANT_SIZE - 1)).

(** The fields. *)
Definition f_sign (a : Z) : Z := Z.shiftr a (F - 1).
Definition f_exp (a : Z) : Z := Z.land (Z.shiftr a MANT_SIZE) EXP_MASK.
Definition f_mant (a : Z) : Z := Z.land a MANT_MASK.

Definition pack_sf (a_sign a_exp a_mant : Z) : Z :=
  Z.lor (Z.lor (uw F (Z.shiftl a_sign (F - 1))) (uw F (Z.shiftl a_exp MANT_SIZE)))
        (Z.land a_mant MANT_MASK).

Definition unpack_sf (a : Z) : Z * Z * Z := (f_sign a, f_exp a, f_mant a).

(** A right shift that keeps the lost bits as a sticky bit. *)
Definition rshift_rnd (a d : Z) : Z :=
  if d =? 0 then a
  else if F <=? d then Z_of_bool (nz a)
  else Z.lor (Z.shiftr a d) (Z_of_bool (nz (Z.land a (Z.shiftl 1 d - 1)))).

(** What is added before the bits below the mantissa are dropped. *)
Definition rnd_addend (a_sign : Z) (rm : RoundingMode) : Z :=
  match rm with
  | RM_RNE | RM_RMM => Z.shiftl 1 (RND_SIZE - 1)
  | RM_RTZ => 0
  | RM_RDN => if nz a_sign then Z.shiftl 1 RND_SIZE - 1 else 0
  | RM_RUP => if nz (Z.lxor a_sign 1) then Z.shiftl 1 RND_SIZE - 1 else 0
  end.

(** [a_mant] has its MSB at F_SIZE - 2 bits. *)
Definition round_pack_sf (a_sign a_exp a_mant : Z) (rm : RoundingMode) (fl : Z) : Z * Z :=
  let addend := rnd_addend a_sign rm in
  let low v := Z.land v (Z.shiftl 1 RND_SIZE - 1) in
  (* potentially subnormal *)
  let '(a_exp, a_mant, rnd_bits, fl) :=
    if a_exp <=? 0 then
      let is_subnormal := (a_exp <? 0) || (uw F (a_mant + addend) <? 2 ^ (F - 1)) in
      let a_mant := rshift_rnd a_mant (1 - a_exp) in
      let rnd_bits := low a_mant in
      (1, a_mant, rnd_bits,
       if is_subnormal && nz rnd_bits then Z.lor fl FFLAG_UNDERFLOW else fl)
    else (a_exp, a_mant, low a_mant, fl) in
  let fl := if nz rnd_bits then Z.lor fl FFLAG_INEXACT else fl in
  let a_mant := Z.shiftr (uw F (a_mant + addend)) RND_SIZE in
  (* half way: select even result *)
  let a_mant := if bool_decide (rm = RM_RNE) && (rnd_bits =? Z.shiftl 1 (RND_SIZE - 1))
                then Z.ldiff a_mant 1 else a_mant in
  let a_exp := a_exp + Z.shiftr a_mant (MANT_SIZE + 1) in
  if a_mant <=? MANT_MASK then (pack_sf a_sign 0 a_mant, fl)
  else if EXP_MASK <=? a_exp then
    let '(a_exp, a_mant) := if addend =? 0 then (EXP_MASK - 1, MANT_MASK) else (EXP_MASK, 0) in
    (pack_sf a_sign a_exp a_mant, Z.lor fl (Z.lor FFLAG_OVERFLOW FFLAG_INEXACT))
  else (pack_sf a_sign a_exp a_mant, fl).

(** [a_mant] has at most F_SIZE - 1 bits. *)
Definition normalize_sf (a_sign a_exp a_mant : Z) (rm : RoundingMode) (fl : Z) : Z * Z :=
  let shift := clz F a_mant - (F - 1 - IMANT_SIZE) in
  round_pack_sf a_sign (a_exp - shift) (uw F (Z.shiftl a_mant shift)) rm fl.

Definition normalize2_sf (a_sign a_exp a_mant1 a_mant0 : Z) (rm : RoundingMode) (fl : Z) : Z * Z :=
  let l := if a_mant1 =? 0 then F + clz F a_mant0 else clz F a_mant1 in
  let shift := l - (F - 1 - IMANT_SIZE) in
  let a_mant1 :=
    if shift =? 0 then Z.lor a_mant1 (Z_of_bool (nz a_mant0))
    else if shift <? F then
      let m1 := Z.lor (uw F (Z.shiftl a_mant1 shift)) (Z.shiftr a_mant0 (F - shift)) in
      Z.lor m1 (Z_of_bool (nz (uw F (Z.shiftl a_mant0 shift))))
    else uw F (Z.shiftl a_mant0 (shift - F)) in
  round_pack_sf a_sign (a_exp - shift) a_mant1 rm fl.

Definition issignan_sf (a : Z) : bool :=
  let a_exp1 := Z.land (Z.shiftr a (MANT_SIZE - 1)) (2 ^ (EXP_SIZE + 1) - 1) in
  (a_exp1 =? 2 * EXP_MASK) && nz (f_mant a).

Definition isnan_sf (a : Z) : bool := (f_exp a =? EXP_MASK) && nz (f_mant a).

Definition invalid_if (b : bool) (fl : Z) : Z := if b then Z.lor fl FFLAG_INVALID_OP else fl.

(** * Addition *)

Definition add_sf (a b : Z) (rm : RoundingMode) (fl : Z) : Z * Z :=
  (* swap so that abs(a) >= abs(b) *)
  let '(a, b) := if Z.ldiff a SIGN_MASK <? Z.ldiff b SIGN_MASK then (b, a) else (a, b) in
  let a_sign := f_sign a in
  let b_sign := f_sign b in
  let a_exp := f_exp a in
  let b_exp := f_exp b in
  let a_mant := Z.shiftl (f_mant a) 3 in
  let b_mant := Z.shiftl (f_mant b) 3 in
  if a_exp =? EXP_MASK then
    if nz a_mant then
      (F_QNAN, invalid_if (negb (nz (Z.land a_mant (Z.shiftl QNAN_MASK 3))) || issignan_sf b) fl)
    else if (b_exp =? EXP_MASK) && negb (a_sign =? b_sign) then (F_QNAN, invalid_if true fl)
    else (a, fl)
  else
    let '(a_exp, a_mant) :=
      if a_exp =? 0 then (1, a_mant) else (a_exp, Z.lor a_mant (2 ^ (MANT_SIZE + 3))) in
    let '(b_exp, b_mant) :=
      if b_exp =? 0 then (1, b_mant) else (b_exp, Z.lor b_mant (2 ^ (MANT_SIZE + 3))) in
    let b_mant := rshift_rnd b_mant (a_exp - b_exp) in
    let '(a_sign, a_mant) :=
      if a_sign =? b_sign then (a_sign, uw F (a_mant + b_mant))
      else
        let a_mant := uw F (a_mant - b_mant) in
        (if a_mant =? 0 then Z_of_bool (bool_decide (rm = RM_RDN)) else a_sign, a_mant) in
    normalize_sf a_sign (a_exp + (RND_SIZE - 3)) a_mant rm fl.

Definition sub_sf (a b : Z) (rm : RoundingMode) (fl : Z) : Z * Z :=
  add_sf a (Z.lxor b SIGN_MASK) rm fl.

(** * Multiplication *)

(** The exponent and the mantissa with its MSB set. *)
Definition normalize_subnormal_sf (a_mant : Z) : Z * Z :=
  let shift := MANT_SIZE - (F - 1 - clz F a_mant) in
  (1 - shift, uw F (Z.shiftl a_mant shift)).

(** The high and the low half of a product. *)
Definition mul_u_halves (a b : Z) : Z * Z :=
  let h := F / 2 in
  let a0 := uw h a in
  let a1 := uw h (Z.shiftr a h) in
  let b0 := uw h b in
  let b1 := uw h (Z.shiftr b h) in
  let r00 := uw F (a0 * b0) in
  let r01 := uw F (a0 * b1) in
  let r10 := uw F (a1 * b0) in
  let r11 := uw F (a1 * b1) in
  let r0 := uw h r00 in
  let c := uw F (Z.shiftr r00 h + uw h r01 + uw h r10) in
  let r1 := uw h c in
  let c := uw F (Z.shiftr c h + Z.shiftr r01 h + Z.shiftr r10 h + uw h r11) in
  let r2 := uw h c in
  let r3 := uw h (Z.shiftr c h + Z.shiftr r11 h) in
  (Z.lor (uw F (Z.shiftl r3 h)) r2, Z.lor (uw F (Z.shiftl r1 h)) r0).

Definition mul_u (a b : Z) : Z * Z :=
  if has_ulong then
    let r := uw (2 * F) (a * b) in (Z.shiftr r F, uw F r)
  else mul_u_halves a b.

Definition mul_sf (a b : Z) (rm : RoundingMode) (fl : Z) : Z * Z :=
  let r_sign := Z.lxor (f_sign a) (f_sign b) in
  let a_exp := f_exp a in
  let b_exp := f_exp b in
  let a_mant := f_mant a in
  let b_mant := f_mant b in
  let zero m e := (e =? 0) && (m =? 0) in
  if (a_exp =? EXP_MASK) || (b_exp =? EXP_MASK) then
    if isnan_sf a || isnan_sf b then
      (F_QNAN, invalid_if (issignan_sf a || issignan_sf b) fl)
    else if ((a_exp =? EXP_MASK) && zero b_mant b_exp) ||
            ((b_exp =? EXP_MASK) && zero a_mant a_exp) then (F_QNAN, invalid_if true fl)
    else (pack_sf r_sign EXP_MASK 0, fl)
  else if zero a_mant a_exp || zero b_mant b_exp then (pack_sf r_sign 0 0, fl)
  else
    let '(a_exp, a_mant) := if a_exp =? 0 then normalize_subnormal_sf a_mant
                            else (a_exp, Z.lor a_mant (2 ^ MANT_SIZE)) in
    let '(b_exp, b_mant) := if b_exp =? 0 then normalize_subnormal_sf b_mant
                            else (b_exp, Z.lor b_mant (2 ^ MANT_SIZE)) in
    let r_exp := a_exp + b_exp - 2 ^ (EXP_SIZE - 1) + 2 in
    let '(r_mant, r_mant_low) :=
      mul_u (uw F (Z.shiftl a_mant RND_SIZE)) (uw F (Z.shiftl b_mant (RND_SIZE + 1))) in
    normalize_sf r_sign r_exp (Z.lor r_mant (Z_of_bool (nz r_mant_low))) rm fl.

(** * Fused multiply and add *)

(** Right shift of the smaller operand's double word, keeping the bits lost
    as a sticky bit. *)
Definition fma_rshift (c_mant1 c_mant0 shift : Z) : Z * Z :=
  if 2 * F <=? shift then (0, Z_of_bool (nz (Z.lor c_mant0 c_mant1)))
  else if F + 1 <=? shift then (0, rshift_rnd c_mant1 (shift - F))
  else if shift =? F then (0, Z.lor c_mant1 (Z_of_bool (nz c_mant0)))
  else if negb (shift =? 0) then
    let mask := Z.shiftl 1 shift - 1 in
    (Z.shiftr c_mant1 shift,
     Z.lor (Z.lor (uw F (Z.shiftl c_mant1 (F - shift))) (Z.shiftr c_mant0 shift))
           (Z_of_bool (nz (Z.land c_mant0 mask))))
  else (c_mant1, c_mant0).

(** From [/* add */] on: the product [(r_sign, r_exp, r_mant1:r_mant0)] and
    [c]. *)
Definition fma_add (r_sign r_exp r_mant1 r_mant0 c : Z) (rm : RoundingMode) (fl : Z) : Z * Z :=
  let c_sign := f_sign c in
  let c_exp := f_exp c in
  let c_mant := f_mant c in
  if (c_exp =? 0) && (c_mant =? 0) then
    normalize_sf r_sign r_exp (Z.lor r_mant1 (Z_of_bool (nz r_mant0))) rm fl
  else
    let '(c_exp, c_mant) := if c_exp =? 0 then normalize_subnormal_sf c_mant
                            else (c_exp, Z.lor c_mant (2 ^ MANT_SIZE)) in
    let c_exp := c_exp + 1 in
    let c_mant1 := uw F (Z.shiftl c_mant (RND_SIZE - 1)) in
    (* ensure that abs(r) >= abs(c) *)
    let '(r_sign, r_exp, r_mant1, r_mant0, c_sign, c_exp, c_mant1, c_mant0) :=
      if (c_exp <? r_exp) || ((r_exp =? c_exp) && (c_mant1 <=? r_mant1))
      then (r_sign, r_exp, r_mant1, r_mant0, c_sign, c_exp, c_mant1, 0)
      else (c_sign, c_exp, c_mant1, 0, r_sign, r_exp, r_mant1, r_mant0) in
    let '(c_mant1, c_mant0) := fma_rshift c_mant1 c_mant0 (r_exp - c_exp) in
    if r_sign =? c_sign then
      let m0 := uw F (r_mant0 + c_mant0) in
      let m1 := uw F (r_mant1 + c_mant1 + Z_of_bool (m0 <? c_mant0)) in
      normalize2_sf r_sign r_exp m1 m0 rm fl
    else
      let m0 := uw F (r_mant0 - c_mant0) in
      let m1 := uw F (r_mant1 - c_mant1 - Z_of_bool (r_mant0 <? m0)) in
      let r_sign := if Z.lor m0 m1 =? 0 then Z_of_bool (bool_decide (rm = RM_RDN)) else r_sign in
      normalize2_sf r_sign r_exp m1 m0 rm fl.

Definition fma_sf (a b c : Z) (rm : RoundingMode) (fl : Z) : Z * Z :=
  let r_sign := Z.lxor (f_sign a) (f_sign b) in
  let c_sign := f_sign c in
  let a_exp := f_exp a in
  let b_exp := f_exp b in
  let c_exp := f_exp c in
  let a_mant := f_mant a in
  let b_mant := f_mant b in
  let zero m e := (e =? 0) && (m =? 0) in
  if (a_exp =? EXP_MASK) || (b_exp =? EXP_MASK) || (c_exp =? EXP_MASK) then
    if isnan_sf a || isnan_sf b || isnan_sf c then
      (F_QNAN, invalid_if (issignan_sf a || issignan_sf b || issignan_sf c) fl)
    else if ((a_exp =? EXP_MASK) && zero b_mant b_exp) ||
            ((b_exp =? EXP_MASK) && zero a_mant a_exp) ||
            (((a_exp =? EXP_MASK) || (b_exp =? EXP_MASK)) &&
             ((c_exp =? EXP_MASK) && negb (r_sign =? c_sign))) then (F_QNAN, invalid_if true fl)
    else if c_exp =? EXP_MASK then (pack_sf c_sign EXP_MASK 0, fl)
    else (pack_sf r_sign EXP_MASK 0, fl)
  else if zero a_mant a_exp || zero b_mant b_exp then
    if zero (f_mant c) c_exp then
      (pack_sf (if c_sign =? r_sign then r_sign else Z_of_bool (bool_decide (rm = RM_RDN))) 0 0, fl)
    else (c, fl)
  else
    let '(a_exp, a_mant) := if a_exp =? 0 then normalize_subnormal_sf a_mant
                            else (a_exp, Z.lor a_mant (2 ^ MANT_SIZE)) in
    let '(b_exp, b_mant) := if b_exp =? 0 then normalize_subnormal_sf b_mant
                            else (b_exp, Z.lor b_mant (2 ^ MANT_SIZE)) in
    let r_exp := a_exp + b_exp - 2 ^ (EXP_SIZE - 1) + 3 in
    let '(r_mant1, r_mant0) :=
      mul_u (uw F (Z.shiftl a_mant RND_SIZE)) (uw F (Z.shiftl b_mant RND_SIZE)) in
    (* normalize to F_SIZE - 3 *)
    let '(r_mant1, r_mant0, r_exp) :=
      if r_mant1 <? 2 ^ (F - 3)
      then (Z.lor (uw F (Z.shiftl r_mant1 1)) (Z.shiftr r_mant0 (F - 1)),
            uw F (Z.shiftl r_mant0 1), r_exp - 1)
      else (r_mant1, r_mant0, r_exp) in
    fma_add r_sign r_exp r_mant1 r_mant0 c rm fl.

(** * Division *)

(** One step of the restoring division on [(a1, a0)]. *)
Definition divrem_step (b : Z) (st : Z * Z) : Z * Z :=
  let '(a1, a0) := st in
  let ab := Z.shiftr a1 (F - 1) in
  let a1 := Z.lor (uw F (Z.shiftl a1 1)) (Z.shiftr a0 (F - 1)) in
  let '(a1, qb) := if nz ab || (b <=? a1) then (uw F (a1 - b), 1) else (a1, 0) in
  (a1, Z.lor (uw F (Z.shiftl a0 1)) qb).

(** The quotient and the remainder of [ah:al] by [b], for [ah < b]. *)
Definition divrem_u (ah al b : Z) : Z * Z :=
  if has_ulong then
    let a := Z.lor (Z.shiftl ah F) al in (uw F (a / b), a mod b)
  else
    let '(r, q) := Nat.iter (Z.to_nat F) (divrem_step b) (ah, al) in (q, r).

Definition div_sf (a b : Z) (rm : RoundingMode) (fl : Z) : Z * Z :=
  let r_sign := Z.lxor (f_sign a) (f_sign b) in
  let a_exp := f_exp a in
  let b_exp := f_exp b in
  let a_mant := f_mant a in
  let b_mant := f_mant b in
  if a_exp =? EXP_MASK then
    if nz a_mant || isnan_sf b then (F_QNAN, invalid_if (issignan_sf a || issignan_sf b) fl)
    else if b_exp =? EXP_MASK then (F_QNAN, invalid_if true fl)
    else (pack_sf r_sign EXP_MASK 0, fl)
  else if b_exp =? EXP_MASK then
    if nz b_mant then (F_QNAN, invalid_if (issignan_sf a || issignan_sf b) fl)
    else (pack_sf r_sign 0 0, fl)
  else if (b_exp =? 0) && (b_mant =? 0) then
    if (a_exp =? 0) && (a_mant =? 0) then (F_QNAN, invalid_if true fl)
    else (pack_sf r_sign EXP_MASK 0, Z.lor fl FFLAG_DIVIDE_ZERO)
  else
    let '(b_exp, b_mant) := if b_exp =? 0 then normalize_subnormal_sf b_mant
                            else (b_exp, Z.lor b_mant (2 ^ MANT_SIZE)) in
    if (a_exp =? 0) && (a_mant =? 0) then (pack_sf r_sign 0 0, fl)
    else
      let '(a_exp, a_mant) := if a_exp =? 0 then normalize_subnormal_sf a_mant
                              else (a_exp, Z.lor a_mant (2 ^ MANT_SIZE)) in
      let r_exp := a_exp - b_exp + 2 ^ (EXP_SIZE - 1) - 1 in
      let '(r_mant, r) := divrem_u a_mant 0 (uw F (Z.shiftl b_mant 2)) in
      normalize_sf r_sign r_exp (if nz r then Z.lor r_mant 1 else r_mant) rm fl.

(** * Square root *)

(** The Newton iteration from [u] down in [w] bits; [quot s] is the quotient
    by [s].  Every step that goes on at least halves the distance to the
    root. *)
Fixpoint sqrt_newton (fuel : nat) (w : Z) (quot : Z -> Z) (u : Z) : Z :=
  match fuel with
  | O => u
  | S fuel =>
    let s := u in
    let u := uw w (quot s + s) / 2 in
    if s <=? u then s else sqrt_newton fuel w quot u
  end.

(** The root of [ah:al], and whether it is not exact. *)
Definition sqrtrem_u (ah al : Z) : Z * bool :=
  if (ah =? 0) && (al =? 0) then (0, false)
  else
    let l := if nz ah then 2 * F - clz F (ah - 1) else F - clz F (al - 1) in
    let u := 2 ^ ((l + 1) / 2) in
    let fuel := S (S (Z.to_nat F)) in
    if has_ulong then
      let a := Z.lor (Z.shiftl ah F) al in
      let s := sqrt_newton fuel (2 * F) (fun s => a / s) u in
      (uw F s, nz (a - s * s))
    else
      let s := sqrt_newton fuel F (fun s => (divrem_u ah al s).1) u in
      let '(sq1, sq0) := mul_u s s in
      (s, negb (sq0 =? al) || negb (sq1 =? ah)).

Definition sqrt_sf (a : Z) (rm : RoundingMode) (fl : Z) : Z * Z :=
  let a_sign := f_sign a in
  let a_exp := f_exp a in
  let a_mant := f_mant a in
  if a_exp =? EXP_MASK then
    if nz a_mant then (F_QNAN, invalid_if (issignan_sf a) fl)
    else if nz a_sign then (F_QNAN, invalid_if true fl)
    else (a, fl)
  else if nz a_sign then
    if (a_exp =? 0) && (a_mant =? 0) then (a, fl) else (F_QNAN, invalid_if true fl)
  else if (a_exp =? 0) && (a_mant =? 0) then (pack_sf 0 0 0, fl)
  else
    let '(a_exp, a_mant) := if a_exp =? 0 then normalize_subnormal_sf a_mant
                            else (a_exp, Z.lor a_mant (2 ^ MANT_SIZE)) in
    let a_exp := a_exp - EXP_MASK / 2 in
    (* simpler to handle an even exponent *)
    let '(a_exp, a_mant) :=
      if nz (Z.land a_exp 1) then (a_exp - 1, Z.shiftl a_mant 1) else (a_exp, a_mant) in
    let a_exp := Z.shiftr a_exp 1 + EXP_MASK / 2 in
    let a_mant := uw F (Z.shiftl a_mant (F - 4 - MANT_SIZE)) in
    let '(r, inexact) := sqrtrem_u a_mant 0 in
    normalize_sf a_sign a_exp (if inexact then Z.lor r 1 else r) rm fl.

(** * Comparisons *)

Definition min_max_nan_sf (a b fl : Z) (minmax_type : MinMaxType) : Z * Z :=
  let snan := issignan_sf a || issignan_sf b in
  let fl := invalid_if snan fl in
  match minmax_type with
  | FMINMAX_PROP => (F_QNAN, fl)
  | FMINMAX_IEEE754_2008 =>
    if snan then (F_QNAN, fl)
    else (if isnan_sf a then if isnan_sf b then F_QNAN else b else a, fl)
  | FMINMAX_IEEE754_201X => (if isnan_sf a then if isnan_sf b then F_QNAN else b else a, fl)
  end.

Definition min_sf (a b fl : Z) (minmax_type : MinMaxType) : Z * Z :=
  if isnan_sf a || isnan_sf b then min_max_nan_sf a b fl minmax_type
  else
    (if negb (f_sign a =? f_sign b) then if nz (f_sign a) then a else b
     else if xorb (a <? b) (nz (f_sign a)) then a else b, fl).

Definition max_sf (a b fl : Z) (minmax_type : MinMaxType) : Z * Z :=
  if isnan_sf a || isnan_sf b then min_max_nan_sf a b fl minmax_type
  else
    (if negb (f_sign a =? f_sign b) then if nz (f_sign a) then b else a
     else if xorb (a <? b) (nz (f_sign a)) then b else a, fl).

Definition both_zero (a b : Z) : bool := uw F (Z.shiftl (Z.lor a b) 1) =? 0.

Definition eq_quiet_sf (a b fl : Z) : bool * Z :=
  if isnan_sf a || isnan_sf b then (false, invalid_if (issignan_sf a || issignan_sf b) fl)
  else (both_zero a b || (a =? b), fl).

Definition le_sf (a b fl : Z) : bool * Z :=
  if isnan_sf a || isnan_sf b then (false, invalid_if true fl)
  else
    (if negb (f_sign a =? f_sign b) then nz (f_sign a) || both_zero a b
     else if nz (f_sign a) then b <=? a else a <=? b, fl).

Definition lt_sf (a b fl : Z) : bool * Z :=
  if isnan_sf a || isnan_sf b then (false, invalid_if true fl)
  else
    (if negb (f_sign a =? f_sign b) then nz (f_sign a) && negb (both_zero a b)
     else if nz (f_sign a) then b <? a else a <? b, fl).

Definition fclass_sf (a : Z) : Z :=
  let neg := nz (f_sign a) in
  if f_exp a =? EXP_MASK then
    if nz (f_mant a) then if nz (Z.land (f_mant a) QNAN_MASK) then 2 ^ 9 else 2 ^ 8
    else if neg then 2 ^ 0 else 2 ^ 7
  else if f_exp a =? 0 then
    if f_mant a =? 0 then if neg then 2 ^ 3 else 2 ^ 4
    else if neg then 2 ^ 2 else 2 ^ 5
  else if neg then 2 ^ 1 else 2 ^ 6.

(** * Conversions to and from integers of [I] bits *)

(** The result's bits; [-r] is taken modulo the width. *)
Definition internal_cvt_sf_i (I a : Z) (rm : RoundingMode) (fl : Z) (is_unsigned : bool) : Z * Z :=
  let a_sign := if (f_exp a =? EXP_MASK) && nz (f_mant a) then 0 else f_sign a in
  let '(a_exp, a_mant) := if f_exp a =? 0 then (1, f_mant a)
                          else (f_exp a, Z.lor (f_mant a) (2 ^ MANT_SIZE)) in
  let a_mant := uw F (Z.shiftl a_mant RND_SIZE) in
  let a_exp := a_exp - EXP_MASK / 2 - MANT_SIZE in
  let r_max := if is_unsigned then uw I (a_sign - 1)
               else uw I (2 ^ (I - 1) - Z.lxor a_sign 1) in
  let overflow := (r_max, Z.lor fl FFLAG_INVALID_OP) in
  let signed r := if nz a_sign then uw I (- r) else r in
  if 0 <=? a_exp then
    if a_exp <=? I - 1 - MANT_SIZE then
      let r := uw I (Z.shiftl (uw I (Z.shiftr a_mant RND_SIZE)) a_exp) in
      if r_max <? r then overflow else (signed r, fl)
    else overflow
  else
    let a_mant := rshift_rnd a_mant (- a_exp) in
    let addend := rnd_addend a_sign rm in
    let rnd_bits := Z.land a_mant (Z.shiftl 1 RND_SIZE - 1) in
    let a_mant := Z.shiftr (uw F (a_mant + addend)) RND_SIZE in
    let a_mant := if bool_decide (rm = RM_RNE) && (rnd_bits =? Z.shiftl 1 (RND_SIZE - 1))
                  then Z.ldiff a_mant 1 else a_mant in
    if r_max <? a_mant then overflow
    else (signed (uw I a_mant), if nz rnd_bits then Z.lor fl FFLAG_INEXACT else fl).

Definition cvt_sf_i (I a : Z) (rm : RoundingMode) (fl : Z) : Z * Z :=
  internal_cvt_sf_i I a rm fl false.
Definition cvt_sf_u (I a : Z) (rm : RoundingMode) (fl : Z) : Z * Z :=
  internal_cvt_sf_i I a rm fl true.

(** [a] is the integer, signed or not. *)
Definition internal_cvt_i_sf (I a : Z) (rm : RoundingMode) (fl : Z) (is_unsigned : bool) : Z * Z :=
  let '(a_sign, r) := if negb is_unsigned && (a <? 0) then (1, uw I (- a)) else (0, uw I a) in
  let a_exp := EXP_MASK / 2 + F - 2 in
  let l := I - clz I r - (F - 1) in
  let '(r, a_exp) :=
    if 0 <? l then
      let mask := Z.land r (Z.shiftl 1 l - 1) in
      (Z.lor (Z.shiftr r l) (Z_of_bool (nz (Z.land r mask))), a_exp + l)
    else (r, a_exp) in
  normalize_sf a_sign a_exp (uw F r) rm fl.

Definition cvt_i_sf (I a : Z) (rm : RoundingMode) (fl : Z) : Z * Z :=
  internal_cvt_i_sf I a rm fl false.
Definition cvt_u_sf (I a : Z) (rm : RoundingMode) (fl : Z) : Z * Z :=
  internal_cvt_i_sf I a rm fl true.
End Format.

(** * Conversions between formats *)

(** [cvt_sf32_sf64], [cvt_sf32_sf128] and [cvt_sf64_sf128]: from [G] bits to
    the wider [F]. *)
Definition cvt_widen (G F a fl : Z) : Z * Z :=
  let '(a_sign, a_exp, a_mant) := unpack_sf G a in
  if a_exp =? EXP_MASK G then
    if nz a_mant then (F_QNAN F, invalid_if (issignan_sf G a) fl)
    else (pack_sf F a_sign (EXP_MASK F) 0, fl)
  else if (a_exp =? 0) && (a_mant =? 0) then (pack_sf F a_sign 0 0, fl)
  else
    let '(a_exp, a_mant) := if a_exp =? 0 then normalize_subnormal_sf G a_mant
                            else (a_exp, a_mant) in
    let a_exp := a_exp - EXP_MASK G / 2 + EXP_MASK F / 2 in
    (pack_sf F a_sign a_exp (uw F (Z.shiftl a_mant (MANT_SIZE F - MANT_SIZE G))), fl).

(** [cvt_sf64_sf32], [cvt_sf128_sf32] and [cvt_sf128_sf64]: from [F] bits to
    the narrower [G].  The mantissa [normalize_subnormal_sf] returns is not
    used. *)
Definition cvt_narrow (F G a : Z) (rm : RoundingMode) (fl : Z) : Z * Z :=
  let '(a_sign, a_exp, a_mant) := unpack_sf F a in
  if a_exp =? EXP_MASK F then
    if nz a_mant then (F_QNAN G, invalid_if (issignan_sf F a) fl)
    else (pack_sf G a_sign (EXP_MASK G) 0, fl)
  else if (a_exp =? 0) && (a_mant =? 0) then (pack_sf G a_sign 0 0, fl)
  else
    let '(a_exp, a_mant) := if a_exp =? 0 then ((normalize_subnormal_sf F a_mant).1, a_mant)
                            else (a_exp, Z.lor a_mant (2 ^ MANT_SIZE F)) in
    let a_exp := a_exp - EXP_MASK F / 2 + EXP_MASK G / 2 in
    let a_mant := uw G (rshift_rnd F a_mant (MANT_SIZE F - (G - 2))) in
    normalize_sf G a_sign a_exp a_mant rm fl.
