(* ===== verification/SoftfpSpec.v ===== *)
(** What IEEE 754 asks of an operation on floats: the exact result, a real
    number, rounded to the format once, with the flags its rounding raises.

    [fmag] is the magnitude of a finite float of [Softfp]; [rounded] says which
    float, and which flags, a magnitude rounds to.  The second half is about
    integers that stand for real numbers up to a sticky bit ([near]). *)

From stdpp Require Import base numbers list.
From Stdlib Require Import Reals Lra Lia.
From S2P Require Import Prelude Bits Cutils Softfp.
Local Open Scope R_scope.

(** * Powers of two *)

Definition bpow (e : Z) : R := powerRZ 2 e.

Lemma bpow_pos e : 0 < bpow e.
Proof. apply powerRZ_lt. lra. Qed.

Lemma bpow_nz e : bpow e <> 0.
Proof. pose proof (bpow_pos e). lra. Qed.

Lemma bpow_plus a b : bpow (a + b) = bpow a * bpow b.
Proof. apply powerRZ_add. lra. Qed.

Lemma bpow_IZR e : (0 <= e)%Z -> bpow e = IZR (2 ^ e).
Proof.
  intros He. unfold bpow. rewrite <- (Z2Nat.id e) by done.
  rewrite <- pow_powerRZ, <- pow_IZR. done.
Qed.

Lemma bpow_neg e : bpow (- e) = / bpow e.
Proof. apply powerRZ_neg'. Qed.

Lemma bpow_split a b : bpow a = bpow b * bpow (a - b).
Proof. rewrite <- bpow_plus. f_equal. lia. Qed.

Lemma bpow_le a b : (a <= b)%Z -> bpow a <= bpow b.
Proof.
  intros H. rewrite (bpow_split b a), (bpow_IZR (b - a)) by lia.
  pose proof (bpow_pos a). assert (1 <= IZR (2 ^ (b - a))).
  { apply (IZR_le 1). pose proof (pow2_pos (b - a)). lia. }
  nra.
Qed.

Lemma bpow_lt a b : (a < b)%Z -> bpow a < bpow b.
Proof.
  intros H. pose proof (bpow_le (a + 1) b ltac:(lia)) as Hl. rewrite bpow_plus in Hl.
  pose proof (bpow_pos a). change (bpow 1) with (2 * 1) in Hl. lra.
Qed.

Lemma bpow_0 : bpow 0 = 1.
Proof. done. Qed.

Lemma bpow_lt_inv a b : bpow a < bpow b -> (a < b)%Z.
Proof.
  intros H. destruct (Z.lt_ge_cases a b) as [|Hge]; [done|]. apply bpow_le in Hge. lra.
Qed.

(** A magnitude has one power of two. *)
Lemma binade_unique x a b : bpow (a - 1) <= x < bpow a -> bpow (b - 1) <= x < bpow b -> a = b.
Proof.
  intros Ha Hb. assert (a - 1 < b)%Z by (apply bpow_lt_inv; lra).
  assert (b - 1 < a)%Z by (apply bpow_lt_inv; lra). lia.
Qed.

(** A real number scaled by a power of two. *)
Lemma scale_le x y e : x * bpow e <= y * bpow e <-> x <= y.
Proof. pose proof (bpow_pos e). split; [intros; apply (Rmult_le_reg_r (bpow e)); lra|nra]. Qed.
Lemma scale_lt x y e : x * bpow e < y * bpow e <-> x < y.
Proof. pose proof (bpow_pos e). split; [intros; apply (Rmult_lt_reg_r (bpow e)); lra|nra]. Qed.
Lemma scale_eq x y e : x * bpow e = y * bpow e <-> x = y.
Proof. pose proof (bpow_nz e). split; [intros; by apply (Rmult_eq_reg_r (bpow e))|by intros ->]. Qed.

(** * Rounding a real number that is not negative to an integer *)

(** [n] is [x], the magnitude of a number with sign [neg], rounded as [rm]
    says. *)
Definition rounds (rm : RoundingMode) (neg : bool) (x : R) (n : Z) : Prop :=
  let down := IZR n <= x < IZR n + 1 in
  let up := IZR n - 1 < x <= IZR n in
  match rm with
  | RM_RTZ => down
  | RM_RDN => if neg then up else down
  | RM_RUP => if neg then down else up
  | RM_RNE => Rabs (x - IZR n) <= / 2 /\ (Rabs (x - IZR n) = / 2 -> Z.Even n)
  | RM_RMM => Rabs (x - IZR n) <= / 2 /\ (Rabs (x - IZR n) = / 2 -> x < IZR n)
  end.

Lemma IZR_near n n' : Rabs (IZR n - IZR n') < 1 -> n = n'.
Proof.
  rewrite <- minus_IZR, <- abs_IZR. intros Hl. apply lt_IZR in Hl. lia.
Qed.

Lemma half_both x a b : Rabs (x - a) <= / 2 -> Rabs (x - b) <= / 2 ->
  Rabs (a - b) < 1 \/ Rabs (x - a) = / 2 /\ Rabs (x - b) = / 2 /\ Rabs (a - b) = 1.
Proof.
  unfold Rabs. destruct (Rcase_abs (x - a)), (Rcase_abs (x - b)), (Rcase_abs (a - b)); lra.
Qed.

(** There is one such integer. *)
Lemma rounds_unique rm neg x n n' : rounds rm neg x n -> rounds rm neg x n' -> n = n'.
Proof.
  assert (Hdir : forall a b : R, a - 1 < b < a + 1 -> Rabs (a - b) < 1) by (intros; apply Rabs_def1; lra).
  destruct rm; cbn [rounds]; try (destruct neg; intros ? ?; apply IZR_near, Hdir; lra).
  - intros [Ha Ea] [Hb Eb]. destruct (half_both _ _ _ Ha Hb) as [|(E1 & E2 & E3)]; [by apply IZR_near|].
    rewrite <- minus_IZR, <- abs_IZR in E3. apply eq_IZR in E3.
    destruct (Ea E1) as [i ->], (Eb E2) as [j ->]. lia.
  - intros [Ha Ea] [Hb Eb]. destruct (half_both _ _ _ Ha Hb) as [|(E1 & E2 & E3)]; [by apply IZR_near|].
    specialize (Ea E1). specialize (Eb E2). apply IZR_near.
    rewrite Rabs_left in E1 by lra. rewrite Rabs_left in E2 by lra.
    replace (IZR n - IZR n') with 0 by lra. rewrite Rabs_R0. lra.
Qed.

(** * The formats *)

Definition signed (neg : bool) (x : R) : R := if neg then - x else x.

Section Spec.
Context (F : Z).

Definition BIAS : Z := (EXP_MASK F / 2)%Z.
(** The digits of a normal number. *)
Definition PREC : Z := (MANT_SIZE F + 1)%Z.
(** The unit of the subnormal numbers is [2 ^ QMIN]. *)
Definition QMIN : Z := (1 - BIAS - MANT_SIZE F)%Z.

Definition finite (a : Z) : Prop := inw F a /\ f_exp F a <> EXP_MASK F.

(** The magnitude of a finite float: its significand and the power of two of
    its unit. *)
Definition fsig (a : Z) : Z :=
  if (f_exp F a =? 0)%Z then f_mant F a else (2 ^ MANT_SIZE F + f_mant F a)%Z.
Definition funit (a : Z) : Z := (Z.max (f_exp F a) 1 - BIAS - MANT_SIZE F)%Z.
Definition fmag (a : Z) : R := IZR (fsig a) * bpow (funit a).
Definition fneg (a : Z) : bool := nz (f_sign F a).
(** Its value. *)
Definition fval (a : Z) : R := signed (fneg a) (fmag a).

(** A NaN, and one that signals: the top bit of its mantissa is clear. *)
Definition nan (a : Z) : bool := (f_exp F a =? EXP_MASK F)%Z && negb (f_mant F a =? 0)%Z.
Definition signals (a : Z) : bool := nan a && negb (Z.testbit a (MANT_SIZE F - 1)).
Definition inf (a : Z) : bool := (f_exp F a =? EXP_MASK F)%Z && (f_mant F a =? 0)%Z.
Definition raise (f : Z) (b : bool) (fl : Z) : Z := if b then Z.lor fl f else fl.

(** [r] is the finite float with this sign and magnitude. *)
Definition is_float (neg : bool) (x : R) (r : Z) : Prop :=
  finite r /\ f_sign F r = Z_of_bool neg /\ fmag r = x.

(** The unit of the last digit kept of a magnitude. *)
Definition quantum (x : R) (q : Z) : Prop :=
  q = QMIN /\ x < bpow (QMIN + PREC) \/
  (QMIN < q)%Z /\ bpow (q + PREC - 1) <= x < bpow (q + PREC).

(** Rounded to [PREC] digits as if the exponent had no lower bound, the
    magnitude is below the normal numbers. *)
Definition tiny (rm : RoundingMode) (neg : bool) (x : R) : Prop :=
  exists q n, bpow (q + PREC - 1) <= x < bpow (q + PREC) /\ rounds rm neg (x * bpow (- q)) n /\
    IZR n * bpow q < bpow (1 - BIAS).

(** The results that do not round to a finite float. *)
Definition to_zero (rm : RoundingMode) (neg : bool) : bool :=
  match rm with
  | RM_RNE | RM_RMM => false
  | RM_RTZ => true
  | RM_RDN => negb neg
  | RM_RUP => neg
  end.
Definition infinity (neg : bool) : Z := pack_sf F (Z_of_bool neg) (EXP_MASK F) 0.
Definition max_float (neg : bool) : Z := pack_sf F (Z_of_bool neg) (EXP_MASK F - 1) (MANT_MASK F).

(** [r] and the flags [raised] are what the magnitude [x] with the sign [neg]
    rounds to. *)
Inductive rounded (rm : RoundingMode) (neg : bool) (x : R) (r raised : Z) : Prop :=
| rounded_finite q n : quantum x q -> rounds rm neg (x * bpow (- q)) n ->
    IZR n * bpow q < bpow (BIAS + 1) -> is_float neg (IZR n * bpow q) r ->
    (x = IZR n * bpow q /\ raised = 0%Z \/
     x <> IZR n * bpow q /\ (tiny rm neg x /\ raised = Z.lor FFLAG_UNDERFLOW FFLAG_INEXACT \/
                             ~ tiny rm neg x /\ raised = FFLAG_INEXACT)) ->
    rounded rm neg x r raised
| rounded_overflow q n : quantum x q -> rounds rm neg (x * bpow (- q)) n ->
    bpow (BIAS + 1) <= IZR n * bpow q ->
    r = (if to_zero rm neg then max_float neg else infinity neg) ->
    raised = Z.lor FFLAG_OVERFLOW FFLAG_INEXACT -> rounded rm neg x r raised.

(** An operation returned, with the flags it was given, what a magnitude
    rounds to. *)
Definition correctly_rounded (rm : RoundingMode) (fl : Z) (neg : bool) (x : R) (res : Z * Z) : Prop :=
  exists r raised, res = (r, Z.lor fl raised) /\ rounded rm neg x r raised.

(** An operation returned what the sum [v] of two numbers with the signs [na]
    and [nb] rounds to; a sum that is zero has their sign if they agree, and is
    negative only when rounding down if they do not. *)
Definition correct_sum (rm : RoundingMode) (fl : Z) (na nb : bool) (v : R) (res : Z * Z) : Prop :=
  exists neg x, v = signed neg x /\ 0 <= x /\
    (x = 0 -> neg = if eqb na nb then na else bool_decide (rm = RM_RDN)) /\
    correctly_rounded rm fl neg x res.
End Spec.

(** * Integers with a sticky bit *)

(** [m] stands for [y]: it is [y], or its lowest set bit is at [t] and [y] lies
    within that bit's reach. *)
Definition near (t : Z) (y : R) (m : Z) : Prop :=
  y = IZR m \/
  exists j, m = ((2 * j + 1) * 2 ^ t)%Z /\ IZR (2 * j * 2 ^ t) < y < IZR ((2 * j + 2) * 2 ^ t).

Lemma near_exact t m : near t (IZR m) m.
Proof. by left. Qed.

(** It compares as [y] does with everything coarser than the sticky bit. *)
Lemma near_cmp t y m b : (0 <= t)%Z -> near t y m -> (2 ^ (t + 1) | b)%Z ->
  (y < IZR b <-> (m < b)%Z) /\ (y = IZR b <-> m = b) /\ (IZR b < y <-> (b < m)%Z).
Proof.
  intros Ht [-> | (j & -> & Hlo & Hhi)] [c ->].
  { split_and!; (split; [first [apply lt_IZR | apply eq_IZR]|first [apply IZR_lt | by intros ->]]). }
  rewrite Z.pow_add_r by lia. change (2 ^ 1)%Z with 2%Z.
  pose proof (pow2_pos t Ht) as Hp. destruct (Z.lt_ge_cases j c) as [Hj | Hj].
  - assert (IZR ((2 * j + 2) * 2 ^ t) <= IZR (c * (2 ^ t * 2))) by (apply IZR_le; nia).
    split_and!; (split; [try lra; intros _; nia|try (intros _; lra)]); intros; nia.
  - assert (IZR (c * (2 ^ t * 2)) <= IZR (2 * j * 2 ^ t)) by (apply IZR_le; nia).
    split_and!; (split; [try lra; intros _; nia|try (intros _; lra)]); intros; nia.
Qed.

(** [m] rounded to a multiple [n * 2 * h] of [2 * h]. *)
Definition rounds_Z (rm : RoundingMode) (neg : bool) (h m n : Z) : Prop :=
  let k := (2 * h)%Z in
  let down := (n * k <= m < (n + 1) * k)%Z in
  let up := ((n - 1) * k < m <= n * k)%Z in
  match rm with
  | RM_RTZ => down
  | RM_RDN => if neg then up else down
  | RM_RUP => if neg then down else up
  | RM_RNE => (n * k - h <= m <= n * k + h)%Z /\ (m = n * k - h \/ m = n * k + h -> Z.Even n)%Z
  | RM_RMM => (n * k - h <= m < n * k + h)%Z
  end.

Lemma half_between y n k : (1 <= k)%Z ->
  (Rabs (y * bpow (- k) - IZR n) <= / 2 <->
   IZR (n * 2 ^ k - 2 ^ (k - 1)) <= y <= IZR (n * 2 ^ k + 2 ^ (k - 1))) /\
  (Rabs (y * bpow (- k) - IZR n) = / 2 <->
   y = IZR (n * 2 ^ k - 2 ^ (k - 1)) \/ y = IZR (n * 2 ^ k + 2 ^ (k - 1))).
Proof.
  intros Hk. rewrite plus_IZR, minus_IZR, mult_IZR, <- !bpow_IZR by lia.
  rewrite (bpow_split k (k - 1)). replace (k - (k - 1))%Z with 1%Z by lia. change (bpow 1) with (2 * 1).
  assert (bpow (- k) = / 2 * / bpow (k - 1)) as ->.
  { replace (- k)%Z with (- 1 + - (k - 1))%Z by lia. rewrite bpow_plus, bpow_neg.
    f_equal. change (bpow (-1)) with (/ (2 * 1)). by rewrite Rmult_1_r. }
  pose proof (bpow_pos (k - 1)) as Hp. set (h := bpow (k - 1)) in *.
  assert (y * (/ 2 * / h) = y / (2 * h)) as -> by (field; lra).
  assert (y = y / (2 * h) * (2 * h)) as Hy by (field; lra).
  set (z := y / (2 * h)) in *. clearbody z h. subst y. 
  unfold Rabs. destruct (Rcase_abs (z - IZR n)); split; split; intros; nra.
Qed.

Lemma scaled_between y n k : (0 <= k)%Z ->
  (IZR n <= y * bpow (- k) <-> IZR (n * 2 ^ k) <= y) /\
  (y * bpow (- k) <= IZR n <-> y <= IZR (n * 2 ^ k)) /\
  (IZR n = y * bpow (- k) <-> IZR (n * 2 ^ k) = y).
Proof.
  intros Hk. rewrite mult_IZR, <- !bpow_IZR, bpow_neg by lia.
  pose proof (bpow_pos k) as Hp. set (K := bpow k) in *.
  assert (y = y * / K * K) as Hy by (field; lra).
  set (z := y * / K) in *. clearbody z K. subst y. split_and!; split; intros; nra.
Qed.

Section Near.
Context (t : Z) (y : R) (m k : Z) (Ht : (0 <= t)%Z) (Hk : (t + 2 <= k)%Z) (Hm : near t y m).

(** Comparisons with multiples of half the unit of rounding. *)
Lemma near_half b c : b = (c * 2 ^ (k - 1))%Z ->
  (y < IZR b <-> (m < b)%Z) /\ (y = IZR b <-> m = b) /\ (IZR b < y <-> (b < m)%Z).
Proof using Ht Hk Hm.
  intros ->. apply (near_cmp t); [done..|]. apply Z.divide_mul_r.
  exists (2 ^ (k - 1 - (t + 1)))%Z. rewrite <- Z.pow_add_r by lia. f_equal. lia.
Qed.

Lemma near_unit n : let b := (n * (2 * 2 ^ (k - 1)))%Z in
  (IZR n <= y * bpow (- k) <-> (b <= m)%Z) /\ (y * bpow (- k) <= IZR n <-> (m <= b)%Z) /\
  (IZR n = y * bpow (- k) <-> m = b).
Proof using Ht Hk Hm.
  cbv zeta. destruct (scaled_between y n k ltac:(lia)) as (S1 & S2 & S3). rewrite S1, S2, S3.
  rewrite (pow2_half k) by lia.
  destruct (near_half (n * (2 * 2 ^ (k - 1))) (2 * n) ltac:(lia)) as (C1 & C2 & C3).
  split_and!.
  - rewrite <- Z.nlt_ge, <- C1. split; [apply Rle_not_lt|apply Rnot_lt_le].
  - rewrite <- Z.nlt_ge, <- C3. split; [apply Rle_not_lt|apply Rnot_lt_le].
  - rewrite <- C2. done.
Qed.

Lemma near_tie n : let b := (n * (2 * 2 ^ (k - 1)))%Z in
  let h := (2 ^ (k - 1))%Z in
  (Rabs (y * bpow (- k) - IZR n) <= / 2 <-> (b - h <= m <= b + h)%Z) /\
  (Rabs (y * bpow (- k) - IZR n) = / 2 <-> m = (b - h)%Z \/ m = (b + h)%Z).
Proof using Ht Hk Hm.
  cbv zeta. destruct (half_between y n k ltac:(lia)) as [-> ->]. rewrite (pow2_half k) by lia.
  destruct (near_half (n * (2 * 2 ^ (k - 1)) - 2 ^ (k - 1)) (2 * n - 1) ltac:(lia)) as (C1 & -> & _).
  destruct (near_half (n * (2 * 2 ^ (k - 1)) + 2 ^ (k - 1)) (2 * n + 1) ltac:(lia)) as (_ & -> & D3).
  split; [|done]. rewrite <- !Z.nlt_ge, <- C1, <- D3.
  split; intros [? ?]; split; (by apply Rle_not_lt) || by apply Rnot_lt_le.
Qed.

(** Rounding [m] rounds what it stands for. *)
Lemma rounds_near rm neg n : rounds_Z rm neg (2 ^ (k - 1)) m n -> rounds rm neg (y * bpow (- k)) n.
Proof using Ht Hk Hm.
  destruct (near_unit n) as (U1 & U2 & _). destruct (near_unit (n + 1)) as (V1 & _).
  destruct (near_unit (n - 1)) as (_ & W2 & _). destruct (near_tie n) as (T1 & T2).
  pose proof (pow2_pos (k - 1) ltac:(lia)). rewrite plus_IZR in V1. rewrite minus_IZR in W2.
  assert (Hdown : (n * (2 * 2 ^ (k - 1)) <= m < (n + 1) * (2 * 2 ^ (k - 1)))%Z ->
    IZR n <= y * bpow (- k) < IZR n + 1).
  { intros [? ?]. split; [by apply U1|]. apply Rnot_le_lt. rewrite V1. lia. }
  assert (Hup : ((n - 1) * (2 * 2 ^ (k - 1)) < m <= n * (2 * 2 ^ (k - 1)))%Z ->
    IZR n - 1 < y * bpow (- k) <= IZR n).
  { intros [? ?]. split; [|by apply U2]. apply Rnot_le_lt. rewrite W2. lia. }
  unfold rounds_Z, rounds. cbv zeta. destruct rm; try (destruct neg; done).
  - rewrite T1, T2. tauto.
  - rewrite T1, T2. intros [? ?]. split; [lia|]. intros Htie. apply Rnot_le_lt. rewrite U1. lia.
Qed.
End Near.

(** Operations that keep [near]: scaling up, and the shift that keeps a sticky
    bit. *)
Lemma near_shiftl t y m s : (0 <= t)%Z -> (0 <= s)%Z -> near t y m ->
  near (t + s) (y * bpow s) (m * 2 ^ s).
Proof.
  intros Ht Hs [-> | (j & -> & Hlo & Hhi)].
  - left. by rewrite mult_IZR, bpow_IZR.
  - right. exists j. rewrite Z.pow_add_r by lia. split; [lia|].
    rewrite !Z.mul_assoc, !(mult_IZR _ (2 ^ s)), <- bpow_IZR by lia. by rewrite !scale_lt.
Qed.

Lemma near_nonneg y m : near 0 y m -> (0 <= m)%Z -> 0 <= y.
Proof.
  intros Hn Hm. destruct (near_cmp 0 y m 0 ltac:(lia) Hn (Z.divide_0_r _)) as (C & _).
  apply Rnot_lt_le. rewrite C. lia.
Qed.

(** With a number that is even, and exact. *)
Lemma near_add y m c : near 0 y m -> near 0 (IZR (2 * c) + y) (2 * c + m).
Proof.
  intros [-> | (j & -> & Hlo & Hhi)]; [left; by rewrite plus_IZR|]. rewrite !Z.mul_1_r in *.
  right. exists (c + j)%Z. rewrite !Z.mul_1_r. split; [lia|].
  rewrite Z.mul_add_distr_l, !plus_IZR in *. lra.
Qed.

Lemma near_sub y m c : near 0 y m -> near 0 (IZR (2 * c) - y) (2 * c - m).
Proof.
  intros [-> | (j & -> & Hlo & Hhi)]; [left; by rewrite minus_IZR|]. rewrite !Z.mul_1_r in *.
  right. exists (c - j - 1)%Z. rewrite !Z.mul_1_r. split; [lia|].
  replace (2 * (c - j - 1))%Z with (2 * c - (2 * j + 2))%Z by lia.
  replace (2 * c - (2 * j + 2) + 2)%Z with (2 * c - 2 * j)%Z by lia. rewrite !minus_IZR. lra.
Qed.

Lemma near_weaken t y m : (0 <= t)%Z -> near 0 y m -> Z.Even m -> near t y m.
Proof.
  intros Ht [-> | (j & -> & _)] [i Hi]; [by left|]. lia.
Qed.

(** [m] divided by [2 ^ d], the remainder kept as a sticky bit. *)
Definition div_sticky (m d : Z) : Z :=
  if (m mod 2 ^ d =? 0)%Z then (m / 2 ^ d)%Z else (2 * (m / 2 ^ d / 2) + 1)%Z.

Lemma lor_1 x : Z.lor x 1 = (2 * (x / 2) + 1)%Z.
Proof.
  bits_at i Hi. rewrite Z.lor_spec. destruct (Z.eq_dec i 0) as [-> | Hn].
  - rewrite !Z.bit0_odd, Z.odd_add, Z.odd_mul. cbn. by rewrite orb_true_r.
  - replace i with (Z.succ (i - 1)) by lia. rewrite (Z.testbit_odd_succ (x / 2)) by lia.
    change 1%Z with (2 * 0 + 1)%Z at 1. rewrite (Z.testbit_odd_succ 0), Z.bits_0, orb_false_r by lia.
    by rewrite <- Z.div2_div, Z.div2_spec, Z.shiftr_spec by lia.
Qed.

Lemma rshift_rnd_div F m d : (0 <= d)%Z -> (0 < F)%Z -> inw F m -> rshift_rnd F m d = div_sticky m d.
Proof.
  intros Hd HF Hm. unfold rshift_rnd, div_sticky.
  destruct (Z.eqb_spec d 0) as [-> |].
  { by rewrite Z.mod_1_r, Z.div_1_r. }
  destruct (Z.leb_spec F d).
  - assert (2 ^ F <= 2 ^ d)%Z by (apply Z.pow_le_mono_r; lia). unfold inw in Hm.
    rewrite Z.mod_small, Z.div_small by lia. unfold nz. by destruct (m =? 0)%Z.
  - replace (Z.shiftl 1 d - 1)%Z with (Z.ones d) by (rewrite Z.ones_equiv, Z.shiftl_1_l; lia).
    rewrite Z.land_ones, Z.shiftr_div_pow2 by lia. unfold nz.
    destruct (Z.eqb_spec (m mod 2 ^ d) 0); cbn [negb Z_of_bool]; [apply Z.lor_0_r|apply lor_1].
Qed.

(** A sticky bit below [d] makes a remainder. *)
Lemma sticky_rem j t d : (0 <= t)%Z -> (t < d)%Z -> (((2 * j + 1) * 2 ^ t) mod 2 ^ d <> 0)%Z.
Proof.
  intros Ht Hd E. apply Z.mod_divide in E as [q Hq]; [|pose proof (pow2_pos d); lia].
  replace d with (t + (1 + (d - t - 1)))%Z in Hq by lia. rewrite !Z.pow_add_r in Hq by lia.
  pose proof (pow2_pos t Ht).
  assert (2 * j + 1 = 2 * (q * 2 ^ (d - t - 1)))%Z; [|lia].
  apply (Z.mul_reg_r _ _ (2 ^ t)); lia.
Qed.

Lemma scale_back y d : y * bpow (- d) * bpow d = y.
Proof. rewrite bpow_neg. field. apply bpow_nz. Qed.

Lemma unscale x a q : x = a * bpow q <-> a = x * bpow (- q).
Proof. rewrite <- (scale_eq a _ q), scale_back. split; congruence. Qed.

Lemma near_div_exact t y m d : (0 <= t)%Z -> (0 <= d)%Z -> near t y m -> (m mod 2 ^ d = 0)%Z ->
  exists t', (0 <= t' <= t)%Z /\ near t' (y * bpow (- d)) (m / 2 ^ d).
Proof.
  intros Ht Hd Hm E. pose proof (pow2_pos d Hd) as Hp.
  pose proof (Z.div_exact m (2 ^ d) ltac:(lia)) as [_ Hx]. specialize (Hx E).
  destruct Hm as [-> | (j & Hj & Hlo & Hhi)].
  - exists 0%Z. split; [lia|]. left. apply (scale_eq _ _ d). rewrite scale_back, bpow_IZR, <- mult_IZR by lia.
    f_equal. lia.
  - assert (d <= t)%Z.
    { destruct (Z.le_gt_cases d t) as [|Hg]; [done|exfalso]. subst m. by apply (sticky_rem j t d). }
    exists (t - d)%Z. split; [lia|]. right. exists j.
    assert (Hpt : (2 ^ t = 2 ^ (t - d) * 2 ^ d)%Z) by (rewrite <- Z.pow_add_r by lia; f_equal; lia).
    split; [apply (Z.mul_reg_r _ _ (2 ^ d)); lia|].
    rewrite Hpt, Z.mul_assoc, (mult_IZR _ (2 ^ d)), <- bpow_IZR in Hlo by lia.
    rewrite Hpt, Z.mul_assoc, (mult_IZR _ (2 ^ d)), <- bpow_IZR in Hhi by lia.
    by rewrite <- (scale_lt _ _ d), <- (scale_lt (y * bpow (- d)) _ d), scale_back.
Qed.

Lemma near_div t y m d : (0 <= t)%Z -> (0 <= d)%Z -> near t y m ->
  exists t', (0 <= t' <= t)%Z /\ near t' (y * bpow (- d)) (div_sticky m d).
Proof.
  intros Ht Hd Hm. unfold div_sticky. destruct (Z.eqb_spec (m mod 2 ^ d) 0) as [E | E];
    [by apply near_div_exact|].
  assert (exists t0, (0 <= t0 <= d)%Z /\ near t0 y m) as (t0 & Ht0 & Hm0).
  { destruct Hm as [-> | (j & -> & Hb)]; [exists 0%Z; split; [lia|apply near_exact]|].
    exists t. split; [|right; by exists j]. split; [done|].
    destruct (Z.le_gt_cases t d) as [|Hg]; [done|]. exfalso. apply E. apply Z.mod_divide; [pose proof (pow2_pos d); lia|].
    replace t with (t - d + d)%Z by lia. rewrite Z.pow_add_r by lia. apply Z.divide_mul_r, Z.divide_mul_r, Z.divide_refl. }
  exists 0%Z. split; [lia|]. right. exists (m / 2 ^ d / 2)%Z. rewrite !Z.mul_1_r. split; [done|].
  rewrite <- (scale_lt _ _ d), <- (scale_lt (y * bpow (- d)) _ d), scale_back, bpow_IZR, <- !mult_IZR by lia.
  assert (Hdiv : forall c, (2 ^ (t0 + 1) | 2 * c * 2 ^ d)%Z).
  { intros c. exists (c * 2 ^ (d - t0))%Z. replace d with (t0 + (d - t0))%Z at 1 by lia.
    rewrite !Z.pow_add_r by lia. lia. }
  pose proof (pow2_pos d Hd). pose proof (Z.div_mod m (2 ^ d) ltac:(lia)).
  pose proof (Z.mod_pos_bound m (2 ^ d) ltac:(lia)). pose proof (Z.div_mod (m / 2 ^ d) 2 ltac:(lia)).
  pose proof (Z.mod_pos_bound (m / 2 ^ d) 2 ltac:(lia)).
  split.
  - apply (near_cmp t0 y m (2 * (m / 2 ^ d / 2) * 2 ^ d)); [lia|done|done|nia].
  - replace (2 * (m / 2 ^ d / 2) + 2)%Z with (2 * (m / 2 ^ d / 2 + 1))%Z by lia.
    apply (near_cmp t0 y m); [lia|done|done|nia].
Qed.

(** A quotient, with a sticky bit for its remainder. *)
Lemma near_quot n d : (0 < d)%Z ->
  near 0 (IZR n / IZR d) (if (n mod d =? 0)%Z then (n / d)%Z else Z.lor (n / d) 1).
Proof.
  intros Hd. assert (0 < IZR d) as HdR by (by apply (IZR_lt 0)).
  pose proof (Z.div_mod n d ltac:(lia)) as D. pose proof (Z.mod_pos_bound n d Hd) as B.
  destruct (Z.eqb_spec (n mod d) 0) as [E | E].
  - left. rewrite D at 1. rewrite E, Z.add_0_r, mult_IZR. field. lra.
  - right. exists (n / d / 2)%Z. rewrite lor_1, !Z.mul_1_r. split; [done|].
    pose proof (Z.div_mod (n / d) 2 ltac:(lia)). pose proof (Z.mod_pos_bound (n / d) 2 ltac:(lia)).
    assert (IZR n / IZR d * IZR d = IZR n) as En by (field; lra).
    split; (apply (Rmult_lt_reg_r (IZR d)); [done|]); rewrite En, <- mult_IZR; apply IZR_lt; nia.
Qed.
