(* ===== verification/SoftfpRound.v ===== *)
(** Rounding and packing ([round_pack_sf] and [normalize_sf] of
    [src/lib/softfp/softfp_template.h]): a mantissa that stands for a real
    number, with an exponent, becomes the float and the flags that number
    rounds to. *)

From stdpp Require Import base numbers list.
From Stdlib Require Import Reals Lra Lia.
From S2P Require Import Prelude Bits Cutils Softfp SoftfpSpec.
Local Open Scope Z_scope.

Definition valid_F (F : Z) : Prop := F = 32 \/ F = 64 \/ F = 128.

Section Round.
Context (F : Z) (HF : valid_F F).
Notation M := (MANT_SIZE F).
Notation RND := (RND_SIZE F).

(** The sizes of the formats. *)
Lemma format_sizes : F = M + EXP_SIZE F + 1 /\ RND = EXP_SIZE F - 1 /\ 23 <= M /\ 8 <= EXP_SIZE F.
Proof using HF. destruct HF as [-> | [-> | ->]]; vm_compute; split_and!; congruence. Qed.

Lemma bias_mask : EXP_MASK F = 2 * BIAS F + 1 /\ BIAS F = 2 ^ (EXP_SIZE F - 1) - 1 /\ 127 <= BIAS F.
Proof using HF. destruct HF as [-> | [-> | ->]]; vm_compute; split_and!; congruence. Qed.

Lemma pow_F : 2 ^ F = 2 * (2 ^ EXP_SIZE F * 2 ^ M).
Proof using HF.
  destruct format_sizes as (HE & _ & HM & HX). replace (2 ^ F) with (2 ^ (1 + (EXP_SIZE F + M))) by (f_equal; lia).
  rewrite !Z.pow_add_r by lia. done.
Qed.

(** * The fields of a packed float *)

Lemma pack_sum (neg : bool) e m : 0 <= e <= EXP_MASK F ->
  pack_sf F (Z_of_bool neg) e m = (Z_of_bool neg * 2 ^ EXP_SIZE F + e) * 2 ^ M + m mod 2 ^ M.
Proof using HF.
  intros He. destruct format_sizes as (HE & _ & HM & HX). unfold EXP_MASK in He.
  pose proof pow_F as Hp.
  assert (Hp1 : 2 ^ (F - 1) = 2 ^ EXP_SIZE F * 2 ^ M).
  { replace (F - 1) with (M + EXP_SIZE F) by lia. rewrite Z.pow_add_r by lia. lia. }
  pose proof (pow2_pos M ltac:(lia)). pose proof (pow2_pos (EXP_SIZE F) ltac:(lia)).
  unfold pack_sf, MANT_MASK. replace (2 ^ M - 1) with (Z.ones M) by (rewrite Z.ones_equiv; lia).
  rewrite Z.land_ones, !Z.shiftl_mul_pow2 by lia.
  rewrite !uw_small by (unfold inw; destruct neg; cbn [Z_of_bool]; nia).
  rewrite (lor_mul_pow2 (F - 1)) by (unfold inw; lia || nia).
  replace (Z_of_bool neg * 2 ^ (F - 1) + e * 2 ^ M) with ((Z_of_bool neg * 2 ^ EXP_SIZE F + e) * 2 ^ M)
    by (rewrite Hp1; lia).
  apply lor_mul_pow2; [lia|]. apply inw_uw. lia.
Qed.

Lemma pack_fields (neg : bool) e m : 0 <= e <= EXP_MASK F ->
  let r := pack_sf F (Z_of_bool neg) e m in
  inw F r /\ f_sign F r = Z_of_bool neg /\ f_exp F r = e /\ f_mant F r = m mod 2 ^ M.
Proof using HF.
  intros He r. unfold r. rewrite pack_sum by done. destruct format_sizes as (HE & _ & HM & HX).
  pose proof (pow2_pos M ltac:(lia)) as PM. pose proof (pow2_pos (EXP_SIZE F) ltac:(lia)) as PE.
  pose proof (Z.mod_pos_bound m (2 ^ M) PM) as Hm.
  unfold f_sign, f_exp, f_mant, MANT_MASK, EXP_MASK in *.
  replace (2 ^ M - 1) with (Z.ones M) by (rewrite Z.ones_equiv; lia).
  replace (2 ^ EXP_SIZE F - 1) with (Z.ones (EXP_SIZE F)) by (rewrite Z.ones_equiv; lia).
  rewrite !Z.land_ones, !Z.shiftr_div_pow2 by lia. replace (F - 1) with (M + EXP_SIZE F) by lia.
  rewrite Z.pow_add_r, <- Z.div_div by lia.
  set (x := m mod 2 ^ M) in *. set (s := Z_of_bool neg * 2 ^ EXP_SIZE F + e).
  assert ((s * 2 ^ M + x) / 2 ^ M = s) as -> by (rewrite Z.div_add_l, Z.div_small by lia; lia).
  assert ((s * 2 ^ M + x) mod 2 ^ M = x) as ->.
  { rewrite Z.add_comm, Z_mod_plus_full. by apply Z.mod_small. }
  unfold s. rewrite Z.div_add_l, Z.div_small by lia.
  rewrite (Z.add_comm _ e), Z_mod_plus_full, Z.mod_small by lia.
  split_and!; [|lia|done|done]. unfold inw.
  replace (2 ^ F) with (2 * 2 ^ EXP_SIZE F * 2 ^ M).
  - destruct neg; cbn [Z_of_bool]; nia.
  - rewrite pow_F. lia.
Qed.

(** * Rounding the bits below the mantissa *)

(** The rounded mantissa, as the code has it. *)
Definition rnd_mant (neg : bool) (rm : RoundingMode) (m : Z) : Z :=
  let a_mant := Z.shiftr (uw F (m + rnd_addend F (Z_of_bool neg) rm)) RND in
  if bool_decide (rm = RM_RNE) && (Z.land m (Z.shiftl 1 RND - 1) =? Z.shiftl 1 (RND - 1))
  then Z.ldiff a_mant 1 else a_mant.

Lemma low_bits m k : 0 <= k -> Z.land m (Z.shiftl 1 k - 1) = m mod 2 ^ k.
Proof.
  intros. rewrite Z.shiftl_1_l, <- Z.land_ones, Z.ones_equiv by lia. done.
Qed.

Lemma ldiff_1 x : Z.ldiff x 1 = 2 * (x / 2).
Proof.
  change 1 with (Z.ones 1). rewrite Z.ldiff_ones_r, Z.shiftl_mul_pow2, Z.shiftr_div_pow2 by lia.
  change (2 ^ 1) with 2. lia.
Qed.

Lemma addend_value neg rm : 0 <= RND - 1 -> rnd_addend F (Z_of_bool neg) rm =
  match rm with
  | RM_RNE | RM_RMM => 2 ^ (RND - 1)
  | RM_RTZ => 0
  | RM_RDN => if neg then 2 ^ RND - 1 else 0
  | RM_RUP => if neg then 0 else 2 ^ RND - 1
  end.
Proof. intros. unfold rnd_addend. rewrite !Z.shiftl_1_l by lia. by destruct rm, neg. Qed.

Lemma rnd_mant_rounds neg rm m : 0 <= m -> m + 2 ^ RND <= 2 ^ F ->
  rounds_Z rm neg (2 ^ (RND - 1)) m (rnd_mant neg rm m).
Proof using HF.
  intros Hm Hb. destruct format_sizes as (_ & HR & _ & HX).
  pose proof (pow2_pos (RND - 1) ltac:(lia)) as Hh. pose proof (pow2_half RND ltac:(lia)) as HK.
  unfold rnd_mant. rewrite low_bits, Z.shiftl_1_l, addend_value by lia.
  rewrite uw_small, Z.shiftr_div_pow2, ldiff_1 by (unfold inw; destruct rm, neg; lia).
  rewrite HK in *. set (h := 2 ^ (RND - 1)) in *. clearbody h. clear HK Hb. unfold rounds_Z. cbv zeta.
  pose proof (Z.div_mod m (2 * h) ltac:(lia)) as D. pose proof (Z.mod_pos_bound m (2 * h) ltac:(lia)) as B.
  set (q := m / (2 * h)) in *. set (r := m mod (2 * h)) in *. clearbody q r. subst m.
  assert (HQ : forall a, 0 <= a < 2 * h -> (2 * h * q + r + a) / (2 * h) = if 2 * h <=? r + a then q + 1 else q).
  { intros a Ha. destruct (Z.leb_spec (2 * h) (r + a)).
    - symmetry. apply (Z.div_unique_pos _ _ _ (r + a - 2 * h)); lia.
    - symmetry. apply (Z.div_unique_pos _ _ _ (r + a)); lia. }
  destruct rm; cbn [andb bool_decide]; rewrite HQ by (destruct neg; lia).
  - case_bool_decide; [|done]. cbn [andb]. destruct (Z.eqb_spec r h) as [-> |].
    + rewrite (proj2 (Z.leb_le _ _)) by lia. pose proof (Z.div_mod (q + 1) 2 ltac:(lia)).
      pose proof (Z.mod_pos_bound (q + 1) 2 ltac:(lia)). split; [nia|]. intros _. by exists ((q + 1) / 2).
    + case_cmp; (split; [nia|intros; nia]).
  - case_bool_decide; [done|]. case_cmp; cbn [andb]; nia.
  - case_bool_decide; [done|]. destruct neg; case_cmp; cbn [andb]; nia.
  - case_bool_decide; [done|]. destruct neg; case_cmp; cbn [andb]; nia.
  - case_bool_decide; [done|]. case_cmp; cbn [andb]; nia.
Qed.

Lemma rounds_Z_bounds rm neg h m n a b : 0 < h -> rounds_Z rm neg h m n ->
  a * (2 * h) <= m <= b * (2 * h) -> a <= n <= b.
Proof.
  intros Hh Hr Hab. unfold rounds_Z in Hr. cbv zeta in Hr. destruct rm, neg; split; nia.
Qed.

Lemma rounds_Z_exact rm neg h m n : 0 < h -> rounds_Z rm neg h m n ->
  (m mod (2 * h) = 0 <-> m = n * (2 * h)).
Proof.
  intros Hh Hr. split; [|intros ->; by apply Z.mod_mul; lia].
  intros E. apply Z.mod_divide in E as [c ->]; [|lia].
  pose proof (rounds_Z_bounds _ _ _ _ _ c c Hh Hr ltac:(lia)). assert (c = n) as -> by lia. done.
Qed.

(** * Packing *)

(** The end of [round_pack_sf]: the mantissa [n] is rounded. *)
Definition pack_rounded (neg : bool) (rm : RoundingMode) (e n fl : Z) : Z * Z :=
  let a_exp := e + Z.shiftr n (M + 1) in
  if n <=? MANT_MASK F then (pack_sf F (Z_of_bool neg) 0 n, fl)
  else if EXP_MASK F <=? a_exp then
    (if rnd_addend F (Z_of_bool neg) rm =? 0 then max_float F neg else infinity F neg,
     Z.lor fl (Z.lor FFLAG_OVERFLOW FFLAG_INEXACT))
  else (pack_sf F (Z_of_bool neg) a_exp n, fl).

Lemma fmag_pack neg e m : 0 <= e < EXP_MASK F ->
  is_float F neg (IZR (if e =? 0 then m mod 2 ^ M else 2 ^ M + m mod 2 ^ M) *
    bpow (Z.max e 1 - BIAS F - M)) (pack_sf F (Z_of_bool neg) e m).
Proof using HF.
  intros He. destruct (pack_fields neg e m ltac:(lia)) as (Hw & Hs & Hee & Hm).
  split_and!; [split; [done|lia]|done|]. unfold fmag, fsig, funit. by rewrite Hee, Hm.
Qed.

Lemma addend_to_zero neg rm : (rnd_addend F (Z_of_bool neg) rm =? 0) = to_zero rm neg.
Proof using HF.
  destruct format_sizes as (_ & HR & _ & HX). rewrite addend_value by lia.
  pose proof (pow2_pos (RND - 1) ltac:(lia)). pose proof (pow2_half RND ltac:(lia)).
  destruct rm, neg; cbn [to_zero negb]; lia.
Qed.

Lemma mag_lt n a b : 0 <= a -> n < 2 ^ a -> (IZR n * bpow b < bpow (a + b))%R.
Proof. intros. rewrite bpow_plus, scale_lt, bpow_IZR by lia. by apply IZR_lt. Qed.
Lemma mag_ge n a b : 0 <= a -> 2 ^ a <= n -> (bpow (a + b) <= IZR n * bpow b)%R.
Proof. intros. rewrite bpow_plus, scale_le, bpow_IZR by lia. by apply IZR_le. Qed.

(** Below the first normal number, normal, and carried to the next power of
    two. *)
Lemma pack_rounded_subnormal neg rm n fl : 0 <= n < 2 ^ M ->
  let x := (IZR n * bpow (1 - BIAS F - M))%R in
  (x < bpow (BIAS F + 1))%R /\ exists r, pack_rounded neg rm 1 n fl = (r, fl) /\ is_float F neg x r.
Proof using HF.
  intros Hn x. destruct format_sizes as (HE & HR & HM & HX). destruct bias_mask as (HB1 & HB2 & HB). split.
  - apply (Rlt_trans _ (bpow (M + (1 - BIAS F - M)))); [by apply mag_lt; lia|]. apply bpow_lt. lia.
  - unfold pack_rounded, MANT_MASK. destruct (Z.leb_spec n (2 ^ M - 1)); [|lia].
    eexists. split; [done|]. pose proof (fmag_pack neg 0 n ltac:(lia)) as Hf. cbn [Z.eqb] in Hf.
    by rewrite Z.mod_small in Hf by lia.
Qed.

Lemma pack_rounded_normal neg rm e n fl : 1 <= e -> 2 ^ M <= n < 2 ^ (M + 1) ->
  let x := (IZR n * bpow (e - BIAS F - M))%R in
  (x < bpow (BIAS F + 1))%R /\ (exists r, pack_rounded neg rm e n fl = (r, fl) /\ is_float F neg x r) \/
  (bpow (BIAS F + 1) <= x)%R /\ pack_rounded neg rm e n fl =
    (if to_zero rm neg then max_float F neg else infinity F neg,
     Z.lor fl (Z.lor FFLAG_OVERFLOW FFLAG_INEXACT)).
Proof using HF.
  intros He Hn x. destruct format_sizes as (HE & HR & HM & HX). destruct bias_mask as (HB1 & HB2 & HB).
  assert (P1 : 2 ^ (M + 1) = 2 ^ M + 2 ^ M) by (rewrite Z.pow_add_r by lia; lia).
  unfold pack_rounded, MANT_MASK. destruct (Z.leb_spec n (2 ^ M - 1)); [lia|].
  rewrite Z.shiftr_div_pow2, Z.div_small, Z.add_0_r, addend_to_zero by lia.
  destruct (Z.leb_spec (EXP_MASK F) e).
  - right. split; [|done]. apply (Rle_trans _ (bpow (M + (e - BIAS F - M)))); [apply bpow_le; lia|].
    apply mag_ge; lia.
  - left. split.
    + apply (Rlt_le_trans _ (bpow (M + 1 + (e - BIAS F - M)))); [apply mag_lt; lia|]. apply bpow_le. lia.
    + eexists. split; [done|]. pose proof (fmag_pack neg e n ltac:(lia)) as Hf.
      destruct (Z.eqb_spec e 0); [lia|]. rewrite Z.max_l in Hf by lia.
      replace (2 ^ M + n mod 2 ^ M) with n in Hf; [done|].
      rewrite <- (Z.mod_unique_pos n (2 ^ M) 1 (n - 2 ^ M)) by lia. lia.
Qed.

Lemma pack_rounded_carry neg rm e fl : 1 <= e ->
  let x := (IZR (2 ^ (M + 1)) * bpow (e - BIAS F - M))%R in
  (x < bpow (BIAS F + 1))%R /\
    (exists r, pack_rounded neg rm e (2 ^ (M + 1)) fl = (r, fl) /\ is_float F neg x r) \/
  (bpow (BIAS F + 1) <= x)%R /\ pack_rounded neg rm e (2 ^ (M + 1)) fl =
    (if to_zero rm neg then max_float F neg else infinity F neg,
     Z.lor fl (Z.lor FFLAG_OVERFLOW FFLAG_INEXACT)).
Proof using HF.
  intros He x. destruct format_sizes as (HE & HR & HM & HX). destruct bias_mask as (HB1 & HB2 & HB).
  assert (P1 : 2 ^ (M + 1) = 2 * 2 ^ M) by (rewrite Z.pow_add_r by lia; lia).
  pose proof (pow2_pos M ltac:(lia)) as PM.
  assert (Hx : x = bpow (e + 1 - BIAS F)).
  { unfold x. rewrite <- bpow_IZR, <- bpow_plus by lia. f_equal. lia. }
  unfold pack_rounded, MANT_MASK. destruct (Z.leb_spec (2 ^ (M + 1)) (2 ^ M - 1)); [lia|].
  rewrite Z.shiftr_div_pow2, Z.div_same, addend_to_zero by lia.
  destruct (Z.leb_spec (EXP_MASK F) (e + 1)).
  - right. split; [|done]. rewrite Hx. apply bpow_le. lia.
  - left. split; [rewrite Hx; apply bpow_lt; lia|]. eexists. split; [done|].
    pose proof (fmag_pack neg (e + 1) (2 ^ (M + 1)) ltac:(lia)) as Hf.
    destruct (Z.eqb_spec (e + 1) 0); [lia|]. rewrite Z.max_l in Hf by lia.
    rewrite P1, Z.mod_mul, Z.add_0_r, <- bpow_IZR, <- bpow_plus, <- P1 in Hf by lia.
    rewrite Hx. replace (e + 1 - BIAS F) with (M + (e + 1 - BIAS F - M)) by lia. done.
Qed.

Lemma pack_rounded_ok neg rm e n fl : 1 <= e -> 0 <= n <= 2 ^ (M + 1) -> e = 1 \/ 2 ^ M <= n ->
  let x := (IZR n * bpow (e - BIAS F - M))%R in
  (x < bpow (BIAS F + 1))%R /\ (exists r, pack_rounded neg rm e n fl = (r, fl) /\ is_float F neg x r) \/
  (bpow (BIAS F + 1) <= x)%R /\ pack_rounded neg rm e n fl =
    (if to_zero rm neg then max_float F neg else infinity F neg,
     Z.lor fl (Z.lor FFLAG_OVERFLOW FFLAG_INEXACT)).
Proof using HF.
  intros He Hn Hnorm x. destruct (Z.lt_ge_cases n (2 ^ M)).
  - destruct Hnorm as [-> |]; [|lia]. left. apply pack_rounded_subnormal. lia.
  - destruct (Z.eq_dec n (2 ^ (M + 1))) as [E |].
    + unfold x. rewrite E. by apply pack_rounded_carry.
    + apply pack_rounded_normal; lia.
Qed.

(** * Rounding and packing *)

Lemma round_pack_unfold neg e m rm fl : round_pack_sf F (Z_of_bool neg) e m rm fl =
  let m' := if e <=? 0 then rshift_rnd F m (1 - e) else m in
  let inexact := nz (Z.land m' (Z.shiftl 1 RND - 1)) in
  let is_subnormal := (e <=? 0) &&
    ((e <? 0) || (uw F (m + rnd_addend F (Z_of_bool neg) rm) <? 2 ^ (F - 1))) in
  let fl := if is_subnormal && inexact then Z.lor fl FFLAG_UNDERFLOW else fl in
  pack_rounded neg rm (if e <=? 0 then 1 else e) (rnd_mant neg rm m')
    (if inexact then Z.lor fl FFLAG_INEXACT else fl).
Proof.
  unfold round_pack_sf, pack_rounded, rnd_mant, max_float, infinity. cbv zeta.
  destruct (e <=? 0); cbn [andb]; repeat case_match; by simplify_eq.
Qed.

Lemma div_sticky_bounds m d b : 1 <= d -> 0 <= m < 2 * b -> 0 < b -> 0 <= div_sticky m d <= b.
Proof.
  intros Hd Hm Hb. unfold div_sticky.
  assert (m / 2 ^ d <= m / 2).
  { apply Z.div_le_compat_l; [lia|]. pose proof (Z.pow_le_mono_r 2 1 d ltac:(lia) ltac:(lia)). lia. }
  pose proof (Z.div_lt_upper_bound m 2 b ltac:(lia) ltac:(lia)).
  assert (0 <= m / 2 ^ d) by (apply Z.div_pos; [lia|apply pow2_pos; lia]).
  pose proof (Z.div_mod (m / 2 ^ d) 2 ltac:(lia)). pose proof (Z.mod_pos_bound (m / 2 ^ d) 2 ltac:(lia)).
  case_match; lia.
Qed.

(** The mantissa [m] of [round_pack_sf], which stands for [y], and what it is
    of the real number [x]. *)
Section RoundPack.
Context (neg : bool) (e m t : Z) (y : R) (rm : RoundingMode) (fl : Z).
Context (Hm : 2 ^ (F - 2) <= m < 2 ^ (F - 1)) (Ht : 0 <= t) (Ht2 : t + 2 <= RND) (Hn : near t y m).
Notation x := (y * bpow (e - BIAS F - (F - 2)))%R.

Lemma mant_bounds : (bpow (F - 2) <= y < bpow (F - 1))%R.
Proof using HF Hm Ht Ht2 Hn.
  destruct format_sizes as (HE & HR & HM & HX).
  assert (Hd : forall a, F - 2 <= a -> (2 ^ (t + 1) | 2 ^ a)).
  { intros a Ha. exists (2 ^ (a - (t + 1))). rewrite <- Z.pow_add_r by lia. f_equal. lia. }
  rewrite !bpow_IZR by lia. split.
  - apply Rnot_lt_le. intros Hlt. apply (near_cmp t y m _ Ht Hn (Hd (F - 2) ltac:(lia))) in Hlt. lia.
  - apply (near_cmp t y m _ Ht Hn (Hd (F - 1) ltac:(lia))). lia.
Qed.

(** As if the exponent had no bounds. *)
Lemma unbounded_rounds :
  let q := e - BIAS F - M in
  (bpow (q + PREC F - 1) <= x < bpow (q + PREC F))%R /\
  rounds rm neg (x * bpow (- q)) (rnd_mant neg rm m) /\
  2 ^ M <= rnd_mant neg rm m <= 2 ^ (M + 1) /\
  ((x = IZR (rnd_mant neg rm m) * bpow q)%R <-> m mod 2 ^ RND = 0).
Proof using HF Hm Ht Ht2 Hn.
  intros q. destruct format_sizes as (HE & HR & HM & HX). pose proof mant_bounds as Hy.
  pose proof (pow2_pos (RND - 1) ltac:(lia)) as Hh. pose proof (pow2_half RND ltac:(lia)) as HK.
  assert (P0 : 2 ^ (F - 2) = 2 ^ M * 2 ^ RND) by (rewrite <- Z.pow_add_r by lia; f_equal; lia).
  assert (P1 : 2 ^ (F - 1) = 2 ^ (M + 1) * 2 ^ RND) by (rewrite <- Z.pow_add_r by lia; f_equal; lia).
  assert (P2 : 2 ^ F = 2 * 2 ^ (F - 1)) by (apply pow2_half; lia).
  assert (Hr : rounds_Z rm neg (2 ^ (RND - 1)) m (rnd_mant neg rm m)).
  { apply rnd_mant_rounds; [lia|]. pose proof (pow2_pos (M + 1) ltac:(lia)). nia. }
  assert (Hx : (x * bpow (- q) = y * bpow (- RND))%R).
  { rewrite Rmult_assoc, <- bpow_plus. do 2 f_equal. unfold q. lia. }
  split_and!.
  - replace (q + PREC F - 1) with (F - 2 + (e - BIAS F - (F - 2))) by (unfold q, PREC; lia).
    rewrite bpow_plus, scale_le. lra.
  - replace (q + PREC F) with (F - 1 + (e - BIAS F - (F - 2))) by (unfold q, PREC; lia).
    rewrite bpow_plus, scale_lt. lra.
  - rewrite Hx. by apply (rounds_near t y m RND Ht Ht2 Hn).
  - apply (rounds_Z_bounds _ _ _ _ _ (2 ^ M) (2 ^ (M + 1)) Hh Hr). lia.
  - apply (rounds_Z_bounds _ _ _ _ _ (2 ^ M) (2 ^ (M + 1)) Hh Hr). lia.
  - rewrite HK, (rounds_Z_exact _ _ _ _ _ Hh Hr).
    destruct (near_unit t y m RND Ht Ht2 Hn (rnd_mant neg rm m)) as (_ & _ & <-).
    rewrite <- Hx. apply unscale.
Qed.

Lemma tiny_unbounded : tiny F rm neg x <->
  (IZR (rnd_mant neg rm m) * bpow (e - BIAS F - M) < bpow (1 - BIAS F))%R.
Proof using HF Hm Ht Ht2 Hn.
  destruct unbounded_rounds as (Hb & Hr & _). split.
  - intros (q & n & Hq & Hrn & Hlt).
    assert (q + PREC F = e - BIAS F - M + PREC F) as Eq by by apply (binade_unique x).
    assert (q = e - BIAS F - M) as -> by lia. by rewrite (rounds_unique _ _ _ _ _ Hr Hrn).
  - intros Hlt. by exists (e - BIAS F - M), (rnd_mant neg rm m).
Qed.

(** The rounding of a mantissa carries out of it exactly when the addend
    does. *)
Lemma rnd_mant_carry : rnd_mant neg rm m < 2 ^ (M + 1) <->
  uw F (m + rnd_addend F (Z_of_bool neg) rm) < 2 ^ (F - 1).
Proof using HF Hm Ht Ht2 Hn.
  destruct format_sizes as (HE & HR & HM & HX).
  pose proof (pow2_pos (RND - 1) ltac:(lia)) as Hh. pose proof (pow2_half RND ltac:(lia)) as HK.
  assert (P1 : 2 ^ (F - 1) = 2 ^ (M + 1) * 2 ^ RND) by (rewrite <- Z.pow_add_r by lia; f_equal; lia).
  assert (P2 : 2 ^ (M + 1) = 2 * 2 ^ M) by (rewrite Z.pow_add_r by lia; lia).
  unfold rnd_mant. rewrite ldiff_1, Z.shiftr_div_pow2 by lia.
  set (v := uw F _). rewrite P1.
  assert (v / 2 ^ RND < 2 ^ (M + 1) <-> v < 2 ^ (M + 1) * 2 ^ RND) as Hv.
  { split; intros; [|apply Z.div_lt_upper_bound; lia].
    pose proof (Z.div_mod v (2 ^ RND) ltac:(lia)). pose proof (Z.mod_pos_bound v (2 ^ RND) ltac:(lia)). nia. }
  rewrite <- Hv. destruct (_ && _); [|done]. rewrite P2.
  pose proof (Z.div_mod (v / 2 ^ RND) 2 ltac:(lia)). pose proof (Z.mod_pos_bound (v / 2 ^ RND) 2 ltac:(lia)). lia.
Qed.

Lemma tiny_code : tiny F rm neg x <->
  (e <=? 0) && ((e <? 0) || (uw F (m + rnd_addend F (Z_of_bool neg) rm) <? 2 ^ (F - 1))) = true.
Proof using HF Hm Ht Ht2 Hn.
  destruct format_sizes as (HE & HR & HM & HX). destruct unbounded_rounds as (_ & _ & Hb & _).
  pose proof (pow2_pos M ltac:(lia)) as PM.
  rewrite tiny_unbounded, andb_true_iff, orb_true_iff, !Z.ltb_lt, Z.leb_le, <- rnd_mant_carry.
  set (n := rnd_mant neg rm m) in *.
  destruct (Z.le_gt_cases e 0); [|split; [intros Hlt|lia]; exfalso].
  - destruct (Z.eq_dec e 0) as [-> |].
    + replace (bpow (1 - BIAS F)) with (IZR (2 ^ (M + 1)) * bpow (0 - BIAS F - M))%R.
      * rewrite scale_lt. split; [intros Hlt%lt_IZR; lia|intros [_ [?|?]]; [lia|by apply IZR_lt]].
      * rewrite <- bpow_IZR, <- bpow_plus by lia. f_equal. lia.
    + split; [lia|]. intros _. apply (Rle_lt_trans _ (bpow (M + 1 + (e - BIAS F - M)))).
      * rewrite bpow_plus, scale_le, bpow_IZR by lia. apply IZR_le. lia.
      * apply bpow_lt. lia.
  - pose proof (mag_ge n M (e - BIAS F - M) ltac:(lia) ltac:(lia)).
    pose proof (bpow_le (1 - BIAS F) (M + (e - BIAS F - M)) ltac:(lia)). lra.
Qed.

(** With the exponent bounded below. *)
Lemma subnormal_rounds : e <= 0 ->
  let m' := rshift_rnd F m (1 - e) in
  let q := 1 - BIAS F - M in
  quantum F x q /\ rounds rm neg (x * bpow (- q)) (rnd_mant neg rm m') /\
  0 <= rnd_mant neg rm m' <= 2 ^ (M + 1) /\
  ((x = IZR (rnd_mant neg rm m') * bpow q)%R <-> m' mod 2 ^ RND = 0).
Proof using HF Hm Ht Ht2 Hn.
  intros He m' q. destruct format_sizes as (HE & HR & HM & HX). pose proof mant_bounds as Hy.
  pose proof (pow2_pos (RND - 1) ltac:(lia)) as Hh. pose proof (pow2_half RND ltac:(lia)) as HK.
  pose proof (pow2_half F ltac:(lia)) as P2. pose proof (pow2_half (F - 1) ltac:(lia)) as P3.
  replace (F - 1 - 1) with (F - 2) in P3 by lia.
  assert (P0 : 2 ^ (F - 2) = 2 ^ M * 2 ^ RND) by (rewrite <- Z.pow_add_r by lia; f_equal; lia).
  assert (P1 : 2 ^ (M + 1) = 2 * 2 ^ M) by (rewrite Z.pow_add_r by lia; lia).
  pose proof (pow2_pos M ltac:(lia)) as PM.
  unfold m'. rewrite rshift_rnd_div by (unfold inw; lia). fold m'.
  destruct (near_div t y m (1 - e) Ht ltac:(lia) Hn) as (t' & Ht' & Hn').
  pose proof (div_sticky_bounds m (1 - e) (2 ^ (F - 2)) ltac:(lia) ltac:(lia) ltac:(lia)) as Hb.
  set (d := div_sticky m (1 - e)) in *.
  assert (Hr : rounds_Z rm neg (2 ^ (RND - 1)) d (rnd_mant neg rm d)) by (apply rnd_mant_rounds; nia).
  assert (Hx : (x * bpow (- q) = y * bpow (- (1 - e)) * bpow (- RND))%R).
  { rewrite !Rmult_assoc, <- !bpow_plus. do 2 f_equal. unfold q. lia. }
  split_and!.
  - left. split; [done|].
    apply (Rlt_le_trans _ (bpow (F - 1 + (e - BIAS F - (F - 2))))); [rewrite bpow_plus, scale_lt; lra|].
    apply bpow_le. unfold QMIN, PREC. lia.
  - rewrite Hx. apply (rounds_near t' _ d RND ltac:(lia) ltac:(lia) Hn'). done.
  - apply (rounds_Z_bounds _ _ _ _ _ 0 (2 ^ (M + 1)) Hh Hr). nia.
  - apply (rounds_Z_bounds _ _ _ _ _ 0 (2 ^ (M + 1)) Hh Hr). nia.
  - rewrite HK, (rounds_Z_exact _ _ _ _ _ Hh Hr).
    destruct (near_unit t' _ d RND ltac:(lia) ltac:(lia) Hn' (rnd_mant neg rm d)) as (_ & _ & <-).
    rewrite <- Hx. apply unscale.
Qed.

Lemma bounded_rounds :
  let m' := if e <=? 0 then rshift_rnd F m (1 - e) else m in
  let e' := if e <=? 0 then 1 else e in
  let n := rnd_mant neg rm m' in
  let q := e' - BIAS F - M in
  quantum F x q /\ rounds rm neg (x * bpow (- q)) n /\
  0 <= n <= 2 ^ (M + 1) /\ 1 <= e' /\ (e' = 1 \/ 2 ^ M <= n) /\
  ((x = IZR n * bpow q)%R <-> Z.land m' (Z.shiftl 1 RND - 1) = 0).
Proof using HF Hm Ht Ht2 Hn.
  cbv zeta. destruct format_sizes as (_ & HR & HM & HX). rewrite low_bits by lia.
  destruct (Z.leb_spec e 0) as [He | He].
  - destruct (subnormal_rounds He) as (Hq & Hr & Hb & Hx). split_and!; try done; lia || by left.
  - destruct unbounded_rounds as (Hq & Hr & Hb & Hx). pose proof (pow2_pos M ltac:(lia)).
    split_and!; try (done || lia). destruct (Z.eq_dec e 1) as [-> |].
    + left. split; [done|]. apply Hq.
    + right. unfold QMIN. split; [lia|done].
Qed.

Lemma subnormal_no_overflow n : n <= 2 ^ (M + 1) -> ~ (bpow (BIAS F + 1) <= IZR n * bpow (1 - BIAS F - M))%R.
Proof using HF.
  intros Hb. destruct format_sizes as (_ & _ & HM & _). destruct bias_mask as (_ & _ & HB).
  apply Rlt_not_le, (Rle_lt_trans _ (bpow (M + 1 + (1 - BIAS F - M)))); [|apply bpow_lt; lia].
  rewrite bpow_plus, scale_le, bpow_IZR by lia. by apply IZR_le.
Qed.

(** [round_pack_sf] rounds the number its mantissa stands for. *)
Lemma round_pack_rounded :
  correctly_rounded F rm fl neg x (round_pack_sf F (Z_of_bool neg) e m rm fl).
Proof using HF Hm Ht Ht2 Hn.
  unfold correctly_rounded. rewrite round_pack_unfold. pose proof bounded_rounds as B. cbv zeta in B |- *.
  set (m' := if e <=? 0 then rshift_rnd F m (1 - e) else m) in *.
  set (e' := if e <=? 0 then 1 else e) in *. set (n := rnd_mant neg rm m') in *.
  destruct B as (Hq & Hr & Hb & He & Hnorm & Hx). pose proof tiny_code as Htiny.
  set (sub := (e <=? 0) && _) in *. set (low := Z.land m' _) in *.
  match goal with |- context [pack_rounded _ _ _ _ ?f] => set (fl' := f) end.
  assert (exists raised, fl' = Z.lor fl raised /\
    (x = (IZR n * bpow (e' - BIAS F - M))%R /\ raised = 0 \/
     x <> (IZR n * bpow (e' - BIAS F - M))%R /\
       (tiny F rm neg x /\ raised = Z.lor FFLAG_UNDERFLOW FFLAG_INEXACT \/
        ~ tiny F rm neg x /\ raised = FFLAG_INEXACT))) as (raised & Hfl & Hraised).
  { unfold fl', nz. setoid_rewrite Htiny. destruct (Z.eqb_spec low 0) as [El | El]; cbn [negb].
    - exists 0. rewrite andb_false_r, Z.lor_0_r. split; [done|]. left. by rewrite Hx.
    - setoid_rewrite Hx. rewrite andb_true_r.
      destruct sub; [exists (Z.lor FFLAG_UNDERFLOW FFLAG_INEXACT)|exists FFLAG_INEXACT];
        rewrite ?Z.lor_assoc; (split; [done|]); right; (split; [done|]); [by left|by right]. }
  destruct (pack_rounded_ok neg rm e' n fl' He Hb Hnorm) as [[Hlt (r & -> & Hf)] | [Hge ->]].
  - exists r, raised. rewrite Hfl. split; [done|]. by apply (rounded_finite F rm neg x r raised _ n Hq Hr).
  - eexists _, (Z.lor FFLAG_OVERFLOW FFLAG_INEXACT).
    split; [f_equal|by apply (rounded_overflow F rm neg x _ _ _ n Hq Hr)].
    rewrite Hfl, <- Z.lor_assoc. f_equal.
    destruct Hraised as [[_ ->] | (_ & [[Hti ->] | [_ ->]])]; [done| |done]. exfalso.
    apply Htiny, andb_prop in Hti as [Hle _]. unfold e' in Hge. rewrite Hle in Hge.
    apply (subnormal_no_overflow n); [lia|done].
Qed.
End RoundPack.

(** * Normalizing *)

Lemma rounds_int rm neg n : rounds rm neg (IZR n) n.
Proof. unfold rounds. rewrite Rminus_diag, Rabs_R0. destruct rm, neg; lra. Qed.

Lemma rounded_zero rm neg : rounded F rm neg 0 (pack_sf F (Z_of_bool neg) 0 0) 0.
Proof using HF.
  destruct bias_mask as (HB & _ & HB2).
  apply (rounded_finite F rm neg 0 _ 0 (QMIN F) 0).
  - left. split; [done|]. apply bpow_pos.
  - rewrite Rmult_0_l. apply rounds_int.
  - rewrite Rmult_0_l. apply bpow_pos.
  - pose proof (fmag_pack neg 0 0 ltac:(lia)) as Hf. by rewrite Rmult_0_l in *.
  - left. by rewrite Rmult_0_l.
Qed.

Lemma zero_rounded rm neg fl : correctly_rounded F rm fl neg 0 (pack_sf F (Z_of_bool neg) 0 0, fl).
Proof using HF. eexists _, 0. rewrite Z.lor_0_r. split; [done|apply rounded_zero]. Qed.

Lemma round_pack_zero neg e rm fl :
  round_pack_sf F (Z_of_bool neg) e 0 rm fl = (pack_sf F (Z_of_bool neg) 0 0, fl).
Proof using HF.
  destruct format_sizes as (HE & HR & HM & HX). pose proof (pow2_pos M ltac:(lia)).
  assert (E : (if e <=? 0 then rshift_rnd F 0 (1 - e) else 0) = 0).
  { destruct (Z.leb_spec e 0); [|done]. rewrite rshift_rnd_div by (apply inw_0 || idtac; lia).
    unfold div_sticky. by rewrite Z.mod_0_l by (pose proof (pow2_pos (1 - e)); lia). }
  assert (Hr : rounds_Z rm neg (2 ^ (RND - 1)) 0 (rnd_mant neg rm 0)).
  { apply rnd_mant_rounds; [lia|]. apply Z.pow_le_mono_r; lia. }
  apply (rounds_Z_bounds _ _ _ _ _ 0 0) in Hr; [|apply pow2_pos; lia|lia].
  assert (rnd_mant neg rm 0 = 0) as Hz by lia.
  rewrite round_pack_unfold. cbv zeta. rewrite E, Hz. cbn [Z.land nz Z.eqb negb andb]. rewrite andb_false_r.
  unfold pack_rounded, MANT_MASK. by rewrite (proj2 (Z.leb_le 0 _)) by lia.
Qed.

Lemma clz_log2 m : 0 < m -> clz F m = F - 1 - Z.log2 m.
Proof. intros. unfold clz, builtin_clz. by rewrite (proj2 (Z.eqb_neq m 0)) by lia. Qed.

(** [normalize_sf] rounds the number its mantissa stands for, when the sticky
    bit is far enough down. *)
Lemma normalize_rounded neg e m t y rm fl : 0 <= m < 2 ^ (F - 1) -> 0 <= t ->
  y = IZR m \/ near t y m /\ 2 ^ (M + t + 2) <= m ->
  correctly_rounded F rm fl neg (y * bpow (e - BIAS F - (F - 2)))
    (normalize_sf F (Z_of_bool neg) e m rm fl).
Proof using HF.
  intros Hm Ht Hy. destruct format_sizes as (HE & HR & HM & HX). unfold normalize_sf, IMANT_SIZE.
  destruct (Z.eq_dec m 0) as [-> | Hnz].
  { assert (y = 0)%R as ->.
    { destruct Hy as [-> | [_ Hb]]; [done|]. pose proof (pow2_pos (M + t + 2) ltac:(lia)). lia. }
    rewrite Z.shiftl_0_l. change (uw F 0) with (0 mod 2 ^ F). rewrite Z.mod_0_l by (pose proof (pow2_pos F); lia).
    rewrite round_pack_zero, Rmult_0_l. apply zero_rounded. }
  rewrite clz_log2 by lia. pose proof (Z.log2_spec m ltac:(lia)) as Hl. rewrite Z.pow_succ_r in Hl by apply Z.log2_nonneg.
  set (l := Z.log2 m) in *. pose proof (Z.log2_nonneg m) as Hl0. fold l in Hl0.
  assert (l < F - 1) by (apply (Z.pow_lt_mono_r_iff 2); lia).
  set (s := F - 1 - l - (F - 1 - (F - 2))). assert (Hs : 0 <= s) by (unfold s; lia).
  assert (P : 2 ^ l * 2 ^ s = 2 ^ (F - 2)) by (rewrite <- Z.pow_add_r by lia; f_equal; unfold s; lia).
  pose proof (pow2_pos s Hs) as Ps. pose proof (pow2_half F ltac:(lia)) as PF.
  pose proof (pow2_half (F - 1) ltac:(lia)) as PF1. replace (F - 1 - 1) with (F - 2) in PF1 by lia.
  rewrite Z.shiftl_mul_pow2, uw_small by (unfold inw; nia).
  assert (Hx : (y * bpow (e - BIAS F - (F - 2)) = y * bpow s * bpow (e - s - BIAS F - (F - 2)))%R).
  { rewrite Rmult_assoc, <- bpow_plus. do 2 f_equal. lia. }
  rewrite Hx. destruct Hy as [-> | [Hy Hb]].
  - apply (round_pack_rounded neg (e - s) (m * 2 ^ s) 0); [nia|lia|lia|].
    left. by rewrite mult_IZR, bpow_IZR.
  - assert (M + t + 2 <= l). { apply (Z.log2_le_pow2 m); lia. }
    apply (round_pack_rounded neg (e - s) (m * 2 ^ s) (t + s)); [nia|lia| |by apply near_shiftl].
    unfold s. unfold RND_SIZE, IMANT_SIZE. lia.
Qed.
End Round.
