(* ===== verification/SoftfpArith.v ===== *)
(** Addition, multiplication and division of floats ([add_sf], [sub_sf],
    [mul_sf] and [div_sf] of [src/lib/softfp/softfp_template.h]) are the exact
    operations rounded once, as [SoftfpSpec] has it. *)

From stdpp Require Import base numbers list.
From Stdlib Require Import Reals Lra Lia.
From S2P Require Import Prelude Bits Cutils RvAlu Softfp SoftfpSpec SoftfpRound.
Local Open Scope Z_scope.

(** * The long multiplication *)

Lemma long_mul_low B a1 a0 b1 b0 : 4 <= B -> 0 <= a1 < B -> 0 <= a0 < B -> 0 <= b1 < B -> 0 <= b0 < B ->
  ((a1 * B + a0) * (b1 * B + b0)) mod (B * B) =
  (a0 * b0 / B + (a0 * b1) mod B + (a1 * b0) mod B) mod B * B + (a0 * b0) mod B.
Proof.
  intros. set (c := a0 * b0 / B + _ + _).
  pose proof (Z.div_mod (a0 * b0) B ltac:(lia)). pose proof (Z.div_mod (a0 * b1) B ltac:(lia)).
  pose proof (Z.div_mod (a1 * b0) B ltac:(lia)). pose proof (Z.div_mod c B ltac:(lia)).
  pose proof (Z.mod_pos_bound (a0 * b0) B ltac:(lia)). pose proof (Z.mod_pos_bound c B ltac:(lia)).
  symmetry. apply (Z.mod_unique_pos _ _ (a1 * b1 + a0 * b1 / B + a1 * b0 / B + c / B)); [nia|].
  assert (c = a0 * b0 / B + (a0 * b1) mod B + (a1 * b0) mod B) by done. nia.
Qed.

Lemma mul_u_halves_split F a b : mul_u_halves F a b = (rv_mulhu_halves F a b, (mul_u_halves F a b).2).
Proof. reflexivity. Qed.

Lemma mul_u_halves_low h a b : 2 <= h -> inw (2 * h) a -> inw (2 * h) b ->
  (mul_u_halves (2 * h) a b).2 = (a * b) mod 2 ^ (2 * h).
Proof.
  intros Hh Ha Hb. unfold mul_u_halves. cbv zeta. cbn [snd].
  rewrite (Z.mul_comm 2 h), Z.div_mul, (Z.mul_comm h 2) by lia.
  destruct (halves h a) as (Ea & Ha1 & Ha0); [lia|done|].
  destruct (halves h b) as (Eb & Hb1 & Hb0); [lia|done|].
  set (a1 := uw h (Z.shiftr a h)) in *. set (a0 := uw h a) in *.
  set (b1 := uw h (Z.shiftr b h)) in *. set (b0 := uw h b) in *.
  assert (HB : 4 <= 2 ^ h) by (change 4 with (2 ^ 2); apply Z.pow_le_mono_r; lia).
  assert (HW : 2 ^ (2 * h) = 2 ^ h * 2 ^ h) by (rewrite <- Z.pow_add_r by lia; f_equal; lia).
  destruct (long_mul (2 ^ h) a1 a0 b1 b0) as (Hc & _); [done..|].
  unfold uw. rewrite !Z.shiftr_div_pow2, HW by lia.
  rewrite (Z.mod_small (a0 * b0) (_ * _)), (Z.mod_small (a0 * b1) (_ * _)),
    (Z.mod_small (a1 * b0) (_ * _)) by nia.
  rewrite (Z.mod_small (a0 * b0 / _ + _ + _)) by exact Hc.
  pose proof (Z.mod_pos_bound (a0 * b0 / 2 ^ h + (a0 * b1) mod 2 ^ h + (a1 * b0) mod 2 ^ h) (2 ^ h) ltac:(lia)).
  rewrite Z.shiftl_mul_pow2, (Z.mod_small (_ * _) (_ * _)) by nia.
  rewrite lor_mul_pow2 by (lia || by apply Z.mod_pos_bound; lia).
  rewrite Ea at 1. rewrite Eb at 1. by rewrite long_mul_low.
Qed.

Lemma format_half F : valid_F F -> exists h, F = 2 * h /\ 2 <= h.
Proof. intros [-> | [-> | ->]]; [exists 16|exists 32|exists 64]; lia. Qed.

Section Arith.
Context (int128 : bool) (F : Z) (HF : valid_F F).
Notation M := (MANT_SIZE F).
Notation RND := (RND_SIZE F).

(** * Operands *)

Lemma fields_range a : inw F a ->
  f_sign F a = Z_of_bool (fneg F a) /\ 0 <= f_exp F a <= EXP_MASK F /\ 0 <= f_mant F a < 2 ^ M /\
  a = (f_sign F a * 2 ^ EXP_SIZE F + f_exp F a) * 2 ^ M + f_mant F a.
Proof using HF.
  intros Ha. destruct (format_sizes F HF) as (HE & HR & HM & HX).
  pose proof (pow2_pos M ltac:(lia)) as PM. pose proof (pow2_pos (EXP_SIZE F) ltac:(lia)) as PE.
  pose proof (pow_F F HF) as PF. unfold inw in Ha.
  unfold f_sign, f_exp, f_mant, fneg, f_sign, MANT_MASK, EXP_MASK.
  replace (2 ^ M - 1) with (Z.ones M) by (rewrite Z.ones_equiv; lia).
  replace (2 ^ EXP_SIZE F - 1) with (Z.ones (EXP_SIZE F)) by (rewrite Z.ones_equiv; lia).
  rewrite !Z.land_ones, !Z.shiftr_div_pow2 by lia. replace (F - 1) with (M + EXP_SIZE F) by lia.
  rewrite Z.pow_add_r, <- Z.div_div by lia.
  pose proof (Z.div_mod a (2 ^ M) ltac:(lia)). pose proof (Z.mod_pos_bound a (2 ^ M) ltac:(lia)).
  set (q := a / 2 ^ M) in *.
  pose proof (Z.div_mod q (2 ^ EXP_SIZE F) ltac:(lia)). pose proof (Z.mod_pos_bound q (2 ^ EXP_SIZE F) ltac:(lia)).
  assert (0 <= q / 2 ^ EXP_SIZE F < 2).
  { split; [apply Z.div_pos; [apply Z.div_pos; lia|lia]|].
    apply Z.div_lt_upper_bound; [lia|]. apply Z.div_lt_upper_bound; lia. }
  rewrite Z.ones_equiv. split_and!; try lia.
  destruct (Z.eq_dec (q / 2 ^ EXP_SIZE F) 0) as [-> |]; [done|].
  by assert (q / 2 ^ EXP_SIZE F = 1) as -> by lia.
Qed.

(** An operand that is not zero, normalized. *)
Definition normal (a : Z) : Z * Z :=
  if f_exp F a =? 0 then normalize_subnormal_sf F (f_mant F a)
  else (f_exp F a, Z.lor (f_mant F a) (2 ^ M)).

Lemma lor_top m k : 0 <= k -> 0 <= m < 2 ^ k -> Z.lor m (2 ^ k) = 2 ^ k + m.
Proof.
  intros. rewrite Z.lor_comm, <- (Z.mul_1_l (2 ^ k)), lor_mul_pow2 by done. lia.
Qed.

Lemma normal_ok a : inw F a -> ~ (f_exp F a = 0 /\ f_mant F a = 0) ->
  let '(e, m) := normal a in
  2 ^ M <= m < 2 ^ (M + 1) /\ fmag F a = (IZR m * bpow (e - BIAS F - M))%R.
Proof using HF.
  intros Ha Hz. destruct (format_sizes F HF) as (HE & HR & HM & HX).
  destruct (fields_range a Ha) as (_ & He & Hm & _).
  assert (P : 2 ^ (M + 1) = 2 * 2 ^ M) by (rewrite Z.pow_add_r by lia; lia).
  unfold normal, fmag, fsig, funit. destruct (Z.eqb_spec (f_exp F a) 0) as [E | E].
  - unfold normalize_subnormal_sf. rewrite clz_log2 by lia.
    replace (F - 1 - (F - 1 - Z.log2 (f_mant F a))) with (Z.log2 (f_mant F a)) by lia.
    set (m := f_mant F a) in *. pose proof (Z.log2_spec m ltac:(lia)) as Hl.
    rewrite Z.pow_succ_r in Hl by apply Z.log2_nonneg. pose proof (Z.log2_nonneg m) as Hl0.
    set (l := Z.log2 m) in *. assert (l < M) by (apply (Z.pow_lt_mono_r_iff 2); lia).
    pose proof (pow2_pos (M - l) ltac:(lia)).
    assert (Pl : 2 ^ M = 2 ^ l * 2 ^ (M - l)) by (rewrite <- Z.pow_add_r by lia; f_equal; lia).
    assert (2 ^ (M + 1) <= 2 ^ F) by (apply Z.pow_le_mono_r; lia).
    rewrite Z.shiftl_mul_pow2, uw_small by (unfold inw; nia). split; [nia|].
    rewrite E, mult_IZR, <- bpow_IZR, Rmult_assoc, <- bpow_plus by lia. do 2 f_equal. lia.
  - rewrite lor_top, Z.max_l by lia. split; [lia|done].
Qed.

Lemma fmag_zero a : f_exp F a = 0 -> f_mant F a = 0 -> fmag F a = 0%R.
Proof. intros E1 E2. unfold fmag, fsig. rewrite E1, E2. cbn [Z.eqb]. apply Rmult_0_l. Qed.

Lemma fmag_nonzero a : inw F a -> ~ (f_exp F a = 0 /\ f_mant F a = 0) -> (0 < fmag F a)%R.
Proof using HF.
  intros Ha Hz. pose proof (normal_ok a Ha Hz) as Hn. destruct (normal a) as [e m]. destruct Hn as [Hm ->].
  destruct (format_sizes F HF) as (_ & _ & HM & _). pose proof (pow2_pos M ltac:(lia)).
  apply Rmult_lt_0_compat; [apply (IZR_lt 0); lia|apply bpow_pos].
Qed.

(** A zero is the packed one of its sign. *)
Lemma zero_float a : inw F a -> f_exp F a = 0 -> f_mant F a = 0 -> a = pack_sf F (Z_of_bool (fneg F a)) 0 0.
Proof using HF.
  intros Ha E1 E2. destruct (fields_range a Ha) as (Hs & _ & _ & Hsum). destruct (bias_mask F HF) as (? & _ & ?).
  rewrite pack_sum by (done || lia). rewrite Z.mod_0_l by (pose proof (format_sizes F HF); pose proof (pow2_pos M); lia).
  rewrite E1, E2, Hs in Hsum. done.
Qed.

Lemma sign_xor a b : inw F a -> inw F b ->
  Z.lxor (f_sign F a) (f_sign F b) = Z_of_bool (xorb (fneg F a) (fneg F b)).
Proof using HF.
  intros Ha Hb. destruct (fields_range a Ha) as (-> & _), (fields_range b Hb) as (-> & _).
  by destruct (fneg F a), (fneg F b).
Qed.

(** * Multiplication *)

Lemma mul_u_exact a b : inw F a -> inw F b -> mul_u int128 F a b = (a * b / 2 ^ F, (a * b) mod 2 ^ F).
Proof using HF.
  intros Ha Hb. assert (Hp : 0 <= a * b < 2 ^ (2 * F)).
  { replace (2 * F) with (F + F) by lia. destruct HF as [-> | [-> | ->]]; unfold inw in *; nia. }
  assert (0 <= F) by (destruct HF as [-> | [-> | ->]]; lia).
  unfold mul_u. destruct (has_ulong int128 F).
  { rewrite uw_small, Z.shiftr_div_pow2 by (lia || done). done. }
  destruct (format_half F HF) as (h & -> & Hh). rewrite mul_u_halves_split, rv_mulhu_halves_high by done. f_equal.
  by apply mul_u_halves_low.
Qed.

Lemma div_sticky_lor m d : 0 <= d -> Z.lor (m / 2 ^ d) (Z_of_bool (nz (m mod 2 ^ d))) = div_sticky m d.
Proof.
  intros Hd. unfold div_sticky, nz. destruct (m mod 2 ^ d =? 0); cbn [negb Z_of_bool]; [apply Z.lor_0_r|apply lor_1].
Qed.

Lemma near_div_sticky m d : 0 <= d -> near 0 (IZR m * bpow (- d)) (div_sticky m d).
Proof.
  intros Hd. destruct (near_div 0 (IZR m) m d ltac:(lia) Hd (near_exact 0 m)) as (t & Ht & Hn).
  by assert (t = 0) as -> by lia.
Qed.

Lemma div_sticky_range m d a b : 0 <= d -> 2 ^ a * 2 ^ d <= m < 2 ^ b * 2 ^ d -> 0 <= a -> 1 <= b ->
  2 ^ a <= div_sticky m d < 2 ^ b.
Proof.
  intros Hd Hm Ha Hb. pose proof (pow2_pos d Hd) as Pd. unfold div_sticky.
  assert (2 ^ a <= m / 2 ^ d) by (apply Z.div_le_lower_bound; lia).
  assert (m / 2 ^ d < 2 ^ b) by (apply Z.div_lt_upper_bound; lia).
  pose proof (pow2_half b ltac:(lia)). pose proof (Z.div_mod (m / 2 ^ d) 2 ltac:(lia)).
  pose proof (Z.mod_pos_bound (m / 2 ^ d) 2 ltac:(lia)). case_match; lia.
Qed.

Lemma div_sticky_small m d b : 0 <= d -> 0 <= m -> m < b * 2 ^ d -> 0 <= div_sticky m d <= b.
Proof.
  intros Hd Hm Hb. pose proof (pow2_pos d Hd) as Pd. unfold div_sticky.
  assert (0 <= m / 2 ^ d) by (apply Z.div_pos; lia).
  assert (m / 2 ^ d < b) by (apply Z.div_lt_upper_bound; lia).
  pose proof (Z.div_mod (m / 2 ^ d) 2 ltac:(lia)).
  pose proof (Z.mod_pos_bound (m / 2 ^ d) 2 ltac:(lia)). case_match; lia.
Qed.

(** Shifting out no more than the three low bits of a multiple of eight. *)
Lemma div_sticky_exact m d : 0 <= d <= 3 ->
  (IZR (m * 8) * bpow (- d))%R = IZR (div_sticky (m * 8) d).
Proof.
  intros Hd. assert (E : m * 8 = m * 2 ^ (3 - d) * 2 ^ d).
  { rewrite <- Z.mul_assoc, <- Z.pow_add_r by lia. by replace (3 - d + d) with 3 by lia. }
  pose proof (pow2_pos d ltac:(lia)). unfold div_sticky. rewrite E, Z.mod_mul, Z.div_mul by lia. cbn [Z.eqb].
  symmetry. apply (unscale _ _ d). by rewrite (mult_IZR _ (2 ^ d)), bpow_IZR by lia.
Qed.

(** A mantissa moved up to the integer width. *)
Lemma shift_mant m k : 2 ^ M <= m < 2 ^ (M + 1) -> 0 <= k <= RND + 1 ->
  uw F (Z.shiftl m k) = m * 2 ^ k /\ inw F (m * 2 ^ k) /\ 2 ^ (M + k) <= m * 2 ^ k < 2 ^ (M + k + 1).
Proof using HF.
  intros Hm Hk. destruct (format_sizes F HF) as (HE & HR & HM & HX).
  pose proof (pow2_pos k ltac:(lia)). rewrite Z.pow_add_r in * by lia. rewrite !Z.pow_add_r by lia.
  assert (2 ^ (M + k + 1) <= 2 ^ F) by (apply Z.pow_le_mono_r; lia).
  rewrite !Z.pow_add_r in * by lia.
  assert (inw F (m * 2 ^ k)) by (unfold inw; nia).
  rewrite Z.shiftl_mul_pow2, uw_small by (done || lia). split_and!; [done|done|nia|nia].
Qed.

Lemma product_mant a b : 2 ^ (M + RND) <= a < 2 ^ (M + RND + 1) ->
  2 ^ (M + (RND + 1)) <= b < 2 ^ (M + (RND + 1) + 1) ->
  0 <= div_sticky (a * b) F < 2 ^ (F - 1) /\ 2 ^ (M + 2) <= div_sticky (a * b) F.
Proof using HF.
  intros Ha Hb. destruct (format_sizes F HF) as (HE & HR & HM & HX).
  assert (2 ^ (F - 3) <= div_sticky (a * b) F < 2 ^ (F - 1)) as Hd.
  { apply div_sticky_range; try lia. rewrite <- !Z.pow_add_r by lia.
    replace (F - 3 + F) with (M + RND + (M + (RND + 1))) by lia.
    replace (F - 1 + F) with (M + RND + 1 + (M + (RND + 1) + 1)) by lia.
    rewrite !(Z.pow_add_r 2 (M + RND) (M + (RND + 1))), !(Z.pow_add_r 2 (M + RND + 1) (M + (RND + 1) + 1)) by lia.
    pose proof (pow2_pos (M + RND) ltac:(lia)). pose proof (pow2_pos (M + (RND + 1)) ltac:(lia)). nia. }
  assert (2 ^ (M + 2) <= 2 ^ (F - 3)) by (apply Z.pow_le_mono_r; lia). pose proof (pow2_pos (F - 3) ltac:(lia)). lia.
Qed.

Lemma mul_scale ma mb ea eb :
  (IZR ma * bpow (ea - BIAS F - M) * (IZR mb * bpow (eb - BIAS F - M)))%R =
  (IZR (ma * 2 ^ RND * (mb * 2 ^ (RND + 1))) * bpow (- F) *
   bpow (ea + eb - 2 ^ (EXP_SIZE F - 1) + 2 - BIAS F - (F - 2)))%R.
Proof using HF.
  destruct (format_sizes F HF) as (HE & HR & HM & HX). destruct (bias_mask F HF) as (_ & HB & _).
  assert (bpow (ea - BIAS F - M) * bpow (eb - BIAS F - M) = bpow RND * bpow (RND + 1) * bpow (- F) *
    bpow (ea + eb - 2 ^ (EXP_SIZE F - 1) + 2 - BIAS F - (F - 2)))%R as E.
  { rewrite <- !bpow_plus. f_equal. lia. }
  rewrite !mult_IZR, <- !bpow_IZR by lia.
  transitivity (IZR ma * IZR mb * (bpow (ea - BIAS F - M) * bpow (eb - BIAS F - M)))%R; [ring|].
  rewrite E. ring.
Qed.

(** The product of the normalized mantissas, with a sticky bit. *)
Lemma mul_correct a b rm fl : finite F a -> finite F b ->
  correctly_rounded F rm fl (xorb (fneg F a) (fneg F b)) (fmag F a * fmag F b) (mul_sf int128 F a b rm fl).
Proof using HF.
  intros [Ha Fa] [Hb Fb]. destruct (format_sizes F HF) as (HE & HR & HM & HX).
  unfold mul_sf. cbv zeta. rewrite sign_xor by done.
  rewrite (proj2 (Z.eqb_neq (f_exp F a) _) Fa), (proj2 (Z.eqb_neq (f_exp F b) _) Fb). cbn [orb].
  destruct ((f_exp F a =? 0) && (f_mant F a =? 0) || (f_exp F b =? 0) && (f_mant F b =? 0)) eqn:Ez.
  { assert (fmag F a * fmag F b = 0)%R as ->; [|by apply zero_rounded].
    apply orb_prop in Ez as [Ez | Ez]; apply andb_prop in Ez as [E1%Z.eqb_eq E2%Z.eqb_eq];
      rewrite (fmag_zero _ E1 E2); lra. }
  apply orb_false_iff in Ez as [Za Zb]. pose proof (normal_ok a Ha ltac:(lia)) as Na.
  pose proof (normal_ok b Hb ltac:(lia)) as Nb. unfold normal in Na, Nb.
  destruct (if f_exp F a =? 0 then _ else _) as [ea ma]. destruct (if f_exp F b =? 0 then _ else _) as [eb mb].
  destruct Na as [Hma ->], Nb as [Hmb ->].
  destruct (shift_mant ma RND Hma ltac:(lia)) as (-> & Ia & Hwa).
  destruct (shift_mant mb (RND + 1) Hmb ltac:(lia)) as (-> & Ib & Hwb). rewrite mul_u_exact by done.
  destruct (product_mant _ _ Hwa Hwb) as [Hb1 Hb2]. rewrite mul_scale.
  assert (0 <= F) by lia. clear Hwa Hwb Ia Ib Hma Hmb. rewrite div_sticky_lor by done.
  apply (normalize_rounded F HF _ _ _ 0); [done|lia|]. right. rewrite Z.add_0_r. split; [|done].
  by apply near_div_sticky.
Qed.

(** * Addition *)

(** [add_sf] once its operands are in order. *)
Definition add_ordered (a b : Z) (rm : RoundingMode) (fl : Z) : Z * Z :=
  let s := if f_sign F a =? f_sign F b then 1 else -1 in
  let b_mant := rshift_rnd F (fsig F b * 8) (Z.max (f_exp F a) 1 - Z.max (f_exp F b) 1) in
  let r := uw F (fsig F a * 8 + s * b_mant) in
  let sign := if (s =? -1) && (r =? 0) then Z_of_bool (bool_decide (rm = RM_RDN)) else f_sign F a in
  normalize_sf F sign (Z.max (f_exp F a) 1 + (RND - 3)) r rm fl.

Definition mag_bits (a : Z) : Z := f_exp F a * 2 ^ M + f_mant F a.

Lemma ldiff_sign a : inw F a -> Z.ldiff a (SIGN_MASK F) = mag_bits a.
Proof using HF.
  intros Ha. destruct (format_sizes F HF) as (HE & HR & HM & HX).
  destruct (fields_range a Ha) as (Hs & He & Hm & Hsum). unfold mag_bits, SIGN_MASK, EXP_MASK in *.
  assert (P : 2 ^ (F - 1) = 2 ^ EXP_SIZE F * 2 ^ M).
  { replace (F - 1) with (EXP_SIZE F + M) by lia. apply Z.pow_add_r; lia. }
  assert (E : Z.ldiff a (2 ^ (F - 1)) = a mod 2 ^ (F - 1)).
  { bits_at i Hi. rewrite Z.ldiff_spec, testbit_pow2, Z.testbit_mod_pow2 by lia.
    destruct (Z.ltb_spec i (F - 1)); cbn [andb].
    - destruct (Z.eqb_spec i (F - 1)); [lia|]. apply andb_true_r.
    - destruct (Z.eqb_spec i (F - 1)); [apply andb_false_r|]. by rewrite (inw_high F a i Ha) by lia. }
  rewrite E, P. symmetry. apply (Z.mod_unique_pos _ _ (f_sign F a)); [|lia].
  pose proof (pow2_pos M ltac:(lia)). nia.
Qed.

(** The significand with three more bits, as [add_sf] makes it. *)
Lemma add_mant a : inw F a ->
  (if f_exp F a =? 0 then (1, Z.shiftl (f_mant F a) 3)
   else (f_exp F a, Z.lor (Z.shiftl (f_mant F a) 3) (2 ^ (M + 3)))) =
  (Z.max (f_exp F a) 1, fsig F a * 8).
Proof using HF.
  intros Ha. destruct (format_sizes F HF) as (HE & HR & HM & HX).
  destruct (fields_range a Ha) as (_ & He & Hm & _). unfold fsig. rewrite Z.shiftl_mul_pow2 by lia.
  destruct (Z.eqb_spec (f_exp F a) 0) as [-> |]; [done|].
  rewrite lor_top; rewrite ?Z.pow_add_r by lia; [f_equal|..]; lia.
Qed.

Lemma add_sf_ordered a b rm fl : finite F a -> finite F b ->
  add_sf F a b rm fl =
  if mag_bits a <? mag_bits b then add_ordered b a rm fl else add_ordered a b rm fl.
Proof using HF.
  intros [Ha Fa] [Hb Fb]. unfold add_sf. rewrite !ldiff_sign by done.
  destruct (mag_bits a <? mag_bits b);
  [rewrite (proj2 (Z.eqb_neq (f_exp F b) _) Fb)|rewrite (proj2 (Z.eqb_neq (f_exp F a) _) Fa)];
  rewrite !add_mant by done; unfold add_ordered; cbv zeta; destruct (_ =? _);
  by rewrite ?Z.mul_1_l.
Qed.

Lemma fsig_range a : inw F a -> 0 <= fsig F a < 2 ^ (M + 1) /\ (f_exp F a <> 0 -> 2 ^ M <= fsig F a).
Proof using HF.
  intros Ha. destruct (format_sizes F HF) as (_ & _ & HM & _). destruct (fields_range a Ha) as (_ & _ & Hm & _).
  rewrite Z.pow_add_r by lia. unfold fsig. destruct (Z.eqb_spec (f_exp F a) 0); lia.
Qed.

(** The smaller operand's mantissa, moved to the exponent of the larger one:
    either nothing is lost, or the larger one is far enough ahead. *)
Lemma add_align a b : inw F a -> inw F b -> mag_bits b <= mag_bits a ->
  let d := Z.max (f_exp F a) 1 - Z.max (f_exp F b) 1 in
  let b' := rshift_rnd F (fsig F b * 8) d in
  let y := (IZR (fsig F b * 8) * bpow (- d))%R in
  0 <= d /\ 0 <= b' <= fsig F a * 8 /\ near 0 y b' /\
  (y <> IZR b' -> 2 ^ (M + 2) <= fsig F a * 8 - b').
Proof using HF.
  intros Ha Hb Hab d b' y. destruct (format_sizes F HF) as (HE & HR & HM & HX).
  destruct (fsig_range a Ha) as [Ra Na], (fsig_range b Hb) as [Rb Nb].
  destruct (fields_range a Ha) as (_ & Ea & Ma & _), (fields_range b Hb) as (_ & Eb & Mb & _).
  unfold mag_bits in Hab. pose proof (pow2_pos M ltac:(lia)) as PM.
  assert (P1 : 2 ^ (M + 1) = 2 * 2 ^ M) by (rewrite Z.pow_add_r by lia; lia).
  assert (P2 : 2 ^ (M + 2) = 4 * 2 ^ M) by (rewrite Z.pow_add_r by lia; lia).
  assert (PF : 2 ^ (M + 1 + 3) <= 2 ^ F) by (apply Z.pow_le_mono_r; lia). rewrite Z.pow_add_r in PF by lia.
  assert (f_exp F b <= f_exp F a) by nia.
  assert (Hd : 0 <= d) by (unfold d; lia).
  unfold b'. rewrite rshift_rnd_div by (unfold inw; lia). clear b'. set (b' := div_sticky _ _).
  assert (Hn : near 0 y b') by by apply near_div_sticky.
  destruct (Z.eq_dec d 0) as [E | E].
  { assert (b' = fsig F b * 8) as Eb' by (unfold b', div_sticky; by rewrite E, Z.mod_1_r, Z.div_1_r).
    assert (fsig F b <= fsig F a).
    { unfold fsig, d in *. destruct (Z.eqb_spec (f_exp F a) 0), (Z.eqb_spec (f_exp F b) 0); lia. }
    split_and!; [lia..|done|]. intros Hne. exfalso. apply Hne. unfold y. rewrite E, Eb'. change (bpow (- 0)) with 1%R. lra. }
  assert (2 ^ M <= fsig F a) by (apply Na; unfold d in *; lia).
  pose proof (div_sticky_small (fsig F b * 8) d (8 * 2 ^ M) ltac:(lia)) as S1.
  assert (2 <= 2 ^ d) by (change 2 with (2 ^ 1) at 1; apply Z.pow_le_mono_r; lia).
  fold b' in S1. split_and!; [done|apply S1; nia|etransitivity; [apply S1; nia|lia]|done|].
  intros Hne. destruct (Z.le_gt_cases d 3) as [Hd3 | Hd3].
  { exfalso. apply Hne. unfold y, b'. by apply div_sticky_exact. }
  assert (16 <= 2 ^ d) by (change 16 with (2 ^ 4); apply Z.pow_le_mono_r; lia).
  pose proof (div_sticky_small (fsig F b * 8) d (2 ^ M) ltac:(lia) ltac:(nia) ltac:(nia)) as S2. fold b' in S2. lia.
Qed.

Lemma fmag_scaled a : fmag F a = (IZR (fsig F a * 8) * bpow (Z.max (f_exp F a) 1 - BIAS F - M - 3))%R.
Proof.
  unfold fmag, funit. rewrite mult_IZR, (bpow_split (Z.max (f_exp F a) 1 - BIAS F - M) 3).
  change (bpow 3) with (2 * (2 * (2 * 1)))%R. change 8 with (2 * (2 * 2)). rewrite !mult_IZR. ring.
Qed.

(** The mantissas added and subtracted: [A] is [2 * c], and [b'] stands for
    [y]. *)
Lemma normalize_sum neg e r y rm fl : 0 <= r < 2 ^ (F - 1) -> near 0 y r -> (y <> IZR r -> 2 ^ (M + 2) <= r) ->
  correctly_rounded F rm fl neg (y * bpow (e - BIAS F - (F - 2))) (normalize_sf F (Z_of_bool neg) e r rm fl).
Proof using HF.
  intros Hr Hn Hfar. apply (normalize_rounded F HF _ _ _ 0); [done|lia|].
  destruct (Req_EM_T y (IZR r)) as [E | E]; [by left|]. right. rewrite Z.add_0_r. split; [done|by apply Hfar].
Qed.

Lemma sum_same neg e c b' y rm fl : 0 <= b' <= 2 * c -> 2 * c + b' < 2 ^ (F - 1) -> near 0 y b' ->
  (y <> IZR b' -> 2 ^ (M + 2) <= 2 * c - b') ->
  let g := e - BIAS F - (F - 2) in
  correct_sum F rm fl neg neg (signed neg (IZR (2 * c) * bpow g) + signed neg (y * bpow g))
    (normalize_sf F (Z_of_bool neg) e (uw F (2 * c + b')) rm fl).
Proof using HF.
  intros Hb Hs Hn Hfar g. destruct (format_sizes F HF) as (HE & _ & HM & HX).
  pose proof (pow2_half F ltac:(lia)) as PF. rewrite uw_small by (unfold inw; lia).
  pose proof (near_nonneg _ _ Hn ltac:(lia)) as Hy. pose proof (bpow_pos g).
  assert (0 <= IZR (2 * c))%R by (apply IZR_le; lia).
  exists neg, ((IZR (2 * c) + y) * bpow g)%R. split_and!.
  - unfold signed. destruct neg; lra.
  - apply Rmult_le_pos; lra.
  - intros _. by destruct neg.
  - apply normalize_sum; [lia|by apply near_add|]. intros Hne. rewrite plus_IZR in Hne.
    assert (2 ^ (M + 2) <= 2 * c - b') by (apply Hfar; lra). lia.
Qed.

Lemma sum_diff neg e c b' y rm fl : 0 <= b' <= 2 * c -> 2 * c + b' < 2 ^ (F - 1) -> near 0 y b' ->
  (y <> IZR b' -> 2 ^ (M + 2) <= 2 * c - b') ->
  let g := e - BIAS F - (F - 2) in
  correct_sum F rm fl neg (negb neg) (signed neg (IZR (2 * c) * bpow g) + signed (negb neg) (y * bpow g))
    (normalize_sf F (if uw F (2 * c - b') =? 0 then Z_of_bool (bool_decide (rm = RM_RDN)) else Z_of_bool neg)
       e (uw F (2 * c - b')) rm fl).
Proof using HF.
  intros Hb Hs Hn Hfar g. destruct (format_sizes F HF) as (HE & _ & HM & HX).
  pose proof (pow2_half F ltac:(lia)) as PF. rewrite uw_small by (unfold inw; lia).
  destruct (near_cmp 0 y b' (2 * c) ltac:(lia) Hn ltac:(by exists c; lia)) as (_ & Ceq & Cgt).
  assert (y <= IZR (2 * c))%R as Hle by (apply Rnot_lt_le; rewrite Cgt; lia).
  pose proof (bpow_pos g) as Hg.
  exists (if 2 * c - b' =? 0 then bool_decide (rm = RM_RDN) else neg), ((IZR (2 * c) - y) * bpow g)%R. split_and!.
  - destruct (Z.eqb_spec (2 * c - b') 0).
    + rewrite (proj2 Ceq) by lia. unfold signed. destruct neg, (bool_decide _); cbn [negb]; lra.
    + unfold signed. destruct neg; cbn [negb]; lra.
  - apply Rmult_le_pos; lra.
  - intros Hz. rewrite (proj2 (Z.eqb_eq (2 * c - b') 0)); [by destruct neg|].
    assert (IZR (2 * c) - y = 0)%R by (apply Rmult_integral in Hz as [|]; lra).
    assert (b' = 2 * c) by (apply Ceq; lra). lia.
  - replace (if 2 * c - b' =? 0 then Z_of_bool (bool_decide (rm = RM_RDN)) else Z_of_bool neg)
      with (Z_of_bool (if 2 * c - b' =? 0 then bool_decide (rm = RM_RDN) else neg)) by by destruct (_ =? _).
    apply normalize_sum; [lia|by apply near_sub|]. intros Hne. rewrite minus_IZR in Hne. apply Hfar. lra.
Qed.

Lemma add_ordered_correct a b rm fl : finite F a -> finite F b -> mag_bits b <= mag_bits a ->
  correct_sum F rm fl (fneg F a) (fneg F b) (fval F a + fval F b) (add_ordered a b rm fl).
Proof using HF.
  intros [Ha Fa] [Hb Fb] Hab. destruct (format_sizes F HF) as (HE & HR & HM & HX).
  destruct (add_align a b Ha Hb Hab) as (Hd & Hb' & Hn & Hfar).
  destruct (fsig_range a Ha) as [Ra _]. destruct (fields_range a Ha) as (Sa & _), (fields_range b Hb) as (Sb & _).
  assert (PF : 2 ^ (M + 1 + 4) <= 2 ^ (F - 1)) by (apply Z.pow_le_mono_r; lia). rewrite Z.pow_add_r in PF by lia.
  pose proof (pow2_half F ltac:(lia)) as PF1.
  unfold add_ordered, fval. rewrite !fmag_scaled, Sa, Sb.
  set (d := Z.max (f_exp F a) 1 - Z.max (f_exp F b) 1) in *.
  set (g := Z.max (f_exp F a) 1 - BIAS F - M - 3).
  replace (Z.max (f_exp F b) 1 - BIAS F - M - 3) with (- d + g) by (unfold d, g; lia).
  rewrite bpow_plus, <- (Rmult_assoc _ (bpow (- d))).
  set (y := (IZR (fsig F b * 8) * bpow (- d))%R) in *. set (b' := rshift_rnd F (fsig F b * 8) d) in *.
  set (A := fsig F a * 8) in *.
  assert (HA : A = 2 * (fsig F a * 4)) by (unfold A; lia).
  replace g with (Z.max (f_exp F a) 1 + (RND - 3) - BIAS F - (F - 2)) by (unfold g; lia).
  destruct (fneg F a), (fneg F b); cbn [Z_of_bool Z.eqb Pos.eqb andb].
  1, 4: rewrite Z.mul_1_l, HA; apply sum_same; rewrite <- ?HA; done || lia.
  all: replace (A + -1 * b') with (A - b') by lia; rewrite HA; apply sum_diff; rewrite <- ?HA; done || lia.
Qed.

Lemma correct_sum_comm rm fl na nb v w res :
  correct_sum F rm fl na nb (v + w) res -> correct_sum F rm fl nb na (w + v) res.
Proof.
  intros (neg & x & Hv & Hx & Hz & Hc). exists neg, x. rewrite Rplus_comm. split_and!; [done..| |done].
  intros E. rewrite (Hz E). by destruct na, nb.
Qed.

Lemma add_correct a b rm fl : finite F a -> finite F b ->
  correct_sum F rm fl (fneg F a) (fneg F b) (fval F a + fval F b) (add_sf F a b rm fl).
Proof using HF.
  intros Ha Hb. rewrite add_sf_ordered by done. destruct (Z.ltb_spec (mag_bits a) (mag_bits b)).
  - apply correct_sum_comm, add_ordered_correct; [done..|lia].
  - by apply add_ordered_correct.
Qed.

(** * Subtraction *)

Lemma lxor_top x : inw (F - 1) x -> Z.lxor x (2 ^ (F - 1)) = x + 2 ^ (F - 1).
Proof using HF.
  intros Hx. symmetry. apply Z.add_nocarry_lxor. bits_at i Hi.
  destruct (format_sizes F HF) as (HE & _). rewrite Z.land_spec, testbit_pow2, Z.bits_0 by (destruct HF; lia).
  destruct (Z.eqb_spec i (F - 1)) as [-> |]; [|apply andb_false_r]. by rewrite (inw_high (F - 1)) by (done || lia).
Qed.

Lemma flip_sign b : inw F b ->
  Z.lxor b (SIGN_MASK F) = pack_sf F (Z_of_bool (negb (fneg F b))) (f_exp F b) (f_mant F b).
Proof using HF.
  intros Hb. destruct (format_sizes F HF) as (HE & HR & HM & HX).
  destruct (fields_range b Hb) as (Hs & He & Hm & Hsum). rewrite pack_sum, Z.mod_small by done.
  assert (P : 2 ^ (F - 1) = 2 ^ EXP_SIZE F * 2 ^ M).
  { replace (F - 1) with (EXP_SIZE F + M) by lia. apply Z.pow_add_r; lia. }
  assert (Hr : inw (F - 1) (f_exp F b * 2 ^ M + f_mant F b)).
  { unfold inw, EXP_MASK in *. pose proof (pow2_pos M ltac:(lia)). nia. }
  unfold SIGN_MASK. rewrite Hs in Hsum. set (e := f_exp F b) in *. set (m := f_mant F b) in *.
  clearbody e m. destruct (fneg F b); cbn [negb Z_of_bool] in *.
  - replace b with (e * 2 ^ M + m + 2 ^ (F - 1)) by lia.
    rewrite <- lxor_top, Z.lxor_assoc, Z.lxor_nilpotent, Z.lxor_0_r by done. lia.
  - replace b with (e * 2 ^ M + m) by lia. rewrite lxor_top by done. lia.
Qed.

Lemma flip_value b : finite F b ->
  let b' := Z.lxor b (SIGN_MASK F) in
  finite F b' /\ fneg F b' = negb (fneg F b) /\ fval F b' = (- fval F b)%R.
Proof using HF.
  intros [Hb Fb] b'. unfold b'. rewrite flip_sign by done.
  destruct (fields_range b Hb) as (Hs & He & Hm & _).
  destruct (pack_fields F HF (negb (fneg F b)) (f_exp F b) (f_mant F b) He) as (Hw & Hs' & He' & Hm').
  rewrite Z.mod_small in Hm' by done. set (p := pack_sf _ _ _ _) in *.
  assert (Hn : fneg F p = negb (fneg F b)) by (unfold fneg at 1; rewrite Hs'; by destruct (fneg F b)).
  split_and!; [split; [done|by rewrite He']|done|].
  unfold fval. rewrite Hn. unfold fmag, fsig, funit. rewrite He', Hm'.
  unfold signed. destruct (fneg F b); cbn [negb]; lra.
Qed.

Lemma sub_correct a b rm fl : finite F a -> finite F b ->
  correct_sum F rm fl (fneg F a) (negb (fneg F b)) (fval F a - fval F b) (sub_sf F a b rm fl).
Proof using HF.
  intros Ha Hb. destruct (flip_value b Hb) as (Hb' & <- & Hv).
  unfold sub_sf, Rminus. rewrite <- Hv. by apply add_correct.
Qed.

(** * Division *)

Lemma divrem_step_value b r t z : 0 <= r < b -> b < 2 ^ F -> 0 <= t < 2 -> 0 <= z < 2 ^ (F - 1) ->
  divrem_step F b (r, t * 2 ^ (F - 1) + z) =
  if b <=? 2 * r + t then (2 * r + t - b, 2 * z + 1) else (2 * r + t, 2 * z).
Proof using HF.
  intros Hr Hb Ht Hz. assert (0 < F) by (destruct HF as [-> | [-> | ->]]; lia).
  pose proof (pow2_half F ltac:(lia)) as PF. pose proof (pow2_pos (F - 1) ltac:(lia)) as P1.
  unfold divrem_step. rewrite !Z.shiftr_div_pow2, !Z.shiftl_mul_pow2, Z.div_add_l, (Z.div_small z) by lia.
  rewrite Z.add_0_r. change (2 ^ 1) with 2.
  assert (uw F ((t * 2 ^ (F - 1) + z) * 2) = 2 * z) as ->.
  { unfold uw. symmetry. apply (Z.mod_unique_pos _ _ t); lia. }
  assert (Hlor : forall x q, 0 <= q < 2 -> Z.lor (2 * x) q = 2 * x + q).
  { intros x q Hq. rewrite (Z.mul_comm 2 x). by apply (lor_mul_pow2 1). }
  assert (uw F (r * 2) = 2 * (r mod 2 ^ (F - 1))) as ->.
  { unfold uw. rewrite PF, (Z.mul_comm r 2), Z.mul_mod_distr_l by lia. done. }
  rewrite !Hlor by lia.
  destruct (Z.lt_ge_cases r (2 ^ (F - 1))).
  - rewrite Z.div_small, (Z.mod_small r) by lia. cbn [nz Z.eqb negb orb].
    destruct (Z.leb_spec b (2 * r + t)); rewrite Hlor by lia; [|f_equal; lia].
    f_equal. apply uw_small. unfold inw. lia.
  - assert (r / 2 ^ (F - 1) = 1) as -> by (symmetry; apply (Z.div_unique_pos _ _ _ (r - 2 ^ (F - 1))); lia).
    cbn [nz Z.eqb negb orb]. rewrite (proj2 (Z.leb_le b (2 * r + t))), Hlor by lia. f_equal.
    assert (r mod 2 ^ (F - 1) = r - 2 ^ (F - 1)) as -> by (symmetry; apply (Z.mod_unique_pos _ _ 1); lia).
    unfold uw. symmetry. apply (Z.mod_unique_pos _ _ (-1)); lia.
Qed.

Lemma divrem_next b a1 a0 (w i : Z) : 0 <= a1 < b -> b < 2 ^ F -> 2 ^ (F - 1) = 2 ^ w * 2 ^ i ->
  0 < 2 ^ w -> 0 < 2 ^ i -> 0 <= a0 / 2 ^ w / 2 < 2 ^ i ->
  let n := a1 * 2 ^ i + a0 / 2 ^ w / 2 in
  let n' := a1 * (2 * 2 ^ i) + a0 / 2 ^ w in
  divrem_step F b (n mod b, (a0 mod 2 ^ w + 2 ^ w * ((a0 / 2 ^ w) mod 2)) * 2 ^ i + n / b) =
  (n' mod b, a0 mod 2 ^ w * (2 * 2 ^ i) + n' / b).
Proof using HF.
  intros Ha1 Hb PF Pw Pi Hh. set (h := a0 / 2 ^ w) in *. set (lo := a0 mod 2 ^ w). cbv zeta.
  pose proof (Z.mod_pos_bound a0 (2 ^ w) Pw) as Hlo. fold lo in Hlo.
  pose proof (Z.div_mod h 2 ltac:(lia)) as Dh. pose proof (Z.mod_pos_bound h 2 ltac:(lia)) as Ht.
  set (t := h mod 2) in *. set (h2 := h / 2) in *. set (n := a1 * 2 ^ i + h2).
  pose proof (Z.div_mod n b ltac:(lia)) as Dn. pose proof (Z.mod_pos_bound n b ltac:(lia)) as Hr.
  assert (0 <= n / b < 2 ^ i).
  { split; [apply Z.div_pos; nia|]. apply Z.div_lt_upper_bound; [lia|]. unfold n. nia. }
  replace ((lo + 2 ^ w * t) * 2 ^ i + n / b) with (t * 2 ^ (F - 1) + (lo * 2 ^ i + n / b)) by (rewrite PF; lia).
  rewrite divrem_step_value by (done || nia).
  assert (En : a1 * (2 * 2 ^ i) + h = 2 * (n / b) * b + (2 * (n mod b) + t)) by (unfold n in *; lia).
  rewrite En. generalize dependent (n / b). generalize dependent (n mod b). intros r Hr q _ _ _.
  destruct (Z.leb_spec b (2 * r + t)).
  - rewrite <- (Z.mod_unique_pos (2 * q * b + (2 * r + t)) b (2 * q + 1) (2 * r + t - b)) by nia.
    rewrite <- (Z.div_unique_pos (2 * q * b + (2 * r + t)) b (2 * q + 1) (2 * r + t - b)) by nia. f_equal. lia.
  - rewrite <- (Z.mod_unique_pos (2 * q * b + (2 * r + t)) b (2 * q) (2 * r + t)) by lia.
    rewrite <- (Z.div_unique_pos (2 * q * b + (2 * r + t)) b (2 * q) (2 * r + t)) by lia. f_equal. lia.
Qed.

(** The restoring division: after [k] steps, [k] bits of the quotient. *)
Lemma divrem_steps b a1 a0 k : 0 <= a1 < b -> b < 2 ^ F -> inw F a0 -> (Z.of_nat k <= F) ->
  let n := a1 * 2 ^ Z.of_nat k + a0 / 2 ^ (F - Z.of_nat k) in
  Nat.iter k (divrem_step F b) (a1, a0) =
  (n mod b, a0 mod 2 ^ (F - Z.of_nat k) * 2 ^ Z.of_nat k + n / b).
Proof using HF.
  intros Ha1 Hb Ha0. induction k as [|k IH]; intros Hk; cbv zeta.
  - rewrite Z.sub_0_r, !Z.mul_1_r.
    rewrite (Z.div_small a0), Z.add_0_r, Z.mod_small, Z.div_small, (Z.mod_small a0) by done. by rewrite Z.add_0_r.
  - change (Nat.iter (S k) ?f ?x) with (f (Nat.iter k f x)). rewrite IH by lia. clear IH.
    rewrite Nat2Z.inj_succ in *. set (i := Z.of_nat k) in *. set (w := F - Z.succ i) in *.
    assert (0 <= i) by (unfold i; lia). assert (0 <= w) by (unfold w; lia).
    replace (F - i) with (w + 1) by (unfold w; lia). rewrite (Z.pow_succ_r 2 i), (Z.pow_add_r 2 w) by lia.
    change (2 ^ 1) with 2. pose proof (pow2_pos w ltac:(lia)) as Pw. pose proof (pow2_pos i ltac:(lia)) as Pi.
    rewrite <- Z.div_div, Z.rem_mul_r by lia.
    assert (PF : 2 ^ (F - 1) = 2 ^ w * 2 ^ i) by (rewrite <- Z.pow_add_r by lia; f_equal; unfold w; lia).
    pose proof (pow2_half F ltac:(lia)) as PF2. apply divrem_next; try done.
    rewrite Z.div_div by lia. split; [apply Z.div_pos; unfold inw in Ha0; lia|].
    apply Z.div_lt_upper_bound; unfold inw in Ha0; lia.
Qed.

Lemma divrem_u_exact ah al b : 0 <= ah < b -> b < 2 ^ F -> inw F al ->
  let n := ah * 2 ^ F + al in divrem_u int128 F ah al b = (n / b, n mod b).
Proof using HF.
  intros Ha Hb Hl n. assert (0 <= F) by (destruct HF as [-> | [-> | ->]]; lia).
  unfold divrem_u. destruct (has_ulong int128 F).
  - rewrite Z.shiftl_mul_pow2, lor_mul_pow2 by done. rewrite uw_small; [done|]. unfold inw in *.
    split; [apply Z.div_pos; nia|]. apply Z.div_lt_upper_bound; nia.
  - rewrite (divrem_steps b ah al (Z.to_nat F)) by (done || lia). rewrite Z2Nat.id, Z.sub_diag by done.
    change (2 ^ 0) with 1. by rewrite Z.mod_1_r, Z.div_1_r.
Qed.

Lemma div_scale ma mb ea eb : 0 < mb ->
  (IZR ma * bpow (ea - BIAS F - M) / (IZR mb * bpow (eb - BIAS F - M)))%R =
  (IZR (ma * 2 ^ F) / IZR (mb * 4) * bpow (ea - eb + 2 ^ (EXP_SIZE F - 1) - 1 - BIAS F - (F - 2)))%R.
Proof using HF.
  intros Hmb. destruct (format_sizes F HF) as (HE & HR & HM & HX). destruct (bias_mask F HF) as (_ & HB & _).
  assert (bpow (ea - BIAS F - M) * bpow 2 =
    bpow F * bpow (ea - eb + 2 ^ (EXP_SIZE F - 1) - 1 - BIAS F - (F - 2)) * bpow (eb - BIAS F - M))%R as E.
  { rewrite <- !bpow_plus. f_equal. lia. }
  assert (0 < IZR mb)%R by by apply (IZR_lt 0).
  change 4 with (2 ^ 2). rewrite !mult_IZR, <- !bpow_IZR by lia.
  pose proof (bpow_nz 2). pose proof (bpow_nz (eb - BIAS F - M)).
  apply (Rmult_eq_reg_r (IZR mb * bpow 2 * bpow (eb - BIAS F - M))); [|repeat apply Rmult_integral_contrapositive_currified; lra].
  transitivity (IZR ma * (bpow (ea - BIAS F - M) * bpow 2))%R; [field; lra|]. rewrite E. field. lra.
Qed.

Lemma if_nz {A} x (p q : A) : (if nz x then p else q) = if x =? 0 then q else p.
Proof. unfold nz. by destruct (x =? 0). Qed.

(** The quotient of normalized mantissas. *)
Lemma quotient_mant ma mb : 2 ^ M <= ma < 2 ^ (M + 1) -> 2 ^ M <= mb < 2 ^ (M + 1) ->
  let n := ma * 2 ^ F in
  let q := n / (mb * 4) in
  let r := if n mod (mb * 4) =? 0 then q else Z.lor q 1 in
  uw F (Z.shiftl mb 2) = mb * 4 /\ 0 <= ma < mb * 4 /\ mb * 4 < 2 ^ F /\
  0 <= r < 2 ^ (F - 1) /\ 2 ^ (M + 2) <= r.
Proof using HF.
  intros Ha Hb n q r. destruct (format_sizes F HF) as (HE & HR & HM & HX).
  assert (P1 : 2 ^ (M + 1) = 2 * 2 ^ M) by (rewrite Z.pow_add_r by lia; lia).
  assert (P3 : 2 ^ (M + 1) * 4 <= 2 ^ F) by (change 4 with (2 ^ 2); rewrite <- Z.pow_add_r by lia; apply Z.pow_le_mono_r; lia).
  pose proof (pow2_pos M ltac:(lia)) as PM.
  assert (PF : 2 ^ F = 8 * 2 ^ (F - 3)) by (change 8 with (2 ^ 3); rewrite <- Z.pow_add_r by lia; f_equal; lia).
  assert (PF1 : 2 ^ (F - 1) = 4 * 2 ^ (F - 3)) by (change 4 with (2 ^ 2); rewrite <- Z.pow_add_r by lia; f_equal; lia).
  assert (2 ^ (M + 2) <= 2 ^ (F - 3)) by (apply Z.pow_le_mono_r; lia).
  assert (Hq : 2 ^ (F - 3) <= q < 2 ^ (F - 1)).
  { unfold q, n. split; [apply Z.div_le_lower_bound|apply Z.div_lt_upper_bound]; nia. }
  assert (Hr : 2 ^ (F - 3) <= r < 2 ^ (F - 1)).
  { unfold r. destruct (_ =? 0); [done|]. rewrite lor_1. rewrite PF1 in *.
    pose proof (Z.div_mod q 2 ltac:(lia)). pose proof (Z.mod_pos_bound q 2 ltac:(lia)). lia. }
  rewrite Z.shiftl_mul_pow2 by lia. change (2 ^ 2) with 4. rewrite uw_small by (unfold inw; lia). lia.
Qed.

Lemma div_correct a b rm fl : finite F a -> finite F b -> fmag F b <> 0%R ->
  correctly_rounded F rm fl (xorb (fneg F a) (fneg F b)) (fmag F a / fmag F b) (div_sf int128 F a b rm fl).
Proof using HF.
  intros [Ha Fa] [Hb Fb] Hnz. unfold div_sf. rewrite sign_xor by done.
  rewrite (proj2 (Z.eqb_neq (f_exp F a) _) Fa), (proj2 (Z.eqb_neq (f_exp F b) _) Fb).
  destruct ((f_exp F b =? 0) && (f_mant F b =? 0)) eqn:Zb.
  { exfalso. apply andb_prop in Zb as [E1%Z.eqb_eq E2%Z.eqb_eq]. by apply Hnz, fmag_zero. }
  pose proof (normal_ok b Hb ltac:(lia)) as Nb. unfold normal in Nb.
  destruct (if f_exp F b =? 0 then _ else _) as [eb mb].
  destruct ((f_exp F a =? 0) && (f_mant F a =? 0)) eqn:Za.
  { apply andb_prop in Za as [E1%Z.eqb_eq E2%Z.eqb_eq]. rewrite (fmag_zero _ E1 E2).
    unfold Rdiv. rewrite Rmult_0_l. by apply zero_rounded. }
  pose proof (normal_ok a Ha ltac:(lia)) as Na. unfold normal in Na.
  destruct (if f_exp F a =? 0 then _ else _) as [ea ma]. destruct Na as [Hma ->], Nb as [Hmb ->].
  destruct (quotient_mant ma mb Hma Hmb) as (-> & Hlt & Hw & Hr & Hfar).
  destruct (format_sizes F HF) as (_ & _ & HM & _). pose proof (pow2_pos M ltac:(lia)).
  assert (inw F 0) by (apply inw_0; destruct HF as [-> | [-> | ->]]; lia). assert (0 < mb) by lia.
  rewrite div_scale, divrem_u_exact by done.
  rewrite Z.add_0_r. clear Hma Hlt Hw.
  rewrite if_nz. apply normalize_sum; [done|apply near_quot; lia|done].
Qed.
End Arith.
