(* ===== verification/SoftfpSqrt.v ===== *)
(** The square root of a float ([sqrt_sf] of
    [src/lib/softfp/softfp_template.h]) is the exact root rounded once: the
    Newton iteration ends with the integer root, within the number of rounds
    the model gives it. *)

From stdpp Require Import base numbers list.
From Stdlib Require Import Reals Lra Lia.
From S2P Require Import Prelude Bits Cutils RvAlu Softfp SoftfpSpec SoftfpRound SoftfpArith.
Local Open Scope Z_scope.

(** * The iteration *)

(** A step from above the root [r] of [a] stays above it and at least halves
    the distance. *)
Lemma newton_step a r s : r * r <= a < (r + 1) * (r + 1) -> 0 <= r -> r < s ->
  r <= (a / s + s) / 2 /\ 2 * ((a / s + s) / 2 - r) <= s - r.
Proof.
  intros Ha Hr Hs. pose proof (Z.div_mod a s ltac:(lia)) as D. pose proof (Z.mod_pos_bound a s ltac:(lia)) as B.
  set (q := a / s) in *. set (m := a mod s) in *.
  split.
  - apply Z.div_le_lower_bound; [lia|].
    assert (0 <= (s - r) * (s - r)) by nia. nia.
  - pose proof (Z.div_mod (q + s) 2 ltac:(lia)). pose proof (Z.mod_pos_bound (q + s) 2 ltac:(lia)).
    assert (q + s - 2 * r <= s - r); [|lia]. nia.
Qed.

Lemma newton_root fuel w quot a r u : r * r <= a < (r + 1) * (r + 1) -> 1 <= r ->
  (forall s, r <= s <= u -> quot s = a / s /\ a / s + s < 2 ^ w) ->
  r <= u -> u - r < 2 ^ Z.of_nat fuel -> sqrt_newton (S fuel) w quot u = r.
Proof.
  intros Ha Hr. revert u. induction fuel as [|fuel IH]; intros u Hq Hu Hf.
  - change (2 ^ Z.of_nat 0) with 1 in Hf. assert (u = r) as -> by lia. cbn [sqrt_newton].
    destruct (Hq r ltac:(lia)) as [-> Hw]. unfold uw. rewrite Z.mod_small; [|split; [|done]].
    + assert (r <= (a / r + r) / 2); [|by rewrite (proj2 (Z.leb_le _ _))].
      apply Z.div_le_lower_bound; [lia|]. pose proof (Z.div_le_lower_bound a r r ltac:(lia) ltac:(lia)). lia.
    + pose proof (Z.div_pos a r ltac:(nia) ltac:(lia)). lia.
  - remember (S fuel) as n. cbn [sqrt_newton]. subst n.
    destruct (Hq u ltac:(lia)) as [-> Hw]. unfold uw.
    pose proof (Z.div_pos a u ltac:(nia) ltac:(lia)). rewrite Z.mod_small by lia.
    destruct (Z.eq_dec u r) as [-> | Hne].
    + assert (r <= (a / r + r) / 2); [|by rewrite (proj2 (Z.leb_le _ _))].
      apply Z.div_le_lower_bound; [lia|]. pose proof (Z.div_le_lower_bound a r r ltac:(lia) ltac:(lia)). lia.
    + destruct (newton_step a r u Ha ltac:(lia) ltac:(lia)) as [H1 H2].
      rewrite (proj2 (Z.leb_gt u _)) by lia. rewrite Nat2Z.inj_succ, Z.pow_succ_r in Hf by lia.
      apply IH; [|done|lia]. intros s Hs. apply Hq. lia.
Qed.

Lemma lor_1_range x n : 1 <= n -> 0 <= x < 2 ^ n -> x <= Z.lor x 1 < 2 ^ n.
Proof.
  intros Hn Hx. rewrite lor_1. pose proof (pow2_half n ltac:(lia)).
  pose proof (Z.div_mod x 2 ltac:(lia)). pose proof (Z.mod_pos_bound x 2 ltac:(lia)). lia.
Qed.

Section Sqrt.
Context (int128 : bool) (F : Z) (HF : valid_F F).
Notation M := (MANT_SIZE F).

Lemma root_start ah r : 2 ^ (F - 4) <= ah < 2 ^ (F - 2) -> 0 <= r -> r * r <= ah * 2 ^ F ->
  r <= 2 ^ ((2 * F - clz F (ah - 1) + 1) / 2) <= 2 ^ (F - 1).
Proof using HF.
  intros Hh Hr Ha. destruct (format_sizes F HF) as (HE & _ & HM & HX).
  assert (4 <= 2 ^ (F - 4)) by (change 4 with (2 ^ 2); apply Z.pow_le_mono_r; lia).
  rewrite clz_log2 by lia. set (l := Z.log2 (ah - 1)).
  pose proof (Z.log2_spec (ah - 1) ltac:(lia)) as Hl. fold l in Hl.
  pose proof (Z.log2_nonneg (ah - 1)) as Hl0. fold l in Hl0.
  assert (l < F - 2) by (apply (Z.pow_lt_mono_r_iff 2); lia).
  set (k := (2 * F - (F - 1 - l) + 1) / 2). pose proof (Z.div_mod (2 * F - (F - 1 - l) + 1) 2 ltac:(lia)) as D.
  pose proof (Z.mod_pos_bound (2 * F - (F - 1 - l) + 1) 2 ltac:(lia)) as B. fold k in D.
  split; [|apply Z.pow_le_mono_r; lia].
  pose proof (pow2_pos k ltac:(lia)). pose proof (pow2_pos F ltac:(lia)).
  assert (2 ^ Z.succ l * 2 ^ F <= 2 ^ k * 2 ^ k) by (rewrite <- !Z.pow_add_r by lia; apply Z.pow_le_mono_r; lia).
  nia.
Qed.

(** Nothing overflows on the way. *)
Lemma newton_fits ah r s : 2 ^ (F - 4) <= ah < 2 ^ (F - 2) ->
  let a := ah * 2 ^ F in r * r <= a < (r + 1) * (r + 1) -> 2 ^ (F - 2) <= r < 2 ^ (F - 1) ->
  r <= s <= 2 ^ (F - 1) -> a / s + s < 2 ^ F.
Proof using HF.
  intros Hh a Hr Hb Hs. destruct (format_sizes F HF) as (HE & _ & HM & HX).
  pose proof (pow2_pos (F - 2) ltac:(lia)) as PP2. pose proof (pow2_pos F ltac:(lia)) as PF.
  pose proof (pow2_half F ltac:(lia)) as PH. set (p := 2 ^ (F - 1)) in *.
  assert (Hp : 2 ^ (F - 2) * 2 ^ F = p * p) by (unfold p; rewrite <- !Z.pow_add_r by lia; f_equal; lia).
  assert (Ha : a <= p * p - 2 ^ F) by (unfold a; nia).
  destruct (Z.eq_dec s r) as [-> |].
  - destruct (Z.eq_dec r (p - 1)) as [E |].
    + assert (a / r < r + 2); [apply Z.div_lt_upper_bound; nia|lia].
    + assert (a / r < r + 3); [apply Z.div_lt_upper_bound; nia|lia].
  - assert (a / s < r + 1); [apply Z.div_lt_upper_bound; [lia|nia]|]. lia.
Qed.

Lemma words_differ x h p : 0 < p -> negb (x mod p =? 0) || negb (x / p =? h) = nz (h * p - x).
Proof.
  intros Hp. pose proof (Z.div_mod x p ltac:(lia)). pose proof (Z.mod_pos_bound x p Hp). unfold nz.
  destruct (Z.eqb_spec (x mod p) 0), (Z.eqb_spec (x / p) h), (Z.eqb_spec (h * p - x) 0); cbn; nia || done.
Qed.

(** The root of [ah] followed by as many zeros, for the mantissas of
    [sqrt_sf]. *)
Lemma sqrtrem_exact ah : 2 ^ (F - 4) <= ah < 2 ^ (F - 2) ->
  let a := ah * 2 ^ F in
  let r := Z.sqrt a in
  sqrtrem_u int128 F ah 0 = (r, nz (a - r * r)) /\ 2 ^ (F - 2) <= r < 2 ^ (F - 1).
Proof using HF.
  intros Hh a r. destruct (format_sizes F HF) as (HE & HR & HM & HX).
  assert (P4 : 2 ^ (F - 4) * 2 ^ F = 2 ^ (F - 2) * 2 ^ (F - 2)) by (rewrite <- !Z.pow_add_r by lia; f_equal; lia).
  assert (P2 : 2 ^ (F - 2) * 2 ^ F = 2 ^ (F - 1) * 2 ^ (F - 1)) by (rewrite <- !Z.pow_add_r by lia; f_equal; lia).
  pose proof (pow2_pos (F - 4) ltac:(lia)) as PP. pose proof (pow2_pos F ltac:(lia)) as PF.
  pose proof (pow2_pos (F - 2) ltac:(lia)) as PP2. pose proof (pow2_pos (F - 1) ltac:(lia)) as PP1.
  pose proof (pow2_half F ltac:(lia)) as PH.
  assert (Ha : 2 ^ (F - 2) * 2 ^ (F - 2) <= a < 2 ^ (F - 1) * 2 ^ (F - 1)) by (unfold a; nia).
  pose proof (Z.sqrt_spec a ltac:(lia)) as Hr. cbv zeta in Hr. fold r in Hr. rewrite <- !Z.add_1_r in Hr.
  assert (Hb : 2 ^ (F - 2) <= r < 2 ^ (F - 1)).
  { split; [apply Z.sqrt_le_square; lia|]. apply Z.sqrt_lt_square; lia. }
  split; [|done].
  unfold sqrtrem_u. rewrite (proj2 (Z.eqb_neq ah 0)) by lia. cbn [andb].
  assert (nz ah = true) as -> by (unfold nz; rewrite (proj2 (Z.eqb_neq ah 0)) by lia; done).
  destruct (root_start ah r Hh ltac:(lia) ltac:(fold a; lia)) as [Hu1 Hu2].
  set (u := 2 ^ ((2 * F - clz F (ah - 1) + 1) / 2)) in *.
  assert (Hfuel : u - r < 2 ^ Z.of_nat (S (Z.to_nat F))).
  { rewrite Nat2Z.inj_succ, Z2Nat.id, Z.pow_succ_r by lia. lia. }
  destruct (has_ulong int128 F).
  - rewrite Z.lor_0_r, Z.shiftl_mul_pow2 by lia. fold a.
    assert (2 ^ F <= 2 ^ (2 * F)) by (apply Z.pow_le_mono_r; lia).
    rewrite (newton_root (S (Z.to_nat F)) (2 * F) _ a r u Hr); [|lia| |done|done].
    + by rewrite uw_small by (unfold inw; lia).
    + intros s Hs. split; [done|]. pose proof (newton_fits ah r s Hh Hr Hb ltac:(lia)). fold a in H0. lia.
  - rewrite (newton_root (S (Z.to_nat F)) F _ a r u Hr); [|lia| |done|done].
    + rewrite mul_u_exact by (done || unfold inw; lia). f_equal. by apply words_differ.
    + intros s Hs. rewrite divrem_u_exact, Z.add_0_r by (done || unfold inw; lia). split; [done|].
      apply (newton_fits ah r s Hh Hr Hb). lia.
Qed.

(** The real root, by the integer one. *)
Lemma near_sqrt a : 0 <= a ->
  near 0 (sqrt (IZR a)) (if nz (a - Z.sqrt a * Z.sqrt a) then Z.lor (Z.sqrt a) 1 else Z.sqrt a).
Proof.
  intros Ha. pose proof (Z.sqrt_spec a Ha) as Hr. cbv zeta in Hr. set (r := Z.sqrt a) in *.
  pose proof (Z.sqrt_nonneg a) as Hr0. fold r in Hr0. rewrite if_nz.
  assert (Hsq : forall x, 0 <= x -> sqrt (IZR (x * x)) = IZR x).
  { intros x Hx. rewrite mult_IZR. apply sqrt_square. by apply (IZR_le 0). }
  destruct (Z.eqb_spec (a - r * r) 0) as [E | E].
  - left. replace a with (r * r) by lia. by apply Hsq.
  - right. exists (r / 2). rewrite lor_1, !Z.mul_1_r. split; [done|].
    pose proof (Z.div_mod r 2 ltac:(lia)). pose proof (Z.mod_pos_bound r 2 ltac:(lia)).
    assert (IZR r < sqrt (IZR a) < IZR (r + 1))%R as [H1 H2].
    { rewrite <- (Hsq r), <- (Hsq (r + 1)) by lia. split; apply sqrt_lt_1; try (apply (IZR_le 0); nia); apply IZR_lt; nia. }
    split; [apply (Rle_lt_trans _ (IZR r)); [apply IZR_le; lia|done]|].
    apply (Rlt_le_trans _ (IZR (r + 1))); [done|apply IZR_le; lia].
Qed.

Lemma sqrt_scale x k : (0 <= x)%R -> sqrt (x * bpow (2 * k)) = (sqrt x * bpow k)%R.
Proof.
  intros Hx. replace (2 * k) with (k + k) by lia. rewrite bpow_plus.
  pose proof (bpow_pos k). rewrite sqrt_mult by nra. f_equal. apply sqrt_square. lra.
Qed.

(** The mantissa and exponent [sqrt_sf] takes the root of. *)
Lemma sqrt_operand e m : 2 ^ M <= m < 2 ^ (M + 1) ->
  let '(e', m') := if nz (Z.land (e - EXP_MASK F / 2) 1)
                   then (e - EXP_MASK F / 2 - 1, Z.shiftl m 1) else (e - EXP_MASK F / 2, m) in
  let ah := uw F (Z.shiftl m' (F - 4 - M)) in
  2 ^ (F - 4) <= ah < 2 ^ (F - 2) /\
  (IZR m * bpow (e - BIAS F - M) = IZR (ah * 2 ^ F) * bpow (2 * (Z.shiftr e' 1 - (F - 2))))%R.
Proof using HF.
  intros Hm. destruct (format_sizes F HF) as (HE & HR & HM & HX). fold (BIAS F).
  set (k := e - BIAS F). change 1 with (Z.ones 1) at 1. rewrite Z.land_ones by lia. change (2 ^ 1) with 2.
  pose proof (Z.div_mod k 2 ltac:(lia)) as D. pose proof (Z.mod_pos_bound k 2 ltac:(lia)) as B.
  pose proof (pow2_pos (F - 4 - M) ltac:(lia)) as P0.
  assert (P4 : 2 ^ (F - 4) = 2 ^ M * 2 ^ (F - 4 - M)) by (rewrite <- Z.pow_add_r by lia; f_equal; lia).
  assert (P2 : 2 ^ (F - 2) = 4 * 2 ^ (F - 4)) by (change 4 with (2 ^ 2); rewrite <- Z.pow_add_r by lia; f_equal; lia).
  assert (PF : 2 ^ F = 4 * 2 ^ (F - 2)) by (change 4 with (2 ^ 2); rewrite <- Z.pow_add_r by lia; f_equal; lia).
  assert (P1 : 2 ^ (M + 1) = 2 * 2 ^ M) by (rewrite Z.pow_add_r by lia; lia).
  assert (Hgen : forall (e' m' : Z), 2 ^ M <= m' < 4 * 2 ^ M -> Z.Even e' ->
    (IZR m * bpow (e - BIAS F - M) = IZR m' * bpow (e' - M))%R ->
    let ah := uw F (Z.shiftl m' (F - 4 - M)) in
    2 ^ (F - 4) <= ah < 2 ^ (F - 2) /\
    (IZR m * bpow (e - BIAS F - M) = IZR (ah * 2 ^ F) * bpow (2 * (Z.shiftr e' 1 - (F - 2))))%R).
  { intros e' m' Hm' [j ->] ->. cbv zeta. rewrite Z.shiftl_mul_pow2, uw_small by (lia || unfold inw; nia).
    split; [nia|]. rewrite Z.shiftr_div_pow2 by lia. change (2 ^ 1) with 2. rewrite (Z.mul_comm 2 j), Z.div_mul by lia.
    rewrite !mult_IZR, <- !bpow_IZR, !Rmult_assoc, <- !bpow_plus by lia. do 2 f_equal. lia. }
  unfold nz. destruct (Z.eqb_spec (k mod 2) 0) as [E | E]; cbn [negb].
  - apply Hgen; [lia|exists (k / 2); lia|done].
  - apply Hgen; [rewrite Z.shiftl_mul_pow2 by lia; lia|exists (k / 2); lia|].
    rewrite Z.shiftl_mul_pow2, mult_IZR, <- bpow_IZR, Rmult_assoc, <- bpow_plus by lia. do 2 f_equal. unfold k. lia.
Qed.

Lemma sqrt_correct a rm fl : finite F a -> fneg F a = false \/ fmag F a = 0%R ->
  correctly_rounded F rm fl (fneg F a) (sqrt (fmag F a)) (sqrt_sf int128 F a rm fl).
Proof using HF.
  intros [Ha Fa] Hpos. unfold sqrt_sf. rewrite (proj2 (Z.eqb_neq (f_exp F a) _) Fa).
  destruct (fields_range F HF a Ha) as (Hs & _). fold (fneg F a).
  destruct ((f_exp F a =? 0) && (f_mant F a =? 0)) eqn:Ez.
  { apply andb_prop in Ez as [E1%Z.eqb_eq E2%Z.eqb_eq]. rewrite (fmag_zero F a E1 E2), sqrt_0.
    destruct (fneg F a) eqn:En; [|apply (zero_rounded F HF rm false)].
    rewrite (zero_float F HF a Ha E1 E2) at 1. rewrite En. apply (zero_rounded F HF rm true). }
  pose proof (fmag_nonzero F HF a Ha ltac:(lia)) as Hmag.
  destruct Hpos as [En | Hz]; [|lra]. rewrite Hs, En.
  pose proof (normal_ok F HF a Ha ltac:(lia)) as Na. unfold normal in Na.
  destruct (if f_exp F a =? 0 then _ else _) as [e m]. destruct Na as [Hm ->].
  pose proof (sqrt_operand e m Hm) as So. destruct (if nz _ then _ else _) as [e' m'].
  set (ah := uw F _) in *. destruct So as [Hah ->].
  destruct (sqrtrem_exact ah Hah) as [-> Hb]. set (A := ah * 2 ^ F) in *.
  destruct (format_sizes F HF) as (HE & HR & HM & HX). pose proof (pow2_pos F ltac:(lia)).
  pose proof (pow2_pos (F - 4) ltac:(lia)). assert (0 <= A) by (unfold A; nia).
  rewrite sqrt_scale by (by apply (IZR_le 0)).
  replace (Z.shiftr e' 1 - (F - 2)) with (Z.shiftr e' 1 + EXP_MASK F / 2 - BIAS F - (F - 2)) by (unfold BIAS; lia).
  assert (PM : 2 ^ (M + 2) <= 2 ^ (F - 2)) by (apply Z.pow_le_mono_r; lia).
  pose proof (pow2_pos (F - 2) ltac:(lia)) as P2.
  destruct (lor_1_range (Z.sqrt A) (F - 1)) as [L1 L2]; [lia|lia|].
  apply (normalize_sum F HF false); [|by apply near_sqrt|].
  - clear - Hb P2 L1 L2. rewrite if_nz. destruct (_ =? 0); lia.
  - clear - Hb PM L1. intros _. rewrite if_nz. destruct (_ =? 0); lia.
Qed.
End Sqrt.
