(* ===== verification/SoftfpFma.v ===== *)
(** The fused multiply and add of floats ([fma_sf] of
    [src/lib/softfp/softfp_template.h]) is the exact product and sum rounded
    once. *)

From stdpp Require Import base numbers list.
From Stdlib Require Import Reals Lra Lia.
From S2P Require Import Prelude Bits Cutils RvAlu Softfp SoftfpSpec SoftfpRound SoftfpArith.
Local Open Scope Z_scope.

(** * Integers that compare as a real number does *)

(** [m] compares as [y] does with every multiple of [2 ^ k]. *)
Definition agrees (k : Z) (y : R) (m : Z) : Prop :=
  forall c, ((y < IZR (c * 2 ^ k))%R <-> m < c * 2 ^ k) /\ (y = IZR (c * 2 ^ k) <-> m = c * 2 ^ k).

Lemma agrees_gt k y m c : agrees k y m -> ((IZR (c * 2 ^ k) < y)%R <-> c * 2 ^ k < m).
Proof.
  intros Ha. destruct (Ha c) as [H1 H2]. split; intros Hl.
  - destruct (Z.lt_trichotomy m (c * 2 ^ k)) as [Ht | [Ht | Ht]]; [..|done]; [apply H1 in Ht|apply H2 in Ht]; lra.
  - destruct (Rtotal_order y (IZR (c * 2 ^ k))) as [Ht | [Ht | Ht]]; [..|done]; [apply H1 in Ht|apply H2 in Ht]; lia.
Qed.

Lemma agrees_exact k m : agrees k (IZR m) m.
Proof. intros c. split; split; [apply lt_IZR|apply IZR_lt|apply eq_IZR|by intros ->]. Qed.

Lemma agrees_near y m : near 0 y m -> agrees 1 y m.
Proof.
  intros Hn c. destruct (near_cmp 0 y m (c * 2 ^ 1) ltac:(lia) Hn (Z.divide_factor_r _ _)) as (H1 & H2 & _). done.
Qed.

Lemma agrees_le k k' y m : 0 <= k <= k' -> agrees k y m -> agrees k' y m.
Proof.
  intros Hk Ha c. replace (c * 2 ^ k') with (c * 2 ^ (k' - k) * 2 ^ k); [apply Ha|].
  rewrite <- Z.mul_assoc, <- Z.pow_add_r by lia. do 2 f_equal. lia.
Qed.

(** With a multiple of [2 ^ k]. *)
Lemma agrees_add k y m b : agrees k y m -> agrees k (IZR (b * 2 ^ k) + y) (b * 2 ^ k + m).
Proof.
  intros Ha c. destruct (Ha (c - b)) as [H1 H2]. rewrite Z.mul_sub_distr_r, minus_IZR in H1, H2.
  split; split; intros Hl.
  - enough (m < c * 2 ^ k - b * 2 ^ k) by lia. apply H1. lra.
  - assert (y < IZR (c * 2 ^ k) - IZR (b * 2 ^ k))%R by (apply H1; lia). lra.
  - enough (m = c * 2 ^ k - b * 2 ^ k) by lia. apply H2. lra.
  - assert (y = IZR (c * 2 ^ k) - IZR (b * 2 ^ k))%R by (apply H2; lia). lra.
Qed.

Lemma agrees_opp k y m : agrees k y m -> agrees k (- y) (- m).
Proof.
  intros Ha c. pose proof (agrees_gt k y m (- c) Ha) as H1. destruct (Ha (- c)) as [_ H2].
  rewrite Z.mul_opp_l, opp_IZR in H1, H2. split; split; intros Hl.
  - enough (- (c * 2 ^ k) < m) by lia. apply H1. lra.
  - assert (- IZR (c * 2 ^ k) < y)%R by (apply H1; lia). lra.
  - enough (m = - (c * 2 ^ k)) by lia. apply H2. lra.
  - assert (y = - IZR (c * 2 ^ k))%R by (apply H2; lia). lra.
Qed.

(** Both strictly between two multiples. *)
Lemma agrees_small k y m : 0 <= k -> (0 < y < IZR (2 ^ k))%R -> 0 < m < 2 ^ k -> agrees k y m.
Proof.
  intros Hk Hy Hm c. destruct (Z.le_gt_cases c 0).
  - assert (IZR (c * 2 ^ k) <= 0)%R by (apply IZR_le; nia). split; split; (lra || nia).
  - assert (IZR (2 ^ k) <= IZR (c * 2 ^ k))%R by (apply IZR_le; nia). split; split; (lra || nia).
Qed.

(** Dropping bits, with a sticky bit for what is lost. *)
Lemma agrees_div k y m d : 0 <= k <= d -> agrees k y m -> near 0 (y * bpow (- d)) (div_sticky m d).
Proof.
  intros Hk Ha%(agrees_le k d); [|done]. pose proof (pow2_pos d ltac:(lia)) as Pd.
  pose proof (Z.div_mod m (2 ^ d) ltac:(lia)). pose proof (Z.mod_pos_bound m (2 ^ d) Pd).
  unfold div_sticky. destruct (Z.eqb_spec (m mod 2 ^ d) 0) as [E | E].
  - left. symmetry. apply (unscale _ _ d). rewrite bpow_IZR, <- mult_IZR by lia. apply Ha. lia.
  - right. exists (m / 2 ^ d / 2). rewrite !Z.mul_1_r. split; [done|].
    pose proof (Z.div_mod (m / 2 ^ d) 2 ltac:(lia)). pose proof (Z.mod_pos_bound (m / 2 ^ d) 2 ltac:(lia)).
    rewrite <- (scale_lt _ _ d), <- (scale_lt (y * bpow (- d)) _ d), scale_back, bpow_IZR, <- !mult_IZR by lia.
    split; [apply (agrees_gt d y m _ Ha)|apply Ha]; nia.
Qed.

Section Fma.
Context (int128 : bool) (F : Z) (HF : valid_F F).
Notation M := (MANT_SIZE F).
Notation RND := (RND_SIZE F).

(** * Double words *)

Lemma words_sum x1 x0 y1 y0 : inw F x0 -> inw F y0 -> 0 <= x1 -> 0 <= y1 ->
  x1 * 2 ^ F + x0 + (y1 * 2 ^ F + y0) < 2 ^ F * 2 ^ F ->
  let m0 := uw F (x0 + y0) in
  let m1 := uw F (x1 + y1 + Z_of_bool (m0 <? y0)) in
  inw F m0 /\ inw F m1 /\ m1 * 2 ^ F + m0 = x1 * 2 ^ F + x0 + (y1 * 2 ^ F + y0).
Proof using HF.
  intros Hx Hy Hx1 Hy1 Hs. assert (0 <= F) by (destruct HF as [-> | [-> | ->]]; lia).
  pose proof (pow2_pos F ltac:(done)) as PF. unfold inw in Hx, Hy.
  assert (E : uw F (x0 + y0) = if 2 ^ F <=? x0 + y0 then x0 + y0 - 2 ^ F else x0 + y0).
  { unfold uw. destruct (Z.leb_spec (2 ^ F) (x0 + y0)); symmetry;
      [apply (Z.mod_unique_pos _ _ 1)|apply (Z.mod_unique_pos _ _ 0)]; lia. }
  cbv zeta. split_and!; [by apply inw_uw..|]. rewrite E.
  destruct (Z.leb_spec (2 ^ F) (x0 + y0)).
  - rewrite (proj2 (Z.ltb_lt _ _)) by lia. cbn [Z_of_bool]. rewrite uw_small by (unfold inw; nia). lia.
  - rewrite (proj2 (Z.ltb_ge _ _)) by lia. cbn [Z_of_bool]. rewrite uw_small by (unfold inw; nia). lia.
Qed.

Lemma words_diff x1 x0 y1 y0 : inw F x0 -> inw F y0 -> inw F x1 -> inw F y1 ->
  y1 * 2 ^ F + y0 <= x1 * 2 ^ F + x0 ->
  let m0 := uw F (x0 - y0) in
  let m1 := uw F (x1 - y1 - Z_of_bool (x0 <? m0)) in
  inw F m0 /\ inw F m1 /\ m1 * 2 ^ F + m0 = x1 * 2 ^ F + x0 - (y1 * 2 ^ F + y0).
Proof using HF.
  intros Hx Hy Hx1 Hy1 Hs. assert (0 <= F) by (destruct HF as [-> | [-> | ->]]; lia).
  pose proof (pow2_pos F ltac:(done)) as PF. unfold inw in Hx, Hy, Hx1, Hy1.
  assert (E : uw F (x0 - y0) = if x0 <? y0 then x0 - y0 + 2 ^ F else x0 - y0).
  { unfold uw. destruct (Z.ltb_spec x0 y0); symmetry;
      [apply (Z.mod_unique_pos _ _ (-1))|apply (Z.mod_unique_pos _ _ 0)]; lia. }
  cbv zeta. split_and!; [by apply inw_uw..|]. rewrite E.
  destruct (Z.ltb_spec x0 y0).
  - rewrite (proj2 (Z.ltb_lt _ _)) by lia. cbn [Z_of_bool]. rewrite uw_small by (unfold inw; nia). lia.
  - rewrite (proj2 (Z.ltb_ge _ _)) by lia. cbn [Z_of_bool]. rewrite uw_small by (unfold inw; nia). lia.
Qed.

(** * Aligning the smaller operand *)

Lemma div_sticky_words y1 y0 p : Z.Even p -> forall (b : bool),
  y1 * p + Z.lor y0 (Z_of_bool b) = if b then 2 * ((y1 * p + y0) / 2) + 1 else y1 * p + y0.
Proof.
  intros [q ->] [|]; cbn [Z_of_bool]; [|by rewrite Z.lor_0_r].
  rewrite lor_1. replace (y1 * (2 * q) + y0) with (y1 * q * 2 + y0) by lia. rewrite Z.div_add_l by lia. lia.
Qed.

Lemma shift_words c1 c0 d : inw F c1 -> inw F c0 -> 0 < d < F ->
  let y0 := Z.lor (uw F (Z.shiftl c1 (F - d))) (Z.shiftr c0 d) in
  inw F y0 /\ Z.shiftr c1 d * 2 ^ F + y0 = (c1 * 2 ^ F + c0) / 2 ^ d /\
  (c1 * 2 ^ F + c0) mod 2 ^ d = c0 mod 2 ^ d.
Proof using HF.
  intros H1 H0 Hd. pose proof (pow2_pos d ltac:(lia)) as Pd. pose proof (pow2_pos (F - d) ltac:(lia)) as Pe.
  assert (PF : 2 ^ F = 2 ^ (F - d) * 2 ^ d) by (rewrite <- Z.pow_add_r by lia; f_equal; lia).
  assert (E : uw F (Z.shiftl c1 (F - d)) = (c1 mod 2 ^ d) * 2 ^ (F - d)).
  { rewrite Z.shiftl_mul_pow2 by lia. unfold uw. rewrite PF, (Z.mul_comm (2 ^ (F - d))).
    apply Z.mul_mod_distr_r; lia. }
  unfold inw in *. rewrite E, !Z.shiftr_div_pow2 by lia.
  assert (0 <= c0 / 2 ^ d < 2 ^ (F - d)) by (split; [apply Z.div_pos; lia|apply Z.div_lt_upper_bound; lia]).
  rewrite lor_mul_pow2 by (unfold inw; lia).
  pose proof (Z.mod_pos_bound c1 (2 ^ d) Pd). pose proof (Z.div_mod c1 (2 ^ d) ltac:(lia)).
  split_and!; [nia|nia| |].
  - rewrite PF at 2. rewrite Z.mul_assoc, Z.div_add_l by lia. nia.
  - rewrite PF, Z.mul_assoc, Z.add_comm, Z_mod_plus_full. done.
Qed.

(** Nothing lost but to the sticky bit. *)
Lemma fma_rshift_sticky c1 c0 d : inw F c1 -> inw F c0 -> 0 <= d ->
  d <= F \/ 2 * F <= d \/ c0 = 0 ->
  let '(y1, y0) := fma_rshift F c1 c0 d in
  inw F y1 /\ inw F y0 /\ y1 * 2 ^ F + y0 = div_sticky (c1 * 2 ^ F + c0) d.
Proof using HF.
  intros H1 H0 Hd Hc. assert (HF0 : 32 <= F) by (destruct HF as [-> | [-> | ->]]; lia).
  pose proof (pow2_pos F ltac:(lia)) as PF. pose proof (inw_0 F ltac:(lia)) as I0.
  assert (Hb : forall b, inw F (Z_of_bool b)) by (intros b; apply inw_bool; lia).
  unfold fma_rshift. destruct (Z.leb_spec (2 * F) d); [|destruct (Z.leb_spec (F + 1) d)].
  - split_and!; [done..|].
    assert (2 ^ F * 2 ^ F <= 2 ^ d) by (rewrite <- Z.pow_add_r by lia; apply Z.pow_le_mono_r; lia).
    unfold inw in *. unfold div_sticky. rewrite Z.mod_small, Z.div_small by nia.
    assert (c1 * 2 ^ F + c0 = 0 <-> Z.lor c0 c1 = 0) as Hz by (rewrite Z.lor_eq_0_iff; nia).
    unfold nz. destruct (Z.eqb_spec (Z.lor c0 c1) 0), (Z.eqb_spec (c1 * 2 ^ F + c0) 0); cbn; lia || tauto.
  - destruct Hc as [| [| ->]]; [lia..|]. rewrite rshift_rnd_div by (done || lia).
    assert (P : 2 ^ d = 2 ^ (d - F) * 2 ^ F) by (rewrite <- Z.pow_add_r by lia; f_equal; lia).
    assert (2 <= 2 ^ (d - F)) by (change 2 with (2 ^ 1) at 1; apply Z.pow_le_mono_r; lia).
    assert (2 <= 2 ^ F) by (change 2 with (2 ^ 1) at 1; apply Z.pow_le_mono_r; lia). unfold inw in *.
    assert (0 <= div_sticky c1 (d - F) <= 2 ^ F - 1) by (apply div_sticky_small; nia).
    split_and!; [done|done|lia|lia|]. rewrite !Z.add_0_r, Z.mul_0_l, Z.add_0_l.
    unfold div_sticky. rewrite P, Z.mul_mod_distr_r, Z.div_mul_cancel_r by lia.
    destruct (Z.eqb_spec (c1 mod 2 ^ (d - F)) 0) as [E | E];
      destruct (Z.eqb_spec (c1 mod 2 ^ (d - F) * 2 ^ F) 0); nia.
  - destruct (Z.eqb_spec d F) as [-> |].
    + split_and!; [done|apply inw_lor; [lia|done..]|]. rewrite Z.mul_0_l, Z.add_0_l, <- div_sticky_lor by lia.
      unfold inw in *. rewrite Z.div_add_l, Z.div_small, Z.add_0_r by lia.
      rewrite Z.add_comm, Z_mod_plus_full, Z.mod_small by lia. done.
    + destruct (Z.eqb_spec d 0) as [-> |]; cbn [negb].
      * split_and!; [done..|]. unfold div_sticky. by rewrite Z.mod_1_r, Z.div_1_r.
      * destruct (shift_words c1 c0 d H1 H0 ltac:(lia)) as (Iy & Ey & Em).
        split_and!; [apply inw_shiftr; done || lia|apply inw_lor; [lia|done..]|].
        rewrite div_sticky_words, Ey, low_bits by (lia || exists (2 ^ (F - 1)); apply pow2_half; lia).
        unfold div_sticky. rewrite Em. unfold nz. by destruct (_ =? 0).
Qed.

(** * Normalizing a double word *)

Lemma log2_words m1 m0 : 0 < m1 -> inw F m0 -> Z.log2 (m1 * 2 ^ F + m0) = F + Z.log2 m1.
Proof using HF.
  intros H1 H0. assert (0 <= F) by (destruct HF as [-> | [-> | ->]]; lia). unfold inw in H0.
  pose proof (Z.log2_spec m1 H1) as L. pose proof (Z.log2_nonneg m1).
  apply Z.log2_unique; [lia|]. rewrite <- Z.add_succ_r, !Z.pow_add_r by lia. nia.
Qed.

(** The words shifted up by [s], with a sticky bit. *)
Lemma normalize2_word m1 m0 s : inw F m1 -> inw F m0 -> 0 <= s < F -> m1 * 2 ^ s < 2 ^ F ->
  (if s =? 0 then Z.lor m1 (Z_of_bool (nz m0))
   else if s <? F then
     Z.lor (Z.lor (uw F (Z.shiftl m1 s)) (Z.shiftr m0 (F - s))) (Z_of_bool (nz (uw F (Z.shiftl m0 s))))
   else uw F (Z.shiftl m0 (s - F))) = div_sticky (m1 * 2 ^ F + m0) (F - s).
Proof using HF.
  intros H1 H0 Hs Hlt. pose proof (pow2_pos F ltac:(lia)) as PF. unfold inw in *.
  destruct (Z.eqb_spec s 0) as [-> |].
  - rewrite Z.sub_0_r, <- div_sticky_lor by lia. rewrite Z.div_add_l, Z.div_small, Z.add_0_r by lia.
    by rewrite Z.add_comm, Z_mod_plus_full, Z.mod_small by lia.
  - rewrite (proj2 (Z.ltb_lt s F)) by lia. pose proof (pow2_pos s ltac:(lia)) as Ps.
    pose proof (pow2_pos (F - s) ltac:(lia)) as Pe.
    assert (P : 2 ^ F = 2 ^ s * 2 ^ (F - s)) by (rewrite <- Z.pow_add_r by lia; f_equal; lia).
    rewrite !Z.shiftl_mul_pow2, Z.shiftr_div_pow2 by lia. rewrite (uw_small F (m1 * 2 ^ s)) by (unfold inw; nia).
    assert (0 <= m0 / 2 ^ (F - s) < 2 ^ s) by (split; [apply Z.div_pos; lia|apply Z.div_lt_upper_bound; lia]).
    rewrite lor_mul_pow2 by (unfold inw; lia). rewrite <- div_sticky_lor by lia.
    assert ((m1 * 2 ^ F + m0) / 2 ^ (F - s) = m1 * 2 ^ s + m0 / 2 ^ (F - s)) as ->.
    { rewrite P at 1. rewrite Z.mul_assoc, Z.div_add_l by lia. done. }
    assert ((m1 * 2 ^ F + m0) mod 2 ^ (F - s) = m0 mod 2 ^ (F - s)) as ->.
    { rewrite P, Z.mul_assoc, Z.add_comm, Z_mod_plus_full. done. }
    do 2 f_equal. unfold uw. rewrite P, (Z.mul_comm (2 ^ s)), Z.mul_mod_distr_r by lia.
    unfold nz. destruct (Z.eqb_spec (m0 mod 2 ^ (F - s)) 0), (Z.eqb_spec (m0 mod 2 ^ (F - s) * 2 ^ s) 0); nia || done.
Qed.

Lemma normalize2_zero neg e rm fl :
  correctly_rounded F rm fl neg 0 (normalize2_sf F (Z_of_bool neg) e 0 0 rm fl).
Proof using HF.
  pose proof (pow2_pos F ltac:(destruct HF as [-> | [-> | ->]]; lia)) as PF. unfold normalize2_sf. cbv zeta.
  replace (if _ =? 0 then Z.lor _ _ else _) with 0.
  - rewrite round_pack_zero by done. by apply zero_rounded.
  - repeat case_match; rewrite ?Z.shiftl_0_l, ?Z.shiftr_0_l; unfold uw; by rewrite ?Z.mod_0_l by lia.
Qed.

Lemma normalize2_lead m1 m0 : inw F m1 -> inw F m0 -> 0 < m1 * 2 ^ F + m0 ->
  (if m1 =? 0 then F + clz F m0 else clz F m1) = 2 * F - 1 - Z.log2 (m1 * 2 ^ F + m0).
Proof using HF.
  intros H1 H0 HW. unfold inw in *. destruct (Z.eqb_spec m1 0) as [-> |].
  - rewrite Z.mul_0_l, Z.add_0_l in *. rewrite clz_log2 by lia. lia.
  - rewrite clz_log2, log2_words by (done || unfold inw in *; lia). lia.
Qed.

Lemma normalize2_rounded neg e m1 m0 v rm fl : inw F m1 -> inw F m0 ->
  let W := m1 * 2 ^ F + m0 in
  W < 2 ^ (2 * F - 1) -> v = IZR W \/ agrees (F - 3) v W /\ 2 ^ (2 * F - 4) <= W ->
  correctly_rounded F rm fl neg (v * bpow (- F) * bpow (e - BIAS F - (F - 2)))
    (normalize2_sf F (Z_of_bool neg) e m1 m0 rm fl).
Proof using HF.
  intros H1 H0 W HW Hv. destruct (format_sizes F HF) as (HE & HR & HM & HX).
  pose proof (pow2_pos F ltac:(lia)) as PF.
  destruct (Z.eq_dec W 0) as [E | Hnz].
  { assert (m1 = 0) as -> by (unfold inw, W in *; nia). assert (m0 = 0) as -> by (unfold W in *; lia).
    assert (v = 0)%R as ->; [|rewrite !Rmult_0_l; apply normalize2_zero].
    destruct Hv as [-> | [_ Hv]]; [by rewrite E|]. pose proof (pow2_pos (2 * F - 4)). lia. }
  assert (HWp : 0 < W) by (unfold inw, W in *; nia).
  unfold normalize2_sf, IMANT_SIZE. rewrite normalize2_lead by done. fold W. cbv zeta.
  pose proof (Z.log2_spec W HWp) as HL. pose proof (Z.log2_nonneg W) as HL0. rewrite Z.pow_succ_r in HL by done.
  assert (HLb : Z.log2 W < 2 * F - 1) by (apply (Z.pow_lt_mono_r_iff 2); lia).
  set (L := Z.log2 W) in *. replace (2 * F - 1 - L - (F - 1 - (F - 2))) with (2 * F - 2 - L) by lia.
  set (s := 2 * F - 2 - L).
  assert (Hx : (v * bpow (- F) * bpow (e - BIAS F - (F - 2)) =
    v * bpow (s - F) * bpow (e - s - BIAS F - (F - 2)))%R).
  { rewrite !Rmult_assoc, <- !bpow_plus. do 2 f_equal. lia. }
  rewrite Hx. clear Hx. destruct (Z.lt_ge_cases s F) as [Hs | Hs].
  - assert (PL : 2 ^ (F - 2) * 2 ^ (F - s) = 2 ^ L) by (rewrite <- Z.pow_add_r by lia; f_equal; lia).
    assert (PF1 : 2 ^ (F - 1) = 2 * 2 ^ (F - 2)) by (rewrite (pow2_half (F - 1)) by lia; do 2 f_equal; lia).
    assert (PS : 2 ^ F = 2 ^ s * 2 ^ (F - s)) by (rewrite <- Z.pow_add_r by lia; f_equal; lia).
    pose proof (pow2_pos s ltac:(lia)) as Ps. pose proof (pow2_pos (F - s) ltac:(lia)) as Pe.
    rewrite normalize2_word; [|done|done|lia|]. 
    + fold W. apply (round_pack_rounded F HF neg (e - s) _ 0); [|lia|lia|].
      * apply div_sticky_range; lia || rewrite PF1; lia.
      * replace (s - F) with (- (F - s)) by lia. destruct Hv as [-> | [Hag Hbig]].
        -- apply near_div_sticky. lia.
        -- apply (agrees_div (F - 3)); [|done]. assert (2 * F - 4 <= L) by (apply (Z.log2_le_pow2 W); lia). lia.
    + assert (PT : 2 ^ L * 2 ^ s = 2 ^ (F - 2) * 2 ^ F) by (rewrite <- !Z.pow_add_r by lia; f_equal; lia).
      assert (m1 * 2 ^ F <= W) by (unfold inw, W in *; lia). pose proof (pow2_pos (F - 2) ltac:(lia)).
      pose proof (pow2_half F ltac:(lia)). nia.
  - assert (PL : 2 ^ L * 2 ^ (s - F) = 2 ^ (F - 2)) by (rewrite <- Z.pow_add_r by lia; f_equal; lia).
    assert (PF1 : 2 ^ (F - 1) = 2 * 2 ^ (F - 2)) by (rewrite (pow2_half (F - 1)) by lia; do 2 f_equal; lia).
    assert (2 ^ L <= 2 ^ (F - 2)) by (apply Z.pow_le_mono_r; lia). pose proof (pow2_half F ltac:(lia)) as PH.
    pose proof (pow2_pos (s - F) ltac:(lia)). pose proof (pow2_pos (F - 2) ltac:(lia)).
    assert (m1 = 0) as Em1 by (unfold inw, W in *; nia). assert (W = m0) as EW by (unfold W; rewrite Em1; lia).
    destruct Hv as [-> | [_ Hbig]].
    + rewrite (proj2 (Z.eqb_neq s 0)), (proj2 (Z.ltb_ge s F)) by lia. rewrite <- EW.
      rewrite Z.shiftl_mul_pow2, uw_small by (lia || unfold inw; nia).
      apply (round_pack_rounded F HF neg (e - s) _ 0); [nia|lia|lia|]. left. rewrite mult_IZR, bpow_IZR by lia. done.
    + assert (2 ^ (F - 1) <= 2 ^ (2 * F - 4)) by (apply Z.pow_le_mono_r; lia). lia.
Qed.

(** * Adding the smaller operand to the larger one *)

(** The words of an operand with its top bit at [2 * F - 3]. *)
Definition lead (x1 x0 : Z) : Prop := 2 ^ (F - 3) <= x1 < 2 ^ (F - 2) /\ inw F x0.

Lemma lead_range x1 x0 : lead x1 x0 -> inw F x1 /\ 2 ^ (2 * F - 3) <= x1 * 2 ^ F + x0 < 2 * 2 ^ (2 * F - 3).
Proof using HF.
  intros [H1 H0]. destruct (format_sizes F HF) as (HE & _ & HM & HX).
  assert (P : 2 ^ (2 * F - 3) = 2 ^ (F - 3) * 2 ^ F) by (rewrite <- Z.pow_add_r by lia; f_equal; lia).
  assert (P2 : 2 ^ (F - 2) = 2 * 2 ^ (F - 3)) by (rewrite (pow2_half (F - 2)) by lia; do 2 f_equal; lia).
  assert (2 ^ (F - 2) <= 2 ^ F) by (apply Z.pow_le_mono_r; lia). pose proof (pow2_pos (F - 3) ltac:(lia)).
  unfold inw in *. nia.
Qed.

(** Far apart: the low word of the smaller operand may be lost, but what is
    left of it is not zero and below everything that is rounded. *)
Lemma fma_rshift_far c1 c0 d : lead c1 c0 -> F < d < 2 * F ->
  let '(y1, y0) := fma_rshift F c1 c0 d in
  y1 = 0 /\ 0 < y0 < 2 ^ (F - 3) /\
  (0 < IZR (c1 * 2 ^ F + c0) * bpow (- d) < IZR (2 ^ (F - 3)))%R.
Proof using HF.
  intros Hc Hd. destruct (lead_range c1 c0 Hc) as [I1 HY]. destruct Hc as [H1 H0].
  destruct (format_sizes F HF) as (HE & _ & HM & HX).
  unfold fma_rshift. rewrite (proj2 (Z.leb_gt (2 * F) d)), (proj2 (Z.leb_le (F + 1) d)) by lia.
  rewrite rshift_rnd_div by (done || lia). split; [done|]. pose proof (pow2_pos (F - 3) ltac:(lia)) as P3.
  assert (P2 : 2 ^ (F - 2) = 2 * 2 ^ (F - 3)) by (rewrite (pow2_half (F - 2)) by lia; do 2 f_equal; lia).
  assert (P4 : 2 ^ (F - 3) = 2 * 2 ^ (F - 4)) by (rewrite (pow2_half (F - 3)) by lia; do 2 f_equal; lia).
  assert (PD : 2 <= 2 ^ (d - F)) by (change 2 with (2 ^ 1) at 1; apply Z.pow_le_mono_r; lia). split.
  - unfold div_sticky. pose proof (Z.div_mod c1 (2 ^ (d - F)) ltac:(lia)).
    pose proof (Z.mod_pos_bound c1 (2 ^ (d - F)) ltac:(lia)).
    assert (0 <= c1 / 2 ^ (d - F)) by (apply Z.div_pos; lia).
    assert (c1 / 2 ^ (d - F) < 2 ^ (F - 3)) by (apply Z.div_lt_upper_bound; nia).
    pose proof (Z.div_mod (c1 / 2 ^ (d - F)) 2 ltac:(lia)). pose proof (Z.mod_pos_bound (c1 / 2 ^ (d - F)) 2 ltac:(lia)).
    destruct (Z.eqb_spec (c1 mod 2 ^ (d - F)) 0); [nia|lia].
  - pose proof (pow2_pos (2 * F - 3) ltac:(lia)). split.
    + apply Rmult_lt_0_compat; [apply (IZR_lt 0); lia|apply bpow_pos].
    + apply (scale_lt _ _ d). rewrite scale_back, bpow_IZR, <- mult_IZR by lia. apply IZR_lt.
      apply (Z.lt_le_trans _ (2 * 2 ^ (2 * F - 3))); [lia|].
      rewrite <- Z.pow_add_r, <- Z.pow_succ_r by lia. apply Z.pow_le_mono_r; lia.
Qed.

(** The aligned words [y1:y0] of the operand [c1:c0], [d] places down, as the
    larger operand [x1:x0] needs them. *)
Definition aligned (c1 c0 d x1 x0 y1 y0 : Z) : Prop :=
  let Y := c1 * 2 ^ F + c0 in
  let X := x1 * 2 ^ F + x0 in
  let y := (IZR Y * bpow (- d))%R in
  let Y' := y1 * 2 ^ F + y0 in
  inw F y1 /\ inw F y0 /\ 0 <= Y' /\
  (d = 0 -> Y' = Y) /\ (1 <= d -> Y' <= 2 ^ (2 * F - 3)) /\ (2 <= d -> Y' <= 2 ^ (2 * F - 4)) /\
  (d <= 1 -> Z.Even c0 -> y = IZR Y') /\
  agrees (F - 3) (IZR X + y) (X + Y') /\ agrees (F - 3) (IZR X - y) (X - Y').

Lemma fma_align_sticky c1 c0 d x1 x0 y1 y0 : lead c1 c0 -> 0 <= d -> Z.Even x0 ->
  inw F y1 -> inw F y0 -> y1 * 2 ^ F + y0 = div_sticky (c1 * 2 ^ F + c0) d ->
  aligned c1 c0 d x1 x0 y1 y0.
Proof using HF.
  intros Hc Hd [i Hx] I1 I0 EY. destruct (format_sizes F HF) as (HE & _ & HM & HX).
  destruct (lead_range c1 c0 Hc) as [_ HY]. unfold aligned. rewrite EY. set (Y := c1 * 2 ^ F + c0) in *.
  pose proof (pow2_pos (2 * F - 4) ltac:(lia)) as P4.
  assert (P3 : 2 ^ (2 * F - 3) = 2 * 2 ^ (2 * F - 4)) by (rewrite (pow2_half (2 * F - 3)) by lia; do 2 f_equal; lia).
  assert (EX : x1 * 2 ^ F + x0 = 2 * (x1 * 2 ^ (F - 1) + i)) by (rewrite Hx, (pow2_half F) by lia; lia).
  pose proof (near_div_sticky Y d Hd) as Hn.
  assert (Hag : forall v m, near 0 v m -> agrees (F - 3) v m).
  { intros v m Hv%agrees_near. by apply (agrees_le 1); [lia|]. }
  split_and!; [done|done| | | | | |rewrite EX; by apply Hag, near_add|rewrite EX; by apply Hag, near_sub].
  - rewrite <- EY. unfold inw in *. pose proof (pow2_pos F). nia.
  - intros ->. unfold div_sticky. by rewrite Z.mod_1_r, Z.div_1_r.
  - intros H1. apply div_sticky_bounds; lia.
  - intros H2. apply div_sticky_small; [lia|lia|].
    assert (4 <= 2 ^ d) by (change 4 with (2 ^ 2); apply Z.pow_le_mono_r; lia). nia.
  - intros H1 [k Hk]. assert (EY2 : Y = 2 * (c1 * 2 ^ (F - 1) + k)) by (unfold Y; rewrite Hk, (pow2_half F) by lia; lia).
    symmetry. apply (unscale _ _ d). unfold div_sticky. assert (d = 0 \/ d = 1) as [-> | ->] by lia.
    + rewrite Z.mod_1_r, Z.div_1_r. cbn [Z.eqb]. change (bpow 0) with 1%R. lra.
    + change (2 ^ 1) with 2. rewrite EY2, Z.mul_comm, Z.mod_mul, Z.div_mul by lia. cbn [Z.eqb].
      rewrite (mult_IZR _ 2). change (bpow 1) with (2 * 1)%R. lra.
Qed.

Lemma fma_align c1 c0 d x1 x0 : lead c1 c0 -> 0 <= d -> Z.Even x0 -> c0 = 0 \/ x0 = 0 ->
  let '(y1, y0) := fma_rshift F c1 c0 d in aligned c1 c0 d x1 x0 y1 y0.
Proof using HF.
  intros Hc Hd Hx Hz. destruct (format_sizes F HF) as (HE & _ & HM & HX).
  destruct (lead_range c1 c0 Hc) as [I1 HY].
  assert ((d <= F \/ 2 * F <= d \/ c0 = 0) \/ F < d < 2 * F /\ x0 = 0) as [Hs | [Hfar ->]] by lia.
  - pose proof (fma_rshift_sticky c1 c0 d I1 (proj2 Hc) Hd Hs) as Hr.
    destruct (fma_rshift F c1 c0 d) as [y1 y0]. destruct Hr as (J1 & J0 & EY). by apply fma_align_sticky.
  - pose proof (fma_rshift_far c1 c0 d Hc Hfar) as Hr. destruct (fma_rshift F c1 c0 d) as [y1 y0].
    destruct Hr as (-> & Hy0 & Hy). unfold aligned. rewrite Z.mul_0_l, Z.add_0_l, Z.add_0_r.
    assert (P : 2 ^ F = 8 * 2 ^ (F - 3)) by (change 8 with (2 ^ 3); rewrite <- Z.pow_add_r by lia; f_equal; lia).
    assert (2 ^ (F - 3) <= 2 ^ (2 * F - 4)) by (apply Z.pow_le_mono_r; lia).
    assert (2 ^ (2 * F - 4) <= 2 ^ (2 * F - 3)) by (apply Z.pow_le_mono_r; lia).
    assert (Hag : agrees (F - 3) (IZR (c1 * 2 ^ F + c0) * bpow (- d)) y0) by (apply agrees_small; [lia|done..]).
    replace (x1 * 2 ^ F) with (x1 * 8 * 2 ^ (F - 3)) by (rewrite P; lia).
    split_and!; [apply inw_0; lia|unfold inw; lia|lia|lia|lia|lia|lia|by apply agrees_add|].
    by apply (agrees_add _ _ (- y0)), agrees_opp.
Qed.

(** The sum of the words, its sign and its exponent, as [fma_add] rounds
    it. *)
Definition add_words (neg eqs : bool) (e x1 x0 y1 y0 : Z) (rm : RoundingMode) (fl : Z) : Z * Z :=
  if eqs then
    let m0 := uw F (x0 + y0) in
    let m1 := uw F (x1 + y1 + Z_of_bool (m0 <? y0)) in
    normalize2_sf F (Z_of_bool neg) e m1 m0 rm fl
  else
    let m0 := uw F (x0 - y0) in
    let m1 := uw F (x1 - y1 - Z_of_bool (x0 <? m0)) in
    normalize2_sf F (if Z.lor m0 m1 =? 0 then Z_of_bool (bool_decide (rm = RM_RDN)) else Z_of_bool neg) e m1 m0 rm fl.

Section AddWords.
Context (neg : bool) (e d x1 x0 c1 c0 y1 y0 : Z) (rm : RoundingMode) (fl : Z).
Context (Hx : lead x1 x0) (Hc : lead c1 c0) (Hal : aligned c1 c0 d x1 x0 y1 y0) (Hd : 0 <= d).
Context (Hord : d = 0 -> c1 * 2 ^ F + c0 <= x1 * 2 ^ F + x0) (Hev : Z.Even c0).
Notation X := (x1 * 2 ^ F + x0).
Notation y := (IZR (c1 * 2 ^ F + c0) * bpow (- d))%R.
Notation g := (e - BIAS F - (F - 2)).

Lemma add_words_same : correct_sum F rm fl neg neg
  (signed neg (IZR X * bpow (- F) * bpow g) + signed neg (y * bpow (- F) * bpow g))
  (add_words neg true e x1 x0 y1 y0 rm fl).
Proof using HF Hx Hc Hal Hd Hord Hev.
  destruct (format_sizes F HF) as (HE & _ & HM & HX). destruct (lead_range _ _ Hx) as [Ix RX].
  destruct (lead_range _ _ Hc) as [_ RY]. destruct Hal as (J1 & J0 & A0 & A1 & A2 & _ & _ & A5 & _).
  set (Y' := y1 * 2 ^ F + y0) in *. pose proof (pow2_pos (2 * F - 4) ltac:(lia)) as P4.
  assert (P3 : 2 ^ (2 * F - 3) = 2 * 2 ^ (2 * F - 4)) by (rewrite (pow2_half (2 * F - 3)) by lia; do 2 f_equal; lia).
  assert (PP : 2 ^ (2 * F - 1) = 4 * 2 ^ (2 * F - 3)) by (change 4 with (2 ^ 2); rewrite <- Z.pow_add_r by lia; f_equal; lia).
  assert (PQ : 2 ^ F * 2 ^ F = 2 * 2 ^ (2 * F - 1)) by (rewrite <- Z.pow_add_r, <- Z.pow_succ_r by lia; f_equal; lia).
  assert (HY : Y' < 2 * 2 ^ (2 * F - 3)) by (destruct (Z.eq_dec d 0); [rewrite A1 by done; lia|lia]).
  destruct (words_sum x1 x0 y1 y0 (proj2 Hx) J0) as (I0 & I1 & EW); [unfold inw in *; lia..|fold Y'; lia|].
  fold Y' in EW. unfold add_words. set (m0 := uw F (x0 + y0)) in *. set (m1 := uw F (x1 + y1 + _)) in *.
  exists neg, ((IZR X + y) * bpow (- F) * bpow g)%R. pose proof (bpow_pos (- F)). pose proof (bpow_pos g).
  assert (0 < IZR X)%R by (apply (IZR_lt 0); lia).
  assert (0 < y)%R by (apply Rmult_lt_0_compat; [apply (IZR_lt 0); lia|apply bpow_pos]).
  split_and!.
  - unfold signed. destruct neg; ring.
  - repeat apply Rmult_le_pos; lra.
  - intros _. by destruct neg.
  - apply normalize2_rounded; [done|done|rewrite EW; lia|]. right. rewrite EW. split; [done|lia].
Qed.

Lemma add_words_order : (y <= IZR X)%R /\ (y = IZR X -> d = 0).
Proof using HF Hx Hc Hd Hord.
  clear Hal Hev. destruct (lead_range _ _ Hx) as [_ RX]. destruct (lead_range _ _ Hc) as [_ RY].
  destruct (Z.eq_dec d 0) as [-> |].
  - change (bpow (- 0)) with 1%R. rewrite Rmult_1_r. split; [apply IZR_le; lia|done].
  - pose proof (bpow_le (- d) (-1) ltac:(lia)) as Hb. change (bpow (-1)) with (/ (2 * 1))%R in Hb.
    pose proof (bpow_pos (- d)). assert (IZR (c1 * 2 ^ F + c0) < 2 * IZR X)%R by (rewrite <- mult_IZR; apply IZR_lt; lia).
    assert (0 < IZR (c1 * 2 ^ F + c0))%R by (apply (IZR_lt 0); lia).
    assert (y < IZR X)%R by nra. split; [lra|intros; lra].
Qed.

Lemma add_words_diff : correct_sum F rm fl neg (negb neg)
  (signed neg (IZR X * bpow (- F) * bpow g) + signed (negb neg) (y * bpow (- F) * bpow g))
  (add_words neg false e x1 x0 y1 y0 rm fl).
Proof using HF Hx Hc Hal Hd Hord Hev.
  destruct (format_sizes F HF) as (HE & _ & HM & HX). destruct (lead_range _ _ Hx) as [Ix RX].
  destruct add_words_order as [Hle Heq]. destruct Hal as (J1 & J0 & A0 & A1 & A2 & A3 & A4 & _ & A6).
  set (Y' := y1 * 2 ^ F + y0) in *. pose proof (pow2_pos (2 * F - 4) ltac:(lia)) as P4.
  assert (P3 : 2 ^ (2 * F - 3) = 2 * 2 ^ (2 * F - 4)) by (rewrite (pow2_half (2 * F - 3)) by lia; do 2 f_equal; lia).
  assert (PP : 2 ^ (2 * F - 1) = 4 * 2 ^ (2 * F - 3)) by (change 4 with (2 ^ 2); rewrite <- Z.pow_add_r by lia; f_equal; lia).
  assert (HY : Y' <= X) by (destruct (Z.eq_dec d 0); [rewrite A1 by done; auto|lia]).
  destruct (words_diff x1 x0 y1 y0 (proj2 Hx) J0 Ix J1 HY) as (I0 & I1 & EW).
  fold Y' in EW. unfold add_words. set (m0 := uw F (x0 - y0)) in *. set (m1 := uw F (x1 - y1 - _)) in *.
  assert (Hz : (Z.lor m0 m1 =? 0) = (X - Y' =? 0)).
  { apply eq_true_iff_eq. rewrite !Z.eqb_eq, Z.lor_eq_0_iff, <- EW. pose proof (pow2_pos F ltac:(lia)).
    unfold inw in *. split; [intros [-> ->]; lia|nia]. }
  assert (Hyz : X - Y' = 0 -> y = IZR X).
  { intros Hxy. assert (X = Y') as -> by lia. apply A4; [|done]. destruct (Z.le_gt_cases d 1); [done|]. lia. }
  rewrite Hz. pose proof (bpow_pos (- F)). pose proof (bpow_pos g).
  exists (if X - Y' =? 0 then bool_decide (rm = RM_RDN) else neg), ((IZR X - y) * bpow (- F) * bpow g)%R. split_and!.
  - destruct (Z.eqb_spec (X - Y') 0) as [Hxy |].
    + rewrite (Hyz Hxy). unfold signed. destruct neg, (bool_decide _); cbn [negb]; ring.
    + unfold signed. destruct neg; cbn [negb]; ring.
  - repeat apply Rmult_le_pos; lra.
  - intros Hv. assert (y = IZR X) as Hxy by (repeat apply Rmult_integral in Hv as [Hv|]; lra).
    assert (IZR X = IZR Y') as HXY by (rewrite <- Hxy; apply A4; [rewrite Heq by done; lia|done]).
    apply eq_IZR in HXY. rewrite HXY, Z.sub_diag. by destruct neg.
  - replace (if X - Y' =? 0 then Z_of_bool (bool_decide (rm = RM_RDN)) else Z_of_bool neg)
      with (Z_of_bool (if X - Y' =? 0 then bool_decide (rm = RM_RDN) else neg)) by by destruct (X - Y' =? 0).
    apply normalize2_rounded; [done|done|rewrite EW; lia|]. rewrite EW. destruct (Z.le_gt_cases d 1).
    + left. rewrite A4, minus_IZR by done. done.
    + right. split; [done|lia].
Qed.
End AddWords.

(** The magnitude of a double word with its exponent. *)
Definition wval (e x1 x0 : Z) : R := (IZR (x1 * 2 ^ F + x0) * bpow (- F) * bpow (e - BIAS F - (F - 2)))%R.

Lemma fma_ordered nx nc e e' x1 x0 c1 c0 rm fl : lead x1 x0 -> lead c1 c0 -> Z.Even x0 -> Z.Even c0 ->
  c0 = 0 \/ x0 = 0 -> e' <= e -> (e = e' -> c1 * 2 ^ F + c0 <= x1 * 2 ^ F + x0) ->
  correct_sum F rm fl nx nc (signed nx (wval e x1 x0) + signed nc (wval e' c1 c0))
    (let '(y1, y0) := fma_rshift F c1 c0 (e - e') in add_words nx (eqb nx nc) e x1 x0 y1 y0 rm fl).
Proof using HF.
  intros Hx Hc Ex Ec Hz He Hord. pose proof (fma_align c1 c0 (e - e') x1 x0 Hc ltac:(lia) Ex Hz) as Hal.
  destruct (fma_rshift F c1 c0 (e - e')) as [y1 y0].
  assert (wval e' c1 c0 = IZR (c1 * 2 ^ F + c0) * bpow (- (e - e')) * bpow (- F) * bpow (e - BIAS F - (F - 2)))%R as ->.
  { unfold wval. rewrite !Rmult_assoc, <- !bpow_plus. do 2 f_equal. lia. }
  unfold wval. destruct (eqb nx nc) eqn:En.
  - apply eqb_prop in En as <-. apply add_words_same; try done; [lia|]. intros. apply Hord. lia.
  - apply eqb_false_iff in En. assert (nc = negb nx) as -> by by destruct nx, nc.
    apply add_words_diff; try done; [lia|]. intros. apply Hord. lia.
Qed.

(** What [fma_add] does with two nonzero operands. *)
Lemma fma_add_words nr nc e e' r1 r0 c1 rm fl : lead r1 r0 -> lead c1 0 -> Z.Even r0 ->
  correct_sum F rm fl nr nc (signed nr (wval e r1 r0) + signed nc (wval e' c1 0))
    (let '(nx, ex, x1, x0, ny, ey, y1, y0) :=
       if (e' <? e) || ((e =? e') && (c1 <=? r1)) then (nr, e, r1, r0, nc, e', c1, 0)
       else (nc, e', c1, 0, nr, e, r1, r0) in
     let '(y1, y0) := fma_rshift F y1 y0 (ex - ey) in add_words nx (eqb nx ny) ex x1 x0 y1 y0 rm fl).
Proof using HF.
  intros Hr Hc Er. assert (Z.Even 0) by by exists 0. destruct (format_sizes F HF) as (HE & _ & HM & HX).
  pose proof (pow2_pos F ltac:(lia)). pose proof (proj2 Hr) as I0. unfold inw in I0.
  destruct ((e' <? e) || ((e =? e') && (c1 <=? r1))) eqn:Eo.
  - apply fma_ordered; try done; [by left|lia|]. intros <-. assert (c1 <= r1) by lia. nia.
  - apply correct_sum_comm, fma_ordered; try done; [by right|lia|]. intros <-. assert (r1 + 1 <= c1) by lia. nia.
Qed.

Lemma words_sticky r1 r0 : inw F r0 -> Z.lor r1 (Z_of_bool (nz r0)) = div_sticky (r1 * 2 ^ F + r0) F.
Proof using HF.
  intros I0. assert (0 <= F) by (destruct HF as [-> | [-> | ->]]; lia). pose proof (pow2_pos F ltac:(done)).
  rewrite <- div_sticky_lor by done. unfold inw in I0.
  by rewrite Z.div_add_l, Z.div_small, Z.add_0_r, Z.add_comm, Z.mod_add, Z.mod_small by lia.
Qed.

Lemma fma_add_correct nr e r1 r0 c rm fl : lead r1 r0 -> Z.Even r0 -> finite F c ->
  correct_sum F rm fl nr (fneg F c) (signed nr (wval e r1 r0) + fval F c)
    (fma_add F (Z_of_bool nr) e r1 r0 c rm fl).
Proof using HF.
  intros Hr Er [Hc Fc]. destruct (format_sizes F HF) as (HE & HR & HM & HX). unfold fma_add. cbv zeta.
  destruct ((f_exp F c =? 0) && (f_mant F c =? 0)) eqn:Ez.
  - destruct (lead_range _ _ Hr) as [_ RX].
    assert (0 < wval e r1 r0)%R as Hpos.
    { repeat apply Rmult_lt_0_compat; try apply bpow_pos. apply (IZR_lt 0). pose proof (pow2_pos (2 * F - 3)). lia. }
    exists nr, (wval e r1 r0). unfold fval. rewrite fmag_zero by lia. split_and!; [|lra|lra|].
    + unfold signed. destruct nr, (fneg F c); lra.
    + rewrite words_sticky by apply Hr. unfold wval.
      assert (2 ^ (F - 3) <= div_sticky (r1 * 2 ^ F + r0) F < 2 ^ (F - 1)).
      { apply div_sticky_range; try lia. rewrite <- !Z.pow_add_r by lia.
        replace (F - 3 + F) with (2 * F - 3) by lia. replace (F - 1 + F) with (2 + (2 * F - 3)) by lia.
        rewrite (Z.pow_add_r 2 2) by lia. pose proof (pow2_pos (2 * F - 3)). lia. }
      pose proof (pow2_pos (F - 3)). assert (2 ^ (M + 2) <= 2 ^ (F - 3)) by (apply Z.pow_le_mono_r; lia).
      apply normalize_sum; [done|lia|apply near_div_sticky; lia|lia].
  - pose proof (normal_ok F HF c Hc ltac:(lia)) as Nc. unfold normal in Nc. unfold fval.
    destruct (fields_range F HF c Hc) as (-> & _).
    destruct (if f_exp F c =? 0 then _ else _) as [ec mc]. destruct Nc as [Hmc ->].
    destruct (shift_mant F HF mc (RND - 1) Hmc ltac:(lia)) as (-> & Ic & Hwc).
    assert (IZR mc * bpow (ec - BIAS F - M) = wval (ec + 1) (mc * 2 ^ (RND - 1)) 0)%R as ->.
    { unfold wval. rewrite Z.add_0_r, !mult_IZR, <- !bpow_IZR by lia.
      rewrite !Rmult_assoc, <- !bpow_plus. do 2 f_equal. lia. }
    pose proof (fma_add_words nr (fneg F c) e (ec + 1) r1 r0 (mc * 2 ^ (RND - 1)) rm fl Hr) as Hw.
    assert (lead (mc * 2 ^ (RND - 1)) 0) as Hlc.
    { split; [|apply inw_0; lia]. replace (F - 3) with (M + (RND - 1)) by lia.
      by replace (F - 2) with (M + (RND - 1) + 1) by lia. }
    specialize (Hw Hlc Er). clear - Hw.
    destruct ((ec + 1 <? e) || ((e =? ec + 1) && (mc * 2 ^ (RND - 1) <=? r1)));
      destruct (fma_rshift _ _ _ _) as [y1 y0]; unfold add_words in Hw;
      destruct nr, (fneg F c); exact Hw.
Qed.

(** The product's words doubled. *)
Lemma double_words r1 r0 : 0 <= r1 < 2 ^ (F - 1) -> inw F r0 ->
  Z.lor (uw F (Z.shiftl r1 1)) (Z.shiftr r0 (F - 1)) = 2 * (r1 * 2 ^ F + r0) / 2 ^ F /\
  uw F (Z.shiftl r0 1) = (2 * (r1 * 2 ^ F + r0)) mod 2 ^ F.
Proof using HF.
  intros H1 H0. assert (1 < F) by (destruct HF as [-> | [-> | ->]]; lia). pose proof (pow2_half F ltac:(lia)) as PF.
  pose proof (pow2_pos (F - 1) ltac:(lia)). unfold inw in H0.
  rewrite !Z.shiftl_mul_pow2, Z.shiftr_div_pow2 by lia. change (2 ^ 1) with 2.
  rewrite uw_small by (unfold inw; lia). unfold uw. split.
  - change 2 with (2 ^ 1) at 1. rewrite lor_mul_pow2; [|lia|].
    + replace (2 * (r1 * 2 ^ F + r0)) with (2 * r1 * 2 ^ F + 2 * r0) by lia. rewrite Z.div_add_l by lia.
      rewrite PF, Z.div_mul_cancel_l by lia. lia.
    + split; [apply Z.div_pos; lia|]. apply Z.div_lt_upper_bound; lia.
  - replace (2 * (r1 * 2 ^ F + r0)) with (r0 * 2 + 2 * r1 * 2 ^ F) by lia. by rewrite Z.mod_add by lia.
Qed.

Lemma float_rounded rm c : finite F c -> rounded F rm (fneg F c) (fmag F c) c 0.
Proof using HF.
  intros [Hc Fc]. destruct (format_sizes F HF) as (HE & HR & HM & HX). destruct (bias_mask F HF) as (HB & _ & HB2).
  destruct (fields_range F HF c Hc) as (Hs & He & Hm & _). destruct (fsig_range F HF c Hc) as [Ru Rl].
  assert (IZR (fsig F c) < bpow (M + 1))%R as Hlt by (rewrite bpow_IZR by lia; apply IZR_lt; lia).
  pose proof (bpow_pos (funit F c)) as Hu.
  assert (forall k, funit F c + (M + 1) <= k -> (fmag F c < bpow k)%R) as Hbelow.
  { intros k Hk. apply Rlt_le_trans with (bpow (funit F c + (M + 1))); [|by apply bpow_le].
    unfold fmag. rewrite bpow_plus. nra. }
  apply (rounded_finite F rm _ _ _ _ (funit F c) (fsig F c)).
  - unfold quantum, PREC. destruct (Z.le_gt_cases (f_exp F c) 1).
    + left. assert (funit F c = QMIN F) as -> by (unfold funit, QMIN; lia). split; [done|].
      apply Hbelow. unfold QMIN, funit. lia.
    + right. split; [unfold funit, QMIN; lia|]. split; [|apply Hbelow; lia].
      unfold fmag. replace (funit F c + (M + 1) - 1) with (M + funit F c) by lia. rewrite bpow_plus.
      apply Rmult_le_compat_r; [lra|]. rewrite bpow_IZR by lia. apply IZR_le, Rl. lia.
  - unfold fmag. rewrite Rmult_assoc, <- bpow_plus, Z.add_opp_diag_r, bpow_0, Rmult_1_r. apply rounds_int.
  - apply (Hbelow (BIAS F + 1)). unfold funit. lia.
  - split; [done|split; [done|done]].
  - by left.
Qed.

(** The normalised product, as [fma_sf] computes it. *)
Definition fma_product (ea ma eb mb : Z) : Z * Z * Z :=
  let e := ea + eb - 2 ^ (EXP_SIZE F - 1) + 3 in
  let '(r1, r0) := mul_u int128 F (uw F (Z.shiftl ma RND)) (uw F (Z.shiftl mb RND)) in
  if r1 <? 2 ^ (F - 3)
  then (Z.lor (uw F (Z.shiftl r1 1)) (Z.shiftr r0 (F - 1)), uw F (Z.shiftl r0 1), e - 1)
  else (r1, r0, e).

Lemma words_of P : 2 ^ (2 * F - 3) <= P < 2 * 2 ^ (2 * F - 3) -> Z.Even P ->
  lead (P / 2 ^ F) (P mod 2 ^ F) /\ Z.Even (P mod 2 ^ F).
Proof using HF.
  intros HP HE. assert (3 < F) by (destruct HF as [-> | [-> | ->]]; lia). pose proof (pow2_pos F ltac:(lia)) as PF.
  assert (P3 : 2 ^ (2 * F - 3) = 2 ^ (F - 3) * 2 ^ F) by (rewrite <- Z.pow_add_r by lia; f_equal; lia).
  assert (P2 : 2 ^ (F - 2) = 2 * 2 ^ (F - 3)) by (rewrite (pow2_half (F - 2)) by lia; do 2 f_equal; lia).
  split; [split|].
  - split; [apply Z.div_le_lower_bound; lia|apply Z.div_lt_upper_bound; lia].
  - by apply Z.mod_pos_bound.
  - rewrite Z.mod_eq by lia. destruct HE as [k ->]. set (q := 2 * k / _). rewrite (pow2_half F) by lia.
    exists (k - 2 ^ (F - 1) * q). lia.
Qed.

Lemma fma_product_ok ea ma eb mb : 2 ^ M <= ma < 2 ^ (M + 1) -> 2 ^ M <= mb < 2 ^ (M + 1) ->
  let '(r1, r0, e) := fma_product ea ma eb mb in
  lead r1 r0 /\ Z.Even r0 /\ (IZR ma * bpow (ea - BIAS F - M) * (IZR mb * bpow (eb - BIAS F - M)) = wval e r1 r0)%R.
Proof using HF.
  intros Ha Hb. destruct (format_sizes F HF) as (HE & HR & HM & HX). destruct (bias_mask F HF) as (_ & HB & _).
  unfold fma_product. cbv zeta. set (g := ea + eb - _ + 3).
  destruct (shift_mant F HF ma RND Ha ltac:(lia)) as (-> & Ia & Ra).
  destruct (shift_mant F HF mb RND Hb ltac:(lia)) as (-> & Ib & Rb). rewrite mul_u_exact by done.
  set (P := ma * 2 ^ RND * (mb * 2 ^ RND)).
  assert (HP : 2 ^ (2 * F - 4) <= P < 4 * 2 ^ (2 * F - 4)).
  { rewrite !(Z.pow_add_r 2 (M + RND) 1) in * by lia.
    replace (2 * F - 4) with (M + RND + (M + RND)) by lia. rewrite (Z.pow_add_r 2 (M + RND)) by lia. unfold P. nia. }
  assert (P3 : 2 ^ (2 * F - 3) = 2 * 2 ^ (2 * F - 4)) by (rewrite (pow2_half (2 * F - 3)) by lia; do 2 f_equal; lia).
  assert (EP : Z.Even P) .
  { unfold P. rewrite (pow2_half RND) by lia. exists (ma * 2 ^ (RND - 1) * (mb * (2 * 2 ^ (RND - 1)))). lia. }
  assert (Hv : (IZR ma * bpow (ea - BIAS F - M) * (IZR mb * bpow (eb - BIAS F - M)) =
    IZR P * bpow (- F) * bpow (g - BIAS F - (F - 2)))%R).
  { assert (bpow (ea - BIAS F - M) * bpow (eb - BIAS F - M) = bpow RND * bpow RND * bpow (- F) * bpow (g - BIAS F - (F - 2)))%R
      as E by (unfold g; rewrite <- !bpow_plus; f_equal; lia).
    unfold P. rewrite !mult_IZR, <- !bpow_IZR by lia.
    transitivity (IZR ma * IZR mb * (bpow (ea - BIAS F - M) * bpow (eb - BIAS F - M)))%R; [ring|]. rewrite E. ring. }
  rewrite Hv. clearbody P g. clear Hv Ra Rb Ia Ib Ha Hb. pose proof (pow2_pos F ltac:(lia)) as PF.
  assert (PL : 2 ^ (2 * F - 3) = 2 ^ (F - 3) * 2 ^ F) by (rewrite <- Z.pow_add_r by lia; f_equal; lia).
  assert (P4 : 2 ^ (F - 1) = 4 * 2 ^ (F - 3)) by (change 4 with (2 ^ 2); rewrite <- Z.pow_add_r by lia; f_equal; lia).
  pose proof (Z.div_mod P (2 ^ F) ltac:(lia)) as ED. rewrite Z.mul_comm in ED.
  pose proof (Z.mod_pos_bound P (2 ^ F) PF) as Hmod. destruct (Z.ltb_spec (P / 2 ^ F) (2 ^ (F - 3))).
  - destruct (double_words (P / 2 ^ F) (P mod 2 ^ F)) as [-> ->];
      [split; [apply Z.div_pos; lia|lia]|by apply Z.mod_pos_bound|].
    rewrite <- ED. destruct (words_of (2 * P)) as [Hl He]; [|by exists P|].
    + assert (P < 2 ^ (F - 3) * 2 ^ F) by nia. lia.
    + split_and!; [done..|]. unfold wval. rewrite (Z.mul_comm _ (2 ^ F)), <- Z.div_mod by lia.
      replace (g - BIAS F - (F - 2)) with (1 + (g - 1 - BIAS F - (F - 2))) by lia.
      rewrite bpow_plus, mult_IZR. change (bpow 1) with (2 * 1)%R. lra.
  - destruct (words_of P) as [Hl He]; [|done|].
    + assert (2 ^ (F - 3) * 2 ^ F <= P) by nia. lia.
    + split_and!; [done..|]. unfold wval. by rewrite <- ED.
Qed.

(** * The fused multiply-add *)

Lemma signed_mul na nb x y : (signed na x * signed nb y = signed (xorb na nb) (x * y))%R.
Proof. unfold signed. destruct na, nb; cbn [xorb]; ring. Qed.

Lemma fma_zero_product nr c rm fl : finite F c ->
  correct_sum F rm fl nr (fneg F c) (fval F c)
    (if (f_exp F c =? 0) && (f_mant F c =? 0) then
       (pack_sf F (if f_sign F c =? Z_of_bool nr then Z_of_bool nr else Z_of_bool (bool_decide (rm = RM_RDN))) 0 0, fl)
     else (c, fl)).
Proof using HF.
  intros Fc. pose proof Fc as [Hc _]. destruct (fields_range F HF c Hc) as (-> & _).
  destruct ((f_exp F c =? 0) && (f_mant F c =? 0)) eqn:Ez.
  - set (n := if eqb nr (fneg F c) then nr else bool_decide (rm = RM_RDN)).
    exists n, 0%R. unfold fval. rewrite fmag_zero by lia. split_and!; [|lra|done|].
    + unfold signed. destruct n, (fneg F c); lra.
    + replace (if _ =? _ then _ else _) with (Z_of_bool n) by (unfold n; by destruct nr, (fneg F c)). by apply zero_rounded.
  - pose proof (fmag_nonzero F HF c Hc ltac:(lia)). exists (fneg F c), (fmag F c). split_and!; [done|lra|lra|].
    exists c, 0. rewrite Z.lor_0_r. split; [done|by apply float_rounded].
Qed.

Lemma fma_correct a b c rm fl : finite F a -> finite F b -> finite F c ->
  correct_sum F rm fl (xorb (fneg F a) (fneg F b)) (fneg F c) (fval F a * fval F b + fval F c)
    (fma_sf int128 F a b c rm fl).
Proof using HF.
  intros [Ha Fa] [Hb Fb] Fc. unfold fma_sf. cbv zeta. rewrite sign_xor by done.
  rewrite (proj2 (Z.eqb_neq (f_exp F a) _) Fa), (proj2 (Z.eqb_neq (f_exp F b) _) Fb),
    (proj2 (Z.eqb_neq (f_exp F c) _) (proj2 Fc)). cbn [orb].
  set (nr := xorb (fneg F a) (fneg F b)). assert (fval F a * fval F b = signed nr (fmag F a * fmag F b))%R as ->
    by apply signed_mul.
  destruct ((f_exp F a =? 0) && (f_mant F a =? 0) || (f_exp F b =? 0) && (f_mant F b =? 0)) eqn:Ez.
  - assert (signed nr (fmag F a * fmag F b) + fval F c = fval F c)%R as ->; [|by apply fma_zero_product].
    assert (fmag F a * fmag F b = 0)%R as ->; [|unfold signed; destruct nr; lra].
    apply orb_prop in Ez as [Ez | Ez]; [rewrite (fmag_zero F a) by lia|rewrite (fmag_zero F b) by lia]; lra.
  - apply orb_false_iff in Ez as [Za Zb]. pose proof (normal_ok F HF a Ha ltac:(lia)) as Na.
    pose proof (normal_ok F HF b Hb ltac:(lia)) as Nb. unfold normal in Na, Nb.
    destruct (if f_exp F a =? 0 then _ else _) as [ea ma]. destruct (if f_exp F b =? 0 then _ else _) as [eb mb].
    destruct Na as [Hma ->], Nb as [Hmb ->]. pose proof (fma_product_ok ea ma eb mb Hma Hmb) as HP.
    unfold fma_product in HP. destruct (mul_u _ _ _ _) as [r1 r0]. destruct (r1 <? 2 ^ (F - 3));
      destruct HP as (Hl & He & ->); by apply fma_add_correct.
Qed.
End Fma.
