(* ===== verification/SoftfpCmp.v ===== *)
(** Comparisons of floats ([eq_quiet_sf], [le_sf], [lt_sf], [min_sf] and
    [max_sf] of [src/lib/softfp/softfp_template.h]) are those of the values,
    and the cases with a NaN. *)

From stdpp Require Import base numbers list.
From Stdlib Require Import Reals Lra Lia.
From S2P Require Import Prelude Bits Cutils Softfp SoftfpSpec SoftfpRound SoftfpArith.
Local Open Scope Z_scope.

Section Cmp.
Context (F : Z) (HF : valid_F F).
Notation M := (MANT_SIZE F).

(** The bits of the magnitude order the magnitudes; an infinity is above
    every finite float. *)
Lemma mag_bits_lt a b : inw F a -> inw F b -> mag_bits F a < mag_bits F b -> (fmag F a < fmag F b)%R.
Proof using HF.
  intros Ha Hb Hlt. destruct (format_sizes F HF) as (HE & HR & HM & HX).
  destruct (fields_range F HF a Ha) as (_ & Ea & Ma & _). destruct (fields_range F HF b Hb) as (_ & Eb & Mb & _).
  destruct (fsig_range F HF a Ha) as [Sa _]. destruct (fsig_range F HF b Hb) as [_ Sb].
  unfold mag_bits in Hlt. pose proof (bpow_pos (funit F a)).
  assert (Hle : f_exp F a <= f_exp F b) by nia.
  destruct (Z.eq_dec (funit F a) (funit F b)) as [Eu | Nu].
  - unfold fmag. rewrite Eu in *. apply Rmult_lt_compat_r; [done|]. apply IZR_lt. unfold fsig, funit in *.
    destruct (Z.eqb_spec (f_exp F a) 0), (Z.eqb_spec (f_exp F b) 0); nia.
  - assert (Hu : funit F a + 1 <= funit F b) by (unfold funit in *; lia).
    assert (Hb1 : f_exp F b <> 0) by (unfold funit in *; lia). apply Sb in Hb1.
    apply Rlt_le_trans with (bpow (M + 1 + funit F a)).
    + unfold fmag. rewrite bpow_plus. apply Rmult_lt_compat_r; [done|]. rewrite bpow_IZR by lia. apply IZR_lt. lia.
    + apply Rle_trans with (bpow (M + funit F b)); [apply bpow_le; lia|]. unfold fmag. rewrite bpow_plus.
      apply Rmult_le_compat_r; [left; apply bpow_pos|]. rewrite bpow_IZR by lia. by apply IZR_le.
Qed.

Lemma mag_bits_cmp a b : inw F a -> inw F b ->
  ((fmag F a < fmag F b)%R <-> mag_bits F a < mag_bits F b) /\ (fmag F a = fmag F b <-> mag_bits F a = mag_bits F b).
Proof using HF.
  intros Ha Hb. pose proof (mag_bits_lt a b Ha Hb) as H1. pose proof (mag_bits_lt b a Hb Ha) as H2.
  assert (mag_bits F a = mag_bits F b -> fmag F a = fmag F b) as H3.
  { unfold mag_bits. destruct (format_sizes F HF) as (_ & _ & HM & _).
    destruct (fields_range F HF a Ha) as (_ & Ea & Ma & _). destruct (fields_range F HF b Hb) as (_ & Eb & Mb & _).
    intros E. assert (f_exp F a = f_exp F b) as E1 by nia. assert (f_mant F a = f_mant F b) as E2 by nia.
    unfold fmag, fsig, funit. by rewrite E1, E2. }
  destruct (Z.lt_total (mag_bits F a) (mag_bits F b)) as [Hl | [He | Hg]].
  - specialize (H1 Hl). split; split; (lra || lia).
  - specialize (H3 He). split; split; (lra || lia).
  - specialize (H2 Hg). split; split; (lra || lia).
Qed.

(** The bits of a float: its sign and its magnitude. *)
Lemma float_bits a : inw F a -> 0 <= mag_bits F a < 2 ^ (F - 1) /\ a = Z_of_bool (fneg F a) * 2 ^ (F - 1) + mag_bits F a /\
  (mag_bits F a = 0 /\ fmag F a = 0%R \/ 0 < mag_bits F a /\ (0 < fmag F a)%R).
Proof using HF.
  intros Ha. destruct (format_sizes F HF) as (HE & HR & HM & HX).
  destruct (fields_range F HF a Ha) as (Hs & He & Hm & Hsum).
  assert (P : 2 ^ (F - 1) = 2 ^ EXP_SIZE F * 2 ^ M) by (replace (F - 1) with (EXP_SIZE F + M) by lia; apply Z.pow_add_r; lia).
  pose proof (pow2_pos M ltac:(lia)). unfold mag_bits, EXP_MASK in *. rewrite Hs in Hsum. split_and!; [nia|nia|nia|].
  destruct (Z.eq_dec (f_exp F a * 2 ^ M + f_mant F a) 0) as [E | E].
  - left. split; [done|]. apply fmag_zero; nia.
  - right. split; [nia|]. apply fmag_nonzero; [done..|]. intros [E1 E2]. rewrite E1, E2 in E. lia.
Qed.

(** What a number rounds to is unique. *)
Lemma is_float_unique neg x r r' : is_float F neg x r -> is_float F neg x r' -> r = r'.
Proof using HF.
  intros ([Hr _] & Sr & Mr) ([Hr' _] & Sr' & Mr'). destruct (mag_bits_cmp r r' Hr Hr') as [_ Heq].
  destruct (float_bits r Hr) as (_ & -> & _), (float_bits r' Hr') as (_ & -> & _).
  unfold fneg. rewrite Sr, Sr'. rewrite (proj1 Heq) by congruence. done.
Qed.

Lemma quantum_unique x q q' : quantum F x q -> quantum F x q' -> q = q'.
Proof.
  intros [[-> H1] | [H1 [H2 H3]]] [[-> K1] | [K1 [K2 K3]]]; [done|exfalso..|].
  - pose proof (bpow_le (QMIN F + PREC F) (q' + PREC F - 1) ltac:(lia)). lra.
  - pose proof (bpow_le (QMIN F + PREC F) (q + PREC F - 1) ltac:(lia)). lra.
  - pose proof (bpow_lt_inv (q + PREC F - 1) (q' + PREC F) ltac:(lra)).
    pose proof (bpow_lt_inv (q' + PREC F - 1) (q + PREC F) ltac:(lra)). lia.
Qed.

Lemma rounded_unique rm neg x r raised r' raised' :
  rounded F rm neg x r raised -> rounded F rm neg x r' raised' -> r = r' /\ raised = raised'.
Proof using HF.
  intros [q n Hq Hn Hlt Hf He | q n Hq Hn Hge Hr He] [q' n' Hq' Hn' Hlt' Hf' He' | q' n' Hq' Hn' Hge' Hr' He'];
    rewrite <- (quantum_unique x q q' Hq Hq') in *; rewrite <- (rounds_unique _ _ _ _ _ Hn Hn') in *; try lra.
  - split; [by apply (is_float_unique neg (IZR n * bpow q)%R)|]. intuition congruence.
  - split; congruence.
Qed.

Lemma both_zero_mag a b : inw F a -> inw F b -> both_zero F a b = (mag_bits F a =? 0) && (mag_bits F b =? 0).
Proof using HF.
  intros Ha Hb. assert (1 < F) by (destruct HF as [-> | [-> | ->]]; lia).
  assert (Hmod : forall x, inw F x -> mag_bits F x = x mod 2 ^ (F - 1)).
  { intros x Hx. destruct (float_bits x Hx) as (Hm & E & _). rewrite E at 2. rewrite Z.add_comm, Z.mod_add, Z.mod_small by lia. done. }
  rewrite !Hmod by done. unfold both_zero, uw. rewrite Z.shiftl_mul_pow2, (pow2_half F) by lia.
  change (2 ^ 1) with 2. rewrite (Z.mul_comm _ 2), Z.mul_mod_distr_l by (pose proof (pow2_pos (F - 1)); lia).
  assert (E : Z.lor a b mod 2 ^ (F - 1) = Z.lor (a mod 2 ^ (F - 1)) (b mod 2 ^ (F - 1))).
  { bits_at i Hi. rewrite Z.lor_spec, !Z.testbit_mod_pow2, Z.lor_spec by lia. by destruct (i <? F - 1). }
  apply eq_true_iff_eq. rewrite andb_true_iff, !Z.eqb_eq, E. rewrite <- Z.lor_eq_0_iff. lia.
Qed.

(** The order of two floats by their bits. *)
Lemma bits_order a b : inw F a -> inw F b ->
  let lt := if negb (f_sign F a =? f_sign F b) then nz (f_sign F a) && negb (both_zero F a b)
            else if nz (f_sign F a) then b <? a else a <? b in
  let le := if negb (f_sign F a =? f_sign F b) then nz (f_sign F a) || both_zero F a b
            else if nz (f_sign F a) then b <=? a else a <=? b in
  (lt = true <-> (fval F a < fval F b)%R) /\ (le = true <-> (fval F a <= fval F b)%R) /\
  (both_zero F a b || (a =? b) = true <-> fval F a = fval F b).
Proof using HF.
  intros Ha Hb lt le. destruct (float_bits a Ha) as (Ra & Ea & Ca), (float_bits b Hb) as (Rb & Eb & Cb).
  destruct (mag_bits_cmp a b Ha Hb) as [Hlt Heq]. destruct (mag_bits_cmp b a Hb Ha) as [Hgt _].
  subst lt le. rewrite !both_zero_mag by done. unfold nz.
  rewrite (proj1 (fields_range F HF a Ha)), (proj1 (fields_range F HF b Hb)). unfold fval.
  set (P := 2 ^ (F - 1)) in *. set (ma := mag_bits F a) in *. set (mb := mag_bits F b) in *.
  set (x := fmag F a) in *. set (y := fmag F b) in *. set (na := fneg F a) in *. set (nb := fneg F b) in *.
  clearbody P ma mb x y na nb. rewrite Ea, Eb. clear Ea Eb. destruct na, nb; cbn [Z_of_bool Z.eqb Pos.eqb negb signed orb andb];
    split_and!; rewrite ?Bool.orb_true_iff, ?Bool.andb_true_iff, ?Bool.negb_true_iff, ?Bool.andb_false_iff,
      ?Z.eqb_eq, ?Z.eqb_neq, ?Z.ltb_lt, ?Z.leb_le.
  all: destruct (Z.lt_total ma mb) as [Hl | [He | Hg]];
    [pose proof (proj2 Hlt Hl)|pose proof (proj2 Heq He)|pose proof (proj2 Hgt Hg)].
  all: split; intros.
  all: destruct Ca as [[? ?] | [? ?]], Cb as [[? ?] | [? ?]]; try (lra || lia).
Qed.

(** * NaNs *)

Lemma issignan_spec a : issignan_sf F a = signals F a.
Proof using HF.
  destruct (format_sizes F HF) as (_ & _ & HM & HX). unfold issignan_sf, signals, nan, nz. cbv zeta.
  set (t := Z.shiftr a (M - 1)). assert (Ht : Z.shiftr a M = Z.shiftr t 1).
  { unfold t. rewrite Z.shiftr_shiftr by lia. f_equal. lia. }
  assert (Hb : Z.testbit a (M - 1) = Z.odd t).
  { unfold t. rewrite <- Z.bit0_odd, Z.shiftr_spec by lia. f_equal. }
  unfold f_exp, EXP_MASK. rewrite Ht, Hb. clear Ht Hb. clearbody t. rewrite Z.shiftr_div_pow2 by lia.
  rewrite !(Z.sub_1_r (2 ^ _)), <- !Z.ones_equiv, !Z.land_ones by lia. change (2 ^ 1) with 2.
  replace (EXP_SIZE F + 1) with (1 + EXP_SIZE F) by lia. rewrite Z.pow_add_r by lia. change (2 ^ 1) with 2.
  rewrite Z.rem_mul_r, Zmod_odd by (pose proof (pow2_pos (EXP_SIZE F)); lia).
  set (u := (t / 2) mod _). set (k := Z.ones _). clearbody u k.
  destruct (Z.odd t); cbn [negb]; rewrite ?andb_true_r, ?andb_false_r; apply eq_true_iff_eq;
    rewrite !andb_true_iff, !Z.eqb_eq; intuition lia.
Qed.

(** What a minimum or a maximum with a NaN is. *)
Definition nan_choice (ty : MinMaxType) (a b : Z) : Z :=
  let other := if nan F a then if nan F b then F_QNAN F else b else a in
  match ty with
  | FMINMAX_PROP => F_QNAN F
  | FMINMAX_IEEE754_2008 => if signals F a || signals F b then F_QNAN F else other
  | FMINMAX_IEEE754_201X => other
  end.

Lemma min_max_nan a b fl ty :
  min_max_nan_sf F a b fl ty = (nan_choice ty a b, raise FFLAG_INVALID_OP (signals F a || signals F b) fl).
Proof using HF.
  unfold min_max_nan_sf, nan_choice. rewrite !issignan_spec. by destruct ty, (signals F a || signals F b).
Qed.

(** The choice of [min_sf]: [pick] is that the first operand is taken. *)
Lemma pick_order a b : inw F a -> inw F b ->
  let pick := if negb (f_sign F a =? f_sign F b) then nz (f_sign F a) else xorb (a <? b) (nz (f_sign F a)) in
  if pick then (fval F a <= fval F b)%R /\ (fneg F b = true -> fneg F a = true)
  else (fval F b <= fval F a)%R /\ (fneg F a = true -> fneg F b = true).
Proof using HF.
  intros Ha Hb pick. destruct (bits_order a b Ha Hb) as (_ & Hle & _). destruct (bits_order b a Hb Ha) as (_ & Hge & _).
  unfold pick, nz in *. rewrite (proj1 (fields_range F HF a Ha)), (proj1 (fields_range F HF b Hb)) in *. clear pick.
  destruct (fneg F a), (fneg F b); cbn [Z_of_bool Z.eqb Pos.eqb negb orb] in *;
    rewrite ?xorb_true_r, ?xorb_false_r; destruct (Z.ltb_spec a b); cbn [negb];
    (split; [|done]; (apply Hle || apply Hge); (done || apply Z.leb_le; lia)).
Qed.
End Cmp.

(** What the five comparisons of [a] and [b] return when neither is a NaN:
    they compare the values, where an infinity counts as [2 ^ (BIAS + 1)],
    which is beyond every finite float; of two zeros the negative one is the
    minimum. *)
Definition ordered_results (F a b fl : Z) (ty : MinMaxType) : Prop :=
  exists eq le lt mn mx,
    eq_quiet_sf F a b fl = (eq, fl) /\ le_sf F a b fl = (le, fl) /\ lt_sf F a b fl = (lt, fl) /\
    min_sf F a b fl ty = (mn, fl) /\ max_sf F a b fl ty = (mx, fl) /\
    (eq = true <-> fval F a = fval F b) /\ (le = true <-> (fval F a <= fval F b)%R) /\
    (lt = true <-> (fval F a < fval F b)%R) /\
    (mn = a /\ mx = b \/ mn = b /\ mx = a) /\
    (fval F mn <= fval F mx)%R /\ (fneg F mx = true -> fneg F mn = true).

(** C16: on any two floats of the three formats, the quiet equality, the
    signalling "at most" and "less than", the minimum and the maximum are
    those of the real values; with a NaN the comparisons are false and raise
    invalid (the equality only for a signalling NaN), and the minimum and the
    maximum are what the chosen standard says. *)
Theorem compare_exact F a b fl ty : valid_F F -> inw F a -> inw F b ->
  if nan F a || nan F b then
    eq_quiet_sf F a b fl = (false, raise FFLAG_INVALID_OP (signals F a || signals F b) fl) /\
    le_sf F a b fl = (false, Z.lor fl FFLAG_INVALID_OP) /\ lt_sf F a b fl = (false, Z.lor fl FFLAG_INVALID_OP) /\
    min_sf F a b fl ty = (nan_choice F ty a b, raise FFLAG_INVALID_OP (signals F a || signals F b) fl) /\
    max_sf F a b fl ty = (nan_choice F ty a b, raise FFLAG_INVALID_OP (signals F a || signals F b) fl)
  else ordered_results F a b fl ty.
Proof.
  intros HF Ha Hb. unfold ordered_results, eq_quiet_sf, le_sf, lt_sf, min_sf, max_sf.
  rewrite !issignan_spec, min_max_nan by done. change (isnan_sf F) with (nan F).
  destruct (nan F a || nan F b); [done|].
  destruct (bits_order F HF a b Ha Hb) as (Hlt & Hle & Heq). pose proof (pick_order F HF a b Ha Hb) as Hp.
  revert Hlt Hle Hp. cbv zeta.
  destruct (negb (f_sign F a =? f_sign F b)); [destruct (nz (f_sign F a))|destruct (xorb (a <? b) (nz (f_sign F a)))];
    intros Hlt Hle [Hv Hs]; eexists _, _, _, _, _; split_and!; try reflexivity; try done; (left; done) || (right; done).
Qed.

Lemma compare_exact_witness : ordered_results 32 0xbf800000 0x7f800000 0 FMINMAX_IEEE754_201X.
Proof. apply (compare_exact 32 0xbf800000 0x7f800000 0 FMINMAX_IEEE754_201X); [by left|by vm_compute..]. Defined.
