(* ===== verification/SoftfpIeee.v ===== *)
(** The arithmetic of [src/lib/softfp/softfp_template.h] against IEEE 754: for
    every operation, the special operands and, on finite ones, the exact result
    rounded once ([SoftfpSpec]). *)

From stdpp Require Import base numbers list.
From Stdlib Require Import Reals Lra Lia.
From S2P Require Import Prelude Bits Cutils Softfp SoftfpSpec SoftfpRound SoftfpArith SoftfpSqrt SoftfpFma SoftfpCmp.
Local Open Scope Z_scope.

(** * What the operations promise *)

Section Promise.
Context (F : Z) (rm : RoundingMode) (fl : Z).

(** The result with an operand that is a NaN, and that of an operation without
    a value. *)
Definition nan_result (sig : bool) : Z * Z := (F_QNAN F, raise FFLAG_INVALID_OP sig fl).
Definition no_value : Z * Z := (F_QNAN F, Z.lor fl FFLAG_INVALID_OP).
Definition zero (a : Z) : bool := (f_exp F a =? 0) && (f_mant F a =? 0).

(** [a] and the magnitude of [b] with the sign [nb]. *)
Definition sum_spec (a b : Z) (nb : bool) (res : Z * Z) : Prop :=
  if nan F a || nan F b then res = nan_result (signals F a || signals F b)
  else if inf F a && inf F b && negb (eqb (fneg F a) nb) then res = no_value
  else if inf F a then res = (infinity F (fneg F a), fl)
  else if inf F b then res = (infinity F nb, fl)
  else correct_sum F rm fl (fneg F a) nb (fval F a + signed nb (fmag F b)) res.

Definition mul_spec (a b : Z) (res : Z * Z) : Prop :=
  let neg := xorb (fneg F a) (fneg F b) in
  if nan F a || nan F b then res = nan_result (signals F a || signals F b)
  else if inf F a && zero b || inf F b && zero a then res = no_value
  else if inf F a || inf F b then res = (infinity F neg, fl)
  else correctly_rounded F rm fl neg (fmag F a * fmag F b) res.

(** [a * b + c] *)
Definition fma_spec (a b c : Z) (res : Z * Z) : Prop :=
  let neg := xorb (fneg F a) (fneg F b) in
  if nan F a || nan F b || nan F c then res = nan_result (signals F a || signals F b || signals F c)
  else if inf F a && zero b || inf F b && zero a then res = no_value
  else if (inf F a || inf F b) && inf F c && negb (eqb neg (fneg F c)) then res = no_value
  else if inf F a || inf F b then res = (infinity F neg, fl)
  else if inf F c then res = (infinity F (fneg F c), fl)
  else correct_sum F rm fl neg (fneg F c) (fval F a * fval F b + fval F c) res.

Definition div_spec (a b : Z) (res : Z * Z) : Prop :=
  let neg := xorb (fneg F a) (fneg F b) in
  if nan F a || nan F b then res = nan_result (signals F a || signals F b)
  else if inf F a && inf F b || zero a && zero b then res = no_value
  else if inf F a then res = (infinity F neg, fl)
  else if inf F b then res = (pack_sf F (Z_of_bool neg) 0 0, fl)
  else if zero b then res = (infinity F neg, Z.lor fl FFLAG_DIVIDE_ZERO)
  else correctly_rounded F rm fl neg (fmag F a / fmag F b) res.

Definition sqrt_spec (a : Z) (res : Z * Z) : Prop :=
  if nan F a then res = nan_result (signals F a)
  else if fneg F a && negb (zero a) then res = no_value
  else if inf F a then res = (infinity F (fneg F a), fl)
  else correctly_rounded F rm fl (fneg F a) (sqrt (fmag F a)) res.
End Promise.

Lemma land_pow2 a k : 0 <= k -> Z.land a (2 ^ k) = if Z.testbit a k then 2 ^ k else 0.
Proof.
  intros Hk. bits_at i Hi. rewrite Z.land_spec, testbit_pow2 by done. destruct (Z.eqb_spec i k) as [-> |].
  - rewrite andb_true_r. destruct (Z.testbit a k); [by rewrite testbit_pow2, Z.eqb_refl|by rewrite Z.bits_0].
  - rewrite andb_false_r. destruct (Z.testbit a k); [|by rewrite Z.bits_0]. rewrite testbit_pow2 by done. symmetry. by apply Z.eqb_neq.
Qed.

Section Ieee.
Context (int128 : bool) (F : Z) (HF : valid_F F).
Notation M := (MANT_SIZE F).

(** * The kinds of operands *)

Lemma inf_float a : inw F a -> inf F a = true -> a = infinity F (fneg F a).
Proof using HF.
  intros Ha Hi. unfold inf in Hi. destruct (fields_range F HF a Ha) as (Hs & He & Hm & Hsum).
  destruct (format_sizes F HF) as (_ & _ & HM & _). pose proof (pow2_pos M ltac:(lia)).
  unfold infinity. rewrite pack_sum by (done || lia). rewrite Z.mod_0_l by lia. rewrite <- Hs. rewrite Hsum at 1. lia.
Qed.

Lemma finite_kind a : inw F a -> nan F a = false -> inf F a = false -> finite F a.
Proof. unfold nan, inf. intros Ha Hn Hi. split; [done|]. intros E. rewrite E, Z.eqb_refl in *. by destruct (_ =? _). Qed.

(** The bits of the magnitude tell the kinds apart. *)
Lemma kind_bits a : inw F a ->
  nan F a = (EXP_MASK F * 2 ^ M <? mag_bits F a) /\ inf F a = (mag_bits F a =? EXP_MASK F * 2 ^ M) /\
  zero F a = (mag_bits F a =? 0).
Proof using HF.
  intros Ha. destruct (fields_range F HF a Ha) as (_ & He & Hm & _). destruct (format_sizes F HF) as (_ & _ & HM & _).
  pose proof (pow2_pos M ltac:(lia)). unfold nan, inf, zero, mag_bits.
  destruct (Z.eqb_spec (f_exp F a) (EXP_MASK F)) as [-> |], (Z.eqb_spec (f_mant F a) 0), (Z.eqb_spec (f_exp F a) 0);
    cbn [andb negb]; split_and!; symmetry; rewrite ?Z.ltb_lt, ?Z.ltb_ge, ?Z.eqb_eq, ?Z.eqb_neq; nia.
Qed.

(** * Addition *)

Lemma add_sf_swap a b rm fl : inw F a -> inw F b -> mag_bits F a < mag_bits F b ->
  add_sf F a b rm fl = add_sf F b a rm fl.
Proof using HF.
  intros Ha Hb Hlt. unfold add_sf. rewrite !ldiff_sign by done.
  by rewrite (proj2 (Z.ltb_lt _ _) Hlt), (proj2 (Z.ltb_ge (mag_bits F b) _)) by lia.
Qed.

Lemma quiet_bit a : nan F a = true ->
  negb (nz (Z.land (Z.shiftl (f_mant F a) 3) (Z.shiftl (QNAN_MASK F) 3))) = signals F a.
Proof using HF.
  intros Hn. destruct (format_sizes F HF) as (_ & _ & HM & _). unfold signals. rewrite Hn. cbn [andb].
  rewrite <- Z.shiftl_land. unfold nz. rewrite negb_involutive. unfold f_mant, MANT_MASK, QNAN_MASK.
  rewrite <- Z.land_assoc, Z.sub_1_r, <- Z.ones_equiv.
  assert (Z.land (Z.ones M) (2 ^ (M - 1)) = 2 ^ (M - 1)) as ->.
  { rewrite Z.land_comm, Z.land_ones by lia. apply Z.mod_small. split; [pose proof (pow2_pos (M - 1)); lia|].
    apply Z.pow_lt_mono_r; lia. }
  rewrite land_pow2 by lia. pose proof (pow2_pos (M - 1) ltac:(lia)).
  destruct (Z.testbit a (M - 1)); cbn [negb]; [apply Z.eqb_neq|apply Z.eqb_eq]; rewrite Z.shiftl_mul_pow2; lia.
Qed.

Lemma add_special a b rm fl : inw F a -> inw F b -> mag_bits F b <= mag_bits F a -> nan F a || inf F a = true ->
  add_sf F a b rm fl =
  if nan F a then nan_result F fl (signals F a || signals F b)
  else if inf F b && negb (eqb (fneg F a) (fneg F b)) then no_value F fl else (infinity F (fneg F a), fl).
Proof using HF.
  intros Ha Hb Hle Hs. unfold add_sf. rewrite !ldiff_sign, (proj2 (Z.ltb_ge (mag_bits F a) _)) by (done || lia).
  cbv zeta. assert (f_exp F a = EXP_MASK F) as E by (unfold nan, inf in Hs; lia). rewrite E, Z.eqb_refl.
  assert (Hm : nz (Z.shiftl (f_mant F a) 3) = nan F a).
  { unfold nan, nz. rewrite E, Z.eqb_refl, Z.shiftl_mul_pow2 by lia. cbn [andb]. f_equal. apply eq_true_iff_eq. rewrite !Z.eqb_eq. lia. }
  rewrite Hm. destruct (nan F a) eqn:Na.
  { rewrite quiet_bit, issignan_spec by done. done. }
  rewrite <- (inf_float a Ha Hs). destruct (kind_bits b Hb) as (Nb & Ib & _), (kind_bits a Ha) as (Na' & Ia & _).
  cbn [orb] in Hs. rewrite Na in Na'. rewrite Hs in Ia.
  symmetry in Ia. apply Z.eqb_eq in Ia. assert (nan F b = false) as Nb' by (rewrite Nb; apply Z.ltb_ge; lia). unfold nan in Nb'. unfold inf.
  rewrite (proj1 (fields_range F HF a Ha)), (proj1 (fields_range F HF b Hb)).
  destruct (Z.eqb_spec (f_exp F b) (EXP_MASK F)), (f_mant F b =? 0); try done; by destruct (fneg F a), (fneg F b).
Qed.

Lemma add_spec_ordered a b rm fl : inw F a -> inw F b -> mag_bits F b <= mag_bits F a ->
  sum_spec F rm fl a b (fneg F b) (add_sf F a b rm fl).
Proof using HF.
  intros Ha Hb Hle. destruct (kind_bits b Hb) as (Nb & Ib & _), (kind_bits a Ha) as (Na & Ia & _).
  assert (nan F a = false -> nan F b = false) as Hnan by (rewrite Na, Nb, !Z.ltb_ge; lia).
  assert (nan F a = false -> inf F a = false -> inf F b = false) as Hinf
    by (rewrite Na, Ia, Ib, Z.ltb_ge, !Z.eqb_neq; lia).
  clear Na Nb Ia Ib. unfold sum_spec. destruct (nan F a) eqn:Na; [cbn [orb]; rewrite add_special, Na by (done || by rewrite Na); done|].
  rewrite Hnan by done. cbn [orb]. destruct (inf F a) eqn:Ia.
  - rewrite add_special, Na by (done || by rewrite Na, Ia). cbn [andb]. by destruct (inf F b && _).
  - rewrite Hinf by done. cbn [andb]. apply add_correct; [done|by apply finite_kind|apply finite_kind; auto].
Qed.

Lemma sum_spec_comm a b rm fl res : inw F a -> inw F b ->
  sum_spec F rm fl b a (fneg F a) res -> sum_spec F rm fl a b (fneg F b) res.
Proof using HF.
  intros Ha Hb. unfold sum_spec. rewrite (orb_comm (nan F a)), (orb_comm (signals F a)), (andb_comm (inf F a)).
  destruct (nan F b || nan F a); [done|]. destruct (inf F a) eqn:Ia, (inf F b) eqn:Ib; cbn [andb].
  - by destruct (fneg F a), (fneg F b).
  - done.
  - done.
  - apply correct_sum_comm.
Qed.

Lemma add_meets_spec a b rm fl : inw F a -> inw F b -> sum_spec F rm fl a b (fneg F b) (add_sf F a b rm fl).
Proof using HF.
  intros Ha Hb. destruct (Z.lt_ge_cases (mag_bits F a) (mag_bits F b)).
  - rewrite add_sf_swap by done. apply sum_spec_comm; [done..|]. apply add_spec_ordered; [done..|lia].
  - by apply add_spec_ordered.
Qed.

Lemma flip_kind b : inw F b ->
  let b' := Z.lxor b (SIGN_MASK F) in
  inw F b' /\ fneg F b' = negb (fneg F b) /\ fmag F b' = fmag F b /\ nan F b' = nan F b /\ inf F b' = inf F b /\
  signals F b' = signals F b.
Proof using HF.
  intros Hb b'. destruct (format_sizes F HF) as (HE & _ & HM & HX).
  assert (Ht : Z.testbit b' (M - 1) = Z.testbit b (M - 1)).
  { unfold b', SIGN_MASK. rewrite Z.lxor_spec, testbit_pow2, (proj2 (Z.eqb_neq (M - 1) (F - 1))) by lia. apply xorb_false_r. }
  unfold signals. rewrite Ht. unfold b'. rewrite flip_sign by done.
  destruct (fields_range F HF b Hb) as (Hs & He & Hm & _).
  destruct (pack_fields F HF (negb (fneg F b)) (f_exp F b) (f_mant F b) He) as (Hw & Hs' & He' & Hm').
  rewrite Z.mod_small in Hm' by done. set (p := pack_sf _ _ _ _) in *.
  split_and!; [done| |unfold fmag, fsig, funit; by rewrite He', Hm'|unfold nan..]; rewrite ?He', ?Hm'; try done.
  - unfold fneg at 1. rewrite Hs'. by destruct (fneg F b).
  - unfold inf. by rewrite He', Hm'.
Qed.

Lemma sub_meets_spec a b rm fl : inw F a -> inw F b -> sum_spec F rm fl a b (negb (fneg F b)) (sub_sf F a b rm fl).
Proof using HF.
  intros Ha Hb. destruct (flip_kind b Hb) as (Hb' & <- & Hm & Hn & Hi & Hs).
  pose proof (add_meets_spec a _ rm fl Ha Hb') as H. unfold sum_spec, fval in *. by rewrite Hm, Hn, Hi, Hs in H.
Qed.

(** * Multiplication, division and square root *)

(** The exponent and the mantissa of each kind of operand. *)
Inductive kind (a : Z) : Prop :=
| kind_nan : f_exp F a = EXP_MASK F -> f_mant F a <> 0 -> nan F a = true -> inf F a = false -> zero F a = false -> kind a
| kind_inf : f_exp F a = EXP_MASK F -> f_mant F a = 0 -> nan F a = false -> inf F a = true -> zero F a = false -> kind a
| kind_finite : f_exp F a <> EXP_MASK F -> nan F a = false -> inf F a = false -> finite F a -> kind a.

Lemma kind_of a : inw F a -> kind a.
Proof using HF.
  intros Ha. destruct (bias_mask F HF) as (HB & _ & HB2). destruct (Z.eq_dec (f_exp F a) (EXP_MASK F)) as [E | E].
  - assert ((f_exp F a =? 0) = false) as E0 by lia. destruct (Z.eq_dec (f_mant F a) 0) as [E2 | E2].
    + apply kind_inf; try done; unfold nan, inf, zero; by rewrite ?E0, ?E, ?E2, ?Z.eqb_refl.
    + apply Z.eqb_neq in E2 as E3. apply kind_nan; try done; unfold nan, inf, zero; by rewrite ?E0, ?E3, ?E, ?Z.eqb_refl.
  - apply Z.eqb_neq in E as E2. apply kind_finite; [done|unfold nan, inf; by rewrite E2..|done].
Qed.

Ltac kinds := repeat match goal with
  | H : nan F _ = _ |- _ => rewrite H in *; clear H
  | H : inf F _ = _ |- _ => rewrite H in *; clear H
  | H : f_exp F _ = EXP_MASK F |- _ => rewrite H, Z.eqb_refl in *; clear H
  | H : f_exp F _ <> EXP_MASK F |- _ => apply Z.eqb_neq in H; rewrite H in *; clear H
  | H : f_mant F _ = 0 |- _ => apply Z.eqb_eq in H; rewrite ?H in *; clear H
  | H : f_mant F _ <> 0 |- _ => apply Z.eqb_neq in H; rewrite ?H in *; clear H
  end; cbn [andb orb negb] in *.

Lemma mul_meets_spec a b rm fl : inw F a -> inw F b -> mul_spec F rm fl a b (mul_sf int128 F a b rm fl).
Proof using HF.
  intros Ha Hb. pose proof (mul_correct int128 F HF a b rm fl) as Hc.
  unfold mul_sf, mul_spec in *. cbv zeta in *. rewrite !sign_xor, !issignan_spec in * by done.
  change (isnan_sf F) with (nan F) in *. fold (zero F a) in *. fold (zero F b) in *.
  destruct (kind_of a Ha), (kind_of b Hb); kinds; try done; try (by apply Hc).
  all: by destruct (zero F a), (zero F b).
Qed.

Lemma fma_meets_spec a b c rm fl : inw F a -> inw F b -> inw F c -> fma_spec F rm fl a b c (fma_sf int128 F a b c rm fl).
Proof using HF.
  intros Ha Hb Hc. pose proof (fma_correct int128 F HF a b c rm fl) as Hfma.
  unfold fma_sf, fma_spec in *. cbv zeta in *. rewrite !sign_xor, !issignan_spec in * by done.
  change (isnan_sf F) with (nan F) in *. fold (zero F a) in *. fold (zero F b) in *.
  rewrite (proj1 (fields_range F HF c Hc)) in *. set (neg := xorb _ _) in *. clearbody neg.
  destruct (kind_of a Ha), (kind_of b Hb), (kind_of c Hc); kinds; try done; try (by apply Hfma).
  all: by destruct (zero F a), (zero F b), neg, (fneg F c).
Qed.

Lemma div_meets_spec a b rm fl : inw F a -> inw F b -> div_spec F rm fl a b (div_sf int128 F a b rm fl).
Proof using HF.
  intros Ha Hb. pose proof (div_correct int128 F HF a b rm fl) as Hc.
  unfold div_sf, div_spec in *. cbv zeta in *. rewrite !sign_xor, !issignan_spec in * by done.
  change (isnan_sf F) with (nan F) in *. fold (zero F a) in *. fold (zero F b) in *.
  assert (Hz : finite F b -> zero F b = false -> fmag F b <> 0%R).
  { intros _ Hz. apply Rgt_not_eq, fmag_nonzero; [done..|]. unfold zero in Hz. lia. }
  destruct (kind_of a Ha), (kind_of b Hb); unfold nz in *; kinds; try done.
  1,2: by destruct (zero F a), (zero F b).
  destruct (zero F b) eqn:Zb; [by destruct (zero F a)|]. rewrite andb_false_r. apply Hc; auto.
Qed.

Lemma sqrt_meets_spec a rm fl : inw F a -> sqrt_spec F rm fl a (sqrt_sf int128 F a rm fl).
Proof using HF.
  intros Ha. pose proof (sqrt_correct int128 F HF a rm fl) as Hc.
  unfold sqrt_sf, sqrt_spec in *. cbv zeta in *. rewrite !issignan_spec in * by done.
  fold (zero F a) in *. fold (fneg F a) in *. pose proof (inf_float a Ha) as Hi.
  destruct (kind_of a Ha); unfold nz in *; kinds; try done.
  - rewrite H3. rewrite <- Hi by done. by destruct (fneg F a).
  - destruct (fneg F a) eqn:Na; cbn [andb negb]; [|auto]. destruct (zero F a) eqn:Za; [|done]. apply Hc; [done|].
    right. apply fmag_zero; unfold zero in Za; lia.
Qed.
End Ieee.

(** C12: addition and subtraction of any two floats, in the three formats and
    the five rounding modes, are those of IEEE 754: a NaN gives the canonical
    NaN and raises invalid if it signals, infinities add up or have no sum, and
    the exact sum of finite operands is rounded once, with the sign of a zero
    sum, the overflow result and the inexact, underflow and overflow flags that
    go with it. *)
Theorem add_sub_exact F a b rm fl : valid_F F -> inw F a -> inw F b ->
  sum_spec F rm fl a b (fneg F b) (add_sf F a b rm fl) /\
  sum_spec F rm fl a b (negb (fneg F b)) (sub_sf F a b rm fl).
Proof. intros HF Ha Hb. split; [by apply add_meets_spec|by apply sub_meets_spec]. Qed.

(** [1 + 2 ^ -24] is a tie that rounds to even, [1 - 2 ^ -24] is exact. *)
Lemma add_sub_exact_witness :
  sum_spec 32 RM_RNE 0 0x3f800000 0x33800000 (fneg 32 0x33800000) (0x3f800000, FFLAG_INEXACT) /\
  sum_spec 32 RM_RNE 0 0x3f800000 0x33800000 (negb (fneg 32 0x33800000)) (0x3f7fffff, 0).
Proof. exact (add_sub_exact 32 0x3f800000 0x33800000 RM_RNE 0 (or_introl eq_refl) ltac:(by vm_compute) ltac:(by vm_compute)). Defined.

(** C13: multiplication and the fused multiply-add are those of IEEE 754, whether
    or not the host has 128-bit integers: an infinity times zero has no value,
    and the exact product, with the third operand added to it exactly, is
    rounded once. *)
Theorem mul_fma_exact int128 F a b c rm fl : valid_F F -> inw F a -> inw F b -> inw F c ->
  mul_spec F rm fl a b (mul_sf int128 F a b rm fl) /\
  fma_spec F rm fl a b c (fma_sf int128 F a b c rm fl).
Proof. intros HF Ha Hb Hc. split; [by apply mul_meets_spec|by apply fma_meets_spec]. Qed.

(** [(1 + 2 ^ -52) * (1 - 2 ^ -53)] rounds to one and the fused sum with [-1]
    keeps what was lost. *)
Lemma mul_fma_exact_witness :
  mul_spec 64 RM_RNE 0 0x3ff0000000000001 0x3fefffffffffffff (0x3ff0000000000000, FFLAG_INEXACT) /\
  fma_spec 64 RM_RNE 0 0x3ff0000000000001 0x3fefffffffffffff 0xbff0000000000000 (0x3c9ffffffffffffe, 0).
Proof.
  exact (mul_fma_exact true 64 0x3ff0000000000001 0x3fefffffffffffff 0xbff0000000000000 RM_RNE 0
           (or_intror (or_introl eq_refl)) ltac:(by vm_compute) ltac:(by vm_compute) ltac:(by vm_compute)).
Defined.

(** C14: division and square root are those of IEEE 754, whether or not the host
    has 128-bit integers: zero by zero, infinity by infinity and the root of a
    negative number have no value, a division by zero gives an infinity and
    raises its flag, and the exact quotient or root is rounded once. *)
Theorem div_sqrt_exact int128 F a b rm fl : valid_F F -> inw F a -> inw F b ->
  div_spec F rm fl a b (div_sf int128 F a b rm fl) /\ sqrt_spec F rm fl a (sqrt_sf int128 F a rm fl).
Proof. intros HF Ha Hb. split; [by apply div_meets_spec|by apply sqrt_meets_spec]. Qed.

(** [2 / 3] and the root of [2]. *)
Lemma div_sqrt_exact_witness :
  div_spec 32 RM_RUP 0 0x40000000 0x40400000 (0x3f2aaaab, FFLAG_INEXACT) /\
  sqrt_spec 32 RM_RUP 0 0x40000000 (0x3fb504f4, FFLAG_INEXACT).
Proof. exact (div_sqrt_exact true 32 0x40000000 0x40400000 RM_RUP 0 (or_introl eq_refl) ltac:(by vm_compute) ltac:(by vm_compute)). Defined.
