(* ===== verification/SoftfpConv.v ===== *)
(** The conversions of [src/lib/softfp/softfp_template_icvt.h] between floats
    and integers, and those of [softfp_template.h] between the formats. *)

From stdpp Require Import base numbers list.
From Stdlib Require Import Reals Lra Lia.
From S2P Require Import Prelude Bits Cutils Softfp SoftfpSpec SoftfpRound SoftfpArith SoftfpFma SoftfpCmp SoftfpIeee.
Local Open Scope Z_scope.

(** * What they promise *)

(** The integers of [I] bits, unsigned or signed. *)
Definition int_min (I : Z) (u : bool) : Z := if u then 0 else - 2 ^ (I - 1).
Definition int_max (I : Z) (u : bool) : Z := if u then 2 ^ I - 1 else 2 ^ (I - 1) - 1.

(** Out of range, the nearest integer is returned, a NaN counting as positive,
    and invalid is raised alone. *)
Definition to_int_spec (F I : Z) (u : bool) (rm : RoundingMode) (fl a : Z) (res : Z * Z) : Prop :=
  let bound (neg : bool) := (uw I (if neg then int_min I u else int_max I u), Z.lor fl FFLAG_INVALID_OP) in
  if nan F a then res = bound false
  else if inf F a then res = bound (fneg F a)
  else exists n, rounds rm (fneg F a) (fmag F a) n /\
    let v := if fneg F a then - n else n in
    if (int_min I u <=? v) && (v <=? int_max I u) then
      fmag F a = IZR n /\ res = (uw I v, fl) \/ fmag F a <> IZR n /\ res = (uw I v, Z.lor fl FFLAG_INEXACT)
    else res = bound (fneg F a).

Section Conv.
Context (F I : Z) (HF : valid_F F) (HI : valid_F I).
Notation M := (MANT_SIZE F).
Notation RND := (RND_SIZE F).

(** * Floats to integers *)

(** The largest magnitude, as [r_max] is computed. *)
Definition r_max (u neg : bool) : Z :=
  if u then uw I (Z_of_bool neg - 1) else uw I (2 ^ (I - 1) - Z.lxor (Z_of_bool neg) 1).

Lemma r_max_value u neg : r_max u neg = if neg then - int_min I u else int_max I u.
Proof using HI.
  unfold r_max, int_min, int_max. assert (0 < I) by (destruct HI as [-> | [-> | ->]]; lia).
  pose proof (pow2_half I ltac:(done)) as P. pose proof (pow2_pos (I - 1) ltac:(lia)).
  destruct u, neg; cbn [Z_of_bool]; try change (Z.lxor 1 1) with 0; try change (Z.lxor 0 1) with 1.
  - by rewrite uw_small by (apply inw_0; lia).
  - unfold uw. symmetry. apply (Z.mod_unique_pos _ _ (-1)); lia.
  - rewrite uw_small by (unfold inw; lia). lia.
  - apply uw_small. unfold inw. lia.
Qed.

(** The magnitude [n] with its sign, when it is within [r_max], and [r_max]
    itself, as [I] bits. *)
Lemma int_result u (neg : bool) n : 0 <= n ->
  let v := if neg then - n else n in
  (r_max u neg <? n) = negb ((int_min I u <=? v) && (v <=? int_max I u)) /\
  (n <= r_max u neg -> (if nz (Z_of_bool neg) then uw I (- n) else n) = uw I v) /\
  r_max u neg = uw I (if neg then int_min I u else int_max I u).
Proof using HI.
  intros Hn v. rewrite r_max_value. assert (0 < I) by (destruct HI as [-> | [-> | ->]]; lia).
  pose proof (pow2_half I ltac:(done)) as P. pose proof (pow2_pos (I - 1) ltac:(lia)). unfold v.
  assert (0 <= - int_min I u < 2 ^ I /\ 0 <= int_max I u < 2 ^ I) as [B1 B2] by (unfold int_min, int_max; destruct u; lia).
  destruct neg; cbn [Z_of_bool]; change (nz 1) with true; change (nz 0) with false; cbn [negb]; split_and!.
  - apply eq_true_iff_eq. rewrite negb_true_iff, andb_false_iff, Z.ltb_lt, !Z.leb_gt. lia.
  - done.
  - unfold int_min, uw in *. destruct u; [done|]. apply (Z.mod_unique_pos _ _ (-1)); lia.
  - apply eq_true_iff_eq. rewrite negb_true_iff, andb_false_iff, Z.ltb_lt, !Z.leb_gt. lia.
  - intros Hle. symmetry. apply uw_small. unfold inw. lia.
  - symmetry. by apply uw_small.
Qed.

Lemma operand_mant a : inw F a ->
  (if f_exp F a =? 0 then (1, f_mant F a) else (f_exp F a, Z.lor (f_mant F a) (2 ^ M))) = (Z.max (f_exp F a) 1, fsig F a).
Proof using HF.
  intros Ha. destruct (format_sizes F HF) as (_ & _ & HM & _). destruct (fields_range F HF a Ha) as (_ & He & Hm & _).
  unfold fsig. destruct (Z.eqb_spec (f_exp F a) 0) as [-> |]; [done|]. rewrite lor_top by (done || lia). f_equal. lia.
Qed.

(** The significand with room for the rounding bits. *)
Lemma wide_mant a : inw F a ->
  uw F (Z.shiftl (fsig F a) RND) = fsig F a * 2 ^ RND /\ 0 <= fsig F a * 2 ^ RND < 2 ^ (F - 1).
Proof using HF.
  intros Ha. destruct (format_sizes F HF) as (HE & HR & HM & HX). destruct (fsig_range F HF a Ha) as [Hs _].
  pose proof (pow2_half F ltac:(lia)). pose proof (pow2_pos RND ltac:(lia)).
  assert (2 ^ (F - 1) = 2 ^ (M + 1) * 2 ^ RND) by (rewrite <- Z.pow_add_r by lia; f_equal; lia).
  rewrite Z.shiftl_mul_pow2 by lia. split; [|nia]. apply uw_small. unfold inw. nia.
Qed.

(** The float is an integer multiple of its unit [2 ^ funit]; the integer part
    and the sticky bit below it round as the value does. *)
Lemma round_mant a rm : inw F a -> funit F a < 0 ->
  let m := rshift_rnd F (fsig F a * 2 ^ RND) (- funit F a) in
  rounds rm (fneg F a) (fmag F a) (rnd_mant F (fneg F a) rm m) /\ 0 <= rnd_mant F (fneg F a) rm m /\
  (fmag F a = IZR (rnd_mant F (fneg F a) rm m) <-> m mod 2 ^ RND = 0).
Proof using HF.
  intros Ha Hu m. destruct (format_sizes F HF) as (HE & HR & HM & HX). destruct (wide_mant a Ha) as [_ Hw].
  pose proof (pow2_half F ltac:(lia)) as PF. pose proof (pow2_half RND ltac:(lia)) as PR.
  pose proof (pow2_pos (RND - 1) ltac:(lia)) as Hh.
  assert (Em : m = div_sticky (fsig F a * 2 ^ RND) (- funit F a)) by (apply rshift_rnd_div; [lia|lia|unfold inw; lia]).
  pose proof (near_div_sticky (fsig F a * 2 ^ RND) (- funit F a) ltac:(lia)) as Hn. rewrite <- Em in Hn.
  assert (Hm : 0 <= m <= 2 ^ (F - 2)).
  { rewrite Em. apply div_sticky_bounds; [lia| |apply pow2_pos; lia]. rewrite (pow2_half (F - 1)) in Hw by lia.
    by replace (F - 1 - 1) with (F - 2) in Hw by lia. }
  clearbody m. assert (P2 : 2 ^ (F - 2) + 2 ^ RND <= 2 ^ F).
  { rewrite PF, (pow2_half (F - 1)) by lia. replace (F - 1 - 1) with (F - 2) by lia.
    assert (2 ^ RND <= 2 ^ (F - 2)) by (apply Z.pow_le_mono_r; lia). lia. }
  assert (Hr : rounds_Z rm (fneg F a) (2 ^ (RND - 1)) m (rnd_mant F (fneg F a) rm m)) by (apply rnd_mant_rounds; [done|lia|lia]).
  set (y := (IZR (fsig F a * 2 ^ RND) * bpow (- - funit F a))%R) in *.
  assert (Hx : fmag F a = (y * bpow (- RND))%R).
  { unfold y, fmag. rewrite mult_IZR, <- bpow_IZR, !Rmult_assoc, <- !bpow_plus by lia. do 2 f_equal. lia. }
  rewrite Hx. split_and!.
  - by apply (rounds_near 0 _ m RND ltac:(lia) ltac:(lia) Hn).
  - apply (rounds_Z_bounds _ _ _ _ _ 0 (2 ^ F) Hh Hr). nia.
  - pose proof (rounds_Z_exact _ _ _ _ _ Hh Hr) as Hex. rewrite <- PR in Hex. rewrite Hex, PR.
    destruct (near_unit 0 y m RND ltac:(lia) ltac:(lia) Hn (rnd_mant F (fneg F a) rm m)) as (_ & _ & <-). done.
Qed.

(** A value of at least [2 ^ I] is out of range. *)
Lemma int_overflow u (neg : bool) n : 2 ^ I <= n ->
  (int_min I u <=? (if neg then - n else n)) && ((if neg then - n else n) <=? int_max I u) = false.
Proof using HI.
  intros Hn. assert (0 < I) by (destruct HI as [-> | [-> | ->]]; lia). pose proof (pow2_half I ltac:(done)) as P.
  pose proof (pow2_pos (I - 1) ltac:(lia)). apply andb_false_iff. rewrite !Z.leb_gt.
  unfold int_min, int_max. destruct u, neg; lia.
Qed.

Lemma cvt_special a rm fl u : inw F a -> f_exp F a = EXP_MASK F ->
  internal_cvt_sf_i F I a rm fl u = (r_max u (if nan F a then false else fneg F a), Z.lor fl FFLAG_INVALID_OP).
Proof using HF HI.
  intros Ha E. unfold internal_cvt_sf_i, nan. rewrite operand_mant, E, Z.eqb_refl by done. cbv zeta. cbn [andb].
  destruct (bias_mask F HF) as (HB & _ & HB2). fold (BIAS F). rewrite (Z.max_l (EXP_MASK F) 1) by lia.
  assert (Hk : 0 <= EXP_MASK F - BIAS F - M /\ I - 1 - M < EXP_MASK F - BIAS F - M).
  { destruct HF as [-> | [-> | ->]], HI as [-> | [-> | ->]]; vm_compute; split; congruence. }
  rewrite (proj2 (Z.leb_le 0 _)), (proj2 (Z.leb_gt _ (I - 1 - M))) by lia.
  rewrite (proj1 (fields_range F HF a Ha)). unfold r_max, nz. by destruct (f_mant F a =? 0).
Qed.

(** The end of the conversion of a finite float, from the rounded
    magnitude. *)
Lemma finish_int a rm fl fl' u n : nan F a = false -> inf F a = false -> 0 <= n -> rounds rm (fneg F a) (fmag F a) n ->
  fmag F a = IZR n /\ fl' = fl \/ fmag F a <> IZR n /\ fl' = Z.lor fl FFLAG_INEXACT ->
  to_int_spec F I u rm fl a
    (if r_max u (fneg F a) <? n then (r_max u (fneg F a), Z.lor fl FFLAG_INVALID_OP)
     else (if nz (Z_of_bool (fneg F a)) then uw I (- n) else n, fl')).
Proof using HI.
  intros Hn Hi Hp Hr Hfl. destruct (int_result u (fneg F a) n Hp) as (Hrange & Hv & Hmax).
  unfold to_int_spec. rewrite Hn, Hi. exists n. split; [done|]. cbv zeta. destruct (Z.ltb_spec (r_max u (fneg F a)) n) as [Hl | Hl].
  - symmetry in Hrange. apply negb_true_iff in Hrange as ->. by rewrite <- Hmax.
  - symmetry in Hrange. apply negb_false_iff in Hrange as ->. rewrite Hv by done.
    destruct Hfl as [[E ->] | [E ->]]; [by left|by right].
Qed.

Lemma to_int_meets_spec a rm fl u : inw F a -> to_int_spec F I u rm fl a (internal_cvt_sf_i F I a rm fl u).
Proof using HF HI.
  intros Ha. destruct (format_sizes F HF) as (HE & HR & HM & HX). assert (0 < I) by (destruct HI as [-> | [-> | ->]]; lia).
  destruct (kind_of F HF a Ha) as [E _ Hn Hi _ | E _ Hn Hi _ | E Hn Hi _].
  1,2: unfold to_int_spec; by rewrite cvt_special, Hn, ?Hi, (proj2 (proj2 (int_result u _ 0 ltac:(lia)))) by done.
  unfold internal_cvt_sf_i. rewrite operand_mant by done. destruct (wide_mant a Ha) as [-> Hw].
  apply Z.eqb_neq in E as ->. cbv zeta. cbn [andb]. rewrite (proj1 (fields_range F HF a Ha)).
  fold (BIAS F) (funit F a) (r_max u (fneg F a)). destruct (fsig_range F HF a Ha) as [Hs Hs2].
  destruct (Z.leb_spec 0 (funit F a)) as [Hu | Hu].
  - pose proof (pow2_pos (funit F a) Hu) as PU. pose proof (pow2_pos I ltac:(lia)) as PI.
    assert (Hv : fmag F a = IZR (fsig F a * 2 ^ funit F a)) by (unfold fmag; by rewrite mult_IZR, <- bpow_IZR).
    destruct (Z.leb_spec (funit F a) (I - 1 - M)) as [Hk | Hk].
    + assert (2 ^ (M + 1) * 2 ^ funit F a <= 2 ^ I) by (rewrite <- Z.pow_add_r by lia; apply Z.pow_le_mono_r; lia).
      rewrite Z.shiftr_div_pow2, Z.div_mul, (uw_small I (fsig F a)), Z.shiftl_mul_pow2 by (unfold inw; nia || lia).
      rewrite uw_small by (unfold inw; nia). apply finish_int; [done|done|nia|rewrite Hv; apply rounds_int|by left].
    + unfold to_int_spec. rewrite Hn, Hi. exists (fsig F a * 2 ^ funit F a). split; [rewrite Hv; apply rounds_int|]. cbv zeta.
      rewrite int_overflow, (proj2 (proj2 (int_result u (fneg F a) 0 ltac:(lia)))); [done|].
      assert (2 ^ I <= 2 ^ M * 2 ^ funit F a) by (rewrite <- Z.pow_add_r by lia; apply Z.pow_le_mono_r; lia).
      assert (f_exp F a <> 0) as Hs3 by (destruct (bias_mask F HF); unfold funit in Hu; lia). apply Hs2 in Hs3. nia.
  - destruct (round_mant a rm Ha Hu) as (Hr & Hp & Hex). set (m := rshift_rnd F _ _) in *.
    set (n := rnd_mant F (fneg F a) rm m) in *. change (if bool_decide (rm = RM_RNE) && _ then _ else _) with n.
    pose proof (proj2 (proj2 (int_result u (fneg F a) n Hp))) as Hmax.
    pose proof (inw_uw I (if fneg F a then int_min I u else int_max I u) ltac:(lia)) as HIw. rewrite <- Hmax in HIw.
    pose proof (finish_int a rm fl (if nz (m mod 2 ^ RND) then Z.lor fl FFLAG_INEXACT else fl) u n Hn Hi Hp Hr) as Hf.
    rewrite low_bits by lia. destruct (Z.ltb_spec (r_max u (fneg F a)) n) as [Hl | Hl];
      [|rewrite (uw_small I n) by (unfold inw in *; lia)]; apply Hf; unfold nz;
      (destruct (Z.eqb_spec (m mod 2 ^ RND) 0) as [E | E]; [left|right]; (split; [by rewrite Hex|done])).
Qed.

(** * Integers to floats *)

Lemma bits_used r : 0 <= r < 2 ^ I -> r < 2 ^ (I - clz I r) /\ (0 < I - clz I r -> 2 ^ (I - clz I r - 1) <= r).
Proof using HI.
  intros Hr. destruct (Z.eq_dec r 0) as [-> |].
  - change (clz I 0) with I. rewrite Z.sub_diag. split; [done|lia].
  - rewrite clz_log2 by (done || lia). replace (I - (I - 1 - Z.log2 r)) with (Z.log2 r + 1) by lia.
    pose proof (Z.log2_spec r ltac:(lia)). replace (Z.log2 r + 1 - 1) with (Z.log2 r) by lia. lia.
Qed.

Lemma of_int_meets_spec a rm fl u : int_min I u <= a <= int_max I u ->
  correctly_rounded F rm fl (a <? 0) (IZR (Z.abs a)) (internal_cvt_i_sf F I a rm fl u).
Proof using HF HI.
  intros Ha. destruct (format_sizes F HF) as (HE & HR & HM & HX). assert (0 < I) by (destruct HI as [-> | [-> | ->]]; lia).
  pose proof (pow2_half I ltac:(done)) as PI. pose proof (pow2_pos (I - 1) ltac:(lia)).
  unfold internal_cvt_i_sf.
  assert ((if negb u && (a <? 0) then (1, uw I (- a)) else (0, uw I a)) = (Z_of_bool (a <? 0), Z.abs a)) as ->.
  { unfold int_min, int_max in Ha. destruct u, (Z.ltb_spec a 0); cbn [negb andb Z_of_bool]; try lia;
      rewrite uw_small by (unfold inw; lia); f_equal; lia. }
  assert (Hr : 0 <= Z.abs a < 2 ^ I) by (unfold int_min, int_max in Ha; destruct u; lia).
  set (neg := a <? 0). set (r := Z.abs a) in *. clearbody neg r. clear Ha a u. cbv zeta. fold (BIAS F).
  destruct (bits_used r Hr) as [Hu Hl]. set (k := I - clz I r) in *. clearbody k.
  assert (P2 : 2 ^ (M + 2) <= 2 ^ (F - 2)) by (apply Z.pow_le_mono_r; lia). pose proof (pow2_half F ltac:(lia)) as PF.
  destruct (Z.ltb_spec 0 (k - (F - 1))) as [Hk | Hk].
  - rewrite low_bits by lia.
    assert (Z.lor (Z.shiftr r (k - (F - 1))) (Z_of_bool (nz (Z.land r (r mod 2 ^ (k - (F - 1)))))) = div_sticky r (k - (F - 1))) as ->.
    { rewrite Z.shiftr_div_pow2 by lia. rewrite <- Z.land_ones, Z.land_assoc, Z.land_diag, Z.land_ones by lia. apply div_sticky_lor. lia. }
    assert (2 ^ (F - 2) <= div_sticky r (k - (F - 1)) < 2 ^ (F - 1)) as Hd.
    { apply div_sticky_range; try lia. rewrite <- !Z.pow_add_r by lia.
      replace (F - 2 + (k - (F - 1))) with (k - 1) by lia. replace (F - 1 + (k - (F - 1))) with k by lia. split; [apply Hl; lia|done]. }
    rewrite uw_small by (unfold inw; lia).
    replace (IZR r) with (IZR r * bpow (- (k - (F - 1))) * bpow (BIAS F + F - 2 + (k - (F - 1)) - BIAS F - (F - 2)))%R.
    + apply (normalize_rounded F HF _ _ _ 0); [lia|lia|]. right. rewrite Z.add_0_r. split; [apply near_div_sticky; lia|lia].
    + rewrite Rmult_assoc, <- bpow_plus. replace (_ + _) with 0 by lia. by rewrite bpow_0, Rmult_1_r.
  - assert (r < 2 ^ (F - 1)).
    { destruct (Z.le_gt_cases 0 k); [|rewrite Z.pow_neg_r in Hu by lia; lia].
      assert (2 ^ k <= 2 ^ (F - 1)) by (apply Z.pow_le_mono_r; lia). lia. }
    rewrite uw_small by (unfold inw; lia).
    replace (IZR r) with (IZR r * bpow (BIAS F + F - 2 - BIAS F - (F - 2)))%R.
    + apply (normalize_rounded F HF _ _ _ 0); [lia|lia|]. by left.
    + replace (BIAS F + F - 2 - BIAS F - (F - 2)) with 0 by lia. by rewrite bpow_0, Rmult_1_r.
Qed.
End Conv.

(** * Between the formats *)

(** [G] is narrower than [F]. *)
Definition narrower (G F : Z) : Prop := G = 32 /\ (F = 64 \/ F = 128) \/ G = 64 /\ F = 128.

(** Widening keeps the value; a NaN becomes the canonical one. *)
Definition widen_spec (G F fl a : Z) (res : Z * Z) : Prop :=
  if nan G a then res = nan_result F fl (signals G a)
  else if inf G a then res = (infinity F (fneg G a), fl)
  else exists r, res = (r, fl) /\ is_float F (fneg G a) (fmag G a) r.

(** Narrowing rounds it. *)
Definition narrow_spec (F G : Z) (rm : RoundingMode) (fl a : Z) (res : Z * Z) : Prop :=
  if nan F a then res = nan_result G fl (signals F a)
  else if inf F a then res = (infinity G (fneg F a), fl)
  else correctly_rounded G rm fl (fneg F a) (fmag F a) res.

Section Formats.
Context (G F : Z) (HGF : narrower G F).
Notation MF := (MANT_SIZE F).
Notation MG := (MANT_SIZE G).

Lemma narrower_formats : valid_F G /\ valid_F F /\ MG <= MF - 29 /\ G <= MF /\ MF + 1 < F /\
  MG < BIAS F - BIAS G /\ G <= BIAS F - BIAS G /\ BIAS G + 1 <= BIAS F.
Proof using HGF.
  destruct HGF as [[-> [-> | ->]] | [-> ->]]; unfold valid_F; split_and!; try tauto; vm_compute; congruence.
Qed.

Lemma normal_exp a : finite G a -> zero G a = false -> - MG < (normal G a).1 < EXP_MASK G.
Proof using HGF.
  intros [Ha Hf] Hz. destruct narrower_formats as (HG & _). destruct (fields_range G HG a Ha) as (_ & He & Hm & _).
  destruct (format_sizes G HG) as (_ & _ & HM & _). destruct (bias_mask G HG) as (_ & _ & ?). unfold normal, zero in *.
  destruct (Z.eqb_spec (f_exp G a) 0) as [E | E]; [|cbn [fst]; lia]. unfold normalize_subnormal_sf. cbn [fst].
  cbn [andb] in Hz. apply Z.eqb_neq in Hz. rewrite clz_log2 by lia. pose proof (Z.log2_nonneg (f_mant G a)).
  assert (Z.log2 (f_mant G a) < MG) by (apply Z.log2_lt_pow2; lia). lia.
Qed.

(** The operand of [cvt_widen]: a normal mantissa without its leading bit,
    which packing would drop, a subnormal one normalised. *)
Lemma widen_operand a : finite G a -> zero G a = false -> exists e m m',
  (if f_exp G a =? 0 then normalize_subnormal_sf G (f_mant G a) else (f_exp G a, f_mant G a)) = (e, m') /\
  m' mod 2 ^ MG = m - 2 ^ MG /\ 0 <= m' <= m /\ 2 ^ MG <= m < 2 * 2 ^ MG /\ - MG < e < EXP_MASK G /\
  fmag G a = (IZR m * bpow (e - BIAS G - MG))%R.
Proof using HGF.
  intros Hfin Z0. destruct narrower_formats as (HG & _). pose proof Hfin as [Ha _]. destruct (format_sizes G HG) as (_ & _ & HMG & _).
  destruct (fields_range G HG a Ha) as (_ & _ & Hm & _). pose proof (pow2_pos MG ltac:(lia)) as PG.
  pose proof (normal_exp a Hfin Z0) as Hne. pose proof (normal_ok G HG a Ha ltac:(unfold zero in Z0; lia)) as Hno.
  rewrite (Z.pow_add_r 2 MG 1), (Z.mul_comm _ (2 ^ 1)) in Hno by lia. change (2 ^ 1) with 2 in Hno. unfold normal in *.
  destruct (f_exp G a =? 0).
  - destruct (normalize_subnormal_sf G (f_mant G a)) as [e m]. destruct Hno as [Hmr Hv]. cbn [fst] in Hne.
    exists e, m, m. split_and!; [done| |lia..|done]. symmetry. apply (Z.mod_unique_pos _ _ 1); lia.
  - destruct Hno as [Hmr Hv]. cbn [fst] in Hne. rewrite lor_top in * by lia.
    exists (f_exp G a), (2 ^ MG + f_mant G a), (f_mant G a). rewrite Z.mod_small by lia. split_and!; try done; lia.
Qed.

Lemma widen_pack neg e m m' : - MG < e < EXP_MASK G -> m' mod 2 ^ MG = m - 2 ^ MG -> 0 <= m' <= m -> 2 ^ MG <= m < 2 * 2 ^ MG ->
  is_float F neg (IZR m * bpow (e - BIAS G - MG))
    (pack_sf F (Z_of_bool neg) (e - BIAS G + BIAS F) (uw F (Z.shiftl m' (MF - MG)))).
Proof using HGF.
  intros He Hmod Hle Hm. destruct narrower_formats as (HG & HF & H1 & H2 & H3 & H4 & H5 & H6).
  destruct (format_sizes G HG) as (_ & _ & HMG & _). destruct (bias_mask G HG) as (BG & _ & BG2), (bias_mask F HF) as (BF & _ & _).
  pose proof (fmag_pack F HF neg (e - BIAS G + BIAS F) (uw F (Z.shiftl m' (MF - MG))) ltac:(lia)) as Hp.
  pose proof (pow2_pos (MF - MG) ltac:(lia)) as PD. pose proof (pow2_pos MG ltac:(lia)) as PG.
  assert (PM : 2 ^ MF = 2 ^ MG * 2 ^ (MF - MG)) by (rewrite <- Z.pow_add_r by lia; f_equal; lia).
  assert (PF : 2 * 2 ^ MF <= 2 ^ F) by (rewrite <- Z.pow_succ_r by lia; apply Z.pow_le_mono_r; lia).
  assert (Hw : uw F (Z.shiftl m' (MF - MG)) mod 2 ^ MF = (m - 2 ^ MG) * 2 ^ (MF - MG)).
  { rewrite Z.shiftl_mul_pow2, uw_small by (lia || unfold inw; nia). by rewrite PM, Z.mul_mod_distr_r, Hmod by lia. }
  rewrite Hw, (proj2 (Z.eqb_neq _ 0)), Z.max_l in Hp by lia.
  replace (IZR m * bpow (e - BIAS G - MG))%R
    with (IZR (2 ^ MF + (m - 2 ^ MG) * 2 ^ (MF - MG)) * bpow (e - BIAS G + BIAS F - BIAS F - MF))%R; [done|].
  replace (2 ^ MF + (m - 2 ^ MG) * 2 ^ (MF - MG)) with (m * 2 ^ (MF - MG)) by lia.
  rewrite mult_IZR, <- bpow_IZR, Rmult_assoc, <- bpow_plus by lia. do 2 f_equal. lia.
Qed.

Lemma widen_meets_spec a fl : inw G a -> widen_spec G F fl a (cvt_widen G F a fl).
Proof using HGF.
  intros Ha. destruct narrower_formats as (HG & HF & _). destruct (bias_mask F HF) as (_ & _ & HB).
  unfold cvt_widen, widen_spec, unpack_sf. fold (zero G a). rewrite issignan_spec, (proj1 (fields_range G HG a Ha)) by done.
  destruct (kind_of G HG a Ha) as [E Em Hn Hi Hz | E Em Hn Hi Hz | E Hn Hi Hfin]; rewrite Hn, ?Hi.
  - rewrite E, Z.eqb_refl. unfold nz. rewrite (proj2 (Z.eqb_neq _ _) Em). done.
  - rewrite E, Em, Z.eqb_refl. done.
  - rewrite (proj2 (Z.eqb_neq _ _) E). destruct (zero G a) eqn:Z0.
    + eexists. split; [done|]. unfold zero in Z0. rewrite (fmag_zero G a) by lia.
      pose proof (fmag_pack F HF (fneg G a) 0 0 ltac:(destruct (bias_mask F HF); lia)) as Hp. by rewrite Rmult_0_l in Hp.
    + destruct (widen_operand a Hfin Z0) as (e & m & m' & -> & Hmod & Hle & Hm & He & ->).
      eexists. split; [done|]. by apply widen_pack.
Qed.

(** So far below the smallest subnormal that only a sticky bit is left. *)
Lemma round_pack_tiny s e m rm fl : e <= 1 - G -> m <> 0 ->
  round_pack_sf G s e m rm fl = round_pack_sf G s (- G) 1 rm fl.
Proof using HGF.
  intros He Hm. assert (1 < G) by (destruct HGF as [[-> _] | [-> _]]; lia).
  assert (Hr : forall e m, e <= 1 - G -> m <> 0 -> rshift_rnd G m (1 - e) = 1).
  { intros e' m' He' Hm'. unfold rshift_rnd, nz. rewrite (proj2 (Z.eqb_neq (1 - e') 0)), (proj2 (Z.leb_le G _)) by lia.
    by rewrite (proj2 (Z.eqb_neq m' 0)). }
  unfold round_pack_sf. rewrite !Hr by lia.
  rewrite (proj2 (Z.leb_le e 0)), (proj2 (Z.leb_le (- G) 0)), (proj2 (Z.ltb_lt e 0)), (proj2 (Z.ltb_lt (- G) 0)) by lia. done.
Qed.

Lemma normalize_tiny s e m rm fl : e <= 1 - G -> 0 < m < 2 ^ (G - 1) ->
  normalize_sf G s e m rm fl = round_pack_sf G s (- G) 1 rm fl.
Proof using HGF.
  intros He Hm. assert (1 < G) by (destruct HGF as [[-> _] | [-> _]]; lia). unfold normalize_sf, IMANT_SIZE.
  rewrite clz_log2 by lia. assert (Z.log2 m < G - 1) by (apply Z.log2_lt_pow2; lia).
  replace (G - 1 - Z.log2 m - (G - 1 - (G - 2))) with (G - 2 - Z.log2 m) by lia.
  pose proof (Z.log2_spec m ltac:(lia)) as Hl. pose proof (pow2_pos (G - 2 - Z.log2 m) ltac:(lia)) as PS.
  assert (Hp : 2 ^ Z.succ (Z.log2 m) * 2 ^ (G - 2 - Z.log2 m) = 2 ^ (G - 1))
    by (rewrite <- Z.pow_add_r by (pose proof (Z.log2_nonneg m); lia); f_equal; lia).
  pose proof (pow2_half G ltac:(lia)). apply round_pack_tiny; [lia|].
  rewrite Z.shiftl_mul_pow2, uw_small by (lia || unfold inw; nia). nia.
Qed.

(** The sticky shift from the wide mantissa to the narrow one. *)
Notation cut := (MF - (G - 2)).

Lemma cut_range m k : 0 < m < 2 ^ (MF + 1) -> k = rshift_rnd F m cut -> uw G k = k /\ 0 < k < 2 ^ (G - 1) /\ k = div_sticky m cut.
Proof using HGF.
  intros Hm ->. destruct narrower_formats as (HG & HF & H1 & H2 & H3 & _). destruct (format_sizes G HG) as (HE & _ & HMG & HX).
  assert (PF : 2 ^ (MF + 1) <= 2 ^ F) by (apply Z.pow_le_mono_r; lia). pose proof (pow2_pos cut ltac:(lia)) as PC.
  rewrite rshift_rnd_div by (lia || unfold inw; lia). pose proof (pow2_half G ltac:(lia)).
  assert (PM : 2 ^ (MF + 1) = 2 ^ (G - 1) * 2 ^ cut) by (rewrite <- Z.pow_add_r by lia; f_equal; lia).
  assert (0 <= m / 2 ^ cut < 2 ^ (G - 1)) by (split; [apply Z.div_pos; lia|apply Z.div_lt_upper_bound; lia]).
  assert (Hk : 0 < div_sticky m cut < 2 ^ (G - 1)).
  { unfold div_sticky. rewrite (pow2_half (G - 1)) in * by lia. pose proof (Z.div_mod m (2 ^ cut) ltac:(lia)).
    pose proof (Z.div_mod (m / 2 ^ cut) 2 ltac:(lia)). pose proof (Z.mod_pos_bound (m / 2 ^ cut) 2 ltac:(lia)).
    destruct (Z.eqb_spec (m mod 2 ^ cut) 0); nia. }
  split_and!; [apply uw_small; unfold inw; lia|lia..|done].
Qed.

Lemma narrow_normal neg e m rm fl : 2 ^ MF <= m < 2 ^ (MF + 1) ->
  correctly_rounded G rm fl neg (IZR m * bpow (e - BIAS F - MF))
    (normalize_sf G (Z_of_bool neg) (e - BIAS F + BIAS G) (uw G (rshift_rnd F m cut)) rm fl).
Proof using HGF.
  intros Hm. destruct narrower_formats as (HG & HF & H1 & H2 & H3 & _). destruct (format_sizes G HG) as (HE & _ & HMG & HX).
  pose proof (pow2_pos MF ltac:(lia)) as PM. destruct (cut_range m _ ltac:(lia) eq_refl) as (-> & _ & ->).
  assert (2 ^ (G - 2) <= div_sticky m cut < 2 ^ (G - 1)) as Hd.
  { apply div_sticky_range; try lia. rewrite <- !Z.pow_add_r by lia.
    replace (G - 2 + cut) with MF by lia. by replace (G - 1 + cut) with (MF + 1) by lia. }
  assert (P2 : 2 ^ (MANT_SIZE G + 2) <= 2 ^ (G - 2)) by (apply Z.pow_le_mono_r; lia).
  pose proof (pow2_pos (G - 2) ltac:(lia)).
  replace (IZR m * bpow (e - BIAS F - MF))%R with (IZR m * bpow (- cut) * bpow (e - BIAS F + BIAS G - BIAS G - (G - 2)))%R.
  - apply (normalize_rounded G HG _ _ _ 0); [lia|lia|]. right. rewrite Z.add_0_r. split; [apply near_div_sticky; lia|lia].
  - rewrite Rmult_assoc, <- bpow_plus. do 2 f_equal. lia.
Qed.

(** [cvt_narrow] rounds a subnormal operand from a mantissa that is not
    normalised, with the exponent of the normalised one: nothing but the
    sticky bit is left of either. *)
Lemma narrow_meets_spec a rm fl : inw F a -> narrow_spec F G rm fl a (cvt_narrow F G a rm fl).
Proof using HGF.
  intros Ha. destruct narrower_formats as (HG & HF & H1 & H2 & H3 & H4 & H5 & H6).
  destruct (fields_range F HF a Ha) as (Hs & He & Hm & _). destruct (format_sizes F HF) as (_ & _ & HMF & _).
  unfold cvt_narrow, narrow_spec, unpack_sf. fold (zero F a). rewrite issignan_spec, Hs by done. fold (BIAS F) (BIAS G).
  destruct (kind_of F HF a Ha) as [E Em Hn Hi Hz | E Em Hn Hi Hz | E Hn Hi Hfin]; rewrite Hn, ?Hi.
  - rewrite E, Z.eqb_refl. unfold nz. rewrite (proj2 (Z.eqb_neq _ _) Em). done.
  - rewrite E, Em, Z.eqb_refl. done.
  - rewrite (proj2 (Z.eqb_neq _ _) E). destruct (zero F a) eqn:Z0.
    + unfold zero in Z0. rewrite (fmag_zero F a) by lia. by apply zero_rounded.
    + pose proof (normal_ok F HF a Ha ltac:(unfold zero in Z0; lia)) as Hno. unfold normal in Hno.
      destruct (Z.eqb_spec (f_exp F a) 0) as [E0 | E0].
      * assert (f_mant F a <> 0) as Hm0 by (unfold zero in Z0; lia).
        assert (Hexp : (normalize_subnormal_sf F (f_mant F a)).1 <= 0).
        { unfold normalize_subnormal_sf. cbn [fst]. rewrite clz_log2 by lia.
          assert (Z.log2 (f_mant F a) < MF) by (apply Z.log2_lt_pow2; lia). lia. }
        destruct (normalize_subnormal_sf F (f_mant F a)) as [e m]. cbn [fst] in *. destruct Hno as [Hmr ->].
        pose proof (narrow_normal (fneg F a) e m rm fl Hmr) as Hok. pose proof (pow2_pos MF ltac:(lia)).
        destruct (cut_range m _ ltac:(lia) eq_refl) as (Eu & Hk & _). rewrite Eu, normalize_tiny in Hok by lia.
        assert (f_mant F a < 2 ^ (MF + 1)) by (rewrite Z.pow_add_r by lia; lia).
        destruct (cut_range (f_mant F a) _ ltac:(lia) eq_refl) as (Eu' & Hk' & _). by rewrite Eu', normalize_tiny by lia.
      * destruct Hno as [Hmr ->]. by apply narrow_normal.
Qed.

(** a float that is not a NaN survives the conversion to a wider format and
    back, in every rounding mode and without raising a flag. *)
Theorem widen_narrow_roundtrip a rm fl : inw G a -> nan G a = false -> cvt_narrow F G (cvt_widen G F a fl).1 rm fl = (a, fl).
Proof using HGF.
  intros Ha Hn. destruct narrower_formats as (HG & HF & _). pose proof (widen_meets_spec a fl Ha) as Hw.
  unfold widen_spec in Hw. rewrite Hn in Hw. destruct (inf G a) eqn:Hi.
  - rewrite Hw. cbn [fst]. rewrite (inf_float G HG a Ha Hi) at 2.
    destruct (bias_mask F HF) as (HB & _ & HB2).
    destruct (pack_fields F HF (fneg G a) (EXP_MASK F) 0 ltac:(lia)) as (Ib & Sb & Eb & Mb). fold (infinity F (fneg G a)) in *.
    unfold cvt_narrow, unpack_sf. rewrite Sb, Eb, Mb, Z.mod_0_l, Z.eqb_refl by (destruct (format_sizes F HF) as (_ & _ & ? & _); pose proof (pow2_pos MF); lia).
    done.
  - destruct Hw as (r & -> & Hr). cbn [fst]. destruct Hr as ([Ir Er] & Sr & Vr).
    pose proof (narrow_meets_spec r rm fl Ir) as Hs. unfold narrow_spec in Hs.
    destruct (kind_of F HF r Ir) as [E _ _ _ _ | E _ _ _ _ | E Hrn Hri _]; [done|done|]. rewrite Hrn, Hri in Hs.
    destruct Hs as (r' & raised & -> & Hrd). rewrite Vr in Hrd.
    assert (fneg F r = fneg G a) as Hneg by (unfold fneg at 1; rewrite Sr; by destruct (fneg G a)). rewrite Hneg in Hrd.
    pose proof (float_rounded G HG rm a (finite_kind G a Ha Hn Hi)) as Hself.
    destruct (rounded_unique G HG _ _ _ _ _ _ _ Hrd Hself) as [-> ->]. by rewrite Z.lor_0_r.
Qed.
End Formats.

(** C15: a float of any format converted to a signed or unsigned integer of 32,
    64 or 128 bits is its value rounded in the given mode, with the inexact
    flag when it is not an integer; out of range, for an infinity or for a NaN
    it is the nearest bound of the type and only invalid is raised.  An
    integer converted to a float is the integer rounded once. *)
Theorem int_conversions_exact F I a n rm fl : valid_F F -> valid_F I -> inw F a ->
  to_int_spec F I false rm fl a (cvt_sf_i F I a rm fl) /\ to_int_spec F I true rm fl a (cvt_sf_u F I a rm fl) /\
  (int_min I false <= n <= int_max I false ->
   correctly_rounded F rm fl (n <? 0) (IZR (Z.abs n)) (cvt_i_sf F I n rm fl)) /\
  (int_min I true <= n <= int_max I true ->
   correctly_rounded F rm fl false (IZR n) (cvt_u_sf F I n rm fl)).
Proof.
  intros HF HI Ha. split_and!; [by apply to_int_meets_spec..|by apply of_int_meets_spec|].
  intros Hn. pose proof (of_int_meets_spec F I HF HI n rm fl true Hn) as Hc. cbn [int_min] in Hn.
  rewrite (proj2 (Z.ltb_ge n 0)), Z.abs_eq in Hc by lia. done.
Qed.

(** [-2.5] rounds to [-2] as an integer and is below the unsigned ones; the
    largest 32-bit integer does not fit a binary32. *)
Lemma int_conversions_exact_witness :
  to_int_spec 32 32 false RM_RNE 0 0xc0200000 (0xfffffffe, FFLAG_INEXACT) /\
  to_int_spec 32 32 true RM_RNE 0 0xc0200000 (0, FFLAG_INVALID_OP) /\
  correctly_rounded 32 RM_RNE 0 false (IZR 0x7fffffff) (0x4f000000, FFLAG_INEXACT) /\
  correctly_rounded 32 RM_RNE 0 false (IZR 0x7fffffff) (0x4f000000, FFLAG_INEXACT).
Proof.
  destruct (int_conversions_exact 32 32 0xc0200000 0x7fffffff RM_RNE 0 (or_introl eq_refl) (or_introl eq_refl) ltac:(by vm_compute))
    as (H1 & H2 & H3 & H4).
  split_and!; [exact H1|exact H2|exact (H3 ltac:(by vm_compute))|exact (H4 ltac:(by vm_compute))].
Defined.

(** C17: a conversion to a wider format keeps the value, and one to a narrower
    format rounds it once, subnormal operands included; NaNs become the
    canonical NaN of the format and raise invalid if they signal. *)
Theorem format_conversions_exact G F a b rm fl : narrower G F -> inw G a -> inw F b ->
  widen_spec G F fl a (cvt_widen G F a fl) /\ narrow_spec F G rm fl b (cvt_narrow F G b rm fl).
Proof. intros HGF Ha Hb. split; [by apply widen_meets_spec|by apply narrow_meets_spec]. Qed.

(** The smallest binary32, and the smallest binary64 rounded up. *)
Lemma format_conversions_exact_witness :
  widen_spec 32 64 0 1 (0x36a0000000000000, 0) /\
  narrow_spec 64 32 RM_RUP 0 1 (1, Z.lor FFLAG_UNDERFLOW FFLAG_INEXACT).
Proof.
  exact (format_conversions_exact 32 64 1 1 RM_RUP 0 (or_introl (conj eq_refl (or_introl eq_refl)))
           ltac:(by vm_compute) ltac:(by vm_compute)).
Defined.

Lemma widen_narrow_roundtrip_witness : cvt_narrow 128 64 (cvt_widen 64 128 0x8000000000000001 0).1 RM_RTZ 0 = (0x8000000000000001, 0).
Proof. apply (widen_narrow_roundtrip 64 128); [by right|by vm_compute|by vm_compute]. Defined.
