(* ===== verification/RvFp.v ===== *)
(** The floating point instructions of a RISC-V hart:
    [src/cpu/riscv/riscv_cpu_fp.h] and the fused operations of
    [riscv_cpu_interp.h].

    [exec_fp_op] gives [None] for INSN_ILLEGAL. *)

From stdpp Require Import base numbers list gmap.
From S2P Require Import Prelude Bits Cutils IoMem RvState RvMem RvCsr Softfp.
Local Open Scope Z_scope.

Section Fp.
Context `{MaxXlen} `{Platform D} (int128 : bool).
Notation cpu := (RISCVCPUState D).

(** The bits of an FP register above a value of [F] bits, which NaN-box it. *)
Definition fp_high (F : Z) : Z := if F <? FLEN then uw FLEN (Z.shiftl (-1) F) else 0.

(** [SF::sign_mask] and its complement as an [fp_uint].  FSIGN_MASK32 is an
    [int], so it is sign extended. *)
Definition sign_mask_fp (F : Z) : Z := if F =? 32 then uw FLEN (- 2 ^ 31) else 2 ^ (F - 1).
Definition not_sign_mask_fp (F : Z) : Z := 2 ^ (F - 1) - 1.

(** A result of [F] bits with its flags. *)
Definition fp_result (F rd : Z) (r : Z * Z) (s : cpu) : cpu :=
  set_freg rd (Z.lor r.1 (fp_high F)) s <| fflags := r.2 |> <| fs := 3 |>.
(** An integer result with its flags. *)
Definition int_result (rd val fl : Z) (s : cpu) : cpu :=
  let s := s <| fflags := fl |> in
  if rd =? 0 then s else set_greg rd val s.

(** An operand of [F] bits. *)
Definition fop (F : Z) (s : cpu) (r : Z) : Z := uw F (freg s r).

(** With a valid rounding mode. *)
Definition with_rm (s : cpu) (rm : Z) (k : RoundingMode -> option cpu) : option cpu :=
  match get_insn_rm s rm with
  | None => None
  | Some rm => k (rm_of rm)
  end.

(** fcvt.[wldt][u].[sdq] *)
Definition fcvt_to_int (F xlen rd rs1 rs2 : Z) (rm : RoundingMode) (s : cpu) : option cpu :=
  let a := fop F s rs1 in
  let ok I r := Some (int_result rd (tu (sw I r.1)) r.2 s) in
  if rs2 =? 0 then ok 32 (cvt_sf_i F 32 a rm (fflags s))
  else if rs2 =? 1 then ok 32 (cvt_sf_u F 32 a rm (fflags s))
  else if rs2 =? 2 then if xlen <? 64 then None else ok 64 (cvt_sf_i F 64 a rm (fflags s))
  else if rs2 =? 3 then if xlen <? 64 then None else ok 64 (cvt_sf_u F 64 a rm (fflags s))
  else if rs2 =? 4 then if xlen <? 128 then None else ok 128 (cvt_sf_i F 128 a rm (fflags s))
  else if rs2 =? 5 then if xlen <? 128 then None else ok 128 (cvt_sf_u F 128 a rm (fflags s))
  else None.

(** fcvt.[sdq].[wldt][u] *)
Definition fcvt_from_int (F xlen rd rs1 rs2 : Z) (rm : RoundingMode) (s : cpu) : option cpu :=
  let a := greg s rs1 in
  let ok r := Some (fp_result F rd r s) in
  if rs2 =? 0 then ok (cvt_i_sf F 32 (sw 32 a) rm (fflags s))
  else if rs2 =? 1 then ok (cvt_u_sf F 32 (uw 32 a) rm (fflags s))
  else if rs2 =? 2 then if xlen <? 64 then None else ok (cvt_i_sf F 64 (sw 64 a) rm (fflags s))
  else if rs2 =? 3 then if xlen <? 64 then None else ok (cvt_u_sf F 64 (uw 64 a) rm (fflags s))
  else if rs2 =? 4 then if xlen <? 128 then None else ok (cvt_i_sf F 128 (sw 128 a) rm (fflags s))
  else if rs2 =? 5 then if xlen <? 128 then None else ok (cvt_u_sf F 128 (uw 128 a) rm (fflags s))
  else None.

(** fcvt between formats *)
Definition fcvt_format (F rd rs1 rs2 : Z) (rm : RoundingMode) (s : cpu) : option cpu :=
  let narrow G := Some (fp_result F rd (cvt_narrow G F (fop G s rs1) rm (fflags s)) s) in
  let widen G := Some (fp_result F rd (cvt_widen G F (fop G s rs1) (fflags s)) s) in
  if F =? 32 then
    if rs2 =? 1 then narrow 64
    else if rs2 =? 3 then if FLEN <? 128 then None else narrow 128
    else None
  else if F =? 64 then
    if rs2 =? 0 then widen 32
    else if rs2 =? 1 then if FLEN <? 128 then None else narrow 128
    else None
  else
    if rs2 =? 0 then widen 32 else if rs2 =? 1 then widen 64 else None.

(** fsgnj, fsgnjn, fsgnjx *)
Definition fsgnj (F rd rs1 rs2 rm : Z) (s : cpu) : option cpu :=
  let a := freg s rs1 in
  let b := freg s rs2 in
  let m := sign_mask_fp F in
  let ok v := Some (set_freg rd v s <| fs := 3 |>) in
  if rm =? 0 then ok (Z.lor (Z.land a (not_sign_mask_fp F)) (Z.land b m))
  else if rm =? 1 then ok (Z.lor (Z.land a (not_sign_mask_fp F)) (Z.lxor (Z.land b m) m))
  else if rm =? 2 then ok (Z.lxor a (Z.land b m))
  else None.

Definition exec_fp_op (F xlen : Z) (funct5 rd rs1 rs2 rm : Z) (s : cpu) : option cpu :=
  let a := fop F s rs1 in
  let b := fop F s rs2 in
  let fl := fflags s in
  let ok r := Some (fp_result F rd r s) in
  let cmp (r : bool * Z) := Some (int_result rd (Z_of_bool r.1) r.2 s) in
  if funct5 =? 0x00 then with_rm s rm (fun rm => ok (add_sf F a b rm fl))
  else if funct5 =? 0x01 then with_rm s rm (fun rm => ok (sub_sf F a b rm fl))
  else if funct5 =? 0x02 then with_rm s rm (fun rm => ok (mul_sf int128 F a b rm fl))
  else if funct5 =? 0x03 then with_rm s rm (fun rm => ok (div_sf int128 F a b rm fl))
  else if funct5 =? 0x0b then
    with_rm s rm (fun rm => if nz rs2 then None else ok (sqrt_sf int128 F a rm fl))
  else if funct5 =? 0x04 then fsgnj F rd rs1 rs2 rm s
  else if funct5 =? 0x05 then
    if rm =? 0 (* fmin *) then ok (min_sf F a b fl FMINMAX_IEEE754_201X)
    else if rm =? 1 (* fmax *) then ok (max_sf F a b fl FMINMAX_IEEE754_201X)
    else None
  else if funct5 =? 0x18 then with_rm s rm (fun rm => fcvt_to_int F xlen rd rs1 rs2 rm s)
  else if funct5 =? 0x14 then
    if rm =? 0 (* fle *) then cmp (le_sf F a b fl)
    else if rm =? 1 (* flt *) then cmp (lt_sf F a b fl)
    else if rm =? 2 (* feq *) then cmp (eq_quiet_sf F a b fl)
    else None
  else if funct5 =? 0x1a then with_rm s rm (fun rm => fcvt_from_int F xlen rd rs1 rs2 rm s)
  else if funct5 =? 0x08 then with_rm s rm (fun rm => fcvt_format F rd rs1 rs2 rm s)
  else if funct5 =? 0x1c then
    if nz rs2 then None
    else if rm =? 0 (* fmv.x.s *) then
      if xlen <? F then None else Some (int_result rd (tu (sw F (freg s rs1))) fl s)
    else if rm =? 1 (* fclass *) then Some (int_result rd (fclass_sf F a) fl s)
    else None
  else if funct5 =? 0x1e then (* fmv.s.x *)
    if xlen <? F then None
    else if nz rs2 || nz rm then None
    else Some (set_freg rd (uw FLEN (sw F (greg s rs1))) s <| fs := 3 |>)
  else None.

(** fmadd, fmsub, fnmsub, fnmadd: the product is negated with [neg_p], the
    addend with [neg_c]. *)
Definition exec_fma (neg_p neg_c : bool) (insn rd rs1 rs2 : Z) (s : cpu) : option cpu :=
  let rs3 := get_bits 32 insn 27 5 in
  let fmt := get_bits 32 insn 25 2 in
  let run F rm :=
    let flip (neg : bool) v := if neg then Z.lxor v (2 ^ (F - 1)) else v in
    Some (fp_result F rd
      (fma_sf int128 F (flip neg_p (fop F s rs1)) (fop F s rs2) (flip neg_c (fop F s rs3))
         rm (fflags s)) s) in
  if fs s =? 0 then None
  else with_rm s (get_bits 32 insn 12 3) (fun rm =>
    if fmt =? 0 then run 32 rm
    else if fmt =? 1 then run 64 rm
    else if fmt =? 3 then if FLEN <? 128 then None else run 128 rm
    else None).
End Fp.
