(* ===== verification/RvInsn.v ===== *)
(** The instructions of a RISC-V hart: the body of the loop of
    [riscv_cpu_interp_x] in [src/cpu/riscv/riscv_cpu_interp.h], and [exec_amo].

    An instruction handler takes the hart to its next state and says where
    control goes, as the labels of the code have it ([ctl]).  [xlen] is the
    template parameter [Xlen], [pc0] is [GET_PC()] and [ica] the local
    [insn_counter_addend]. *)

From stdpp Require Import base numbers list gmap.
From S2P Require Import Prelude Bits Cutils IoMem RvAlu RvState RvMem RvCsr RvTrap.
From S2P Require Import Softfp RvFp.
Local Open Scope Z_scope.

(** Where an instruction goes: [C_NEXT_INSN], [NEXT_INSN], [JUMP_INSN],
    [goto illegal_insn], [goto mmu_exception] or [exception], and
    [goto done_interp]. *)
Inductive ctl := CNext | Next | Jump | Illegal | Exc | Done.
#[export] Instance ctl_eq_dec : EqDecision ctl.
Proof. solve_decision. Defined.

(** The bits of [val] from [src_pos] up, moved to [dst_pos] through
    [dst_pos_max]. *)
Definition get_field1 (val src_pos dst_pos dst_pos_max : Z) : Z :=
  uw 32 (Z.shiftl (get_bits 32 val src_pos (dst_pos_max - dst_pos + 1)) dst_pos).

(** [get_field1(insn, a, b, c) | ...] *)
Definition fields (insn : Z) (l : list (Z * Z * Z)) : Z :=
  lors (map (fun '(src, dst, dst_max) => get_field1 insn src dst dst_max) l).

(** Sign extension of a [len]-bit field of an instruction, an [int32_t]. *)
Definition simm (v len : Z) : Z := sign_extend 32 v len.

Section Insn.
Context `{MaxXlen} `{Platform D} (int128 : bool) (xlen : Z).
Notation cpu := (RISCVCPUState D).

Definition E : Type := cpu -> cpu * ctl.

Definition illegal : E := fun s => (s, Illegal).
Definition goto (c : ctl) (f : cpu -> cpu) : E := fun s => (f s, c).
(** [if (rd != 0) s->reg[rd] = val] *)
Definition set_rd (rd val : Z) (s : cpu) : cpu := if rd =? 0 then s else set_greg rd val s.
Definition set_pc (v : Z) (s : cpu) : cpu := s <| pc := v |>.

(** [if (target_read(s, &val, addr)) goto mmu_exception] *)
Definition reading (sz : nat) (va : Z) (k : Z -> E) : E := fun s =>
  match target_read sz va s with
  | (s, None) => (s, Exc)
  | (s, Some v) => k v s
  end.
Definition writing (sz : nat) (va val : Z) (k : E) : E := fun s =>
  match target_write sz va val s with
  | (s, None) => (s, Exc)
  | (s, Some _) => k s
  end.

(** A state-dependent handler. *)
Definition look {A} (f : cpu -> A) (k : A -> E) : E := fun s => k (f s) s.

(** The loads of [sz], sign or zero extended into [rd]. *)
Definition load_s (sz : nat) (va rd : Z) (c : ctl) : E :=
  reading sz va (fun v => goto c (set_rd rd (tu (sw (8 * 2 ^ Z.of_nat sz) v)))).
Definition load_u (sz : nat) (va rd : Z) (c : ctl) : E :=
  reading sz va (fun v => goto c (set_rd rd (tu v))).
(** The FP loads, NaN-boxed. *)
Definition load_fp (sz : nat) (va rd : Z) (c : ctl) : E :=
  reading sz va (fun v => goto c (fun s =>
    set_freg rd (Z.lor v (fp_high (8 * 2 ^ Z.of_nat sz))) s <| fs := 3 |>)).
Definition store (sz : nat) (va val : Z) (c : ctl) : E := writing sz va val (goto c id).
(** [if (s->fs == 0) goto illegal_insn] *)
Definition need_fp (k : E) : E := look fs (fun f => if f =? 0 then illegal else k).

(** The size of an [uintx_t] at XLEN 128. *)
Definition szq : nat := 4.

(** * Compressed instructions *)

Definition creg (insn pos : Z) : Z := Z.lor (get_bits 32 insn pos 3) 8.

(** Quadrant 0 *)
Definition exec_c0 (insn : Z) : E :=
  let funct3 := get_bits 32 insn 13 3 in
  let rd := creg insn 2 in
  let rs1 := creg insn 7 in
  let at_ imm k := look (fun s => greg s rs1) (fun r => k (sx xlen (r + imm))) in
  let imm_d := fields insn [(10, 3, 5); (5, 6, 7)] in
  let imm_w := fields insn [(10, 3, 5); (6, 2, 2); (5, 6, 6)] in
  let imm_q := fields insn [(11, 4, 5); (10, 8, 8); (5, 6, 7)] in
  if funct3 =? 0 then (* c.addi4spn *)
    let imm := fields insn [(11, 4, 5); (7, 6, 9); (6, 2, 2); (5, 3, 3)] in
    if imm =? 0 then illegal
    else goto CNext (fun s => set_greg rd (sx xlen (greg s 2 + imm)) s)
  else if funct3 =? 1 then
    if 128 <=? xlen then (* c.lq *)
      at_ imm_q (fun va => reading szq va (fun v => goto CNext (set_greg rd (tu v))))
    else (* c.fld *) need_fp (at_ imm_d (fun va => load_fp 3 va rd CNext))
  else if funct3 =? 2 then (* c.lw *)
    at_ imm_w (fun va => reading 2 va (fun v => goto CNext (set_greg rd (tu (sw 32 v)))))
  else if funct3 =? 3 then
    if 64 <=? xlen then (* c.ld *)
      at_ imm_d (fun va => reading 3 va (fun v => goto CNext (set_greg rd (tu (sw 64 v)))))
    else (* c.flw *) need_fp (at_ imm_w (fun va => load_fp 2 va rd CNext))
  else if funct3 =? 5 then
    if 128 <=? xlen then (* c.sq *)
      at_ imm_q (fun va => look (fun s => greg s rd) (fun v => store szq va v CNext))
    else (* c.fsd *)
      need_fp (at_ imm_d (fun va => look (fun s => freg s rd) (fun v => store 3 va v CNext)))
  else if funct3 =? 6 then (* c.sw *)
    at_ imm_w (fun va => look (fun s => greg s rd) (fun v => store 2 va v CNext))
  else if funct3 =? 7 then
    if 64 <=? xlen then (* c.sd *)
      at_ imm_d (fun va => look (fun s => greg s rd) (fun v => store 3 va v CNext))
    else (* c.fsw *)
      need_fp (at_ imm_w (fun va => look (fun s => freg s rd) (fun v => store 2 va v CNext)))
  else illegal.

Definition imm_ci (insn : Z) : Z := simm (fields insn [(12, 5, 5); (2, 0, 4)]) 6.
Definition imm_cj (insn : Z) : Z :=
  simm (fields insn [(12, 11, 11); (11, 4, 4); (9, 8, 9); (8, 10, 10); (7, 6, 6); (6, 7, 7);
                     (3, 1, 3); (2, 5, 5)]) 12.
Definition imm_cb (insn : Z) : Z :=
  simm (fields insn [(12, 8, 8); (10, 3, 4); (5, 6, 7); (3, 1, 2); (2, 5, 5)]) 9.

(** The arithmetic of quadrant 1, [funct3] 4. *)
Definition exec_c1_alu (insn : Z) : E :=
  let funct2 := get_bits 32 insn 10 2 in
  let rd := creg insn 7 in
  let rs2 := creg insn 2 in
  let alu f := goto CNext (fun s => set_greg rd (f (greg s rd) (greg s rs2)) s) in
  if (funct2 =? 0) || (funct2 =? 1) then (* c.srli, c.srai *)
    let imm := fields insn [(12, 5, 5); (2, 0, 4)] in
    if (xlen =? 32) && get_bit 32 imm 5 then illegal
    else
      let imm := if xlen =? 128 then
                   if imm =? 0 then 64 else if 32 <=? imm then 128 - imm else imm
                 else imm in
      if funct2 =? 0 then alu (fun a _ => sx xlen (Z.shiftr (uw xlen a) imm))
      else alu (fun a _ => tu (Z.shiftr (sw xlen a) imm))
  else if funct2 =? 2 then (* c.andi *) alu (fun a _ => Z.land a (tu (imm_ci insn)))
  else
    let funct3 := Z.lor (get_bits 32 insn 5 2) (Z.shiftl (Z_of_bool (get_bit 32 insn 12)) 2) in
    if funct3 =? 0 then (* c.sub *) alu (fun a b => sx xlen (a - b))
    else if funct3 =? 1 then (* c.xor *) alu Z.lxor
    else if funct3 =? 2 then (* c.or *) alu Z.lor
    else if funct3 =? 3 then (* c.and *) alu Z.land
    else if funct3 =? 4 then (* c.subw *)
      if xlen <? 64 then illegal else alu (fun a b => tu (sw 32 (a - b)))
    else if funct3 =? 5 then (* c.addw *)
      if xlen <? 64 then illegal else alu (fun a b => tu (sw 32 (a + b)))
    else illegal.

(** Quadrant 1 *)
Definition exec_c1 (pc0 insn : Z) : E :=
  let funct3 := get_bits 32 insn 13 3 in
  let rd := get_bits 32 insn 7 5 in
  let rs1 := creg insn 7 in
  let jump imm := goto Jump (set_pc (sx xlen (pc0 + imm))) in
  if funct3 =? 0 then (* c.addi, c.nop *)
    goto CNext (fun s => set_rd rd (sx xlen (greg s rd + imm_ci insn)) s)
  else if funct3 =? 1 then
    if xlen =? 32 then (* c.jal *)
      goto Jump (fun s => set_pc (sx xlen (pc0 + imm_cj insn)) (set_greg 1 (tu (pc0 + 2)) s))
    else (* c.addiw *) goto CNext (fun s => set_rd rd (tu (sw 32 (greg s rd + imm_ci insn))) s)
  else if funct3 =? 2 then (* c.li *) goto CNext (set_rd rd (tu (imm_ci insn)))
  else if funct3 =? 3 then
    if rd =? 2 then (* c.addi16sp *)
      let imm := simm (fields insn [(12, 9, 9); (6, 4, 4); (5, 6, 6); (3, 7, 8); (2, 5, 5)]) 10 in
      if imm =? 0 then illegal
      else goto CNext (fun s => set_greg 2 (sx xlen (greg s 2 + imm)) s)
    else (* c.lui *)
      goto CNext (set_rd rd (tu (simm (fields insn [(12, 17, 17); (2, 12, 16)]) 18)))
  else if funct3 =? 4 then exec_c1_alu insn
  else if funct3 =? 5 then (* c.j *) jump (imm_cj insn)
  else if funct3 =? 6 then (* c.beqz *)
    look (fun s => greg s rs1) (fun r => if r =? 0 then jump (imm_cb insn) else goto CNext id)
  else (* c.bnez *)
    look (fun s => greg s rs1) (fun r => if r =? 0 then goto CNext id else jump (imm_cb insn)).

(** Quadrant 2 *)
Definition exec_c2 (pc0 insn : Z) : E :=
  let funct3 := get_bits 32 insn 13 3 in
  let rd := get_bits 32 insn 7 5 in
  let rs2 := get_bits 32 insn 2 5 in
  let sp imm k := look (fun s => greg s 2) (fun r => k (sx xlen (r + imm))) in
  let low pos len := Z.land rs2 (field_mask 32 pos len) in
  let hi := get_field1 insn 12 5 5 in
  let imm_lw := lors [hi; low 2 3; get_field1 insn 2 6 7] in
  let imm_ld := lors [hi; low 3 2; get_field1 insn 2 6 8] in
  let imm_sw := fields insn [(9, 2, 5); (7, 6, 7)] in
  let imm_sd := fields insn [(10, 3, 5); (7, 6, 8)] in
  let store_reg sz imm := sp imm (fun va => look (fun s => greg s rs2) (fun v => store sz va v CNext)) in
  let store_freg sz imm :=
    need_fp (sp imm (fun va => look (fun s => freg s rs2) (fun v => store sz va v CNext))) in
  if funct3 =? 0 then (* c.slli *)
    let imm := Z.lor hi rs2 in
    if (xlen =? 32) && get_bit 32 imm 5 then illegal
    else
      let imm := if (xlen =? 128) && (imm =? 0) then 64 else imm in
      goto CNext (fun s => set_rd rd (sx xlen (tu (Z.shiftl (greg s rd) imm))) s)
  else if funct3 =? 1 then
    if xlen =? 128 then (* c.lqsp *)
      sp (lors [hi; Z.land rs2 (bit_at 32 4); get_field1 insn 2 6 9])
        (fun va => load_u szq va rd CNext)
    else (* c.fldsp *) need_fp (sp imm_ld (fun va => load_fp 3 va rd CNext))
  else if funct3 =? 2 then (* c.lwsp *) sp imm_lw (fun va => load_s 2 va rd CNext)
  else if funct3 =? 3 then
    if 64 <=? xlen then (* c.ldsp *) sp imm_ld (fun va => load_s 3 va rd CNext)
    else (* c.flwsp *) need_fp (sp imm_lw (fun va => load_fp 2 va rd CNext))
  else if funct3 =? 4 then
    if negb (get_bit 32 insn 12) then
      if rs2 =? 0 then (* c.jr *)
        if rd =? 0 then illegal else goto Jump (fun s => set_pc (Z.ldiff (greg s rd) 1) s)
      else (* c.mv *) goto CNext (fun s => set_rd rd (greg s rs2) s)
    else if rs2 =? 0 then
      if rd =? 0 then (* c.ebreak *)
        goto Exc (fun s => s <| pending_exception := CAUSE_BREAKPOINT |>)
      else (* c.jalr *)
        goto Jump (fun s => set_greg 1 (tu (pc0 + 2)) (set_pc (Z.ldiff (greg s rd) 1) s))
    else (* c.add *) goto CNext (fun s => set_rd rd (sx xlen (greg s rd + greg s rs2)) s)
  else if funct3 =? 5 then
    if xlen =? 128 then (* c.sqsp *) store_reg szq imm_sd
    else (* c.fsdsp *) store_freg 3%nat imm_sd
  else if funct3 =? 6 then (* c.swsp *) store_reg 2%nat imm_sw
  else if 64 <=? xlen then (* c.sdsp *) store_reg 3%nat imm_sd
  else (* c.fswsp *) store_freg 2%nat imm_sw.

(** * Base instructions *)

Definition insn_rd (insn : Z) : Z := get_bits 32 insn 7 5.
Definition insn_rs1 (insn : Z) : Z := get_bits 32 insn 15 5.
Definition insn_rs2 (insn : Z) : Z := get_bits 32 insn 20 5.
Definition insn_funct3 (insn : Z) : Z := get_bits 32 insn 12 3.
(** [sign_extend(insn >> 20, 12)] *)
Definition imm_i (insn : Z) : Z := simm (Z.shiftr insn 20) 12.
Definition imm_s (insn : Z) : Z := simm (Z.lor (insn_rd insn) (get_field1 insn 25 5 11)) 12.
Definition imm_b (insn : Z) : Z :=
  simm (fields insn [(31, 12, 12); (25, 5, 10); (8, 1, 4); (7, 11, 11)]) 13.
Definition imm_u (insn : Z) : Z := sw 32 (set_bits 32 insn 0 12 0).
Definition imm_j (insn : Z) : Z :=
  simm (fields insn [(31, 20, 20); (21, 1, 10); (20, 11, 11); (12, 12, 19)]) 21.

Definition exec_lui (insn : Z) : E := goto Next (set_rd (insn_rd insn) (tu (imm_u insn))).
Definition exec_auipc (pc0 insn : Z) : E :=
  goto Next (set_rd (insn_rd insn) (sx xlen (pc0 + imm_u insn))).
Definition exec_jal (pc0 insn : Z) : E :=
  goto Jump (fun s => set_pc (sx xlen (pc0 + imm_j insn)) (set_rd (insn_rd insn) (tu (pc0 + 4)) s)).
Definition exec_jalr (pc0 insn : Z) : E :=
  goto Jump (fun s => set_rd (insn_rd insn) (tu (pc0 + 4))
    (set_pc (Z.ldiff (sx xlen (greg s (insn_rs1 insn) + imm_i insn)) 1) s)).

Definition branch_cond (funct3 a b : Z) : option bool :=
  let op := Z.shiftr funct3 1 in
  option_map (fun c => xorb c (nz (Z.land funct3 1)))
    (if op =? 0 then Some (a =? b)
     else if op =? 2 then Some (ts a <? ts b)
     else if op =? 3 then Some (a <? b)
     else None).

Definition exec_branch (pc0 insn : Z) : E :=
  look (fun s => branch_cond (insn_funct3 insn) (greg s (insn_rs1 insn)) (greg s (insn_rs2 insn)))
    (fun c => match c with
     | None => illegal
     | Some true => goto Jump (set_pc (sx xlen (pc0 + imm_b insn)))
     | Some false => goto Next id
     end).

(** [addr = s->reg[rs1] + imm] *)
Definition base_addr (insn imm : Z) (k : Z -> E) : E :=
  look (fun s => tu (greg s (insn_rs1 insn) + imm)) k.

Definition exec_load (insn : Z) : E :=
  let funct3 := insn_funct3 insn in
  let rd := insn_rd insn in
  base_addr insn (imm_i insn) (fun va =>
    if funct3 =? 0 then (* lb *) load_s 0 va rd Next
    else if funct3 =? 1 then (* lh *) load_s 1 va rd Next
    else if funct3 =? 2 then (* lw *) load_s 2 va rd Next
    else if funct3 =? 4 then (* lbu *) load_u 0 va rd Next
    else if funct3 =? 5 then (* lhu *) load_u 1 va rd Next
    else if funct3 =? 3 then (* ld *) if xlen <? 64 then illegal else load_s 3 va rd Next
    else if funct3 =? 6 then (* lwu *) if xlen <? 64 then illegal else load_u 2 va rd Next
    else (* ldu *) if xlen <? 128 then illegal else load_u 3 va rd Next).

Definition exec_store (insn : Z) : E :=
  let funct3 := insn_funct3 insn in
  base_addr insn (imm_s insn) (fun va => look (fun s => greg s (insn_rs2 insn)) (fun val =>
    if funct3 =? 0 then (* sb *) store 0 va val Next
    else if funct3 =? 1 then (* sh *) store 1 va val Next
    else if funct3 =? 2 then (* sw *) store 2 va val Next
    else if funct3 =? 3 then (* sd *) if xlen <? 64 then illegal else store 3 va val Next
    else if funct3 =? 4 then (* sq *) if xlen <? 128 then illegal else store szq va val Next
    else illegal)).

(** A computed value goes to [rd]; [None] is an illegal instruction. *)
Definition to_rd (insn : Z) (f : cpu -> option Z) : E :=
  look f (fun r => match r with
    | None => illegal
    | Some v => goto Next (set_rd (insn_rd insn) v)
    end).

(** OP-IMM on the value of [rs1] *)
Definition op_imm (insn a : Z) : option Z :=
  let funct3 := insn_funct3 insn in
  let imm := imm_i insn in
  let bitmanip := option_map (sx xlen) (rv_bitmanip_op_imm xlen insn (uw xlen a)) in
  let shamt := Z.land imm (xlen - 1) in
  if funct3 =? 0 then (* addi *) Some (sx xlen (a + imm))
  else if funct3 =? 1 then (* slli *)
    if (xlen <=? 64) && nz (get_bits 32 insn 26 6) then bitmanip
    else if nz (Z.ldiff imm (xlen - 1)) then None
    else Some (sx xlen (tu (Z.shiftl a shamt)))
  else if funct3 =? 2 then (* slti *) Some (Z_of_bool (ts a <? imm))
  else if funct3 =? 3 then (* sltiu *) Some (Z_of_bool (a <? tu imm))
  else if funct3 =? 4 then (* xori *) Some (Z.lxor a (tu imm))
  else if funct3 =? 5 then (* srli, srai *)
    if (xlen <=? 64) && nz (Z.ldiff (get_bits 32 insn 26 6) 0x10) then bitmanip
    else if nz (Z.ldiff imm (Z.lor (xlen - 1) 0x400)) then None
    else if get_bit 32 imm 10 then Some (tu (Z.shiftr (sw xlen a) shamt))
    else Some (sx xlen (Z.shiftr (uw xlen a) shamt))
  else if funct3 =? 6 then (* ori *) Some (Z.lor a (tu imm))
  else (* andi *) Some (Z.land a (tu imm)).
Definition exec_op_imm (insn : Z) : E := to_rd insn (fun s => op_imm insn (greg s (insn_rs1 insn))).

(** The narrower immediates: addiw and its shifts for [n] = 32, addid and its
    shifts for [n] = 64. *)
Definition op_imm_narrow (n insn a : Z) : option Z :=
  let funct3 := insn_funct3 insn in
  let imm := imm_i insn in
  let shamt := Z.land imm (n - 1) in
  if funct3 =? 0 then Some (tu (sw n (a + imm)))
  else if funct3 =? 1 then
    if nz (Z.ldiff imm (n - 1)) then None else Some (tu (sw n (tu (Z.shiftl a shamt))))
  else if funct3 =? 5 then
    if nz (Z.ldiff imm (Z.lor (n - 1) 0x400)) then None
    else if get_bit 32 imm 10 then Some (tu (Z.shiftr (sw n a) shamt))
    else Some (tu (sw n (Z.shiftr (uw n a) shamt)))
  else None.

Definition op_imm_32 (insn a : Z) : option Z :=
  let funct3 := insn_funct3 insn in
  if xlen <? 64 then None
  else if (xlen =? 64) &&
          ((funct3 =? 1) && nz (get_bits 32 insn 25 7) ||
           (funct3 =? 5) && nz (Z.ldiff (get_bits 32 insn 25 7) 0x20)) then
    option_map (fun r => tu (sw 64 r)) (rv_bitmanip_op_imm_32 insn (u64 a))
  else op_imm_narrow 32 insn a.
Definition exec_op_imm_32 (insn : Z) : E :=
  to_rd insn (fun s => op_imm_32 insn (greg s (insn_rs1 insn))).

Definition exec_op_imm_64 (insn : Z) : E :=
  to_rd insn (fun s => if xlen <? 128 then None else op_imm_narrow 64 insn (greg s (insn_rs1 insn))).

(** [get_bits(insn, 12, 3) | (get_bit(insn, 30) << 3)] *)
Definition alu_op (insn : Z) : Z :=
  Z.lor (insn_funct3 insn) (Z.shiftl (Z_of_bool (get_bit 32 insn 30)) 3).

(** The RV32M group of OP. *)
Definition op_muldiv (funct3 a b : Z) : Z :=
  let ua := uw xlen a in
  let ub := uw xlen b in
  let sa := sw xlen a in
  let sb := sw xlen b in
  if funct3 =? 0 then (* mul *) sx xlen (sa * sb)
  else if funct3 =? 1 then (* mulh *) sx xlen (rv_mulh int128 xlen sa sb)
  else if funct3 =? 2 then (* mulhsu *) sx xlen (rv_mulhsu int128 xlen sa ub)
  else if funct3 =? 3 then (* mulhu *) sx xlen (rv_mulhu int128 xlen ua ub)
  else if funct3 =? 4 then (* div *) tu (rv_div xlen sa sb)
  else if funct3 =? 5 then (* divu *) sx xlen (rv_divu xlen ua ub)
  else if funct3 =? 6 then (* rem *) tu (rv_rem xlen sa sb)
  else (* remu *) sx xlen (rv_remu xlen ua ub).

(** OP on the values of [rs1] and [rs2] *)
Definition op_reg (insn a b : Z) : option Z :=
  let imm := get_bits 32 insn 25 7 in
  let op := alu_op insn in
  let shamt := Z.land b (xlen - 1) in
  if imm =? 1 then Some (op_muldiv (insn_funct3 insn) a b)
  else
    match (if (xlen <=? 64) && nz imm then rv_bitmanip_op xlen insn (uw xlen a) (uw xlen b)
           else None) with
    | Some r => Some (sx xlen r)
    | None =>
      if nz (Z.ldiff imm 0x20) then None
      else if op =? 0 then (* add *) Some (sx xlen (a + b))
      else if op =? Z.lor 0 8 then (* sub *) Some (sx xlen (a - b))
      else if op =? 1 then (* sll *) Some (sx xlen (tu (Z.shiftl a shamt)))
      else if op =? 2 then (* slt *) Some (Z_of_bool (ts a <? ts b))
      else if op =? 3 then (* sltu *) Some (Z_of_bool (a <? b))
      else if op =? 4 then (* xor *) Some (Z.lxor a b)
      else if op =? 5 then (* srl *) Some (sx xlen (Z.shiftr (uw xlen a) shamt))
      else if op =? Z.lor 5 8 then (* sra *) Some (tu (Z.shiftr (sw xlen a) shamt))
      else if op =? 6 then (* or *) Some (Z.lor a b)
      else if op =? 7 then (* and *) Some (Z.land a b)
      else None
    end.
Definition exec_op (insn : Z) : E :=
  to_rd insn (fun s => op_reg insn (greg s (insn_rs1 insn)) (greg s (insn_rs2 insn))).

(** The narrower operations: addw, mulw and the like for [n] = 32, addd and
    muld for [n] = 64. *)
Definition muldiv_narrow (n funct3 a b : Z) : option Z :=
  if funct3 =? 0 then Some (tu (sw n (sw n a * sw n b)))
  else if funct3 =? 4 then Some (tu (rv_div n (sw n a) (sw n b)))
  else if funct3 =? 5 then Some (tu (sw n (rv_divu n (uw n a) (uw n b))))
  else if funct3 =? 6 then Some (tu (rv_rem n (sw n a) (sw n b)))
  else if funct3 =? 7 then Some (tu (sw n (rv_remu n (uw n a) (uw n b))))
  else None.
Definition alu_narrow (n insn a b : Z) : option Z :=
  let op := alu_op insn in
  let shamt := Z.land b (n - 1) in
  if nz (Z.ldiff (get_bits 32 insn 25 7) 0x20) then None
  else if op =? 0 then Some (tu (sw n (a + b)))
  else if op =? Z.lor 0 8 then Some (tu (sw n (a - b)))
  else if op =? 1 then Some (tu (sw n (Z.shiftl (uw n a) shamt)))
  else if op =? 5 then Some (tu (sw n (Z.shiftr (uw n a) shamt)))
  else if op =? Z.lor 5 8 then Some (tu (Z.shiftr (sw n a) shamt))
  else None.

Definition op_32 (insn a b : Z) : option Z :=
  let imm := get_bits 32 insn 25 7 in
  if xlen <? 64 then None
  else if imm =? 1 then muldiv_narrow 32 (insn_funct3 insn) a b
  else
    match (if (xlen =? 64) && nz imm && negb (imm =? 0x20)
           then rv_bitmanip_op_32 insn (u64 a) (u64 b) else None) with
    | Some r => Some (tu (sw 64 r))
    | None => alu_narrow 32 insn a b
    end.
Definition exec_op_32 (insn : Z) : E :=
  to_rd insn (fun s => op_32 insn (greg s (insn_rs1 insn)) (greg s (insn_rs2 insn))).

Definition op_64 (insn a b : Z) : option Z :=
  if xlen <? 128 then None
  else if get_bits 32 insn 25 7 =? 1 then muldiv_narrow 64 (insn_funct3 insn) a b
  else alu_narrow 64 insn a b.
Definition exec_op_64 (insn : Z) : E :=
  to_rd insn (fun s => op_64 insn (greg s (insn_rs1 insn)) (greg s (insn_rs2 insn))).

(** * SYSTEM *)

(** What follows a write to a CSR of the old value [val2]: an interrupt it
    unmasked is taken before the next instruction. *)
Definition csr_done (pc0 rd val2 : Z) (err : csr_result) : E := fun s =>
  let err := match err with
             | CsrOk => if nz (get_pending_irq_mask s) then CsrFlushed else CsrOk
             | _ => err
             end in
  match err with
  | CsrInvalid => (s, Illegal)
  | CsrOk => (set_rd rd val2 s, Next)
  | CsrExit => (set_pc (tu (pc0 + 4)) (set_rd rd val2 s), Done)
  | CsrFlushed => (set_pc (tu (pc0 + 4)) (set_rd rd val2 s), Jump)
  end.

(** [s->insn_counter = GET_INSN_COUNTER()] *)
Definition sync_counter (ica : Z) (s : cpu) : cpu :=
  s <| insn_counter := u64 (ica - n_cycles s) |>.

(** csrrw, csrrs and csrrc, [op] 1 to 3, with the operand [val]. *)
Definition exec_csr (pc0 ica insn op val : Z) : E := fun s =>
  let csr := get_bits 32 insn 20 12 in
  let will_write := (op =? 1) || nz (insn_rs1 insn) in
  match csr_read csr will_write (sync_counter ica s) with
  | (s, None) => (s, Illegal)
  | (s, Some val2) =>
    let val2 := sx xlen val2 in
    if will_write then
      let val := if op =? 1 then val
                 else if op =? 2 then Z.lor val2 val
                 else Z.ldiff val2 val in
      let '(s, err) := csr_write csr val s in
      csr_done pc0 (insn_rd insn) val2 err s
    else (set_rd (insn_rd insn) val2 s, Next)
  end.

(** [if (cond) goto illegal_insn] *)
Definition illegal_if (cond : bool) (k : E) : E := if cond then illegal else k.

Definition exec_wfi (pc0 insn : Z) : E := fun s =>
  illegal_if (nz (get_bits 32 insn 7 8) || (priv s =? PRV_U) ||
              (priv s <? PRV_M) && nz (Z.land (mstatus s) MSTATUS_TW))
    (fun s =>
       let s := process_inbox s in
       if Z.land (mip s) (mie s) =? 0 then
         (set_pc (tu (pc0 + 4)) (s <| power_down_flag := true |>), Done)
       else (s, Next)) s.

(** sfence.vma and sinval.vma *)
Definition exec_sfence_vma (pc0 insn : Z) : E := fun s =>
  illegal_if (nz (get_bits 32 insn 7 8) || (priv s =? PRV_U) ||
              (priv s <? PRV_M) && nz (Z.land (mstatus s) MSTATUS_TVM))
    (goto Jump (fun s =>
       let rs1 := insn_rs1 insn in
       set_pc (tu (pc0 + 4))
         (if rs1 =? 0 then tlb_flush_all s else tlb_flush_vaddr (greg s rs1) s))) s.

Definition exec_system (pc0 ica insn : Z) : E := fun s =>
  let funct3 := insn_funct3 insn in
  let imm := get_bits 32 insn 20 12 in
  let val := if nz (Z.land funct3 4) then insn_rs1 insn else greg s (insn_rs1 insn) in
  let op := Z.land funct3 3 in
  let plain := nz (get_bits 32 insn 7 13) in
  (if negb (op =? 0) then exec_csr pc0 ica insn op val
   else if imm =? 0x000 then (* ecall *)
     illegal_if plain
       (goto Exc (fun s => s <| pending_exception := CAUSE_USER_ECALL + priv s |>))
   else if imm =? 0x001 then (* ebreak *)
     illegal_if plain (goto Exc (fun s => s <| pending_exception := CAUSE_BREAKPOINT |>))
   else if imm =? 0x102 then (* sret *)
     illegal_if (plain || (priv s <? PRV_S) ||
                 (priv s <? PRV_M) && nz (Z.land (mstatus s) MSTATUS_TSR))
       (goto Done (fun s => handle_sret (set_pc pc0 s)))
   else if imm =? 0x302 then (* mret *)
     illegal_if (plain || (priv s <? PRV_M)) (goto Done (fun s => handle_mret (set_pc pc0 s)))
   else if imm =? 0x105 then exec_wfi pc0 insn
   else if (imm =? 0x180) || (imm =? 0x181) then (* sfence.w.inval, sfence.inval.ir *)
     illegal_if (plain || (priv s =? PRV_U)) (goto Next id)
   else if (Z.shiftr imm 5 =? 0x09) || (Z.shiftr imm 5 =? 0x0b) then exec_sfence_vma pc0 insn
   else illegal) s.

(** * misc-mem *)

Definition exec_misc_mem (insn : Z) : E :=
  let funct3 := insn_funct3 insn in
  if funct3 =? 0 then (* fence, fence.tso: the host's ordering only *) goto Next id
  else if funct3 =? 1 then (* fence.i *) illegal_if (negb (insn =? 0x0000100f)) (goto Next id)
  else if funct3 =? 2 then (* lq *)
    if xlen <? 128 then illegal
    else base_addr insn (imm_i insn) (fun va => load_u szq va (insn_rd insn) Next)
  else illegal.

(** * Atomics *)

(** What an AMO writes: from the value [val] of memory, sign extended, and
    the register [val2]. *)
Definition amo_value (w funct5 val val2 : Z) : option Z :=
  if funct5 =? 1 then (* amoswap *) Some val2
  else if funct5 =? 0 then (* amoadd *) Some (tu (sw w (val + val2)))
  else if funct5 =? 4 then (* amoxor *) Some (tu (sw w (Z.lxor val val2)))
  else if funct5 =? 0xc then (* amoand *) Some (tu (sw w (Z.land val val2)))
  else if funct5 =? 0x8 then (* amoor *) Some (tu (sw w (Z.lor val val2)))
  else if funct5 =? 0x10 then (* amomin *)
    Some (if sw w val <? sw w val2 then tu (sw w val) else val2)
  else if funct5 =? 0x14 then (* amomax *)
    Some (if sw w val2 <? sw w val then tu (sw w val) else val2)
  else if funct5 =? 0x18 then (* amominu *)
    Some (if uw w val <? uw w val2 then tu (sw w val) else val2)
  else if funct5 =? 0x1c then (* amomaxu *)
    Some (if uw w val2 <? uw w val then tu (sw w val) else val2)
  else None.

(** From [amo_retry:] on for an operand in RAM at [ptr].  The exchange fails
    only if another thread came in between, so [fuel] beyond the number of
    times one can is enough; [None] is out of fuel. *)
Fixpoint amo_retry (fuel n : nat) (funct5 ptr rval val2 : Z) (s : cpu) : cpu * option Z :=
  match fuel with
  | O => (s, None)
  | S fuel =>
    let w := 8 * Z.of_nat n in
    let val := tu (sw w rval) in
    let s := interleave s in
    let '(m, r) := host_cmpxchg n ptr rval (uw w (default 0 (amo_value w funct5 val val2)))
                     (mem (sh s)) in
    let s := on_mem (fun _ => m) s in
    match r with
    | None => (s, Some val)
    | Some rval => amo_retry fuel n funct5 ptr rval val2 s
    end
  end.

Definition exec_lr (sz : nat) (insn : Z) (k : Z -> E) : E :=
  illegal_if (nz (insn_rs2 insn))
    (look (fun s => greg s (insn_rs1 insn)) (fun va =>
     reading sz va (fun rval s =>
       k (tu (sw (8 * 2 ^ Z.of_nat sz) rval)) (s <| load_res := va |> <| load_val := rval |>)))).

Definition exec_sc (sz : nat) (insn : Z) (k : Z -> E) : E := fun s =>
  let va := greg s (insn_rs1 insn) in
  let val2 := greg s (insn_rs2 insn) in
  let w := 8 * 2 ^ Z.of_nat sz in
  let finish val s := k val (s <| load_res := tu (-1) |>) in
  if load_res s =? va then
    match rmw_ptr va sz s with
    | (s, None) => (s, Exc)
    | (s, Some (Some ptr)) =>
      let s := interleave s in
      let '(m, r) := host_cmpxchg (2 ^ sz) ptr (uw w (load_val s)) (uw w val2) (mem (sh s)) in
      finish (match r with None => 0 | Some _ => 1 end) (on_mem (fun _ => m) s)
    | (s, Some None) => writing sz va val2 (finish 0) s
    end
  else finish 1 s.

Definition exec_amo_op (sz : nat) (insn funct5 : Z) (k : Z -> E) : E := fun s =>
  let va := greg s (insn_rs1 insn) in
  let val2 := greg s (insn_rs2 insn) in
  let w := 8 * 2 ^ Z.of_nat sz in
  match rmw_ptr va sz s with
  | (s, None) => (s, Exc)
  | (s, Some (Some ptr)) =>
    let rval := host_read (2 ^ sz) (mem (sh s)) ptr in
    let '(s, val) := amo_retry (S (length (others s))) (2 ^ sz) funct5 ptr rval val2 s in
    k (default 0 val) s
  | (s, Some None) =>
    reading sz va (fun rval =>
      let val := tu (sw w rval) in
      writing sz va (default 0 (amo_value w funct5 val val2)) (k val)) s
  end.

Definition exec_amo (sz : nat) (insn : Z) (k : Z -> E) : E :=
  let funct5 := get_bits 32 insn 27 5 in
  if funct5 =? 2 then exec_lr sz insn k
  else if funct5 =? 3 then exec_sc sz insn k
  else match amo_value (8 * 2 ^ Z.of_nat sz) funct5 0 0 with
       | None => illegal
       | Some _ => exec_amo_op sz insn funct5 k
       end.

Definition exec_amo_insn (insn : Z) : E :=
  let funct3 := insn_funct3 insn in
  let run sz := exec_amo sz insn (fun val => goto Next (set_rd (insn_rd insn) val)) in
  if funct3 =? 2 then run 2%nat
  else if funct3 =? 3 then if xlen <? 64 then illegal else run 3%nat
  else if funct3 =? 4 then if xlen <? 128 then illegal else run szq
  else illegal.

(** * Floating point *)

Definition exec_fp_load (insn : Z) : E :=
  let funct3 := insn_funct3 insn in
  need_fp (base_addr insn (imm_i insn) (fun va =>
    if funct3 =? 2 then (* flw *) load_fp 2 va (insn_rd insn) Next
    else if funct3 =? 3 then (* fld *) load_fp 3 va (insn_rd insn) Next
    else if funct3 =? 4 then (* flq *)
      if FLEN <? 128 then illegal else load_fp szq va (insn_rd insn) Next
    else illegal)).

Definition exec_fp_store (insn : Z) : E :=
  let funct3 := insn_funct3 insn in
  need_fp (base_addr insn (imm_s insn) (fun va => look (fun s => freg s (insn_rs2 insn)) (fun val =>
    if funct3 =? 2 then (* fsw *) store 2 va val Next
    else if funct3 =? 3 then (* fsd *) store 3 va val Next
    else if funct3 =? 4 then (* fsq *) if FLEN <? 128 then illegal else store szq va val Next
    else illegal))).

(** An operation of [RvFp]; [None] is INSN_ILLEGAL. *)
Definition fp_insn (f : cpu -> option cpu) : E := fun s =>
  match f s with
  | None => (s, Illegal)
  | Some s => (s, Next)
  end.

Definition exec_fma_insn (neg_p neg_c : bool) (insn : Z) : E :=
  fp_insn (exec_fma int128 neg_p neg_c insn (insn_rd insn) (insn_rs1 insn) (insn_rs2 insn)).

Definition exec_op_fp (insn : Z) : E :=
  let imm := get_bits 32 insn 25 7 in
  let fmt := Z.land imm 3 in
  let run F := fp_insn (exec_fp_op int128 F xlen (Z.shiftr imm 2) (insn_rd insn) (insn_rs1 insn)
                          (insn_rs2 insn) (insn_funct3 insn)) in
  need_fp
    (if fmt =? 0 then run 32
     else if fmt =? 1 then run 64
     else if fmt =? 3 then if FLEN <? 128 then illegal else run FLEN
     else illegal).

(** * The switch on the opcode *)

Definition exec_insn (pc0 ica insn : Z) : E :=
  let opcode := get_bits 32 insn 0 7 in
  let quadrant := Z.land opcode 3 in
  if quadrant =? 0 then exec_c0 insn
  else if quadrant =? 1 then exec_c1 pc0 insn
  else if quadrant =? 2 then exec_c2 pc0 insn
  else if opcode =? 0x37 then exec_lui insn
  else if opcode =? 0x17 then exec_auipc pc0 insn
  else if opcode =? 0x6f then exec_jal pc0 insn
  else if opcode =? 0x67 then exec_jalr pc0 insn
  else if opcode =? 0x63 then exec_branch pc0 insn
  else if opcode =? 0x03 then exec_load insn
  else if opcode =? 0x23 then exec_store insn
  else if opcode =? 0x13 then exec_op_imm insn
  else if opcode =? 0x1b then exec_op_imm_32 insn
  else if opcode =? 0x5b then exec_op_imm_64 insn
  else if opcode =? 0x33 then exec_op insn
  else if opcode =? 0x3b then exec_op_32 insn
  else if opcode =? 0x7b then exec_op_64 insn
  else if opcode =? 0x73 then exec_system pc0 ica insn
  else if opcode =? 0x0f then exec_misc_mem insn
  else if opcode =? 0x2f then exec_amo_insn insn
  else if opcode =? 0x07 then exec_fp_load insn
  else if opcode =? 0x27 then exec_fp_store insn
  else if opcode =? 0x43 then exec_fma_insn false false insn
  else if opcode =? 0x47 then exec_fma_insn false true insn
  else if opcode =? 0x4b then exec_fma_insn true false insn
  else if opcode =? 0x4f then exec_fma_insn true true insn
  else if opcode =? 0x53 then exec_op_fp insn
  else illegal.
End Insn.
