(* ===== verification/RvInterp.v ===== *)
(** The interpreter of a RISC-V hart: the loop of [riscv_cpu_interp_x] in
    [src/cpu/riscv/riscv_cpu_interp.h] and [riscv_cpu_interp] of
    [riscv_cpu_impl.h].

    The loop runs straight through a block, the rest of a page of code, and
    looks at the cycle count, the inbox and the interrupts only between
    blocks. *)

From stdpp Require Import base numbers list gmap.
From S2P Require Import Prelude Bits Cutils IoMem RvAlu RvState RvMem RvCsr RvTrap.
From S2P Require Import Softfp RvFp RvInsn.
Local Open Scope Z_scope.

(** The locals [code_ptr], [code_end] and [code_to_pc_addend]. *)
Record Block := mkBlock { code_ptr : Z; code_end : Z; code_to_pc_addend : Z }.

(** What the head of the loop comes to. *)
Inductive fetched := FEnd | FExc | FInsn (insn : Z).

(** How a turn of the loop of [riscv_cpu_interp] ends. *)
Inductive turn := TStop | TAgain | TAbort.

Section Interp.
Context `{MaxXlen} `{Platform D} (int128 : bool).
Notation cpu := (RISCVCPUState D).

(** GET_PC *)
Definition get_pc (b : Block) : Z := tu (code_ptr b + code_to_pc_addend b).

(** [code_ptr = code_end = NULL; code_to_pc_addend = s->pc] *)
Definition no_block (s : cpu) : Block := mkBlock 0 0 (pc s).

(** [code_ptr += n], within the page of code. *)
Definition advance (n : Z) (b : Block) : Block :=
  mkBlock (code_ptr b + n) (code_end b) (code_to_pc_addend b).

Definition count_cycle (s : cpu) : cpu := s <| n_cycles := n_cycles s - 1 |>.

(** [if ((s->mip & s->mie) != 0) if (raise_interrupt(s))] *)
Definition take_interrupt (s : cpu) : cpu * bool :=
  if nz (Z.land (mip s) (mie s)) then raise_interrupt s else (s, false).

(** The host address of the code at [va]. *)
Definition code_ptr_of (va : Z) : M D Z := fun s =>
  let e := arr_get tlb0 (tlb_code (sh s)) (tlb_index va) in
  if vaddr e =? page_of_va va then (s, Some (tlb_ptr e va)) else target_read_insn_slow va s.

(** A new block, from [s->pc] on. *)
Definition fetch_block (b : Block) (s : cpu) : cpu * Block * fetched :=
  let va := pc s in
  match code_ptr_of va s with
  | (s, None) => (s, b, FExc)
  | (s, Some ptr) =>
    let b := mkBlock ptr (ptr + tu (PG_MASK - 1 - Z.land va PG_MASK)) (tu (va - ptr)) in
    if code_end b <=? code_ptr b then
      let insn := host_read 2 (mem (sh s)) ptr in
      if Z.land insn 3 =? 3 then
        (* instruction is half way between two pages *)
        match target_read_insn_u16 (tu (va + 2)) s with
        | (s, None) => (s, b, FExc)
        | (s, Some insn_high) => (s, b, FInsn (Z.lor insn (u32 (Z.shiftl insn_high 16))))
        end
      else (s, b, FInsn insn)
    else (s, b, FInsn (host_read 4 (mem (sh s)) ptr))
  end.

(** The head of the loop. *)
Definition fetch (b : Block) (s : cpu) : cpu * Block * fetched :=
  if code_end b <=? code_ptr b then
    let s := interleave (set_pc (get_pc b) s) in
    if n_cycles s <=? 0 then (s, b, FEnd)
    else if inbox_pending (sh s) then (s, b, FEnd)
    else
      match take_interrupt s with
      | (s, true) => (count_cycle s, b, FEnd)
      | (s, false) => fetch_block b s
      end
  else (s, b, FInsn (host_read 4 (mem (sh s)) (code_ptr b))).

(** [the_end:] *)
Definition the_end (ica : Z) (s : cpu) : cpu := sync_counter ica s.

(** [exception:] on; one exception counts for one cycle. *)
Definition exception (ica pc0 : Z) (s : cpu) : cpu :=
  let s := set_pc pc0 s in
  the_end ica
    (if 0 <=? pending_exception s
     then raise_exception2 (pending_exception s) (pending_tval s) (count_cycle s) else s).

(** [illegal_insn:] on *)
Definition illegal_insn (ica pc0 insn : Z) (s : cpu) : cpu :=
  exception ica pc0
    (s <| pending_exception := CAUSE_ILLEGAL_INSTRUCTION |> <| pending_tval := tu insn |>).

(** A turn of the loop: to the next one, or out. *)
Definition interp_step (xlen ica : Z) (b : Block) (s : cpu) : cpu * option Block :=
  match fetch b s with
  | (s, b, FEnd) => (the_end ica s, None)
  | (s, b, FExc) => (exception ica (get_pc b) s, None)
  | (s, b, FInsn insn) =>
    match exec_insn int128 xlen (get_pc b) ica insn (count_cycle s) with
    | (s, CNext) => (s, Some (advance 2 b))
    | (s, Next) => (s, Some (advance 4 b))
    | (s, Jump) => (s, Some (no_block s))
    | (s, Illegal) => (illegal_insn ica (get_pc b) insn s, None)
    | (s, Exc) => (exception ica (get_pc b) s, None)
    | (s, Done) => (the_end ica s, None)
    end
  end.

(** The loop; [None] is out of fuel. *)
Fixpoint interp_loop (fuel : nat) (xlen ica : Z) (b : Block) (s : cpu) : option cpu :=
  match fuel with
  | O => None
  | S fuel =>
    match interp_step xlen ica b s with
    | (s, None) => Some s
    | (s, Some b) => interp_loop fuel xlen ica b s
    end
  end.

Definition riscv_cpu_interp_x (fuel : nat) (xlen n_cycles1 : Z) (s : cpu) : option cpu :=
  if n_cycles1 =? 0 then Some s
  else
    let ica := u64 (insn_counter s + n_cycles1) in
    match take_interrupt (s <| n_cycles := n_cycles1 |>) with
    | (s, true) => Some (the_end ica (count_cycle s))
    | (s, false) =>
      let s := s <| pending_exception := -1 |> in
      interp_loop fuel xlen ica (no_block s) s
    end.

(** * The outer loop *)

Definition INTERP_COUNT_LIMIT : Z := 2 ^ 31 - 1.

(** Woken up from an SBI suspend. *)
Definition hsm_wake (s : cpu) : cpu :=
  if hsm_suspended s then
    if hsm_resume s then sbi_enter (hsm_addr (sh s)) (hsm_opaque (sh s)) s
    else on_sh (fun h => h <| hsm_state := RISCV_HSM_STARTED |>) (s <| hsm_suspended := false |>)
  else s.

(** A turn of the loop of [riscv_cpu_interp], with [fuel] for the inner
    loop. *)
Definition interp_turn (fuel : nat) (s : cpu) : option (cpu * turn) :=
  let s := process_inbox (interleave s) in
  if power_down_flag s then Some (s, TStop)
  else
    let s := hsm_wake s in
    if exit_request (sh s) then
      Some (on_sh (fun h => h <| exit_request := false |>) s, TStop)
    else
      let run xlen := option_map (fun s => (s, TAgain))
                        (riscv_cpu_interp_x fuel xlen INTERP_COUNT_LIMIT s) in
      if cur_xlen s =? 32 then run 32
      else if cur_xlen s =? 64 then if 64 <=? max_xlen then run 64 else Some (s, TAbort)
      else if cur_xlen s =? 128 then if 128 <=? max_xlen then run 128 else Some (s, TAbort)
      else Some (s, TAbort).

(** The turns the outer loop takes: a hart runs until something stops it. *)
Inductive interp_runs : cpu -> cpu -> Prop :=
  | runs_here s : interp_runs s s
  | runs_turn fuel s s1 s2 :
      interp_turn fuel s = Some (s1, TAgain) -> interp_runs s1 s2 -> interp_runs s s2.

(** [riscv_cpu_interp] returns: the reservation ends with it. *)
Definition interp_returns (s s' : cpu) : Prop :=
  exists fuel s1 s2, interp_runs s s1 /\ interp_turn fuel s1 = Some (s2, TStop) /\
    s' = s2 <| load_res := tu (-1) |>.
End Interp.
