(* ===== verification/RvWf.v ===== *)
(** The invariant of a RISC-V hart: what every state the interpreter reaches
    has in common, over all the handlers of [RvCsr], [RvTrap], [RvInsn] and
    [RvInterp]. *)

From stdpp Require Import base numbers list gmap.
From S2P Require Import Prelude Bits Cutils IoMem RvAlu RvState RvMem RvCsr RvTrap.
From S2P Require Import Softfp RvFp RvInsn RvInterp.
Local Open Scope Z_scope.

(** What an [xl] field of [misa] or [mstatus] may hold. *)
Definition xl_ok `{MaxXlen} (xl : Z) : Prop := 1 <= xl <= get_base_from_xlen max_xlen.

(** The fields the invariant is about. *)
Record wf_fields `{MaxXlen} (reg : list Z) (pc priv mstatus mxl cur_xlen satp frm fs : Z)
  (stvec mtvec sepc mepc mhartid : Z) : Prop := {
  wf_reg_count : length reg = 32%nat;
  wf_reg_range : Forall (inw max_xlen) reg;
  (** x0 reads as zero because nothing writes it *)
  wf_x0 : arr_get 0 reg 0 = 0;
  wf_pc : inw max_xlen pc;
  wf_priv : priv = PRV_U \/ priv = PRV_S \/ priv = PRV_M;
  wf_mstatus : inw max_xlen mstatus;
  (** there is no mode 2 to return to *)
  wf_mpp : get_bits max_xlen mstatus MSTATUS_MPP_SHIFT 2 <> PRV_H;
  wf_uxl : 64 <= max_xlen -> xl_ok (get_bits max_xlen mstatus MSTATUS_UXL_SHIFT 2);
  wf_sxl : 64 <= max_xlen -> xl_ok (get_bits max_xlen mstatus MSTATUS_SXL_SHIFT 2);
  wf_mxl : xl_ok mxl;
  wf_cur_xlen : valid_xlen cur_xlen /\ cur_xlen <= max_xlen;
  (** a translation mode that exists: none, Sv39, Sv48 or Sv57 *)
  wf_satp : inw 64 satp /\ (64 <= max_xlen ->
    get_bits 64 satp 60 4 = 0 \/ 8 <= get_bits 64 satp 60 4 <= 10);
  wf_frm : 0 <= frm < 5;
  wf_fs : 0 <= fs <= 3;
  wf_stvec : inw max_xlen stvec;
  wf_mtvec : inw max_xlen mtvec;
  wf_sepc : inw max_xlen sepc;
  wf_mepc : inw max_xlen mepc;
  wf_mhartid : inw max_xlen mhartid;
}.

Definition hart_wf `{MaxXlen} {D} (s : RISCVCPUState D) : Prop :=
  wf_fields (reg s) (pc s) (priv s) (mstatus s) (mxl s) (cur_xlen s) (satp s) (frm s) (fs s)
    (stvec s) (mtvec s) (sepc s) (mepc s) (mhartid s).

Create HintDb wf.

(** * mstatus *)

(** The fields of [mstatus] the invariant is about. *)
Record mstatus_ok `{MaxXlen} (m : Z) : Prop := {
  ok_range : inw max_xlen m;
  ok_mpp : get_bits max_xlen m MSTATUS_MPP_SHIFT 2 <> PRV_H;
  ok_uxl : 64 <= max_xlen -> xl_ok (get_bits max_xlen m MSTATUS_UXL_SHIFT 2);
  ok_sxl : 64 <= max_xlen -> xl_ok (get_bits max_xlen m MSTATUS_SXL_SHIFT 2);
}.

(** What [set_mstatus] may always write. *)
Lemma mstatus_mask_bits `{MaxXlen} i : valid_xlen max_xlen ->
  11 <= i <= 12 \/ 32 <= i <= 35 ->
  Z.testbit (Z.ldiff MSTATUS_MASK MSTATUS_FS) i = (i <=? 12).
Proof.
  intros [E | [E | E]] Hi; unfold max_xlen in E; subst;
    (assert (i = 11 \/ i = 12 \/ i = 32 \/ i = 33 \/ i = 34 \/ i = 35) as
      [-> | [-> | [-> | [-> | [-> | ->]]]]] by lia; reflexivity).
Qed.

Lemma inw_MSTATUS_MASK `{MaxXlen} : valid_xlen max_xlen -> inw max_xlen MSTATUS_MASK.
Proof. intros [E | [E | E]]; unfold max_xlen in E; subst; in_range. Qed.

Lemma xl_width `{MaxXlen} xl : valid_xlen max_xlen -> xl_ok xl ->
  valid_xlen (Z.shiftl 1 (4 + xl)) /\ Z.shiftl 1 (4 + xl) <= max_xlen.
Proof.
  intros Hx [H1 H2]. unfold get_base_from_xlen in H2.
  assert (H3 : xl <= 3) by (repeat case_match; lia).
  assert (xl = 1 \/ xl = 2 \/ xl = 3) as [-> | [-> | ->]] by lia; clear H1 H3;
    destruct Hx as [E | [E | E]]; rewrite E in *; vm_compute in H2; try done;
    (split; [unfold valid_xlen; cbn; tauto|done]).
Qed.

Section Wf.
Context `{MaxXlen} `{Platform D} (Hx : valid_xlen max_xlen).
Notation cpu := (RISCVCPUState D).

(** * Ranges *)

Lemma max_xlen_pos : 0 < max_xlen.
Proof. destruct Hx as [E | [E | E]]; rewrite E; lia. Qed.
Lemma max_xlen_32 : 32 <= max_xlen.
Proof. destruct Hx as [E | [E | E]]; rewrite E; lia. Qed.

Lemma inw_tu x : inw max_xlen (tu x).
Proof. apply inw_uw, Z.lt_le_incl, max_xlen_pos. Qed.
Lemma inw_sx xlen x : inw max_xlen (sx xlen x).
Proof. apply inw_tu. Qed.

Lemma inw_greg (s : cpu) r : hart_wf s -> inw max_xlen (greg s r).
Proof.
  intros Hs. apply (Forall_arr_get 0 (inw max_xlen)); [apply Hs|]. apply inw_0, Z.lt_le_incl, max_xlen_pos.
Qed.

(** * Steps that keep the invariant *)

(** A step keeps the invariant, and the cycles left. *)
Definition keeps (s s' : cpu) : Prop := (hart_wf s -> hart_wf s') /\ n_cycles s' = n_cycles s.

#[local] Instance keeps_preorder : PreOrder keeps.
Proof.
  split; [done|]. intros s1 s2 s3 [H1 E1] [H2 E2]. split; [auto|congruence].
Qed.

(** What the invariant and the cycle count look at. *)
Definition core (s : cpu) :=
  (reg s, pc s, priv s, mstatus s, mxl s, cur_xlen s, satp s, frm s, fs s,
   stvec s, mtvec s, sepc s, mepc s, mhartid s, n_cycles s).

Lemma keeps_core s s' : core s' = core s -> keeps s s'.
Proof. unfold core, keeps, hart_wf. intros [=]. split; [|done]. congruence. Qed.

Lemma keeps_frame s s' : mem_frame s s' -> keeps s s'.
Proof. intros (h & o & e & t & ->). apply keeps_core. reflexivity. Qed.

Lemma keeps_set_rd rd v s : (hart_wf s -> inw max_xlen v) -> 0 <= rd -> keeps s (set_rd rd v s).
Proof.
  intros Hv Hrd. unfold set_rd. destruct (Z.eqb_spec rd 0); [reflexivity|].
  split; [|done]. intros Hs. specialize (Hv Hs). destruct Hs as [Hl Hr Hz ?].
  constructor; try assumption; change (reg (set_greg rd v s)) with (arr_set (reg s) rd v).
  - by rewrite length_arr_set.
  - by apply Forall_arr_set.
  - rewrite arr_get_set_ne by lia. done.
Qed.

Lemma keeps_mstatus m s : (hart_wf s -> mstatus_ok m) -> keeps s (s <| mstatus := m |>).
Proof.
  intros Hm. split; [|done]. intros Hs. destruct (Hm Hs). destruct Hs. by constructor.
Qed.

Lemma wf_mstatus_ok (s : cpu) : hart_wf s -> mstatus_ok (mstatus s).
Proof. intros []. by constructor. Qed.

(** A change of [mstatus] outside MPP, UXL and SXL. *)
Definition same_modes (m m' : Z) : Prop :=
  forall i, 11 <= i <= 12 \/ 32 <= i <= 35 -> i < max_xlen -> Z.testbit m' i = Z.testbit m i.

Lemma mstatus_ok_same m m' : mstatus_ok m -> inw max_xlen m' -> same_modes m m' -> mstatus_ok m'.
Proof.
  pose proof max_xlen_pos as Hp. intros [Hr Hmpp Hu Hs] Hr' Ha.
  assert (Hb : forall pos, pos = 11 \/ pos = 32 \/ pos = 34 ->
    get_bits max_xlen m' pos 2 = get_bits max_xlen m pos 2).
  { intros pos Hpos. apply get_bits_agree; [lia..|]. intros i Hi Hw. apply Ha; lia. }
  unfold MSTATUS_MPP_SHIFT, MSTATUS_UXL_SHIFT, MSTATUS_SXL_SHIFT in *.
  constructor; unfold MSTATUS_MPP_SHIFT, MSTATUS_UXL_SHIFT, MSTATUS_SXL_SHIFT; try done;
    rewrite Hb by lia; done.
Qed.

(** The bits written are none of the mode fields'. *)
Ltac other_bits :=
  intros i Hi; intros; autorewrite with bits; repeat case_cmp; try lia; cbn [andb orb negb];
  rewrite ?andb_true_r, ?orb_false_r; done.

Lemma keeps_flush s : keeps s (tlb_flush_all s).
Proof. by apply keeps_core. Qed.

Lemma keeps_set_priv p s : p = PRV_U \/ p = PRV_S \/ p = PRV_M -> keeps s (set_priv p s).
Proof.
  intros Hp. unfold set_priv. destruct (priv s =? p); [reflexivity|]. split.
  2: { by destruct (64 <=? max_xlen). }
  intros Hs.
  assert (Hc : 64 <= max_xlen -> forall xl, xl_ok xl -> valid_xlen (Z.shiftl 1 (4 + xl)) /\
    Z.shiftl 1 (4 + xl) <= max_xlen) by (intros; by apply xl_width).
  destruct Hs. destruct (Z.leb_spec 64 max_xlen); constructor; try assumption.
  change (cur_xlen _) with (Z.shiftl 1 (4 + if p =? PRV_S then get_bits max_xlen (mstatus s)
    MSTATUS_SXL_SHIFT 2 else if p =? PRV_U then get_bits max_xlen (mstatus s) MSTATUS_UXL_SHIFT 2
    else mxl s)).
  apply Hc; [lia|]. repeat case_match; auto.
Qed.

(** The bits [set_mstatus] takes from [val]. *)
Definition mstatus_mask (val : Z) : Z :=
  let mask := Z.ldiff MSTATUS_MASK MSTATUS_FS in
  if 64 <=? max_xlen then
    let base := get_base_from_xlen max_xlen in
    let uxl := get_bits max_xlen val MSTATUS_UXL_SHIFT 2 in
    let mask := if (1 <=? uxl) && (uxl <=? base) then Z.lor mask MSTATUS_UXL_MASK else mask in
    let sxl := get_bits max_xlen val MSTATUS_SXL_SHIFT 2 in
    if (1 <=? sxl) && (sxl <=? base) then Z.lor mask MSTATUS_SXL_MASK else mask
  else mask.

Definition xl_writable (val shift : Z) : bool :=
  let xl := get_bits max_xlen val shift 2 in (1 <=? xl) && (xl <=? get_base_from_xlen max_xlen).

Lemma mstatus_mask_testbit val i : 11 <= i <= 12 \/ 32 <= i <= 35 ->
  Z.testbit (mstatus_mask val) i =
  (i <=? 12) || (64 <=? max_xlen) &&
    (if i <=? 33 then xl_writable val MSTATUS_UXL_SHIFT else xl_writable val MSTATUS_SXL_SHIFT).
Proof.
  intros Hi. unfold mstatus_mask, xl_writable.
  pose proof (mstatus_mask_bits i Hx Hi) as Em.
  destruct (64 <=? max_xlen); cbn [andb]; [|by rewrite Em, orb_false_r].
  unfold MSTATUS_UXL_MASK, MSTATUS_SXL_MASK, MSTATUS_UXL_SHIFT, MSTATUS_SXL_SHIFT.
  repeat match goal with |- context [if ?b then Z.lor _ _ else _] => destruct b end;
    rewrite ?Z.lor_spec, ?Em, ?field_mask_testbit by lia;
    repeat (case_cmp; cbn [andb orb]; try lia); done.
Qed.

Lemma inw_mstatus_mask val : inw max_xlen (mstatus_mask val).
Proof.
  pose proof max_xlen_pos as Hp. pose proof (inw_MSTATUS_MASK Hx) as Hm. unfold mstatus_mask.
  assert (Hf : forall pos, 64 <= max_xlen -> inw max_xlen (field_mask 64 pos 2)).
  { intros pos H64. apply (inw_mono 64); [lia|]. apply inw_field_mask. lia. }
  unfold MSTATUS_UXL_MASK, MSTATUS_SXL_MASK.
  assert (Hd : inw max_xlen (Z.ldiff MSTATUS_MASK MSTATUS_FS)) by (by apply inw_ldiff; [lia|]).
  destruct (Z.leb_spec 64 max_xlen) as [H64|]; [|done].
  specialize (fun pos => Hf pos H64). repeat case_match; repeat (apply inw_lor; [lia| |]); done.
Qed.

Lemma mstatus_written_ok old val : mstatus_ok old ->
  get_bits max_xlen val MSTATUS_MPP_SHIFT 2 <> PRV_H -> mstatus_ok (merge (mstatus_mask val) old val).
Proof.
  pose proof max_xlen_pos as Hp. intros [Hr Hmpp Hu Hs] Hv.
  pose proof (inw_mstatus_mask val) as Hm.
  assert (Hb : forall pos b, 0 <= pos -> (forall i, pos <= i < pos + 2 ->
    Z.testbit (mstatus_mask val) i = b) -> get_bits max_xlen (merge (mstatus_mask val) old val) pos 2 =
    get_bits max_xlen (if b then val else old) pos 2).
  { intros. apply get_bits_merge; lia || done. }
  assert (Hxl : forall pos, pos = 32 \/ pos = 34 -> 64 <= max_xlen ->
    xl_ok (get_bits max_xlen old pos 2) ->
    xl_ok (get_bits max_xlen (merge (mstatus_mask val) old val) pos 2)).
  { intros pos Hpos H64 Hold. rewrite (Hb pos (xl_writable val pos)); [|lia|].
    - destruct (xl_writable val pos) eqn:Ew; [|done]. unfold xl_writable in Ew.
      apply andb_true_iff in Ew as [?%Z.leb_le ?%Z.leb_le]. done.
    - intros i Hi. rewrite mstatus_mask_testbit by lia. rewrite (proj2 (Z.leb_le 64 _)) by lia.
      unfold MSTATUS_UXL_SHIFT, MSTATUS_SXL_SHIFT.
      destruct Hpos as [-> | ->]; repeat case_cmp; try lia; done. }
  constructor; unfold MSTATUS_UXL_SHIFT, MSTATUS_SXL_SHIFT; [| |auto..].
  - unfold merge. apply inw_lor; [lia|by apply inw_ldiff; [lia|]|by apply inw_land_r; [lia|]].
  - unfold MSTATUS_MPP_SHIFT in *. rewrite (Hb 11 true); [done|lia|].
    intros i Hi. rewrite mstatus_mask_testbit by lia. case_cmp; done || lia.
Qed.

Lemma keeps_set_mstatus v s : keeps s (set_mstatus v s).
Proof.
  pose proof max_xlen_pos as Hp. unfold set_mstatus.
  set (val := if (_ =? PRV_H) then _ else v).
  set (t := if (_ : bool) then tlb_flush_all s else s).
  assert (Ht : keeps s t) by (unfold t; case_match; [apply keeps_flush|reflexivity]).
  assert (Em : mstatus t = mstatus s) by (unfold t; by case_match).
  transitivity t; [done|].
  fold (mstatus_mask val).
  transitivity (t <| fs := get_bits max_xlen val MSTATUS_FS_SHIFT 2 |>).
  { split; [|done]. intros []; constructor; try assumption.
    assert (inw 2 (get_bits max_xlen val MSTATUS_FS_SHIFT 2)) as [? ?]
      by (apply inw_get_bits; [lia|done|lia]).
    change (fs _) with (get_bits max_xlen val MSTATUS_FS_SHIFT 2). lia. }
  apply keeps_mstatus. intros Hs%wf_mstatus_ok.
  apply mstatus_written_ok; [done|]. unfold val.
  destruct (Z.eqb_spec (get_bits max_xlen v MSTATUS_MPP_SHIFT 2) PRV_H); [|done].
  pose proof max_xlen_32. rewrite get_set_bits by (unfold MSTATUS_MPP_SHIFT; lia).
  rewrite uw_small by (apply inw_get_bits; [lia|done|lia]).
  rewrite <- Em. apply Hs.
Qed.

(** One field written. *)
Ltac wf_field := split; [intros Hs; destruct Hs; constructor; try assumption|done].

Lemma keeps_pc v s : (hart_wf s -> inw max_xlen v) -> keeps s (s <| pc := v |>).
Proof. intros Hv. split; [intros Hs; specialize (Hv Hs); destruct Hs; by constructor|done]. Qed.
Lemma keeps_fs v s : 0 <= v <= 3 -> keeps s (s <| fs := v |>).
Proof. intros Hv. by wf_field. Qed.
Lemma keeps_satp v s : inw 64 v -> (64 <= max_xlen -> hart_wf s ->
  get_bits 64 v 60 4 = 0 \/ 8 <= get_bits 64 v 60 4 <= 10) -> keeps s (s <| satp := v |>).
Proof. intros Hv Hm. split; [intros Hs|done]. pose proof (fun H => Hm H Hs). destruct Hs. by constructor. Qed.

(** * CSRs *)

Lemma keeps_irq s0 s s' : irq_frame s s' -> core s = core s0 -> keeps s0 s'.
Proof. intros (m & p & i & d & c & q & ->) E. by apply keeps_core. Qed.

Lemma keeps_sbi_enter pc0 opaque s : keeps s (sbi_enter pc0 opaque s).
Proof.
  pose proof max_xlen_pos as Hp. unfold sbi_enter.
  set (s1 := s <| mstatus := _ |>).
  assert (H1 : keeps s s1).
  { apply keeps_mstatus. intros Hs%wf_mstatus_ok. apply (mstatus_ok_same _ _ Hs).
    - apply inw_ldiff; [lia|apply Hs].
    - unfold MSTATUS_SIE, MSTATUS_MPRV, MSTATUS_SIE_SHIFT. other_bits. }
  set (s2 := if nz _ then _ else _).
  assert (H2 : keeps s1 s2) by (unfold s2; case_match; [apply keeps_fs; lia|reflexivity]).
  transitivity s1; [done|]. transitivity s2; [done|].
  set (s3 := tlb_flush_all (s2 <| satp := 0 |>)).
  transitivity s3.
  { transitivity (s2 <| satp := 0 |>); [|apply keeps_flush].
    apply keeps_satp; [by apply inw_0|]. intros _ _. by left. }
  set (s4 := set_priv PRV_S s3). transitivity s4; [apply keeps_set_priv; auto|].
  set (s5 := set_greg 10 (mhartid s4) s4).
  transitivity s5; [apply (keeps_set_rd 10); [intros []; done|lia]|].
  set (s6 := set_greg 11 (tu opaque) s5).
  transitivity s6; [apply (keeps_set_rd 11); [intros _; apply inw_tu|lia]|].
  transitivity (s6 <| pc := tu pc0 |>); [|by apply keeps_core].
  apply keeps_pc. intros _. apply inw_tu.
Qed.

Lemma core_take_posted s : core (take_posted_tlb_flush s) = core s.
Proof. unfold take_posted_tlb_flush. by case_match. Qed.

Lemma keeps_process_inbox s : keeps s (process_inbox s).
Proof.
  unfold process_inbox. destruct (inbox_pending (sh s)); [|reflexivity]. cbn [negb].
  set (s1 := on_sh _ s). set (s2 := if sbi s1 then _ else s1).
  assert (H2 : keeps s1 s2).
  { unfold s2. case_match; [|reflexivity].
    transitivity (take_posted_tlb_flush s1); [apply keeps_core, core_take_posted|].
    set (t1 := take_posted_tlb_flush s1). set (t2 := if ssip_posted (sh t1) then _ else t1).
    transitivity t2; [unfold t2; case_match; by apply keeps_core|].
    case_match; [|reflexivity].
    transitivity (on_sh (fun h => h <| hsm_start_posted := false |>) t2); [by apply keeps_core|].
    apply keeps_sbi_enter. }
  transitivity s1; [by apply keeps_core|]. transitivity s2; [done|].
  clearbody s2. set (s3 := s2 <| mip := _ |>).
  apply (keeps_irq s2 s3 _); [|done]. etransitivity; [|apply irq_wake_on_irq].
  case_match; [|reflexivity]. etransitivity; apply irq_take_msis.
Qed.

Lemma keeps_csr_write_user csr val s r : csr_write_user csr val s = Some r -> keeps s r.1.
Proof.
  assert (Hf : forall v t, 0 <= v -> keeps t (set_frm v t)).
  { intros v t Hv. assert (0 <= (if 5 <=? v then 0 else v) < 5) by (case_cmp; lia). by wf_field. }
  assert (Hg : forall pos, 0 <= pos -> 0 <= get_bits max_xlen val pos 3).
  { intros pos Hp. pose proof max_xlen_pos. apply (inw_nonneg 3), inw_get_bits; lia. }
  unfold csr_write_user. intros E. repeat case_match; simplify_eq; cbn [fst wrote].
  - transitivity (s <| fflags := get_bits max_xlen val 0 5 |>); [by apply keeps_core|].
    apply keeps_fs. lia.
  - transitivity (s <| fs := 3 |>); [apply keeps_fs; lia|by apply Hf, Hg].
  - transitivity (s <| fs := 3 |>); [apply keeps_fs; lia|].
    transitivity (s <| fs := 3 |> <| fflags := get_bits max_xlen val 0 5 |>);
      [by apply keeps_core|by apply Hf, Hg].
Qed.

Lemma satp_written_ok (s : cpu) val : hart_wf s -> 64 <= max_xlen ->
  get_bits 64 (satp_written s val) 60 4 = 0 \/ 8 <= get_bits 64 (satp_written s val) 60 4 <= 10.
Proof.
  intros Hs H64. unfold satp_written. rewrite (proj2 (Z.eqb_neq max_xlen 32)) by lia.
  set (mode := if _ || _ then _ else _).
  assert (Hm : inw 4 mode /\ (mode = 0 \/ 8 <= mode <= 10)).
  { unfold mode. destruct Hs as [_ _ _ _ _ _ _ _ _ _ _ [_ Hsat]]. specialize (Hsat H64).
    case_match eqn:E; [|split; [apply inw_get_bits; lia|done]].
    split; [apply inw_get_bits; lia|].
    apply orb_true_iff in E as [E%Z.eqb_eq|[E1%Z.leb_le E2%Z.leb_le]%andb_true_iff]; lia. }
  destruct Hm as [Hi Hm].
  replace (get_bits 64 _ 60 4) with mode; [done|]. unfold u64. clearbody mode.
  bits_at i Hi'. autorewrite with bits. replace (60 + i - 60) with i by lia.
  repeat (case_cmp; cbn [andb]; try lia); try done. by apply (inw_high 4).
Qed.

(** A write that does not reach the invariant's fields. *)
Ltac core_write := first [by apply keeps_core | by eapply keeps_irq; [auto with irq|]].
(** One of the program counters the traps use. *)
Ltac pc_write := wf_field; apply inw_set_bits || apply inw_set_bit; apply Z.lt_le_incl, max_xlen_pos.

Lemma keeps_csr_write_super csr val s r : csr_write_super csr val s = Some r -> keeps s r.1.
Proof.
  unfold csr_write_super, wrote, wrote_if. intros E.
  repeat (case_match; simplify_eq; cbn [fst]; try core_write; try pc_write).
  - apply keeps_set_mstatus.
  - transitivity (s <| satp := satp_written s val |>); [|apply keeps_flush].
    apply keeps_satp; [|intros H64 Hs; by apply satp_written_ok].
    unfold satp_written. case_match; [apply (inw_mono 32); [lia|]; apply inw_set_bit; lia|].
    apply inw_uw. lia.
Qed.

Lemma keeps_misa_written val s : keeps s (misa_written val s).1.
Proof.
  unfold misa_written. repeat case_match; try reflexivity.
  match goal with E : (_ && _ && _) = true |- _ =>
    apply andb_true_iff in E as [[E1%Z.leb_le E2%Z.leb_le]%andb_true_iff _] end.
  set (xl := get_bits _ _ _ _) in *. assert (Hxl : xl_ok xl) by done.
  pose proof (xl_width xl Hx Hxl) as Hw. rewrite (Z.add_comm 4) in Hw. by wf_field.
Qed.

Lemma keeps_csr_write_machine csr val s : keeps s (csr_write_machine csr val s).1.
Proof.
  unfold csr_write_machine, wrote, wrote_if.
  repeat (case_match; cbn [fst]; try core_write; try pc_write).
  - apply keeps_set_mstatus.
  - apply keeps_misa_written.
  - etransitivity; [|apply keeps_flush]. by eapply keeps_irq; [apply irq_update_stimer|].
Qed.

Lemma keeps_csr_write csr val s : keeps s (csr_write csr val s).1.
Proof.
  transitivity (process_inbox s); [apply keeps_process_inbox|]. unfold csr_write.
  destruct (csr_write_user _ _ _) eqn:E1; [by eapply keeps_csr_write_user|].
  destruct (csr_write_super _ _ _) eqn:E2; [by eapply keeps_csr_write_super|].
  apply keeps_csr_write_machine.
Qed.

Lemma keeps_csr_read csr w s : keeps s (csr_read csr w s).1.
Proof. unfold csr_read. repeat case_match; try reflexivity. apply keeps_process_inbox. Qed.

(** * Traps *)

(** [mstatus] with other bits changed. *)
Lemma keeps_mstatus_same m s : inw max_xlen m \/ (inw max_xlen (mstatus s) -> inw max_xlen m) ->
  same_modes (mstatus s) m -> keeps s (s <| mstatus := m |>).
Proof.
  intros Hm Ha. apply keeps_mstatus. intros Hs%wf_mstatus_ok. apply (mstatus_ok_same _ _ Hs); [|done].
  destruct Hm as [Hm|Hm]; [done|]. apply Hm, Hs.
Qed.

(** MPP written with a mode that exists. *)
Lemma mstatus_ok_mpp m p : mstatus_ok m -> p = PRV_U \/ p = PRV_S \/ p = PRV_M ->
  mstatus_ok (set_bits max_xlen m MSTATUS_MPP_SHIFT 2 p).
Proof.
  pose proof max_xlen_32. intros [] Hp.
  unfold MSTATUS_MPP_SHIFT, MSTATUS_UXL_SHIFT, MSTATUS_SXL_SHIFT in *.
  constructor; unfold MSTATUS_MPP_SHIFT, MSTATUS_UXL_SHIFT, MSTATUS_SXL_SHIFT.
  - apply inw_set_bits. lia.
  - rewrite get_set_bits by lia. by destruct Hp as [-> | [-> | ->]].
  - intros H64. rewrite get_set_bits_other by lia. auto.
  - intros H64. rewrite get_set_bits_other by lia. auto.
Qed.

Ltac mstatus_bits :=
  unfold MSTATUS_SIE, MSTATUS_MIE, MSTATUS_SPIE, MSTATUS_MPIE, MSTATUS_SPP, MSTATUS_MPRV,
    MSTATUS_SIE_SHIFT, MSTATUS_MIE_SHIFT, MSTATUS_SPIE_SHIFT, MSTATUS_MPIE_SHIFT,
    MSTATUS_SPP_SHIFT in *.

Lemma keeps_set_bit pos on s : 0 <= pos < 11 -> 
  keeps s (s <| mstatus := set_bit max_xlen (mstatus s) pos on |>).
Proof.
  pose proof max_xlen_pos. intros Hp. apply keeps_mstatus_same.
  - left. apply inw_set_bit. lia.
  - other_bits.
Qed.

Lemma keeps_clear_bits m s : (forall i, 11 <= i <= 12 \/ 32 <= i <= 35 -> Z.testbit m i = false) ->
  keeps s (s <| mstatus := Z.ldiff (mstatus s) m |>).
Proof.
  pose proof max_xlen_pos. intros Hm. apply keeps_mstatus_same.
  - right. intros. apply inw_ldiff; [lia|done].
  - intros i Hi _. rewrite Z.ldiff_spec, Hm by lia. apply andb_true_r.
Qed.

Lemma keeps_trap_to_s causel tval s : keeps s (trap_to_s causel tval s).
Proof.
  pose proof max_xlen_pos. unfold trap_to_s.
  set (s1 := s <| scause := _ |> <| sepc := _ |> <| stval := _ |>).
  set (s2 := s1 <| mstatus := _ |>). set (s3 := s2 <| mstatus := _ |>).
  set (s4 := s3 <| mstatus := _ |>).
  transitivity s1; [by wf_field|]. transitivity s2; [by apply keeps_set_bit|].
  transitivity s3.
  { apply keeps_mstatus_same; [left; apply inw_set_bits; lia|]. mstatus_bits. other_bits. }
  transitivity s4; [apply keeps_clear_bits; mstatus_bits; other_bits|].
  transitivity (set_priv PRV_S s4); [apply keeps_set_priv; auto|].
  apply keeps_pc. by intros [].
Qed.

Lemma keeps_trap_to_m causel tval s : keeps s (trap_to_m causel tval s).
Proof.
  pose proof max_xlen_pos. unfold trap_to_m.
  set (s1 := s <| mcause := _ |> <| mepc := _ |> <| mtval := _ |>).
  set (s2 := s1 <| mstatus := _ |>). set (s3 := s2 <| mstatus := _ |>).
  set (s4 := s3 <| mstatus := _ |>).
  transitivity s1; [by wf_field|]. transitivity s2; [by apply keeps_set_bit|].
  transitivity s3.
  { apply keeps_mstatus. intros Hs. apply mstatus_ok_mpp; [by apply wf_mstatus_ok|apply Hs]. }
  transitivity s4; [apply keeps_clear_bits; mstatus_bits; other_bits|].
  transitivity (set_priv PRV_M s4); [apply keeps_set_priv; auto|].
  apply keeps_pc. by intros [].
Qed.

Lemma keeps_clear_mprv p s : keeps s (clear_mprv_on_return p s).
Proof.
  pose proof max_xlen_pos. unfold clear_mprv_on_return. case_match; [|reflexivity].
  etransitivity; [|apply keeps_flush]. apply keeps_clear_bits. mstatus_bits. other_bits.
Qed.

Lemma keeps_handle_sret s : keeps s (handle_sret s).
Proof.
  pose proof max_xlen_pos. pose proof max_xlen_32. unfold handle_sret.
  set (s1 := s <| mstatus := _ |>). set (s2 := s1 <| mstatus := _ |>).
  set (s3 := s2 <| mstatus := _ |>).
  transitivity s1; [by apply keeps_set_bit|]. transitivity s2.
  { apply keeps_mstatus_same; [right; intros; mstatus_bits; auto with inw|mstatus_bits; other_bits]. }
  set (p := Z_of_bool _). set (s4 := clear_mprv_on_return p s3). set (s5 := set_priv p s4).
  transitivity s3; [apply keeps_clear_bits; mstatus_bits; other_bits|].
  transitivity s4; [apply keeps_clear_mprv|]. transitivity s5.
  - apply keeps_set_priv. unfold p. generalize (get_bit max_xlen (mstatus s) MSTATUS_SPP_SHIFT).
    intros []; [right; left|left]; reflexivity.
  - apply keeps_pc. by intros [].
Qed.

(** A step may use the invariant of where it starts. *)
Lemma keeps_from s s' : n_cycles s' = n_cycles s -> (hart_wf s -> keeps s s') -> keeps s s'.
Proof. intros Hn Hk. split; [|done]. intros Hs. by apply Hk. Qed.

Lemma mstatus_ok_clear_mpp m : mstatus_ok m -> mstatus_ok (Z.ldiff m MSTATUS_MPP).
Proof.
  pose proof max_xlen_32. intros Hm.
  replace (Z.ldiff m MSTATUS_MPP) with (set_bits max_xlen m MSTATUS_MPP_SHIFT 2 PRV_U).
  - apply mstatus_ok_mpp; auto.
  - destruct Hm as [Hr _ _ _]. unfold MSTATUS_MPP, MSTATUS_MPP_SHIFT, PRV_U. bits_at i Hi.
    autorewrite with bits.
    repeat (case_cmp; cbn [andb negb]; try lia); rewrite ?andb_true_r, ?andb_false_r; try done.
    symmetry. by apply (inw_high max_xlen).
Qed.

Lemma keeps_handle_mret s : keeps s (handle_mret s).
Proof.
  pose proof max_xlen_pos. pose proof max_xlen_32. apply keeps_from.
  { unfold handle_mret, clear_mprv_on_return, set_priv. by repeat case_match. }
  intros Hs. unfold handle_mret.
  set (p := get_bits _ _ _ 2). set (s1 := s <| mstatus := _ |>). set (s2 := s1 <| mstatus := _ |>).
  set (s3 := s2 <| mstatus := _ |>). set (s4 := clear_mprv_on_return p s3).
  transitivity s1; [by apply keeps_set_bit|]. transitivity s2.
  { apply keeps_mstatus_same; [right; intros; mstatus_bits; auto with inw|mstatus_bits; other_bits]. }
  transitivity s3.
  { apply keeps_mstatus. intros H'. by apply mstatus_ok_clear_mpp, wf_mstatus_ok. }
  transitivity s4; [apply keeps_clear_mprv|]. transitivity (set_priv p s4).
  - apply keeps_set_priv. assert (Hp : inw 2 p) by (apply inw_get_bits; [lia|done|lia]).
    unfold inw in Hp. pose proof (wf_mpp _ _ _ _ _ _ _ _ _ _ _ _ _ _ Hs) as Hm. fold p in Hm.
    unfold PRV_H, PRV_U, PRV_S, PRV_M in *. lia.
  - apply keeps_pc. by intros [].
Qed.

(** What the SBI handler does to the hart it is called on goes through the
    interface of the hart, which keeps the invariant. *)
Context (sbi_keeps : forall (s : cpu) xlen a, keeps s (sbi_Ecall s xlen a).1).

Lemma keeps_sbi_ecall s : keeps s (sbi_ecall s).
Proof.
  unfold sbi_ecall. set (a := map _ _). set (s1 := s <| pc := _ |>).
  transitivity s1; [apply keeps_pc; intros _; apply inw_tu|].
  pose proof (sbi_keeps s1 (cur_xlen s1) a) as Hk.
  destruct (sbi_Ecall s1 (cur_xlen s1) a) as [s2 r]. cbn [fst] in Hk.
  transitivity s2; [done|]. destruct (hsm_resume s2); [reflexivity|]. cbn [negb].
  assert (Hr : forall (t : cpu) v, inw max_xlen (sbi_result t v)).
  { intros t v. unfold sbi_result. case_match; apply inw_tu. }
  set (s3 := set_greg 10 _ s2).
  transitivity s3; [apply (keeps_set_rd 10)|apply (keeps_set_rd 11)]; auto; lia.
Qed.

Lemma keeps_raise_exception2 cause tval s : keeps s (raise_exception2 cause tval s).
Proof.
  unfold raise_exception2. repeat case_match.
  - apply keeps_sbi_ecall.
  - by apply keeps_core.
  - apply keeps_trap_to_s.
  - apply keeps_trap_to_m.
Qed.

Lemma keeps_raise_interrupt s : keeps s (raise_interrupt s).1.
Proof. unfold raise_interrupt. case_match; [reflexivity|apply keeps_raise_exception2]. Qed.

(** * Instructions *)

Context (int128 : bool) (xlen : Z).

Definition ekeeps (e : cpu -> cpu * ctl) : Prop := forall s, keeps s (e s).1.

Lemma ekeeps_goto c f : (forall s, keeps s (f s)) -> ekeeps (goto c f).
Proof. intros Hf s. apply Hf. Qed.
Lemma ekeeps_id c : ekeeps (goto c id).
Proof. intros s. reflexivity. Qed.
Lemma ekeeps_illegal : ekeeps illegal.
Proof. intros s. reflexivity. Qed.
Lemma ekeeps_illegal_if b e : ekeeps e -> ekeeps (illegal_if b e).
Proof. intros He. unfold illegal_if. destruct b; [apply ekeeps_illegal|done]. Qed.
Lemma ekeeps_if (b : bool) e1 e2 : ekeeps e1 -> ekeeps e2 -> ekeeps (if b then e1 else e2).
Proof. by destruct b. Qed.
Lemma ekeeps_look {A} (f : cpu -> A) k : (forall a, ekeeps (k a)) -> ekeeps (look f k).
Proof. intros Hk s. apply Hk. Qed.
Lemma ekeeps_need_fp e : ekeeps e -> ekeeps (need_fp e).
Proof. intros He. apply ekeeps_look. intros a. by apply ekeeps_if; [apply ekeeps_illegal|]. Qed.

Lemma ekeeps_reading sz va k : (forall v, ekeeps (k v)) -> ekeeps (reading sz va k).
Proof.
  intros Hk s. unfold reading. pose proof (framed_target_read sz va s) as Hf.
  destruct (target_read sz va s) as [s1 [v|]]; cbn [fst] in Hf; apply keeps_frame in Hf; [|done].
  transitivity s1; [done|apply Hk].
Qed.

Lemma ekeeps_writing sz va v k : ekeeps k -> ekeeps (writing sz va v k).
Proof.
  intros Hk s. unfold writing. pose proof (framed_target_write sz va v s) as Hf.
  destruct (target_write sz va v s) as [s1 [u|]]; cbn [fst] in Hf; apply keeps_frame in Hf; [|done].
  transitivity s1; [done|apply Hk].
Qed.

Lemma ekeeps_set_rd c rd v : inw max_xlen v -> 0 <= rd -> ekeeps (goto c (set_rd rd v)).
Proof. intros Hv Hrd. apply ekeeps_goto. intros s. by apply keeps_set_rd. Qed.

#[local] Hint Resolve ekeeps_id ekeeps_illegal ekeeps_illegal_if ekeeps_look ekeeps_need_fp
  ekeeps_reading ekeeps_writing ekeeps_set_rd inw_tu inw_sx : wf.

(** The fields of an instruction are not negative. *)
Lemma field_nonneg insn pos len : 0 <= pos -> 0 <= len -> 0 <= get_bits 32 insn pos len.
Proof. intros. apply (inw_nonneg len), inw_get_bits; lia. Qed.

Lemma creg_pos insn pos : 0 <= pos -> 0 < creg insn pos.
Proof.
  intros Hp. unfold creg. pose proof (field_nonneg insn pos 3).
  pose proof (Z.lor_nonneg (get_bits 32 insn pos 3) 8) as Hn.
  assert (Z.lor (get_bits 32 insn pos 3) 8 <> 0); [|lia].
  apply (bit_nonzero _ 3). rewrite Z.lor_spec. apply orb_true_r.
Qed.

Lemma keeps_set_greg r v s : (hart_wf s -> inw max_xlen v) -> 0 < r -> keeps s (set_greg r v s).
Proof.
  intros Hv Hr. pose proof (keeps_set_rd r v s Hv ltac:(lia)) as Hk. unfold set_rd in Hk.
  by rewrite (proj2 (Z.eqb_neq r 0)) in Hk by lia.
Qed.

Lemma ekeeps_set_greg c r v : inw max_xlen v -> 0 < r -> ekeeps (goto c (set_greg r v)).
Proof. intros Hv Hr. apply ekeeps_goto. intros s. by apply keeps_set_greg. Qed.

Lemma keeps_set_pc v s : (hart_wf s -> inw max_xlen v) -> keeps s (set_pc v s).
Proof. apply keeps_pc. Qed.

Lemma ekeeps_jump c v : inw max_xlen v -> ekeeps (goto c (set_pc v)).
Proof. intros Hv. apply ekeeps_goto. intros s. by apply keeps_set_pc. Qed.

Lemma keeps_set_freg r v s : keeps s (set_freg r v s).
Proof. by apply keeps_core. Qed.

Lemma ekeeps_load_s sz va rd c : 0 <= rd -> ekeeps (load_s sz va rd c).
Proof. intros. unfold load_s. auto with wf. Qed.
Lemma ekeeps_load_u sz va rd c : 0 <= rd -> ekeeps (load_u sz va rd c).
Proof. intros. unfold load_u. auto with wf. Qed.
Lemma ekeeps_load_fp sz va rd c : ekeeps (load_fp sz va rd c).
Proof.
  unfold load_fp. apply ekeeps_reading. intros v. apply ekeeps_goto. intros s.
  transitivity (s <| fs := 3 |>); [apply keeps_fs; lia|apply keeps_set_freg].
Qed.
Lemma ekeeps_store sz va v c : ekeeps (store sz va v c).
Proof. unfold store. auto with wf. Qed.

#[local] Hint Resolve ekeeps_set_greg ekeeps_jump ekeeps_load_s ekeeps_load_u ekeeps_load_fp
  ekeeps_store creg_pos field_nonneg ekeeps_goto : wf.
#[local] Hint Extern 1 (_ <= _) => lia : wf.
#[local] Hint Extern 1 (_ < _) => lia : wf.

Lemma ekeeps_c0 insn : ekeeps (exec_c0 xlen insn).
Proof.
  unfold exec_c0. repeat (apply ekeeps_if || case_match); auto 9 with wf.
  apply ekeeps_goto. intros s. apply keeps_set_greg; auto with wf.
Qed.

Lemma inw_ops a b : inw max_xlen a -> inw max_xlen b ->
  inw max_xlen (Z.land a b) /\ inw max_xlen (Z.lor a b) /\ inw max_xlen (Z.lxor a b) /\
  inw max_xlen (Z.ldiff a b).
Proof. pose proof max_xlen_pos. intros. auto with inw. Qed.

Lemma inw_clear a b : inw max_xlen a -> inw max_xlen (Z.ldiff a b).
Proof. pose proof max_xlen_pos. auto with inw. Qed.

(** A register gets a value in range. *)
Ltac reg_value :=
  apply ekeeps_goto; intros s;
  first [apply keeps_set_greg|apply keeps_set_rd]; [intros Hs|auto with wf];
  first [apply inw_tu | by apply inw_greg
        |apply inw_ops; try apply inw_tu; by apply inw_greg].

Lemma ekeeps_c1_alu insn : ekeeps (exec_c1_alu xlen insn).
Proof.
  unfold exec_c1_alu. repeat (apply ekeeps_if || case_match); try apply ekeeps_illegal; reg_value.
Qed.
#[local] Hint Resolve ekeeps_c1_alu : wf.

(** Every branch of a switch. *)
Ltac switch := cbv zeta; repeat match goal with
  | |- ekeeps (if _ then _ else _) => apply ekeeps_if
  | |- ekeeps (match ?x with _ => _ end) => destruct x
  | |- ekeeps (look _ _) => apply ekeeps_look; intros ?
  | |- ekeeps (need_fp _) => apply ekeeps_need_fp
  | |- ekeeps (illegal_if _ _) => apply ekeeps_illegal_if
  end; auto with wf.

Lemma ekeeps_c1 pc0 insn : ekeeps (exec_c1 xlen pc0 insn).
Proof.
  unfold exec_c1. switch; try reg_value.
  apply ekeeps_goto. intros s. etransitivity; [|apply keeps_set_pc; auto with wf].
  apply keeps_set_greg; auto with wf.
Qed.

Lemma ekeeps_c2 pc0 insn : ekeeps (exec_c2 xlen pc0 insn).
Proof.
  assert (Hj : forall s r, keeps s (set_pc (Z.ldiff (greg s r) 1) s)).
  { intros s r. apply keeps_set_pc. intros Hs. by apply inw_clear, inw_greg. }
  unfold exec_c2. switch; try reg_value; apply ekeeps_goto; intros s.
  etransitivity; [apply Hj|]. apply keeps_set_greg; auto with wf.
Qed.

(** * Base instructions *)

Lemma ekeeps_jal pc0 insn : ekeeps (exec_jal xlen pc0 insn).
Proof.
  apply ekeeps_goto. intros s. etransitivity; [|apply keeps_set_pc; auto with wf].
  apply keeps_set_rd; unfold insn_rd; auto with wf.
Qed.

Lemma ekeeps_jalr pc0 insn : ekeeps (exec_jalr xlen pc0 insn).
Proof.
  apply ekeeps_goto. intros s. etransitivity; [|apply keeps_set_rd; unfold insn_rd; auto with wf].
  apply keeps_set_pc. intros _. apply inw_clear, inw_sx.
Qed.

Lemma ekeeps_to_rd insn f : (forall s v, hart_wf s -> f s = Some v -> inw max_xlen v) ->
  ekeeps (to_rd insn f).
Proof.
  intros Hf s. unfold to_rd, look. destruct (f s) as [v|] eqn:E; [|apply ekeeps_illegal].
  apply keeps_set_rd; [|unfold insn_rd; auto with wf]. intros Hs. by apply (Hf s).
Qed.

(** A value in range on every branch. *)
Ltac value_range :=
  intros E; repeat case_match; simplify_eq; try done;
  first [apply inw_tu|apply inw_bool; apply max_xlen_pos
        |apply inw_ops; try apply inw_tu; done|idtac].

Lemma op_imm_range insn a v : inw max_xlen a -> op_imm xlen insn a = Some v -> inw max_xlen v.
Proof.
  intros Ha. unfold op_imm. cbv zeta. destruct (rv_bitmanip_op_imm _ _ _); cbn [option_map];
    value_range.
Qed.

Lemma op_imm_narrow_range n insn a v : op_imm_narrow n insn a = Some v -> inw max_xlen v.
Proof. unfold op_imm_narrow. cbv zeta. value_range. Qed.

Lemma op_imm_32_range insn a v : op_imm_32 xlen insn a = Some v -> inw max_xlen v.
Proof.
  unfold op_imm_32. cbv zeta. destruct (rv_bitmanip_op_imm_32 _ _); cbn [option_map];
    intros E; repeat (case_match; simplify_eq); try apply inw_tu; by eapply op_imm_narrow_range.
Qed.

Lemma op_muldiv_range funct3 a b : inw max_xlen (op_muldiv int128 xlen funct3 a b).
Proof. unfold op_muldiv. cbv zeta. repeat case_match; apply inw_tu. Qed.

Lemma op_reg_range insn a b v : inw max_xlen a -> inw max_xlen b ->
  op_reg int128 xlen insn a b = Some v -> inw max_xlen v.
Proof.
  intros Ha Hb. unfold op_reg. cbv zeta.
  destruct (_ =? 1); [intros [= <-]; apply op_muldiv_range|].
  destruct (if _ && _ then _ else _); value_range.
Qed.

Lemma narrow_range n insn a b v :
  muldiv_narrow n insn a b = Some v \/ alu_narrow n insn a b = Some v -> inw max_xlen v.
Proof.
  unfold muldiv_narrow, alu_narrow. cbv zeta. intros [E|E]; revert E; value_range.
Qed.

Lemma ekeeps_base pc0 insn :
  ekeeps (exec_lui insn) /\ ekeeps (exec_auipc xlen pc0 insn) /\ ekeeps (exec_branch xlen pc0 insn) /\
  ekeeps (exec_load xlen insn) /\ ekeeps (exec_store xlen insn).
Proof.
  unfold exec_lui, exec_auipc, exec_branch, exec_load, exec_store, base_addr, insn_rd.
  split_and!; switch.
Qed.

Lemma ekeeps_alu insn :
  ekeeps (exec_op_imm xlen insn) /\ ekeeps (exec_op_imm_32 xlen insn) /\
  ekeeps (exec_op_imm_64 xlen insn) /\ ekeeps (exec_op int128 xlen insn) /\
  ekeeps (exec_op_32 xlen insn) /\ ekeeps (exec_op_64 xlen insn).
Proof.
  split_and!; apply ekeeps_to_rd; intros s v Hs.
  - by apply op_imm_range, inw_greg.
  - apply op_imm_32_range.
  - case_match; [done|apply op_imm_narrow_range].
  - by apply op_reg_range; apply inw_greg.
  - unfold op_32. cbv zeta. intros E. repeat (case_match; simplify_eq);
      try apply inw_tu; eapply narrow_range; eauto.
  - unfold op_64. intros E. repeat (case_match; simplify_eq); eapply narrow_range; eauto.
Qed.

Lemma keeps_sync ica s : keeps s (sync_counter ica s).
Proof. by apply keeps_core. Qed.

Lemma ekeeps_csr_done pc0 rd val2 err : 0 <= rd -> inw max_xlen val2 ->
  ekeeps (csr_done pc0 rd val2 err).
Proof.
  intros Hr Hv s. unfold csr_done.
  assert (Hk : keeps s (set_rd rd val2 s)) by (by apply keeps_set_rd).
  assert (Hp : keeps s (set_pc (tu (pc0 + 4)) (set_rd rd val2 s))).
  { etransitivity; [exact Hk|]. apply keeps_set_pc. auto with wf. }
  destruct (match err with CsrOk => _ | _ => _ end); done.
Qed.

Lemma ekeeps_csr pc0 ica insn op val : ekeeps (exec_csr xlen pc0 ica insn op val).
Proof.
  intros s. unfold exec_csr. set (csr := get_bits 32 insn 20 12). set (w := _ || _).
  etransitivity; [apply (keeps_sync ica)|].
  pose proof (keeps_csr_read csr w (sync_counter ica s)) as Hr.
  destruct (csr_read csr w _) as [s1 [val2|]]; cbn [fst] in Hr; [|done].
  etransitivity; [exact Hr|]. destruct w.
  - set (v := if op =? 1 then _ else _). pose proof (keeps_csr_write csr v s1) as Hw.
    destruct (csr_write csr v s1) as [s2 err]. etransitivity; [exact Hw|].
    apply ekeeps_csr_done; unfold insn_rd; auto with wf.
  - apply keeps_set_rd; unfold insn_rd; auto with wf.
Qed.

Lemma ekeeps_wfi pc0 insn : ekeeps (exec_wfi pc0 insn).
Proof.
  intros s. unfold exec_wfi. apply ekeeps_illegal_if. clear s. intros s.
  etransitivity; [apply keeps_process_inbox|]. case_match; [|reflexivity].
  etransitivity; [|apply keeps_set_pc; auto with wf]. by apply keeps_core.
Qed.

Lemma ekeeps_sfence pc0 insn : ekeeps (exec_sfence_vma pc0 insn).
Proof.
  intros s. unfold exec_sfence_vma. apply ekeeps_illegal_if, ekeeps_goto. clear s. intros s.
  etransitivity; [|apply keeps_set_pc; auto with wf]. case_match; by apply keeps_core.
Qed.

Lemma ekeeps_system pc0 ica insn : inw max_xlen pc0 -> ekeeps (exec_system xlen pc0 ica insn).
Proof.
  intros Hpc s. unfold exec_system. cbv zeta.
  repeat match goal with |- keeps _ ((if ?b then _ else _) _).1 => destruct b end;
    lazymatch goal with
    | |- keeps _ (exec_csr _ _ _ _ _ _ _).1 => apply ekeeps_csr
    | |- keeps _ (exec_wfi _ _ _).1 => apply ekeeps_wfi
    | |- keeps _ (exec_sfence_vma _ _ _).1 => apply ekeeps_sfence
    | |- keeps _ (illegal _).1 => apply ekeeps_illegal
    | _ => apply ekeeps_illegal_if, ekeeps_goto; clear s; intros s; try (by apply keeps_core)
    end.
  all: etransitivity; [apply (keeps_set_pc pc0)|apply keeps_handle_sret || apply keeps_handle_mret];
    done.
Qed.

(** * Atomics *)

Lemma keeps_interleave s : keeps s (interleave s).
Proof. apply keeps_frame, mem_frame_interleave. Qed.
Lemma keeps_on_mem f s : keeps s (on_mem f s).
Proof. by apply keeps_core. Qed.

Lemma keeps_amo_retry fuel n funct5 ptr rval val2 s :
  keeps s (amo_retry fuel n funct5 ptr rval val2 s).1.
Proof.
  revert rval s. induction fuel as [|fuel IH]; intros rval s; [reflexivity|]. cbn [amo_retry].
  etransitivity; [apply keeps_interleave|].
  destruct (host_cmpxchg _ _ _ _ _) as [m [r|]].
  - etransitivity; [apply (keeps_on_mem (fun _ => m))|apply IH].
  - apply keeps_on_mem.
Qed.

(** The value an AMO returns is a register's. *)
Lemma amo_retry_range fuel n funct5 ptr rval val2 (s : cpu) v :
  (amo_retry fuel n funct5 ptr rval val2 s).2 = Some v -> inw max_xlen v.
Proof.
  revert rval s. induction fuel as [|fuel IH]; intros rval s; [done|]. cbn [amo_retry].
  destruct (host_cmpxchg _ _ _ _ _) as [m [r|]]; [apply IH|].
  cbn [snd]. intros [= <-]. apply inw_tu.
Qed.

Lemma keeps_rmw_ptr va sz s : keeps s (rmw_ptr va sz s).1.
Proof. apply keeps_frame, framed_rmw_ptr. Qed.

Lemma ekeeps_lr sz insn k : (forall v, inw max_xlen v -> ekeeps (k v)) -> ekeeps (exec_lr sz insn k).
Proof.
  intros Hk. unfold exec_lr. apply ekeeps_illegal_if, ekeeps_look. intros va.
  apply ekeeps_reading. intros v s. etransitivity; [|apply Hk, inw_tu]. by apply keeps_core.
Qed.

Lemma ekeeps_sc sz insn k : (forall v, inw max_xlen v -> ekeeps (k v)) -> ekeeps (exec_sc sz insn k).
Proof.
  intros Hk. pose proof max_xlen_32 as H32.
  assert (Hf : forall v s, inw max_xlen v -> keeps s (k v (s <| load_res := tu (-1) |>)).1).
  { intros v s Hv. etransitivity; [|by apply Hk]. by apply keeps_core. }
  assert (H01 : inw max_xlen 0 /\ inw max_xlen 1).
  { split; apply (inw_mono 32); [lia|in_range|lia|in_range]. }
  intros s. unfold exec_sc. destruct (load_res s =? _); [|apply Hf, H01].
  pose proof (keeps_rmw_ptr (greg s (insn_rs1 insn)) sz s) as Hr.
  destruct (rmw_ptr _ sz s) as [s1 [[ptr|]|]]; cbn [fst] in Hr; [| |done];
    (etransitivity; [exact Hr|]).
  - etransitivity; [apply keeps_interleave|]. destruct (host_cmpxchg _ _ _ _ _) as [m r].
    etransitivity; [apply (keeps_on_mem (fun _ => m))|]. apply Hf. destruct r; apply H01.
  - apply ekeeps_writing. intros s2. apply Hf, H01.
Qed.

Lemma ekeeps_amo_op sz insn f5 k : (forall v, inw max_xlen v -> ekeeps (k v)) ->
  ekeeps (exec_amo_op sz insn f5 k).
Proof.
  intros Hk s. unfold exec_amo_op.
  pose proof (keeps_rmw_ptr (greg s (insn_rs1 insn)) sz s) as Hr.
  destruct (rmw_ptr _ sz s) as [s1 [[ptr|]|]]; cbn [fst] in Hr; [| |done];
    (etransitivity; [exact Hr|]).
  - set (fuel := S _). set (rval := host_read _ _ _). set (val2 := greg s _).
    pose proof (keeps_amo_retry fuel (2 ^ sz) f5 ptr rval val2 s1) as Ha.
    pose proof (amo_retry_range fuel (2 ^ sz) f5 ptr rval val2 s1) as Hv.
    destruct (amo_retry _ _ _ _ _ _ _) as [s2 v]. etransitivity; [exact Ha|]. apply Hk.
    destruct v; [by apply Hv|]. apply inw_0, Z.lt_le_incl, max_xlen_pos.
  - apply ekeeps_reading. intros v. apply ekeeps_writing. apply Hk, inw_tu.
Qed.

Lemma ekeeps_amo insn : ekeeps (exec_amo_insn xlen insn).
Proof.
  unfold exec_amo_insn, exec_amo. switch.
  all: repeat case_match; try apply ekeeps_illegal.
  all: first [apply ekeeps_lr|apply ekeeps_sc|apply ekeeps_amo_op]; unfold insn_rd; auto with wf.
Qed.

(** * Floating point *)

Lemma ekeeps_fp_insn f : (forall s s', f s = Some s' -> keeps s s') -> ekeeps (fp_insn f).
Proof.
  intros Hf s. unfold fp_insn. destruct (f s) eqn:E; [by apply Hf|reflexivity].
Qed.

Lemma keeps_fp_result F rd r s : keeps s (fp_result F rd r s).
Proof.
  unfold fp_result. transitivity (s <| fs := 3 |>); [apply keeps_fs; lia|by apply keeps_core].
Qed.

Lemma keeps_int_result rd val fl s : inw max_xlen val -> 0 <= rd -> keeps s (int_result rd val fl s).
Proof.
  intros Hv Hr. unfold int_result. transitivity (s <| fflags := fl |>); [by apply keeps_core|].
  by apply keeps_set_rd.
Qed.

Lemma fclass_range F a : inw max_xlen (fclass_sf F a).
Proof.
  apply (inw_mono 32); [apply max_xlen_32|]. unfold fclass_sf. repeat case_match; in_range.
Qed.

Lemma keeps_fp_op F funct5 rd rs1 rs2 rm s s' : 0 <= rd ->
  exec_fp_op int128 F xlen funct5 rd rs1 rs2 rm s = Some s' -> keeps s s'.
Proof.
  intros Hr. unfold exec_fp_op, with_rm, fcvt_to_int, fcvt_from_int, fcvt_format, fsgnj. cbv zeta.
  intros E. repeat (case_match; simplify_eq).
  all: first [apply keeps_fp_result
             |apply keeps_int_result; [|done]; first [apply inw_tu|apply fclass_range
               |apply inw_bool, max_xlen_pos]
             |transitivity (s <| fs := 3 |>); [apply keeps_fs; lia|apply keeps_set_freg]].
Qed.

Lemma ekeeps_fp insn :
  ekeeps (exec_fp_load insn) /\ ekeeps (exec_fp_store insn) /\ ekeeps (exec_op_fp int128 xlen insn).
Proof.
  unfold exec_fp_load, exec_fp_store, exec_op_fp, base_addr. split_and!; switch.
  all: apply ekeeps_fp_insn; intros s s'; apply keeps_fp_op; unfold insn_rd; auto with wf.
Qed.

Lemma ekeeps_fma p c insn : ekeeps (exec_fma_insn int128 p c insn).
Proof.
  apply ekeeps_fp_insn. intros s s'. unfold exec_fma, with_rm. cbv zeta. intros E.
  repeat (case_match; simplify_eq); apply keeps_fp_result.
Qed.

Lemma ekeeps_misc_mem insn : ekeeps (exec_misc_mem xlen insn).
Proof. unfold exec_misc_mem, base_addr, insn_rd. switch. Qed.

Lemma keeps_exec_insn pc0 ica insn : inw max_xlen pc0 ->
  ekeeps (exec_insn int128 xlen pc0 ica insn).
Proof.
  intros Hpc. unfold exec_insn. cbv zeta.
  pose proof (ekeeps_base pc0 insn) as (? & ? & ? & ? & ?).
  pose proof (ekeeps_alu insn) as (? & ? & ? & ? & ? & ?). pose proof (ekeeps_fp insn) as (? & ? & ?).
  repeat match goal with |- ekeeps (if _ then _ else _) => apply ekeeps_if end;
    try assumption;
    auto using ekeeps_c0, ekeeps_c1, ekeeps_c2, ekeeps_jal, ekeeps_jalr, ekeeps_system,
      ekeeps_misc_mem, ekeeps_amo, ekeeps_fma, ekeeps_illegal.
Qed.

(** * The loop *)

Lemma wf_count (s : cpu) : hart_wf s -> hart_wf (count_cycle s).
Proof. done. Qed.

Lemma keeps_take_interrupt s : keeps s (take_interrupt s).1.
Proof. unfold take_interrupt. case_match; [apply keeps_raise_interrupt|reflexivity]. Qed.

Lemma keeps_code_ptr_of va s : keeps s (code_ptr_of va s).1.
Proof.
  unfold code_ptr_of. case_match; [reflexivity|]. apply keeps_frame, framed_read_insn_slow.
Qed.

(** A block is shorter than the address space. *)
Definition block_short (b : Block) : Prop := code_end b - code_ptr b < 2 ^ max_xlen.

Lemma fetch_block_ok b s : block_short b ->
  keeps s (fetch_block b s).1.1 /\ block_short (fetch_block b s).1.2.
Proof.
  intros Hb. unfold fetch_block. pose proof (keeps_code_ptr_of (pc s) s) as Hk.
  destruct (code_ptr_of (pc s) s) as [s1 [ptr|]]; cbn [fst] in Hk; [|done].
  set (b' := mkBlock _ _ _).
  assert (Hs : block_short b').
  { unfold block_short, b'. cbn [code_end code_ptr].
    pose proof (inw_tu (PG_MASK - 1 - Z.land (pc s) PG_MASK)) as [_ ?]. lia. }
  repeat (case_match; cbn [fst snd]; try done).
  all: split; [|done]; etransitivity; [exact Hk|].
  all: match goal with E : target_read_insn_u16 _ _ = _ |- _ =>
      apply keeps_frame; exact (framed_eq _ _ _ _ (framed_read_insn_u16 _) E) end.
Qed.

Lemma fetch_ok b s : block_short b ->
  (hart_wf s -> hart_wf (fetch b s).1.1) /\ block_short (fetch b s).1.2.
Proof.
  intros Hb. unfold fetch. destruct (code_end b <=? code_ptr b); [|done].
  set (s1 := interleave _).
  assert (H1 : keeps s s1).
  { etransitivity; [apply (keeps_set_pc (get_pc b)); intros _; apply inw_tu|apply keeps_interleave]. }
  destruct (n_cycles s1 <=? 0); [split; [apply H1|done]|].
  destruct (inbox_pending (sh s1)); [split; [apply H1|done]|].
  pose proof (keeps_take_interrupt s1) as H2.
  destruct (take_interrupt s1) as [s2 []]; cbn [fst] in H2.
  - split; [|done]. intros Hs. by apply wf_count, H2, H1.
  - pose proof (fetch_block_ok b s2 Hb) as [H3 ?]. split; [|done]. intros Hs. by apply H3, H2, H1.
Qed.

(** What the head of the loop hands to the switch. *)
Lemma fetch_insn b s s' b' insn : block_short b -> fetch b s = (s', b', FInsn insn) ->
  n_cycles s' = n_cycles s /\
  (0 < n_cycles s \/ b' = b /\ code_ptr b < code_end b).
Proof.
  intros Hb. unfold fetch. destruct (Z.leb_spec (code_end b) (code_ptr b)) as [Hle|Hlt].
  2: { intros [= <- <- <-]. auto. }
  set (s1 := interleave _).
  assert (H1 : n_cycles s1 = n_cycles s).
  { etransitivity; [|exact (proj2 (keeps_set_pc (get_pc b) s (fun _ => inw_tu _)))].
    apply keeps_interleave. }
  destruct (Z.leb_spec (n_cycles s1) 0) as [|Hpos]; [done|]. destruct (inbox_pending (sh s1)); [done|].
  pose proof (keeps_take_interrupt s1) as [_ H2].
  destruct (take_interrupt s1) as [s2 []]; cbn [fst] in H2; [done|]. intros E.
  pose proof (fetch_block_ok b s2 Hb) as [[_ H3] _]. rewrite E in H3. cbn [fst] in H3.
  split; [congruence|]. left. lia.
Qed.

Lemma wf_exception ica pc0 s : inw max_xlen pc0 -> hart_wf s -> hart_wf (exception ica pc0 s).
Proof.
  intros Hpc Hs. unfold exception. apply keeps_sync.
  assert (H1 : hart_wf (set_pc pc0 s)) by (by apply keeps_set_pc).
  case_match; [|done]. by apply keeps_raise_exception2, wf_count.
Qed.

(** A turn of the loop keeps the invariant, and either ends or goes on with
    one cycle less. *)
Lemma interp_step_ok ica b s : block_short b ->
  (hart_wf s -> hart_wf (interp_step int128 xlen ica b s).1) /\
  forall b', (interp_step int128 xlen ica b s).2 = Some b' ->
    block_short b' /\ n_cycles (interp_step int128 xlen ica b s).1 = n_cycles s - 1 /\
    (0 < n_cycles s \/ code_ptr b < code_end b /\ (code_end b' <= code_ptr b' \/
       code_end b' - code_ptr b' < code_end b - code_ptr b)).
Proof.
  intros Hb. unfold interp_step. pose proof (fetch_ok b s Hb) as [Hw Hb'].
  pose proof (fetch_insn b s) as Hf.
  destruct (fetch b s) as [[s1 b1] [| |insn]]; cbn [fst snd] in *.
  - split; [|done]. intros Hs. by apply keeps_sync, Hw.
  - split; [|done]. intros Hs. apply wf_exception; [apply inw_tu|auto].
  - destruct (Hf s1 b1 insn Hb eq_refl) as [Hn Hlt]. clear Hf.
    pose proof (keeps_exec_insn (get_pc b1) ica insn (inw_tu _) (count_cycle s1)) as [He En].
    destruct (exec_insn _ _ _ _ _ _) as [s2 c]. cbn [fst] in He, En.
    change (n_cycles (count_cycle s1)) with (n_cycles s1 - 1) in En.
    split.
    + intros Hs%Hw%wf_count%He. destruct c; cbn [fst]; try done.
      * apply wf_exception; [apply inw_tu|done].
      * apply wf_exception; [apply inw_tu|done].
    + intros b'. destruct c; cbn [fst snd]; intros [= <-]; (split; [|split; [lia|]]).
      all: unfold block_short, advance, no_block in *; cbn [code_ptr code_end] in *.
      all: try (destruct Hlt as [?|[-> ?]]; lia).
      all: pose proof (pow2_pos max_xlen); pose proof max_xlen_pos; lia.
Qed.

(** Turns the loop has left at most. *)
Definition turns (b : Block) (s : cpu) : Z :=
  if 0 <? n_cycles s then n_cycles s + 2 ^ max_xlen else Z.max 0 (code_end b - code_ptr b).

Lemma interp_loop_ok fuel ica b s : block_short b -> hart_wf s -> turns b s < Z.of_nat fuel ->
  exists s', interp_loop int128 fuel xlen ica b s = Some s' /\ hart_wf s'.
Proof.
  revert b s. induction fuel as [|fuel IH]; intros b s Hb Hs Ht.
  { unfold turns in Ht. pose proof (pow2_pos max_xlen). pose proof max_xlen_pos.
    destruct (Z.ltb_spec 0 (n_cycles s)); lia. }
  cbn [interp_loop]. pose proof (interp_step_ok ica b s Hb) as [Hw Hn]. specialize (Hw Hs).
  destruct (interp_step _ _ _ _ _) as [s1 [b1|]]; cbn [fst snd] in *; [|eauto].
  destruct (Hn b1 eq_refl) as (Hb1 & En & Hd). apply IH; [done..|].
  unfold turns, block_short in *.
  destruct (Z.ltb_spec 0 (n_cycles s)), (Z.ltb_spec 0 (n_cycles s1)); lia.
Qed.

(** Fuel the interpreter needs for [n] cycles. *)
Definition enough (n : Z) (fuel : nat) : Prop := n + 2 ^ max_xlen < Z.of_nat fuel.

Lemma interp_x_ok fuel n s : hart_wf s -> 0 <= n -> enough n fuel ->
  exists s', riscv_cpu_interp_x int128 fuel xlen n s = Some s' /\ hart_wf s'.
Proof.
  intros Hs Hn Hf. unfold riscv_cpu_interp_x. destruct (Z.eqb_spec n 0); [eauto|].
  pose proof (keeps_take_interrupt (s <| n_cycles := n |>)) as [Hw En].
  destruct (take_interrupt _) as [s1 []]; cbn [fst] in Hw, En.
  - eexists. split; [done|]. by apply keeps_sync, wf_count, Hw.
  - pose proof (pow2_pos max_xlen). pose proof max_xlen_pos. apply interp_loop_ok.
    + unfold block_short, no_block. cbn [code_ptr code_end]. lia.
    + by apply Hw.
    + unfold turns, enough in *. change (n_cycles (s1 <| pending_exception := -1 |>)) with (n_cycles s1).
      rewrite En. change (n_cycles _) with n. rewrite (proj2 (Z.ltb_lt 0 n)) by lia. lia.
Qed.
End Wf.

(** * Reachable states *)

Section Reachable.
Context `{MaxXlen} `{Platform D} (Hx : valid_xlen max_xlen) (int128 : bool).
Context (sbi_keeps : forall (s : RISCVCPUState D) xlen a, keeps s (sbi_Ecall s xlen a).1).
Notation cpu := (RISCVCPUState D).

Lemma interp_loop_wf fuel xlen ica b (s s' : cpu) : block_short b -> hart_wf s ->
  interp_loop int128 fuel xlen ica b s = Some s' -> hart_wf s'.
Proof.
  revert b s. induction fuel as [|fuel IH]; intros b s Hb Hs; [done|]. cbn [interp_loop].
  pose proof (interp_step_ok Hx sbi_keeps int128 xlen ica b s Hb) as [Hw Hn]. specialize (Hw Hs).
  destruct (interp_step _ _ _ _ _) as [s1 [b1|]]; cbn [fst snd] in *; [|by intros [= <-]].
  destruct (Hn b1 eq_refl) as (Hb1 & _). by apply IH.
Qed.

Lemma interp_x_wf fuel xlen n (s s' : cpu) : hart_wf s ->
  riscv_cpu_interp_x int128 fuel xlen n s = Some s' -> hart_wf s'.
Proof.
  intros Hs. unfold riscv_cpu_interp_x. destruct (n =? 0); [by intros [= <-]|].
  pose proof (keeps_take_interrupt Hx sbi_keeps (s <| n_cycles := n |>)) as [Hw _].
  destruct (take_interrupt _) as [s1 []]; cbn [fst] in Hw.
  - intros [= <-]. by apply Hw.
  - apply interp_loop_wf; [|by apply Hw]. unfold block_short, no_block. cbn [code_ptr code_end].
    pose proof (pow2_pos max_xlen). pose proof (max_xlen_pos Hx). lia.
Qed.

Lemma keeps_hsm_wake (s : cpu) : keeps s (hsm_wake s).
Proof.
  unfold hsm_wake. repeat case_match; [by apply keeps_sbi_enter|by apply keeps_core|done].
Qed.

Lemma interp_turn_ok fuel (s : cpu) : hart_wf s ->
  (forall s' t, interp_turn int128 fuel s = Some (s', t) -> hart_wf s' /\ t <> TAbort) /\
  (enough INTERP_COUNT_LIMIT fuel -> is_Some (interp_turn int128 fuel s)).
Proof.
  intros Hs. unfold interp_turn. set (s1 := process_inbox (interleave s)).
  assert (H1 : hart_wf s1) by (by apply keeps_process_inbox, keeps_interleave).
  destruct (power_down_flag s1); [split; [by intros s' t [= <- <-]|done]|].
  set (s2 := hsm_wake s1). assert (H2 : hart_wf s2) by (by apply keeps_hsm_wake).
  destruct (exit_request (sh s2)); [split; [by intros s' t [= <- <-]|done]|].
  assert (Hr : forall xlen,
    (forall s' t, option_map (fun s => (s, TAgain)) (riscv_cpu_interp_x int128 fuel xlen
       INTERP_COUNT_LIMIT s2) = Some (s', t) -> hart_wf s' /\ t <> TAbort) /\
    (enough INTERP_COUNT_LIMIT fuel -> is_Some (option_map (fun s => (s, TAgain))
       (riscv_cpu_interp_x int128 fuel xlen INTERP_COUNT_LIMIT s2)))).
  { intros xlen. split.
    - intros s' t. destruct (riscv_cpu_interp_x _ _ _ _ _) eqn:E; [|done]. intros [= <- <-].
      split; [by apply interp_x_wf in E|done].
    - intros Hf. destruct (interp_x_ok Hx sbi_keeps int128 xlen fuel INTERP_COUNT_LIMIT s2)
        as (s' & -> & _); [done..|]. by eexists. }
  destruct (wf_cur_xlen _ _ _ _ _ _ _ _ _ _ _ _ _ _ H2) as [[E|[E|E]] Hle]; rewrite E in *;
    [apply Hr|rewrite (proj2 (Z.leb_le 64 _)) by lia; apply Hr
    |rewrite (proj2 (Z.leb_le 128 _)) by lia; apply Hr].
Qed.

Lemma interp_runs_wf (s s' : cpu) : hart_wf s -> interp_runs int128 s s' -> hart_wf s'.
Proof.
  intros Hs Hr. induction Hr as [|fuel s s1 s2 E _ IH]; [done|].
  apply IH. by eapply (interp_turn_ok fuel s).
Qed.

Lemma hart_init_wf hart_id (h : Shared D) : hart_wf (riscv_cpu_init hart_id h).
Proof.
  assert (Hm : mstatus_ok (mstatus (riscv_cpu_init hart_id h))).
  { change (mstatus _) with (tu (Z.lor
      (u64 (Z.shiftl (get_base_from_xlen max_xlen) MSTATUS_UXL_SHIFT))
      (u64 (Z.shiftl (get_base_from_xlen max_xlen) MSTATUS_SXL_SHIFT)))).
    clear sbi_keeps. destruct Hx as [E | [E | E]]; unfold tu; constructor; unfold xl_ok;
      rewrite E; vm_compute; intuition congruence. }
  destruct Hm. pose proof (max_xlen_32 Hx) as H32.
  assert (Hz : inw max_xlen 0) by (apply inw_0; lia).
  constructor; try assumption; try exact Hz; try reflexivity.
  - change (Forall (inw max_xlen) (replicate 32 0)). by apply Forall_replicate.
  - apply (inw_mono 32); [done|in_range].
  - auto.
  - change (xl_ok (get_base_from_xlen max_xlen)). unfold xl_ok, get_base_from_xlen.
    repeat case_cmp; lia.
  - by split; [exact Hx|].
  - split; [in_range|]. by left.
  - change (0 <= 0 < 5). lia.
  - change (0 <= 0 <= 3). lia.
  - by apply inw_tu.
Qed.
End Reachable.

(** * Properties *)


(** C40: A turn of the interpreter always comes to an end, whatever code the
    hart runs, and never in the aborts for an XLEN the build does not have:
    with fuel for the cycles it may count and for what is left of a page of
    code, the loop returns. *)
Theorem interp_returns_turn `{MaxXlen} `{Platform D} (int128 : bool) (Hx : valid_xlen max_xlen)
  (sbi_keeps : forall (s : RISCVCPUState D) xlen a, keeps s (sbi_Ecall s xlen a).1)
  (s : RISCVCPUState D) (fuel : nat) : hart_wf s -> enough INTERP_COUNT_LIMIT fuel ->
  exists s' t, interp_turn int128 fuel s = Some (s', t) /\ t <> TAbort.
Proof.
  intros Hs Hf. destruct (interp_turn_ok Hx int128 sbi_keeps fuel s Hs) as [Ht Hsome].
  destruct (Hsome Hf) as [[s' t] E]. exists s', t. split; [done|]. by apply (Ht s').
Qed.

(** ** Witnesses: a 64 bit hart on a machine without devices *)

#[local] Existing Instance demo_xlen.
#[local] Existing Instance demo_platform.
Definition bare_hart : RISCVCPUState unit :=
  riscv_cpu_init 0 (shared_init (mkMap [] false []) ∅ tt).

Lemma bare_sbi (s : RISCVCPUState unit) xlen a : keeps s (sbi_Ecall s xlen a).1.
Proof. by split. Qed.


Lemma interp_returns_turn_witness :
  exists s' t, interp_turn true (Z.to_nat (2 ^ 65)) bare_hart = Some (s', t) /\ t <> TAbort.
Proof.
  apply (interp_returns_turn true demo_valid bare_sbi).
  - apply hart_init_wf. exact demo_valid.
  - unfold enough. rewrite Z2Nat.id by lia. reflexivity.
Defined.

