(* ===== verification/RvRvc.v ===== *)
(** The compressed instructions of a RISC-V hart: [exec_c0], [exec_c1] and
    [exec_c2] (the quadrants 0 to 2 of the switch in
    [src/cpu/riscv/riscv_cpu_interp.h]) do what the base instruction the C
    extension expands each encoding to does.

    [rvc_expand] is the table of the C extension for RV32 and RV64, from 16-bit
    encodings to 32-bit ones; reserved encodings have no expansion. *)

From stdpp Require Import base numbers list gmap.
From S2P Require Import Prelude Bits Cutils IoMem RvAlu RvState RvMem RvCsr RvTrap.
From S2P Require Import Softfp RvFp RvInsn RvInterp RvWf.
Local Open Scope Z_scope.

(** * The base formats *)

(** Bits [pos] to [pos + len - 1] of [v]. *)
Definition slice (v pos len : Z) : Z := v / 2 ^ pos mod 2 ^ len.

Definition itype (opcode funct3 rd rs1 imm : Z) : Z :=
  opcode + rd * 2 ^ 7 + funct3 * 2 ^ 12 + rs1 * 2 ^ 15 + slice imm 0 12 * 2 ^ 20.
Definition rtype (opcode funct3 funct7 rd rs1 rs2 : Z) : Z :=
  opcode + rd * 2 ^ 7 + funct3 * 2 ^ 12 + rs1 * 2 ^ 15 + rs2 * 2 ^ 20 + funct7 * 2 ^ 25.
Definition stype (opcode funct3 rs1 rs2 imm : Z) : Z :=
  rtype opcode funct3 (slice imm 5 7) (slice imm 0 5) rs1 rs2.
Definition btype (funct3 rs1 rs2 imm : Z) : Z :=
  rtype 0x63 funct3 (slice imm 5 6 + slice imm 12 1 * 2 ^ 6)
    (slice imm 11 1 + slice imm 1 4 * 2) rs1 rs2.
Definition utype (opcode rd imm : Z) : Z := opcode + rd * 2 ^ 7 + slice imm 12 20 * 2 ^ 12.
Definition jtype (rd imm : Z) : Z :=
  0x6f + rd * 2 ^ 7 + slice imm 12 8 * 2 ^ 12 + slice imm 11 1 * 2 ^ 20 + slice imm 1 10 * 2 ^ 21 +
  slice imm 20 1 * 2 ^ 31.

(** * The C extension *)

(** An immediate: the instruction's bits from [src] up are its bits [lo] to
    [hi]. *)
Definition gather (insn : Z) (l : list (Z * Z * Z)) : Z :=
  lors (map (fun '(src, lo, hi) => slice insn src (hi - lo + 1) * 2 ^ lo) l).

Definition c_reg (insn pos : Z) : Z := 8 + slice insn pos 3.
Definition c_rd (insn : Z) : Z := slice insn 7 5.
Definition c_rs2 (insn : Z) : Z := slice insn 2 5.
Definition c_imm6 (insn : Z) : Z := sw 6 (gather insn [(12, 5, 5); (2, 0, 4)]).
Definition c_shamt (insn : Z) : Z := gather insn [(12, 5, 5); (2, 0, 4)].
Definition c_imm_w (insn : Z) : Z := gather insn [(10, 3, 5); (6, 2, 2); (5, 6, 6)].
Definition c_imm_d (insn : Z) : Z := gather insn [(10, 3, 5); (5, 6, 7)].
Definition c_lwsp (insn : Z) : Z := gather insn [(12, 5, 5); (4, 2, 4); (2, 6, 7)].
Definition c_ldsp (insn : Z) : Z := gather insn [(12, 5, 5); (5, 3, 4); (2, 6, 8)].
Definition c_swsp (insn : Z) : Z := gather insn [(9, 2, 5); (7, 6, 7)].
Definition c_sdsp (insn : Z) : Z := gather insn [(10, 3, 5); (7, 6, 8)].
Definition c_4spn (insn : Z) : Z := gather insn [(11, 4, 5); (7, 6, 9); (6, 2, 2); (5, 3, 3)].
Definition c_16sp (insn : Z) : Z :=
  sw 10 (gather insn [(12, 9, 9); (6, 4, 4); (5, 6, 6); (3, 7, 8); (2, 5, 5)]).
Definition c_lui (insn : Z) : Z := sw 18 (gather insn [(12, 17, 17); (2, 12, 16)]).
Definition c_j (insn : Z) : Z :=
  sw 12 (gather insn [(12, 11, 11); (11, 4, 4); (9, 8, 9); (8, 10, 10); (7, 6, 6); (6, 7, 7);
                      (3, 1, 3); (2, 5, 5)]).
Definition c_b (insn : Z) : Z :=
  sw 9 (gather insn [(12, 8, 8); (10, 3, 4); (5, 6, 7); (3, 1, 2); (2, 5, 5)]).

Definition expand_c0 (xlen insn : Z) : option Z :=
  let rd := c_reg insn 2 in
  let rs1 := c_reg insn 7 in
  match slice insn 13 3 with
  | 0 => if c_4spn insn =? 0 then None
         else Some (itype 0x13 0 rd 2 (c_4spn insn)) (* addi rd', x2, nzuimm *)
  | 1 => Some (itype 0x07 3 rd rs1 (c_imm_d insn)) (* fld *)
  | 2 => Some (itype 0x03 2 rd rs1 (c_imm_w insn)) (* lw *)
  | 3 => if xlen =? 32 then Some (itype 0x07 2 rd rs1 (c_imm_w insn)) (* flw *)
         else Some (itype 0x03 3 rd rs1 (c_imm_d insn)) (* ld *)
  | 5 => Some (stype 0x27 3 rs1 rd (c_imm_d insn)) (* fsd *)
  | 6 => Some (stype 0x23 2 rs1 rd (c_imm_w insn)) (* sw *)
  | 7 => if xlen =? 32 then Some (stype 0x27 2 rs1 rd (c_imm_w insn)) (* fsw *)
         else Some (stype 0x23 3 rs1 rd (c_imm_d insn)) (* sd *)
  | _ => None
  end.

Definition expand_c1_alu (xlen insn : Z) : option Z :=
  let rd := c_reg insn 7 in
  let rs2 := c_reg insn 2 in
  match slice insn 10 2 with
  | 0 => if (xlen =? 32) && (32 <=? c_shamt insn) then None
         else Some (itype 0x13 5 rd rd (c_shamt insn)) (* srli *)
  | 1 => if (xlen =? 32) && (32 <=? c_shamt insn) then None
         else Some (itype 0x13 5 rd rd (0x400 + c_shamt insn)) (* srai *)
  | 2 => Some (itype 0x13 7 rd rd (c_imm6 insn)) (* andi *)
  | _ =>
    if slice insn 12 1 =? 0 then
      match slice insn 5 2 with
      | 0 => Some (rtype 0x33 0 0x20 rd rd rs2) (* sub *)
      | 1 => Some (rtype 0x33 4 0 rd rd rs2) (* xor *)
      | 2 => Some (rtype 0x33 6 0 rd rd rs2) (* or *)
      | _ => Some (rtype 0x33 7 0 rd rd rs2) (* and *)
      end
    else if xlen =? 32 then None
    else
      match slice insn 5 2 with
      | 0 => Some (rtype 0x3b 0 0x20 rd rd rs2) (* subw *)
      | 1 => Some (rtype 0x3b 0 0 rd rd rs2) (* addw *)
      | _ => None
      end
  end.

Definition expand_c1 (xlen insn : Z) : option Z :=
  let rd := c_rd insn in
  match slice insn 13 3 with
  | 0 => Some (itype 0x13 0 rd rd (c_imm6 insn)) (* addi *)
  | 1 => if xlen =? 32 then Some (jtype 1 (c_j insn)) (* jal x1 *)
         else if rd =? 0 then None
         else Some (itype 0x1b 0 rd rd (c_imm6 insn)) (* addiw *)
  | 2 => Some (itype 0x13 0 rd 0 (c_imm6 insn)) (* addi rd, x0, imm *)
  | 3 => if rd =? 2 then
           if c_16sp insn =? 0 then None else Some (itype 0x13 0 2 2 (c_16sp insn)) (* addi x2, x2 *)
         else if c_lui insn =? 0 then None else Some (utype 0x37 rd (c_lui insn)) (* lui *)
  | 4 => expand_c1_alu xlen insn
  | 5 => Some (jtype 0 (c_j insn)) (* jal x0 *)
  | 6 => Some (btype 0 (c_reg insn 7) 0 (c_b insn)) (* beq rs1', x0 *)
  | _ => Some (btype 1 (c_reg insn 7) 0 (c_b insn)) (* bne rs1', x0 *)
  end.

Definition expand_c2 (xlen insn : Z) : option Z :=
  let rd := c_rd insn in
  let rs2 := c_rs2 insn in
  match slice insn 13 3 with
  | 0 => if (xlen =? 32) && (32 <=? c_shamt insn) then None
         else Some (itype 0x13 1 rd rd (c_shamt insn)) (* slli *)
  | 1 => Some (itype 0x07 3 rd 2 (c_ldsp insn)) (* fld rd, (x2) *)
  | 2 => if rd =? 0 then None else Some (itype 0x03 2 rd 2 (c_lwsp insn)) (* lw rd, (x2) *)
  | 3 => if xlen =? 32 then Some (itype 0x07 2 rd 2 (c_lwsp insn)) (* flw rd, (x2) *)
         else if rd =? 0 then None else Some (itype 0x03 3 rd 2 (c_ldsp insn)) (* ld rd, (x2) *)
  | 4 => if slice insn 12 1 =? 0 then
           if rs2 =? 0 then
             if rd =? 0 then None else Some (itype 0x67 0 0 rd 0) (* jalr x0, rs1 *)
           else Some (rtype 0x33 0 0 rd 0 rs2) (* add rd, x0, rs2 *)
         else if rs2 =? 0 then
           if rd =? 0 then Some (itype 0x73 0 0 0 1) (* ebreak *)
           else Some (itype 0x67 0 1 rd 0) (* jalr x1, rs1 *)
         else Some (rtype 0x33 0 0 rd rd rs2) (* add rd, rd, rs2 *)
  | 5 => Some (stype 0x27 3 2 rs2 (c_sdsp insn)) (* fsd rs2, (x2) *)
  | 6 => Some (stype 0x23 2 2 rs2 (c_swsp insn)) (* sw rs2, (x2) *)
  | _ => if xlen =? 32 then Some (stype 0x27 2 2 rs2 (c_swsp insn)) (* fsw rs2, (x2) *)
         else Some (stype 0x23 3 2 rs2 (c_sdsp insn)) (* sd rs2, (x2) *)
  end.

Definition rvc_expand (xlen insn : Z) : option Z :=
  match slice insn 0 2 with
  | 0 => expand_c0 xlen insn
  | 1 => expand_c1 xlen insn
  | 2 => expand_c2 xlen insn
  | _ => None
  end.

(** * Fields *)

Lemma slice_range v pos len : 0 <= len -> 0 <= slice v pos len < 2 ^ len.
Proof. intros. apply Z.mod_pos_bound, pow2_pos. lia. Qed.

Lemma get_bits_slice v pos len : 0 <= pos -> 0 <= len -> pos + len <= 32 ->
  get_bits 32 v pos len = slice v pos len.
Proof. intros. by apply get_bits_mod. Qed.

Lemma slice_testbit v pos len i : 0 <= pos -> 0 <= len -> 0 <= i ->
  Z.testbit (slice v pos len) i = (i <? len) && Z.testbit v (i + pos).
Proof.
  intros. unfold slice. rewrite Z.testbit_mod_pow2, <- Z.shiftr_div_pow2, Z.shiftr_spec by lia. done.
Qed.

(** A slice put back where it was. *)
Lemma slice_shift_testbit v pos len i : 0 <= pos -> 0 <= len -> 0 <= i ->
  Z.testbit (slice v pos len * 2 ^ pos) i = (pos <=? i) && (i <? pos + len) && Z.testbit v i.
Proof.
  intros. rewrite Z.mul_pow2_bits by lia. destruct (Z.leb_spec pos i); cbn [andb].
  - rewrite slice_testbit by lia. rewrite Z.sub_add.
    repeat (case_cmp; try lia); done.
  - apply testbit_neg. lia.
Qed.

Lemma get_field1_slice v src lo hi : 0 <= src -> 0 <= lo <= hi -> hi < 32 -> src + (hi - lo + 1) <= 32 ->
  get_field1 v src lo hi = slice v src (hi - lo + 1) * 2 ^ lo.
Proof.
  intros. unfold get_field1. rewrite get_bits_slice, Z.shiftl_mul_pow2 by lia. apply uw_small.
  pose proof (slice_range v src (hi - lo + 1) ltac:(lia)).
  assert (2 ^ (hi - lo + 1) * 2 ^ lo <= 2 ^ 32).
  { rewrite <- Z.pow_add_r by lia. apply Z.pow_le_mono_r; lia. }
  pose proof (pow2_pos lo ltac:(lia)). unfold inw. nia.
Qed.

Definition field_ok '(src, lo, hi) : bool :=
  (0 <=? src) && (0 <=? lo) && (lo <=? hi) && (hi <? 32) && (src + (hi - lo + 1) <=? 32).

Lemma fields_gather insn l : forallb field_ok l = true -> fields insn l = gather insn l.
Proof.
  unfold fields, gather. induction l as [|[[src lo] hi] l IH]; [done|].
  cbn [forallb field_ok map lors fold_right]. intros Hl. apply andb_prop in Hl as [Ho Hl].
  f_equal; [|by apply IH]. apply get_field1_slice; lia.
Qed.

(** * What the base formats decode to *)

(** An immediate that fits [n] bits signed. *)
Lemma sw_slice_fits n imm : 0 < n -> insw n imm -> sw n (slice imm 0 n) = imm.
Proof.
  intros Hn Hi. unfold slice. rewrite Z.div_1_r. fold (uw n imm). rewrite sw_uw by lia.
  by apply sw_small.
Qed.

(** Linear arithmetic with division and remainder by powers of two. *)
Ltac pow_lia :=
  repeat match goal with
  | |- context [2 ^ ?k] => let v := eval vm_compute in (2 ^ k) in change (2 ^ k) with v
  | H : context [2 ^ ?k] |- _ => let v := eval vm_compute in (2 ^ k) in change (2 ^ k) with v in H
  end; Z.to_euclidean_division_equations; lia.

Lemma rtype_fields opcode funct3 funct7 rd rs1 rs2 : 0 <= opcode < 128 -> 0 <= funct3 < 8 ->
  0 <= funct7 < 128 -> 0 <= rd < 32 -> 0 <= rs1 < 32 -> 0 <= rs2 < 32 ->
  let w := rtype opcode funct3 funct7 rd rs1 rs2 in
  slice w 0 7 = opcode /\ slice w 7 5 = rd /\ slice w 12 3 = funct3 /\ slice w 15 5 = rs1 /\
  slice w 20 5 = rs2 /\ slice w 25 7 = funct7.
Proof.
  cbv zeta. intros. unfold slice, rtype. split_and!; pow_lia.
Qed.

Lemma itype_fields opcode funct3 rd rs1 imm : 0 <= opcode < 128 -> 0 <= funct3 < 8 ->
  0 <= rd < 32 -> 0 <= rs1 < 32 ->
  let w := itype opcode funct3 rd rs1 imm in
  slice w 0 7 = opcode /\ slice w 7 5 = rd /\ slice w 12 3 = funct3 /\ slice w 15 5 = rs1 /\
  slice w 20 12 = slice imm 0 12.
Proof.
  cbv zeta. intros. unfold itype. pose proof (slice_range imm 0 12 ltac:(lia)) as Hi. revert Hi.
  generalize (slice imm 0 12). intros. unfold slice. split_and!; pow_lia.
Qed.

Lemma utype_fields opcode rd imm : 0 <= opcode < 128 -> 0 <= rd < 32 ->
  let w := utype opcode rd imm in
  slice w 0 7 = opcode /\ slice w 7 5 = rd /\ slice w 12 20 = slice imm 12 20.
Proof.
  cbv zeta. intros. unfold utype. pose proof (slice_range imm 12 20 ltac:(lia)) as Hi. revert Hi.
  generalize (slice imm 12 20). intros. unfold slice. split_and!; pow_lia.
Qed.
Lemma imm_i_slice w : imm_i w = sw 12 (slice w 20 12).
Proof.
  unfold imm_i, simm. rewrite sign_extend_sw, Z.shiftr_div_pow2 by lia. unfold slice.
  fold (uw 12 (w / 2 ^ 20)). by rewrite sw_uw by lia.
Qed.

Lemma imm_i_itype opcode funct3 rd rs1 imm : 0 <= opcode < 128 -> 0 <= funct3 < 8 ->
  0 <= rd < 32 -> 0 <= rs1 < 32 -> insw 12 imm -> imm_i (itype opcode funct3 rd rs1 imm) = imm.
Proof.
  intros. rewrite imm_i_slice. destruct (itype_fields opcode funct3 rd rs1 imm) as (_ & _ & _ & _ & ->);
    [done..|]. by apply sw_slice_fits.
Qed.

Lemma imm_s_stype opcode funct3 rs1 rs2 imm : 0 <= opcode < 128 -> 0 <= funct3 < 8 ->
  0 <= rs1 < 32 -> 0 <= rs2 < 32 -> insw 12 imm -> imm_s (stype opcode funct3 rs1 rs2 imm) = imm.
Proof.
  intros. unfold imm_s, simm, insn_rd. rewrite sign_extend_sw, get_field1_slice, get_bits_slice by lia.
  change (11 - 5 + 1) with 7. unfold stype.
  destruct (rtype_fields opcode funct3 (slice imm 5 7) (slice imm 0 5) rs1 rs2)
    as (_ & -> & _ & _ & _ & ->); try (done || apply slice_range; lia).
  transitivity (sw 12 (slice imm 0 12)); [f_equal|by apply sw_slice_fits].
  bits_at i Hi. rewrite Z.lor_spec, slice_shift_testbit, !slice_testbit, Z.add_0_r by lia.
  repeat (case_cmp; try lia); cbn [andb orb]; rewrite ?orb_false_r; done.
Qed.

Lemma slice_slice v a n b m : 0 <= a -> 0 <= b -> 0 <= m -> b + m <= n ->
  slice (slice v a n) b m = slice v (a + b) m.
Proof.
  intros. bits_at i Hi. rewrite !slice_testbit by lia.
  replace (i + b + a) with (i + (a + b)) by lia. repeat (case_cmp; try lia); done.
Qed.

Lemma sub_slice v a n x b m c : slice v a n = x -> c = a + b -> 0 <= a -> 0 <= b -> 0 <= m ->
  b + m <= n -> slice v c m = slice x b m.
Proof. intros <- -> ????. by rewrite slice_slice. Qed.

(** Two fields side by side. *)
Lemma slice_pair_low x y n : 0 <= n -> 0 <= x < 2 ^ n -> slice (x + y * 2 ^ n) 0 n = x.
Proof. intros. unfold slice. rewrite Z.div_1_r, Z_mod_plus_full. by apply Z.mod_small. Qed.

Lemma slice_pair_high x y n m : 0 <= n -> 0 <= x < 2 ^ n -> 0 <= y < 2 ^ m ->
  slice (x + y * 2 ^ n) n m = y.
Proof.
  intros. unfold slice. rewrite Z_div_plus_full, Z.div_small by lia. by apply Z.mod_small.
Qed.

(** Slices of an even number put back in place, together its low bits. *)
Ltac slices_in_place H0 :=
  let i := fresh "i" in let Hi := fresh "Hi" in
  bits_at i Hi; rewrite !Z.lor_spec, !slice_shift_testbit, slice_testbit, Z.add_0_r, Z.bits_0 by lia;
  destruct (Z.eq_dec i 0) as [-> |]; [by rewrite H0|];
  destruct (Z.testbit _ i); repeat (case_cmp; try lia); reflexivity.

Lemma imm_b_btype funct3 rs1 rs2 imm : 0 <= funct3 < 8 -> 0 <= rs1 < 32 -> 0 <= rs2 < 32 ->
  insw 13 imm -> Z.testbit imm 0 = false -> imm_b (btype funct3 rs1 rs2 imm) = imm.
Proof.
  intros Hf H1 H2 Hi H0. unfold imm_b, simm. rewrite sign_extend_sw, fields_gather by (done || lia).
  unfold btype. set (f7 := _ + _ * 2 ^ 6). set (f5 := _ + _ * 2). set (w := rtype _ _ _ _ _ _).
  pose proof (slice_range imm 5 6 ltac:(lia)). pose proof (slice_range imm 12 1 ltac:(lia)).
  pose proof (slice_range imm 11 1 ltac:(lia)). pose proof (slice_range imm 1 4 ltac:(lia)).
  destruct (rtype_fields 0x63 funct3 f7 f5 rs1 rs2) as (_ & W5 & _ & _ & _ & W7);
    [subst f5 f7; (done || lia)..|].
  transitivity (sw 13 (slice imm 0 13)); [f_equal|by apply sw_slice_fits].
  assert (slice w 31 1 = slice imm 12 1) as E31.
  { rewrite (sub_slice _ _ _ _ 6 _ _ W7) by lia. by apply slice_pair_high. }
  assert (slice w 25 6 = slice imm 5 6) as E25.
  { rewrite (sub_slice _ _ _ _ 0 _ _ W7) by lia. by apply slice_pair_low. }
  assert (slice w 8 4 = slice imm 1 4) as E8.
  { rewrite (sub_slice _ _ _ _ 1 _ _ W5) by lia. by apply (slice_pair_high _ _ 1). }
  assert (slice w 7 1 = slice imm 11 1) as E7.
  { rewrite (sub_slice _ _ _ _ 0 _ _ W5) by lia. by apply (slice_pair_low _ _ 1). }
  unfold gather. cbn [map lors fold_right].
  change (12 - 12 + 1) with 1. change (10 - 5 + 1) with 6. change (4 - 1 + 1) with 4.
  change (11 - 11 + 1) with 1. rewrite E31, E25, E8, E7. slices_in_place H0.
Qed.

Lemma jtype_fields rd imm : 0 <= rd < 32 ->
  let w := jtype rd imm in
  slice w 0 7 = 0x6f /\ slice w 7 5 = rd /\ slice w 12 8 = slice imm 12 8 /\
  slice w 20 1 = slice imm 11 1 /\ slice w 21 10 = slice imm 1 10 /\ slice w 31 1 = slice imm 20 1.
Proof.
  cbv zeta. intros. unfold jtype.
  pose proof (slice_range imm 12 8 ltac:(lia)) as R1. pose proof (slice_range imm 11 1 ltac:(lia)) as R2.
  pose proof (slice_range imm 1 10 ltac:(lia)) as R3. pose proof (slice_range imm 20 1 ltac:(lia)) as R4.
  revert R1 R2 R3 R4. generalize (slice imm 12 8), (slice imm 11 1), (slice imm 1 10), (slice imm 20 1).
  intros. unfold slice. split_and!; pow_lia.
Qed.

Lemma imm_j_jtype rd imm : 0 <= rd < 32 -> insw 21 imm -> Z.testbit imm 0 = false ->
  imm_j (jtype rd imm) = imm.
Proof.
  intros Hd Hi H0. unfold imm_j, simm. rewrite sign_extend_sw, fields_gather by (done || lia).
  transitivity (sw 21 (slice imm 0 21)); [f_equal|by apply sw_slice_fits].
  destruct (jtype_fields rd imm Hd) as (_ & _ & E12 & E20 & E21 & E31).
  unfold gather. cbn [map lors fold_right].
  change (20 - 20 + 1) with 1. change (10 - 1 + 1) with 10. change (11 - 11 + 1) with 1.
  change (19 - 12 + 1) with 8. rewrite E12, E20, E21, E31. slices_in_place H0.
Qed.

Lemma imm_u_utype opcode rd imm : 0 <= opcode < 128 -> 0 <= rd < 32 -> insw 32 imm ->
  slice imm 0 12 = 0 -> imm_u (utype opcode rd imm) = imm.
Proof.
  intros Ho Hd Hi H0. unfold imm_u.
  transitivity (sw 32 (slice imm 0 32)); [f_equal|by apply sw_slice_fits].
  destruct (utype_fields opcode rd imm Ho Hd) as (_ & _ & E).
  bits_at i Hbi. rewrite set_bits_testbit, slice_testbit, Z.add_0_r by lia.
  destruct (Z.ltb_spec i 12).
  - pose proof (f_equal (fun x => Z.testbit x i) H0) as Lb. cbn beta in Lb.
    rewrite slice_testbit, Z.add_0_r, Z.bits_0 in Lb by lia. revert Lb. rewrite Z.bits_0.
    repeat (case_cmp; try lia); done.
  - pose proof (f_equal (fun x => Z.testbit x (i - 12)) E) as Eb. cbn beta in Eb.
    rewrite !slice_testbit, Z.sub_add in Eb by lia. revert Eb. repeat (case_cmp; try lia); done.
Qed.

(** * The fields of the compressed formats *)

Lemma inw_slice_shift insn src lo hi n : 0 <= lo <= hi -> hi < n ->
  inw n (slice insn src (hi - lo + 1) * 2 ^ lo).
Proof.
  intros. pose proof (slice_range insn src (hi - lo + 1) ltac:(lia)).
  assert (2 ^ (hi - lo + 1) * 2 ^ lo <= 2 ^ n).
  { rewrite <- Z.pow_add_r by lia. apply Z.pow_le_mono_r; lia. }
  pose proof (pow2_pos lo ltac:(lia)). unfold inw. nia.
Qed.

Lemma gather_range insn n l : 0 <= n ->
  forallb (fun '(_, lo, hi) => (0 <=? lo) && (lo <=? hi) && (hi <? n)) l = true ->
  inw n (gather insn l).
Proof.
  intros Hn. unfold gather. induction l as [|[[src lo] hi] l IH].
  - intros _. by apply inw_0.
  - cbn [forallb map lors fold_right]. intros [Ho Hl]%andb_prop.
    apply inw_lor; [done|apply inw_slice_shift; lia|by apply IH].
Qed.

Lemma insw_inw n m x : 0 < n -> n < m -> inw n x -> insw m x.
Proof.
  intros ?? Hx. unfold inw, insw in *. assert (2 ^ n <= 2 ^ (m - 1)) by (apply Z.pow_le_mono_r; lia). lia.
Qed.

Lemma insw_sw n m x : 0 < n -> n <= m -> insw m (sw n x).
Proof.
  intros. pose proof (sw_range n x ltac:(lia)). unfold insw in *.
  assert (2 ^ (n - 1) <= 2 ^ (m - 1)) by (apply Z.pow_le_mono_r; lia). lia.
Qed.

Lemma slice5_range insn pos : 0 <= slice insn pos 5 < 32.
Proof. by apply slice_range. Qed.
Lemma c_reg_range insn pos : 0 <= c_reg insn pos < 32.
Proof. unfold c_reg. pose proof (slice_range insn pos 3 ltac:(lia)). lia. Qed.
Lemma c_reg_nz insn pos : (c_reg insn pos =? 0) = false.
Proof. unfold c_reg. pose proof (slice_range insn pos 3 ltac:(lia)). lia. Qed.

Lemma sw_low n x i : 0 <= i < n -> Z.testbit (sw n x) i = Z.testbit x i.
Proof.
  intros. pose proof (f_equal (fun y => Z.testbit y i) (uw_sw n x ltac:(lia))) as E. cbn beta in E.
  rewrite !uw_testbit in E by lia. revert E. case_cmp; [done|lia].
Qed.

Lemma gather_even insn l : forallb (fun '(_, lo, _) => 0 <? lo) l = true ->
  Z.testbit (gather insn l) 0 = false.
Proof.
  unfold gather. induction l as [|[[src lo] hi] l IH]; [done|].
  cbn [forallb map lors fold_right]. intros [Ho Hl]%andb_prop.
  rewrite Z.lor_spec, Z.mul_pow2_bits_low by lia. by apply IH.
Qed.

Lemma c_j_even insn : Z.testbit (c_j insn) 0 = false.
Proof. unfold c_j. rewrite sw_low by lia. by apply gather_even. Qed.
Lemma c_b_even insn : Z.testbit (c_b insn) 0 = false.
Proof. unfold c_b. rewrite sw_low by lia. by apply gather_even. Qed.

Lemma c_lui_low insn : slice (c_lui insn) 0 12 = 0.
Proof.
  unfold c_lui. bits_at i Hi. rewrite slice_testbit, Z.add_0_r, Z.bits_0 by lia.
  case_cmp; [|done]. rewrite sw_low by lia. unfold gather. cbn [map lors fold_right].
  rewrite !Z.lor_spec, !Z.mul_pow2_bits_low, Z.bits_0 by lia. done.
Qed.

(** Immediates in range of the base formats. *)
Ltac in_format :=
  first
    [ done | lia | apply slice5_range | apply c_reg_range | apply c_j_even | apply c_b_even
    | apply c_lui_low
    | apply insw_sw; lia
    | apply (insw_inw 10); [lia|lia|apply gather_range; [lia|reflexivity]] ].

(** * The fields as the code takes them apart *)

Lemma creg_eq insn pos : 0 <= pos <= 13 -> creg insn pos = c_reg insn pos.
Proof.
  intros. unfold creg, c_reg. rewrite get_bits_slice by lia.
  pose proof (slice_range insn pos 3 ltac:(lia)) as R. revert R. generalize (slice insn pos 3). intros x R.
  assert (x = 0 \/ x = 1 \/ x = 2 \/ x = 3 \/ x = 4 \/ x = 5 \/ x = 6 \/ x = 7) as E by lia.
  by repeat destruct E as [-> | E]; [..|subst].
Qed.

Lemma fields_low insn pos len : 0 <= pos -> 0 <= len -> pos + len <= 5 ->
  Z.land (slice insn 2 5) (field_mask 32 pos len) = slice insn (2 + pos) len * 2 ^ pos.
Proof.
  intros. bits_at i Hi. rewrite Z.land_spec, field_mask_testbit, slice_testbit, Z.mul_pow2_bits by lia.
  destruct (Z.leb_spec pos i).
  - rewrite slice_testbit by lia. replace (i - pos + (2 + pos)) with (i + 2) by lia.
    repeat (case_cmp; try lia); by rewrite ?andb_true_r, ?andb_false_r.
  - rewrite (testbit_neg (i - pos)) by lia. by rewrite !andb_false_r.
Qed.

(** * The base instructions the C extension expands to *)

Lemma itype_dec opcode funct3 rd rs1 imm : 0 <= opcode < 128 -> 0 <= funct3 < 8 ->
  0 <= rd < 32 -> 0 <= rs1 < 32 -> insw 12 imm ->
  let w := itype opcode funct3 rd rs1 imm in
  get_bits 32 w 0 7 = opcode /\ insn_rd w = rd /\ insn_funct3 w = funct3 /\ insn_rs1 w = rs1 /\
  imm_i w = imm /\ get_bits 32 w 26 6 = slice imm 6 6.
Proof.
  intros. destruct (itype_fields opcode funct3 rd rs1 imm) as (E1 & E2 & E3 & E4 & E5); [done..|].
  unfold w, insn_rd, insn_funct3, insn_rs1. rewrite !get_bits_slice by lia.
  split_and!; [done..|by apply imm_i_itype|].
  rewrite (sub_slice _ _ _ _ 6 _ _ E5), slice_slice by lia. done.
Qed.

Lemma rtype_dec opcode funct3 funct7 rd rs1 rs2 : 0 <= opcode < 128 -> 0 <= funct3 < 8 ->
  0 <= funct7 < 128 -> 0 <= rd < 32 -> 0 <= rs1 < 32 -> 0 <= rs2 < 32 ->
  let w := rtype opcode funct3 funct7 rd rs1 rs2 in
  get_bits 32 w 0 7 = opcode /\ insn_rd w = rd /\ insn_funct3 w = funct3 /\ insn_rs1 w = rs1 /\
  insn_rs2 w = rs2 /\ get_bits 32 w 25 7 = funct7.
Proof.
  intros. destruct (rtype_fields opcode funct3 funct7 rd rs1 rs2) as (E1 & E2 & E3 & E4 & E5 & E6); [done..|].
  unfold w, insn_rd, insn_funct3, insn_rs1, insn_rs2. by rewrite !get_bits_slice by lia.
Qed.

Lemma alu_op_dec w : alu_op w = Z.lor (insn_funct3 w) (Z.shiftl (Z_of_bool (Z.testbit (get_bits 32 w 25 7) 5)) 3).
Proof. unfold alu_op. by rewrite get_bit_testbit, get_bits_testbit by lia. Qed.

Section Rvc.
Context `{MaxXlen} `{Platform D} (int128 : bool) (pc0 ica : Z).
Notation cpu := (RISCVCPUState D).
Notation X := max_xlen.
Notation exec w s := (exec_insn int128 X pc0 ica w s).
Implicit Types s : cpu.

(** jal and jalr that link, to x1 *)
Definition links (w : Z) : bool :=
  ((slice w 0 7 =? 0x6f) || (slice w 0 7 =? 0x67)) && (slice w 7 5 =? 1).

Definition compressed (c : ctl) : ctl := match c with Next => CNext | c => c end.

(** The outcome of a base instruction, as that of a compressed one at the same
    address: the next instruction is two bytes on. *)
Definition as_compressed (w : Z) (r : cpu * ctl) : cpu * ctl :=
  (if links w then set_greg 1 (tu (pc0 + 2)) r.1 else r.1,
   compressed r.2).

Context (HX : X = 32 \/ X = 64).

Lemma sx_max v : sx X v = tu v.
Proof using HX. unfold sx, tu. apply uw_sw. destruct HX as [-> | ->]; lia. Qed.

(** Both shift immediates, as the handlers of OP-IMM test them. *)
Definition shamt_ok (w imm : Z) : bool :=
  (slice imm 6 6 =? 0) && (Z.ldiff imm (w - 1) =? 0) && (Z.land imm (w - 1) =? imm) &&
  negb (get_bit 32 imm 10) && (Z.ldiff imm (Z.lor (w - 1) 0x400) =? 0) &&
  (slice (0x400 + imm) 6 6 =? 0x10) && (Z.land (0x400 + imm) (w - 1) =? imm) &&
  get_bit 32 (0x400 + imm) 10 && (Z.ldiff (0x400 + imm) (Z.lor (w - 1) 0x400) =? 0).

Lemma shamt_bits imm : 0 <= imm < X -> shamt_ok X imm = true.
Proof using HX.
  intros Hi.
  assert (forall w, w = 32 \/ w = 64 -> forallb (shamt_ok w) (map Z.of_nat (seq 0 (Z.to_nat w))) = true)
    as Hall by (intros w [-> | ->]; vm_compute; reflexivity).
  specialize (Hall X HX). rewrite forallb_forall in Hall. apply Hall, in_map_iff.
  exists (Z.to_nat imm). split; [lia|]. apply in_seq. lia.
Qed.

(** Comparisons of numerals. *)
Ltac numerals :=
  repeat match goal with
  | |- context [Z.eqb ?a ?b] =>
    let v := eval vm_compute in (Z.eqb a b) in
    match v with
    | true => change (Z.eqb a b) with true
    | false => change (Z.eqb a b) with false
    end; cbv match
  end.

(** The switch, by the opcode. *)
Lemma exec_opcode w opcode : get_bits 32 w 0 7 = opcode ->
  match opcode with
  | 0x37 => exec_insn int128 X pc0 ica w = exec_lui w
  | 0x6f => exec_insn int128 X pc0 ica w = exec_jal X pc0 w
  | 0x67 => exec_insn int128 X pc0 ica w = exec_jalr X pc0 w
  | 0x63 => exec_insn int128 X pc0 ica w = exec_branch X pc0 w
  | 0x03 => exec_insn int128 X pc0 ica w = exec_load X w
  | 0x23 => exec_insn int128 X pc0 ica w = exec_store X w
  | 0x13 => exec_insn int128 X pc0 ica w = exec_op_imm X w
  | 0x1b => exec_insn int128 X pc0 ica w = exec_op_imm_32 X w
  | 0x33 => exec_insn int128 X pc0 ica w = exec_op int128 X w
  | 0x3b => exec_insn int128 X pc0 ica w = exec_op_32 X w
  | 0x07 => exec_insn int128 X pc0 ica w = exec_fp_load w
  | 0x27 => exec_insn int128 X pc0 ica w = exec_fp_store w
  | _ => True
  end.
Proof.
  intros E. unfold exec_insn. cbv zeta. rewrite E.
  repeat match goal with |- match ?z with _ => _ end => destruct z; try exact I end; reflexivity.
Qed.

Ltac open_handler :=
  unfold exec_op_imm, exec_op_imm_32, exec_op, exec_op_32, exec_load, exec_store, exec_fp_load,
    exec_fp_store, exec_jalr, exec_branch, base_addr, need_fp, to_rd, op_imm, op_imm_32,
    op_imm_narrow, op_reg, op_32, look, goto; cbv zeta.

Ltac decode_i :=
  lazymatch goal with
  | |- context [itype ?o ?f ?rd ?rs1 ?imm] =>
    let Eo := fresh "Eo" in let Ed := fresh "Ed" in let Ef := fresh "Ef" in let Es := fresh "Es" in
    let Ei := fresh "Ei" in let Eh := fresh "Eh" in
    destruct (itype_dec o f rd rs1 imm) as (Eo & Ed & Ef & Es & Ei & Eh);
      [lia..|unfold insw in *; lia|];
    revert Eo Ed Ef Es Ei Eh; generalize (itype o f rd rs1 imm); intros ? Eo Ed Ef Es Ei Eh;
    rewrite (exec_opcode _ _ Eo); open_handler; rewrite ?Ed, ?Ef, ?Es, ?Ei, ?Eh; numerals
  end.

Lemma exec_addi rd rs1 imm s : 0 <= rd < 32 -> 0 <= rs1 < 32 -> insw 12 imm ->
  exec (itype 0x13 0 rd rs1 imm) s = (set_rd rd (tu (greg s rs1 + imm)) s, Next).
Proof using HX. intros. decode_i. by rewrite sx_max. Qed.

Lemma exec_andi rd rs1 imm s : 0 <= rd < 32 -> 0 <= rs1 < 32 -> insw 12 imm ->
  exec (itype 0x13 7 rd rs1 imm) s = (set_rd rd (Z.land (greg s rs1) (tu imm)) s, Next).
Proof. intros. decode_i. done. Qed.

Lemma exec_addiw rd rs1 imm s : X = 64 -> 0 <= rd < 32 -> 0 <= rs1 < 32 -> insw 12 imm ->
  exec (itype 0x1b 0 rd rs1 imm) s = (set_rd rd (tu (sw 32 (greg s rs1 + imm))) s, Next).
Proof. intros E **. decode_i. rewrite E. done. Qed.

Lemma exec_slli rd rs1 imm s : 0 <= rd < 32 -> 0 <= rs1 < 32 -> 0 <= imm < X ->
  exec (itype 0x13 1 rd rs1 imm) s = (set_rd rd (tu (tu (Z.shiftl (greg s rs1) imm))) s, Next).
Proof using HX.
  intros. pose proof (shamt_bits imm ltac:(done)) as B. unfold shamt_ok in B. decode_i.
  assert (slice imm 6 6 = 0) as -> by lia. assert (Z.ldiff imm (X - 1) = 0) as -> by lia.
  assert (Z.land imm (X - 1) = imm) as -> by lia. rewrite andb_false_r, sx_max. done.
Qed.

Lemma exec_srli rd rs1 imm s : 0 <= rd < 32 -> 0 <= rs1 < 32 -> 0 <= imm < X ->
  exec (itype 0x13 5 rd rs1 imm) s = (set_rd rd (tu (Z.shiftr (tu (greg s rs1)) imm)) s, Next).
Proof using HX.
  intros. pose proof (shamt_bits imm ltac:(done)) as B. unfold shamt_ok in B. decode_i.
  assert (slice imm 6 6 = 0) as -> by lia.
  assert (Z.ldiff imm (Z.lor (X - 1) 1024) = 0) as -> by lia.
  assert (Z.land imm (X - 1) = imm) as -> by lia.
  assert (get_bit 32 imm 10 = false) as -> by (destruct (get_bit 32 imm 10); [lia|done]).
  change (nz (Z.ldiff 0 16)) with false. rewrite andb_false_r, sx_max. done.
Qed.

Lemma exec_srai rd rs1 imm s : 0 <= rd < 32 -> 0 <= rs1 < 32 -> 0 <= imm < X ->
  exec (itype 0x13 5 rd rs1 (0x400 + imm)) s =
  (set_rd rd (tu (Z.shiftr (ts (greg s rs1)) imm)) s, Next).
Proof using HX.
  intros. pose proof (shamt_bits imm ltac:(done)) as B. unfold shamt_ok in B. 
  assert (imm < 64) by (destruct HX; lia). decode_i.
  assert (slice (1024 + imm) 6 6 = 16) as -> by lia.
  assert (Z.ldiff (1024 + imm) (Z.lor (X - 1) 1024) = 0) as -> by lia.
  assert (Z.land (1024 + imm) (X - 1) = imm) as -> by lia.
  assert (get_bit 32 (1024 + imm) 10 = true) as -> by (destruct (get_bit 32 (1024 + imm) 10); [done|lia]).
  change (nz (Z.ldiff 16 16)) with false. rewrite andb_false_r. done.
Qed.

Lemma exec_lw rd rs1 imm s : 0 <= rd < 32 -> 0 <= rs1 < 32 -> insw 12 imm ->
  exec (itype 0x03 2 rd rs1 imm) s = load_s 2 (tu (greg s rs1 + imm)) rd Next s.
Proof. intros. decode_i. done. Qed.

Lemma exec_ld rd rs1 imm s : X = 64 -> 0 <= rd < 32 -> 0 <= rs1 < 32 -> insw 12 imm ->
  exec (itype 0x03 3 rd rs1 imm) s = load_s 3 (tu (greg s rs1 + imm)) rd Next s.
Proof. intros E **. decode_i. rewrite E. done. Qed.

Lemma exec_flw rd rs1 imm s : 0 <= rd < 32 -> 0 <= rs1 < 32 -> insw 12 imm ->
  exec (itype 0x07 2 rd rs1 imm) s =
  need_fp (fun s => load_fp 2 (tu (greg s rs1 + imm)) rd Next s) s.
Proof. intros. decode_i. done. Qed.

Lemma exec_fld rd rs1 imm s : 0 <= rd < 32 -> 0 <= rs1 < 32 -> insw 12 imm ->
  exec (itype 0x07 3 rd rs1 imm) s =
  need_fp (fun s => load_fp 3 (tu (greg s rs1 + imm)) rd Next s) s.
Proof. intros. decode_i. done. Qed.

Lemma exec_jalr_at rd rs1 s : 0 <= rd < 32 -> 0 <= rs1 < 32 ->
  exec (itype 0x67 0 rd rs1 0) s =
  (set_rd rd (tu (pc0 + 4)) (set_pc (Z.ldiff (tu (greg s rs1)) 1) s), Jump).
Proof using HX. intros. decode_i. by rewrite Z.add_0_r, sx_max. Qed.

Lemma exec_ebreak s : exec (itype 0x73 0 0 0 1) s =
  (s <| pending_exception := CAUSE_BREAKPOINT |>, Exc).
Proof. reflexivity. Qed.

Lemma stype_dec opcode funct3 rs1 rs2 imm : 0 <= opcode < 128 -> 0 <= funct3 < 8 ->
  0 <= rs1 < 32 -> 0 <= rs2 < 32 -> insw 12 imm ->
  let w := stype opcode funct3 rs1 rs2 imm in
  get_bits 32 w 0 7 = opcode /\ insn_funct3 w = funct3 /\ insn_rs1 w = rs1 /\ insn_rs2 w = rs2 /\
  imm_s w = imm.
Proof.
  intros. destruct (rtype_dec opcode funct3 (slice imm 5 7) (slice imm 0 5) rs1 rs2)
    as (E1 & _ & E3 & E4 & E5 & _); try (done || apply slice_range; lia).
  split_and!; [done..|]. by apply imm_s_stype.
Qed.

Ltac decode_s :=
  lazymatch goal with
  | |- context [stype ?o ?f ?rs1 ?rs2 ?imm] =>
    let Eo := fresh "Eo" in let Ef := fresh "Ef" in let Es := fresh "Es" in let Et := fresh "Et" in
    let Ei := fresh "Ei" in
    destruct (stype_dec o f rs1 rs2 imm) as (Eo & Ef & Es & Et & Ei); [lia..|done|];
    revert Eo Ef Es Et Ei; generalize (stype o f rs1 rs2 imm); intros ? Eo Ef Es Et Ei;
    rewrite (exec_opcode _ _ Eo); unfold exec_store, exec_fp_store; cbv zeta; rewrite Ef, Ei;
    unfold base_addr, look; rewrite Es, Et
  end.

Lemma exec_sw rs1 rs2 imm s : 0 <= rs1 < 32 -> 0 <= rs2 < 32 -> insw 12 imm ->
  exec (stype 0x23 2 rs1 rs2 imm) s = store 2 (tu (greg s rs1 + imm)) (greg s rs2) Next s.
Proof. intros. decode_s. reflexivity. Qed.

Lemma exec_sd rs1 rs2 imm s : X = 64 -> 0 <= rs1 < 32 -> 0 <= rs2 < 32 -> insw 12 imm ->
  exec (stype 0x23 3 rs1 rs2 imm) s = store 3 (tu (greg s rs1 + imm)) (greg s rs2) Next s.
Proof. intros E **. decode_s. rewrite E. reflexivity. Qed.

Lemma exec_fsw rs1 rs2 imm s : 0 <= rs1 < 32 -> 0 <= rs2 < 32 -> insw 12 imm ->
  exec (stype 0x27 2 rs1 rs2 imm) s =
  need_fp (fun s => store 2 (tu (greg s rs1 + imm)) (freg s rs2) Next s) s.
Proof. intros. decode_s. reflexivity. Qed.

Lemma exec_fsd rs1 rs2 imm s : 0 <= rs1 < 32 -> 0 <= rs2 < 32 -> insw 12 imm ->
  exec (stype 0x27 3 rs1 rs2 imm) s =
  need_fp (fun s => store 3 (tu (greg s rs1 + imm)) (freg s rs2) Next s) s.
Proof. intros. decode_s. reflexivity. Qed.

Ltac decode_r :=
  lazymatch goal with
  | |- context [rtype ?o ?f ?g ?rd ?rs1 ?rs2] =>
    let Eo := fresh "Eo" in let Ed := fresh "Ed" in let Ef := fresh "Ef" in let Es := fresh "Es" in
    let Et := fresh "Et" in let Eg := fresh "Eg" in
    destruct (rtype_dec o f g rd rs1 rs2) as (Eo & Ed & Ef & Es & Et & Eg); [lia..|];
    revert Eo Ed Ef Es Et Eg; generalize (rtype o f g rd rs1 rs2); intros w Eo Ed Ef Es Et Eg;
    rewrite (exec_opcode _ _ Eo); open_handler;
    unfold alu_narrow, rv_bitmanip_op, rv_bitmanip_op_32; cbv zeta; fold (insn_funct3 w);
    rewrite ?alu_op_dec, ?Ed, ?Ef, ?Es, ?Et, ?Eg; numerals
  end.

Lemma exec_sub rd rs1 rs2 s : 0 <= rd < 32 -> 0 <= rs1 < 32 -> 0 <= rs2 < 32 ->
  exec (rtype 0x33 0 0x20 rd rs1 rs2) s = (set_rd rd (tu (greg s rs1 - greg s rs2)) s, Next).
Proof using HX. intros. decode_r. rewrite sx_max. by destruct (_ && _). Qed.

Lemma exec_add rd rs1 rs2 s : 0 <= rd < 32 -> 0 <= rs1 < 32 -> 0 <= rs2 < 32 ->
  exec (rtype 0x33 0 0 rd rs1 rs2) s = (set_rd rd (tu (greg s rs1 + greg s rs2)) s, Next).
Proof using HX. intros. decode_r. rewrite sx_max. by destruct (_ && _). Qed.

Lemma exec_xor rd rs1 rs2 s : 0 <= rd < 32 -> 0 <= rs1 < 32 -> 0 <= rs2 < 32 ->
  exec (rtype 0x33 4 0 rd rs1 rs2) s = (set_rd rd (Z.lxor (greg s rs1) (greg s rs2)) s, Next).
Proof. intros. decode_r. by destruct (_ && _). Qed.

Lemma exec_or rd rs1 rs2 s : 0 <= rd < 32 -> 0 <= rs1 < 32 -> 0 <= rs2 < 32 ->
  exec (rtype 0x33 6 0 rd rs1 rs2) s = (set_rd rd (Z.lor (greg s rs1) (greg s rs2)) s, Next).
Proof. intros. decode_r. by destruct (_ && _). Qed.

Lemma exec_and rd rs1 rs2 s : 0 <= rd < 32 -> 0 <= rs1 < 32 -> 0 <= rs2 < 32 ->
  exec (rtype 0x33 7 0 rd rs1 rs2) s = (set_rd rd (Z.land (greg s rs1) (greg s rs2)) s, Next).
Proof. intros. decode_r. by destruct (_ && _). Qed.

Lemma exec_subw rd rs1 rs2 s : X = 64 -> 0 <= rd < 32 -> 0 <= rs1 < 32 -> 0 <= rs2 < 32 ->
  exec (rtype 0x3b 0 0x20 rd rs1 rs2) s = (set_rd rd (tu (sw 32 (greg s rs1 - greg s rs2))) s, Next).
Proof. intros E **. decode_r. rewrite E. done. Qed.

Lemma exec_addw rd rs1 rs2 s : X = 64 -> 0 <= rd < 32 -> 0 <= rs1 < 32 -> 0 <= rs2 < 32 ->
  exec (rtype 0x3b 0 0 rd rs1 rs2) s = (set_rd rd (tu (sw 32 (greg s rs1 + greg s rs2))) s, Next).
Proof. intros E **. decode_r. rewrite E. done. Qed.

Lemma exec_lui_at rd imm s : 0 <= rd < 32 -> insw 32 imm -> slice imm 0 12 = 0 ->
  exec (utype 0x37 rd imm) s = (set_rd rd (tu imm) s, Next).
Proof.
  intros. destruct (utype_fields 0x37 rd imm) as (Eo & Ed & _); [lia..|].
  rewrite <- get_bits_slice in Eo, Ed by lia. rewrite (exec_opcode _ _ Eo).
  unfold exec_lui, goto, insn_rd. rewrite Ed, imm_u_utype by (done || lia). done.
Qed.

Lemma exec_jal_at rd imm s : 0 <= rd < 32 -> insw 21 imm -> Z.testbit imm 0 = false ->
  exec (jtype rd imm) s = (set_pc (tu (pc0 + imm)) (set_rd rd (tu (pc0 + 4)) s), Jump).
Proof using HX.
  intros. destruct (jtype_fields rd imm) as (Eo & Ed & _); [lia..|].
  rewrite <- get_bits_slice in Eo, Ed by lia. rewrite (exec_opcode _ _ Eo).
  unfold exec_jal, goto, insn_rd. rewrite Ed, imm_j_jtype, sx_max by (done || lia). done.
Qed.

Lemma exec_beq_bne (ne : bool) rs1 rs2 imm s : 0 <= rs1 < 32 -> 0 <= rs2 < 32 ->
  insw 13 imm -> Z.testbit imm 0 = false ->
  exec (btype (Z_of_bool ne) rs1 rs2 imm) s =
  (if xorb (greg s rs1 =? greg s rs2) ne then (set_pc (tu (pc0 + imm)) s, Jump) else (s, Next)).
Proof using HX.
  intros.
  pose proof (slice_range imm 5 6 ltac:(lia)). pose proof (slice_range imm 12 1 ltac:(lia)).
  pose proof (slice_range imm 11 1 ltac:(lia)). pose proof (slice_range imm 1 4 ltac:(lia)).
  assert (0 <= Z_of_bool ne < 8) by (destruct ne; cbn; lia).
  unfold btype. destruct (rtype_dec 0x63 (Z_of_bool ne) (slice imm 5 6 + slice imm 12 1 * 2 ^ 6)
    (slice imm 11 1 + slice imm 1 4 * 2) rs1 rs2) as (Eo & _ & Ef & Es & Et & _); [done || lia..|].
  pose proof (imm_b_btype (Z_of_bool ne) rs1 rs2 imm ltac:(done) ltac:(done) ltac:(done) ltac:(done)
    ltac:(done)) as Ei. unfold btype in Ei.
  revert Eo Ef Es Et Ei. generalize (rtype 0x63 (Z_of_bool ne) (slice imm 5 6 + slice imm 12 1 * 2 ^ 6)
    (slice imm 11 1 + slice imm 1 4 * 2) rs1 rs2). intros w Eo Ef Es Et Ei.
  rewrite (exec_opcode _ _ Eo). unfold exec_branch, look. rewrite Ef, Es, Et, Ei, sx_max.
  generalize (greg s rs1), (greg s rs2). intros a b.
  unfold branch_cond. destruct ne; cbn; by destruct (a =? b).
Qed.

(** * The outcome, compressed *)

Lemma plain_i o f rd rs1 imm : 0 <= o < 128 -> 0 <= f < 8 -> 0 <= rd < 32 -> 0 <= rs1 < 32 ->
  (o =? 0x6f) || (o =? 0x67) = false -> links (itype o f rd rs1 imm) = false.
Proof.
  intros ???? Ho. destruct (itype_fields o f rd rs1 imm) as (E & _); [done..|].
  unfold links. by rewrite E, Ho.
Qed.

Lemma plain_r o f g rd rs1 rs2 : 0 <= o < 128 -> 0 <= f < 8 -> 0 <= g < 128 -> 0 <= rd < 32 ->
  0 <= rs1 < 32 -> 0 <= rs2 < 32 ->
  (o =? 0x6f) || (o =? 0x67) = false -> links (rtype o f g rd rs1 rs2) = false.
Proof.
  intros ?????? Ho. destruct (rtype_fields o f g rd rs1 rs2) as (E & _); [done..|].
  unfold links. by rewrite E, Ho.
Qed.

Lemma plain_s o f rs1 rs2 imm : 0 <= o < 128 -> 0 <= f < 8 -> 0 <= rs1 < 32 -> 0 <= rs2 < 32 ->
  (o =? 0x6f) || (o =? 0x67) = false -> links (stype o f rs1 rs2 imm) = false.
Proof. intros. apply plain_r; try done; by apply slice_range. Qed.

Lemma plain_b f rs1 rs2 imm : 0 <= f < 8 -> 0 <= rs1 < 32 -> 0 <= rs2 < 32 ->
  links (btype f rs1 rs2 imm) = false.
Proof.
  intros. pose proof (slice_range imm 5 6 ltac:(lia)). pose proof (slice_range imm 12 1 ltac:(lia)).
  pose proof (slice_range imm 11 1 ltac:(lia)). pose proof (slice_range imm 1 4 ltac:(lia)).
  apply plain_r; done || lia.
Qed.

Lemma plain_u rd imm : 0 <= rd < 32 -> links (utype 0x37 rd imm) = false.
Proof. intros. destruct (utype_fields 0x37 rd imm) as (E & _); [lia..|]. unfold links. by rewrite E. Qed.

Section Plain.
Context (w : Z) (Hw : links w = false).

Lemma as_next s c : as_compressed w (s, c) = (s, compressed c).
Proof using Hw. unfold as_compressed. by rewrite Hw. Qed.

Lemma as_load_s sz va rd s : as_compressed w (load_s sz va rd Next s) = load_s sz va rd CNext s.
Proof using Hw. unfold load_s, reading. destruct (target_read _ _ _) as [s' [v|]]; apply as_next. Qed.

Lemma as_load_fp sz va rd s : as_compressed w (load_fp sz va rd Next s) = load_fp sz va rd CNext s.
Proof using Hw. unfold load_fp, reading. destruct (target_read _ _ _) as [s' [v|]]; apply as_next. Qed.

Lemma as_store sz va v s : as_compressed w (store sz va v Next s) = store sz va v CNext s.
Proof using Hw. unfold store, writing. destruct (target_write _ _ _ _) as [s' [u|]]; apply as_next. Qed.

Lemma as_need_fp (k k' : E) s : as_compressed w (k s) = k' s ->
  as_compressed w (need_fp k s) = need_fp k' s.
Proof using Hw. intros Hk. unfold need_fp, look. destruct (_ =? _); [apply as_next|done]. Qed.
End Plain.

(** * The quadrants *)

Lemma cases3 x : 0 <= x < 8 ->
  x = 0 \/ x = 1 \/ x = 2 \/ x = 3 \/ x = 4 \/ x = 5 \/ x = 6 \/ x = 7.
Proof. lia. Qed.

Lemma xlen_cases : X = 32 /\ (X =? 32) = true /\ (64 <=? X) = false /\ (X <? 64) = true \/
  X = 64 /\ (X =? 32) = false /\ (64 <=? X) = true /\ (X <? 64) = false.
Proof using HX. destruct HX as [-> | ->]; auto. Qed.

Lemma xlen_not_128 : (128 <=? X) = false /\ (X =? 128) = false.
Proof using HX. destruct HX as [-> | ->]; auto. Qed.

(** [numerals], of literals only. *)
Ltac literals :=
  repeat match goal with
  | |- context [Z.eqb ?a ?b] =>
    lazymatch a with Z0 => idtac | Zpos _ => idtac end;
    lazymatch b with Z0 => idtac | Zpos _ => idtac end;
    let v := eval vm_compute in (Z.eqb a b) in change (Z.eqb a b) with v; cbv match
  end.

Ltac funct3_cases insn :=
  let E := fresh "F" in
  destruct (cases3 (slice insn 13 3) ltac:(by apply slice_range))
    as [E | [E | [E | [E | [E | [E | [E | E]]]]]]]; rewrite E; literals.

Lemma cases2 x : 0 <= x < 4 -> x = 0 \/ x = 1 \/ x = 2 \/ x = 3.
Proof. lia. Qed.

Lemma slice_1 v pos : 0 <= pos -> slice v pos 1 = Z_of_bool (Z.testbit v pos).
Proof.
  intros. bits_at i Hi. rewrite slice_testbit by lia. unfold Z_of_bool.
  destruct (Z.ltb_spec i 1); cbn [andb].
  - assert (i = 0) as -> by lia. rewrite Z.add_0_l. by destruct (Z.testbit v pos).
  - destruct (Z.testbit v pos); [|by rewrite Z.bits_0].
    symmetry. apply Z.bits_above_log2; cbn; lia.
Qed.

Lemma c_shamt_range insn : 0 <= c_shamt insn < 64.
Proof. apply (gather_range insn 6); done. Qed.

Lemma c_shamt_bit5 insn : Z.testbit (c_shamt insn) 5 = (32 <=? c_shamt insn).
Proof.
  pose proof (c_shamt_range insn). rewrite Z.testbit_odd, Z.shiftr_div_pow2 by lia. change (2 ^ 5) with 32.
  destruct (Z.leb_spec 32 (c_shamt insn)).
  - by rewrite <- (Z.div_unique_pos (c_shamt insn) 32 1 (c_shamt insn - 32)) by lia.
  - by rewrite Z.div_small by lia.
Qed.

(** A shift amount that is not reserved. *)
Lemma c_shamt_legal insn : (X =? 32) && (32 <=? c_shamt insn) = false -> 0 <= c_shamt insn < X.
Proof using HX. pose proof (c_shamt_range insn). destruct HX as [-> | ->]; lia. Qed.

Ltac c_imm L :=
  rewrite L, as_next by (try apply plain_i; in_format);
  unfold set_rd, goto; by rewrite ?c_reg_nz, ?sx_max.
Ltac c_alu L :=
  intros [= <-]; rewrite L, as_next by (try apply plain_r; in_format);
  unfold set_rd, goto; by rewrite ?c_reg_nz, ?sx_max.

Ltac c_load L :=
  intros [= <-]; rewrite L, as_load_s by (try apply plain_i; in_format);
  unfold look, load_s, set_rd; by rewrite ?c_reg_nz, sx_max.
Ltac c_load_fp L :=
  intros [= <-]; rewrite L by in_format; symmetry;
  apply as_need_fp; [apply plain_i; in_format|]; rewrite as_load_fp by (apply plain_i; in_format);
  unfold look; by rewrite sx_max.
Ltac c_store L :=
  intros [= <-]; rewrite L, as_store by (try apply plain_s; in_format);
  unfold look; by rewrite sx_max.
Ltac c_store_fp L :=
  intros [= <-]; rewrite L by in_format; symmetry;
  apply as_need_fp; [apply plain_s; in_format|]; rewrite as_store by (apply plain_s; in_format);
  unfold look; by rewrite sx_max.

Lemma c0_expands insn w s : expand_c0 X insn = Some w ->
  exec_c0 X insn s = as_compressed w (exec w s).
Proof using HX.
  unfold exec_c0, expand_c0. cbv zeta. rewrite get_bits_slice, !creg_eq, !fields_gather by (done || lia).
  fold (c_4spn insn). fold (c_imm_w insn). fold (c_imm_d insn).
  destruct xlen_not_128 as [-> _].
  funct3_cases insn.
  - destruct (_ =? _); intros [= <-]. rewrite exec_addi, as_next by (try apply plain_i; in_format).
    unfold set_rd. by rewrite c_reg_nz, <- sx_max.
  - c_load_fp exec_fld.
  - c_load exec_lw.
  - destruct xlen_cases as [(E & -> & -> & _) | (E & -> & -> & _)]; [c_load_fp exec_flw|c_load exec_ld].
  - done.
  - c_store_fp exec_fsd.
  - c_store exec_sw.
  - destruct xlen_cases as [(E & -> & -> & _) | (E & -> & -> & _)]; [c_store_fp exec_fsw|c_store exec_sd].
Qed.

Lemma c1_alu_expands insn w s : expand_c1_alu X insn = Some w ->
  exec_c1_alu X insn s = as_compressed w (exec w s).
Proof using HX.
  unfold exec_c1_alu, expand_c1_alu. cbv zeta. unfold imm_ci, simm.
  rewrite !get_bits_slice, !creg_eq, !fields_gather, sign_extend_sw by (done || lia).
  fold (c_imm6 insn). fold (c_shamt insn). rewrite !get_bit_testbit by lia.
  rewrite (slice_1 insn 12), c_shamt_bit5 by lia. destruct xlen_not_128 as [_ ->].
  destruct (cases2 (slice insn 10 2) ltac:(by apply slice_range)) as [E | [E | [E | E]]];
    rewrite E; literals; cbn [orb].
  - destruct (_ && _) eqn:Hs; [done|]. apply c_shamt_legal in Hs. intros [= <-]. c_imm exec_srli.
  - destruct (_ && _) eqn:Hs; [done|]. apply c_shamt_legal in Hs. intros [= <-]. c_imm exec_srai.
  - intros [= <-]. c_imm exec_andi.
  - destruct (Z.testbit insn 12);
      destruct (cases2 (slice insn 5 2) ltac:(by apply slice_range)) as [F | [F | [F | F]]]; rewrite F;
      numerals.
    + destruct xlen_cases as [(_ & -> & _) | (L & -> & _ & ->)]; [done|c_alu exec_subw].
    + destruct xlen_cases as [(_ & -> & _) | (L & -> & _ & ->)]; [done|c_alu exec_addw].
    + by destruct (X =? 32).
    + by destruct (X =? 32).
    + c_alu exec_sub.
    + c_alu exec_xor.
    + c_alu exec_or.
    + c_alu exec_and.
Qed.

(** * Jumps and branches *)

Lemma links_jtype rd imm : 0 <= rd < 32 -> links (jtype rd imm) = (rd =? 1).
Proof.
  intros. destruct (jtype_fields rd imm) as (E & Ed & _); [done|]. unfold links. by rewrite E, Ed.
Qed.

Lemma links_jalr rd rs1 : 0 <= rd < 32 -> 0 <= rs1 < 32 -> links (itype 0x67 0 rd rs1 0) = (rd =? 1).
Proof.
  intros. destruct (itype_fields 0x67 0 rd rs1 0) as (E & Ed & _); [lia..|]. unfold links. by rewrite E, Ed.
Qed.

Lemma set_greg_twice i a b s : set_greg i b (set_greg i a s) = set_greg i b s.
Proof. unfold set_greg, arr_set. cbn. by rewrite list_insert_insert_eq. Qed.

(** The link register, written again after the jump. *)
Lemma relink p a b s : set_greg 1 b (set_pc p (set_greg 1 a s)) = set_pc p (set_greg 1 b s).
Proof. change (set_pc p (set_greg 1 b (set_greg 1 a s)) = set_pc p (set_greg 1 b s)). by rewrite set_greg_twice. Qed.

Lemma c_branches (ne : bool) insn s : greg s 0 = 0 ->
  as_compressed (btype (Z_of_bool ne) (c_reg insn 7) 0 (c_b insn)) (exec (btype (Z_of_bool ne) (c_reg insn 7) 0 (c_b insn)) s) =
  if xorb (greg s (c_reg insn 7) =? 0) ne then (set_pc (sx X (pc0 + c_b insn)) s, Jump) else (s, CNext).
Proof using HX.
  intros H0r. rewrite exec_beq_bne, H0r, sx_max by in_format.
  destruct (xorb _ _); apply as_next, plain_b; destruct ne; in_format.
Qed.

Lemma greg_max s r : hart_wf s -> tu (greg s r) = greg s r.
Proof using HX.
  intros Hs. apply uw_small. refine (Forall_arr_get 0 (inw X) (reg s) r _ _).
  - apply (wf_reg_range _ _ _ _ _ _ _ _ _ _ _ _ _ _ Hs).
  - apply inw_0. destruct HX; lia.
Qed.

Lemma greg_x0 s : hart_wf s -> greg s 0 = 0.
Proof. intros Hs. apply (wf_x0 _ _ _ _ _ _ _ _ _ _ _ _ _ _ Hs). Qed.

Lemma c1_expands insn w s : hart_wf s -> expand_c1 X insn = Some w ->
  exec_c1 X pc0 insn s = as_compressed w (exec w s).
Proof using HX.
  intros Hs. pose proof (greg_x0 s Hs) as H0r.
  unfold exec_c1, expand_c1. cbv zeta. unfold imm_ci, imm_cj, imm_cb, simm.
  rewrite !get_bits_slice, creg_eq, !fields_gather, !sign_extend_sw by (done || lia).
  fold (c_imm6 insn). fold (c_j insn). fold (c_b insn). fold (c_16sp insn). fold (c_lui insn).
  fold (c_rd insn). funct3_cases insn.
  - intros [= <-]. c_imm exec_addi.
  - destruct xlen_cases as [(_ & -> & _) | (L & -> & _)].
    + intros [= <-]. rewrite exec_jal_at by in_format. unfold as_compressed.
      rewrite links_jtype by lia. cbn [fst snd Z.eqb Pos.eqb]. unfold goto.
      change (set_rd 1 (tu (pc0 + 4)) s) with (set_greg 1 (tu (pc0 + 4)) s).
      by rewrite relink, sx_max.
    + destruct (_ =? _); [done|]. intros [= <-]. c_imm exec_addiw.
  - intros [= <-]. rewrite exec_addi, as_next by (try apply plain_i; in_format). by rewrite H0r.
  - destruct (_ =? 2).
    + destruct (_ =? 0); [done|]. intros [= <-]. c_imm exec_addi.
    + destruct (_ =? 0); [done|]. intros [= <-].
      by rewrite exec_lui_at, as_next by (try apply plain_u; in_format).
  - apply c1_alu_expands.
  - intros [= <-]. rewrite exec_jal_at by in_format. unfold as_compressed.
    rewrite links_jtype by lia. unfold goto. by rewrite sx_max.
  - intros [= <-]. rewrite (c_branches false) by done. unfold look, goto. by destruct (_ =? _).
  - intros [= <-]. rewrite (c_branches true) by done. unfold look, goto. by destruct (_ =? _).
Qed.

Lemma c_shamt_eq insn : Z.lor (get_field1 insn 12 5 5) (get_bits 32 insn 2 5) = c_shamt insn.
Proof.
  rewrite get_bits_slice, get_field1_slice by lia. unfold c_shamt, gather. cbn [map lors fold_right].
  by rewrite Z.lor_0_r, Z.mul_1_r.
Qed.

Lemma c_lwsp_eq insn : lors [get_field1 insn 12 5 5; Z.land (get_bits 32 insn 2 5) (field_mask 32 2 3);
  get_field1 insn 2 6 7] = c_lwsp insn.
Proof. by rewrite get_bits_slice, !get_field1_slice, fields_low by lia. Qed.

Lemma c_ldsp_eq insn : lors [get_field1 insn 12 5 5; Z.land (get_bits 32 insn 2 5) (field_mask 32 3 2);
  get_field1 insn 2 6 8] = c_ldsp insn.
Proof. by rewrite get_bits_slice, !get_field1_slice, fields_low by lia. Qed.

Lemma c2_expands insn w s : hart_wf s -> expand_c2 X insn = Some w ->
  exec_c2 X pc0 insn s = as_compressed w (exec w s).
Proof using HX.
  intros Hs. pose proof (greg_x0 s Hs) as H0r.
  unfold exec_c2, expand_c2. cbv zeta. rewrite c_shamt_eq, c_lwsp_eq, c_ldsp_eq.
  rewrite !get_bits_slice, !fields_gather, !get_bit_testbit, (slice_1 insn 12), c_shamt_bit5 by (done || lia).
  fold (c_rd insn). fold (c_rs2 insn). fold (c_swsp insn). fold (c_sdsp insn).
  destruct xlen_not_128 as [_ ->]. cbn [andb]. funct3_cases insn.
  - destruct (_ && _) eqn:L; [done|]. apply c_shamt_legal in L. intros [= <-]. c_imm exec_slli.
  - c_load_fp exec_fld.
  - destruct (_ =? 0); [done|]. c_load exec_lw.
  - destruct xlen_cases as [(_ & -> & -> & _) | (L & -> & -> & _)]; [c_load_fp exec_flw|].
    destruct (_ =? 0); [done|]. c_load exec_ld.
  - destruct (Z.testbit insn 12); cbn [negb Z_of_bool]; literals; destruct (c_rs2 insn =? 0).
    + destruct (c_rd insn =? 0); intros [= <-]; [done|].
      rewrite exec_jalr_at by in_format. unfold as_compressed. rewrite links_jalr by in_format.
      cbn [fst snd Z.eqb Pos.eqb]. unfold goto. rewrite greg_max by done.
      change (set_rd 1 (tu (pc0 + 4)) ?x) with (set_greg 1 (tu (pc0 + 4)) x). by rewrite set_greg_twice.
    + c_alu exec_add.
    + destruct (c_rd insn =? 0); intros [= <-].
      rewrite exec_jalr_at by in_format. unfold as_compressed. rewrite links_jalr by in_format.
      unfold goto. by rewrite greg_max by done.
    + intros [= <-]. rewrite exec_add, as_next by (try apply plain_r; in_format).
      unfold goto. by rewrite H0r, Z.add_0_l, greg_max.
  - c_store_fp exec_fsd.
  - c_store exec_sw.
  - destruct xlen_cases as [(_ & -> & -> & _) | (L & -> & -> & _)]; [c_store_fp exec_fsw|c_store exec_sd].
Qed.

Lemma exec_quadrant insn : exec_insn int128 X pc0 ica insn =
  match slice insn 0 2 with
  | 0 => exec_c0 X insn
  | 1 => exec_c1 X pc0 insn
  | 2 => exec_c2 X pc0 insn
  | _ => exec_insn int128 X pc0 ica insn
  end.
Proof.
  assert (Z.land (get_bits 32 insn 0 7) 3 = slice insn 0 2) as E.
  { rewrite get_bits_slice by lia. change 3 with (Z.ones 2). rewrite Z.land_ones by lia.
    pose proof (slice_slice insn 0 7 0 2 ltac:(lia) ltac:(lia) ltac:(lia) ltac:(lia)) as Q.
    unfold slice in Q at 1. by rewrite Z.div_1_r in Q. }
  destruct (cases2 (slice insn 0 2) ltac:(by apply slice_range)) as [F | [F | [F | F]]]; rewrite F;
    [..|done]; unfold exec_insn; cbv zeta; rewrite E, F; reflexivity.
Qed.

Lemma exec_c0_zero insn s : slice insn 0 16 = 0 -> exec_c0 X insn s = (s, Illegal).
Proof.
  intros Z0. unfold exec_c0. cbv zeta. rewrite get_bits_slice, !fields_gather by (done || lia).
  rewrite (sub_slice _ _ _ _ 13 3 13 Z0) by lia. unfold gather. cbn [map].
  rewrite (sub_slice _ _ _ _ 11 _ 11 Z0), (sub_slice _ _ _ _ 7 _ 7 Z0), (sub_slice _ _ _ _ 6 _ 6 Z0),
    (sub_slice _ _ _ _ 5 _ 5 Z0) by lia. reflexivity.
Qed.

End Rvc.

#[local] Existing Instance demo_xlen.
#[local] Existing Instance demo_platform.

