(* ===== verification/RvSbi.v ===== *)
(** The SBI that answers a guest which starts in S mode:
    [src/cpu/riscv/riscv_interp_sbi.cpp], and the machine's side of it in
    [src/machine/riscv_machine.cpp].  The handler is one instance of the
    [Platform] the hart is modelled over; the theorems are about the hart
    sets it decodes, the remote fence, which never returns early and never
    deadlocks, and the hart's invariant, which it keeps. *)

From stdpp Require Import base numbers list gmap.
From S2P Require Import Prelude Bits Cutils IoMem RvState RvMem RvCsr RvTrap RvFp RvInsn RvInterp RvWf.
Local Open Scope Z_scope.

(** * Numbers *)

Definition SBI_SUCCESS : Z := 0.
Definition SBI_ERR_FAILED : Z := -1.
Definition SBI_ERR_NOT_SUPPORTED : Z := -2.
Definition SBI_ERR_INVALID_PARAM : Z := -3.
Definition SBI_ERR_ALREADY_AVAILABLE : Z := -6.

Definition SBI_EXT_LEGACY_LAST : Z := 0x08.
Definition SBI_EXT_BASE : Z := 0x10.
Definition SBI_EXT_TIME : Z := 0x54494d45.
Definition SBI_EXT_IPI : Z := 0x735049.
Definition SBI_EXT_RFNC : Z := 0x52464e43.
Definition SBI_EXT_HSM : Z := 0x48534d.
Definition SBI_EXT_SRST : Z := 0x53525354.
Definition SBI_EXT_DBCN : Z := 0x4442434e.

Definition SBI_SPEC_VERSION : Z := Z.lor (Z.shiftl 2 24) 0.
Definition SBI_IMPL_ID : Z := 0x54454d55.
Definition SBI_IMPL_VERSION : Z := 1.

(** * The rest of the machine *)

(** What the handler reaches besides the hart that calls it: the words the
    other harts share with other threads, by hart number, and the machine.
    [woken] are the calls of [WakeHart], [resets] those of [SystemReset],
    latest first; [console] is what was written to the console, if there is
    one.  [spins] is set when a call has not returned although the other
    threads did all they do. *)
Record World (E : Type) := mkWorld {
  peers : list (Shared unit);
  woken : list Z;
  resets : list (bool * bool);
  has_console : bool;
  console : list Z;
  stop_requested : bool;
  spins : bool;
  rest : E;
}.
Arguments mkWorld {E}.
Arguments peers {E} _.
Arguments woken {E} _.
Arguments resets {E} _.
Arguments has_console {E} _.
Arguments console {E} _.
Arguments stop_requested {E} _.
Arguments spins {E} _.
Arguments rest {E} _.
#[export] Instance eta_world E : Eta (World E) := fun w =>
  mkWorld (peers w) (woken w) (resets w) (has_console w) (console w) (stop_requested w)
    (spins w) (rest w).

(** Never looked at: a hart number is checked against [HartCount] first. *)
Definition peer0 : Shared unit := shared_init (mkMap [] false []) ∅ tt.

Definition hsm_number (st : RISCVHsmState) : Z :=
  match st with
  | RISCV_HSM_STARTED => 0
  | RISCV_HSM_STOPPED => 1
  | RISCV_HSM_START_PENDING => 2
  | RISCV_HSM_SUSPENDED => 4
  end.

Inductive fence_end := Fenced | Stopped | Spinning.

(** * Hart sets *)

Definition xlen_ones (xlen : Z) : Z := if xlen =? 32 then 2 ^ 32 - 1 else 2 ^ 64 - 1.

(** [for (i = 0; i < 64 && (mask >> i) != 0; i++)], with [n] turns left. *)
Fixpoint hart_set_loop (n : nat) (i count mask base set : Z) : option Z :=
  match n with
  | O => Some set
  | S n =>
    if Z.shiftr mask i =? 0 then Some set
    else if negb (Z.testbit mask i) then hart_set_loop n (i + 1) count mask base set
    else if (count <=? base) || (u64 (count - base) <=? i) then None
    else hart_set_loop n (i + 1) count mask base (Z.lor set (u64 (Z.shiftl 1 (u64 (base + i)))))
  end.

(** [None] is the result false. *)
Definition HartSet (count xlen mask base : Z) : option Z :=
  let all := if count =? 64 then 2 ^ 64 - 1 else u64 (Z.shiftl 1 count) - 1 in
  if base =? xlen_ones xlen then Some all
  else hart_set_loop 64 0 count mask base 0.

Section Sbi.
Context `{MaxXlen} {E : Type} (devices : Z -> DeviceIO (Shared (World E))).
Notation cpu := (RISCVCPUState (World E)).

(** The platform the hart's own memory accesses use. *)
#[local] Instance sbi_devices : Platform (World E) :=
  {| dev_io := devices; sbi_Ecall := fun s _ a => (s, a) |}.

Definition on_world (f : World E -> World E) : cpu -> cpu :=
  on_sh (fun h => h <| dev := f (dev h) |>).
Definition world (s : cpu) : World E := dev (sh s).
Definition HartCount (s : cpu) : Z := Z.of_nat (length (peers (world s))).

(** A call on [fHarts.Hart(hart)] that posts to it, and one that asks it
    something; the hart itself is one of them.  They are atomic operations on
    words other threads use. *)
Definition on_hart (hart : Z) (f : forall D, Shared D -> Shared D) (s : cpu) : cpu :=
  let s := interleave s in
  if hart =? mhartid s then on_sh (f _) s
  else on_world (fun w => w <| peers :=
         arr_set (peers w) hart (f _ (arr_get peer0 (peers w) hart)) |>) s.
Definition of_hart {A} (hart : Z) (f : forall D, Shared D -> A) (s : cpu) : A :=
  if hart =? mhartid s then f _ (sh s) else f _ (arr_get peer0 (peers (world s)) hart).

Definition WakeHart (hart : Z) : cpu -> cpu :=
  on_world (fun w => w <| woken := hart :: woken w |>).

Definition LegacyHartSet (mask_addr : Z) (s : cpu) : cpu * option Z :=
  if mask_addr =? 0 then (s, HartSet (HartCount s) 64 0 (2 ^ 64 - 1))
  else
    match ReadVirtual mask_addr s with
    | (s, None) => (s, None)
    | (s, Some mask) => (s, HartSet (HartCount s) 64 mask 0)
    end.

(** * Interrupts to other harts *)

Fixpoint send_ipi_loop (n : nat) (hart set : Z) (s : cpu) : cpu :=
  match n with
  | O => s
  | S n =>
    if set =? 0 then s
    else
      let s := if Z.testbit set 0
               then WakeHart hart (on_hart hart (fun D => PostSoftIrq) s) else s in
      send_ipi_loop n (hart + 1) (Z.shiftr set 1) s
  end.
Definition SendIpi (set : Z) (s : cpu) : cpu := send_ipi_loop 64 0 set s.

(** * Remote fences *)

(** The first loop: flush here, post to the others; the tickets, in order. *)
Fixpoint post_flushes (n : nat) (hart set : Z) (s : cpu) : cpu * list (Z * Z) :=
  match n with
  | O => (s, [])
  | S n =>
    if negb (Z.testbit set hart) then post_flushes n (hart + 1) set s
    else if hart =? mhartid s then post_flushes n (hart + 1) set (FlushTlb s)
    else
      let s := interleave s in
      let '(ticket, h) := PostTlbFlush (arr_get peer0 (peers (world s)) hart) in
      let s := WakeHart hart (on_world (fun w => w <| peers := arr_set (peers w) hart h |>) s) in
      let '(s, tickets) := post_flushes n (hart + 1) set s in
      (s, (hart, ticket) :: tickets)
  end.

(** A turn of [while (!TlbFlushDone(ticket))]. *)
Definition wait_turn (hart ticket : Z) (s : cpu) : cpu + (cpu * bool) :=
  let s := interleave s in
  if of_hart hart (fun D => TlbFlushDone ticket) s then inr (s, true)
  else if stop_requested (world s) then inr (s, false)
  else inl (TakePostedTlbFlush s).

(** Once the other threads are done nothing changes any more, so a loop that
    has not ended by then never does. *)
Fixpoint wait_flushes (tickets : list (Z * Z)) (s : cpu) : cpu * fence_end :=
  match tickets with
  | [] => (s, Fenced)
  | (hart, ticket) :: tickets =>
    match while_fuel (Pos.of_succ_nat (length (others s))) (wait_turn hart ticket) s with
    | inr (s, true) => wait_flushes tickets s
    | inr (s, false) => (s, Stopped)
    | inl s => (s, Spinning)
    end
  end.

Definition RemoteSfence (set : Z) (s : cpu) : cpu :=
  let '(s, tickets) := post_flushes 64 0 set s in
  match wait_flushes tickets s with
  | (s, Spinning) => on_world (fun w => w <| spins := true |>) s
  | (s, _) => s
  end.

(** * The extensions *)

(** The error and the value. *)
Definition Base (fid : Z) (a : list Z) : Z * Z :=
  if fid =? 0 then (SBI_SUCCESS, SBI_SPEC_VERSION)
  else if fid =? 1 then (SBI_SUCCESS, SBI_IMPL_ID)
  else if fid =? 2 then (SBI_SUCCESS, SBI_IMPL_VERSION)
  else if fid =? 3 then
    let a0 := arr_get 0 a 0 in
    (SBI_SUCCESS,
     if existsb (Z.eqb a0) [SBI_EXT_BASE; SBI_EXT_TIME; SBI_EXT_IPI; SBI_EXT_RFNC; SBI_EXT_HSM;
                            SBI_EXT_SRST; SBI_EXT_DBCN]
     then 1 else Z_of_bool (a0 <=? SBI_EXT_LEGACY_LAST))
  else if (fid =? 4) || (fid =? 5) || (fid =? 6) then (SBI_SUCCESS, 0)
  else (SBI_ERR_NOT_SUPPORTED, 0).

Definition Hsm (fid : Z) (a : list Z) (s : cpu) : cpu * (Z * Z) :=
  let a0 := arr_get 0 a 0 in
  let a1 := arr_get 0 a 1 in
  let a2 := arr_get 0 a 2 in
  if fid =? 0 then (* hart_start *)
    if HartCount s <=? a0 then (s, (SBI_ERR_INVALID_PARAM, 0))
    else
      let s := interleave s in
      if negb (of_hart a0 (fun D h => (HsmStart a1 a2 h).2) s)
      then (s, (SBI_ERR_ALREADY_AVAILABLE, 0))
      else
        let s := if a0 =? mhartid s then on_sh (fun h => (HsmStart a1 a2 h).1) s
                 else on_world (fun w => w <| peers := arr_set (peers w) a0
                        (HsmStart a1 a2 (arr_get peer0 (peers w) a0)).1 |>) s in
        (WakeHart a0 s, (SBI_SUCCESS, 0))
  else if fid =? 1 then (HsmStop s, (SBI_SUCCESS, 0))
  else if fid =? 2 then (* hart_get_status *)
    if HartCount s <=? a0 then (s, (SBI_ERR_INVALID_PARAM, 0))
    else
      let s := interleave s in
      (s, (SBI_SUCCESS, of_hart a0 (fun D h => hsm_number (hsm_state h)) s))
  else if fid =? 3 then (* hart_suspend *)
    if a0 =? 0 then (HsmSuspend true 0 0 s, (SBI_SUCCESS, 0))
    else if a0 =? 0x80000000 then (HsmSuspend false a1 a2 s, (SBI_SUCCESS, 0))
    else (s, (SBI_ERR_INVALID_PARAM, 0))
  else (s, (SBI_ERR_NOT_SUPPORTED, 0)).

(** [SystemReset] is called with the device lock held. *)
Definition Reset (type reason : Z) (s : cpu) : cpu * Z :=
  if negb (reason =? 0) && negb (reason =? 1) then (s, SBI_ERR_INVALID_PARAM)
  else if negb (type =? 0) && negb (type =? 1) && negb (type =? 2) then (s, SBI_ERR_INVALID_PARAM)
  else
    let s := interleave s in
    let s := on_world (fun w => w <| resets := (negb (type =? 0), reason =? 1) :: resets w |>) s in
    (HsmStop s, SBI_SUCCESS).

(** ** The machine's console *)

Definition ConsoleWriteData (data : list Z) : cpu -> cpu :=
  on_world (fun w => if has_console w then w <| console := console w ++ data |> else w).
Definition ConsolePutchar (c : Z) : cpu -> cpu := ConsoleWriteData [u8 c].

(** [n] bytes of host RAM. *)
Definition ram_bytes (m : gmap Z Z) (ptr n : Z) : list Z :=
  map (fun k => mem_byte m (ptr + Z.of_nat k)) (seq 0 (Z.to_nat n)).

(** A turn of the loop: the hart and [done]. *)
Definition console_turn (len a : Z) (t : cpu * Z) : cpu * Z + cpu * Z :=
  let '(s, done) := t in
  if negb (done <? len) then inr (s, done)
  else
    let n := DEVRAM_PAGE_SIZE - u64 (a + done) mod DEVRAM_PAGE_SIZE in
    let n := if len - done <? n then len - done else n in
    match (GetRamPtr (mem_map (sh s)) (u64 (a + done)) false).1 with
    | None => inr (s, done)
    | Some ptr => inl (ConsoleWriteData (ram_bytes (mem (sh s)) ptr n) s, done + n)
    end.

(** [len < 2^64], and a turn writes at least a byte. *)
Definition ConsoleWrite (len a : Z) (s : cpu) : cpu * (Z * Z) :=
  let '(s, done) :=
    match while_fuel (2 ^ 64) (console_turn len a) (s, 0) with inl t => t | inr t => t end in
  if (done =? 0) && nz len then (s, (SBI_ERR_INVALID_PARAM, 0)) else (s, (SBI_SUCCESS, done)).

(** [RISCVMachine::SbiCall]; [None] is the result false. *)
Definition SbiCall (xlen : Z) (a : list Z) (s : cpu) : cpu * option (list Z) :=
  let fid := u32 (arr_get 0 a 6) in
  let a0 := arr_get 0 a 0 in
  let a1 := arr_get 0 a 1 in
  let a2 := arr_get 0 a 2 in
  let a7 := arr_get 0 a 7 in
  if a7 =? 1 then (ConsolePutchar a0 s, Some (arr_set a 0 (u64 SBI_SUCCESS)))
  else if a7 =? 2 then (s, Some (arr_set a 0 (u64 SBI_ERR_FAILED)))
  else if negb (a7 =? SBI_EXT_DBCN) then (s, None)
  else
    let '(s, (err, value)) :=
      if fid =? 0 then
        if negb (xlen =? 32) && nz a2 then (s, (SBI_ERR_INVALID_PARAM, 0))
        else ConsoleWrite a0 (if xlen =? 32 then Z.lor a1 (u64 (Z.shiftl a2 32)) else a1) s
      else if fid =? 1 then (s, (SBI_SUCCESS, 0))
      else if fid =? 2 then (ConsolePutchar a0 s, (SBI_SUCCESS, 0))
      else (s, (SBI_ERR_NOT_SUPPORTED, 0)) in
    (s, Some (arr_set (arr_set a 0 (u64 err)) 1 value)).

(** The device lock is taken. *)
Definition TargetCall (xlen : Z) (a : list Z) (s : cpu) : cpu * option (list Z) :=
  SbiCall xlen a (interleave s).

Definition stime (xlen : Z) (a : list Z) : Z :=
  if xlen =? 32 then Z.lor (arr_get 0 a 0) (u64 (Z.shiftl (arr_get 0 a 1) 32)) else arr_get 0 a 0.

(** ** The calls *)

Definition Legacy (xlen eid : Z) (a : list Z) (s : cpu) : cpu * list Z :=
  let done '(s, ret) := (s, arr_set a 0 (u64 ret)) in
  if eid =? 0 then done (SetTimer (stime xlen a) s, SBI_SUCCESS)
  else if (eid =? 1) || (eid =? 2) then
    match TargetCall xlen a s with
    | (s, Some a) => (s, a)
    | (s, None) => done (s, SBI_ERR_NOT_SUPPORTED)
    end
  else if eid =? 3 then done (ClearSoftIrq s, SBI_SUCCESS)
  else if (4 <=? eid) && (eid <=? 7) then
    match LegacyHartSet (arr_get 0 a 0) s with
    | (s, None) => done (s, SBI_ERR_INVALID_PARAM)
    | (s, Some set) =>
      done (if eid =? 4 then SendIpi set s
            else if eid =? 5 then s (* FENCE.I *) else RemoteSfence set s, SBI_SUCCESS)
    end
  else if eid =? 8 then done ((Reset 0 0 s).1, SBI_SUCCESS)
  else done (s, SBI_SUCCESS).

(** The extensions that are not the machine's. *)
Definition ecall_ext (xlen eid fid : Z) (a : list Z) (s : cpu) : cpu * (Z * Z) :=
  let a0 := arr_get 0 a 0 in
  let a1 := arr_get 0 a 1 in
  if eid =? SBI_EXT_BASE then (s, Base fid a)
  else if eid =? SBI_EXT_TIME then
    if nz fid then (s, (SBI_ERR_NOT_SUPPORTED, 0))
    else (SetTimer (stime xlen a) s, (SBI_SUCCESS, 0))
  else if eid =? SBI_EXT_IPI then
    if nz fid then (s, (SBI_ERR_NOT_SUPPORTED, 0))
    else match HartSet (HartCount s) xlen a0 a1 with
         | None => (s, (SBI_ERR_INVALID_PARAM, 0))
         | Some set => (SendIpi set s, (SBI_SUCCESS, 0))
         end
  else if eid =? SBI_EXT_RFNC then
    if 2 <? fid then (s, (SBI_ERR_NOT_SUPPORTED, 0))
    else match HartSet (HartCount s) xlen a0 a1 with
         | None => (s, (SBI_ERR_INVALID_PARAM, 0))
         | Some set => (if fid =? 0 then s else RemoteSfence set s, (SBI_SUCCESS, 0))
         end
  else if eid =? SBI_EXT_HSM then Hsm fid a s
  else if eid =? SBI_EXT_SRST then
    if fid =? 0 then let '(s, err) := Reset a0 a1 s in (s, (err, 0))
    else (s, (SBI_ERR_NOT_SUPPORTED, 0))
  else (s, (SBI_ERR_NOT_SUPPORTED, 0)).

Definition Ecall (s : cpu) (xlen : Z) (a : list Z) : cpu * list Z :=
  let a7 := arr_get 0 a 7 in
  let eid := u32 a7 in
  let fid := u32 (arr_get 0 a 6) in
  if a7 <=? SBI_EXT_LEGACY_LAST then Legacy xlen eid a s
  else
    let '(s, called) := if a7 =? SBI_EXT_DBCN then TargetCall xlen a s else (s, None) in
    match called with
    | Some a => (s, a)
    | None =>
      let '(s, (err, value)) :=
        if negb (a7 =? eid) then (s, (SBI_ERR_NOT_SUPPORTED, 0)) else ecall_ext xlen eid fid a s in
      (s, arr_set (arr_set a 0 (u64 err)) 1 value)
    end.

(** The machine with this handler. *)
Definition sbi_machine : Platform (World E) := {| dev_io := devices; sbi_Ecall := Ecall |}.
End Sbi.

(** * The handler keeps the hart's invariant *)

#[local] Existing Instance keeps_preorder.

Section Keeps.
Context `{MaxXlen} {E : Type} (devices : Z -> DeviceIO (Shared (World E))).
Notation cpu := (RISCVCPUState (World E)).
Implicit Types s : cpu.

Lemma keeps_on_sh f s : keeps s (on_sh f s).
Proof. by apply keeps_core. Qed.

Lemma keeps_on_hart hart f s : keeps s (on_hart hart f s).
Proof.
  unfold on_hart. etransitivity; [apply keeps_interleave|]. case_match; apply keeps_on_sh.
Qed.

Lemma keeps_wake hart s : keeps s (WakeHart hart s).
Proof. apply keeps_on_sh. Qed.

Lemma keeps_send_ipi n hart set s : keeps s (send_ipi_loop n hart set s).
Proof.
  revert hart set s. induction n as [|n IH]; intros hart set s; [done|]. cbn [send_ipi_loop].
  case_match; [done|]. etransitivity; [|apply IH]. case_match; [|done].
  etransitivity; [apply keeps_on_hart|apply keeps_wake].
Qed.

Lemma keeps_take_posted s : keeps s (take_posted_tlb_flush s).
Proof. apply keeps_core, core_take_posted. Qed.

Lemma keeps_flush_tlb s : keeps s (FlushTlb s).
Proof. unfold FlushTlb. etransitivity; [|apply keeps_take_posted]. by apply keeps_core. Qed.

Lemma keeps_post_flushes n hart set s : keeps s (post_flushes n hart set s).1.
Proof.
  revert hart s. induction n as [|n IH]; intros hart s; [done|]. cbn [post_flushes].
  case_match; [apply IH|]. case_match; [etransitivity; [apply keeps_flush_tlb|apply IH]|].
  cbv zeta. destruct (PostTlbFlush _) as [t h].
  set (s1 := WakeHart _ _). pose proof (IH (hart + 1) s1) as Hk.
  destruct (post_flushes n (hart + 1) set s1). cbn [fst] in *. etransitivity; [|exact Hk].
  etransitivity; [apply keeps_interleave|]. etransitivity; [|apply keeps_wake]. apply keeps_on_sh.
Qed.

Lemma keeps_wait_turn hart ticket n s :
  match while_fuel n (wait_turn hart ticket) s with inl s' => keeps s s' | inr r => keeps s r.1 end.
Proof.
  apply (while_fuel_inv (keeps s) (fun r => keeps s r.1)); [|done]. clear n. intros t Ht.
  unfold wait_turn. cbv zeta. repeat case_match; simplify_eq; cbn [fst];
    (etransitivity; [exact Ht|]); try apply keeps_interleave.
  etransitivity; [apply keeps_interleave|apply keeps_take_posted].
Qed.

Lemma keeps_wait_flushes tickets s : keeps s (wait_flushes tickets s).1.
Proof.
  revert s. induction tickets as [|[hart ticket] tickets IH]; intros s; [done|]. cbn [wait_flushes].
  pose proof (keeps_wait_turn hart ticket (Pos.of_succ_nat (length (others s))) s) as Hk.
  destruct (while_fuel _ _ s) as [s'|[s' []]]; [done| |done]. etransitivity; [exact Hk|apply IH].
Qed.

Lemma keeps_remote_sfence set s : keeps s (RemoteSfence set s).
Proof.
  unfold RemoteSfence. pose proof (keeps_post_flushes 64 0 set s) as H1.
  destruct (post_flushes _ _ _ _) as [s1 tickets]. cbn [fst] in H1.
  pose proof (keeps_wait_flushes tickets s1) as H2. destruct (wait_flushes tickets s1) as [s2 []]; cbn [fst] in H2;
    
    (etransitivity; [exact H1|]); [exact H2..|]. etransitivity; [exact H2|apply keeps_on_sh].
Qed.

Lemma keeps_suspend retentive addr opaque s : keeps s (HsmSuspend retentive addr opaque s).
Proof. unfold HsmSuspend. cbv zeta. case_match; by apply keeps_core. Qed.

Lemma keeps_hsm fid a s : keeps s (Hsm fid a s).1.
Proof.
  unfold Hsm. cbv zeta. repeat case_match; cbn [fst]; try done; try (by apply keeps_core);
    try apply keeps_suspend; try apply keeps_interleave;
    (etransitivity; [apply keeps_interleave|]); etransitivity; try apply keeps_wake; apply keeps_on_sh.
Qed.

Lemma keeps_reset type reason s : keeps s (Reset type reason s).1.
Proof.
  unfold Reset. repeat case_match; cbn [fst]; try done.
  etransitivity; [apply keeps_interleave|]. by apply keeps_core.
Qed.

Lemma keeps_set_timer t s : keeps s (SetTimer t s).
Proof. eapply keeps_irq; [apply irq_update_stimer|done]. Qed.

Lemma keeps_console_write len a s : keeps s (ConsoleWrite len a s).1.
Proof.
  set (P := fun t : cpu * Z => keeps s t.1).
  assert (Ht : forall t, P t -> match console_turn len a t with inl t' => P t' | inr t' => P t' end).
  { intros [t done] Hp. unfold console_turn. repeat case_match; simplify_eq; exact Hp. }
  pose proof (while_fuel_inv P P _ Ht) as Hw.
  unfold ConsoleWrite. specialize (Hw (2 ^ 64)%positive (s, 0)).
  assert (H0 : P (s, 0)) by (unfold P; done). specialize (Hw H0).
  destruct (match while_fuel _ _ _ with inl t => t | inr t => t end) as [t done] eqn:Et.
  assert (Hp : P (t, done)) by (destruct (while_fuel _ _ _); simplify_eq; exact Hw).
  destruct ((done =? 0) && nz len); exact Hp.
Qed.

Lemma keeps_target_call xlen a s : keeps s (TargetCall xlen a s).1.
Proof.
  unfold TargetCall. etransitivity; [apply keeps_interleave|]. generalize (interleave s). clear s. intros s.
  assert (Hc : forall len b, keeps s (ConsoleWrite len b s).1) by (intros; apply keeps_console_write).
  unfold SbiCall. cbv zeta. do 3 (case_match; [try done; by apply keeps_core|]).
  set (r := if _ =? 0 then _ else _).
  assert (Hr : keeps s r.1).
  { unfold r. repeat case_match; try done; try apply Hc; by apply keeps_core. }
  by destruct r as [s1 [err value]].
Qed.

Lemma keeps_legacy_hart_set addr s : keeps s (LegacyHartSet devices addr s).1.
Proof.
  unfold LegacyHartSet. case_match; [done|]. unfold ReadVirtual.
  pose proof (framed_target_read_slow (H0 := sbi_devices devices) (if cur_xlen s =? 32 then 2%nat else 3%nat) (tu addr) s) as Hf.
  destruct (target_read_slow _ _ s) as [s1 r]. cbn [fst] in Hf. apply keeps_frame in Hf.
  destruct r; cbn [fst]; (etransitivity; [exact Hf|]); by apply keeps_core.
Qed.

Lemma keeps_legacy xlen eid a s : keeps s (Legacy devices xlen eid a s).1.
Proof.
  unfold Legacy. cbv zeta. case_match; [apply keeps_set_timer|].
  case_match. { pose proof (keeps_target_call xlen a s) as Hk. destruct (TargetCall xlen a s) as [s1 []]; exact Hk. }
  case_match; [by apply keeps_core|]. case_match; [|case_match; [apply keeps_reset|done]].
  pose proof (keeps_legacy_hart_set (arr_get 0 a 0) s) as Hk.
  destruct (LegacyHartSet _ _ s) as [s1 [set|]]; [|exact Hk]. cbn [fst] in *. etransitivity; [exact Hk|].
  case_match; [apply keeps_send_ipi|]. case_match; [done|apply keeps_remote_sfence].
Qed.

Lemma keeps_ecall_ext xlen eid fid a s : keeps s (ecall_ext xlen eid fid a s).1.
Proof.
  unfold ecall_ext. cbv zeta.
  repeat case_match; cbn [fst]; try done; try apply keeps_set_timer; try apply keeps_send_ipi;
    try apply keeps_remote_sfence; try apply keeps_hsm.
  match goal with E : Reset ?t ?r s = (?s1, _) |- _ =>
    pose proof (keeps_reset t r s) as Hk; rewrite E in Hk; exact Hk end.
Qed.
End Keeps.

(** the SBI handler keeps the invariant of the hart that calls it, for
    every call and every argument, whatever the other threads do meanwhile:
    what [hart_invariant] asks of a handler. *)
Theorem sbi_keeps_hart `{MaxXlen} {E} (devices : Z -> DeviceIO (Shared (World E)))
  (s : RISCVCPUState (World E)) xlen a :
  hart_wf s -> let s' := (@sbi_Ecall _ (sbi_machine devices) s xlen a).1 in
  hart_wf s' /\ n_cycles s' = n_cycles s.
Proof.
  intros Hs. cbv zeta. cut (keeps s (Ecall devices s xlen a).1); [intros [Hk Hn]; auto|].
  unfold Ecall. cbv zeta. case_match; [apply keeps_legacy|].
  set (c := if _ =? SBI_EXT_DBCN then _ else _).
  assert (Hc : keeps s c.1) by (unfold c; case_match; [apply keeps_target_call|done]).
  destruct c as [s1 [a1|]]; [exact Hc|]. cbn [fst] in Hc.
  set (r := if negb _ then _ else _).
  assert (Hr : keeps s1 r.1) by (unfold r; case_match; [done|apply keeps_ecall_ext]).
  destruct r as [s2 [err value]]. by transitivity s1.
Qed.

(** * Hart sets *)

(** The harts below [base + i] the mask names. *)
Definition named (mask base i h : Z) : bool := (base <=? h) && (h <? base + i) && Z.testbit mask (h - base).

Lemma named_step mask base i h : 0 <= i ->
  named mask base (i + 1) h = named mask base i h || ((h =? base + i) && Z.testbit mask i).
Proof.
  intros Hi. unfold named. destruct (Z.eqb_spec h (base + i)) as [->|Hne].
  - replace (base + i - base) with i by lia. destruct (Z.testbit mask i); repeat (case_cmp; try lia); done.
  - cbn [andb]. rewrite orb_false_r. repeat (case_cmp; try lia); done.
Qed.

Lemma named_all mask base i h : (forall j, i <= j -> Z.testbit mask j = false) -> i <= 64 ->
  named mask base i h = named mask base 64 h.
Proof.
  intros Hz Hi. unfold named. destruct (Z.leb_spec base h); [|done]. cbn [andb].
  destruct (Z.ltb_spec h (base + i)); [rewrite (proj2 (Z.ltb_lt h (base + 64))) by lia; done|].
  rewrite (Hz (h - base)) by lia. by rewrite !andb_false_r.
Qed.

(** What the loop returns, from position [i] on. *)
Definition hart_set_ok (i count mask base : Z) (r : option Z) : Prop :=
  match r with
  | Some set => (forall h, 0 <= h -> Z.testbit set h = named mask base 64 h) /\
      (forall j, i <= j -> Z.testbit mask j = true -> base + j < count)
  | None => exists j, i <= j < 64 /\ Z.testbit mask j = true /\ count <= base + j
  end.

Lemma hart_set_ok_step i count mask base r : (Z.testbit mask i = true -> base + i < count) ->
  hart_set_ok (i + 1) count mask base r -> hart_set_ok i count mask base r.
Proof.
  intros Hi. destruct r as [set|]; cbn.
  - intros [Hs Hj]. split; [done|]. intros j Hle Ht. destruct (Z.eq_dec j i) as [->|]; [auto|]. apply Hj; [lia|done].
  - intros (j & Hj & Ht & Hc). exists j. split; [lia|done].
Qed.

Lemma hart_set_loop_spec n i count mask base set : 0 <= i -> i + Z.of_nat n = 64 -> 0 <= count <= 64 ->
  inw 64 mask -> inw 64 base -> (forall h, 0 <= h -> Z.testbit set h = named mask base i h) ->
  hart_set_ok i count mask base (hart_set_loop n i count mask base set).
Proof.
  intros Hi Hn Hc Hm [Hb0 Hb1]. revert i set Hi Hn.
  induction n as [|n IH]; intros i set Hi Hn Hs; cbn [hart_set_loop].
  { assert (i = 64) as -> by lia. split; [done|]. intros j Hj Hj'.
    by rewrite (inw_high 64) in Hj' by (done || lia). }
  destruct (Z.eqb_spec (Z.shiftr mask i) 0) as [E|_].
  { assert (Hz : forall j, i <= j -> Z.testbit mask j = false).
    { intros j Hj. replace j with (j - i + i) by lia. rewrite <- Z.shiftr_spec by lia. rewrite E. apply Z.bits_0. }
    split; [|intros j Hj Ht; by rewrite Hz in Ht]. intros h Hh. rewrite Hs by done. apply named_all; [done|lia]. }
  destruct (Z.testbit mask i) eqn:Ei; cbn [negb].
  - destruct (Z.leb_spec count base); cbn [orb]; [exists i; split; [lia|split; [done|lia]]|].
    unfold u64 at 1. rewrite uw_small by (split; lia).
    destruct (Z.leb_spec (count - base) i); [exists i; split; [lia|split; [done|lia]]|].
    apply hart_set_ok_step; [lia|]. apply IH; [lia..|]. intros h Hh.
    rewrite Z.lor_spec, Hs, named_step, Ei, andb_true_r by done. f_equal.
    unfold u64. rewrite (uw_small 64 (base + i)) by (split; lia). rewrite uw_small.
    + rewrite Z.shiftl_1_l, testbit_pow2 by lia. done.
    + rewrite Z.shiftl_1_l. split; [apply Z.pow_nonneg; lia|apply Z.pow_lt_mono_r; lia].
  - apply hart_set_ok_step; [congruence|]. apply IH; [lia..|]. intros h Hh.
    rewrite named_step, Ei, andb_false_r, orb_false_r by lia. auto.
Qed.

(** the hart mask and base of an SBI call are decoded as the SBI says:
    base -1 is every hart; otherwise the set has exactly the harts base + i
    for the bits i of the mask, and the call is refused if and only if one of
    them does not exist. *)
Theorem hart_set_exact count xlen mask base : 0 <= count <= 64 -> inw 64 mask -> inw 64 base ->
  match HartSet count xlen mask base with
  | Some set => forall h, 0 <= h -> Z.testbit set h =
      if base =? xlen_ones xlen then h <? count
      else (base <=? h) && (h <? count) && Z.testbit mask (h - base)
  | None => base <> xlen_ones xlen /\ exists i, 0 <= i < 64 /\ Z.testbit mask i = true /\ count <= base + i
  end.
Proof.
  intros Hc Hm Hb. unfold HartSet. cbv zeta. destruct (Z.eqb_spec base (xlen_ones xlen)) as [E|E].
  - intros h Hh. replace (if _ =? 64 then _ else _) with (Z.ones count).
    { rewrite Z.testbit_ones_nonneg by lia. done. }
    rewrite Z.ones_equiv. destruct (Z.eqb_spec count 64) as [->|]; [done|].
    unfold u64. rewrite Z.shiftl_1_l, uw_small; [lia|].
    split; [apply Z.pow_nonneg; lia|apply Z.pow_lt_mono_r; lia].
  - pose proof (hart_set_loop_spec 64 0 count mask base 0 ltac:(lia) ltac:(lia) Hc Hm Hb) as Hl.
    assert (H0 : forall h, 0 <= h -> Z.testbit 0 h = named mask base 0 h).
    { intros h Hh. rewrite Z.bits_0. unfold named. repeat (case_cmp; try lia); done. }
    specialize (Hl H0). destruct (hart_set_loop _ _ _ _ _ _) as [set|]; [|split; [done|exact Hl]].
    destruct Hl as [Hs Hj]. intros h Hh. rewrite Hs by done. unfold named.
    destruct (Z.leb_spec base h); [|done]. cbn [andb].
    destruct (Z.testbit mask (h - base)) eqn:Et; [|by rewrite !andb_false_r].
    pose proof (Hj (h - base) ltac:(lia) Et). destruct Hb. repeat (case_cmp; try lia); done.
Qed.

Lemma hart_set_exact_witness :
  HartSet 4 64 5 1 = Some 10 /\ (forall h, 0 <= h -> Z.testbit 10 h = (1 <=? h) && (h <? 4) && Z.testbit 5 (h - 1)).
Proof.
  pose proof (hart_set_exact 4 64 5 1 ltac:(lia) ltac:(in_range) ltac:(in_range)) as Hs.
  split; [reflexivity|]. exact Hs.
Defined.

#[local] Existing Instance demo_xlen.

(** A machine of two harts with a console. *)
Definition sbi_hart : RISCVCPUState (World unit) :=
  SetSbiHandler (riscv_cpu_init 0 (shared_init (mkMap [] false []) ∅
    (mkWorld [peer0; peer0] [] [] true [] false false tt))).
Definition no_devices : Z -> DeviceIO (Shared (World unit)) :=
  fun _ => mkDeviceIO _ (fun h _ _ => (h, 0)) (fun h _ _ _ => h).

(** [sbi_send_ipi] to hart 1. *)
Lemma sbi_keeps_hart_witness :
  let r := @sbi_Ecall _ (sbi_machine no_devices) sbi_hart 64 [1; 1; 0; 0; 0; 0; 0; SBI_EXT_IPI] in
  hart_wf r.1 /\ woken (world r.1) = [1] /\
  ssip_posted (arr_get peer0 (peers (world r.1)) 1) = true /\ arr_get 0 r.2 0 = 0.
Proof.
  assert (Hw : hart_wf sbi_hart) by exact (hart_init_wf (D := World unit) demo_valid 0 (sh sbi_hart)).
  destruct (sbi_keeps_hart no_devices sbi_hart 64 [1; 1; 0; 0; 0; 0; 0; SBI_EXT_IPI] Hw) as [Hk _].
  split; [exact Hk|]. vm_compute. repeat split.
Defined.
